(* ===== verification/_CoqProject ===== *)
-Q . S2P
Prelude.v
Hlo.v
Json.v
Instruction.v
Partition.v
LoopConfig.v
LoopScheduler.v
LoopSchedulerFacts.v
PipelineSchedules.v
Sharding.v
ShardingIndex.v
ShardingProperties.v
ShardingLayout.v
ShardingReplication.v
Utils.v
InstructionProperties.v
PropertiesFacts.v
Coloring.v
ColoringVotes.v
ColoringFacts.v
ColoringRun.v
BufferScheduling.v
BufferSafety.v
BufferAlias.v
BufferAliasFacts.v
DeviceRuntime.v
ExecutableCache.v
Dfs.v
ColorDfs.v
TaskMemory.v
CompilerLatch.v
Grouper.v
GrouperSemantics.v
GrouperOrder.v
GrouperTotal.v
GrouperBuild.v
TaskScheduler.v
TaskSchedulerFacts.v
TaskSchedulerRun.v
TaskExecution.v
SchedulePriority.v
ZukuContext.v
PjrtExecutable.v
HloExecutor.v
PjrtRun.v
PjrtIssue.v
PjrtStores.v
PjrtComputes.v
PjrtSamples.v
PjrtFutures.v
Fusion.v
FusionSets.v
FusionVisit.v
FusionSemantics.v
Unroll.v
UnrollSemantics.v
UnrollSamples.v
InsertReshard.v
InsertReshardFacts.v
InsertReshardValues.v
ColorPasses.v
ColorPassesFacts.v
AssignedColors.v
CutSize.v
ColorSamples.v
ArgumentRecompute.v
RecomputeSearch.v
RecomputeClones.v
RecomputeFacts.v
LogicalSharding.v
LogicalPropagation.v
SplitTask.v
SplitTaskFacts.v
SplitTaskSemantics.v
CriticalPath.v
CriticalSplit.v
PjrtClient.v
PjrtClientFacts.v
PjrtClientCompile.v
PjrtClientSamples.v
