(* ===== verification/Prelude.v ===== *)
(** * MultiMesh for JAX: a verification development of the PJRT plugin

    The plugin (src/src/pjrt_client) compiles one HLO module into a pipeline of tasks,
    SPMD programs that each run on a part of the devices, and runs them.  [Compile] of
    mm_pjrt_client.cc has the module partitioned and its tasks compiled; MpmdPartition of
    mpmd_partition.cc is a pipeline of passes over the module; the executable of
    mm_pjrt_executable.cc turns each execution into commands for the runtime Zuku.

    ** The way of a module, and the files

    - Foundations.  [Prelude]: outcomes of C++ operations ([Result]: a value, a status, or
      the ways to leave them), loops ([foldM]), vectors, partial functions.  [Hlo]: the
      interfaces of XLA that the code reads (instructions, operands, users, post orders),
      with their laws as classes, and a concrete graph ([Graph]) on which all witnesses
      are evaluated.  [Json] (json_utils), [Instruction] (mpmd_instruction: colors and axes
      as attributes of instructions), [Partition] (hlo_partition: the registry of colors and
      their devices), [Utils] (mpmd_utils), [Dfs] (depth-first search with an explicit stack).
    - Colors say which task an instruction belongs to.  [InstructionProperties] and
      [PropertiesFacts]: what the passes ask of instructions.  [Coloring], [ColoringVotes],
      [ColoringFacts], [ColoringRun] (mpmd_coloring): annotated colors are propagated to
      operands and users by rounds of votes.  [ColorPasses], [ColorPassesFacts],
      [AssignedColors], [CutSize], [ColorSamples] (mpmd_compute_assigned_colors,
      mpmd_uniquify_colors, mpmd_cut_size_minimizer).  [ArgumentRecompute], [RecomputeSearch],
      [RecomputeClones], [RecomputeFacts] (mpmd_argument_recompute: cheap
      operands of another color are cloned instead of moved).
    - Tasks.  [ColorDfs] (color_dfs: a topological order with few changes of the color),
      [Grouper], [GrouperOrder], [GrouperTotal], [GrouperBuild], [GrouperSemantics]
      (mpmd_computation_grouper: instructions of a color become a called computation),
      [Fusion], [FusionSets], [FusionVisit], [FusionSemantics] (mpmd_computation_fusion: calls are
      merged), [SplitTask], [SplitTaskFacts], [SplitTaskSemantics], [CriticalPath],
      [CriticalSplit] (critical_path_finder, task_splitter,
      mpmd_split_critical_path: a task is split so that the result needed first is early).
    - Microbatch loops.  [LoopConfig] (microbatch_loop_config), [LoopScheduler],
      [LoopSchedulerFacts], [PipelineSchedules] (loop_scheduler: wavefront and fill-drain
      schedules), [Unroll], [UnrollSemantics], [UnrollSamples] (mpmd_loop_unroll).
    - Shardings.  [Sharding], [ShardingIndex], [ShardingProperties], [ShardingLayout],
      [ShardingReplication] (mm_sharding: which device has which part of an array).
      [LogicalPropagation], [LogicalSharding] (mpmd_logical_sharding_propagation,
      mpmd_logical_to_gspmd_sharding: named axes of arrays become shardings).
      [InsertReshard], [InsertReshardFacts], [InsertReshardValues]
      (mpmd_insert_reshard: values that a task needs elsewhere are moved).
    - Memory.  [BufferScheduling], [BufferSafety] (mpmd_buffer_scheduling_name: temporaries share
      buffers), [BufferAlias], [BufferAliasFacts] (mpmd_input_output_buffer_alias), [TaskMemory]
      (mm_computation: the arena of a task).
    - The schedule.  [TaskScheduler], [TaskSchedulerFacts], [TaskSchedulerRun], [TaskExecution],
      [SchedulePriority] (MpmdPartitionIntoTasks of mpmd_partition.cc: calls and reshards become
      operations over stores).
    - The client.  [PjrtClient], [PjrtClientFacts], [PjrtClientCompile], [PjrtClientSamples]
      (mm_pjrt_client: the description of the program's parameters and outputs, and the
      compilations), [ExecutableCache], [CompilerLatch] (executable_cache, mm_computation: the two
      places where threads meet, as step relations), [DeviceRuntime] (mm_device_assignment).
    - The execution.  [ZukuContext] (zuku_execute_context_impl: commands, events, stores),
      [PjrtExecutable], [HloExecutor], [PjrtRun], [PjrtIssue], [PjrtStores], [PjrtComputes],
      [PjrtFutures], [PjrtSamples] (mm_pjrt_executable, hlo_executor).

    A file without a suffix has the data and operations of its component, in the order and
    with the names of the code; the files with suffixes have their theorems.  A record stands
    for the members of a class; a function that changes members takes the record and
    returns it; status macros are binds of [Result].  The operations of a pass on the graph are
    either edits of a state that the pass reads again (fusion, reshards, the splitter), or,
    where the pass only builds, records of what it asks XLA to build (the grouper).

    ** What the theorems show

    - Semantics: the operations that MpmdPartition schedules compute the outputs of the
      module, whatever the tasks mean ([MpmdPartitionIntoTasks_computes]), and so does an
      execution of the executable, which hands them to the runtime as commands over
      stores, scalars and aliases included ([Execute_runs_schedule]); grouping, fusion,
      splitting, unrolling, inserting reshards and recomputing operands keep the values of
      the results ([tasks_compute_values], [FuseCalls_computes], [Run_splits],
      [Unroll_computes], [Run_keeps_values], [Run_recomputes_values]), and reshards deliver what the tasks expect ([Run_delivers]).
      [CreateTasks_describes_program] and [Compile_compiles_tasks] connect the schedule with the
      executable that runs it.
    - Schedules: complete, without repetition, and in an order that respects the
      dependences of microbatches and stages ([wavefront_schedule_complete],
      [wavefront_schedule_order], [control_dependencies_order]).
    - Coloring ends in a fixpoint, keeps annotations, and takes the color with the most votes;
      all colors are registered, unique after Uniquify, and moving instructions never makes
      the cut larger.
    - Shardings: the devices of a logical sharding, canonical layouts, resizing and
      replication agree with the arithmetic of tile indices ([index_roundtrip] and others); the
      sharding for named axes is the one they describe ([LogicalShardingToOpSharding_describes]).
    - Memory: buffers that are shared are never live together, aliases are a matching, arenas
      do not overlap and suffice.
    - Order and concurrency: every pass that sorts is topological, fused sets are
      acyclic, futures wait for the tasks they belong to, and the cache and the latch are
      correct under all interleavings.
    - Failures of the code itself are theorems or lemmas, too, for example
      [prioritized_reshard_is_overwritten]: the reshard that the schedule moves forward
      can lose its value, since buffers are named for another order.

    ** Recursion and fuel

    Loops over lists and maps are structural.  Loops that the code runs until something
    happens take fuel and end without any in [Fatal Diverges]; a theorem that a result has a
    property says also that there is one, or that the run ends.  The bounds: the length of
    chains of operands and aliases (the ranks of [AcyclicLaws]); the nesting of loops for the
    recursion into called computations; a round more than there are instructions for a
    propagation ([PropagateIf_returns]), and than there are calls and loops for fusion
    ([Visit_returns]); the number of colors for a name that is not in use; the instructions
    and their operands for a search with a stack ([enough_fuel] of ColorDfs); for the
    queue of FirstCallDepth and the operand trees of ArgumentRecompute some fuel is enough, and
    all greater fuels give the same result ([settles]).

    ** Parameters

    Code outside src/ is never defined here.  XLA's graph, tile assignments, cost analysis,
    layouts and compilers, the JSON library, Zuku's events and tiles, and the meaning of HLO
    operations are classes or section variables; what is needed of them are the laws of
    their classes ([PostOrderLaws], [UsersLaws], [AcyclicLaws], [DeviceListLaws] and the ones of
    shardings), which [Graph], [Slice] and the sample instances satisfy.  The orders of hash
    tables are a class ([HashOrder]), so theorems hold for every order.

    ** Not modelled

    The rewriting passes whose effect is a statement about particular HLO operations
    (reductions, converts, concatenations, collectives, optimization barriers), the
    propagation of shardings, which drives XLA's own pass over the tasks, and the cleaning
    passes around them; calls that only forward to XLA, PJRT, Zuku or CUDA (the C API, the
    plugin, Python bindings, transfers to host memory, starting CPU and GPU executables);
    floating-point contents of arrays; tests and mocks.

    Integers are unbounded except where the width of a type shows: the [int] arithmetic of
    the loop scheduler and of tile indices ([to_int32]), the limits of 64 bits in the sizes
    of temporary memory, of distances and of depths, and the fields of JSON objects. *)

From stdpp Require Export base gmap strings list pretty sorting.
From Stdlib Require Export ZArith Lia.

(** ** Outcomes of a C++ operation

    [absl::StatusOr<T>] is [OK] or [Err]; the third constructor records the
    ways in which the code leaves the regime of returned values. *)

Inductive StatusCode :=
  | kInvalidArgument
  | kInternal
  | kUnimplemented
  | kOutOfRange.

Inductive FatalKind :=
  | LogFatal        (* LOG(FATAL) *)
  | CheckFailed     (* CHECK(...) *)
  | Thrown          (* an uncaught C++ exception, e.g. from .at() *)
  | OutOfBounds     (* operator[] outside the vector *)
  | NullDeref       (* dereference of a null pointer or an empty optional *)
  | DivideByZero    (* integer division by zero *)
  | Diverges.       (* the loop or the recursion does not return *)

Inductive Result (A : Type) :=
  | OK (a : A)
  | Err (code : StatusCode) (msg : string)
  | Fatal (kind : FatalKind).
Arguments OK {_} _.
Arguments Err {_} _ _.
Arguments Fatal {_} _.

#[export] Instance StatusCode_eq_dec : EqDecision StatusCode.
Proof. solve_decision. Defined.
#[export] Instance FatalKind_eq_dec : EqDecision FatalKind.
Proof. solve_decision. Defined.
#[export] Instance Result_eq_dec {A} `{EqDecision A} : EqDecision (Result A).
Proof. solve_decision. Defined.

#[export] Instance Result_ret : MRet Result := fun A => OK.
#[export] Instance Result_bind : MBind Result := fun A B f m =>
  match m with OK a => f a | Err c s => Err c s | Fatal k => Fatal k end.
#[export] Instance Result_fmap : FMap Result := fun A B f m =>
  match m with OK a => OK (f a) | Err c s => Err c s | Fatal k => Fatal k end.

Definition of_option {A} (k : FatalKind) (o : option A) : Result A :=
  match o with Some a => OK a | None => Fatal k end.

Definition is_OK {A} (r : Result A) : Prop := exists a, r = OK a.

(** ** Loops

    A C++ loop over a range or a vector is [foldM] over the list of the values
    its variable takes; the body may return from the function with an error. *)

Fixpoint foldM {S A} (f : S -> A -> Result S) (s : S) (l : list A) : Result S :=
  match l with
  | [] => OK s
  | x :: l => s' ← f s x; foldM f s' l
  end.

(** [v[i]] on a [std::vector]: outside the vector the behaviour is undefined. *)
Definition vec_at {A} (l : list A) (i : Z) : Result A :=
  if bool_decide (i < 0)%Z then Fatal OutOfBounds
  else of_option OutOfBounds (l !! Z.to_nat i).

(** [v[i] = x] *)
Definition vec_set {A} (l : list A) (i : Z) (x : A) : Result (list A) :=
  if bool_decide (0 <= i < Z.of_nat (length l))%Z
  then OK (<[Z.to_nat i := x]> l) else Fatal OutOfBounds.

(** [v.size()] as the signed integer the code compares it with. *)
Definition Zlength {A} (l : list A) : Z := Z.of_nat (length l).

(** Narrowing a 64-bit integer to [int]. *)
Definition to_int32 (z : Z) : Z := ((z + 2 ^ 31) `mod` 2 ^ 32 - 2 ^ 31)%Z.

(** C++ [/] and [%] truncate towards zero and are undefined on zero. *)
Definition cdiv (a b : Z) : Result Z :=
  if bool_decide (b = 0)%Z then Fatal DivideByZero else OK (Z.quot a b).
Definition cmod (a b : Z) : Result Z :=
  if bool_decide (b = 0)%Z then Fatal DivideByZero else OK (Z.rem a b).

(** [absl::StartsWith] and [absl::StrContains]. *)
Definition StartsWith (s prefix : string) : bool := String.prefix prefix s.
Fixpoint StrContains (s sub : string) : bool :=
  String.prefix sub s ||
  match s with EmptyString => false | String _ s' => StrContains s' sub end.

(** [absl::StrCat] of an integer. *)
Definition StrCatZ (z : Z) : string := pretty z.

(** ** Hash tables and heaps

    The iteration order of [absl::flat_hash_map] and [flat_hash_set] is
    unspecified: it is an arbitrary rearrangement of the elements. *)
Class HashOrder := {
  hash_order : forall {A : Type}, list A -> list A;
  hash_order_perm : forall {A : Type} (l : list A), hash_order l ≡ₚ l;
}.

(** The order in which a [std::priority_queue] that has been filled with [l] is
    popped: no element is below a later one; ties are in an unspecified order. *)
Class HeapOrder := {
  heap_order : forall {A : Type} (less : A -> A -> bool), list A -> list A;
  heap_order_perm : forall {A : Type} (less : A -> A -> bool) (l : list A),
    heap_order less l ≡ₚ l;
  heap_order_sorted : forall {A : Type} (less : A -> A -> bool) (l : list A),
    (forall a b, less a b = true -> less b a = false) ->
    (forall a b c, less a b = false -> less b c = false -> less a c = false) ->
    StronglySorted (fun a b => less a b = false) (heap_order less l);
}.

(** Instances for evaluation: insertion order, and a merge sort. *)
Definition insertion_order : HashOrder.
Proof. by refine {| hash_order A l := l |}. Defined.

Definition not_less {A} (less : A -> A -> bool) : relation A := fun a b => less a b = false.

#[export] Instance not_less_dec {A} (less : A -> A -> bool) : RelDecision (not_less less) :=
  fun a b => decide (less a b = false).

Definition merge_heap : HeapOrder.
Proof.
  refine {| heap_order A less l := merge_sort (not_less less) l |}.
  - intros. apply merge_sort_Permutation.
  - intros A less l Hasym Htrans.
    assert (Total (not_less less)).
    { intros a b. unfold not_less. destruct (less a b) eqn:E; [right; by apply Hasym|by left]. }
    apply Sorted_StronglySorted; [intros a b c; apply Htrans|].
    apply (Sorted_merge_sort (not_less less)).
Defined.

(** * Shared lemmas *)

Lemma Result_bind_OK {A B} (m : Result A) (f : A -> Result B) (b : B) :
  m ≫= f = OK b <-> exists a, m = OK a /\ f a = OK b.
Proof. destruct m; cbn; naive_solver. Qed.

Lemma foldM_app {S A} (f : S -> A -> Result S) s l1 l2 :
  foldM f s (l1 ++ l2) = s' ← foldM f s l1; foldM f s' l2.
Proof.
  revert s. induction l1 as [|x l1 IH]; intros s; cbn; [done|].
  destruct (f s x); cbn; auto.
Qed.

Lemma foldM_ext {S A} (f g : S -> A -> Result S) s l :
  (forall s x, x ∈ l -> f s x = g s x) -> foldM f s l = foldM g s l.
Proof.
  revert s; induction l as [|x l IH]; intros s Hfg; cbn; [done|].
  rewrite Hfg by set_solver. destruct (g s x); cbn; [|done..].
  apply IH; set_solver.
Qed.

(** A loop that only appends what its body computes from the loop variable. *)
Lemma foldM_push {A B} (f : list B -> A -> Result (list B)) (g : A -> list B) acc l :
  (forall acc x, x ∈ l -> f acc x = OK (acc ++ g x)) ->
  foldM f acc l = OK (acc ++ (l ≫= g)).
Proof.
  revert acc; induction l as [|x l IH]; intros acc Hf; cbn.
  - by rewrite app_nil_r.
  - rewrite Hf by set_solver. cbn. rewrite IH by set_solver.
    by rewrite app_assoc.
Qed.

(** A loop invariant: [P] ranges over the elements already visited. *)
Lemma foldM_inv {S A} (P : list A -> S -> Prop) (f : S -> A -> Result S) s l s' :
  P [] s ->
  (forall done x rest st st', l = done ++ x :: rest -> P done st ->
     f st x = OK st' -> P (done ++ [x]) st') ->
  foldM f s l = OK s' -> P l s'.
Proof.
  intros H0 Hstep.
  assert (forall rest done st, l = done ++ rest -> P done st ->
            foldM f st rest = OK s' -> P l s') as H.
  { induction rest as [|x rest IH]; intros done st Hl HP Hrun; cbn in Hrun.
    - simplify_eq. by rewrite app_nil_r.
    - apply Result_bind_OK in Hrun as (st' & Hst & Hrun).
      apply (IH (done ++ [x]) st'); [|by eapply Hstep|done].
      by rewrite <- app_assoc. }
  intros Hrun. by eapply (H l [] s).
Qed.

(** Progress and correctness together: if every step succeeds from a state
    satisfying the invariant, the loop succeeds. *)
Lemma foldM_total {S A} (P : list A -> S -> Prop) (f : S -> A -> Result S) s l :
  P [] s ->
  (forall done x rest st, l = done ++ x :: rest -> P done st ->
     exists st', f st x = OK st' /\ P (done ++ [x]) st') ->
  exists s', foldM f s l = OK s' /\ P l s'.
Proof.
  intros H0 Hstep.
  assert (forall rest done st, l = done ++ rest -> P done st ->
            exists s', foldM f st rest = OK s' /\ P l s') as H.
  { induction rest as [|x rest IH]; intros done st Hl HP; cbn.
    - exists st. subst l. by rewrite app_nil_r.
    - destruct (Hstep done x rest st Hl HP) as (st' & -> & HP'). cbn.
      apply (IH (done ++ [x])); [by rewrite <- app_assoc|done]. }
  by apply (H l [] s).
Qed.

Lemma vec_at_lookup {A} (l : list A) (i : Z) x :
  vec_at l i = OK x <-> (0 <= i)%Z /\ l !! Z.to_nat i = Some x.
Proof.
  unfold vec_at, of_option. case_bool_decide.
  - split; [done|lia].
  - destruct (l !! Z.to_nat i); naive_solver lia.
Qed.

Lemma vec_at_nat {A} (l : list A) (i : nat) x :
  vec_at l (Z.of_nat i) = OK x <-> l !! i = Some x.
Proof. rewrite vec_at_lookup, Nat2Z.id. naive_solver lia. Qed.

(** Reading every index of a vector in order gives the vector. *)
Lemma vec_at_all {B} (l : list B) : vec_at l <$> seqZ 0 (Zlength l) = OK <$> l.
Proof.
  apply list_eq. intros i. rewrite !list_lookup_fmap.
  destruct (decide (i < length l)) as [Hi|Hi].
  - destruct (lookup_lt_is_Some_2 l i Hi) as [x Hx].
    rewrite lookup_seqZ_lt by (unfold Zlength; lia). rewrite Hx. cbn. f_equal.
    by apply vec_at_nat.
  - rewrite lookup_seqZ_ge by (unfold Zlength; lia).
    by rewrite lookup_ge_None_2 by lia.
Qed.

Lemma vec_at_is_OK {A} (l : list A) (i : Z) :
  (0 <= i < Zlength l)%Z -> exists x, vec_at l i = OK x.
Proof.
  intros [? Hi]. destruct (lookup_lt_is_Some_2 l (Z.to_nat i)) as [x Hx].
  { unfold Zlength in Hi; lia. }
  exists x. by apply vec_at_lookup.
Qed.

(** Splitting a list at an element. *)
Lemma split_lookup {A} (l l1 l2 : list A) x : l = l1 ++ x :: l2 ->
  l !! length l1 = Some x /\ take (length l1) l = l1.
Proof. intros ->. split; [by apply list_lookup_middle|apply take_app_length]. Qed.

Lemma to_int32_id z : (- 2 ^ 31 <= z < 2 ^ 31)%Z -> to_int32 z = z.
Proof. intros. unfold to_int32. rewrite Z.mod_small; lia. Qed.

Lemma to_int32_range z : (- 2 ^ 31 <= to_int32 z < 2 ^ 31)%Z.
Proof. unfold to_int32. pose proof (Z.mod_pos_bound (z + 2 ^ 31) (2 ^ 32)). lia. Qed.

Lemma foldM_concat {S A} (f : S -> A -> Result S) s (ls : list (list A)) :
  foldM (fun s l => foldM f s l) s ls = foldM f s (concat ls).
Proof.
  revert s; induction ls as [|l ls IH]; intros s; cbn; [done|].
  rewrite foldM_app. destruct (foldM f s l); cbn; auto.
Qed.

Lemma vec_set_OK {A} (l : list A) (i : Z) x :
  (0 <= i < Zlength l)%Z -> vec_set l i x = OK (<[Z.to_nat i := x]> l).
Proof. intros. unfold vec_set. by rewrite bool_decide_eq_true_2. Qed.

Lemma vec_at_nth (l : list Z) (i : Z) :
  (0 <= i < Zlength l)%Z -> vec_at l i = OK (nth (Z.to_nat i) l 0%Z).
Proof.
  intros Hi. destruct (vec_at_is_OK l i Hi) as [x Hx]. rewrite Hx. f_equal.
  apply vec_at_lookup in Hx as [_ Hx]. symmetry. by apply nth_lookup_Some.
Qed.

Lemma Zlength_nonneg {A} (l : list A) : (0 <= Zlength l)%Z.
Proof. unfold Zlength. lia. Qed.

Lemma cdiv_nonneg a b : (0 <= a)%Z -> (0 < b)%Z -> cdiv a b = OK (a / b)%Z.
Proof.
  intros. unfold cdiv. rewrite bool_decide_eq_false_2 by lia. by rewrite Z.quot_div_nonneg.
Qed.

Lemma cdiv_OK a b c : cdiv a b = OK c -> b <> 0%Z /\ c = Z.quot a b.
Proof. unfold cdiv. case_bool_decide; [done|]. by intros [= <-]. Qed.

Lemma cmod_OK a b c : cmod a b = OK c -> b <> 0%Z /\ c = Z.rem a b.
Proof. unfold cmod. case_bool_decide; [done|]. by intros [= <-]. Qed.

Lemma cmod_nonneg a b : (0 <= a)%Z -> (0 < b)%Z -> cmod a b = OK (a mod b)%Z.
Proof.
  intros. unfold cmod. rewrite bool_decide_eq_false_2 by lia. by rewrite Z.rem_mod_nonneg.
Qed.

Lemma elem_of_bind_list {A B} (f : A -> list B) l y :
  y ∈ l ≫= f <-> exists x, y ∈ f x /\ x ∈ l.
Proof. apply list_elem_of_bind. Qed.

Lemma bind_ext_in {A B} (f g : A -> list B) l :
  (forall x, x ∈ l -> f x = g x) -> l ≫= f = l ≫= g.
Proof.
  induction l as [|x l IH]; intros Hfg; [done|].
  rewrite !bind_cons, Hfg, IH by set_solver. done.
Qed.

Lemma bind_singleton {A B} (f : A -> B) (l : list A) : l ≫= (fun x => [f x]) = f <$> l.
Proof. induction l as [|x l IH]; [done|]. by rewrite bind_cons, IH. Qed.

Lemma bind_filter {A B} (P : A -> Prop) `{!forall x, Decision (P x)} (f : A -> B) (l : list A) :
  l ≫= (fun x => if decide (P x) then [f x] else []) = f <$> filter P l.
Proof.
  induction l as [|x l IH]; [done|]. rewrite bind_cons, filter_cons, IH. by case_decide.
Qed.

Lemma omap_fmap_list {A B C} (f : A -> B) (g : B -> option C) (l : list A) :
  omap g (f <$> l) = omap (fun x => g (f x)) l.
Proof.
  induction l as [|x l IH]; [done|]. cbn. destruct (g (f x)); [|done]. by f_equal.
Qed.

(** In a list sorted by [R], an element that is not below another one precedes it. *)
Lemma StronglySorted_before {A} (R : relation A) l i j a b :
  StronglySorted R l -> l !! i = Some a -> l !! j = Some b ->
  a <> b -> ~ R b a -> i < j.
Proof.
  intros Hs. revert i j. induction Hs as [|x l Hs IH Hx]; intros i j Ha Hb Hne Hnot; [done|].
  destruct i as [|i], j as [|j]; simplify_eq/=; [lia| |].
  - exfalso. apply Hnot. eapply (proj1 (Forall_forall _ _) Hx).
    by eapply list_elem_of_lookup_2.
  - apply ->Nat.succ_lt_mono. by eapply IH.
Qed.

Lemma StronglySorted_bind {A B} (R : relation B) (f : A -> list B) (S : relation A) l :
  StronglySorted S l ->
  (forall x, x ∈ l -> StronglySorted R (f x)) ->
  (forall x1 x2 y1 y2, x1 ∈ l -> x2 ∈ l -> S x1 x2 -> y1 ∈ f x1 -> y2 ∈ f x2 -> R y1 y2) ->
  StronglySorted R (l ≫= f).
Proof.
  induction 1 as [|x l Hs IH Hx]; intros Hf HS; cbn; [constructor|].
  assert (forall l1 l2, StronglySorted R l1 -> StronglySorted R l2 ->
            (forall y1 y2, y1 ∈ l1 -> y2 ∈ l2 -> R y1 y2) -> StronglySorted R (l1 ++ l2)) as Happ.
  { induction 1 as [|y l1 Hl1 IH1 Hy]; intros H2 H12; cbn; [done|].
    constructor; [apply IH1; set_solver|].
    apply Forall_app; split; [done|]. apply Forall_forall. set_solver. }
  apply Happ; [set_solver| |].
  - apply IH; [set_solver|]. intros x1 x2 y1 y2 ????. eapply HS; set_solver.
  - intros y1 y2 Hy1 (x2 & Hy2 & Hx2)%elem_of_bind_list.
    eapply (HS x x2); [set_solver|set_solver| |done|done].
    by eapply (proj1 (Forall_forall _ _) Hx).
Qed.

(** Two duplicate-free lists with the same elements are permutations of each other. *)
Lemma NoDup_same_Permutation {A} (l1 l2 : list A) :
  NoDup l1 -> NoDup l2 -> (forall x, x ∈ l1 <-> x ∈ l2) -> l1 ≡ₚ l2.
Proof. intros; by apply NoDup_Permutation. Qed.

Lemma concat_lookup {A} (l : list (list A)) k x a : l !! k = Some x -> a ∈ x -> a ∈ concat l.
Proof. intros Hk Ha. apply list_elem_of_In, in_concat. exists x. split; apply list_elem_of_In; [by eapply list_elem_of_lookup_2|done]. Qed.

Lemma concat_insert {A} (l : list (list A)) k x a : l !! k = Some x -> concat (<[k := x ++ [a]]> l) ≡ₚ a :: concat l.
Proof.
  revert k. induction l as [|y l IH]; intros [|k]; cbn; [done|done| |].
  - intros [= ->]. rewrite <- app_assoc. cbn. by rewrite <- Permutation_middle.
  - intros Hk. rewrite (IH k Hk). by rewrite <- Permutation_middle.
Qed.

(** ** Computations that return *)

Definition returns {A} (m : Result A) : Prop := m <> Fatal Diverges.

Lemma returns_bind {A B} (m : Result A) (f : A -> Result B) :
  returns m -> (forall a, m = OK a -> returns (f a)) -> returns (m ≫= f).
Proof. unfold returns. destruct m; cbn; auto. congruence. Qed.

Lemma returns_foldM {S A} (f : S -> A -> Result S) s l :
  (forall s x, x ∈ l -> returns (f s x)) -> returns (foldM f s l).
Proof.
  revert s; induction l as [|x l IH]; intros s Hf; cbn; [done|].
  apply returns_bind; [apply Hf; set_solver|]. intros s' _. apply IH. intros; apply Hf; set_solver.
Qed.

Lemma returns_vec_at {A} (l : list A) i : returns (vec_at l i).
Proof. unfold returns, vec_at. case_bool_decide; [done|]. by destruct (l !! Z.to_nat i). Qed.

Lemma returns_vec_set {A} (l : list A) i x : returns (vec_set l i x).
Proof. unfold vec_set. by case_bool_decide. Qed.

Lemma returns_cmod a b : returns (cmod a b).
Proof. unfold cmod. by case_bool_decide. Qed.

Create HintDb returns.
#[export] Hint Resolve returns_bind returns_foldM returns_vec_at returns_vec_set returns_cmod : returns.

(** With enough fuel there is a result that more fuel does not change. *)
Definition settles {A} (m : nat -> Result A) : Prop :=
  exists fuel r, returns r /\ forall fuel', (fuel <= fuel')%nat -> m fuel' = r.

Lemma settles_const {A} (m : Result A) : returns m -> settles (fun _ => m).
Proof. intros Hm. by exists 0%nat, m. Qed.

Lemma settles_bind {A B} (m : nat -> Result A) (f : nat -> A -> Result B) : settles m ->
  (forall a, (exists fuel, m fuel = OK a) -> settles (fun fuel => f fuel a)) -> settles (fun fuel => m fuel ≫= f fuel).
Proof.
  intros (n & r & Hr & Hm) Hf. destruct r as [a|c e|k].
  - destruct (Hf a) as (n' & r' & Hr' & Hf'); [exists n; by apply Hm|].
    exists (n `max` n')%nat, r'. split; [done|]. intros k Hk. rewrite Hm by lia. cbn. apply Hf'. lia.
  - exists n, (Err c e). split; [done|]. intros k Hk. by rewrite Hm.
  - exists n, (Fatal k). split; [intros [= ->]; by apply Hr|]. intros k' Hk. by rewrite Hm.
Qed.

Lemma settles_foldM {S A} (P : S -> Prop) (f : nat -> S -> A -> Result S) s l :
  (forall s x, P s -> x ∈ l -> settles (fun fuel => f fuel s x)) ->
  (forall fuel s x s', P s -> x ∈ l -> f fuel s x = OK s' -> P s') -> P s -> settles (fun fuel => foldM (f fuel) s l).
Proof.
  intros Hf Hp. revert s. induction l as [|x l IH]; intros s Hs; [by apply (settles_const (OK s))|].
  apply (settles_bind (fun fuel => f fuel s x) (fun fuel s => foldM (f fuel) s l)); [apply Hf; [done|by left]|].
  intros a [fuel Ha]. apply IH.
  - intros s1 y Hs1 Hy. apply Hf; [done|by right].
  - intros n s1 y s2 Hs1 Hy. apply Hp; [done|by right].
  - by apply (Hp fuel s x a); [|left|].
Qed.

(** ** Automation shared by the components *)

(** Runs a monadic hypothesis [m = OK x] back through its binds. *)
Ltac run_inv :=
  repeat match goal with
  | H : _ ≫= _ = OK _ |- _ =>
      apply Result_bind_OK in H; destruct H as (? & ? & ?)
  | H : OK _ = OK _ |- _ => injection H as H; try subst
  | H : mret _ = OK _ |- _ => injection H as H; try subst
  | H : Err _ _ = OK _ |- _ => discriminate H
  | H : Fatal _ = OK _ |- _ => discriminate H
  end.

Create HintDb mm.
Create Rewrite HintDb mm.
#[export] Hint Resolve Zlength_nonneg : core.
#[export] Hint Resolve elem_of_nil not_elem_of_nil NoDup_nil_2 : mm.
#[export] Hint Rewrite @foldM_app @app_nil_r : mm.
