(* ===== verification/Hlo.v ===== *)
(** * The third-party interfaces the code is written against

    XLA's HLO intermediate representation, its frontend-attribute store and the
    device lists of the Zuku runtime are not part of this repository.  They are
    parameters of the development: each is a type class of the accessors that
    the code calls, together with a class of laws that states the documented
    behaviour of those accessors.  The [Graph] and [Slice] modules at the end
    are concrete instances on which the witnesses of later files evaluate. *)
From S2P Require Import Prelude.

(** ** Opcodes

    The enumerators of [xla::HloOpcode] that the code mentions; all the others
    are [kOtherOpcode]. *)
Inductive HloOpcode :=
  | kAdd | kAllGather | kAllGatherStart | kAllReduce | kAllReduceStart
  | kAllToAll | kAnd | kBitcast | kBroadcast | kCall | kCeil
  | kCollectiveBroadcast | kCollectivePermute | kCollectivePermuteStart
  | kConcatenate | kConstant | kConvert | kCopy | kCos | kCustomCall
  | kDivide | kDot | kDynamicSlice | kExp | kGetTupleElement | kIota | kLog
  | kMultiply | kNegate | kNot | kOptimizationBarrier | kOr | kParameter
  | kRaggedAllToAll | kReduce | kReducePrecision | kReduceScatter | kReshape
  | kRngBitGenerator | kScatter | kSelect | kSin | kSqrt | kSubtract | kTan
  | kTanh | kTranspose | kTuple | kWhile
  | kOtherOpcode (n : nat).

#[export] Instance HloOpcode_eq_dec : EqDecision HloOpcode.
Proof. solve_decision. Defined.

(** ** Read access to an HLO module

    [I] stands for [HloInstruction*], [C] for [HloComputation*].  The passes that
    are modelled through this class read the graph and do not change it. *)
Class Hlo (I C : Type) := {
  opcode : I -> HloOpcode;
  operands : I -> list I;
  users : I -> list I;
  tuple_index : I -> Z;
  parameter_number_of : I -> Z;
  called_computations : I -> list C;
  has_backend_config : I -> bool;
  custom_call_target : I -> string;
  op_name : I -> string;              (* metadata().op_name() *)
  shape_IsTuple : I -> bool;
  IsElementwise : I -> bool;
  ElementsIn : I -> Z;                (* ShapeUtil::ElementsIn(i->shape()) *)
  ByteSizeOf : I -> Z;                (* ShapeUtil::ByteSizeOf(i->shape(), 8) *)
  root_instruction : C -> I;
  parameter_instructions : C -> list I;
  MakeInstructionPostOrder : C -> list I;
}.

(** What the passes rely on: a post order lists every instruction once, operands
    before users, and contains the root. *)
Class PostOrderLaws (I C : Type) `{Hlo I C} := {
  postorder_NoDup : forall c, NoDup (MakeInstructionPostOrder c);
  postorder_operands : forall c n i o,
    MakeInstructionPostOrder c !! n = Some i -> o ∈ operands i ->
    exists m, m < n /\ MakeInstructionPostOrder c !! m = Some o;
  postorder_root : forall c, root_instruction c ∈ MakeInstructionPostOrder c;
}.

(** The operands of instructions, and the computations they call, have no cycles. *)
Class AcyclicLaws (I C : Type) `{Hlo I C} := {
  operand_rank : I -> nat;
  operand_rank_lt : forall i o, o ∈ operands i -> operand_rank o < operand_rank i;
  call_rank : C -> nat;
  call_rank_lt : forall c i c',
    i ∈ MakeInstructionPostOrder c -> c' ∈ called_computations i -> call_rank c' < call_rank c;
}.

(** The users of an instruction are the instructions it is an operand of, each once. *)
Class UsersLaws (I C : Type) `{Hlo I C} := {
  users_spec : forall v x, x ∈ users v <-> v ∈ operands x;
  users_NoDup : forall v, NoDup (users v);
}.

Section accessors.
Context {I C : Type} `{Hlo I C}.

(** [i->operand(n)] / [i->mutable_operand(n)] *)
Definition operand (i : I) (n : Z) : Result I := vec_at (operands i) n.

(** [i->called_computations()[n]] *)
Definition called_computation (i : I) (n : Z) : Result C :=
  vec_at (called_computations i) n.

(** [i->IsCustomCall(target)] *)
Definition IsCustomCall (i : I) (target : string) : bool :=
  bool_decide (opcode i = kCustomCall) && bool_decide (custom_call_target i = target).
End accessors.

(** ** Frontend attributes

    [St] is the state of the module that the attributes live in. *)
Class AttrStore (I St : Type) := {
  frontend_attributes : St -> I -> gmap string string;
  set_frontend_attributes : I -> gmap string string -> St -> St;
  add_frontend_attributes : I -> gmap string string -> St -> St;
}.

(** [set_frontend_attributes] replaces the attributes of the instruction;
    [add_frontend_attributes] keeps the existing ones. *)
Class AttrStoreLaws (I St : Type) `{EqDecision I} `{AttrStore I St} := {
  attrs_set : forall i j m s,
    frontend_attributes (set_frontend_attributes i m s) j =
      if decide (i = j) then m else frontend_attributes s j;
  attrs_add : forall i j m s,
    frontend_attributes (add_frontend_attributes i m s) j =
      if decide (i = j) then frontend_attributes s i ∪ m else frontend_attributes s j;
}.

(** ** Device lists: [zuku::DeviceList] *)
Class DeviceListApi (D : Type) := {
  dl_default : D;                (* the default-constructed list *)
  dl_create : Z -> Z -> D;       (* start and number of devices *)
  dl_start : D -> Z;
  dl_size : D -> Z;
  dl_stop : D -> Z;
  dl_at : D -> Z -> Z;
}.

Class DeviceListLaws (D : Type) `{DeviceListApi D} := {
  dl_start_create : forall s n, dl_start (dl_create s n) = s;
  dl_size_create : forall s n, dl_size (dl_create s n) = n;
  dl_stop_def : forall d, dl_stop d = (dl_start d + dl_size d)%Z;
  dl_at_def : forall d k, (0 <= k < dl_size d)%Z -> dl_at d k = (dl_start d + k)%Z;
  dl_ext : forall d1 d2, dl_start d1 = dl_start d2 -> dl_size d1 = dl_size d2 -> d1 = d2;
}.

(** ** Concrete instances *)

(** A device list as its start and its size. *)
Module Slice.
Record t := mk { start : Z; size : Z }.
#[global] Instance eq_dec : EqDecision t.
Proof. solve_decision. Defined.
#[global] Instance countable : Countable t.
Proof. by apply (inj_countable' (fun d => (start d, size d)) (fun q => mk q.1 q.2)); intros []. Defined.
#[global] Instance api : DeviceListApi t := {
  dl_default := mk 0 0;
  dl_create := mk;
  dl_start := start;
  dl_size := size;
  dl_stop d := (start d + size d)%Z;
  dl_at d k := (start d + k)%Z;
}.
#[global] Instance laws : DeviceListLaws t.
Proof. split; cbn; auto. intros [??] [??]; cbn; congruence. Qed.
End Slice.

(** Frontend attributes as a finite map from instruction numbers. *)
Module AttrMap.
Abbreviation t := (gmap nat (gmap string string)).
#[global] Instance store : AttrStore nat t := {
  frontend_attributes s i := default ∅ (s !! i);
  set_frontend_attributes i m s := <[i := m]> s;
  add_frontend_attributes i m s := <[i := default ∅ (s !! i) ∪ m]> s;
}.
#[global] Instance laws : AttrStoreLaws nat t.
Proof.
  split; intros i j m s; cbn; rewrite lookup_insert; by repeat case_decide; subst.
Qed.
End AttrMap.

(** A module as an array of nodes; an instruction or a computation is its index. *)
Module Graph.
Record node := Node {
  n_opcode : HloOpcode;
  n_operands : list nat;
  n_index : Z;                 (* tuple index or parameter number *)
  n_called : list nat;
  n_target : string;
  n_op_name : string;
  n_tuple : bool;
  n_elements : Z;
  n_elementwise : bool;
}.
Record comp := Comp { c_root : nat; c_params : list nat; c_order : list nat }.

Definition dummy : node := Node (kOtherOpcode 0) [] 0 [] "" "" false 1 false.
Definition dummy_comp : comp := Comp 0 [] [0].

(** A leaf or elementwise node of one element. *)
Definition op (o : HloOpcode) (ops : list nat) : node :=
  Node o ops 0 [] "" "" false 1 true.

Definition at_ (ns : list node) (i : nat) : node := nth i ns dummy.

Definition users_of (ns : list node) (i : nat) : list nat :=
  filter (fun j => i ∈ n_operands (at_ ns j)) (seq 0 (length ns)).

Definition hlo (ns : list node) (cs : list comp) : Hlo nat nat := {|
  opcode i := n_opcode (at_ ns i);
  operands i := n_operands (at_ ns i);
  users := users_of ns;
  tuple_index i := n_index (at_ ns i);
  parameter_number_of i := n_index (at_ ns i);
  called_computations i := n_called (at_ ns i);
  has_backend_config i := bool_decide (n_opcode (at_ ns i) = kWhile);
  custom_call_target i := n_target (at_ ns i);
  op_name i := n_op_name (at_ ns i);
  shape_IsTuple i := n_tuple (at_ ns i);
  IsElementwise i := n_elementwise (at_ ns i);
  ElementsIn i := n_elements (at_ ns i);
  ByteSizeOf i := (4 * n_elements (at_ ns i))%Z;
  root_instruction c := c_root (nth c cs dummy_comp);
  parameter_instructions c := c_params (nth c cs dummy_comp);
  MakeInstructionPostOrder c := c_order (nth c cs dummy_comp);
|}.

(** Nodes refer to nodes before them, computations call computations before them,
    and every order is a post order of its computation. *)
Definition node_ok (ns : list node) (i : nat) : bool :=
  forallb (fun o => bool_decide (o < i)) (n_operands (at_ ns i)).

Definition comp_ok (ns : list node) (c : nat) (cp : comp) : bool :=
  bool_decide (NoDup (c_order cp)) && bool_decide (c_root cp ∈ c_order cp) &&
  forallb (fun k => let i := nth k (c_order cp) 0 in
             forallb (fun o => bool_decide (o ∈ take k (c_order cp))) (n_operands (at_ ns i)) &&
             forallb (fun c' => bool_decide (c' < c)) (n_called (at_ ns i)))
          (seq 0 (length (c_order cp))).

Definition graph_ok (ns : list node) (cs : list comp) : bool :=
  forallb (node_ok ns) (seq 0 (length ns)) && comp_ok ns 0 dummy_comp &&
  forallb (fun c => comp_ok ns c (nth c cs dummy_comp)) (seq 0 (length cs)).

Lemma comp_ok_spec ns c cp : comp_ok ns c cp = true ->
  NoDup (c_order cp) /\ c_root cp ∈ c_order cp /\
  forall k i, c_order cp !! k = Some i ->
    (forall o, o ∈ n_operands (at_ ns i) -> o ∈ take k (c_order cp)) /\
    (forall c', c' ∈ n_called (at_ ns i) -> c' < c).
Proof.
  unfold comp_ok. rewrite !andb_true_iff, !bool_decide_eq_true, forallb_forall.
  intros [[Hnd Hroot] Hall]. split; [done|]. split; [done|]. intros k i Hi.
  assert (In k (seq 0 (length (c_order cp)))) as Hk
    by (apply in_seq; apply lookup_lt_Some in Hi; lia).
  specialize (Hall k Hk). rewrite (nth_lookup_Some _ _ 0 _ Hi) in Hall.
  rewrite andb_true_iff, !forallb_forall in Hall. destruct Hall as [Ho Hc]. split.
  - intros o Ho'. apply list_elem_of_In, Ho in Ho'. by apply bool_decide_eq_true_1 in Ho'.
  - intros c' Hc'. apply list_elem_of_In, Hc in Hc'. by apply bool_decide_eq_true_1 in Hc'.
Qed.

Lemma graph_ok_comp ns cs c : graph_ok ns cs = true ->
  let cp := nth c cs dummy_comp in
  NoDup (c_order cp) /\ c_root cp ∈ c_order cp /\
  forall k i, c_order cp !! k = Some i ->
    (forall o, o ∈ n_operands (at_ ns i) -> o ∈ take k (c_order cp)) /\
    (forall c', c' ∈ n_called (at_ ns i) -> c' < c).
Proof.
  intros Hok cp. unfold graph_ok in Hok.
  rewrite !andb_true_iff, !forallb_forall in Hok. destruct Hok as [[_ Hd] Hc].
  destruct (decide (c < length cs)) as [Hlt|Hge].
  - apply comp_ok_spec, Hc, in_seq. lia.
  - subst cp. rewrite nth_overflow by lia. apply comp_ok_spec in Hd as (?&?&Hd).
    split; [done|]. split; [done|]. intros k i Hi. destruct (Hd _ _ Hi) as [Ho Hc'].
    split; [done|]. intros x Hx%Hc'. lia.
Qed.

Lemma postorder_laws ns cs : graph_ok ns cs = true -> @PostOrderLaws nat nat (hlo ns cs).
Proof.
  intros Hok. split; cbn.
  - intros c. apply (graph_ok_comp _ _ c Hok).
  - intros c n i o Hn Ho. destruct (graph_ok_comp _ _ c Hok) as (_ & _ & Hc).
    apply Hc in Hn as [Hops _]. apply Hops in Ho.
    apply list_elem_of_lookup in Ho as [m Hm]. exists m. apply lookup_take_Some in Hm. tauto.
  - intros c. apply (graph_ok_comp _ _ c Hok).
Qed.

Lemma acyclic_laws ns cs : graph_ok ns cs = true -> @AcyclicLaws nat nat (hlo ns cs).
Proof.
  intros Hok. refine {| operand_rank i := if decide (i < length ns) then i else 0; call_rank c := c |}; cbn.
  - intros i o Ho. cut (o < i /\ i < length ns); [intros; repeat case_decide; lia|].
    unfold graph_ok in Hok. rewrite !andb_true_iff, !forallb_forall in Hok.
    destruct Hok as [[Hn _] _]. destruct (decide (i < length ns)) as [Hlt|Hge].
    + specialize (Hn i ltac:(apply in_seq; lia)). unfold node_ok in Hn.
      rewrite forallb_forall in Hn. apply list_elem_of_In, Hn in Ho.
      by apply bool_decide_eq_true_1 in Ho.
    + unfold at_ in Ho. rewrite nth_overflow in Ho by lia. by apply not_elem_of_nil in Ho.
  - intros c i c' Hi Hc'. destruct (graph_ok_comp _ _ c Hok) as (_ & _ & Hc).
    apply list_elem_of_lookup in Hi as [k Hk]. by apply Hc in Hk as [_ Hk]; apply Hk.
Defined.

Lemma NoDup_users_of ns v : NoDup (users_of ns v).
Proof. unfold users_of. apply NoDup_filter, NoDup_seq. Qed.

Lemma users_operands ns (v x : nat) : x ∈ users_of ns v <-> v ∈ n_operands (at_ ns x).
Proof.
  unfold users_of. rewrite list_elem_of_filter, elem_of_seq. split; [tauto|]. intros Hv.
  split; [done|]. split; [lia|]. destruct (decide (x < length ns)) as [|Hx]; [done|].
  unfold at_ in Hv. rewrite nth_overflow in Hv by lia. by apply elem_of_nil in Hv.
Qed.

Lemma users_laws ns cs : @UsersLaws nat nat (hlo ns cs).
Proof. split; cbn; [apply users_operands|apply NoDup_users_of]. Qed.
End Graph.
