(* ===== verification/Json.v ===== *)
(** * Reading typed values out of JSON (json_utils.h, json_utils.cc)

    jsoncpp's [Json::Value], its reader and its writer are parameters: the class
    [JsonApi] lists the members the code calls, [JsonLaws] what it relies on. *)
From Stdlib Require Import Ascii.
From S2P Require Import Prelude.

Class JsonApi (J : Type) := {
  isBool : J -> bool;
  asBool : J -> bool;
  isInt : J -> bool;
  asInt : J -> Z;
  isString : J -> bool;
  asString : J -> string;
  isArray : J -> bool;
  isNull : J -> bool;
  elements : J -> list J;             (* iteration over an array *)
  jget : J -> string -> J;            (* v.get(name, Json::Value::null) *)
  jstring : string -> J;
  jarray : list J -> J;               (* arrayValue and append *)
  jobject1 : string -> J -> J;        (* Json::Value j; j[name] = v *)
  reader_parse : string -> option J;  (* Json::Reader::parse *)
  fast_write : J -> string;           (* Json::FastWriter::write *)
}.

Definition newline : string := String (Ascii.ascii_of_nat 10) EmptyString.

Class JsonLaws (J : Type) `{JsonApi J} := {
  jstring_is : forall s, isString (jstring s) = true;
  jstring_as : forall s, asString (jstring s) = s;
  jarray_is : forall l, isArray (jarray l) = true;
  jarray_elements : forall l, elements (jarray l) = l;
  jarray_not_null : forall l, isNull (jarray l) = false;
  jobject1_get : forall n v, jget (jobject1 n v) n = v;
  (* the writer ends its output with a newline, and the reader inverts it *)
  fast_write_parse : forall v, exists w,
    fast_write v = w +:+ newline /\ reader_parse w = Some v;
}.

(** The overloads [bool GetTaskValue(const Json::Value&, const char*, T&)]: [None]
    is the result [false]. *)
Class TaskValue (J T : Type) := GetTaskValue : J -> option T.

(** [int] and [int64_t] have overloads of their own with the same body. *)
Definition int := Z.
Definition int64_t := Z.

Section json.
Context {J : Type} `{JsonApi J}.

#[export] Instance GetTaskValue_bool : TaskValue J bool := fun value =>
  if negb (isBool value) then None else Some (asBool value).

#[export] Instance GetTaskValue_int : TaskValue J int := fun value =>
  if negb (isInt value) then None else Some (asInt value).

#[export] Instance GetTaskValue_int64 : TaskValue J int64_t := fun value =>
  if negb (isInt value) then None else Some (asInt value).

#[export] Instance GetTaskValue_string : TaskValue J string := fun value =>
  if negb (isString value) then None else Some (asString value).

(** The loop over the elements; a failed element ends it. *)
Fixpoint GetTaskValue_elements {T} (get : J -> option T) (js : list J) (result : list T)
    : option (list T) :=
  match js with
  | [] => Some result
  | j :: js =>
      match get j with
      | None => None
      | Some t => GetTaskValue_elements get js (result ++ [t])
      end
  end.

#[export] Instance GetTaskValue_vector {T} `{TaskValue J T} : TaskValue J (list T) :=
  fun value =>
    if negb (isArray value) then None
    else GetTaskValue_elements GetTaskValue (elements value) [].

(** Vectors of optionals: a null element is an empty optional. *)
#[export] Instance GetTaskValue_optional_vector {T} `{TaskValue J T}
    : TaskValue J (list (option T)) :=
  fun value =>
    if negb (isArray value) then None
    else GetTaskValue_elements
           (fun sub => if isNull sub then Some None
                       else match GetTaskValue sub with
                            | None => None
                            | Some t => Some (Some t)
                            end)
           (elements value) [].

#[export] Instance GetTaskValue_pair {T U} `{TaskValue J T, TaskValue J U}
    : TaskValue J (T * U) :=
  fun value =>
    if negb (isArray value) then None
    else match elements value with
         | [v0; v1] =>
             match GetTaskValue v0 with
             | None => None
             | Some t => match GetTaskValue v1 with
                         | None => None
                         | Some u => Some (t, u)
                         end
             end
         | _ => None
         end.

Definition GetRequired {T} `{TaskValue J T} (parent : J) (name : string) : Result T :=
  let value := jget parent name in
  if isNull value then Err kInvalidArgument "has no field in backend config"
  else match GetTaskValue value with
       | None => Err kInvalidArgument "could not cast field to correct type in backend config"
       | Some result => OK result
       end.

Definition GetOptionalTaskValue {T} `{TaskValue J T} (parent : J) (name : string) (dflt : T)
    : Result T :=
  let value := jget parent name in
  if isNull value then OK dflt
  else match GetTaskValue value with
       | None => Err kInvalidArgument "could not cast field to correct type in backend config"
       | Some result => OK result
       end.

Definition GetOptional {T} `{TaskValue J T} (parent : J) (name : string) : Result (option T) :=
  let value := jget parent name in
  if isNull value then OK None
  else match GetTaskValue value with
       | None => Err kInvalidArgument "could not cast field to correct type in backend config"
       | Some result => OK (Some result)
       end.

Definition GetJsonValue (data : string) : Result J :=
  match reader_parse data with
  | None => Err kInvalidArgument "invalid JSON received"
  | Some result => OK result
  end.

(** [ToJson] of a vector, given [ToJson] of its elements. *)
Definition ToJson_string (s : string) : J := jstring s.
Definition ToJson_vector {T} (ToJson : T -> J) (v : list T) : J := jarray (ToJson <$> v).

Lemma GetTaskValue_elements_spec {T} (get : J -> option T) js acc :
  GetTaskValue_elements get js acc = ts ← mapM get js; Some (acc ++ ts).
Proof.
  revert acc; induction js as [|j js IH]; intros acc; cbn; [by rewrite app_nil_r|].
  destruct (get j) as [t|]; cbn; [|done]. rewrite IH.
  destruct (mapM get js); cbn; [|done]. by rewrite <- app_assoc.
Qed.

Lemma GetTaskValue_vector_ToJson {T} `{TaskValue J T} `{!JsonLaws J} (ToJson : T -> J) v :
  (forall t, GetTaskValue (ToJson t) = Some t) ->
  GetTaskValue (ToJson_vector ToJson v) = Some v.
Proof.
  intros Hrt. unfold GetTaskValue, GetTaskValue_vector, ToJson_vector.
  rewrite jarray_is, jarray_elements. cbn. rewrite GetTaskValue_elements_spec.
  assert (mapM GetTaskValue (ToJson <$> v) = Some v) as ->; [|done].
  apply mapM_Some. apply Forall2_fmap_l. apply Forall_Forall2_diag.
  apply Forall_forall. auto.
Qed.

(** A vector reads back as exactly its elements, in order, or not at all. *)
Lemma GetTaskValue_vector_Some {T} `{TaskValue J T} (value : J) (v : list T) :
  GetTaskValue value = Some v <->
  isArray value = true /\ Forall2 (fun j t => GetTaskValue j = Some t) (elements value) v.
Proof.
  unfold GetTaskValue at 1, GetTaskValue_vector.
  rewrite <- mapM_Some, GetTaskValue_elements_spec.
  destruct (isArray value); cbn; [|naive_solver].
  destruct (mapM GetTaskValue (elements value)); cbn; naive_solver.
Qed.
End json.

(** ** A concrete instance

    JSON values as trees; the text of a value is a binary numeral that encodes it. *)
Module JsonTree.
Inductive t :=
  | JNull | JBool (b : bool) | JInt (z : Z) | JString (s : string)
  | JArray (l : list t) | JObject (l : list (string * t)).

Fixpoint lookup (l : list (string * t)) (n : string) : t :=
  match l with
  | [] => JNull
  | (m, v) :: l => if bool_decide (m = n) then v else lookup l n
  end.

Fixpoint to_tree (j : t) : gen_tree (bool + Z + string) :=
  match j with
  | JNull => GenNode 0 []
  | JBool b => GenLeaf (inl (inl b))
  | JInt z => GenLeaf (inl (inr z))
  | JString s => GenLeaf (inr s)
  | JArray l => GenNode 1 (map to_tree l)
  | JObject l => GenNode 2 (map (fun q => GenNode 3 [GenLeaf (inr q.1); to_tree q.2]) l)
  end.

Fixpoint of_tree (g : gen_tree (bool + Z + string)) : t :=
  match g with
  | GenLeaf (inl (inl b)) => JBool b
  | GenLeaf (inl (inr z)) => JInt z
  | GenLeaf (inr s) => JString s
  | GenNode 1 gs => JArray (map of_tree gs)
  | GenNode 2 gs => JObject (map (fun g => match g with
                                | GenNode 3 [GenLeaf (inr n); v] => (n, of_tree v)
                                | _ => (EmptyString, JNull)
                                end) gs)
  | _ => JNull
  end.

Fixpoint to_tree_of_tree (j : t) : of_tree (to_tree j) = j.
Proof.
  destruct j as [|b|z|s|l|l]; cbn; try done.
  - f_equal. induction l as [|x l IH]; cbn; [done|]. f_equal; [apply to_tree_of_tree|done].
  - f_equal. induction l as [|[n x] l IH]; cbn; [done|].
    f_equal; [by rewrite to_tree_of_tree|done].
Qed.

Fixpoint pos_string (p : positive) : string :=
  match p with
  | xH => "1"
  | xO p => String "0"%char (pos_string p)
  | xI p => String "1"%char (pos_string p)
  end.
Fixpoint string_pos (s : string) : option positive :=
  match s with
  | EmptyString => None
  | String c EmptyString => Some xH
  | String c s =>
      match string_pos s with
      | Some p => Some (if Ascii.eqb c "0" then xO p else xI p)
      | None => None
      end
  end.

Lemma string_pos_string p : string_pos (pos_string p) = Some p.
Proof.
  assert (forall q, pos_string q <> EmptyString) as Hne by (by intros []).
  induction p as [p IH|p IH|]; cbn; [| |done];
    destruct (pos_string p) eqn:E; try (by destruct (Hne p)); by rewrite IH.
Qed.

Definition print (j : t) : string := pos_string (encode (to_tree j)).
Definition parse (s : string) : option t := of_tree <$> (string_pos s ≫= decode).

#[global] Instance api : JsonApi t := {
  isBool j := match j with JBool _ => true | _ => false end;
  asBool j := match j with JBool b => b | _ => false end;
  isInt j := match j with
             | JInt z => bool_decide (- 2 ^ 31 <= z < 2 ^ 31)%Z | _ => false end;
  asInt j := match j with JInt z => z | _ => 0%Z end;
  isString j := match j with JString _ => true | _ => false end;
  asString j := match j with JString s => s | _ => EmptyString end;
  isArray j := match j with JArray _ => true | _ => false end;
  isNull j := match j with JNull => true | _ => false end;
  elements j := match j with JArray l => l | _ => [] end;
  jget j n := match j with JObject l => lookup l n | _ => JNull end;
  jstring := JString;
  jarray := JArray;
  jobject1 n v := JObject [(n, v)];
  reader_parse := parse;
  fast_write j := print j +:+ newline;
}.

#[global] Instance laws : JsonLaws t.
Proof.
  split; try done.
  - intros n v. cbn. by rewrite bool_decide_eq_true_2.
  - intros v. exists (print v). split; [done|]. cbn. unfold parse, print.
    rewrite string_pos_string. cbn. rewrite decode_encode. cbn.
    by rewrite to_tree_of_tree.
Qed.
End JsonTree.
