(* ===== verification/Instruction.v ===== *)
(** * Instruction attributes: colors and logical axes (mpmd_instruction.cc)

    The partition color and the logical sharding axes of an instruction are
    frontend attributes, under the keys "color" and "axes".  Every operation is a
    function of the attribute store; the passes of the other files use only the
    lemmas [Color_AssignColor] and [Color_same_attrs] of the hint database [mm]. *)
From S2P Require Import Prelude Hlo Json.

Definition kDefaultColorName : string := "unassigned".

Section instruction.
Context {I C St : Type} `{EqDecision I} `{Hlo I C} `{AttrStore I St}.

Definition AddAttribute (i : I) (name value : string) (s : St) : St :=
  set_frontend_attributes i (<[name := value]> (frontend_attributes s i)) s.

Definition GetAttribute (s : St) (i : I) (name : string) : Result string :=
  match frontend_attributes s i !! name with
  | Some v => OK v
  | None => Err kInvalidArgument "attribute not found on instruction"
  end.

Definition AssignColor (i : I) (color : string) (s : St) : St :=
  set_frontend_attributes i (<["color" := color]> (frontend_attributes s i)) s.

Definition Color (s : St) (i : I) : option string :=
  match frontend_attributes s i !! "color" with
  | Some c => Some c
  | None => None
  end.

Definition PropagateColor (source target : I) (s : St) : bool * St :=
  match frontend_attributes s source !! "color" with
  | Some c => (true, AssignColor target c s)
  | None => (false, s)
  end.

Definition ColorOrDefault (s : St) (i : I) : string :=
  match Color s i with
  | Some color => color
  | None => kDefaultColorName
  end.

(** The loop of [ColorTuple]; a result of [None] after a mismatch is the [break]. *)
Fixpoint uniform_color (s : St) (ops : list I) (uniform : option string) : option string :=
  match ops with
  | [] => uniform
  | o :: ops =>
      match Color s o with
      | Some c =>
          match uniform with
          | None => uniform_color s ops (Color s o)
          | Some u => if bool_decide (u <> c) then None else uniform_color s ops uniform
          end
      | None => None
      end
  end.

Definition ColorTuple (i : I) (s : St) : St :=
  match uniform_color s (operands i) None with
  | Some c => AssignColor i c s
  | None => s
  end.

Definition IsAssignedColor (s : St) (i : I) : bool :=
  bool_decide (is_Some (frontend_attributes s i !! "color")).

Definition RemoveColor (i : I) (s : St) : St :=
  set_frontend_attributes i (delete "color" (frontend_attributes s i)) s.

Definition AssignAxes (i : I) (axes : string) (s : St) : St :=
  add_frontend_attributes i (<["axes" := axes]> ∅) s.

Definition AssignAxesIfUnassigned (i : I) (axes : string) (s : St) : St :=
  add_frontend_attributes i (<["axes" := axes]> ∅) s.

Definition PropagateAxes (source target : I) (s : St) : bool * St :=
  match frontend_attributes s source !! "axes" with
  | Some a => (true, AssignAxesIfUnassigned target a s)
  | None => (false, s)
  end.

Definition PropagateProperties (source target : I) (s : St) : St :=
  (PropagateAxes source target (PropagateColor source target s).2).2.

Definition HasAssignedAxes (s : St) (i : I) : bool :=
  bool_decide (is_Some (frontend_attributes s i !! "axes")).

Definition GetAxesString (s : St) (i : I) : option string :=
  match frontend_attributes s i !! "axes" with
  | Some a => Some a
  | None => None
  end.

Context `{!AttrStoreLaws I St}.

Lemma Color_lookup s i : Color s i = frontend_attributes s i !! "color".
Proof. unfold Color. by destruct (_ !! _). Qed.

Lemma GetAxesString_lookup s i : GetAxesString s i = frontend_attributes s i !! "axes".
Proof. unfold GetAxesString. by destruct (_ !! _). Qed.

(** Two states that agree on the attributes of an instruction agree on its color. *)
Lemma Color_same_attrs s1 s2 i :
  frontend_attributes s1 i = frontend_attributes s2 i -> Color s1 i = Color s2 i.
Proof. by rewrite !Color_lookup; intros ->. Qed.

Lemma Color_AssignColor i c s j :
  Color (AssignColor i c s) j = if decide (i = j) then Some c else Color s j.
Proof.
  rewrite !Color_lookup. unfold AssignColor. rewrite attrs_set.
  case_decide; subst; by simplify_map_eq.
Qed.

Lemma Color_AssignColor_eq i c s : Color (AssignColor i c s) i = Some c.
Proof. rewrite Color_AssignColor. by case_decide. Qed.

Lemma Color_AssignColor_ne i c s j : i <> j -> Color (AssignColor i c s) j = Color s j.
Proof. rewrite Color_AssignColor. by case_decide. Qed.

Lemma IsAssignedColor_spec s i : IsAssignedColor s i = true <-> is_Some (Color s i).
Proof. unfold IsAssignedColor. by rewrite bool_decide_eq_true, Color_lookup. Qed.

Lemma IsAssignedColor_false s i : IsAssignedColor s i = false <-> Color s i = None.
Proof.
  rewrite <- not_true_iff_false, IsAssignedColor_spec. by rewrite eq_None_not_Some.
Qed.

Lemma uniform_color_Some s ops u c :
  uniform_color s ops (Some u) = Some c <->
  u = c /\ Forall (fun o => Color s o = Some c) ops.
Proof.
  revert u; induction ops as [|o ops IH]; intros u; cbn.
  - rewrite Forall_nil. naive_solver.
  - rewrite Forall_cons. destruct (Color s o) as [d|] eqn:Ho; [|naive_solver].
    case_bool_decide as Hd; [|rewrite IH]; naive_solver.
Qed.

Lemma uniform_color_None s ops c :
  uniform_color s ops None = Some c <->
  ops <> [] /\ Forall (fun o => Color s o = Some c) ops.
Proof.
  destruct ops as [|o ops]; cbn; [naive_solver|].
  rewrite Forall_cons. destruct (Color s o) eqn:Ho; [|naive_solver].
  rewrite uniform_color_Some. naive_solver.
Qed.
End instruction.

#[export] Hint Rewrite @Color_AssignColor_eq : mm.

Section instruction_properties.
Context {I C St : Type} `{EqDecision I} `{Hlo I C} `{!AttrStore I St} `{!AttrStoreLaws I St}.
Implicit Types (s : St) (i j : I).

Definition uniformly_colored s (ops : list I) (c : string) : Prop :=
  ops <> [] /\ Forall (fun o => Color s o = Some c) ops.

(** A tuple takes a color exactly when it has operands and all of them have
    been assigned that one color; otherwise nothing changes. *)
Theorem ColorTuple_spec i s :
  (forall c, uniformly_colored s (operands i) c -> ColorTuple i s = AssignColor i c s) /\
  ((forall c, ~ uniformly_colored s (operands i) c) -> ColorTuple i s = s).
Proof.
  unfold ColorTuple, uniformly_colored. split.
  - intros c Hc%uniform_color_None. by rewrite Hc.
  - intros Hno. destruct (uniform_color _ _ _) eqn:E; [|done].
    by apply uniform_color_None, Hno in E.
Qed.

(** Propagating properties from a source overwrites the color of the target
    but never its axes, and leaves every other instruction alone. *)
Theorem PropagateProperties_spec source target s :
  let s' := PropagateProperties source target s in
  Color s' target = match Color s source with Some c => Some c | None => Color s target end /\
  GetAxesString s' target =
    match GetAxesString s target with Some a => Some a | None => GetAxesString s source end /\
  (forall j, j <> target -> frontend_attributes s' j = frontend_attributes s j).
Proof.
  cbn. unfold PropagateProperties, PropagateAxes, PropagateColor, AssignAxesIfUnassigned.
  rewrite !Color_lookup, !GetAxesString_lookup.
  assert (forall i c, frontend_attributes (AssignColor target c s) i !! "axes" =
                      frontend_attributes s i !! "axes") as Haxes.
  { intros i c. unfold AssignColor. rewrite attrs_set.
    case_decide; subst; by simplify_map_eq. }
  destruct (frontend_attributes s source !! "color") as [c|] eqn:Hc; cbn;
    rewrite ?Haxes;
    destruct (frontend_attributes s source !! "axes") as [a|] eqn:Ha; cbn.
  all: split_and!; intros; unfold AssignColor;
    rewrite ?attrs_add, ?attrs_set; repeat (case_decide; try congruence).
  all: rewrite ?lookup_union; simplify_map_eq; try done.
  all: rewrite ?(lookup_insert_ne _ "color" "axes") by done.
  all: try (by destruct (frontend_attributes s target !! "color")).
  all: by destruct (frontend_attributes s target !! "axes").
Qed.

(** Assigning axes keeps the axes an instruction already has: the attribute
    that is read back is the old one when there was one. *)
Theorem AssignAxes_keeps_existing i axes s :
  GetAxesString (AssignAxes i axes s) i =
    match GetAxesString s i with Some old => Some old | None => Some axes end.
Proof.
  rewrite !GetAxesString_lookup. unfold AssignAxes. rewrite attrs_add.
  case_decide; [|done]. rewrite lookup_union. simplify_map_eq.
  by destruct (_ !! _).
Qed.

(** An attribute that was added is read back, and no other attribute of no
    other instruction changes. *)
Theorem AddAttribute_GetAttribute i name value s :
  GetAttribute (AddAttribute i name value s) i name = OK value /\
  (forall j n, j <> i \/ n <> name ->
    GetAttribute (AddAttribute i name value s) j n = GetAttribute s j n).
Proof.
  unfold GetAttribute, AddAttribute. split.
  - rewrite attrs_set. case_decide; [|done]. by simplify_map_eq.
  - intros j n Hne. rewrite attrs_set. case_decide; [|done].
    subst. destruct Hne; [done|]. by rewrite lookup_insert_ne.
Qed.

(** After its color is removed an instruction is unassigned, and its axes stay. *)
Theorem RemoveColor_spec i s :
  Color (RemoveColor i s) i = None /\
  ColorOrDefault (RemoveColor i s) i = kDefaultColorName /\
  GetAxesString (RemoveColor i s) i = GetAxesString s i.
Proof.
  assert (Color (RemoveColor i s) i = None) as Hc.
  { rewrite Color_lookup. unfold RemoveColor. rewrite attrs_set.
    case_decide; [|done]. by simplify_map_eq. }
  unfold ColorOrDefault. rewrite Hc. split_and!; [done..|].
  rewrite !GetAxesString_lookup. unfold RemoveColor. rewrite attrs_set.
  case_decide; [|done]. by simplify_map_eq.
Qed.
End instruction_properties.

(** Three instructions: the source has a color and axes, the target has axes. *)
Definition attrs_example : AttrMap.t :=
  <[0%nat := <["color" := "a"]> (<["axes" := "x"]> ∅)]> (<[1%nat := <["axes" := "y"]> ∅]> ∅).

Lemma PropagateProperties_spec_witness :
  let s' := PropagateProperties 0%nat 1%nat attrs_example in
  Color s' 1%nat = Some "a" /\ GetAxesString s' 1%nat = Some "y" /\
  (forall j, j <> 1%nat -> frontend_attributes s' j = frontend_attributes attrs_example j).
Proof. exact (PropagateProperties_spec 0%nat 1%nat attrs_example). Defined.

Lemma AssignAxes_keeps_existing_witness :
  GetAxesString (AssignAxes 1%nat "z" attrs_example) 1%nat = Some "y".
Proof. exact (AssignAxes_keeps_existing 1%nat "z" attrs_example). Defined.

(** ** Axes as JSON

    The axes attribute holds the text of a JSON object with the field "axes". *)
Abbreviation LogicalShardingAxes := (list (list string)).

Section axes.
Context {I St J : Type} `{EqDecision I} `{!AttrStore I St} `{JsonApi J}.

(** Dereferencing a [StatusOr] that holds an error aborts the process. *)
Definition status_deref {A} (r : Result A) : Result A :=
  match r with OK a => OK a | Err _ _ => Fatal CheckFailed | Fatal k => Fatal k end.

Definition GetAxes (s : St) (i : I) : Result (option LogicalShardingAxes) :=
  match frontend_attributes s i !! "axes" with
  | Some text =>
      json ← status_deref (GetJsonValue (J := J) text);
      axes ← status_deref (GetRequired json "axes");
      OK (Some axes)
  | None => OK None
  end.

(** The writer's text without its last character. *)
Definition AssignAxes_axes (i : I) (axes : LogicalShardingAxes) (s : St) : St :=
  let json_axes := jobject1 "axes" (ToJson_vector (ToJson_vector ToJson_string) axes) in
  let json_string := fast_write (J := J) json_axes in
  AssignAxes i (String.substring 0 (String.length json_string - 1) json_string) s.

Lemma returns_GetAxes s i : returns (GetAxes s i).
Proof.
  unfold GetAxes. destruct (frontend_attributes s i !! "axes"); [|done]. unfold GetJsonValue. destruct (reader_parse _); [|done]. cbn.
  unfold GetRequired. destruct (isNull _); [done|]. by destruct (GetTaskValue _).
Qed.

Context `{!AttrStoreLaws I St, !JsonLaws J}.

Lemma substring_0_app (a b : string) : String.substring 0 (String.length a) (a +:+ b) = a.
Proof. induction a as [|c a IH]; [by destruct b|]. by apply (f_equal (String c)) in IH. Qed.

Lemma substring_drop_last (w : string) :
  String.substring 0 (String.length (w +:+ newline) - 1) (w +:+ newline) = w.
Proof.
  assert (String.length (w +:+ newline) = S (String.length w)) as ->.
  { induction w as [|c w IH]; [done|by apply (f_equal S)]. }
  cbn [Nat.sub]. rewrite Nat.sub_0_r. apply substring_0_app.
Qed.

(** Axes written to an instruction without axes are read back unchanged, for
    every nesting of axis names. *)
Theorem AssignAxes_GetAxes i axes s :
  GetAxesString s i = None ->
  GetAxes (AssignAxes_axes i axes s) i = OK (Some axes).
Proof.
  rewrite GetAxesString_lookup. intros Hnone.
  unfold GetAxes, AssignAxes_axes, AssignAxes. rewrite attrs_add.
  case_decide; [|done]. rewrite lookup_union, Hnone. simplify_map_eq.
  destruct (fast_write_parse (J := J)
    (jobject1 "axes" (ToJson_vector (ToJson_vector ToJson_string) axes)))
    as (w & -> & Hparse).
  rewrite substring_drop_last. unfold GetJsonValue. rewrite Hparse. cbn.
  unfold GetRequired. rewrite jobject1_get.
  assert (isNull (ToJson_vector (ToJson_vector ToJson_string) axes) = false) as ->
    by apply jarray_not_null.
  rewrite GetTaskValue_vector_ToJson; [done|].
  intros row. apply GetTaskValue_vector_ToJson. intros a.
  unfold GetTaskValue, GetTaskValue_string, ToJson_string.
  by rewrite jstring_is, jstring_as.
Qed.
End axes.

Lemma AssignAxes_GetAxes_witness :
  GetAxes (J := JsonTree.t)
    (AssignAxes_axes (J := JsonTree.t) 3 [["x"; "y"]; []; ["z"]] (∅ : AttrMap.t)) 3 =
  OK (Some [["x"; "y"]; []; ["z"]]).
Proof. apply AssignAxes_GetAxes. reflexivity. Defined.
