(* ===== verification/Partition.v ===== *)
(** * The color registry (hlo_partition.cc, hlo_partition.h)

    An [HloPartition] maps every partition color to its configuration: a device
    submesh, flags, and the options of the task.  A secondary index lists the
    colors that were allocated for a device list. *)
From S2P Require Import Prelude Hlo Instruction.

(** [multimesh::TaskOptions] (pycallback_types.h); an empty [std::function] is [None]. *)
Record TaskOptions := {
  to_name : option string;
  to_devices : list Z;
  to_dims : list Z;
  to_axes : list string;
  to_logical_axes : list (string * string);
  to_split_backprop : option (string * string);
  to_loop_dependent_devices : option (Z -> list Z);
}.
Definition default_TaskOptions : TaskOptions :=
  Build_TaskOptions None [] [] [] [] None None.

Record ColorConfig (D : Type) := MkConfig {
  cc_name : string;
  cc_devices : D;
  cc_backprop : bool;
  cc_noncritical : bool;
  cc_task_options : TaskOptions;
}.
Arguments MkConfig {_} _ _ _ _ _.
Arguments cc_name {_} _. Arguments cc_devices {_} _. Arguments cc_backprop {_} _.
Arguments cc_noncritical {_} _. Arguments cc_task_options {_} _.

(** [NamedTask]: the regular expression is an RE2 object, given by what
    [re2::RE2::PartialMatch] returns in its first group. *)
Record NamedTask := {
  nt_PartialMatch : string -> option string;
  nt_callback : string -> bool -> TaskOptions;
}.

(** ** The stack of implicit task contexts *)
Module NamedTaskContextStack.
Abbreviation t := (list (list NamedTask)).

Definition make : t := [[]].
Definition clear (s : t) : t := [[]].
Definition push (s : t) : t := s ++ [[]].

(** [pop_back] of an empty vector is undefined behaviour. *)
Definition pop (s : t) : Result t :=
  match last s with Some _ => OK (removelast s) | None => Fatal OutOfBounds end.

(** [tasks_.back().push_back(task)] *)
Definition push_back (s : t) (task : NamedTask) : Result t :=
  match last s with
  | Some top => OK (removelast s ++ [top ++ [task]])
  | None => Fatal OutOfBounds
  end.

(** The order of [begin()] to [end()]: the most recent context first. *)
Definition iteration (s : t) : t := reverse s.
End NamedTaskContextStack.

Definition kLoopIncrementColor : string := "loop_increment".
Definition kJvpTransposeMetadata : string := "transpose(jvp".

Record HloPartition (D : Type) `{Countable D} := MkPartition {
  devices_ : D;
  max_color_ : Z;
  colors_ : gmap string (ColorConfig D);
  matched_colors_ : gmap (string * bool) string;
  original_color_ : gmap string string;
  device_list_to_colors_ : gmap D (list string);
}.
Arguments MkPartition {_ _ _} _ _ _ _ _ _.
Arguments devices_ {_ _ _} _. Arguments max_color_ {_ _ _} _. Arguments colors_ {_ _ _} _.
Arguments matched_colors_ {_ _ _} _. Arguments original_color_ {_ _ _} _.
Arguments device_list_to_colors_ {_ _ _} _.

Section partition.
Context {D : Type} `{Countable D, DeviceListApi D}.
Abbreviation HloPartition := (HloPartition D).
Abbreviation ColorConfig := (ColorConfig D).
Implicit Types (p : HloPartition) (color name : string) (devices : D).

Definition Create (devices : D) : HloPartition :=
  MkPartition devices 0 ∅ ∅ ∅ ∅.

Definition default_config : ColorConfig :=
  MkConfig "" dl_default false false default_TaskOptions.

Definition with_colors p (cs : gmap string ColorConfig) : HloPartition :=
  MkPartition (devices_ p) (max_color_ p) cs (matched_colors_ p)
    (original_color_ p) (device_list_to_colors_ p).

(** ** Queries *)

Definition ConfigForColor p color : Result ColorConfig :=
  match colors_ p !! color with
  | Some cfg => OK cfg
  | None => Fatal LogFatal
  end.

Definition DevicesForColor p color : Result D :=
  cfg ← ConfigForColor p color; OK (cc_devices cfg).

Definition DefaultPerTaskMesh p color : Result D :=
  config ← ConfigForColor p color; OK (cc_devices config).

Definition GetTaskOptions p color : Result TaskOptions :=
  cfg ← ConfigForColor p color; OK (cc_task_options cfg).

Definition IsBackprop p color : bool :=
  match colors_ p !! color with Some cfg => cc_backprop cfg | None => false end.

Definition IsNonCritical p color : bool :=
  match colors_ p !! color with Some cfg => cc_noncritical cfg | None => false end.

Definition EquivalentMesh p lhs_color rhs_color : Result bool :=
  lhs ← ConfigForColor p lhs_color;
  rhs ← ConfigForColor p rhs_color;
  if bool_decide (dl_size (cc_devices lhs) <> dl_size (cc_devices rhs)) then OK false
  else match to_loop_dependent_devices (cc_task_options lhs),
             to_loop_dependent_devices (cc_task_options rhs) with
       | None, None => OK true
       | _, _ => OK false
       end.

Definition IsLoopIncrementColor p color : bool := StartsWith color kLoopIncrementColor.

Definition HasColor p color : bool := bool_decide (is_Some (colors_ p !! color)).

(** [iter->second.front()] on an empty vector is undefined. *)
Definition FindColor p devices : Result (option string) :=
  match device_list_to_colors_ p !! devices with
  | None => OK None
  | Some cs => c ← vec_at cs 0; OK (Some c)
  end.

Definition OriginalColor p color : string :=
  match original_color_ p !! color with Some c => c | None => color end.

Definition TotalDevices p : Z := dl_size (devices_ p).

(** ** Updates *)

(** [colors_[color].noncritical = true]: [operator[]] inserts a default entry. *)
Definition SetColorAsNonCritical p color : HloPartition :=
  let c := default default_config (colors_ p !! color) in
  with_colors p (<[color := MkConfig (cc_name c) (cc_devices c) (cc_backprop c)
                              true (cc_task_options c)]> (colors_ p)).

Definition CloneColor p existing_color new_color
    (devices_override : option D) (task_options_override : option TaskOptions)
    : Result (string * HloPartition) :=
  match colors_ p !! existing_color with
  | None => Err kInvalidArgument "attempting to clone from non-existent color"
  | Some c =>
      if bool_decide (is_Some (colors_ p !! new_color))
      then Err kInvalidArgument "color exists when cloning"
      else
        let new_config :=
          MkConfig (cc_name c)
            (match devices_override with Some d => d | None => cc_devices c end)
            (cc_backprop c) (cc_noncritical c)
            (match task_options_override with Some o => o | None => cc_task_options c end) in
        OK (new_color, with_colors p (<[new_color := new_config]> (colors_ p)))
  end.

(** The name under which [AllocateColor] registers a configuration. *)
Definition uniquify_name p name : string :=
  if bool_decide (is_Some (colors_ p !! name))
  then name +:+ "." +:+ StrCatZ (max_color_ p) else name.

Definition AllocateColor p (config : ColorConfig) : string * HloPartition :=
  let name := uniquify_name p (cc_name config) in
  let config := MkConfig name (cc_devices config) (cc_backprop config)
                  (cc_noncritical config) (cc_task_options config) in
  let colors_of := default [] (device_list_to_colors_ p !! cc_devices config) in
  (name, MkPartition (devices_ p) (max_color_ p + 1)
           (<[name := config]> (colors_ p)) (matched_colors_ p) (original_color_ p)
           (<[cc_devices config := colors_of ++ [name]]> (device_list_to_colors_ p))).

Definition AllocateColor_named p name devices (opts : TaskOptions) : string * HloPartition :=
  AllocateColor p (MkConfig name devices false false opts).

Definition default_color_name devices : string :=
  "devices_" +:+ StrCatZ (dl_start devices) +:+ "-" +:+ StrCatZ (dl_stop devices).

Definition FindOrAllocateDefaultColor p devices : Result (string * HloPartition) :=
  match device_list_to_colors_ p !! devices with
  | None => OK (AllocateColor_named p (default_color_name devices) devices default_TaskOptions)
  | Some [] => Err kInternal "device list added to map, but has no assigned colors"
  | Some (c :: _) => OK (c, p)
  end.

Definition FindOrAllocateGlobalColor p : Result (string * HloPartition) :=
  FindOrAllocateDefaultColor p (devices_ p).

Definition AllocateLoopIncrementColor p : string * HloPartition :=
  AllocateColor_named p kLoopIncrementColor (devices_ p) default_TaskOptions.

(** [Recolor]: the hash map is given as the list of its (new, old) entries in
    the order in which it is iterated.  An error leaves the entries of
    [original_color_] that were written before it. *)
Fixpoint Recolor_loop (colors : gmap string ColorConfig)
    (color_map : list (string * string)) (new_configs : gmap string ColorConfig)
    (original : gmap string string)
    : gmap string string * Result (gmap string ColorConfig) :=
  match color_map with
  | [] => (original, OK new_configs)
  | (new_color, old_color) :: rest =>
      match colors !! old_color with
      | None => (original, Err kInvalidArgument "cannot remap color")
      | Some cfg =>
          let mapped := match original !! old_color with
                        | Some c => c | None => old_color end in
          Recolor_loop colors rest (<[new_color := cfg]> new_configs)
            (<[new_color := mapped]> original)
      end
  end.

Definition Recolor p (color_map : list (string * string)) : HloPartition * Result unit :=
  let '(original, status) := Recolor_loop (colors_ p) color_map ∅ (original_color_ p) in
  let finish cs := MkPartition (devices_ p) (max_color_ p) cs (matched_colors_ p)
                     original (device_list_to_colors_ p) in
  match status with
  | OK new_configs => (finish new_configs, OK ())
  | Err c m => (finish (colors_ p), Err c m)
  | Fatal k => (finish (colors_ p), Fatal k)
  end.

(** ** Implicit tasks matched by operation metadata *)

(** The first task, in the iteration order of the contexts, whose expression
    matches; every branch after a match returns. *)
Fixpoint first_match_in (context : list NamedTask) (op_name : string)
    : option (NamedTask * string) :=
  match context with
  | [] => None
  | task :: rest =>
      match nt_PartialMatch task op_name with
      | Some matched => Some (task, matched)
      | None => first_match_in rest op_name
      end
  end.

Fixpoint first_match (contexts : list (list NamedTask)) (op_name : string)
    : option (NamedTask * string) :=
  match contexts with
  | [] => None
  | context :: rest =>
      match first_match_in context op_name with
      | Some m => Some m
      | None => first_match rest op_name
      end
  end.

(** [colors_[name].backprop = backprop] *)
Definition set_backprop p name (b : bool) : HloPartition :=
  let c := default default_config (colors_ p !! name) in
  with_colors p (<[name := MkConfig (cc_name c) (cc_devices c) b (cc_noncritical c)
                             (cc_task_options c)]> (colors_ p)).

Definition remember_match p matched (backprop : bool) name : HloPartition :=
  MkPartition (devices_ p) (max_color_ p) (colors_ p)
    (<[(matched, backprop) := name]> (matched_colors_ p))
    (original_color_ p) (device_list_to_colors_ p).

(** The device list made of the first device and the number of devices. *)
Definition contiguous_devices (ds : list Z) : Result D :=
  start ← vec_at ds 0; OK (dl_create start (Zlength ds)).

(** The body after a match.  The name is moved out of the options before they
    are stored; the moved-from string is taken to be empty. *)
Definition color_of_match p (task : NamedTask) (op_name matched : string)
    : Result (option string * HloPartition) :=
  if bool_decide (matched = "") then
    Err kInvalidArgument "matcher produced an empty match"
  else
    let backprop := StrContains op_name kJvpTransposeMetadata in
    match matched_colors_ p !! (matched, backprop) with
    | Some color => OK (Some color, p)
    | None =>
        let opts := nt_callback task matched backprop in
        match to_name opts with
        | None => Err kInvalidArgument "matcher produed TaskOptions with no name specified"
        | Some name =>
            if bool_decide (to_devices opts = []) then
              Err kInvalidArgument "returned empty device vector"
            else
              dl ← contiguous_devices (to_devices opts);
              match colors_ p !! name with
              | Some config =>
                  if bool_decide (dl <> cc_devices config) then
                    Err kInvalidArgument
                      "task was previously allocated with different device list"
                  else OK (Some name, p)
              | None =>
                  let stored := Build_TaskOptions (Some "") (to_devices opts)
                    (to_dims opts) (to_axes opts) (to_logical_axes opts)
                    (to_split_backprop opts) (to_loop_dependent_devices opts) in
                  let '(uniquified, p1) := AllocateColor_named p name dl stored in
                  if bool_decide (uniquified <> name) then
                    Err kInternal "color was already allocated with mismatched config"
                  else
                    let p2 := set_backprop p1 name backprop in
                    OK (Some name, remember_match p2 matched backprop name)
              end
        end
    end.

Definition ComputeMetadataNameColor (enable_metadata_name_tasks : bool)
    (contexts : NamedTaskContextStack.t) p (op_name : string)
    : Result (option string * HloPartition) :=
  if negb enable_metadata_name_tasks then OK (None, p)
  else if bool_decide (op_name = "") then OK (None, p)
  else match first_match (NamedTaskContextStack.iteration contexts) op_name with
       | None => OK (None, p)
       | Some (task, matched) => color_of_match p task op_name matched
       end.

(** ** Queries by instruction *)
Context {I C St : Type} `{EqDecision I} `{Hlo I C} `{AttrStore I St}.
Implicit Types (s : St) (i : I).

(** [*color] of an empty optional is undefined behaviour. *)
Definition color_deref s i : Result string := of_option NullDeref (Color s i).

Definition NumDevicesForInstruction p s i : Result Z :=
  match Color s i with
  | Some c => cfg ← ConfigForColor p c; OK (dl_size (cc_devices cfg))
  | None => OK (dl_size (devices_ p))
  end.

Definition IsBackprop_instruction p s i : bool :=
  match Color s i with
  | Some c => negb (IsBackprop p c)
  | None => false
  end.

Definition IsCritical p s i : Result bool :=
  c ← color_deref s i; OK (negb (IsNonCritical p c)).

Definition IsNonCritical_instruction p s i : bool :=
  match Color s i with
  | Some c => IsNonCritical p c
  | None => false
  end.

Definition SameMesh p s lhs rhs : Result bool :=
  match Color s lhs, Color s rhs with
  | Some lc, Some rc =>
      l ← ConfigForColor p lc;
      r ← ConfigForColor p rc;
      if bool_decide (cc_devices l <> cc_devices r) then OK false
      else match to_loop_dependent_devices (cc_task_options l),
                 to_loop_dependent_devices (cc_task_options r) with
           | None, None => OK true
           | _, _ => OK false
           end
  | _, _ => OK false
  end.

Definition ConfigForInstruction p s i : Result ColorConfig :=
  c ← color_deref s i; ConfigForColor p c.

Definition DevicesForInstruction p s i : Result D :=
  match Color s i with
  | Some c => DevicesForColor p c
  | None => OK (devices_ p)
  end.
End partition.

(** [ContainsMultiMeshCustomCall]: a module proto is the list of the (opcode,
    custom call target) pairs of the instructions of each of its computations. *)
Definition kMultiMeshCustomCallTargets : list string :=
  ["MultiMeshTask"; "Microbatch"; "MicrobatchInit"; "MicrobatchSlice"; "AutoSharding"].

Definition ContainsMultiMeshCustomCall (computations : list (list (string * string))) : bool :=
  existsb (fun comp =>
    existsb (fun instr =>
      bool_decide (instr.1 = "custom-call") &&
      bool_decide (instr.2 ∈ kMultiMeshCustomCallTargets)) comp) computations.

(** ** The registry invariant *)
Section registry.
Context {D : Type} `{Countable D, !DeviceListApi D}.
Implicit Types (p : HloPartition D) (d : D) (c name : string).

(** Every indexed device list has colors, all registered with that list, and
    every color remembered for a matched name is registered. *)
Record wf p : Prop := {
  wf_nonempty : forall d cs, device_list_to_colors_ p !! d = Some cs -> cs <> [];
  wf_listed : forall d cs c, device_list_to_colors_ p !! d = Some cs -> c ∈ cs ->
    exists cfg, colors_ p !! c = Some cfg /\ cc_devices cfg = d;
  wf_matched : forall k c, matched_colors_ p !! k = Some c -> is_Some (colors_ p !! c);
}.

(** [extends p p']: colors are only added, and keep their devices. *)
Definition extends p p' : Prop :=
  forall c cfg, colors_ p !! c = Some cfg ->
    exists cfg', colors_ p' !! c = Some cfg' /\ cc_devices cfg' = cc_devices cfg.

#[export] Instance extends_preorder : PreOrder extends.
Proof.
  split; [intros p c cfg Hc; by exists cfg|].
  intros p1 p2 p3 H12 H23 c cfg (cfg' & Hc' & Heq)%H12.
  destruct (H23 c cfg' Hc') as (cfg'' & ? & ?). exists cfg''. split; [done|congruence].
Qed.

Lemma wf_Create d : wf (Create d).
Proof. split; intros; cbn in *; simplify_map_eq. Qed.

(** Operations that only touch [colors_], by extension, keep the invariant. *)
Lemma wf_with_colors p cs :
  wf p -> extends p (with_colors p cs) -> wf (with_colors p cs).
Proof.
  intros [Hne Hl Hm] Hext. split; [done| |].
  - intros d l c Hd Hc. destruct (Hl d l c Hd Hc) as (cfg & Hcfg & <-). by apply Hext.
  - intros k c Hk. destruct (Hm k c Hk) as [cfg Hcfg].
    destruct (Hext c cfg Hcfg) as (cfg' & ? & _). by exists cfg'.
Qed.

(** Updating one entry in place, or adding a fresh one, extends the registry. *)
Lemma extends_insert p c cfg' :
  (forall cfg, colors_ p !! c = Some cfg -> cc_devices cfg' = cc_devices cfg) ->
  extends p (with_colors p (<[c := cfg']> (colors_ p))).
Proof.
  intros Hsame c0 cfg Hc0. cbn. destruct (decide (c = c0)) as [->|].
  - exists cfg'. split; [by rewrite lookup_insert_eq|by apply Hsame].
  - exists cfg. by rewrite lookup_insert_ne.
Qed.

Lemma extends_SetColorAsNonCritical p c : extends p (SetColorAsNonCritical p c).
Proof. apply extends_insert. intros cfg ->. done. Qed.

Lemma extends_set_backprop p c b : extends p (set_backprop p c b).
Proof. apply extends_insert. intros cfg ->. done. Qed.

Lemma CloneColor_inv p c1 c2 o1 o2 r :
  CloneColor p c1 c2 o1 o2 = OK r ->
  exists cfg cfg', colors_ p !! c1 = Some cfg /\ colors_ p !! c2 = None /\
    r = (c2, with_colors p (<[c2 := cfg']> (colors_ p))) /\
    cc_devices cfg' = default (cc_devices cfg) o1.
Proof.
  unfold CloneColor. destruct (colors_ p !! c1) as [cfg|] eqn:E1; [|done].
  case_bool_decide as Hc2; [done|]. intros [= <-].
  eexists cfg, _. split_and!; [done|by apply eq_None_not_Some|done|]. by destruct o1.
Qed.

Lemma extends_CloneColor p c1 c2 o1 o2 c p' :
  CloneColor p c1 c2 o1 o2 = OK (c, p') -> extends p p'.
Proof.
  intros (cfg & cfg' & _ & Hnone & [= -> ->] & _)%CloneColor_inv.
  apply extends_insert. by rewrite Hnone.
Qed.

(** The name [AllocateColor] chooses is free. *)
Definition fresh_name p name : Prop := colors_ p !! uniquify_name p name = None.

Lemma fresh_name_new p name : colors_ p !! name = None -> fresh_name p name.
Proof.
  intros Hn. unfold fresh_name, uniquify_name. rewrite bool_decide_eq_false_2; [done|].
  by apply eq_None_not_Some.
Qed.

Lemma uniquify_name_new p name : colors_ p !! name = None -> uniquify_name p name = name.
Proof.
  intros Hn. unfold uniquify_name. rewrite bool_decide_eq_false_2; [done|].
  by apply eq_None_not_Some.
Qed.

Lemma extends_AllocateColor p cfg :
  fresh_name p (cc_name cfg) -> extends p (AllocateColor p cfg).2.
Proof.
  intros Hf c cfg0 Hc. cbn. exists cfg0. split; [|done].
  rewrite lookup_insert_ne; [done|]. intros Heq. unfold fresh_name in Hf. congruence.
Qed.

Lemma wf_AllocateColor p cfg :
  wf p -> fresh_name p (cc_name cfg) -> wf (AllocateColor p cfg).2.
Proof.
  intros [Hne Hl Hm] Hf. unfold fresh_name in Hf. split; cbn.
  - intros d cs. destruct (decide (cc_devices cfg = d)) as [<-|].
    + rewrite lookup_insert_eq. intros [= <-]. by destruct (default [] _).
    + rewrite lookup_insert_ne by done. apply Hne.
  - intros d cs c Hd Hc. destruct (decide (c = uniquify_name p (cc_name cfg))) as [->|Hc'].
    + rewrite lookup_insert_eq. eexists; split; [done|]. cbn.
      destruct (decide (cc_devices cfg = d)) as [|Hd']; [done|].
      rewrite lookup_insert_ne in Hd by done.
      destruct (Hl _ _ _ Hd Hc) as (? & ? & _). congruence.
    + rewrite lookup_insert_ne by done.
      destruct (decide (cc_devices cfg = d)) as [<-|].
      * rewrite lookup_insert_eq in Hd. injection Hd as <-.
        apply elem_of_app in Hc as [Hc|Hc]; [|set_solver].
        destruct (device_list_to_colors_ p !! cc_devices cfg) as [l|] eqn:E; [|set_solver].
        by eapply Hl.
      * rewrite lookup_insert_ne in Hd by done. by eapply Hl.
  - intros k c Hk. destruct (Hm k c Hk) as [cfg0 Hc].
    rewrite lookup_insert_ne by congruence. by exists cfg0.
Qed.
End registry.

Section registry_properties.
Context {D : Type} `{Countable D, !DeviceListApi D}.
Implicit Types (p : HloPartition D) (d : D) (c name : string).

(** How a match can succeed: a remembered color, a color already registered
    with the same devices, or a color allocated for it. *)
Lemma color_of_match_OK p task op matched r :
  color_of_match p task op matched = OK r ->
  let b := StrContains op kJvpTransposeMetadata in
  exists c, r.1 = Some c /\
    ((r.2 = p /\ (matched_colors_ p !! (matched, b) = Some c \/ is_Some (colors_ p !! c))) \/
     (colors_ p !! c = None /\ exists dl opts,
        r.2 = remember_match (set_backprop (AllocateColor_named p c dl opts).2 c b) matched b c)).
Proof.
  unfold color_of_match. cbn. intros Hrun. case_bool_decide; [done|].
  destruct (matched_colors_ p !! _) as [c|] eqn:Hm.
  { simplify_eq. exists c. naive_solver. }
  destruct (to_name _) as [name|]; [|done]. case_bool_decide; [done|].
  apply Result_bind_OK in Hrun as (dl & _ & Hrun).
  destruct (colors_ p !! name) as [cfg|] eqn:Hc.
  { case_bool_decide; simplify_eq. exists name. cbn. split; [done|]. left. eauto. }
  cbn in Hrun. case_bool_decide as Hu; simplify_eq. exists name. cbn. split; [done|].
  right. split; [done|]. eexists dl, _. unfold AllocateColor_named, AllocateColor. cbn.
  by rewrite (uniquify_name_new p name).
Qed.

Lemma wf_remember_match p m b c :
  wf p -> is_Some (colors_ p !! c) -> wf (remember_match p m b c).
Proof.
  intros [Hne Hl Hm] Hc. split; [done..|]. cbn. intros k c' Hk.
  destruct (decide ((m, b) = k)) as [<-|]; simplify_map_eq; [done|by eapply Hm].
Qed.

Lemma metadata_step en ctx p op oc p' :
  wf p -> ComputeMetadataNameColor en ctx p op = OK (oc, p') -> wf p' /\ extends p p'.
Proof.
  intros Hwf. unfold ComputeMetadataNameColor.
  destruct (negb en); [by intros [= <- <-]|]. case_bool_decide; [by intros [= <- <-]|].
  destruct (first_match _ _) as [[task m]|]; [|by intros [= <- <-]].
  intros (c' & _ & [[Hp _]|(Hnone & dl & opts & Hp)])%color_of_match_OK;
    cbn in Hp; subst p'; [done|].
  set (p1 := (AllocateColor_named p c' dl opts).2).
  assert (wf p1 /\ extends p p1) as [Hwf1 Hext1].
  { split; [apply wf_AllocateColor|apply extends_AllocateColor]; try done;
      by apply fresh_name_new. }
  assert (extends p1 (set_backprop p1 c' (StrContains op kJvpTransposeMetadata))) as Hext2
    by apply extends_set_backprop.
  split; [|by etrans].
  apply wf_remember_match; [by apply wf_with_colors|].
  cbn. rewrite lookup_insert_eq. by eexists.
Qed.

(** One operation of the registry.  [AllocateColor] is restricted to the calls
    whose chosen name is free. *)
Inductive registry_step p : HloPartition D -> Prop :=
  | step_allocate cfg :
      fresh_name p (cc_name cfg) -> registry_step p (AllocateColor p cfg).2
  | step_clone c1 c2 o1 o2 c p' :
      CloneColor p c1 c2 o1 o2 = OK (c, p') -> registry_step p p'
  | step_noncritical c : registry_step p (SetColorAsNonCritical p c)
  | step_default d c p' :
      fresh_name p (default_color_name d) ->
      FindOrAllocateDefaultColor p d = OK (c, p') -> registry_step p p'
  | step_metadata en ctx op oc p' :
      ComputeMetadataNameColor en ctx p op = OK (oc, p') -> registry_step p p'.

Lemma registry_step_inv p p' : registry_step p p' -> wf p -> wf p' /\ extends p p'.
Proof.
  intros Hs Hwf. destruct Hs as [cfg Hf|c1 c2 o1 o2 c p' Hc|c|d c p' Hf Hd|en ctx op c p' Hm].
  - split; [by apply wf_AllocateColor|by apply extends_AllocateColor].
  - pose proof (extends_CloneColor _ _ _ _ _ _ _ Hc) as Hext. split; [|done].
    apply CloneColor_inv in Hc as (? & ? & _ & _ & [= -> ->] & _). by apply wf_with_colors.
  - pose proof (extends_SetColorAsNonCritical p c). split; [by apply wf_with_colors|done].
  - unfold FindOrAllocateDefaultColor in Hd.
    destruct (device_list_to_colors_ p !! d) as [[|c0 cs]|] eqn:E; [done|by simplify_eq|].
    assert (p' = (AllocateColor_named p (default_color_name d) d default_TaskOptions).2)
      as -> by (by injection Hd).
    split; [by apply wf_AllocateColor|by apply extends_AllocateColor].
  - by eapply metadata_step.
Qed.

Lemma registry_steps_inv p p' :
  rtc registry_step p p' -> wf p -> wf p' /\ extends p p'.
Proof.
  induction 1 as [p|p1 p2 p3 H12 _ IH]; intros Hwf; [done|].
  destruct (registry_step_inv _ _ H12 Hwf) as [Hwf2 ?].
  destruct (IH Hwf2). split; [done|by etrans].
Qed.

(** Every registry built from the empty one by the operations that do not
    rename colors answers [FindColor] with a color that is registered with the
    devices that were asked for, or with no color; it never reads out of
    bounds and the answer never leads to the fatal lookup of [ConfigForColor]. *)
Theorem registry_FindColor_sound d0 p d :
  rtc registry_step (Create d0) p ->
  FindColor p d = OK None \/
  exists c, FindColor p d = OK (Some c) /\ DevicesForColor p c = OK d.
Proof.
  intros Hp. destruct (registry_steps_inv _ _ Hp (wf_Create d0)) as [[Hne Hl _] _].
  unfold FindColor. destruct (device_list_to_colors_ p !! d) as [[|c cs]|] eqn:E.
  - by apply Hne in E.
  - right. exists c. split; [done|].
    destruct (Hl d (c :: cs) c E) as (cfg & Hcfg & <-); [set_solver|].
    unfold DevicesForColor, ConfigForColor. by rewrite Hcfg.
  - by left.
Qed.

(** Along those operations a color, once registered, keeps its devices. *)
Theorem registry_devices_stable d0 p p' c d :
  rtc registry_step (Create d0) p -> rtc registry_step p p' ->
  DevicesForColor p c = OK d -> DevicesForColor p' c = OK d.
Proof.
  intros Hp Hp' Hd. destruct (registry_steps_inv _ _ Hp (wf_Create d0)) as [Hwf _].
  destruct (registry_steps_inv _ _ Hp' Hwf) as [_ Hext].
  unfold DevicesForColor, ConfigForColor in *.
  destruct (colors_ p !! c) as [cfg|] eqn:E; [|done].
  destruct (Hext c cfg E) as (cfg' & -> & Heq). cbn in *. congruence.
Qed.
End registry_properties.

Section recolor_properties.
Context {D : Type} `{Countable D, !DeviceListApi D}.
Implicit Types (p : HloPartition D) (d : D) (c name : string).

Lemma Recolor_loop_OK (colors : gmap string (ColorConfig D)) m nc orig :
  (exists orig' nc', Recolor_loop colors m nc orig = (orig', OK nc')) <->
  Forall (fun e => is_Some (colors !! e.2)) m.
Proof.
  revert nc orig; induction m as [|[new old] m IH]; intros nc orig; cbn.
  - split; [done|]. intros _. by eexists _, _.
  - rewrite Forall_cons. cbn. destruct (colors !! old) as [cfg|].
    + rewrite IH. naive_solver.
    + split; [naive_solver|]. by intros [[? ?] _].
Qed.

Lemma Recolor_loop_lookup (colors : gmap string (ColorConfig D)) m nc orig orig' nc' :
  NoDup m.*1 -> Recolor_loop colors m nc orig = (orig', OK nc') ->
  (forall new old, (new, old) ∈ m -> nc' !! new = colors !! old) /\
  (forall c, c ∉ m.*1 -> nc' !! c = nc !! c).
Proof.
  revert nc orig; induction m as [|[new old] m IH]; intros nc orig Hnd Hrun; cbn in *.
  - simplify_eq. split; [set_solver|done].
  - apply NoDup_cons in Hnd as [Hnew Hnd].
    destruct (colors !! old) as [cfg|] eqn:E; [|done].
    destruct (IH _ _ Hnd Hrun) as [Hin Hout]. split.
    + intros new' old' [[= -> ->]|Hm]%elem_of_cons; [|by apply Hin].
      rewrite (Hout new Hnew), lookup_insert_eq. done.
    + intros c Hc. rewrite Hout by set_solver. rewrite lookup_insert_ne; set_solver.
Qed.

(** Renaming the colors succeeds exactly when every old color is registered.
    Then, whatever the iteration order of the map, the registered colors are
    the new names, each with the configuration of its old name; otherwise the
    registered colors are unchanged. *)
Theorem Recolor_spec p (m : list (string * string)) :
  NoDup m.*1 ->
  let '(p', status) := Recolor p m in
  (status = OK () <-> Forall (fun e => is_Some (colors_ p !! e.2)) m) /\
  (status = OK () ->
    (forall new old, (new, old) ∈ m -> colors_ p' !! new = colors_ p !! old) /\
    (forall c, c ∉ m.*1 -> colors_ p' !! c = None)) /\
  (status <> OK () -> colors_ p' = colors_ p).
Proof.
  intros Hnd. unfold Recolor.
  pose proof (Recolor_loop_OK (colors_ p) m ∅ (original_color_ p)) as HOK.
  destruct (Recolor_loop _ _ _ _) as [orig [nc|code msg|k]] eqn:E.
  - destruct (Recolor_loop_lookup _ _ _ _ _ _ Hnd E) as [Hin Hout].
    split_and!; [naive_solver| |done]. intros _. split; [done|].
    intros c Hc. cbn. by rewrite Hout.
  - split_and!; [|done..]. split; [done|]. intros Hall%HOK. naive_solver.
  - split_and!; [|done..]. split; [done|]. intros Hall%HOK. naive_solver.
Qed.

(** A permutation of the iteration order changes neither the outcome nor the
    registered colors. *)
Theorem Recolor_order_irrelevant p m1 m2 :
  NoDup m1.*1 -> m1 ≡ₚ m2 ->
  ((Recolor p m1).2 = OK () <-> (Recolor p m2).2 = OK ()) /\
  ((Recolor p m1).2 = OK () -> colors_ (Recolor p m1).1 = colors_ (Recolor p m2).1).
Proof.
  intros Hnd1 Hperm.
  assert (NoDup m2.*1) as Hnd2 by (by rewrite <- Hperm).
  pose proof (Recolor_spec p m1 Hnd1) as H1. pose proof (Recolor_spec p m2 Hnd2) as H2.
  destruct (Recolor p m1) as [p1 s1], (Recolor p m2) as [p2 s2]. cbn.
  destruct H1 as (Hs1 & Hl1 & _), H2 as (Hs2 & Hl2 & _).
  assert (s1 = OK () <-> s2 = OK ()) as Hiff by (rewrite Hs1, Hs2; by rewrite Hperm).
  split; [done|]. intros Hok. destruct (Hl1 Hok) as [Hin1 Hout1].
  destruct (Hl2 (proj1 Hiff Hok)) as [Hin2 Hout2].
  apply map_eq. intros c. destruct (decide (c ∈ m1.*1)) as [Hc|Hc].
  - apply list_elem_of_fmap in Hc as ([new old] & -> & Hc). cbn.
    rewrite (Hin1 new old Hc). symmetry. apply Hin2. by rewrite <- Hperm.
  - rewrite Hout1 by done. rewrite Hout2; [done|]. by rewrite <- Hperm.
Qed.

(** A metadata match never reaches the internal error of a mismatched
    reallocation. *)
Theorem metadata_color_no_internal_error en ctx p op msg :
  ComputeMetadataNameColor en ctx p op <> Err kInternal msg.
Proof.
  unfold ComputeMetadataNameColor. destruct (negb en); [done|]. case_bool_decide; [done|].
  destruct (first_match _ _) as [[task m]|]; [|done].
  unfold color_of_match. case_bool_decide; [done|]. cbn.
  destruct (matched_colors_ p !! _); [done|].
  destruct (to_name _) as [name|]; [|done].
  destruct (to_devices _) as [|z ds]; [done|]. rewrite bool_decide_eq_false_2 by done.
  unfold contiguous_devices. change (vec_at (z :: ds) 0) with (OK z). cbn.
  destruct (colors_ p !! name) as [cfg|] eqn:Hc; [by case_bool_decide|].
  rewrite uniquify_name_new by done. rewrite bool_decide_eq_false_2 by naive_solver. done.
Qed.

(** Computing the color of the same operation name again gives the same color
    and changes nothing. *)
Theorem metadata_color_idempotent en ctx p p' op r :
  ComputeMetadataNameColor en ctx p op = OK (r, p') ->
  ComputeMetadataNameColor en ctx p' op = OK (r, p').
Proof.
  unfold ComputeMetadataNameColor. destruct (negb en); [by intros [= -> ->]|].
  case_bool_decide; [by intros [= -> ->]|].
  destruct (first_match _ _) as [[task m]|]; [|by intros [= -> ->]].
  intros Hrun. pose proof Hrun as (c & Hc & Hcase)%color_of_match_OK. cbn in Hc, Hcase.
  subst r. destruct Hcase as [[Hp _]|(Hnone & dl & opts & Hp)]; subst p'; [done|].
  unfold color_of_match in *. case_bool_decide; [done|]. cbn. by rewrite lookup_insert_eq.
Qed.

(** The contexts pushed last are matched first: a match in the innermost
    context decides, and an innermost context without a match is transparent. *)
Theorem innermost_context_first outer inner op :
  first_match (NamedTaskContextStack.iteration (outer ++ [inner])) op =
    match first_match_in inner op with
    | Some m => Some m
    | None => first_match (NamedTaskContextStack.iteration outer) op
    end.
Proof. unfold NamedTaskContextStack.iteration. by rewrite reverse_app. Qed.
End recolor_properties.

(** ** Concrete registries *)
Section examples.
Let cfg (name : string) (d : Slice.t) : ColorConfig Slice.t :=
  MkConfig name d false false default_TaskOptions.

(** Uniquifying appends the counter but does not check the result: a name that
    already has the form "a.2" can be taken away from its submesh. *)
Theorem AllocateColor_can_overwrite :
  exists (p : HloPartition Slice.t) (c : string) (new : ColorConfig Slice.t),
    rtc registry_step (Create (Slice.mk 0 8)) p /\
    DevicesForColor p c = OK (Slice.mk 4 4) /\
    (AllocateColor p new).1 = c /\
    DevicesForColor (AllocateColor p new).2 c = OK (Slice.mk 0 8).
Proof.
  pose (p1 := (AllocateColor (Create (Slice.mk 0 8)) (cfg "a" (Slice.mk 0 4))).2).
  pose (p2 := (AllocateColor p1 (cfg "a.2" (Slice.mk 4 4))).2).
  exists p2, "a.2", (cfg "a" (Slice.mk 0 8)). split_and!; [|by vm_compute..].
  eapply rtc_l; [|eapply rtc_l; [|apply rtc_refl]].
  - apply (step_allocate _ (cfg "a" (Slice.mk 0 4))). by vm_compute.
  - apply (step_allocate p1 (cfg "a.2" (Slice.mk 4 4))). by vm_compute.
Qed.

(** Renaming does not maintain the index by device list: after it, the color
    offered for the global device list need not be registered any more, and
    asking for its devices is fatal. *)
Theorem Recolor_leaves_stale_index :
  exists (p p' : HloPartition Slice.t) (m : list (string * string)) (c : string),
    rtc registry_step (Create (Slice.mk 0 8)) p /\
    Recolor p m = (p', OK ()) /\
    FindOrAllocateGlobalColor p' = OK (c, p') /\
    DevicesForColor p' c = Fatal LogFatal.
Proof.
  pose (p1 := (AllocateColor (Create (Slice.mk 0 8)) (cfg "global" (Slice.mk 0 8))).2).
  pose (p2 := (AllocateColor p1 (cfg "task" (Slice.mk 0 4))).2).
  exists p2, (Recolor p2 [("task", "task")]).1, [("task", "task")], "global".
  split_and!; [|by vm_compute..].
  eapply rtc_l; [|eapply rtc_l; [|apply rtc_refl]].
  - apply (step_allocate _ (cfg "global" (Slice.mk 0 8))). by vm_compute.
  - apply (step_allocate p1 (cfg "task" (Slice.mk 0 4))). by vm_compute.
Qed.

Let p_a : HloPartition Slice.t := (AllocateColor (Create (Slice.mk 0 8)) (cfg "a" (Slice.mk 0 4))).2.

Lemma registry_FindColor_sound_witness :
  FindColor p_a (Slice.mk 0 4) = OK None \/
  exists c, FindColor p_a (Slice.mk 0 4) = OK (Some c) /\ DevicesForColor p_a c = OK (Slice.mk 0 4).
Proof.
  apply (registry_FindColor_sound (Slice.mk 0 8)).
  apply rtc_once, (step_allocate _ (cfg "a" (Slice.mk 0 4))). by vm_compute.
Defined.

Lemma registry_devices_stable_witness :
  DevicesForColor (SetColorAsNonCritical p_a "a") "a" = OK (Slice.mk 0 4).
Proof.
  apply (registry_devices_stable (Slice.mk 0 8) p_a).
  - apply rtc_once, (step_allocate _ (cfg "a" (Slice.mk 0 4))). by vm_compute.
  - apply rtc_once, step_noncritical.
  - by vm_compute.
Defined.

Lemma Recolor_spec_witness :
  let '(p', status) := Recolor p_a [("0.a", "a"); ("a", "a")] in
  (status = OK () <->
     Forall (fun e => is_Some (colors_ p_a !! e.2)) [("0.a", "a"); ("a", "a")]) /\
  (status = OK () ->
    (forall new old, (new, old) ∈ [("0.a", "a"); ("a", "a")] ->
       colors_ p' !! new = colors_ p_a !! old) /\
    (forall c, c ∉ [("0.a", "a"); ("a", "a")].*1 -> colors_ p' !! c = None)) /\
  (status <> OK () -> colors_ p' = colors_ p_a).
Proof.
  apply (Recolor_spec p_a [("0.a", "a"); ("a", "a")]).
  apply (bool_decide_unpack _). by vm_compute.
Defined.

Lemma Recolor_order_irrelevant_witness :
  ((Recolor p_a [("0.a", "a"); ("a", "a")]).2 = OK () <->
     (Recolor p_a [("a", "a"); ("0.a", "a")]).2 = OK ()) /\
  ((Recolor p_a [("0.a", "a"); ("a", "a")]).2 = OK () ->
     colors_ (Recolor p_a [("0.a", "a"); ("a", "a")]).1 =
     colors_ (Recolor p_a [("a", "a"); ("0.a", "a")]).1).
Proof.
  apply (Recolor_order_irrelevant p_a [("0.a", "a"); ("a", "a")] [("a", "a"); ("0.a", "a")]).
  - apply (bool_decide_unpack _). by vm_compute.
  - apply perm_swap.
Defined.

Let task_a : NamedTask := {|
  nt_PartialMatch s := if StrContains s "layer" then Some "layer" else None;
  nt_callback m b := Build_TaskOptions (Some "L") [0; 1; 2; 3]%Z [] [] [] None None
|}.

Lemma metadata_color_idempotent_witness :
  exists p', ComputeMetadataNameColor true [[task_a]] p_a "jit/layer_0/dot" = OK (Some "L", p') /\
             ComputeMetadataNameColor true [[task_a]] p' "jit/layer_0/dot" = OK (Some "L", p').
Proof.
  eexists. split; [by vm_compute|].
  apply (metadata_color_idempotent _ _ p_a). by vm_compute.
Defined.
End examples.
