(* ===== verification/LoopConfig.v ===== *)
(** * Microbatch loop configurations and loop-dependent submeshes
    (mpmd_loop.h, mpmd_loop.cc) *)
From S2P Require Import Prelude Hlo Json.
Local Open Scope Z_scope.

Inductive Schedule :=
  | kFillDrain
  | k1F1B
  | kWavefront
  | kPrefetchWavefront
  | kCustom
  | kZeroBubbleH2.

#[export] Instance Schedule_eq_dec : EqDecision Schedule.
Proof. solve_decision. Defined.

Abbreviation CustomSchedule := (list (list (int64_t * string))).

Record LoopConfig := {
  num_iterations : Z;
  unique_id : Z;
  microbatch_size : Z;
  microbatch_dim : Z;
  slice_dim : Z;
  slice_param_number : option Z;
  schedule : Schedule;
  interleave : option Z;
  num_stages : option Z;
  unrolling : option Z;
  custom_schedule : option CustomSchedule;
}.

(** ** [LoopDependentSubmesh] *)

Record SubmeshConfig := {
  task_mesh_size : Z;
  global_mesh_start : Z;
  global_mesh_stop : Z;
  reverse_ : bool;
}.

#[export] Instance SubmeshConfig_eq_dec : EqDecision SubmeshConfig.
Proof. solve_decision. Defined.

Definition TaskMeshSize (cfg : SubmeshConfig) : Z := task_mesh_size cfg.

(** [operator==] *)
Definition Submesh_eqb (lhs rhs : SubmeshConfig) : bool :=
  (task_mesh_size lhs =? task_mesh_size rhs) && Bool.eqb (reverse_ lhs) (reverse_ rhs) &&
  (global_mesh_start lhs =? global_mesh_start rhs) &&
  (global_mesh_stop lhs =? global_mesh_stop rhs).

Definition SubmeshForIteration {D} `{DeviceListApi D} (cfg : SubmeshConfig) (iteration : Z)
    : Result D :=
  let machine_size := global_mesh_stop cfg - global_mesh_start cfg in
  num_slices ← cdiv machine_size (task_mesh_size cfg);
  stage ← cmod iteration num_slices;
  let offset := stage * task_mesh_size cfg in
  if reverse_ cfg then
    let start := global_mesh_stop cfg - offset - task_mesh_size cfg in
    OK (dl_create start (task_mesh_size cfg))
  else OK (dl_create offset (task_mesh_size cfg)).

(** ** [GetMicrobatchConfig] *)

Definition kScheduleTypes : list (string * Schedule) :=
  [("1f1b", k1F1B); ("fill-drain", kFillDrain); ("breadth-first", kFillDrain);
   ("gpipe", kFillDrain); ("wavefront", kWavefront);
   ("prefetch-wavefront", kPrefetchWavefront); ("zero-bubble-h2", kZeroBubbleH2);
   ("custom", kCustom)].

Definition schedule_of_string (s : string) : Result Schedule :=
  if bool_decide (s <> "") then
    match (list_to_map kScheduleTypes : gmap string Schedule) !! s with
    | None => Err kInvalidArgument "Bad schedule type given to microbatch"
    | Some sched => OK sched
    end
  else OK kFillDrain.

Definition GetMicrobatchConfig {J} `{JsonApi J} (text : string) : Result LoopConfig :=
  json ← GetJsonValue (J := J) text;
  num_microbatches ← GetRequired (T := int) json "num_microbatches";
  size ← GetRequired (T := int) json "size";
  slice_dim ← GetRequired (T := int) json "slice_dim";
  batch_dim ← GetOptionalTaskValue (T := int) json "batch_dim" slice_dim;
  unrolling ← GetOptional (T := int) json "unrolling";
  schedule_string ← GetOptionalTaskValue (T := string) json "schedule" "";
  schedule ← schedule_of_string schedule_string;
  interleave ← GetOptional (T := int) json "interleave";
  num_stages ← GetOptional (T := int) json "num_stages";
  custom_schedule ← GetOptional (T := CustomSchedule) json "custom_schedule";
  OK {| num_iterations := num_microbatches;
        unique_id := 0;
        microbatch_size := size;
        microbatch_dim := batch_dim;
        slice_dim := slice_dim;
        slice_param_number := None;
        schedule := schedule;
        interleave := interleave;
        num_stages := num_stages;
        unrolling := unrolling;
        custom_schedule := custom_schedule |}.

(** ** Properties *)

Section submesh.
Context {D : Type} `{DeviceListApi D}.

(** A mesh that can be cut into slices of the task's size. *)
Definition submesh_ok (cfg : SubmeshConfig) : Prop :=
  0 < task_mesh_size cfg /\
  task_mesh_size cfg <= global_mesh_stop cfg - global_mesh_start cfg.

Definition num_slices (cfg : SubmeshConfig) : Z :=
  (global_mesh_stop cfg - global_mesh_start cfg) / task_mesh_size cfg.

Lemma num_slices_pos cfg : submesh_ok cfg -> 0 < num_slices cfg.
Proof. intros [? ?]. unfold num_slices. apply Z.div_str_pos. lia. Qed.

Lemma SubmeshForIteration_unfold cfg it :
  submesh_ok cfg -> 0 <= it ->
  SubmeshForIteration (D := D) cfg it =
    let offset := (it mod num_slices cfg) * task_mesh_size cfg in
    OK (dl_create (if reverse_ cfg
                   then global_mesh_stop cfg - offset - task_mesh_size cfg else offset)
                  (task_mesh_size cfg)).
Proof.
  intros Hok Hit. pose proof (num_slices_pos cfg Hok) as Hpos.
  destruct Hok as [Hs Hm]. unfold SubmeshForIteration.
  rewrite cdiv_nonneg by lia. cbn. fold (num_slices cfg).
  rewrite cmod_nonneg by lia. cbn. by destruct (reverse_ cfg).
Qed.

Lemma offset_bound cfg it :
  submesh_ok cfg ->
  0 <= (it mod num_slices cfg) * task_mesh_size cfg /\
  (it mod num_slices cfg) * task_mesh_size cfg + task_mesh_size cfg
    <= global_mesh_stop cfg - global_mesh_start cfg.
Proof.
  intros Hok. pose proof (num_slices_pos cfg Hok) as Hpos. destruct Hok as [Hs Hm].
  pose proof (Z.mod_pos_bound it (num_slices cfg) Hpos) as Hmod.
  assert (num_slices cfg * task_mesh_size cfg <=
          global_mesh_stop cfg - global_mesh_start cfg).
  { unfold num_slices. rewrite Z.mul_comm. apply Z.mul_div_le. lia. }
  nia.
Qed.

Context `{!DeviceListLaws D}.

(** The submesh of an iteration has the task's size; counted from the end of
    the mesh it lies inside the mesh, counted from the front it lies inside
    the mesh moved to device 0. *)
Theorem SubmeshForIteration_bounds cfg it :
  submesh_ok cfg -> 0 <= it ->
  exists d : D, SubmeshForIteration cfg it = OK d /\
    dl_size d = task_mesh_size cfg /\
    (if reverse_ cfg
     then global_mesh_start cfg <= dl_start d /\ dl_stop d <= global_mesh_stop cfg
     else 0 <= dl_start d /\
          dl_stop d <= global_mesh_stop cfg - global_mesh_start cfg).
Proof.
  intros Hok Hit. rewrite SubmeshForIteration_unfold by done. cbn.
  eexists. split; [done|]. rewrite dl_size_create, dl_stop_def, dl_start_create, dl_size_create.
  pose proof (offset_bound cfg it Hok). split; [done|]. destruct (reverse_ cfg); lia.
Qed.

(** Iterations that differ by less than the number of slices run on disjoint
    devices, and the assignment is periodic in the number of slices. *)
Theorem SubmeshForIteration_cyclic cfg i j (di dj : D) :
  submesh_ok cfg -> 0 <= i -> i < j < i + num_slices cfg ->
  SubmeshForIteration cfg i = OK di -> SubmeshForIteration cfg j = OK dj ->
  (dl_stop di <= dl_start dj \/ dl_stop dj <= dl_start di) /\
  SubmeshForIteration cfg (i + num_slices cfg) = OK di.
Proof.
  intros Hok Hi Hij Hdi Hdj. pose proof (num_slices_pos cfg Hok) as Hpos.
  rewrite SubmeshForIteration_unfold in * by (done || lia). cbn in *.
  injection Hdi as <-. injection Hdj as <-.
  rewrite !dl_stop_def, !dl_start_create, !dl_size_create.
  replace ((i + num_slices cfg) mod num_slices cfg) with (i mod num_slices cfg)
    by (rewrite <- (Z.mul_1_l (num_slices cfg)) at 2; by rewrite Z_mod_plus_full).
  split; [|done]. destruct Hok as [Hs _].
  assert (i mod num_slices cfg <> j mod num_slices cfg) as Hne.
  { intros Heq.
    assert ((j - i) mod num_slices cfg = 0) as H0.
    { rewrite Zminus_mod, Heq, Z.sub_diag. apply Z.mod_0_l. lia. }
    rewrite Z.mod_small in H0 by lia. lia. }
  destruct (reverse_ cfg); nia.
Qed.
End submesh.

(** A forward submesh is counted from device 0, not from the start of its mesh:
    on the mesh of devices 4 to 7 the first iteration is given devices 0 and 1. *)
Theorem forward_submesh_outside_mesh :
  exists cfg d, submesh_ok cfg /\ reverse_ cfg = false /\
    SubmeshForIteration (D := Slice.t) cfg 0 = OK d /\
    dl_stop d <= global_mesh_start cfg.
Proof.
  exists (Build_SubmeshConfig 2 4 8 false), (Slice.mk 0 2).
  split_and!; [by vm_compute|done|done|by vm_compute].
Qed.

Lemma SubmeshForIteration_bounds_witness :
  exists d : Slice.t, SubmeshForIteration (Build_SubmeshConfig 2 4 8 true) 3 = OK d /\
    dl_size d = 2 /\ (4 <= dl_start d /\ dl_stop d <= 8).
Proof.
  apply (SubmeshForIteration_bounds (Build_SubmeshConfig 2 4 8 true) 3);
    unfold submesh_ok; cbn; lia.
Defined.

Lemma SubmeshForIteration_cyclic_witness :
  (dl_stop (Slice.mk 0 2) <= dl_start (Slice.mk 2 2) \/
   dl_stop (Slice.mk 2 2) <= dl_start (Slice.mk 0 2)) /\
  SubmeshForIteration (Build_SubmeshConfig 2 0 8 false) (0 + 4) = OK (Slice.mk 0 2).
Proof.
  apply (SubmeshForIteration_cyclic (Build_SubmeshConfig 2 0 8 false) 0 1).
  - unfold submesh_ok; cbn; lia.
  - lia.
  - vm_compute; split; reflexivity.
  - reflexivity.
  - reflexivity.
Defined.

Section microbatch_config.
Context {J : Type} `{JsonApi J}.

(** A computation that fails only with [InvalidArgument]. *)
Definition invalid_or_ok {A} (r : Result A) : Prop :=
  (exists a, r = OK a) \/ (exists msg, r = Err kInvalidArgument msg).

Lemma invalid_or_ok_bind {A B} (m : Result A) (f : A -> Result B) :
  invalid_or_ok m -> (forall a, invalid_or_ok (f a)) -> invalid_or_ok (m ≫= f).
Proof. intros [[a ->]|[msg ->]] Hf; cbn; [apply Hf|right; by exists msg]. Qed.

Lemma invalid_or_ok_ret {A} (a : A) : invalid_or_ok (OK a).
Proof. left. by exists a. Qed.

Lemma invalid_or_ok_err {A} msg : invalid_or_ok (A := A) (Err kInvalidArgument msg).
Proof. right. by exists msg. Qed.

Hint Resolve invalid_or_ok_ret invalid_or_ok_err : core.

Lemma GetRequired_invalid {T} `{!TaskValue J T} (json : J) name :
  invalid_or_ok (GetRequired (T := T) json name).
Proof. unfold GetRequired. repeat case_match; auto. Qed.

Lemma GetOptionalTaskValue_invalid {T} `{!TaskValue J T} (json : J) name (dflt : T) :
  invalid_or_ok (GetOptionalTaskValue json name dflt).
Proof. unfold GetOptionalTaskValue. repeat case_match; auto. Qed.

Lemma GetOptional_invalid {T} `{!TaskValue J T} (json : J) name :
  invalid_or_ok (GetOptional (T := T) json name).
Proof. unfold GetOptional. repeat case_match; auto. Qed.

Lemma schedule_of_string_invalid s : invalid_or_ok (schedule_of_string s).
Proof. unfold schedule_of_string. repeat case_match; auto. Qed.

Hint Resolve invalid_or_ok_bind GetRequired_invalid GetOptionalTaskValue_invalid
  GetOptional_invalid schedule_of_string_invalid : core.

(** Reading a microbatch configuration succeeds or reports an invalid
    argument, for every text. *)
Theorem GetMicrobatchConfig_total text : invalid_or_ok (GetMicrobatchConfig (J := J) text).
Proof.
  unfold GetMicrobatchConfig. apply invalid_or_ok_bind.
  - unfold GetJsonValue. case_match; auto.
  - intros json. repeat (apply invalid_or_ok_bind; [by auto|intros ?]). auto.
Qed.

(** Every schedule name of the table is understood, and no other non-empty name. *)
Theorem schedule_of_string_spec s sched :
  schedule_of_string s = OK sched <->
  (s = "" /\ sched = kFillDrain) \/ (s <> "" /\ (s, sched) ∈ kScheduleTypes).
Proof.
  unfold schedule_of_string. case_bool_decide as Hs.
  - assert (NoDup kScheduleTypes.*1) as Hnd by (apply (bool_decide_unpack _); by vm_compute).
    rewrite (elem_of_list_to_map (M := gmap string) _ _ _ Hnd).
    destruct (list_to_map kScheduleTypes !! s); naive_solver.
  - naive_solver.
Qed.

Lemma GetRequired_OK {T} `{!TaskValue J T} (json : J) name (t : T) :
  GetRequired json name = OK t -> GetTaskValue (jget json name) = Some t.
Proof. unfold GetRequired. repeat case_match; congruence. Qed.

(** What a successful read returns: the required fields of the document, the
    batch dimension defaulting to the slice dimension, and breadth-first
    scheduling when no schedule is named. *)
Theorem GetMicrobatchConfig_fields text cfg :
  GetMicrobatchConfig (J := J) text = OK cfg ->
  exists json, reader_parse text = Some json /\
    GetTaskValue (T := int) (jget json "num_microbatches") = Some (num_iterations cfg) /\
    GetTaskValue (T := int) (jget json "size") = Some (microbatch_size cfg) /\
    GetTaskValue (T := int) (jget json "slice_dim") = Some (slice_dim cfg) /\
    (isNull (jget json "batch_dim") = true -> microbatch_dim cfg = slice_dim cfg) /\
    (isNull (jget json "schedule") = true -> schedule cfg = kFillDrain) /\
    (isNull (jget json "num_stages") = true -> num_stages cfg = None) /\
    slice_param_number cfg = None.
Proof.
  unfold GetMicrobatchConfig, GetJsonValue. intros Hrun.
  destruct (reader_parse text) as [json|]; cbn in Hrun; [|done]. exists json.
  repeat match type of Hrun with
  | _ ≫= _ = OK _ =>
      let E := fresh "E" in apply Result_bind_OK in Hrun as (? & E & Hrun)
  end.
  injection Hrun as <-. cbn.
  repeat match goal with
  | E : GetRequired _ _ = OK _ |- _ => apply GetRequired_OK in E
  end.
  split_and!; try done; intros Hnull.
  all: unfold GetOptionalTaskValue, GetOptional in *.
  all: rewrite Hnull in *; simplify_eq; try done.
  change (schedule_of_string "") with (OK kFillDrain) in *. by simplify_eq.
Qed.
End microbatch_config.

Lemma GetMicrobatchConfig_fields_witness :
  exists json, reader_parse (JsonTree.print (JsonTree.JObject
      [("num_microbatches", JsonTree.JInt 4); ("size", JsonTree.JInt 2);
       ("slice_dim", JsonTree.JInt 0)])) = Some json /\
    GetTaskValue (T := int) (jget json "num_microbatches") = Some 4 /\
    GetTaskValue (T := int) (jget json "size") = Some 2 /\
    GetTaskValue (T := int) (jget json "slice_dim") = Some 0 /\
    (isNull (jget json "batch_dim") = true -> 0 = 0) /\
    (isNull (jget json "schedule") = true -> kFillDrain = kFillDrain) /\
    (isNull (jget json "num_stages") = true -> @None Z = None) /\
    @None Z = None.
Proof.
  apply (GetMicrobatchConfig_fields (J := JsonTree.t) _
    (Build_LoopConfig 4 0 2 0 0 None kFillDrain None None None None)).
  vm_compute. reflexivity.
Defined.
