(* ===== verification/LoopScheduler.v ===== *)
(** * Pipeline schedules of a microbatch loop (loop_scheduler.cc)

    The tasks of an unrolled loop are an array of iterations (microbatches) by
    stages; a schedule is a vector of task sequences.  Logging is not modelled;
    [int] arithmetic is written on [Z], with the narrowing conversions from
    64-bit values explicit. *)
From S2P Require Import Prelude Hlo Json Instruction Partition LoopConfig.
Local Open Scope Z_scope.

Section scheduler.
Context {I C St D : Type} `{EqDecision I, !Countable I} `{!Hlo I C} `{!AttrStore I St}.
Context `{Countable D, !DeviceListApi D} `{!HashOrder, !HeapOrder}.
Context (partition : HloPartition D) (s : St).
Abbreviation Tasks := (list (list I)).

(** [tasks[iter][stage]] *)
Definition task_at (tasks : Tasks) (iter stage : Z) : Result I :=
  row ← vec_at tasks iter; vec_at row stage.

(** [rows[r].push_back(x)] *)
Definition push_row {A} (rows : list (list A)) (r : Z) (x : A) : Result (list (list A)) :=
  row ← vec_at rows r; vec_set rows r (row ++ [x]).

(** ** Loop-increment tasks *)

Definition GetIndicesToUnroll (tasks : Tasks) : Result (gset Z) :=
  row0 ← vec_at tasks 0;
  foldM (fun (indices : gset Z) task_index =>
    call ← vec_at row0 task_index;
    color ← color_deref s call;
    OK (if IsLoopIncrementColor partition color
        then {[task_index]} ∪ indices else indices))
    ∅ (seqZ 0 (Zlength row0)).

(** Unrolls the tasks at the given indices into the first row of the schedule
    and returns the schedule together with the remaining tasks. *)
Definition UnrollLoopIncrementTasks (tasks : Tasks) (indices : gset Z) (schedule : Tasks)
    : Result (Tasks * Tasks) :=
  let num_iterations := Zlength tasks in
  schedule ← foldM (fun schedule task_index =>
      foldM (fun schedule iter =>
          t ← task_at tasks iter task_index;
          push_row schedule 0 t)
        schedule (seqZ 0 num_iterations))
    schedule (hash_order (base.elements indices));
  remaining ← foldM (fun remaining iter =>
      row ← vec_at tasks iter;
      foldM (fun remaining task_index =>
          if bool_decide (task_index ∈ indices) then OK remaining
          else t ← vec_at row task_index; push_row remaining iter t)
        remaining (seqZ 0 (Zlength row)))
    (replicate (length tasks) []) (seqZ 0 num_iterations);
  OK (schedule, remaining).

(** ** Device groups of a row of tasks *)

(** The map [unique_groups] from the device lists that are not the global one
    to the number of tasks on them, with the number of such tasks. *)
Definition unique_groups (row : list I) : Result (gmap D Z * Z) :=
  foldM (fun '(groups, n) task =>
      color ← color_deref s task;
      devices ← DevicesForColor partition color;
      if bool_decide (dl_size devices <> TotalDevices partition)
      then OK (<[devices := default 0 (groups !! devices) + 1]> groups, n + 1)
      else OK (groups, n))
    (∅, 0) row.

Definition num_groups_of (groups : gmap D Z) : Z :=
  Z.max 1 (to_int32 (Z.of_nat (size groups))).

(** ** Wavefront scheduling *)

Definition wavefront_delay (cfg : LoopConfig) (num_pipeline_tasks : Z) : Z :=
  match num_stages cfg with
  | Some n => n
  | None => Z.max 1 (Z.quot (num_pipeline_tasks + 1) 2)
  end.

(** The body of the two nested loops over wavefronts and stages. *)
Definition wavefront_visit (tasks : Tasks) (delay minibatch_size num_microbatches : Z)
    (schedule : Tasks) (wf stage : Z) : Result Tasks :=
  let tick := wf - stage in
  minibatch ← cdiv tick delay;
  minibatch_offset ← cmod tick delay;
  if bool_decide (tick >= 0) && bool_decide (minibatch_offset < minibatch_size) then
    let microbatch := minibatch * minibatch_size + minibatch_offset in
    if bool_decide (microbatch < num_microbatches) then
      t ← task_at tasks microbatch stage; push_row schedule 0 t
    else OK schedule
  else OK schedule.

Definition ScheduleWavefront_loops (tasks : Tasks) (cfg : LoopConfig) (schedule : Tasks)
    : Result Tasks :=
  if bool_decide (tasks = []) then OK schedule
  else if bool_decide (Zlength schedule <> 1)
  then Err kInvalidArgument "Schedule must be a single vector"
  else
    row0 ← vec_at tasks 0;
    groups ← unique_groups row0;
    let num_groups := num_groups_of groups.1 in
    let delay := wavefront_delay cfg groups.2 in
    let num_stages := to_int32 (Zlength row0) in
    let minibatch_size := num_groups in
    let num_microbatches := to_int32 (num_iterations cfg) in
    num_minibatches ← cdiv (num_iterations cfg + num_groups - 1) num_groups;
    let num_wavefronts := num_stages + to_int32 num_minibatches * delay in
    foldM (fun schedule wf =>
        foldM (fun schedule stage =>
            wavefront_visit tasks delay minibatch_size num_microbatches schedule wf stage)
          schedule (reverse (seqZ 0 num_stages)))
      schedule (seqZ 0 num_wavefronts).

(** ** Breadth-first scheduling *)

Definition ScheduleGpipe (cfg : LoopConfig) (tasks : Tasks) : Result Tasks :=
  row0 ← vec_at tasks 0;
  foldM (fun schedule task_index =>
      foldM (fun schedule iter =>
          t ← task_at tasks iter task_index; push_row schedule 0 t)
        schedule (seqZ 0 (num_iterations cfg)))
    [[]] (seqZ 0 (Zlength row0)).

(** ** The wavefront entry points *)

Definition SchedulePrefetchWavefront_unrolled (cfg : LoopConfig) (indices : gset Z)
    (tasks : Tasks) : Result Tasks :=
  unrolled ← UnrollLoopIncrementTasks tasks indices [[]];
  ScheduleWavefront_loops unrolled.2 cfg unrolled.1.

Definition ScheduleWavefront (cfg : LoopConfig) (tasks : Tasks) : Result Tasks :=
  match tasks with
  | [] | [] :: _ => OK [[]]
  | row0 :: _ =>
      if bool_decide (length row0 = 1%nat) then ScheduleGpipe cfg tasks
      else
        indices ← GetIndicesToUnroll tasks;
        SchedulePrefetchWavefront_unrolled cfg indices tasks
  end.

Definition SchedulePrefetchWavefront (cfg : LoopConfig) (tasks : Tasks) : Result Tasks :=
  match tasks with
  | [] | [] :: _ => OK [[]]
  | row0 :: _ =>
      if bool_decide (length row0 = 1%nat) then ScheduleGpipe cfg tasks
      else
        indices ← GetIndicesToUnroll tasks;
        if bool_decide (indices <> ∅) then
          SchedulePrefetchWavefront_unrolled cfg indices tasks
        else ScheduleWavefront cfg tasks
  end.

(** ** Custom schedules *)

Abbreviation task_key := (Z * string)%type.

(** [custom_schedule_task_counts]: how often each name appears in the rows. *)
Definition custom_task_counts (custom : CustomSchedule) : gmap string Z :=
  foldl (fun counts row =>
      foldl (fun (counts : gmap string Z) (e : Z * string) =>
          <[e.2 := default 0 (counts !! e.2) + 1]> counts) counts row)
    ∅ custom.

(** Check 1 *)
Definition check_counts (counts : list (string * Z)) (num_microbatches : Z) : Result unit :=
  foldM (fun _ (e : string * Z) =>
      if bool_decide (e.2 <> num_microbatches)
      then Err kInvalidArgument "Task appears the wrong number of times in custom schedule"
      else OK ()) () counts.

(** The map from (microbatch, name) to the task whose color contains the name,
    with check 2. *)
Definition build_task_map (tasks : Tasks) (counts : list (string * Z))
    (tasks_per_iter : Z) : Result (gmap task_key I) :=
  foldM (fun task_map iter =>
      foldM (fun task_map (e : string * Z) =>
          foldM (fun (task_map : gmap task_key I) mb_task_index =>
              t ← task_at tasks iter mb_task_index;
              if StrContains (ColorOrDefault s t) e.1 then
                if bool_decide (is_Some (task_map !! (iter, e.1)))
                then Err kInvalidArgument "Task appears multiple times in microbatch row"
                else OK (<[(iter, e.1) := t]> task_map)
              else OK task_map)
            task_map (seqZ 0 tasks_per_iter))
        task_map counts)
    ∅ (seqZ 0 (Zlength tasks)).

(** Populates the schedule, with check 3. *)
Definition populate_custom (custom : CustomSchedule) (task_map : gmap task_key I)
    (schedule : Tasks) : Result Tasks :=
  foldM (fun schedule mesh_id =>
      schedule_for_mesh ← vec_at custom mesh_id;
      foldM (fun schedule (e : task_key) =>
          match task_map !! e with
          | None => Err kInvalidArgument "Task not found in task map!"
          | Some t => push_row schedule mesh_id t
          end)
        schedule schedule_for_mesh)
    schedule (seqZ 0 (Zlength custom)).

Definition ScheduleCustomSchedule (custom : CustomSchedule) (tasks schedule : Tasks)
    : Result Tasks :=
  front ← vec_at tasks 0;
  let counts := hash_order (map_to_list (custom_task_counts custom)) in
  _ ← check_counts counts (Zlength tasks);
  task_map ← build_task_map tasks counts (Zlength front);
  populate_custom custom task_map schedule.

Definition ScheduleCustom (cfg : LoopConfig) (tasks : Tasks) : Result Tasks :=
  match custom_schedule cfg with
  | None => Fatal Thrown
  | Some custom =>
      indices ← GetIndicesToUnroll tasks;
      unrolled ← UnrollLoopIncrementTasks tasks indices (replicate (length custom) []);
      ScheduleCustomSchedule custom unrolled.2 unrolled.1
  end.

(** ** Zero-bubble scheduling *)

Record NonCriticalStage := { partner_stage_number : Z; nc_stage : Z }.

Definition CompareNonCriticalStage (lhs rhs : NonCriticalStage) : bool :=
  partner_stage_number lhs <? partner_stage_number rhs.

Record StageGroup := { sg_wf : Z; sg_microbatch : Z; sg_stage : Z }.

Definition CompareStageGroup (lhs rhs : StageGroup) : bool :=
  if sg_wf lhs =? sg_wf rhs then
    if sg_microbatch lhs =? sg_microbatch rhs then sg_stage lhs >? sg_stage rhs
    else sg_microbatch lhs >? sg_microbatch rhs
  else sg_wf lhs >? sg_wf rhs.

(** Appends the task of a stage to every row. *)
Definition push_stage (tasks reordered : Tasks) (stage : Z) : Result Tasks :=
  foldM (fun reordered iter =>
      t ← task_at tasks iter stage; push_row reordered iter t)
    reordered (seqZ 0 (Zlength tasks)).

(** [critical_stage_numbers[task] = stage] for the task of every iteration. *)
Definition record_stage (tasks : Tasks) (numbers : gmap I Z) (stage : Z)
    : Result (gmap I Z) :=
  foldM (fun (numbers : gmap I Z) iter =>
      t ← task_at tasks iter stage; OK (<[t := stage]> numbers))
    numbers (seqZ 0 (Zlength tasks)).

(** The first loop: the critical stages of the first microbatch, in order. *)
Definition critical_stages (tasks : Tasks) (row0 : list I)
    : Result (Tasks * gmap I Z * Z) :=
  foldM (fun '(reordered, numbers, n) stage =>
      task ← vec_at row0 stage;
      critical ← IsCritical partition s task;
      if critical : bool then
        numbers ← record_stage tasks numbers stage;
        reordered ← push_stage tasks reordered stage;
        OK (reordered, numbers, n + 1)
      else OK (reordered, numbers, n))
    (replicate (length tasks) [], ∅, 0) (seqZ 0 (Zlength row0)).

(** The largest stage number among the critical tasks an instruction consumes
    through its get-tuple-element operands. *)
Definition partner_stage (numbers : gmap I Z) (i : I) : Z :=
  foldl (fun best gte_operand =>
      foldl (fun best call_operand =>
          match numbers !! call_operand with
          | Some n => Z.max best n
          | None => best
          end) best (operands gte_operand))
    0 (operands i).

(** The second loop: the non-critical stages of the last microbatch. *)
Definition non_critical_stages (numbers : gmap I Z) (last_row : list I)
    : Result (list NonCriticalStage) :=
  foldM (fun acc stage =>
      i ← vec_at last_row stage;
      OK (if IsNonCritical_instruction partition s i
          then acc ++ [{| partner_stage_number := partner_stage numbers i; nc_stage := stage |}]
          else acc))
    [] (seqZ 0 (Zlength last_row)).

(** The contents of the queue of stage groups. *)
Definition stage_groups (num_minibatches minibatch_size delay num_stages : Z)
    : list StageGroup :=
  seqZ 0 num_minibatches ≫= fun minibatch =>
  seqZ 0 minibatch_size ≫= fun mb =>
  (fun stage => {| sg_wf := minibatch * delay + mb + stage;
                   sg_microbatch := minibatch * minibatch_size + mb;
                   sg_stage := stage |}) <$> seqZ 0 num_stages.

(** One iteration of the final loop; the timers only feed the log. *)
Definition emit_group (reordered : Tasks) (row0 : list I) (order : list I) (g : StageGroup)
    : Result (list I) :=
  t ← task_at reordered (sg_microbatch g) (sg_stage g);
  _ ← DevicesForInstruction partition s t;
  task0 ← vec_at row0 (sg_stage g);
  _ ← IsCritical partition s task0;
  OK (order ++ [t]).

Definition ScheduleZeroBubble (cfg : LoopConfig) (tasks : Tasks) : Result Tasks :=
  if bool_decide (tasks = []) then OK []
  else
    row0 ← vec_at tasks 0;
    last_row ← vec_at tasks (Zlength tasks - 1);
    critical ← critical_stages tasks row0;
    let '(reordered, numbers, num_pipeline_tasks) := critical in
    non_critical ← non_critical_stages numbers last_row;
    reordered ← foldM (fun reordered nc => push_stage tasks reordered (nc_stage nc))
                  reordered (heap_order CompareNonCriticalStage non_critical);
    groups ← unique_groups row0;
    let num_groups := num_groups_of groups.1 in
    let delay := to_int32 (Z.quot (num_pipeline_tasks + 1) 2) in
    num_minibatches ← cdiv (num_iterations cfg + num_groups - 1) num_groups;
    let queue := stage_groups (to_int32 num_minibatches) num_groups delay (Zlength row0) in
    order ← foldM (emit_group reordered row0) [] (heap_order CompareStageGroup queue);
    OK [order].

(** ** The dispatch *)
Definition ScheduleLoops (cfg : LoopConfig) (tasks : Tasks) : Result Tasks :=
  match schedule cfg with
  | kCustom => ScheduleCustom cfg tasks
  | kFillDrain => ScheduleGpipe cfg tasks
  | kPrefetchWavefront => SchedulePrefetchWavefront cfg tasks
  | kZeroBubbleH2 => ScheduleZeroBubble cfg tasks
  | k1F1B | kWavefront => ScheduleWavefront cfg tasks
  end.
End scheduler.
