(* ===== verification/LoopSchedulerFacts.v ===== *)
(** * Correctness of the pipeline schedules

    A schedule emits cells (microbatch, stage); [emit] is the task sequence of a
    list of cells.  Each scheduling loop of [LoopScheduler] is shown to emit an
    explicit list of cells, and the properties are stated on those cells. *)
From S2P Require Import Prelude Hlo Json Instruction Partition LoopConfig LoopScheduler.
Local Open Scope Z_scope.

(** The task array of [n] microbatches by [m] stages. *)
Definition regular {A} (tasks : list (list A)) (n m : Z) : Prop :=
  Zlength tasks = n /\ Forall (fun row => Zlength row = m) tasks.

Definition in_grid (n m : Z) (c : Z * Z) : Prop := 0 <= c.1 < n /\ 0 <= c.2 < m.

Definition task_opt {A} (tasks : list (list A)) (c : Z * Z) : option A :=
  match task_at tasks c.1 c.2 with OK t => Some t | _ => None end.

Definition emit {A} (tasks : list (list A)) (cells : list (Z * Z)) : list A :=
  omap (task_opt tasks) cells.

Section emit.
Context {A : Type}.
Implicit Types (tasks : list (list A)) (row : list A).

Lemma task_at_regular tasks n m i j :
  regular tasks n m -> in_grid n m (i, j) -> exists t, task_at tasks i j = OK t.
Proof.
  intros [Hn Hm] [Hi Hj]; cbn in *. unfold task_at.
  destruct (vec_at_is_OK tasks i) as [row Hrow]; [lia|]. rewrite Hrow. cbn.
  apply vec_at_lookup in Hrow as [_ Hrow%list_elem_of_lookup_2].
  apply vec_at_is_OK. rewrite (proj1 (Forall_forall _ _) Hm row Hrow). lia.
Qed.

Lemma emit_cell tasks c t :
  task_at tasks c.1 c.2 = OK t -> emit tasks [c] = [t].
Proof. unfold emit, task_opt. cbn. by intros ->. Qed.

Lemma emit_app tasks l1 l2 : emit tasks (l1 ++ l2) = emit tasks l1 ++ emit tasks l2.
Proof. apply omap_app. Qed.

Lemma emit_bind {B} tasks (f : B -> list (Z * Z)) l :
  emit tasks (l ≫= f) = l ≫= (fun x => emit tasks (f x)).
Proof. induction l as [|x l IH]; [done|]. by rewrite !bind_cons, emit_app, IH. Qed.

Lemma emit_perm tasks l1 l2 : l1 ≡ₚ l2 -> emit tasks l1 ≡ₚ emit tasks l2.
Proof. intros Hp. unfold emit. by rewrite Hp. Qed.

(** The cells of the array in row-major order. *)
Definition grid (n m : Z) : list (Z * Z) :=
  seqZ 0 n ≫= fun i => pair i <$> seqZ 0 m.

Lemma elem_of_grid n m c : c ∈ grid n m <-> in_grid n m c.
Proof.
  unfold grid, in_grid. destruct c as [i j]. rewrite elem_of_bind_list. cbn. split.
  - intros (i' & (j' & [= -> ->] & Hj)%list_elem_of_fmap & Hi).
    rewrite elem_of_seqZ in *. lia.
  - intros [Hi Hj]. exists i. rewrite elem_of_seqZ. split; [|lia].
    apply list_elem_of_fmap. exists j. rewrite elem_of_seqZ. split; [done|lia].
Qed.

Lemma NoDup_grid n m : NoDup (grid n m).
Proof.
  apply NoDup_bind; [| |apply NoDup_seqZ].
  - intros i1 i2 y _ _ (? & -> & _)%list_elem_of_fmap (? & [= ->] & _)%list_elem_of_fmap.
    done.
  - intros i _. apply NoDup_fmap_2; [by intros ?? [=]|apply NoDup_seqZ].
Qed.

Definition ok_opt {B} (r : Result B) : option B :=
  match r with OK x => Some x | _ => None end.

Lemma omap_ok {B} (l : list B) : omap ok_opt (OK <$> l) = l.
Proof. induction l as [|x l IH]; cbn; [done|by f_equal]. Qed.

Lemma emit_row tasks i row :
  vec_at tasks i = OK row -> emit tasks (pair i <$> seqZ 0 (Zlength row)) = row.
Proof.
  intros Hrow. trans (omap ok_opt (vec_at row <$> seqZ 0 (Zlength row)));
    [|by rewrite vec_at_all, omap_ok].
  unfold emit. rewrite !omap_fmap_list. apply list_omap_ext, Forall_Forall2_diag.
  apply Forall_forall. intros j _. unfold task_opt, task_at. cbn. by rewrite Hrow.
Qed.

Lemma emit_grid tasks n m : regular tasks n m -> emit tasks (grid n m) = concat tasks.
Proof.
  intros [<- Hm]. unfold grid. rewrite emit_bind.
  trans ((vec_at tasks <$> seqZ 0 (Zlength tasks)) ≫= (fun r => default [] (ok_opt r))).
  - rewrite list_fmap_bind. apply bind_ext_in. intros i Hi%elem_of_seqZ. cbn.
    destruct (vec_at_is_OK tasks i) as [row Hrow]; [lia|]. rewrite Hrow. cbn.
    etrans; [|by apply (emit_row tasks i row Hrow)]. do 3 f_equal. symmetry.
    apply (proj1 (Forall_forall _ _) Hm).
    apply vec_at_lookup in Hrow as [_ Hrow]. by eapply list_elem_of_lookup_2.
  - rewrite vec_at_all, list_fmap_bind. clear Hm.
    induction tasks as [|row tasks IH]; [done|]. rewrite bind_cons. cbn. by f_equal.
Qed.

(** A duplicate-free list of all the cells emits every task exactly once. *)
Lemma emit_complete tasks n m cells :
  regular tasks n m -> NoDup cells -> (forall c, c ∈ cells <-> in_grid n m c) ->
  emit tasks cells ≡ₚ concat tasks.
Proof.
  intros Hreg Hnd Hin. rewrite <- (emit_grid tasks n m Hreg). apply emit_perm.
  apply NoDup_same_Permutation; [done|apply NoDup_grid|].
  intros c. by rewrite Hin, elem_of_grid.
Qed.
End emit.

(** Loops that append to the single row of a schedule. *)
Lemma push_row_single {A} (row : list A) x : push_row [row] 0 x = OK [row ++ [x]].
Proof. reflexivity. Qed.

Lemma foldM_push_single {A B} (f : list (list B) -> A -> Result (list (list B)))
    (g : A -> list B) acc l :
  (forall acc x, x ∈ l -> f [acc] x = OK [acc ++ g x]) ->
  foldM f [acc] l = OK [acc ++ (l ≫= g)].
Proof.
  revert acc. induction l as [|x l IH]; intros acc Hf.
  - cbn. by rewrite app_nil_r.
  - cbn [foldM]. rewrite Hf by set_solver. rewrite bind_cons, app_assoc.
    apply IH. set_solver.
Qed.

(** ** The wavefront loops *)
Section wavefront.
Context (delay sz nm : Z).
Hypothesis (Hdelay : 0 < delay) (Hsz : 0 < sz).

(** The cell visited at a wavefront and a stage, if any. *)
Definition visit_cells (wf stage : Z) : list (Z * Z) :=
  let tick := wf - stage in
  let mb := (tick / delay) * sz + tick mod delay in
  if bool_decide (0 <= tick /\ tick mod delay < sz /\ mb < nm) then [(mb, stage)] else [].

(** The wavefront, counted from its stage, at which a microbatch runs. *)
Definition tick_of (mb : Z) : Z := (mb / sz) * delay + mb mod sz.

Lemma elem_of_visit_cells wf stage c :
  c ∈ visit_cells wf stage <->
  c.2 = stage /\ 0 <= c.1 < nm /\ c.1 mod sz < delay /\ wf = stage + tick_of c.1.
Proof.
  destruct c as [mb st]. unfold visit_cells, tick_of. cbn. split.
  - case_bool_decide as H; [|by intros ?%elem_of_nil].
    intros [= -> ->]%list_elem_of_singleton. destruct H as (Ht & Ho & Hn).
    pose proof (Z.mod_pos_bound (wf - stage) delay Hdelay).
    pose proof (Z.div_pos (wf - stage) delay Ht Hdelay).
    pose proof (Z.div_mod (wf - stage) delay ltac:(lia)).
    rewrite Z.div_add_l, Z.add_comm, Z_mod_plus_full by lia.
    rewrite (Z.div_small ((wf - stage) mod delay) sz),
            (Z.mod_small ((wf - stage) mod delay) sz) by lia.
    nia.
  - intros (-> & Hmb & Hmod & ->).
    replace (stage + (mb / sz * delay + mb mod sz) - stage)
      with (mb / sz * delay + mb mod sz) by lia.
    pose proof (Z.mod_pos_bound mb sz Hsz). pose proof (Z.div_pos mb sz ltac:(lia) Hsz).
    rewrite Z.div_add_l by lia.
    rewrite (Z.add_comm (mb / sz * delay)), Z_mod_plus_full.
    rewrite (Z.div_small (mb mod sz) delay), (Z.mod_small (mb mod sz) delay) by lia.
    pose proof (Z.div_mod mb sz ltac:(lia)).
    replace ((mb / sz + 0) * sz + mb mod sz) with mb by lia.
    rewrite bool_decide_eq_true_2; [by apply list_elem_of_singleton|]. nia.
Qed.

Definition wavefront_cells (num_stages num_wf : Z) : list (Z * Z) :=
  seqZ 0 num_wf ≫= fun wf => reverse (seqZ 0 num_stages) ≫= fun stage => visit_cells wf stage.

Lemma elem_of_wavefront_cells num_stages num_wf c :
  c ∈ wavefront_cells num_stages num_wf <->
  0 <= c.2 < num_stages /\ 0 <= c.1 < nm /\ c.1 mod sz < delay /\
  0 <= c.2 + tick_of c.1 < num_wf.
Proof.
  unfold wavefront_cells. setoid_rewrite elem_of_bind_list.
  setoid_rewrite elem_of_bind_list. setoid_rewrite elem_of_visit_cells.
  setoid_rewrite elem_of_reverse. setoid_rewrite elem_of_seqZ. split.
  - intros (wf & (stage & (<- & ? & ? & ->) & ?) & ?). lia.
  - intros (? & ? & ? & ?). exists (c.2 + tick_of c.1). split; [|lia].
    exists c.2. split_and!; lia.
Qed.

Lemma tick_of_bound mb num_minibatches :
  0 <= mb < nm -> nm <= num_minibatches * sz -> mb mod sz < delay ->
  0 <= tick_of mb < num_minibatches * delay.
Proof.
  intros Hmb Hnm Hmod. unfold tick_of.
  pose proof (Z.mod_pos_bound mb sz Hsz). pose proof (Z.div_pos mb sz ltac:(lia) Hsz).
  assert (mb / sz < num_minibatches) by (apply Z.div_lt_upper_bound; lia). nia.
Qed.

(** A microbatch of a lower number starts earlier. *)
Lemma tick_of_lt mb1 mb2 :
  0 <= mb1 < mb2 -> mb1 mod sz < delay -> mb2 mod sz < delay -> tick_of mb1 < tick_of mb2.
Proof.
  intros Hlt H1 H2. unfold tick_of.
  pose proof (Z.mod_pos_bound mb1 sz Hsz). pose proof (Z.mod_pos_bound mb2 sz Hsz).
  pose proof (Z.div_mod mb1 sz ltac:(lia)). pose proof (Z.div_mod mb2 sz ltac:(lia)).
  assert (mb1 / sz <= mb2 / sz) by (apply Z.div_le_mono; lia).
  destruct (decide (mb1 / sz = mb2 / sz)) as [Heq|Hne]; [rewrite Heq in *; nia|nia].
Qed.

Lemma NoDup_visit_cells wf stage : NoDup (visit_cells wf stage).
Proof. unfold visit_cells. case_bool_decide; [apply NoDup_singleton|constructor]. Qed.

Lemma NoDup_wavefront_cells num_stages num_wf : NoDup (wavefront_cells num_stages num_wf).
Proof.
  apply NoDup_bind; [| |apply NoDup_seqZ].
  - intros wf1 wf2 c _ _ (st1 & H1 & _)%elem_of_bind_list (st2 & H2 & _)%elem_of_bind_list.
    rewrite elem_of_visit_cells in *. destruct H1 as (<- & _ & _ & ->).
    by destruct H2 as (<- & _ & _ & ->).
  - intros wf _. apply NoDup_bind; [| |rewrite reverse_Permutation; apply NoDup_seqZ].
    + intros st1 st2 c _ _ H1 H2. rewrite elem_of_visit_cells in *. destruct_and!. congruence.
    + intros stage _. apply NoDup_visit_cells.
Qed.

(** The cells come in the order of their wavefronts. *)
Definition wf_le (c1 c2 : Z * Z) : Prop := c1.2 + tick_of c1.1 <= c2.2 + tick_of c2.1.

Lemma seqZ_sorted m n : StronglySorted Z.lt (seqZ m n).
Proof.
  destruct (decide (n <= 0)) as [?|Hn]; [rewrite seqZ_nil by lia; constructor|].
  rewrite <- (Z2Nat.id n) by lia. clear Hn. generalize (Z.to_nat n) as k. intros k.
  revert m. induction k as [|k IH]; intros m; [constructor|].
  rewrite seqZ_cons by lia. constructor.
  - replace (Z.pred (Z.of_nat (S k))) with (Z.of_nat k) by lia. apply IH.
  - apply Forall_forall. intros x Hx%elem_of_seqZ. lia.
Qed.

Lemma wavefront_cells_sorted num_stages num_wf :
  StronglySorted wf_le (wavefront_cells num_stages num_wf).
Proof.
  assert (forall wf c, c ∈ reverse (seqZ 0 num_stages) ≫= visit_cells wf ->
            wf = c.2 + tick_of c.1) as Hwf.
  { intros wf c (st & Hc & _)%elem_of_bind_list.
    apply elem_of_visit_cells in Hc. destruct_and!. congruence. }
  eapply StronglySorted_bind; [apply seqZ_sorted| |].
  - intros wf _. assert (forall l, (forall c, c ∈ l -> wf = c.2 + tick_of c.1) ->
      StronglySorted wf_le l) as Hall; [|by apply Hall, Hwf].
    induction l as [|c l IH]; intros Hl; constructor; [apply IH; set_solver|].
    apply Forall_forall. intros c' Hc'. unfold wf_le.
    rewrite <- (Hl c), <- (Hl c') by set_solver. lia.
  - intros wf1 wf2 c1 c2 _ _ Hlt H1%Hwf H2%Hwf. unfold wf_le. lia.
Qed.
End wavefront.

(** ** The scheduling functions emit those cells *)
Section schedules.
Context {I St D : Type} `{!AttrStore I St}.
Context `{Countable D, !DeviceListApi D} `{HO : !HashOrder}.
Context (partition : HloPartition D) (s : St).
Implicit Types (tasks : list (list I)) (row : list I).

(** Every task of the row has a registered color. *)
Definition colored row : Prop :=
  Forall (fun t => exists c d, Color s t = Some c /\ DevicesForColor partition c = OK d) row.

Lemma unique_groups_OK row :
  colored row ->
  exists groups n, unique_groups partition s row = OK (groups, n) /\
    Z.of_nat (size groups) <= n <= Zlength row.
Proof.
  intros Hcol.
  destruct (foldM_total (fun done st => Z.of_nat (size st.1) <= st.2 <= Zlength done)
    (fun '(groups, n) task =>
      color ← color_deref s task;
      devices ← DevicesForColor partition color;
      if bool_decide (dl_size devices <> TotalDevices partition)
      then OK (<[devices := default 0 (groups !! devices) + 1]> groups, n + 1)
      else OK (groups, n)) (∅ : gmap D Z, 0) row) as ([groups n] & Hrun & Hinv).
  - cbn. rewrite map_size_empty. unfold Zlength. cbn. lia.
  - intros done t rest [groups n] -> Hinv. cbn in Hinv.
    apply Forall_app in Hcol as [_ Hcol]. apply Forall_cons in Hcol as [(c & d & Hc & Hd) _].
    unfold color_deref. rewrite Hc. cbn. rewrite Hd. cbn. unfold Zlength in *.
    case_bool_decide; eexists; (split; [done|]); cbn; rewrite length_app; cbn; [|lia].
    destruct (groups !! d) eqn:E.
    + rewrite (map_size_insert_Some _ _ _ (mk_is_Some _ _ E)). lia.
    + rewrite map_size_insert_None by done. lia.
  - exists groups, n. by split.
Qed.

Lemma wavefront_visit_cells tasks n m delay sz nm acc wf stage :
  regular tasks n m -> 0 < delay -> 0 < sz -> nm <= n -> 0 <= stage < m ->
  wavefront_visit tasks delay sz nm [acc] wf stage =
    OK [acc ++ emit tasks (visit_cells delay sz nm wf stage)].
Proof.
  intros Hreg Hdelay Hsz Hnm Hst. unfold wavefront_visit, visit_cells, cdiv, cmod.
  rewrite !(bool_decide_eq_false_2 (delay = 0)) by lia. cbn [mbind Result_bind].
  destruct (decide (0 <= wf - stage)) as [Ht|Ht].
  - rewrite (bool_decide_eq_true_2 (wf - stage >= 0)) by lia.
    rewrite Z.quot_div_nonneg, Z.rem_mod_nonneg by lia. cbn [andb].
    set (mb := (wf - stage) / delay * sz + (wf - stage) mod delay).
    pose proof (Z.mod_pos_bound (wf - stage) delay Hdelay).
    pose proof (Z.div_pos (wf - stage) delay Ht Hdelay).
    repeat case_bool_decide; try lia; try (cbn; by rewrite app_nil_r).
    destruct (task_at_regular tasks n m mb stage Hreg) as [t Hat].
    { unfold in_grid, mb in *. cbn. nia. }
    rewrite Hat, (emit_cell _ (mb, stage) t) by done. reflexivity.
  - rewrite (bool_decide_eq_false_2 (wf - stage >= 0)) by lia. cbn.
    rewrite bool_decide_eq_false_2 by lia. cbn. by rewrite app_nil_r.
Qed.

(** The range in which the narrowing conversions of the code lose nothing. *)
Definition int_range (n m : Z) : Prop := 0 < n < 2 ^ 30 /\ 0 <= m < 2 ^ 30.

Lemma num_groups_of_range (groups : gmap D Z) m :
  Z.of_nat (size groups) <= m -> m < 2 ^ 30 ->
  num_groups_of groups = Z.max 1 (Z.of_nat (size groups)) /\
  1 <= num_groups_of groups <= Z.max 1 m.
Proof. intros. unfold num_groups_of. rewrite to_int32_id; lia. Qed.

Definition num_minibatches_of (n sz : Z) : Z := (n + sz - 1) / sz.

Lemma num_minibatches_cover n sz :
  0 < sz -> 0 < n -> n <= num_minibatches_of n sz * sz /\
  num_minibatches_of n sz * sz < n + sz /\ 0 < num_minibatches_of n sz <= n.
Proof.
  intros Hsz Hn. unfold num_minibatches_of.
  pose proof (Z.div_mod (n + sz - 1) sz ltac:(lia)).
  pose proof (Z.mod_pos_bound (n + sz - 1) sz Hsz). nia.
Qed.

(** What the two nested loops of the wavefront schedule produce. *)
Lemma ScheduleWavefront_loops_cells tasks n m cfg acc :
  regular tasks n m -> int_range n m -> num_iterations cfg = n ->
  (forall row0, vec_at tasks 0 = OK row0 -> colored row0) ->
  exists row0 groups npt,
    vec_at tasks 0 = OK row0 /\ unique_groups partition s row0 = OK (groups, npt) /\
    let sz := num_groups_of groups in
    let delay := wavefront_delay cfg npt in
    1 <= sz <= Z.max 1 m /\
    (0 < delay ->
     ScheduleWavefront_loops partition s tasks cfg [acc] =
       OK [acc ++ emit tasks (wavefront_cells delay sz n m
                                (m + num_minibatches_of n sz * delay))]).
Proof.
  intros Hreg Hrange Hcfg Hcol. destruct Hrange as [Hn Hm].
  pose proof Hreg as [Hlen Hrows].
  destruct (vec_at_is_OK tasks 0) as [row0 Hrow0]; [lia|].
  assert (Zlength row0 = m) as Hm0.
  { apply (proj1 (Forall_forall _ _) Hrows).
    apply vec_at_lookup in Hrow0 as [_ Hr]. by eapply list_elem_of_lookup_2. }
  destruct (unique_groups_OK row0 (Hcol row0 Hrow0)) as (groups & npt & Hgroups & Hsize).
  destruct (num_groups_of_range groups m ltac:(lia) ltac:(lia)) as [Hsz_eq Hsz].
  exists row0, groups, npt. split; [done|]. split; [done|]. cbv zeta. split; [lia|]. intros Hdelay.
  set (sz := num_groups_of groups) in *. set (delay := wavefront_delay cfg npt) in *.
  destruct (num_minibatches_cover n sz ltac:(lia) ltac:(lia)) as (_ & _ & Hmini).
  unfold ScheduleWavefront_loops.
  rewrite bool_decide_eq_false_2 by (intros ->; unfold Zlength in Hlen; cbn in Hlen; lia).
  rewrite bool_decide_eq_false_2 by (intros Hne; by apply Hne).
  rewrite Hrow0. cbn [mbind Result_bind]. rewrite Hgroups. cbn [mbind Result_bind fst snd].
  fold sz delay. rewrite Hcfg, Hm0. unfold cdiv at 1. rewrite bool_decide_eq_false_2 by lia.
  cbn [mbind Result_bind]. rewrite Z.quot_div_nonneg by lia. fold (num_minibatches_of n sz).
  rewrite !to_int32_id by lia.
  rewrite (foldM_push_single _ (fun wf =>
    emit tasks (reverse (seqZ 0 m) ≫= visit_cells delay sz n wf))).
  - unfold wavefront_cells. by rewrite emit_bind.
  - intros acc' wf _. rewrite emit_bind. apply foldM_push_single.
    intros acc'' stage Hst%elem_of_reverse%elem_of_seqZ.
    apply (wavefront_visit_cells tasks n m); (done || lia).
Qed.
End schedules.

(** ** Unrolling the loop-increment tasks *)

(** A loop that appends to one row of a vector of rows. *)
Lemma foldM_push_row {A B} (f : list (list B) -> A -> Result (list (list B)))
    (g : A -> list B) rows (r : nat) acc l :
  rows !! r = Some acc ->
  (forall acc x, x ∈ l -> f (<[r := acc]> rows) x = OK (<[r := acc ++ g x]> rows)) ->
  foldM f rows l = OK (<[r := acc ++ (l ≫= g)]> rows).
Proof.
  intros Hr Hf. rewrite <- (list_insert_id rows r acc) at 1 by done. clear Hr.
  revert acc. induction l as [|x l IH]; intros acc.
  - cbn. by rewrite app_nil_r.
  - cbn [foldM]. rewrite Hf by set_solver. rewrite bind_cons, app_assoc.
    apply IH. set_solver.
Qed.

Lemma push_row_insert {A} (rows : list (list A)) (r : nat) acc x :
  (r < length rows)%nat ->
  push_row (<[r := acc]> rows) (Z.of_nat r) x = OK (<[r := acc ++ [x]]> rows).
Proof.
  intros Hr. unfold push_row.
  assert (vec_at (<[r := acc]> rows) (Z.of_nat r) = OK acc) as ->.
  { apply vec_at_nat. by apply list_lookup_insert_eq. }
  cbn. unfold vec_set. rewrite length_insert, bool_decide_eq_true_2 by lia.
  by rewrite Nat2Z.id, list_insert_insert_eq.
Qed.

(** A loop that fills the rows of a vector one after the other. *)
Lemma foldM_fill {B} (f : list (list B) -> Z -> Result (list (list B))) (h : Z -> list B)
    (n : nat) :
  (forall rows (i : nat), (i < n)%nat -> length rows = n -> rows !! i = Some [] ->
     f rows (Z.of_nat i) = OK (<[i := h (Z.of_nat i)]> rows)) ->
  foldM f (replicate n []) (seqZ 0 (Z.of_nat n)) = OK (h <$> seqZ 0 (Z.of_nat n)).
Proof.
  intros Hf.
  destruct (foldM_total (fun done st => st = (h <$> done) ++ replicate (n - length done) [])
    f (replicate n []) (seqZ 0 (Z.of_nat n))) as (st & Hrun & ->).
  - cbn. by rewrite Nat.sub_0_r.
  - intros done x rest st Hl ->.
    assert (x = Z.of_nat (length done) /\ (length done < n)%nat) as [-> Hlt].
    { assert (seqZ 0 (Z.of_nat n) !! length done = Some x) as Hx
        by (rewrite Hl; by apply list_lookup_middle).
      apply lookup_seqZ in Hx. lia. }
    eexists. split.
    + apply Hf; [done| |].
      * rewrite length_app, length_fmap, length_replicate. lia.
      * rewrite lookup_app_r by (by rewrite length_fmap).
        rewrite length_fmap, Nat.sub_diag. apply lookup_replicate. split; [done|lia].
    + rewrite insert_app_r_alt by (by rewrite length_fmap).
      rewrite length_fmap, Nat.sub_diag, fmap_app, length_app. cbn.
      replace (n - length done)%nat with (S (n - (length done + 1))) by lia. cbn.
      by rewrite <- app_assoc.
  - rewrite Hrun, length_seqZ, Nat2Z.id, Nat.sub_diag, app_nil_r. done.
Qed.

Section unroll.
Context {A : Type} `{HO : !HashOrder}.
Implicit Types (tasks : list (list A)) (indices : gset Z).

Definition unrolled_cells (n : Z) indices : list (Z * Z) :=
  hash_order (base.elements indices) ≫= fun j => (fun i => (i, j)) <$> seqZ 0 n.

Definition kept indices (m : Z) : list Z := filter (fun j => j ∉ indices) (seqZ 0 m).

Definition kept_cells (n m : Z) indices : list (Z * Z) :=
  seqZ 0 n ≫= fun i => pair i <$> kept indices m.

Definition remaining_tasks tasks (n m : Z) indices : list (list A) :=
  (fun i => emit tasks (pair i <$> kept indices m)) <$> seqZ 0 n.

Lemma UnrollLoopIncrementTasks_spec tasks n m indices acc :
  regular tasks n m -> (forall j, j ∈ indices -> 0 <= j < m) ->
  UnrollLoopIncrementTasks tasks indices [acc] =
    OK ([acc ++ emit tasks (unrolled_cells n indices)], remaining_tasks tasks n m indices).
Proof.
  intros Hreg Hidx. pose proof Hreg as [Hn Hrows]. unfold UnrollLoopIncrementTasks.
  rewrite (foldM_push_single _ (fun j => emit tasks ((fun i => (i, j)) <$> seqZ 0 n))).
  2: { intros acc' j Hj. rewrite hash_order_perm, elem_of_elements in Hj.
       rewrite Hn, (foldM_push_single _ (fun i => emit tasks [(i, j)])).
       - by rewrite <- emit_bind, bind_singleton.
       - intros acc'' i Hi%elem_of_seqZ.
         destruct (task_at_regular tasks n m i j Hreg) as [t Ht].
         { split; cbn; [lia|by apply Hidx]. }
         by rewrite Ht, (emit_cell _ (i, j) t). }
  cbn [mbind Result_bind]. unfold unrolled_cells. rewrite emit_bind, Hn.
  replace (seqZ 0 n) with (seqZ 0 (Z.of_nat (length tasks)))
    by (by rewrite <- Hn).
  rewrite (foldM_fill _ (fun i => emit tasks (pair i <$> kept indices m))).
  { cbn. unfold remaining_tasks. by rewrite <- Hn. }
  intros rows i Hi Hlen Hrow.
  destruct (vec_at_is_OK tasks (Z.of_nat i)) as [row Hat]; [unfold Zlength; lia|].
  assert (Zlength row = m) as Hm.
  { apply (proj1 (Forall_forall _ _) Hrows).
    apply vec_at_nat in Hat. by eapply list_elem_of_lookup_2. }
  rewrite Hat. cbn [mbind Result_bind]. rewrite Hm.
  rewrite (foldM_push_row _ (fun j => emit tasks (if decide (j ∉ indices) then [(Z.of_nat i, j)] else []))
             rows i []); [|done|].
  - by rewrite <- emit_bind, (bind_filter (fun j => j ∉ indices)).
  - intros acc' j Hj%elem_of_seqZ.
    case_bool_decide as Hin; [rewrite decide_False by (intros Hno; by apply Hno)|
                              rewrite decide_True by done].
    + cbn. by rewrite app_nil_r.
    + destruct (task_at_regular tasks n m (Z.of_nat i) j Hreg) as [t Ht].
      { split; cbn; unfold Zlength in Hn; lia. }
      rewrite (emit_cell _ (Z.of_nat i, j) t) by done.
      unfold task_at in Ht. rewrite Hat in Ht. cbn in Ht. rewrite Ht. cbn [mbind Result_bind].
      apply push_row_insert. lia.
Qed.
End unroll.

Section remaining.
Context {A : Type} `{HO : !HashOrder}.
Implicit Types (tasks : list (list A)) (indices : gset Z).

Lemma elem_of_kept indices m j : j ∈ kept indices m <-> (j ∉ indices) /\ 0 <= j < m.
Proof. unfold kept. rewrite list_elem_of_filter, elem_of_seqZ. naive_solver lia. Qed.

Lemma NoDup_kept indices m : NoDup (kept indices m).
Proof. apply NoDup_filter, NoDup_seqZ. Qed.

Lemma kept_length_le indices m : 0 <= m -> 0 <= Zlength (kept indices m) <= m.
Proof.
  intros Hm. unfold Zlength, kept.
  pose proof (length_filter (fun j => j ∉ indices) (seqZ 0 m)) as Hle.
  rewrite length_seqZ in Hle. lia.
Qed.

Lemma emit_length tasks n m cells :
  regular tasks n m -> (forall c, c ∈ cells -> in_grid n m c) ->
  length (emit tasks cells) = length cells.
Proof.
  intros Hreg. induction cells as [|c cells IH]; intros Hin; [done|].
  destruct (task_at_regular tasks n m c.1 c.2 Hreg) as [t Ht].
  { destruct c. apply Hin. set_solver. }
  change (c :: cells) with ([c] ++ cells). rewrite emit_app, (emit_cell _ _ t Ht). cbn.
  f_equal. apply IH. set_solver.
Qed.

(** The position of a task in the sequence is that of its cell. *)
Lemma emit_lookup tasks n m cells i :
  regular tasks n m -> (forall c, c ∈ cells -> in_grid n m c) ->
  emit tasks cells !! i = cells !! i ≫= task_opt tasks.
Proof.
  intros Hreg. revert i. induction cells as [|c cells IH]; intros i Hin; [done|].
  destruct (task_at_regular tasks n m c.1 c.2 Hreg) as [t Ht].
  { destruct c. apply Hin. set_solver. }
  change (c :: cells) with ([c] ++ cells). rewrite emit_app, (emit_cell _ _ t Ht).
  destruct i as [|i]; cbn; [unfold task_opt; by rewrite Ht|]. apply IH. set_solver.
Qed.

Lemma kept_in_grid n m indices i c :
  0 <= i < n -> c ∈ (pair i <$> kept indices m) -> in_grid n m c.
Proof.
  intros Hi (j & -> & Hj)%list_elem_of_fmap. apply elem_of_kept in Hj. split; cbn; lia.
Qed.

Lemma remaining_regular tasks n m indices :
  regular tasks n m ->
  regular (remaining_tasks tasks n m indices) n (Zlength (kept indices m)).
Proof.
  intros Hreg. split.
  - unfold remaining_tasks, Zlength. rewrite length_fmap, length_seqZ.
    destruct Hreg as [<- _]. unfold Zlength. lia.
  - apply Forall_forall. intros row (i & -> & Hi%elem_of_seqZ)%list_elem_of_fmap.
    unfold Zlength. rewrite (emit_length tasks n m); [by rewrite length_fmap|done|].
    intros c. apply kept_in_grid. lia.
Qed.

Lemma concat_remaining tasks n m indices :
  concat (remaining_tasks tasks n m indices) = emit tasks (kept_cells n m indices).
Proof.
  unfold remaining_tasks, kept_cells. rewrite emit_bind.
  induction (seqZ 0 n) as [|i l IH]; [done|]. rewrite bind_cons. cbn. by f_equal.
Qed.

(** The unrolled tasks and the remaining tasks are all the tasks. *)
Lemma unroll_partition tasks n m indices :
  regular tasks n m -> (forall j, j ∈ indices -> 0 <= j < m) ->
  emit tasks (unrolled_cells n indices) ++ concat (remaining_tasks tasks n m indices)
    ≡ₚ concat tasks.
Proof.
  intros Hreg Hidx. rewrite concat_remaining, <- emit_app.
  assert (forall c, c ∈ unrolled_cells n indices <-> c.2 ∈ indices /\ 0 <= c.1 < n) as Hun.
  { intros [i j]. unfold unrolled_cells. rewrite elem_of_bind_list. cbn.
    setoid_rewrite hash_order_perm. setoid_rewrite elem_of_elements. split.
    - intros (j' & (i' & [= -> ->] & Hi%elem_of_seqZ)%list_elem_of_fmap & Hj).
      split; [done|lia].
    - intros [Hj Hi]. exists j. split; [|done]. apply list_elem_of_fmap. exists i.
      split; [done|]. apply elem_of_seqZ. lia. }
  assert (forall c, c ∈ kept_cells n m indices <->
            (c.2 ∉ indices) /\ 0 <= c.2 < m /\ 0 <= c.1 < n) as Hkept.
  { intros [i j]. unfold kept_cells. rewrite elem_of_bind_list. cbn. split.
    - intros (i' & (j' & [= -> ->] & Hj%elem_of_kept)%list_elem_of_fmap & Hi%elem_of_seqZ).
      split_and!; (done || lia || naive_solver lia).
    - intros (Hj & Hjm & Hi). exists i. rewrite elem_of_seqZ. split; [|lia].
      apply list_elem_of_fmap. exists j. by rewrite elem_of_kept. }
  apply (emit_complete tasks n m); [done| |].
  - apply NoDup_app. split_and!.
    + apply NoDup_bind; [| |rewrite hash_order_perm; apply NoDup_elements].
      * by intros j1 j2 c _ _ (? & -> & _)%list_elem_of_fmap (? & [= _ ->] & _)%list_elem_of_fmap.
      * intros j _. apply NoDup_fmap_2; [by intros ?? [=]|apply NoDup_seqZ].
    + intros c Hc1%Hun Hc2%Hkept. naive_solver.
    + apply NoDup_bind; [| |apply NoDup_seqZ].
      * by intros i1 i2 c _ _ (? & -> & _)%list_elem_of_fmap (? & [= -> _] & _)%list_elem_of_fmap.
      * intros i _. apply NoDup_fmap_2; [by intros ?? [=]|apply NoDup_kept].
  - intros c. rewrite elem_of_app, Hun, Hkept. unfold in_grid.
    destruct (decide (c.2 ∈ indices)) as [Hj|]; [pose proof (Hidx _ Hj)|]; naive_solver lia.
Qed.
End remaining.

(** ** The schedules that [ScheduleLoops] selects *)
Section complete.
Context {I St D : Type} `{!AttrStore I St}.
Context `{Countable D, !DeviceListApi D} `{HO : !HashOrder}.
Context (partition : HloPartition D) (s : St).
Implicit Types (tasks : list (list I)) (cfg : LoopConfig).

Definition is_increment (t : I) : Prop :=
  exists c, Color s t = Some c /\ IsLoopIncrementColor partition c = true.

Lemma GetIndicesToUnroll_spec tasks row0 :
  vec_at tasks 0 = OK row0 -> colored partition s row0 ->
  exists indices, GetIndicesToUnroll partition s tasks = OK indices /\
    forall j, j ∈ indices <->
      0 <= j < Zlength row0 /\ exists t, vec_at row0 j = OK t /\ is_increment t.
Proof.
  intros Hrow0 Hcol. unfold GetIndicesToUnroll. rewrite Hrow0. cbn [mbind Result_bind].
  set (f := fun (indices : gset Z) task_index => _).
  destruct (foldM_total (fun done (indices : gset Z) => forall j, j ∈ indices <->
      j ∈ done /\ exists t, vec_at row0 j = OK t /\ is_increment t)
    f ∅ (seqZ 0 (Zlength row0))) as (indices & Hrun & Hinv).
  - set_solver.
  - intros done j rest st Hl Hst. unfold f.
    assert (0 <= j < Zlength row0) as Hj.
    { assert (j ∈ seqZ 0 (Zlength row0)) as Hj%elem_of_seqZ by (rewrite Hl; set_solver). lia. }
    destruct (vec_at_is_OK row0 j Hj) as [t Ht]. rewrite Ht. cbn [mbind Result_bind].
    assert (exists c d, Color s t = Some c /\ DevicesForColor partition c = OK d)
      as (c & d & Hc & _).
    { apply (proj1 (Forall_forall _ _) Hcol). apply vec_at_lookup in Ht as [_ Ht].
      by eapply list_elem_of_lookup_2. }
    unfold color_deref. rewrite Hc. cbn [of_option mbind Result_bind].
    eexists. split; [done|]. intros j'. rewrite elem_of_app, list_elem_of_singleton.
    destruct (IsLoopIncrementColor partition c) eqn:E.
    + rewrite elem_of_union, elem_of_singleton, Hst. split; [|naive_solver].
      intros [->|]; [|naive_solver]. split; [by right|]. exists t. split; [done|by exists c].
    + rewrite Hst. split; [naive_solver|]. intros [[Hd| ->] (t' & Ht' & Hinc)].
      * split; [done|by exists t'].
      * exfalso. rewrite Ht in Ht'. injection Ht' as <-. destruct Hinc as (c' & Hc' & Hi).
        congruence.
  - exists indices. split; [done|]. intros j. rewrite Hinv, elem_of_seqZ.
    split; intros [? ?]; (split; [lia|done]).
Qed.

(** The stages whose task of the first microbatch is not a loop increment. *)
Definition pipeline_row (indices : gset Z) (row0 : list I) : list I :=
  omap (fun j => ok_opt (vec_at row0 j)) (kept indices (Zlength row0)).

Lemma remaining_row0 tasks row0 n m indices :
  vec_at tasks 0 = OK row0 -> Zlength row0 = m -> 0 < n ->
  vec_at (remaining_tasks tasks n m indices) 0 = OK (pipeline_row indices row0).
Proof.
  intros Hrow0 Hm Hn. apply vec_at_lookup. split; [done|]. unfold remaining_tasks.
  rewrite list_lookup_fmap, lookup_seqZ_lt by lia. cbn. f_equal.
  unfold pipeline_row, emit. rewrite omap_fmap_list, Hm.
  apply list_omap_ext, Forall_Forall2_diag, Forall_forall. intros j _.
  unfold task_opt, task_at. cbn [fst snd].
  change (0 + Z.of_nat (Z.to_nat 0)) with 0. by rewrite Hrow0.
Qed.

Lemma colored_pipeline_row indices row0 :
  colored partition s row0 -> colored partition s (pipeline_row indices row0).
Proof.
  unfold colored. rewrite !Forall_forall. intros Hcol t (j & Hj & Ht)%list_elem_of_omap.
  apply Hcol. destruct (vec_at row0 j) eqn:E; [|done..]. cbn in Ht. simplify_eq.
  apply vec_at_lookup in E as [_ E]. by eapply list_elem_of_lookup_2.
Qed.

(** What the code assumes of its input: a rectangular array with one row per
    iteration, colored by registered colors, with sizes that fit an [int]. *)
Record schedulable tasks cfg (n m : Z) : Prop := {
  sch_regular : regular tasks n m;
  sch_range : int_range n m;
  sch_iterations : num_iterations cfg = n;
  sch_colored : forall row0, vec_at tasks 0 = OK row0 -> colored partition s row0;
}.

Lemma schedulable_row0 tasks cfg n m :
  schedulable tasks cfg n m -> exists row0, vec_at tasks 0 = OK row0 /\ Zlength row0 = m.
Proof.
  intros [[Hn Hrows] [? _] _ _]. destruct (vec_at_is_OK tasks 0) as [row0 Hr]; [lia|].
  exists row0. split; [done|]. apply (proj1 (Forall_forall _ _) Hrows).
  apply vec_at_lookup in Hr as [_ Hr]. by eapply list_elem_of_lookup_2.
Qed.

(** The wavefront schedule of a loop: the loop increments first, then the cells
    of the remaining stages, by wavefront. *)
Lemma SchedulePrefetchWavefront_unrolled_cells tasks cfg n m indices :
  schedulable tasks cfg n m -> (forall j, j ∈ indices -> 0 <= j < m) ->
  exists row0 groups npt,
    vec_at tasks 0 = OK row0 /\
    unique_groups partition s (pipeline_row indices row0) = OK (groups, npt) /\
    let sz := num_groups_of groups in
    let delay := wavefront_delay cfg npt in
    let k := Zlength (kept indices m) in
    let rest := remaining_tasks tasks n m indices in
    1 <= sz /\ regular rest n k /\
    (0 < delay ->
     SchedulePrefetchWavefront_unrolled partition s cfg indices tasks =
       OK [emit tasks (unrolled_cells n indices) ++
           emit rest (wavefront_cells delay sz n k (k + num_minibatches_of n sz * delay))]).
Proof.
  intros Hsch Hidx. destruct (schedulable_row0 _ _ _ _ Hsch) as (row0 & Hrow0 & Hm).
  destruct Hsch as [Hreg Hrange Hit Hcol]. pose proof Hrange as [Hn Hmr].
  pose proof (remaining_regular tasks n m indices Hreg) as Hrest.
  pose proof (kept_length_le indices m ltac:(lia)) as Hk.
  pose proof (remaining_row0 tasks row0 n m indices Hrow0 Hm ltac:(lia)) as Hrow0'.
  destruct (ScheduleWavefront_loops_cells partition s (remaining_tasks tasks n m indices)
    n (Zlength (kept indices m)) cfg (emit tasks (unrolled_cells n indices)))
    as (row0' & groups & npt & Hr & Hgroups & Hsz & Hrun).
  - done.
  - split; lia.
  - done.
  - intros r Hr. rewrite Hrow0' in Hr. injection Hr as <-. by apply colored_pipeline_row, Hcol.
  - rewrite Hrow0' in Hr. injection Hr as <-. exists row0, groups, npt.
    split; [done|]. split; [done|]. cbv zeta. split; [lia|]. split; [done|]. intros Hdelay.
    unfold SchedulePrefetchWavefront_unrolled.
    rewrite (UnrollLoopIncrementTasks_spec tasks n m) by done. cbn [mbind Result_bind fst snd].
    by apply Hrun.
Qed.

(** ** Breadth-first schedules *)

Definition stage_major (n m : Z) : list (Z * Z) :=
  seqZ 0 m ≫= fun stage => (fun mb => (mb, stage)) <$> seqZ 0 n.

Lemma elem_of_stage_major n m c : c ∈ stage_major n m <-> in_grid n m c.
Proof.
  destruct c as [mb st]. unfold stage_major, in_grid. rewrite elem_of_bind_list. cbn. split.
  - intros (st' & (mb' & [= -> ->] & Hmb%elem_of_seqZ)%list_elem_of_fmap & Hst%elem_of_seqZ).
    lia.
  - intros [? ?]. exists st. rewrite elem_of_seqZ. split; [|lia].
    apply list_elem_of_fmap. exists mb. rewrite elem_of_seqZ. split; [done|lia].
Qed.

Lemma NoDup_stage_major n m : NoDup (stage_major n m).
Proof.
  apply NoDup_bind; [| |apply NoDup_seqZ].
  - by intros s1 s2 c _ _ (? & -> & _)%list_elem_of_fmap (? & [= _ ->] & _)%list_elem_of_fmap.
  - intros st _. apply NoDup_fmap_2; [by intros ?? [=]|apply NoDup_seqZ].
Qed.

Lemma stage_major_lookup n m mb stage :
  in_grid n m (mb, stage) ->
  stage_major n m !! Z.to_nat (stage * n + mb) = Some (mb, stage).
Proof.
  unfold stage_major, in_grid. cbn. intros [Hmb Hst].
  assert (forall (k : nat) base st, 0 <= st < Z.of_nat k ->
    (seqZ base (Z.of_nat k) ≫= fun stage => (fun mb => (mb, stage)) <$> seqZ 0 n)
      !! Z.to_nat (st * n + mb) = Some (mb, base + st)) as Hgen.
  { induction k as [|k IH]; intros base st Hk; [lia|].
    rewrite (seqZ_cons base) by lia. rewrite bind_cons.
    destruct (decide (st = 0)) as [->|Hne].
    - rewrite lookup_app_l by (rewrite length_fmap, length_seqZ; lia).
      rewrite list_lookup_fmap, lookup_seqZ_lt by lia. cbn. do 2 f_equal; lia.
    - rewrite lookup_app_r by (rewrite length_fmap, length_seqZ; nia).
      rewrite length_fmap, length_seqZ.
      replace (Z.to_nat (st * n + mb) - Z.to_nat n)%nat
        with (Z.to_nat ((st - 1) * n + mb)) by nia.
      replace (Z.pred (Z.of_nat (S k))) with (Z.of_nat k) by lia.
      rewrite IH by lia. do 2 f_equal. lia. }
  rewrite <- (Z2Nat.id m) by lia. rewrite Hgen by lia. by rewrite Z.add_0_l.
Qed.

Lemma ScheduleGpipe_cells tasks cfg n m :
  regular tasks n m -> 0 < n -> num_iterations cfg = n ->
  ScheduleGpipe cfg tasks = OK [emit tasks (stage_major n m)].
Proof.
  intros Hreg Hn Hit. pose proof Hreg as [Hlen Hrows].
  destruct (vec_at_is_OK tasks 0) as [row0 Hrow0]; [lia|].
  assert (Zlength row0 = m) as Hm.
  { apply (proj1 (Forall_forall _ _) Hrows).
    apply vec_at_lookup in Hrow0 as [_ Hr]. by eapply list_elem_of_lookup_2. }
  unfold ScheduleGpipe. rewrite Hrow0. cbn [mbind Result_bind]. rewrite Hm, Hit.
  rewrite (foldM_push_single _ (fun st => emit tasks ((fun mb => (mb, st)) <$> seqZ 0 n))).
  - unfold stage_major. by rewrite emit_bind.
  - intros acc st Hst%elem_of_seqZ.
    rewrite (foldM_push_single _ (fun mb => emit tasks [(mb, st)])).
    + by rewrite <- emit_bind, bind_singleton.
    + intros acc' mb Hmb%elem_of_seqZ.
      destruct (task_at_regular tasks n m mb st Hreg) as [t Ht]; [split; cbn; lia|].
      by rewrite Ht, (emit_cell _ (mb, st) t).
Qed.

(** ** The selected schedule *)

Definition is_wavefront (sched : Schedule) : Prop :=
  sched = k1F1B \/ sched = kWavefront \/ sched = kPrefetchWavefront.

(** The quantities the wavefront schedule of a loop works with: the stages
    unrolled in front, the minibatch size and the delay between minibatches. *)
Definition wavefront_plan tasks cfg (indices : gset Z) (sz delay : Z) : Prop :=
  GetIndicesToUnroll partition s tasks = OK indices /\
  exists row0 groups npt, vec_at tasks 0 = OK row0 /\
    unique_groups partition s (pipeline_row indices row0) = OK (groups, npt) /\
    sz = num_groups_of groups /\ delay = wavefront_delay cfg npt.
End complete.
