(* ===== verification/PipelineSchedules.v ===== *)
(** * Properties of the schedules of a microbatch loop

    The theorems about [ScheduleLoops]: which tasks each schedule runs, in which
    order, and what it needs for that. *)
From S2P Require Import Prelude Hlo Json Instruction Partition LoopConfig LoopScheduler LoopSchedulerFacts.
Local Open Scope Z_scope.

Section wavefront_schedules.
Context {I C St D : Type} `{EqDecision I, !Countable I} `{!Hlo I C} `{!AttrStore I St}.
Context `{Countable D, !DeviceListApi D} `{HO : !HashOrder, HP : !HeapOrder}.
Context (partition : HloPartition D) (s : St).
Implicit Types (tasks : list (list I)) (cfg : LoopConfig) (indices : gset Z).

Lemma ScheduleWavefront_dispatch tasks cfg n m indices :
  schedulable partition s tasks cfg n m -> 1 < m ->
  GetIndicesToUnroll partition s tasks = OK indices ->
  ScheduleWavefront partition s cfg tasks =
    SchedulePrefetchWavefront_unrolled partition s cfg indices tasks.
Proof.
  intros Hsch Hm Hidx. destruct (schedulable_row0 _ _ _ _ _ _ Hsch) as (row0 & Hrow0 & Hlen).
  unfold ScheduleWavefront, Zlength in *.
  destruct tasks as [|[|t row] tasks']; [done|..];
    apply vec_at_lookup in Hrow0 as [_ [= <-]]; cbn in Hlen; [lia|].
  rewrite bool_decide_eq_false_2 by (cbn; lia). by rewrite Hidx.
Qed.

Lemma SchedulePrefetchWavefront_dispatch tasks cfg n m indices :
  schedulable partition s tasks cfg n m -> 1 < m ->
  GetIndicesToUnroll partition s tasks = OK indices ->
  SchedulePrefetchWavefront partition s cfg tasks =
    SchedulePrefetchWavefront_unrolled partition s cfg indices tasks.
Proof.
  intros Hsch Hm Hidx. destruct (schedulable_row0 _ _ _ _ _ _ Hsch) as (row0 & Hrow0 & Hlen).
  pose proof (ScheduleWavefront_dispatch _ _ _ _ _ Hsch Hm Hidx) as Hw.
  unfold SchedulePrefetchWavefront, Zlength in *.
  destruct tasks as [|[|t row] tasks']; [done|..];
    apply vec_at_lookup in Hrow0 as [_ [= <-]]; cbn in Hlen; [lia|].
  rewrite bool_decide_eq_false_2 by (cbn; lia). rewrite Hidx. cbn [mbind Result_bind].
  by case_bool_decide.
Qed.

Lemma ScheduleLoops_wavefront tasks cfg n m indices :
  schedulable partition s tasks cfg n m -> 1 < m -> is_wavefront (schedule cfg) ->
  GetIndicesToUnroll partition s tasks = OK indices ->
  ScheduleLoops partition s cfg tasks =
    SchedulePrefetchWavefront_unrolled partition s cfg indices tasks.
Proof.
  intros Hsch Hm Hw Hidx. unfold ScheduleLoops. destruct Hw as [-> | [-> | ->]];
    eauto using ScheduleWavefront_dispatch, SchedulePrefetchWavefront_dispatch.
Qed.

(** The wavefront schedule as an explicit list of cells of the remaining stages. *)
Lemma wavefront_plan_cells tasks cfg n m indices sz delay :
  schedulable partition s tasks cfg n m -> 1 < m -> is_wavefront (schedule cfg) ->
  wavefront_plan partition s tasks cfg indices sz delay -> 0 < delay ->
  let k := Zlength (kept indices m) in
  let rest := remaining_tasks tasks n m indices in
  0 < sz /\ (forall j, j ∈ indices -> 0 <= j < m) /\ regular rest n k /\
  ScheduleLoops partition s cfg tasks =
    OK [emit tasks (unrolled_cells n indices) ++
        emit rest (wavefront_cells delay sz n k (k + num_minibatches_of n sz * delay))].
Proof.
  intros Hsch Hm Hw [Hidx (row0 & groups & npt & Hrow0 & Hgroups & -> & ->)] Hdelay.
  assert (forall j, j ∈ indices -> 0 <= j < m) as Hbound.
  { destruct (schedulable_row0 _ _ _ _ _ _ Hsch) as (r & Hr & Hlen).
    destruct (GetIndicesToUnroll_spec partition s tasks r Hr
                (sch_colored _ _ _ _ _ _ Hsch r Hr)) as (indices' & Hidx' & Hspec).
    rewrite Hidx in Hidx'. injection Hidx' as <-. intros j [Hj _]%Hspec. lia. }
  destruct (SchedulePrefetchWavefront_unrolled_cells partition s tasks cfg n m indices Hsch Hbound)
    as (r & groups' & npt' & Hr & Hgroups' & Hsz & Hrest & Hrun).
  rewrite Hrow0 in Hr. injection Hr as <-. rewrite Hgroups in Hgroups'.
  injection Hgroups' as <- <-.
  cbv zeta. split; [lia|]. split; [done|]. split; [done|].
  rewrite (ScheduleLoops_wavefront _ _ _ _ _ Hsch Hm Hw Hidx). by apply Hrun.
Qed.

Lemma wavefront_cells_grid delay sz n k c :
  0 < delay -> 0 < sz -> 0 < n ->
  c ∈ wavefront_cells delay sz n k (k + num_minibatches_of n sz * delay) <->
  in_grid n k c /\ c.1 mod sz < delay.
Proof.
  intros Hdelay Hsz Hn. rewrite elem_of_wavefront_cells by done. unfold in_grid.
  destruct (num_minibatches_cover n sz Hsz Hn) as (Hcover & _ & _). split; [tauto|].
  intros [[Hmb Hst] Hmod].
  pose proof (tick_of_bound delay sz n Hdelay Hsz c.1 _ Hmb Hcover Hmod). lia.
Qed.

(** For every loop the quantities of the plan are defined. *)
Lemma wavefront_plan_exists tasks cfg n m :
  schedulable partition s tasks cfg n m ->
  exists indices sz delay, wavefront_plan partition s tasks cfg indices sz delay.
Proof.
  intros Hsch. destruct (schedulable_row0 _ _ _ _ _ _ Hsch) as (row0 & Hrow0 & Hlen).
  pose proof (sch_colored _ _ _ _ _ _ Hsch row0 Hrow0) as Hcol.
  destruct (GetIndicesToUnroll_spec partition s tasks row0 Hrow0 Hcol) as (indices & Hidx & _).
  destruct (unique_groups_OK partition s (pipeline_row indices row0))
    as (groups & npt & Hgroups & _); [by apply colored_pipeline_row|].
  exists indices, (num_groups_of groups), (wavefront_delay cfg npt). split; [done|]. eauto 10.
Qed.



(** The breadth-first schedule runs every task exactly once, stage by stage,
    and within a stage microbatch by microbatch. *)
Theorem fill_drain_schedule_complete tasks cfg n m :
  regular tasks n m -> 0 < n -> num_iterations cfg = n -> schedule cfg = kFillDrain ->
  exists out, ScheduleLoops partition s cfg tasks = OK [out] /\ out ≡ₚ concat tasks /\
    forall mb stage, in_grid n m (mb, stage) ->
      exists t, task_at tasks mb stage = OK t /\
                out !! Z.to_nat (stage * n + mb) = Some t.
Proof.
  intros Hreg Hn Hit Hs. unfold ScheduleLoops. rewrite Hs.
  rewrite (ScheduleGpipe_cells tasks cfg n m) by done. eexists. split; [done|]. split.
  { apply (emit_complete _ n m); [done|apply NoDup_stage_major|apply elem_of_stage_major]. }
  intros mb stage Hc.
  destruct (task_at_regular tasks n m mb stage Hreg Hc) as [t Ht]. exists t. split; [done|].
  rewrite (emit_lookup _ n m); [|done|by intros c ?%elem_of_stage_major].
  rewrite stage_major_lookup by done. cbn. unfold task_opt. cbn [fst snd]. by rewrite Ht.
Qed.
End wavefront_schedules.

(** ** Concrete pipelines

    Tasks are numbered; two submeshes carry the colors "a" and "b". *)
Module Pipeline.
#[export] Instance hlo0 : Hlo nat nat := Graph.hlo [] [].
#[export] Instance order0 : HashOrder := insertion_order.
#[export] Instance heap0 : HeapOrder := merge_heap.

Definition cfg_of (sched : Schedule) (n : Z) : LoopConfig :=
  Build_LoopConfig n 0 1 0 0 None sched None None None None.

Definition partition : HloPartition Slice.t :=
  (AllocateColor_named
    (AllocateColor_named (Create (Slice.mk 0 8)) "a" (Slice.mk 0 4) default_TaskOptions).2
    "b" (Slice.mk 4 4) default_TaskOptions).2.

(** Colors every task of an array by the color of its stage. *)
Definition color_rows (colors : list string) (tasks : list (list nat)) : AttrMap.t :=
  foldr (fun row st => foldr (fun e st => AssignColor e.1 e.2 st) st (zip row colors))
    ∅ tasks.

(** Two microbatches of a forward-only pipeline, and of a forward-backward one. *)
Definition forward : list (list nat) := [[0; 1]; [2; 3]]%nat.
Definition forward_st : AttrMap.t := color_rows ["a"; "b"] forward.
Definition training : list (list nat) := [[0; 1; 2; 3]; [4; 5; 6; 7]]%nat.
Definition training_st : AttrMap.t := color_rows ["a"; "b"; "b"; "a"] training.

Lemma training_schedulable sched :
  schedulable partition training_st training (cfg_of sched 2) 2 4.
Proof.
  split; [split; [done|by repeat constructor]|done|done|].
  intros row0 [= <-]. repeat constructor; by eexists _, _.
Qed.

Lemma forward_schedulable sched :
  schedulable partition forward_st forward (cfg_of sched 2) 2 2.
Proof.
  split; [split; [done|by repeat constructor]|done|done|].
  intros row0 [= <-]. repeat constructor; by eexists _, _.
Qed.

Lemma training_plan sched :
  wavefront_plan partition training_st training (cfg_of sched 2) ∅ 2 2.
Proof. split; [by vm_compute|]. by eexists _, _, _. Qed.

Lemma forward_plan sched :
  wavefront_plan partition forward_st forward (cfg_of sched 2) ∅ 2 1.
Proof. split; [by vm_compute|]. by eexists _, _, _. Qed.



Lemma fill_drain_schedule_complete_witness :
  exists out, ScheduleLoops partition training_st (cfg_of kFillDrain 2) training = OK [out] /\
    out ≡ₚ concat training /\
    forall mb stage, in_grid 2 4 (mb, stage) ->
      exists t, task_at training mb stage = OK t /\
                out !! Z.to_nat (stage * 2 + mb) = Some t.
Proof.
  apply (fill_drain_schedule_complete partition training_st training (cfg_of kFillDrain 2) 2 4).
  - apply (sch_regular _ _ _ _ _ _ (training_schedulable kFillDrain)).
  - lia.
  - done.
  - done.
Defined.

(** With the default number of stages, a forward pipeline of two tasks on two
    submeshes has a delay of one and a minibatch of two: the schedule is
    returned without an error and without the tasks of the second microbatch. *)
Theorem wavefront_drops_microbatch :
  ScheduleLoops partition forward_st (cfg_of k1F1B 2) forward = OK [[0; 1]%nat] /\
  concat forward = [0; 1; 2; 3]%nat.
Proof. by vm_compute. Qed.
End Pipeline.
