(* ===== verification/Sharding.v ===== *)
(** * Shardings (mm_sharding.h, mm_sharding.cc)

    An XLA sharding assigns the devices of a mesh to the tiles of a tensor.  The
    classes of XLA and of the Zuku runtime are parameters ([HloShardingApi]);
    [OpSharding] is the message from which XLA builds a sharding, with the fields
    the code writes.  64-bit arithmetic is written on [Z]; the [int] variables of
    the index computations keep their width. *)
From S2P Require Import Prelude Hlo.
Local Open Scope Z_scope.

(** ** Messages and shapes *)

Inductive OpShardingType := REPLICATED | MAXIMAL | TUPLE | OTHER | MANUAL.
#[export] Instance OpShardingType_eq_dec : EqDecision OpShardingType.
Proof. solve_decision. Defined.

Record OpSharding := MkOpSharding {
  os_type : OpShardingType;
  os_tile_assignment_dimensions : list Z;
  os_tile_assignment_devices : list Z;
  os_iota_reshape_dims : list Z;
  os_iota_transpose_perm : list Z;
  os_iota_offset : Z;
  os_replicate_on_last_tile_dim : bool;
}.

(** [IotaTileAssignment] as read through its accessors. *)
Record Iota := MkIota {
  reshape_dims : list Z;
  transpose_perm : list Z;
  iota_offset : Z;
  iota_num_elements : Z;
}.

Inductive PrimitiveType :=
  | PRED | F16 | BF16 | F32 | F64 | S8 | S16 | S32 | S64 | U8 | U16 | U32 | U64
  | C64 | C128 | OtherType (n : nat).

Record Shape := MkShape { element_type : PrimitiveType; dimensions : list Z }.

(** [zuku::SupportedType], [zuku::ShardingDim] and [zuku::ShardedShape]. *)
Inductive SupportedType :=
  | Z_PRED | Z_F16 | Z_BF16 | Z_F32 | Z_F64 | Z_S8 | Z_S16 | Z_S32 | Z_S64
  | Z_U8 | Z_U16 | Z_U32 | Z_U64 | Z_C64 | Z_C128.

Record ShardingDim := MkDim { sd_size : Z; sd_sharding : Z; sd_permutation : Z }.

Record ShardedShape (D : Type) := MkSharded {
  ss_type : SupportedType;
  ss_dims : list ShardingDim;
  ss_devices : D;
}.
Arguments MkSharded {_} _ _ _.
Arguments ss_type {_} _. Arguments ss_dims {_} _. Arguments ss_devices {_} _.

(** ** [xla::HloSharding] and its tile assignment *)
Class HloShardingApi (HS : Type) := {
  IsReplicated : HS -> bool;
  IsTileMaximal : HS -> bool;
  IsManual : HS -> bool;
  IsTuple : HS -> bool;
  tuple_elements : HS -> list HS;
  ReplicateOnLastTileDim : HS -> bool;
  ta_dimensions : HS -> list Z;
  ta_num_elements : HS -> Z;
  ta_first : HS -> Z;
  ta_array : HS -> list Z;
  ta_iota : HS -> option Iota;
  FromProto : OpSharding -> Result HS;
  ToProto : HS -> OpSharding;
  FromProto_tuple : list OpSharding -> Result HS;   (* a message of type TUPLE *)
  Replicate : HS;
  Manual : HS;
  AssignDevice : Z -> HS;
  IotaTile : list Z -> HS;
  IotaTileAssignment_Create : list Z -> list Z -> list Z -> Z -> Iota;
  sharding_eqb : HS -> HS -> bool;
  default_ShardingDim : ShardingDim;
}.

(** ** Index arithmetic (mm_sharding.h) *)

(** The stride of the outermost dimension. *)
Definition index_stride (dims : list Z) : Z :=
  foldl (fun dim_stride d => to_int32 (dim_stride * d)) 1 dims.

Fixpoint ComputeIndexSet_loop (dims : list Z) (remainder dim_stride : Z) : Result (list Z) :=
  match dims with
  | [] => OK []
  | d :: dims =>
      q ← cdiv dim_stride d;
      let dim_stride := to_int32 q in
      index ← cdiv remainder dim_stride;
      let remainder := to_int32 (remainder - index * dim_stride) in
      rest ← ComputeIndexSet_loop dims remainder dim_stride;
      OK (index :: rest)
  end.

Definition ComputeIndexSet (global_index : Z) (dims : list Z) : Result (list Z) :=
  ComputeIndexSet_loop dims (to_int32 global_index) (index_stride dims).

(** The body of the loop from the innermost dimension outwards. *)
Definition global_index_step (indices dims : list Z) (st : Z * Z) (dim : Z) : Result (Z * Z) :=
  let '(stride, index) := st in
  i ← vec_at indices dim;
  d ← vec_at dims dim;
  OK (to_int32 (stride * d), to_int32 (index + stride * i)).

Definition ComputeGlobalIndex (indices dims : list Z) : Result Z :=
  r ← foldM (global_index_step indices dims) (1, 0) (reverse (seqZ 0 (Zlength indices)));
  OK r.2.

Section sharding.
Context {HS D : Type} `{HloShardingApi HS} `{EqDecision D} `{DeviceListApi D}.
Implicit Types (sharding : HS) (devices : D).

(** [ta.dim(i)] *)
Definition ta_dim sharding (i : Z) : Result Z := vec_at (ta_dimensions sharding) i.
Definition ta_num_dimensions sharding : Z := Zlength (ta_dimensions sharding).

(** ** Replication *)

(** Whether the tile dimensions before the last one are all of size 1. *)
Definition IsReplicatedOnAssignedSubmesh sharding : bool :=
  if IsReplicated sharding then true
  else if ReplicateOnLastTileDim sharding then
    forallb (fun d => bool_decide (d = 1))
      (take (length (ta_dimensions sharding) - 1) (ta_dimensions sharding))
  else false.

Definition IsReplicatedOrSubmeshReplicate sharding : bool :=
  IsReplicated sharding || IsReplicatedOnAssignedSubmesh sharding || IsTileMaximal sharding.

Definition MeshEquivalentSharding (lhs rhs : HS) : bool :=
  if IsReplicatedOrSubmeshReplicate lhs then IsReplicatedOrSubmeshReplicate rhs
  else if IsReplicatedOrSubmeshReplicate rhs then false
  else bool_decide (ta_dimensions lhs = ta_dimensions rhs).

Definition GetDevices sharding (default_devices : D) : D :=
  if IsReplicated sharding then default_devices
  else dl_create (ta_first sharding) (ta_num_elements sharding).

(** ** Resizing *)

(** Whether a transpose permutation moves a dimension. *)
Definition is_permuted (perm : list Z) : bool :=
  negb (bool_decide (perm = seqZ 0 (Zlength perm))).

Record ResizeState := MkResize { rs_guess : list Z; rs_matched : bool; rs_replicate : bool }.

(** The body of the loop over the tile dimensions. *)
Definition ResizeSharding_dim (shape : Shape) sharding (src_size dst_size : Z)
    (st : ResizeState) (dim : Z) : Result ResizeState :=
  let last_dim := ta_num_dimensions sharding - 1 in
  let add (d : Z) (matched : bool) :=
    let guess := rs_guess st ++ [d] in
    if bool_decide (dim = last_dim) && ReplicateOnLastTileDim sharding then
      g ← vec_at guess dim;
      OK (MkResize guess matched (rs_replicate st || bool_decide (g > 1)))
    else OK (MkResize guess matched (rs_replicate st)) in
  old_dim_size ← ta_dim sharding dim;
  new_dim_size ← cdiv (old_dim_size * dst_size) src_size;
  shape_dim ← vec_at (dimensions shape) dim;
  if negb (rs_matched st) && bool_decide (old_dim_size > 1) &&
     bool_decide (new_dim_size > 0) && bool_decide (new_dim_size <= shape_dim)
  then
    if bool_decide (src_size > dst_size) then
      r ← cmod src_size dst_size;
      if bool_decide (r <> 0) then OK st else add new_dim_size true
    else if bool_decide (src_size < dst_size) then
      r ← cmod dst_size src_size;
      if bool_decide (r <> 0) then OK st else add new_dim_size true
    else add new_dim_size true
  else add old_dim_size (rs_matched st).

Definition resize_proto sharding (num_elements : Z) (devices : option D) (st : ResizeState)
    : OpSharding :=
  if bool_decide (is_Some (ta_iota sharding)) || bool_decide (devices = None) then
    MkOpSharding OTHER (rs_guess st) [] [num_elements] [0]
      (match devices with Some d => dl_start d | None => 0 end) (rs_replicate st)
  else
    MkOpSharding OTHER (rs_guess st)
      (match devices with Some d => dl_at d <$> seqZ 0 (dl_size d) | None => [] end)
      [] [] 0 (rs_replicate st).

Definition ResizeSharding (shape : Shape) sharding (num_elements : Z) (devices : option D)
    : Result (option HS) :=
  if (match ta_iota sharding with Some iota => is_permuted (transpose_perm iota) | None => false end)
  then OK None
  else
    st ← foldM (ResizeSharding_dim shape sharding (ta_num_elements sharding) num_elements)
           (MkResize [] false false) (seqZ 0 (ta_num_dimensions sharding));
    if rs_matched st then
      match FromProto (resize_proto sharding num_elements devices st) with
      | OK new_sharding => OK (Some new_sharding)
      | Err _ _ => OK None
      | Fatal k => Fatal k
      end
    else OK None.

(** ** From logical axes to devices *)

(** [device_axes_used], with the flag [fully_replicated]. *)
Definition mark_axes (logical_to_device_axes : list (list Z)) (dims : list Z)
    : Result (list Z * bool) :=
  foldM (fun st axes =>
      foldM (fun '(used, fully_replicated) dim =>
          used ← vec_set used dim 1;
          d ← vec_at dims dim;
          OK (used, if bool_decide (d > 1) then false else fully_replicated))
        st axes)
    (replicate (length dims) 0, true) logical_to_device_axes.

(** The unused device axes in order, and the product of their sizes. *)
Definition replicated_axes (used dims : list Z) : Result (list Z * Z) :=
  foldM (fun '(axes, size) dim =>
      u ← vec_at used dim;
      d ← vec_at dims dim;
      OK (if bool_decide (u = 0) then (axes ++ [dim], size * d) else (axes, size)))
    ([], 1) (seqZ 0 (Zlength dims)).

Definition mesh_size (dims : list Z) : Z := foldl Z.mul 1 dims.

(** The tile dimension of one logical axis: the product of its device axes. *)
Definition tile_dim (dims assigned_device_axes : list Z) : Result Z :=
  foldM (fun tile_dim device_ax => d ← vec_at dims device_ax; OK (tile_dim * d))
    1 assigned_device_axes.

Definition LogicalToPhysicalSharding (logical_to_device_axes : list (list Z)) devices
    (dims : list Z) (list_all_devices : bool) : Result OpSharding :=
  marked ← mark_axes logical_to_device_axes dims;
  let '(used, fully_replicated) := marked in
  if bool_decide (logical_to_device_axes = []) || (fully_replicated && negb list_all_devices)
  then OK (MkOpSharding REPLICATED [] [] [] [] 0 false)
  else
    replicated ← replicated_axes used dims;
    let '(replicated_device_axes, replication_size) := replicated in
    let sorted := merge_sort Z.le <$> logical_to_device_axes in
    tile_dims ← foldM (fun tile_dims axes => d ← tile_dim dims axes; OK (tile_dims ++ [d]))
                  [] sorted;
    let dim_permutation := concat sorted ++ replicated_device_axes in
    let tile_dims := if bool_decide (replicated_device_axes <> [])
                     then tile_dims ++ [replication_size] else tile_dims in
    let need_permutation :=
      negb (bool_decide (take (length dims) dim_permutation = seqZ 0 (Zlength dims))) in
    OK (MkOpSharding OTHER tile_dims []
          (if need_permutation then dims else [mesh_size dims])
          (if need_permutation then dim_permutation else [0])
          (dl_at devices 0)
          (bool_decide (replicated_device_axes <> []))).

Definition LogicalToPhysicalSharding_slice (logical_to_device_axes : list (list Z))
    (slice : Z * Z) (dims : list Z) (list_all_devices : bool) : Result OpSharding :=
  LogicalToPhysicalSharding logical_to_device_axes (dl_create slice.1 slice.2 : D)
    dims list_all_devices.

(** ** Ungrouping the iota dimensions *)

(** Distributes the tile dimensions from [ta_dim] on over the iota dimensions;
    the groups are those finished and the one at the back.  With [reject_split]
    an iota dimension inside a tile dimension is an error. *)
Fixpoint ungroup (reject_split : bool) (num_iota : Z) (span : Z -> Result Z)
    (ta_dims : list Z) (ta_dim iota_dim spanned_dimension : Z)
    (done : list (list Z)) (back : list Z) : Result (list (list Z)) :=
  match ta_dims with
  | [] => OK (done ++ [back])
  | d :: ta_dims =>
      if bool_decide (iota_dim < num_iota) then
        let spanned_dimension := spanned_dimension * d in
        iota_group_span ← span iota_dim;
        if reject_split && bool_decide (iota_group_span < d) then
          Err kInvalidArgument "multiple iota dims within a single tensor dimension"
        else
          let back := back ++ [ta_dim] in
          if bool_decide (spanned_dimension >= iota_group_span) then
            if bool_decide (iota_dim + 1 < num_iota) then
              ungroup reject_split num_iota span ta_dims (ta_dim + 1) (iota_dim + 1) 1
                (done ++ [back]) []
            else
              ungroup reject_split num_iota span ta_dims (ta_dim + 1) (iota_dim + 1) 1 done back
          else
            ungroup reject_split num_iota span ta_dims (ta_dim + 1) iota_dim
              spanned_dimension done back
      else
        ungroup reject_split num_iota span ta_dims (ta_dim + 1) iota_dim spanned_dimension
          done (back ++ [ta_dim])
  end.

(** [permuted_groups[permuted_dim++] = dimension_groups[src_dim]]; with [moves]
    the source group is left empty. *)
Definition permute_groups (moves : bool) (perm : list Z) (groups : list (list Z))
    : Result (list (list Z)) :=
  r ← foldM (fun '(permuted, permuted_dim, groups) src_dim =>
        g ← vec_at groups src_dim;
        permuted ← vec_set permuted permuted_dim g;
        groups ← (if moves : bool then vec_set groups src_dim [] else OK groups);
        OK (permuted, permuted_dim + 1, groups))
      (replicate (length groups) [], 0, groups) perm;
  OK (r.1.1).

(** ** Canonicalization *)

Definition permuted_reshape_dims (iota : Iota) : Result (list Z) :=
  if bool_decide (transpose_perm iota = []) then OK (reshape_dims iota)
  else
    foldM (fun acc idx =>
        p ← vec_at (transpose_perm iota) idx;
        d ← vec_at (reshape_dims iota) p;
        vec_set acc idx d)
      (replicate (length (reshape_dims iota)) 0) (seqZ 0 (Zlength (transpose_perm iota))).

Definition zuku_type (t : PrimitiveType) : Result SupportedType :=
  match t with
  | PRED => OK Z_PRED | F16 => OK Z_F16 | BF16 => OK Z_BF16 | F32 => OK Z_F32
  | F64 => OK Z_F64 | S8 => OK Z_S8 | S16 => OK Z_S16 | S32 => OK Z_S32
  | S64 => OK Z_S64 | U8 => OK Z_U8 | U16 => OK Z_U16 | U32 => OK Z_U32
  | U64 => OK Z_U64 | C64 => OK Z_C64 | C128 => OK Z_C128
  | OtherType _ => Err kInternal "Unsupported type"
  end.

Definition num_shape_dims sharding : Z :=
  if ReplicateOnLastTileDim sharding then ta_num_dimensions sharding - 1
  else ta_num_dimensions sharding.

(** The entry of the [dim]-th dimension of the permutation. *)
Definition sharding_dim sharding (shape : Shape) (shape_is_global : bool)
    (full_permutation : list Z) (dims : list ShardingDim) (dim : Z)
    : Result (list ShardingDim) :=
  p ← vec_at full_permutation dim;
  extent ← ta_dim sharding p;
  size_sharding ←
    (if bool_decide (p = num_shape_dims sharding) then OK (1, extent)
     else dim_size ← vec_at (dimensions shape) p;
          OK (if shape_is_global then dim_size else dim_size * extent, extent));
  vec_set dims p (MkDim size_sharding.1 size_sharding.2 dim).

Definition CanonicalizeSharding_iota sharding (iota : Iota) (shape : Shape)
    (shape_is_global : bool) : Result (ShardedShape D) :=
  permuted ← permuted_reshape_dims iota;
  groups ← ungroup true (Zlength permuted) (vec_at permuted) (ta_dimensions sharding) 0 0 1 [] [];
  permuted_groups ← permute_groups true (transpose_perm iota) groups;
  let full_permutation := concat permuted_groups in
  dims ← foldM (sharding_dim sharding shape shape_is_global full_permutation)
           (replicate (length (ta_dimensions sharding)) default_ShardingDim)
           (seqZ 0 (Zlength full_permutation));
  type ← zuku_type (element_type shape);
  OK (MkSharded type dims (dl_create (iota_offset iota) (iota_num_elements iota))).

(** Whether the devices follow each other from the first one. *)
Fixpoint consecutive (prev : Z) (array : list Z) : bool :=
  match array with
  | [] => true
  | dev :: array => bool_decide (dev = prev + 1) && consecutive dev array
  end.

Definition CanonicalizeSharding sharding (shape : Shape) (shape_is_global : bool)
    : Result (ShardedShape D) :=
  match ta_iota sharding with
  | Some iota => CanonicalizeSharding_iota sharding iota shape shape_is_global
  | None =>
      if consecutive (ta_first sharding - 1) (ta_array sharding) then
        let iota := IotaTileAssignment_Create (ta_dimensions sharding)
                      [ta_num_elements sharding] [0] (ta_first sharding) in
        CanonicalizeSharding_iota sharding iota shape shape_is_global
      else Err kInvalidArgument "only supported for iota tile assignment"
  end.

(** ** Replicating dimensions *)

Definition current_permutation sharding (iota : Iota) : Result (list Z) :=
  if bool_decide (transpose_perm iota = []) then OK (seqZ 0 (ta_num_dimensions sharding))
  else
    groups ← ungroup false (Zlength (transpose_perm iota))
               (fun iota_dim => p ← vec_at (transpose_perm iota) iota_dim;
                                vec_at (reshape_dims iota) p)
               (ta_dimensions sharding) 0 0 1 [] [];
    permuted_groups ← permute_groups false (transpose_perm iota) groups;
    OK (concat permuted_groups).

(** The reshape dimensions: the tile dimensions in the order of the permutation
    and a dimension of size 1 for every replicated one. *)
Definition new_reshape_dims sharding (perm replicated_dims : list Z) : Result (list Z) :=
  r ← foldM (fun acc dim => d ← ta_dim sharding dim; OK (acc ++ [d])) [] perm;
  OK (r ++ ((fun _ => 1) <$> replicated_dims)).

(** Moves the replicated dimensions to the end. *)
Definition new_permutation (perm replicated_dims : list Z) : Result (list Z) :=
  r ← foldM (fun '(np, extra_dim) dim =>
        c ← vec_at perm dim;
        np ← vec_set (np ++ [c]) dim extra_dim;
        OK (np, extra_dim + 1))
      (perm, Zlength perm) replicated_dims;
  OK (r.1 : list Z).

Definition total_replication sharding (replicated_dims : list Z) : Result Z :=
  last ← (if ReplicateOnLastTileDim sharding then ta_dim sharding (num_shape_dims sharding)
          else OK 1);
  foldM (fun replication dim => d ← ta_dim sharding dim; OK (replication * d))
    last replicated_dims.

Definition ReplicateDims (replicated_dims : list Z) sharding : Result HS :=
  match ta_iota sharding with
  | None => Err kInvalidArgument "ReplicateDims only supported for iota tile assignment"
  | Some iota =>
      perm ← current_permutation sharding iota;
      reshape ← new_reshape_dims sharding perm replicated_dims;
      new_perm ← new_permutation perm replicated_dims;
      total ← total_replication sharding replicated_dims;
      if bool_decide (total = ta_num_elements sharding) then OK Replicate
      else
        dims ← (if ReplicateOnLastTileDim sharding
                then vec_set (ta_dimensions sharding) (num_shape_dims sharding) total
                else OK (ta_dimensions sharding ++ [total]));
        dims ← foldM (fun dims dim => vec_set dims dim 1) dims replicated_dims;
        FromProto (MkOpSharding OTHER dims [] reshape new_perm 0 true)
  end.

(** ** Conversion to the runtime's shapes *)

(** The dimensions of a shape that is replicated over the devices. *)
Definition replicated_dims_of (shape : Shape) devices : list ShardingDim :=
  let n := Zlength (dimensions shape) in
  ((fun '(i, d) => MkDim d 1 i) <$> zip (seqZ 0 n) (dimensions shape)) ++
  (if bool_decide (dl_size devices > 1) then [MkDim 1 (dl_size devices) n] else []).

Definition XlaShapeToZukuShape (shape : Shape) devices sharding (shape_is_global : bool)
    : Result (ShardedShape D) :=
  type ← zuku_type (element_type shape);
  if IsReplicated sharding || IsTileMaximal sharding then
    OK (MkSharded type (replicated_dims_of shape devices) devices)
  else
    sharded_shape ← CanonicalizeSharding sharding shape shape_is_global;
    if bool_decide (devices <> ss_devices sharded_shape) then
      if bool_decide (dl_size devices <> dl_size (ss_devices sharded_shape)) then
        Err kInvalidArgument "devices given to XlaShapeToZukuShape differs from sharding"
      else OK (MkSharded (ss_type sharded_shape) (ss_dims sharded_shape) devices)
    else OK sharded_shape.
End sharding.
