(* ===== verification/ShardingIndex.v ===== *)
(** * Row-major indices and iota tile assignments

    The reference definitions against which the index arithmetic of mm_sharding.h
    and the shardings of mm_sharding.cc are verified: the row-major position of a
    multi-index, its inverse, and the device of a tile of an iota assignment. *)
From S2P Require Import Prelude Sharding.
Local Open Scope Z_scope.

Fixpoint prod (dims : list Z) : Z :=
  match dims with [] => 1 | d :: dims => d * prod dims end.

Definition in_bounds (dims idx : list Z) : Prop := Forall2 (fun d i => 0 <= i < d) dims idx.

(** The row-major position of a multi-index. *)
Fixpoint lin (dims idx : list Z) : Z :=
  match dims, idx with
  | d :: dims, i :: idx => i * prod dims + lin dims idx
  | _, _ => 0
  end.

(** The multi-index of a row-major position. *)
Fixpoint unlin (dims : list Z) (g : Z) : list Z :=
  match dims with
  | [] => []
  | d :: dims => g / prod dims :: unlin dims (g mod prod dims)
  end.

Abbreviation positive dims := (Forall (fun d => 0 < d) dims).

Lemma prod_app l1 l2 : prod (l1 ++ l2) = prod l1 * prod l2.
Proof. induction l1 as [|d l1 IH]; cbn; [lia|]. rewrite IH. lia. Qed.

Lemma prod_pos dims : positive dims -> 0 < prod dims.
Proof. induction 1 as [|d l Hd _ IH]; cbn; [lia|]. lia. Qed.

Lemma prod_Permutation l1 l2 : l1 ≡ₚ l2 -> prod l1 = prod l2.
Proof. induction 1; cbn in *; try lia. Qed.

Lemma prod_concat (ls : list (list Z)) : prod (concat ls) = prod (prod <$> ls).
Proof. induction ls as [|l ls IH]; [done|]. cbn. rewrite prod_app, IH. done. Qed.

Lemma in_bounds_positive dims idx : in_bounds dims idx -> positive dims.
Proof. induction 1; constructor; [lia|done]. Qed.

Lemma in_bounds_app d1 d2 i1 i2 :
  in_bounds d1 i1 -> in_bounds d2 i2 -> in_bounds (d1 ++ d2) (i1 ++ i2).
Proof. apply Forall2_app. Qed.

Lemma lin_bound dims idx : in_bounds dims idx -> 0 <= lin dims idx < prod dims.
Proof.
  intros Hb. pose proof (in_bounds_positive _ _ Hb) as Hp.
  induction Hb as [|d i dims idx Hi Hb IH]; cbn; [lia|].
  apply Forall_cons in Hp as [_ Hp]. specialize (IH Hp). nia.
Qed.

Lemma lin_app d1 d2 i1 i2 :
  length d1 = length i1 -> lin (d1 ++ d2) (i1 ++ i2) = lin d1 i1 * prod d2 + lin d2 i2.
Proof.
  revert i1; induction d1 as [|d d1 IH]; intros [|i i1] Hl; try discriminate; cbn; [done|].
  rewrite IH by (by injection Hl). rewrite prod_app. lia.
Qed.

Lemma unlin_bounds dims g : positive dims -> 0 <= g < prod dims -> in_bounds dims (unlin dims g).
Proof.
  intros Hp; revert g; induction Hp as [|d dims Hd Hp IH]; intros g Hg; [constructor|].
  cbn in *. pose proof (prod_pos dims Hp).
  constructor; [|apply IH, Z.mod_pos_bound; lia].
  split; [apply Z.div_pos; lia|]. apply Z.div_lt_upper_bound; lia.
Qed.

Lemma lin_unlin dims g : positive dims -> 0 <= g < prod dims -> lin dims (unlin dims g) = g.
Proof.
  intros Hp; revert g; induction Hp as [|d dims Hd Hp IH]; intros g Hg; cbn in *; [lia|].
 pose proof (prod_pos dims Hp).
  rewrite IH by (apply Z.mod_pos_bound; lia).
  rewrite (Z.div_mod g (prod dims)) at 3 by lia. lia.
Qed.

Lemma unlin_lin dims idx : in_bounds dims idx -> unlin dims (lin dims idx) = idx.
Proof.
  induction 1 as [|d i dims idx Hi Hb IH]; [done|]. cbn.
  pose proof (lin_bound _ _ Hb).
  rewrite Z.add_comm, Z.div_add, Z.mod_add, Z.div_small, Z.mod_small by lia.
  by rewrite Z.add_0_l, IH.
Qed.

(** ** The index arithmetic of mm_sharding.h *)

Lemma foldl_mul_prod l acc : foldl Z.mul acc l = acc * prod l.
Proof.
  revert acc; induction l as [|d l IH]; intros acc; cbn; [lia|].
  rewrite IH. lia.
Qed.

Lemma index_stride_prod dims : positive dims -> prod dims < 2 ^ 31 -> index_stride dims = prod dims.
Proof.
  intros Hp Hlt.
  assert (forall acc, 0 < acc -> acc * prod dims < 2 ^ 31 ->
            foldl (fun s d => to_int32 (s * d)) acc dims = acc * prod dims) as Hgen.
  { clear Hlt. induction Hp as [|d dims Hd Hp IH]; intros acc Ha Hlt; cbn in *; [lia|].
    pose proof (prod_pos dims Hp). rewrite to_int32_id by nia. rewrite IH; nia. }
  unfold index_stride. rewrite Hgen; lia.
Qed.

Lemma ComputeIndexSet_loop_spec dims g :
  positive dims -> prod dims < 2 ^ 31 -> 0 <= g < prod dims ->
  ComputeIndexSet_loop dims g (prod dims) = OK (unlin dims g).
Proof.
  intros Hp; revert g; induction Hp as [|d dims Hd Hp IH]; intros g Hlt Hg; cbn in *; [done|].
 pose proof (prod_pos dims Hp).
  rewrite (cdiv_nonneg (d * prod dims)) by nia. cbn [mbind Result_bind].
  rewrite (Z.mul_comm d), Z.div_mul, to_int32_id by nia.
  rewrite cdiv_nonneg by lia. cbn [mbind Result_bind].
  replace (g - g / prod dims * prod dims) with (g mod prod dims)
    by (rewrite Z.mod_eq by lia; lia).
  pose proof (Z.mod_pos_bound g (prod dims)).
  assert (prod dims <= d * prod dims) by nia.
  rewrite to_int32_id by lia. by rewrite IH by lia.
Qed.

Lemma ComputeIndexSet_spec dims g :
  positive dims -> prod dims < 2 ^ 31 -> 0 <= g < prod dims ->
  ComputeIndexSet g dims = OK (unlin dims g).
Proof.
  intros. unfold ComputeIndexSet. rewrite index_stride_prod, to_int32_id by (done || lia).
  by apply ComputeIndexSet_loop_spec.
Qed.

Lemma reverse_seqZ_split n done x rest :
  reverse (seqZ 0 n) = done ++ x :: rest ->
  x = n - 1 - Zlength done /\ Zlength done < n.
Proof.
  intros Heq.
  assert (reverse (seqZ 0 n) !! length done = Some x) as Hx
    by (rewrite Heq; by apply list_lookup_middle).
  assert (length done < length (seqZ 0 n))%nat as Hlen.
  { apply (f_equal length) in Heq. rewrite length_reverse, length_app in Heq. cbn in Heq. lia. }
  rewrite reverse_lookup in Hx by done. rewrite length_seqZ in Hx, Hlen.
  apply lookup_seqZ in Hx as [-> Hr]. unfold Zlength. lia.
Qed.

Lemma drop_S_lookup {A} (l : list A) k x : l !! k = Some x -> drop k l = x :: drop (S k) l.
Proof. intros. by rewrite (drop_S l x k). Qed.

Lemma suffix_bound t p d i l :
  0 < t -> 0 < p -> 0 <= i < d -> 0 <= l < p ->
  0 <= i * p + l < t * (d * p) /\ 0 <= d * p <= t * (d * p).
Proof.
  intros. assert (i * p + l < d * p) by nia. assert (0 <= d * p <= t * (d * p)) by nia.
  split; [|done]. nia.
Qed.

Lemma ComputeGlobalIndex_spec dims idx :
  in_bounds dims idx -> prod dims < 2 ^ 31 -> ComputeGlobalIndex idx dims = OK (lin dims idx).
Proof.
  intros Hb Hlt. pose proof (Forall2_length _ _ _ Hb) as Hlen.
  pose proof (in_bounds_positive _ _ Hb) as Hp.
  unfold ComputeGlobalIndex.
  set (suffix (k : nat) (l : list Z) := drop (length idx - k) l).
  destruct (foldM_total
    (fun done st => st = (prod (suffix (length done) dims),
                          lin (suffix (length done) dims) (suffix (length done) idx)))
    (global_index_step idx dims)
    (1, 0) (reverse (seqZ 0 (Zlength idx)))) as (st & -> & ->).
  - unfold suffix. cbn. rewrite Nat.sub_0_r, drop_all.
    by rewrite <- Hlen, drop_all.
  - intros done x rest st Heq ->. apply reverse_seqZ_split in Heq as [-> Hdone].
    unfold Zlength in *. set (k := (length idx - S (length done))%nat).
    replace (Z.of_nat (length idx) - 1 - Z.of_nat (length done)) with (Z.of_nat k) by lia.
    destruct (lookup_lt_is_Some_2 idx k) as [i Hi]; [lia|].
    destruct (Forall2_lookup_r _ _ _ _ _ Hb Hi) as (d & Hd & Hid).
    unfold global_index_step.
    rewrite (proj2 (vec_at_nat idx k i) Hi). cbn [mbind Result_bind].
    rewrite (proj2 (vec_at_nat dims k d) Hd). cbn [mbind Result_bind].
    eexists. split; [done|]. unfold suffix. rewrite length_app. cbn [length].
    replace (length idx - (length done + 1))%nat with k by lia.
    replace (length idx - length done)%nat with (S k) by lia.
    rewrite (drop_S_lookup idx k i Hi), (drop_S_lookup dims k d Hd). cbn [lin].
    change (prod (d :: drop (S k) dims)) with (d * prod (drop (S k) dims)).
    assert (0 < prod (take k dims)) by (by apply prod_pos, Forall_take).
    assert (0 < prod (drop (S k) dims)) by (by apply prod_pos, Forall_drop).
    assert (prod dims = prod (take k dims) * (d * prod (drop (S k) dims))) as Hprod.
    { rewrite <- (take_drop k dims) at 1. rewrite prod_app.
      by rewrite (drop_S_lookup dims k d Hd). }
    assert (0 <= lin (drop (S k) dims) (drop (S k) idx) < prod (drop (S k) dims)).
    { apply lin_bound. by apply Forall2_drop. }
    destruct (suffix_bound (prod (take k dims)) (prod (drop (S k) dims)) d i
                (lin (drop (S k) dims) (drop (S k) idx))) as [? ?]; [done..|].
    rewrite !to_int32_id by lia. f_equal; lia.
  - cbn [mbind Result_bind snd]. rewrite length_reverse, length_seqZ.
    unfold suffix, Zlength. by rewrite Nat2Z.id, Nat.sub_diag, !drop_0.
Qed.

(** ** Grouping *)

(** Positions within consecutive groups of dimensions combine to the position in
    all of them. *)
Lemma lin_concat (ds js : list (list Z)) :
  Forall2 (fun d i => length d = length i) ds js ->
  lin (concat ds) (concat js) = lin (prod <$> ds) (zip_with lin ds js).
Proof.
  induction 1 as [|d i ds js Hlen _ IH]; [done|]. cbn.
  rewrite lin_app by done. rewrite IH, prod_concat. done.
Qed.

Lemma zip_lin_bounds (ds js : list (list Z)) :
  Forall2 in_bounds ds js -> in_bounds (prod <$> ds) (zip_with lin ds js).
Proof. induction 1; [constructor|]. constructor; [by apply lin_bound|done]. Qed.

(** ** The devices of an iota tile assignment

    The documented meaning of the message: the devices from the offset on, in
    row-major order over the reshape dimensions, are transposed by the permutation
    and read in row-major order over the tile dimensions. *)

(** [gather perm l]: the elements of [l] at the positions [perm]. *)
Definition gather (perm l : list Z) : list Z := (fun p => nth (Z.to_nat p) l 0) <$> perm.

Definition is_perm (perm : list Z) (n : Z) : Prop := perm ≡ₚ seqZ 0 n.

#[export] Instance is_perm_dec perm n : Decision (is_perm perm n).
Proof. unfold is_perm. apply _. Defined.

Class IotaTiles := {
  tile_device (tile_dims reshape perm : list Z) (offset : Z) (tile : list Z) : Z;
  tile_device_law : forall tile_dims reshape perm offset tile d,
    is_perm perm (Zlength reshape) -> in_bounds reshape d -> in_bounds tile_dims tile ->
    prod tile_dims = prod reshape ->
    lin tile_dims tile = lin (gather perm reshape) (gather perm d) ->
    tile_device tile_dims reshape perm offset tile = offset + lin reshape d;
}.

(** The device at a tile of the sharding described by a message. *)
Definition device_of `{tiles : IotaTiles} (os : OpSharding) (tile : list Z) : Z :=
  tile_device (os_tile_assignment_dimensions os) (os_iota_reshape_dims os)
    (os_iota_transpose_perm os) (os_iota_offset os) tile.

Lemma gather_app p1 p2 l : gather (p1 ++ p2) l = gather p1 l ++ gather p2 l.
Proof. apply fmap_app. Qed.

Lemma gather_concat ps l : gather (concat ps) l = concat ((fun p => gather p l) <$> ps).
Proof. induction ps as [|p ps IH]; [done|]. cbn [concat]. by rewrite gather_app, IH. Qed.

Lemma gather_seqZ l : gather (seqZ 0 (Zlength l)) l = l.
Proof.
  apply list_eq. intros i. unfold gather. rewrite list_lookup_fmap.
  destruct (decide (i < length l)%nat) as [Hi|Hi].
  - rewrite lookup_seqZ_lt by (unfold Zlength; lia).
    destruct (lookup_lt_is_Some_2 l i Hi) as [x Hx]. rewrite Hx, Z.add_0_l.
    cbn [fmap option_fmap option_map]. rewrite Nat2Z.id. f_equal. by apply nth_lookup_Some.
  - rewrite lookup_seqZ_ge by (unfold Zlength; lia). by rewrite lookup_ge_None_2 by lia.
Qed.

Lemma in_bounds_gather perm dims idx :
  in_bounds dims idx -> Forall (fun p => 0 <= p < Zlength dims) perm ->
  in_bounds (gather perm dims) (gather perm idx).
Proof.
  intros Hb. induction 1 as [|p perm Hp _ IH]; [constructor|]. constructor; [|exact IH].
  destruct (lookup_lt_is_Some_2 dims (Z.to_nat p)) as [d Hd]; [unfold Zlength in Hp; lia|].
  destruct (Forall2_lookup_l _ _ _ _ _ Hb Hd) as (i & Hi & Hdi).
  by rewrite (nth_lookup_Some _ _ _ _ Hd), (nth_lookup_Some _ _ _ _ Hi).
Qed.

Lemma gather_perm perm n l :
  is_perm perm n -> Zlength l = n -> gather perm l ≡ₚ l.
Proof.
  intros Hp <-. rewrite <- (gather_seqZ l) at 2. unfold gather. by rewrite Hp.
Qed.

(** A concrete assignment of the devices: invert the permutation. *)
Definition scatter (perm t : list Z) : list Z :=
  (fun k => nth (default 0%nat (fst <$> list_find (fun p => p = k) perm)) t 0)
    <$> seqZ 0 (Zlength perm).

Lemma scatter_gather perm n d :
  is_perm perm n -> Zlength d = n -> scatter perm (gather perm d) = d.
Proof.
  intros Hp Hd. unfold scatter.
  assert (Zlength perm = Zlength d) as Hlen.
  { unfold Zlength in *. apply Permutation_length in Hp. rewrite length_seqZ in Hp. lia. }
  rewrite Hlen. transitivity (gather (seqZ 0 (Zlength d)) d); [|apply gather_seqZ].
  unfold gather at 2. apply list_fmap_ext. intros i k Hk.
  destruct (list_find_elem_of (fun p => p = k) perm k) as [[j p] Hj]; [|done|].
  { rewrite Hp. rewrite <- Hd. by eapply list_elem_of_lookup_2. }
  rewrite Hj. cbn. apply list_find_Some in Hj as (Hj & -> & _).
  apply nth_lookup_Some. unfold gather. by rewrite list_lookup_fmap, Hj.
Qed.

Definition inverse_tiles : IotaTiles.
Proof.
  refine {| tile_device tile_dims reshape perm offset tile :=
    offset + lin reshape (scatter perm (unlin (gather perm reshape) (lin tile_dims tile))) |}.
  intros tile_dims reshape perm offset tile d Hperm Hd Ht Hprod Hlin.
  assert (Zlength d = Zlength reshape) as Hlen.
  { unfold Zlength. by rewrite (Forall2_length _ _ _ Hd). }
  assert (in_bounds (gather perm reshape) (gather perm d)) as Hb.
  { apply in_bounds_gather; [done|]. apply Forall_forall. intros p Hp.
    rewrite Hperm in Hp. apply elem_of_seqZ in Hp. lia. }
  rewrite Hlin, unlin_lin by done. by rewrite (scatter_gather _ (Zlength reshape)).
Defined.

(** ** A concrete class of shardings: the messages themselves *)
Module Tiles.
#[global] Instance tiles : IotaTiles := inverse_tiles.

Definition message_iota (os : OpSharding) : option Iota :=
  if bool_decide (os_iota_reshape_dims os = []) then None
  else Some (MkIota (os_iota_reshape_dims os) (os_iota_transpose_perm os) (os_iota_offset os)
               (prod (os_iota_reshape_dims os))).

Definition message_devices (os : OpSharding) : list Z :=
  if bool_decide (os_iota_reshape_dims os = []) then os_tile_assignment_devices os
  else (fun g => device_of os (unlin (os_tile_assignment_dimensions os) g))
         <$> seqZ 0 (prod (os_tile_assignment_dimensions os)).

Definition of_type (ty : OpShardingType) : OpSharding := MkOpSharding ty [] [] [] [] 0 false.

Definition iota_tile (dims : list Z) : OpSharding :=
  MkOpSharding OTHER dims [] [prod dims] [0] 0 false.

#[global] Instance api : HloShardingApi OpSharding := {
  IsReplicated os := bool_decide (os_type os = REPLICATED);
  IsTileMaximal os := bool_decide (os_type os = REPLICATED) || bool_decide (os_type os = MAXIMAL);
  IsManual os := bool_decide (os_type os = MANUAL);
  IsTuple os := bool_decide (os_type os = TUPLE);
  tuple_elements _ := [];
  ReplicateOnLastTileDim := os_replicate_on_last_tile_dim;
  ta_dimensions := os_tile_assignment_dimensions;
  ta_num_elements os := prod (os_tile_assignment_dimensions os);
  ta_first os := default 0 (head (message_devices os));
  ta_array := message_devices;
  ta_iota := message_iota;
  FromProto os :=
    if bool_decide (os_type os = REPLICATED) || bool_decide (prod (os_tile_assignment_dimensions os) = Zlength (message_devices os))
    then OK os else Err kInvalidArgument "the devices do not match the tile dimensions";
  ToProto os := os;
  FromProto_tuple _ := Err kUnimplemented "tuple";
  Replicate := of_type REPLICATED;
  Manual := of_type MANUAL;
  AssignDevice d := MkOpSharding MAXIMAL [1] [d] [] [] 0 false;
  IotaTile := iota_tile;
  IotaTileAssignment_Create dims reshape perm offset := MkIota reshape perm offset (prod reshape);
  sharding_eqb a b := bool_decide (os_tile_assignment_dimensions a = os_tile_assignment_dimensions b)
    && bool_decide (message_devices a = message_devices b);
  default_ShardingDim := MkDim 0 1 0;
}.
End Tiles.
