(* ===== verification/ShardingProperties.v ===== *)
(** * Properties of shardings

    The theorems about mm_sharding.h and mm_sharding.cc, against the reference
    definitions of ShardingIndex. *)
From S2P Require Import Prelude Hlo Sharding ShardingIndex.
Local Open Scope Z_scope.

(** C40: The two index computations are inverse to each other on meshes of less than
    2^31 elements: every position has a multi-index inside the dimensions that
    leads back to it, and every multi-index inside the dimensions has a position
    from which it is recovered. *)
Theorem index_roundtrip dims :
  positive dims -> prod dims < 2 ^ 31 ->
  (forall g, 0 <= g < prod dims ->
     exists idx, ComputeIndexSet g dims = OK idx /\ in_bounds dims idx /\
                 ComputeGlobalIndex idx dims = OK g) /\
  (forall idx, in_bounds dims idx ->
     exists g, ComputeGlobalIndex idx dims = OK g /\ 0 <= g < prod dims /\
               ComputeIndexSet g dims = OK idx).
Proof.
  intros Hp Hlt. split.
  - intros g Hg. exists (unlin dims g). pose proof (unlin_bounds dims g Hp Hg) as Hb.
    split; [by apply ComputeIndexSet_spec|]. split; [done|].
    by rewrite ComputeGlobalIndex_spec, lin_unlin.
  - intros idx Hb. exists (lin dims idx). pose proof (lin_bound _ _ Hb).
    split; [by apply ComputeGlobalIndex_spec|]. split; [done|].
    by rewrite ComputeIndexSet_spec, unlin_lin.
Qed.

Lemma index_roundtrip_witness :
  (forall g, 0 <= g < 24 ->
     exists idx, ComputeIndexSet g [1; 2; 3; 4] = OK idx /\ in_bounds [1; 2; 3; 4] idx /\
                 ComputeGlobalIndex idx [1; 2; 3; 4] = OK g) /\
  (forall idx, in_bounds [1; 2; 3; 4] idx ->
     exists g, ComputeGlobalIndex idx [1; 2; 3; 4] = OK g /\ 0 <= g < 24 /\
               ComputeIndexSet g [1; 2; 3; 4] = OK idx).
Proof. apply (index_roundtrip [1; 2; 3; 4]); [by repeat constructor|done]. Defined.

(** ** Logical axes *)
Section logical.
Context {D : Type} `{DeviceListApi D}.
Implicit Types (logical : list (list Z)) (dims : list Z) (devices : D).

(** Every logical axis names device axes, and no device axis is named twice. *)
Definition valid_axes logical (n : Z) : Prop :=
  NoDup (concat logical) /\ Forall (fun a => 0 <= a < n) (concat logical).

Definition unused_axes logical (n : Z) : list Z :=
  filter (fun a => a ∉ concat logical) (seqZ 0 n).

Definition sorted_axes logical : list (list Z) := merge_sort Z.le <$> logical.

(** The logical tile that holds the data of the device at a multi-index of the
    device mesh: along each logical axis the position within its device axes, and
    last the position within the axes over which the data is replicated. *)
Definition logical_tile logical dims (d : list Z) : list Z :=
  ((fun axes => lin (gather axes dims) (gather axes d)) <$> sorted_axes logical) ++
  (let unused := unused_axes logical (Zlength dims) in
   if bool_decide (unused <> []) then [lin (gather unused dims) (gather unused d)] else []).

Definition logical_tile_dims logical dims : list Z :=
  ((fun axes => prod (gather axes dims)) <$> sorted_axes logical) ++
  (let unused := unused_axes logical (Zlength dims) in
   if bool_decide (unused <> []) then [prod (gather unused dims)] else []).

Definition fully_replicated logical dims : bool :=
  forallb (fun a => bool_decide (nth (Z.to_nat a) dims 0 <= 1)) (concat logical).

(** The marks of the used axes. *)
Definition marks (axes : list Z) (n : Z) : list Z :=
  (fun a => if bool_decide (a ∈ axes) then 1 else 0) <$> seqZ 0 n.

Lemma Zlength_marks axes n : 0 <= n -> Zlength (marks axes n) = n.
Proof. intros. unfold Zlength, marks. rewrite length_fmap, length_seqZ. lia. Qed.


Lemma marks_snoc axes n a :
  0 <= a < n -> <[Z.to_nat a := 1]> (marks axes n) = marks (axes ++ [a]) n.
Proof.
  intros Ha. apply list_eq. intros i. unfold marks. rewrite list_lookup_fmap.
  destruct (decide (i < Z.to_nat n)%nat) as [Hi|Hi].
  - rewrite lookup_seqZ_lt by lia. cbn [fmap option_fmap option_map].
    destruct (decide (i = Z.to_nat a)) as [->|Hne].
    + rewrite list_lookup_insert_eq by (rewrite length_fmap, length_seqZ; lia).
      rewrite bool_decide_eq_true_2; [done|]. rewrite Z.add_0_l, Z2Nat.id by lia. set_solver.
    + rewrite list_lookup_insert_ne, list_lookup_fmap, lookup_seqZ_lt by lia.
      cbn [fmap option_fmap option_map].
      rewrite (bool_decide_ext (0 + Z.of_nat i ∈ axes ++ [a]) (0 + Z.of_nat i ∈ axes)); [done|].
      rewrite elem_of_app, list_elem_of_singleton. naive_solver lia.
  - rewrite lookup_seqZ_ge by lia.
    apply lookup_ge_None_2. rewrite length_insert, length_fmap, length_seqZ. lia.
Qed.

Lemma mark_axes_spec logical dims :
  Forall (fun a => 0 <= a < Zlength dims) (concat logical) ->
  mark_axes logical dims = OK (marks (concat logical) (Zlength dims), fully_replicated logical dims).
Proof.
  intros Hr. unfold mark_axes. rewrite foldM_concat. unfold fully_replicated.
  set (f := fun '(used, fr) dim => _).
  destruct (foldM_total (fun done st => st = (marks done (Zlength dims),
      forallb (fun a => bool_decide (nth (Z.to_nat a) dims 0 <= 1)) done))
      f (replicate (length dims) 0, true) (concat logical)) as (st & -> & ->); [| |done].
  - f_equal. unfold marks. apply list_eq. intros i. rewrite list_lookup_fmap.
    destruct (decide (i < length dims)%nat).
    + rewrite lookup_replicate_2, lookup_seqZ_lt by (unfold Zlength; lia). done.
    + rewrite lookup_seqZ_ge by (unfold Zlength; lia). apply lookup_replicate_None. lia.
  - intros done a rest st Heq ->. rewrite Heq in Hr.
    apply Forall_app in Hr as [_ Hr]. apply Forall_cons in Hr as [Ha _].
    unfold f. rewrite vec_set_OK by (by rewrite Zlength_marks).
    cbn [mbind Result_bind]. rewrite marks_snoc by done. rewrite vec_at_nth by done.
    cbn [mbind Result_bind]. eexists. split; [done|]. f_equal.
    rewrite forallb_app. cbn. rewrite andb_true_r.
    case_bool_decide; case_bool_decide; try lia; by rewrite ?andb_true_r, ?andb_false_r.
Qed.

Lemma replicated_axes_spec (axes dims : list Z) :
  replicated_axes (marks axes (Zlength dims)) dims =
  let unused := filter (fun a => a ∉ axes) (seqZ 0 (Zlength dims)) in
  OK (unused, prod (gather unused dims)).
Proof.
  unfold replicated_axes. set (f := fun '(a, s) dim => _).
  destruct (foldM_total (fun done st =>
      let unused := filter (fun a => a ∉ axes) done in st = (unused, prod (gather unused dims)))
      f ([], 1) (seqZ 0 (Zlength dims))) as (st & -> & ->); [done| |done].
  intros done a rest st Heq ->.
  assert (0 <= a < Zlength dims) as Ha.
  { assert (a ∈ seqZ 0 (Zlength dims)) as [? ?]%elem_of_seqZ by (rewrite Heq; set_solver). lia. }
  unfold f. rewrite (vec_at_nth (marks axes (Zlength dims)) a) by (by rewrite Zlength_marks).
  cbn [mbind Result_bind]. rewrite vec_at_nth by done. cbn [mbind Result_bind].
  eexists. split; [done|]. cbv zeta.
  assert (nth (Z.to_nat a) (marks axes (Zlength dims)) 0 = if bool_decide (a ∈ axes) then 1 else 0)
    as ->.
  { apply nth_lookup_Some. unfold marks. rewrite list_lookup_fmap, lookup_seqZ_lt by lia.
    cbn [fmap option_fmap option_map]. by rewrite Z.add_0_l, Z2Nat.id by lia. }
  rewrite filter_app, gather_app, prod_app, filter_cons, filter_nil.
  destruct (decide (a ∈ axes)) as [Hin|Hin].
  - rewrite (bool_decide_eq_true_2 (a ∈ axes)) by done.
    rewrite bool_decide_eq_false_2 by done. rewrite decide_False by tauto. by rewrite app_nil_r, Z.mul_1_r.
  - rewrite (bool_decide_eq_false_2 (a ∈ axes)) by done.
    rewrite bool_decide_eq_true_2 by done. rewrite decide_True by done. cbn. f_equal. lia.
Qed.

Lemma tile_dim_spec dims (axes : list Z) :
  Forall (fun a => 0 <= a < Zlength dims) axes ->
  tile_dim dims axes = OK (prod (gather axes dims)).
Proof.
  intros Hr. unfold tile_dim. set (f := fun tile_dim ax => _).
  destruct (foldM_total (fun done st => st = prod (gather done dims)) f 1 axes)
    as (st & -> & ->); [done| |done].
  intros done a rest st -> ->. apply Forall_app in Hr as [_ [Ha _]%Forall_cons].
  unfold f. rewrite vec_at_nth by done. cbn [mbind Result_bind]. eexists. split; [done|].
  rewrite gather_app, prod_app. cbn. lia.
Qed.

Lemma concat_sorted_axes logical : concat (sorted_axes logical) ≡ₚ concat logical.
Proof.
  induction logical as [|axes logical IH]; [done|]. cbn. apply Permutation_app; [|done].
  apply merge_sort_Permutation.
Qed.

Lemma axes_permutation logical n :
  valid_axes logical n -> is_perm (concat (sorted_axes logical) ++ unused_axes logical n) n.
Proof.
  intros [Hnd Hr]. unfold is_perm. rewrite concat_sorted_axes.
  rewrite Forall_forall in Hr. apply NoDup_Permutation.
  - apply NoDup_app. split; [done|]. split; [|apply NoDup_filter, NoDup_seqZ].
    intros a Ha (Hna & _)%list_elem_of_filter. done.
  - apply NoDup_seqZ.
  - intros a. unfold unused_axes. rewrite elem_of_app, list_elem_of_filter, elem_of_seqZ.
    specialize (Hr a). destruct (decide (a ∈ concat logical)); naive_solver lia.
Qed.

(** The groups of device axes of the logical tile dimensions. *)
Definition axis_groups logical dims : list (list Z) :=
  sorted_axes logical ++
  (let unused := unused_axes logical (Zlength dims) in
   if bool_decide (unused <> []) then [unused] else []).

Lemma concat_axis_groups logical dims :
  concat (axis_groups logical dims) =
  concat (sorted_axes logical) ++ unused_axes logical (Zlength dims).
Proof.
  unfold axis_groups. rewrite concat_app. cbv zeta. case_bool_decide as Hu; cbn.
  - by rewrite app_nil_r.
  - by rewrite Hu.
Qed.

Lemma logical_tile_groups logical dims d :
  logical_tile logical dims d =
  zip_with lin ((fun g => gather g dims) <$> axis_groups logical dims)
               ((fun g => gather g d) <$> axis_groups logical dims).
Proof.
  rewrite zip_with_fmap_r, zip_with_fmap_l, zip_with_diag.
  unfold logical_tile, axis_groups. rewrite fmap_app. cbv zeta. by case_bool_decide.
Qed.

Lemma logical_tile_dims_groups logical dims :
  logical_tile_dims logical dims = prod <$> ((fun g => gather g dims) <$> axis_groups logical dims).
Proof.
  rewrite <- list_fmap_compose. unfold logical_tile_dims, axis_groups.
  rewrite fmap_app. cbv zeta. by case_bool_decide.
Qed.

Lemma axis_groups_range logical n :
  valid_axes logical n -> Forall (Forall (fun a => 0 <= a < n)) (sorted_axes logical).
Proof.
  intros [_ Hr]. apply Forall_fmap. rewrite Forall_forall in Hr. apply Forall_forall.
  intros axes Haxes. cbn. apply Forall_forall. intros a Ha. apply Hr.
  rewrite merge_sort_Permutation in Ha. 
  apply list_elem_of_In, in_concat. exists axes. by rewrite <- !list_elem_of_In.
Qed.

Lemma logical_tile_lin logical dims d :
  in_bounds dims d -> valid_axes logical (Zlength dims) ->
  let perm := concat (sorted_axes logical) ++ unused_axes logical (Zlength dims) in
  in_bounds (logical_tile_dims logical dims) (logical_tile logical dims d) /\
  lin (logical_tile_dims logical dims) (logical_tile logical dims d) =
    lin (gather perm dims) (gather perm d) /\
  prod (logical_tile_dims logical dims) = prod dims.
Proof.
  intros Hb Hv perm. pose proof (axes_permutation _ _ Hv) as Hperm. fold perm in Hperm.
  assert (Forall (Forall (fun a => 0 <= a < Zlength dims)) (axis_groups logical dims)) as Hr.
  { unfold axis_groups. apply Forall_app. split; [by apply axis_groups_range|].
    cbv zeta. case_bool_decide; repeat constructor. apply Forall_forall.
    intros a (_ & Ha%elem_of_seqZ)%list_elem_of_filter. lia. }
  assert (Forall2 in_bounds ((fun g => gather g dims) <$> axis_groups logical dims)
            ((fun g => gather g d) <$> axis_groups logical dims)) as Hg.
  { induction Hr; [constructor|]. constructor; [by apply in_bounds_gather|done]. }
  rewrite logical_tile_dims_groups, logical_tile_groups. split_and!.
  - by apply zip_lin_bounds.
  - rewrite <- lin_concat.
    + by rewrite <- !gather_concat, concat_axis_groups.
    + eapply Forall2_impl; [exact Hg|]. intros ?? Hxy. by eapply Forall2_length.
  - rewrite <- prod_concat, <- gather_concat, concat_axis_groups.
    apply prod_Permutation. by apply (gather_perm _ (Zlength dims)).
Qed.

(** The message for axes that are not all replicated. *)
Definition logical_proto logical dims devices : OpSharding :=
  let unused := unused_axes logical (Zlength dims) in
  let perm := concat (sorted_axes logical) ++ unused in
  let need_permutation := negb (bool_decide (perm = seqZ 0 (Zlength dims))) in
  MkOpSharding OTHER (logical_tile_dims logical dims) []
    (if need_permutation then dims else [prod dims])
    (if need_permutation then perm else [0])
    (dl_at devices 0) (bool_decide (unused <> [])).

Lemma LogicalToPhysicalSharding_eq logical dims devices list_all :
  valid_axes logical (Zlength dims) ->
  LogicalToPhysicalSharding logical devices dims list_all =
    if bool_decide (logical = []) || (fully_replicated logical dims && negb list_all)
    then OK (MkOpSharding REPLICATED [] [] [] [] 0 false)
    else OK (logical_proto logical dims devices).
Proof.
  intros Hv. pose proof Hv as [Hnd Hr]. unfold LogicalToPhysicalSharding.
  rewrite mark_axes_spec by done. cbn [mbind Result_bind].
  case_match eqn:Hrep; [done|].
  rewrite replicated_axes_spec. cbn [mbind Result_bind].
  fold (sorted_axes logical). fold (unused_axes logical (Zlength dims)).
  rewrite (foldM_push _ (fun axes => [prod (gather axes dims)])).
  2:{ intros acc axes Haxes. pose proof (axis_groups_range _ _ Hv) as Hg.
      rewrite Forall_forall in Hg. by rewrite tile_dim_spec by auto. }
  cbn [mbind Result_bind app]. rewrite bind_singleton. unfold logical_proto.
  assert (take (length dims) (concat (sorted_axes logical) ++ unused_axes logical (Zlength dims))
          = concat (sorted_axes logical) ++ unused_axes logical (Zlength dims)) as ->.
  { apply take_ge. rewrite (Permutation_length (axes_permutation _ _ Hv)), length_seqZ.
    unfold Zlength. lia. }
  unfold mesh_size. rewrite foldl_mul_prod, Z.mul_1_l.
  unfold logical_tile_dims. cbv zeta.
  destruct (bool_decide (unused_axes logical (Zlength dims) <> [])); by rewrite ?app_nil_r.
Qed.

Context `{tiles : !IotaTiles}.

(** The device at a multi-index of the mesh holds the logical tile of the multi-index. *)
Lemma logical_proto_places logical dims devices d : valid_axes logical (Zlength dims) -> in_bounds dims d ->
  in_bounds (logical_tile_dims logical dims) (logical_tile logical dims d) /\
  device_of (logical_proto logical dims devices) (logical_tile logical dims d) = dl_at devices 0 + lin dims d.
Proof.
  intros Hv Hd. destruct (logical_tile_lin _ _ _ Hd Hv) as (Hb & Hlin & Hprod). split; [done|]. unfold device_of, logical_proto. cbn.
  destruct (bool_decide (_ = seqZ 0 (Zlength dims))) eqn:Hperm; cbn.
  - apply bool_decide_eq_true in Hperm. rewrite Hperm, gather_seqZ in Hlin.
    replace (Zlength dims) with (Zlength d) in Hlin by (unfold Zlength; by rewrite (Forall2_length _ _ _ Hd)).
    rewrite gather_seqZ in Hlin. rewrite (tile_device_law _ _ _ _ _ [lin dims d]); [..|done| |].
    + cbn. lia.
    + apply Permutation_refl.
    + constructor; [by apply lin_bound|constructor].
    + cbn. lia.
    + rewrite Hlin. change (gather [0] [lin dims d]) with [lin dims d]. cbn. lia.
  - apply tile_device_law; try done. by apply axes_permutation.
Qed.

(** C21: The sharding for a mapping of logical axes to device axes.  It is replicated
    exactly when there are no logical axes or no axis of more than one device is
    named (and the devices need not be listed).  Otherwise the device at each
    multi-index of the device mesh holds the tile whose index along each logical
    axis is its position within the device axes of that logical axis; the tile
    dimensions are the products of the sizes of those axes; the devices that
    differ only in unnamed axes are the replicas of the last tile dimension. *)
Theorem LogicalToPhysicalSharding_devices logical dims devices list_all :
  valid_axes logical (Zlength dims) -> positive dims ->
  exists os, LogicalToPhysicalSharding logical devices dims list_all = OK os /\
    (os_type os = REPLICATED <->
       logical = [] \/ (fully_replicated logical dims = true /\ list_all = false)) /\
    (os_type os <> REPLICATED ->
       os_tile_assignment_dimensions os = logical_tile_dims logical dims /\
       (os_replicate_on_last_tile_dim os = true <-> unused_axes logical (Zlength dims) <> []) /\
       forall d, in_bounds dims d ->
         in_bounds (os_tile_assignment_dimensions os) (logical_tile logical dims d) /\
         device_of os (logical_tile logical dims d) = dl_at devices 0 + lin dims d).
Proof.
  intros Hv Hpos. rewrite LogicalToPhysicalSharding_eq by done.
  destruct (bool_decide (logical = []) || _) eqn:Hrep; (eexists; split; [done|]).
  - split; [|done]. split; [|done]. intros _.
    apply orb_true_iff in Hrep as [Hl%bool_decide_eq_true|[??%negb_true_iff]%andb_true_iff]; auto.
  - apply orb_false_iff in Hrep as [Hl%bool_decide_eq_false Hrep].
    split; [split; [done|]|].
    { intros [?|[Hfr ->]]; [done|]. by rewrite Hfr in Hrep. }
    intros _. split; [done|]. split; [apply bool_decide_eq_true|]. intros d Hd. by apply logical_proto_places.
Qed.
End logical.

(** The example of mm_sharding.h: a mesh of 2 x 2 x 2 devices, the first logical
    axis over the device axes 0 and 2, the third over axis 1. *)
Lemma LogicalToPhysicalSharding_devices_witness :
  exists os, LogicalToPhysicalSharding [[0; 2]; []; [1]] (Slice.mk 8 8) [2; 2; 2] false = OK os /\
    (os_type os = REPLICATED <->
       [[0; 2]; []; [1]] = [] \/
       (fully_replicated [[0; 2]; []; [1]] [2; 2; 2] = true /\ false = false)) /\
    (os_type os <> REPLICATED ->
       os_tile_assignment_dimensions os = logical_tile_dims [[0; 2]; []; [1]] [2; 2; 2] /\
       (os_replicate_on_last_tile_dim os = true <->
          unused_axes [[0; 2]; []; [1]] (Zlength [2; 2; 2]) <> []) /\
       forall d, in_bounds [2; 2; 2] d ->
         in_bounds (os_tile_assignment_dimensions os) (logical_tile [[0; 2]; []; [1]] [2; 2; 2] d) /\
         device_of (tiles := inverse_tiles) os
           (logical_tile [[0; 2]; []; [1]] [2; 2; 2] d) =
         dl_at (Slice.mk 8 8) 0 + lin [2; 2; 2] d).
Proof.
  apply (LogicalToPhysicalSharding_devices (tiles := inverse_tiles) [[0; 2]; []; [1]]
           [2; 2; 2] (Slice.mk 8 8) false).
  - split; [apply (bool_decide_unpack _); by vm_compute|]. repeat constructor; by vm_compute.
  - by repeat constructor.
Defined.
