(* ===== verification/ShardingLayout.v ===== *)
(** * Canonical layouts of shardings

    The theorems about the functions of mm_sharding.cc that ungroup the dimensions
    of an iota tile assignment: canonicalization, the conversion to the runtime's
    shapes, and the replication of dimensions. *)
From S2P Require Import Prelude Hlo Sharding ShardingIndex.
Local Open Scope Z_scope.

(** ** Ungrouping *)

Lemma ungroup_concat reject n span ta_dims ta_dim iota_dim sp done back gs :
  ungroup reject n span ta_dims ta_dim iota_dim sp done back = OK gs ->
  concat gs = concat done ++ back ++ seqZ ta_dim (Zlength ta_dims).
Proof.
  revert ta_dim iota_dim sp done back.
  induction ta_dims as [|d ta_dims IH]; intros ta_dim iota_dim sp done back; cbn [ungroup].
  - intros [= <-]. rewrite concat_app. change (seqZ ta_dim (Zlength [])) with (@nil Z).
    cbn. by rewrite !app_nil_r.
  - assert (seqZ ta_dim (Zlength (d :: ta_dims)) = ta_dim :: seqZ (ta_dim + 1) (Zlength ta_dims))
      as Hseq.
    { rewrite (seqZ_cons ta_dim) by (unfold Zlength; cbn; lia). unfold Zlength. cbn [length].
      do 2 f_equal; lia. }
    rewrite Hseq. case_bool_decide.
    + intros (span_i & _ & Hrun)%Result_bind_OK. cbv zeta in Hrun.
      destruct (reject && _); [done|].
      case_bool_decide; [case_bool_decide|]; apply IH in Hrun; rewrite Hrun;
        rewrite ?concat_app; cbn; by rewrite ?app_nil_r, <- ?app_assoc.
    + intros Hrun%IH. rewrite Hrun. by rewrite <- app_assoc.
Qed.

Lemma ungroup_length reject n span ta_dims ta_dim iota_dim sp done back gs :
  0 < n -> Zlength done <= iota_dim -> Zlength done < n ->
  ungroup reject n span ta_dims ta_dim iota_dim sp done back = OK gs -> Zlength gs <= n.
Proof.
  intros Hn. revert ta_dim iota_dim sp done back.
  induction ta_dims as [|d ta_dims IH]; intros ta_dim iota_dim sp done back Hi Hd; cbn [ungroup].
  - intros [= <-]. unfold Zlength in *. rewrite length_app. cbn. lia.
  - case_bool_decide.
    + intros (span_i & _ & Hrun)%Result_bind_OK. cbv zeta in Hrun.
      destruct (reject && _); [done|].
      case_bool_decide; [case_bool_decide|]; apply IH in Hrun; try done;
        unfold Zlength in *; rewrite ?length_app; cbn [length]; lia.
    + by apply IH.
Qed.

Definition group_at (groups : list (list Z)) (p : Z) : list Z := nth (Z.to_nat p) groups [].

(** Permuting the groups reads them at the positions of the permutation; moving
    them does not matter because no position occurs twice. *)
Lemma permute_groups_spec moves perm groups :
  is_perm perm (Zlength groups) -> permute_groups moves perm groups = OK (group_at groups <$> perm).
Proof.
  intros Hperm. unfold permute_groups. set (f := fun '(permuted, permuted_dim, groups) src => _).
  assert (Zlength perm = Zlength groups) as Hlen.
  { unfold Zlength. rewrite (Permutation_length Hperm), length_seqZ. unfold Zlength. lia. }
  assert (NoDup perm) as Hnd by (rewrite Hperm; apply NoDup_seqZ).
  destruct (foldM_total (fun done '(permuted, k, gs) =>
      permuted = (group_at groups <$> done) ++ replicate (length groups - length done) [] /\
      k = Zlength done /\ length gs = length groups /\
      forall p, 0 <= p -> p ∉ done -> group_at gs p = group_at groups p)
    f (replicate (length groups) [], 0, groups) perm) as ([[permuted k] gs] & -> & -> & _).
  - cbn. by rewrite Nat.sub_0_r.
  - intros done p rest [[permuted k] gs] Heq (-> & -> & Hgs & Hkeep). rewrite Heq in Hnd.
    assert (0 <= p < Zlength groups) as Hp.
    { assert (p ∈ perm) as Hin by (rewrite Heq; set_solver).
      rewrite Hperm in Hin. apply elem_of_seqZ in Hin. lia. }
    assert (length perm = length done + S (length rest))%nat as Hl
      by (rewrite Heq, length_app; done).
    apply NoDup_app in Hnd as (_ & Hnot & _).
    assert (p ∉ done) as Hpd by (intros Hp'; apply (Hnot p Hp'); set_solver).
    unfold f. unfold Zlength in *.
    destruct (vec_at_is_OK gs p) as [g Hg]; [unfold Zlength; lia|]. rewrite Hg.
    assert (g = group_at groups p) as ->.
    { rewrite <- (Hkeep p (proj1 Hp) Hpd). apply vec_at_lookup in Hg as [_ Hg]. symmetry.
      by apply nth_lookup_Some. }
    cbn [mbind Result_bind].
    rewrite (vec_set_OK (_ ++ _)) by (unfold Zlength; rewrite length_app, length_fmap, length_replicate; lia).
    cbn [mbind Result_bind]. rewrite Nat2Z.id.
    assert (<[length done := group_at groups p]>
        ((group_at groups <$> done) ++ replicate (length groups - length done) []) =
      (group_at groups <$> (done ++ [p])) ++ replicate (length groups - length (done ++ [p])) [])
      as ->.
    { rewrite length_app, fmap_app, <- app_assoc. cbn [length fmap list_fmap app].
      replace (length groups - length done)%nat
        with (S (length groups - (length done + 1)))%nat by lia.
      cbn [replicate]. rewrite insert_app_r_alt by (rewrite length_fmap; lia).
      rewrite length_fmap, Nat.sub_diag. done. }
    assert (Z.of_nat (length done) + 1 = Z.of_nat (length (done ++ [p]))) as ->
      by (rewrite length_app; cbn; lia).
    destruct moves; cbn [mbind Result_bind].
    + rewrite vec_set_OK by (unfold Zlength; lia). cbn [mbind Result_bind].
      eexists. split; [done|]. cbn. split; [done|]. split; [done|].
      split; [by rewrite length_insert|]. intros q Hq0 Hq.
      apply not_elem_of_app in Hq as [Hq Hqp]. rewrite <- (Hkeep q) by done. unfold group_at.
      rewrite !nth_lookup, list_lookup_insert_ne; [done|]. set_solver by lia.
    + eexists. split; [done|]. cbn. split_and!; try done. intros q Hq0 Hq. apply Hkeep; set_solver.
  - unfold Zlength in Hlen. rewrite (inj Z.of_nat _ _ Hlen), Nat.sub_diag. cbn.
    by rewrite app_nil_r.
Qed.

Lemma group_at_all groups : group_at groups <$> seqZ 0 (Zlength groups) = groups.
Proof.
  apply list_eq. intros i. rewrite list_lookup_fmap.
  destruct (decide (i < length groups)%nat) as [Hi|Hi].
  - rewrite lookup_seqZ_lt by (unfold Zlength; lia).
    destruct (lookup_lt_is_Some_2 groups i Hi) as [x Hx]. rewrite Hx, Z.add_0_l.
    cbn [fmap option_fmap option_map]. unfold group_at. rewrite Nat2Z.id. f_equal.
    by apply nth_lookup_Some.
  - rewrite lookup_seqZ_ge by (unfold Zlength; lia). by rewrite lookup_ge_None_2 by lia.
Qed.

Lemma concat_Permutation {A} (l1 l2 : list (list A)) : l1 ≡ₚ l2 -> concat l1 ≡ₚ concat l2.
Proof.
  induction 1; cbn; [done|by apply Permutation_app_head| |by etrans].
  rewrite !app_assoc. apply Permutation_app_tail, Permutation_app_comm.
Qed.

(** The permutation built from the groups is one of the tile dimensions. *)
Lemma ungrouped_permutation reject moves n span ta_dims perm gs pgs :
  ungroup reject n span ta_dims 0 0 1 [] [] = OK gs ->
  is_perm perm n -> 0 < n ->
  permute_groups moves perm gs = OK pgs -> is_perm (concat pgs) (Zlength ta_dims).
Proof.
  intros Hgs Hperm Hn Hpgs.
  assert (Zlength gs = n) as Hlen.
  { apply Z.le_antisymm; [by eapply ungroup_length; [..|exact Hgs]; try done; unfold Zlength; cbn; lia|].
    apply ungroup_concat in Hgs. apply Z.nlt_ge. intros Hlt.
    unfold permute_groups in Hpgs. apply Result_bind_OK in Hpgs as ([[pm k] gs'] & Hrun & _).
    assert (n - 1 ∈ perm) as Hin by (rewrite Hperm; apply elem_of_seqZ; lia).
    apply (foldM_inv (fun done '(_, _, gs') => length gs' = length gs /\
             (forall p, p ∈ done -> p < Zlength gs))) in Hrun.
    - destruct Hrun as [_ Hall]. specialize (Hall _ Hin). lia.
    - split; [done|set_solver].
    - intros done x rest [[? ?] g1] [[? ?] g2] _ [Hg1 Hd] Hstep.
      repeat match type of Hstep with
      | _ ≫= _ = OK _ => apply Result_bind_OK in Hstep as (? & ? & Hstep)
      end. simplify_eq.
      assert (x < Zlength gs) as Hx.
      { unfold Zlength. rewrite <- Hg1. match goal with H : vec_at g1 x = OK _ |- _ =>
          apply vec_at_lookup in H as [? ?%lookup_lt_Some] end. lia. }
      split.
      + destruct moves; [|naive_solver]. unfold vec_set in *.
        repeat case_bool_decide; simplify_eq; by rewrite length_insert.
      + intros p [?|?%list_elem_of_singleton]%elem_of_app; [by apply Hd|by subst]. }
  rewrite <- Hlen in Hperm. rewrite permute_groups_spec in Hpgs by done.
  injection Hpgs as <-. unfold is_perm in *.
  rewrite (concat_Permutation _ (group_at gs <$> seqZ 0 (Zlength gs))) by (by rewrite Hperm).
  rewrite group_at_all. apply ungroup_concat in Hgs. by rewrite Hgs.
Qed.

Lemma permuted_reshape_dims_length iota l :
  permuted_reshape_dims iota = OK l -> length l = length (reshape_dims iota).
Proof.
  unfold permuted_reshape_dims. case_bool_decide; [by intros [= <-]|]. intros Hrun.
  apply (foldM_inv (fun _ acc => length acc = length (reshape_dims iota))) in Hrun; [done| |].
  - by rewrite length_replicate.
  - intros done x rest st st' _ Hst Hstep.
    repeat match type of Hstep with
    | _ ≫= _ = OK _ => apply Result_bind_OK in Hstep as (? & ? & Hstep)
    end.
    unfold vec_set in Hstep. case_bool_decide; simplify_eq. by rewrite length_insert.
Qed.

Section layout.
Context {HS D : Type} `{HloShardingApi HS} `{EqDecision D} `{DeviceListApi D}.
Implicit Types (sharding : HS) (shape : Shape) (devices : D).

(** XLA's invariant: the permutation is one of the (at least one) reshape dimensions. *)
Definition iota_ok (iota : Iota) : Prop :=
  is_perm (transpose_perm iota) (Zlength (reshape_dims iota)) /\ reshape_dims iota <> [].

(** What the entry of tile dimension [k] of a canonical sharding says. *)
Definition dim_entry sharding shape (global : bool) (k : nat) (sd : ShardingDim) : Prop :=
  ta_dimensions sharding !! k = Some (sd_sharding sd) /\
  if bool_decide (Z.of_nat k = num_shape_dims sharding) then sd_size sd = 1
  else exists s, dimensions shape !! k = Some s /\
         sd_size sd = if global then s else s * sd_sharding sd.

Lemma sharding_dim_OK sharding shape global full dims dim dims' :
  sharding_dim sharding shape global full dims dim = OK dims' ->
  exists (k : nat) sd, full !! Z.to_nat dim = Some (Z.of_nat k) /\
    dim_entry sharding shape global k sd /\ sd_permutation sd = dim /\
    (k < length dims)%nat /\ dims' = <[k := sd]> dims.
Proof.
  unfold sharding_dim. intros Hrun.
  apply Result_bind_OK in Hrun as (p & [_ Hp]%vec_at_lookup & Hrun).
  apply Result_bind_OK in Hrun as (extent & [Hp0 Hext]%vec_at_lookup & Hrun).
  apply Result_bind_OK in Hrun as (ss & Hss & Hrun).
  unfold vec_set in Hrun. case_bool_decide as Hr; simplify_eq.
  exists (Z.to_nat p), (MkDim ss.1 ss.2 dim). rewrite Z2Nat.id by lia.
  split; [done|]. split; [|split_and!; [done|lia|done]].
  unfold dim_entry. rewrite Z2Nat.id by lia. cbn.
  case_bool_decide; simplify_eq; [done|].
  apply Result_bind_OK in Hss as (s & [_ Hs]%vec_at_lookup & Hss). simplify_eq. cbn.
  split; [done|]. by exists s.
Qed.

Lemma sharding_dims_spec sharding shape global full dims0 dims' :
  is_perm full (Zlength dims0) ->
  foldM (sharding_dim sharding shape global full) dims0 (seqZ 0 (Zlength full)) = OK dims' ->
  length dims' = length dims0 /\
  (forall (k : nat) sd, dims' !! k = Some sd ->
     dim_entry sharding shape global k sd /\ 0 <= sd_permutation sd < Zlength dims0 /\
     full !! Z.to_nat (sd_permutation sd) = Some (Z.of_nat k)).
Proof.
  intros Hfull Hrun.
  assert (NoDup full) as Hnd by (rewrite Hfull; apply NoDup_seqZ).
  assert (length full = length dims0) as Hlen.
  { rewrite (Permutation_length Hfull), length_seqZ. unfold Zlength. lia. }
  apply (foldM_inv (fun done dims => length dims = length dims0 /\
    forall j, j ∈ done -> exists (k : nat) sd, full !! Z.to_nat j = Some (Z.of_nat k) /\
      dims !! k = Some sd /\ dim_entry sharding shape global k sd /\ sd_permutation sd = j))
    in Hrun.
  - destruct Hrun as [Hl Hall]. split; [done|]. intros k sd Hk.
    assert (Z.of_nat k ∈ full) as Hin.
    { rewrite Hfull. apply elem_of_seqZ. apply lookup_lt_Some in Hk. unfold Zlength. lia. }
    apply list_elem_of_lookup in Hin as [j Hj].
    pose proof (lookup_lt_Some _ _ _ Hj) as Hjlt.
    destruct (Hall (Z.of_nat j)) as (k' & sd' & Hj' & Hk' & Hentry & Hperm).
    { apply elem_of_seqZ. unfold Zlength. lia. }
    rewrite Nat2Z.id in Hj'. rewrite Hj in Hj'. simplify_eq.
    split; [done|]. rewrite Hperm, Nat2Z.id. split; [unfold Zlength; lia|done].
  - split; [done|]. set_solver.
  - intros done x rest dims dims1 Heq [Hl Hall] Hstep.
    apply sharding_dim_OK in Hstep as (k & sd & Hx & Hentry & Hperm & Hk & ->).
    split; [by rewrite length_insert|]. intros j [Hj|Hj]%elem_of_app.
    + destruct (Hall j Hj) as (k' & sd' & Hj' & Hk' & Hentry' & Hperm').
      exists k', sd'. split_and!; try done. rewrite list_lookup_insert_ne; [done|]. intros ->.
      assert (NoDup (seqZ 0 (Zlength full))) as Hns by apply NoDup_seqZ.
      rewrite Heq in Hns. apply NoDup_app in Hns as (_ & Hdisj & _).
      apply (Hdisj j Hj), elem_of_cons. left.
      pose proof (NoDup_lookup _ _ _ _ Hnd Hj' Hx) as Hjx.
      assert (forall y, y ∈ seqZ 0 (Zlength full) -> 0 <= y) as Hpos
        by (intros y ?%elem_of_seqZ; lia).
      assert (0 <= j) by (apply Hpos; rewrite Heq; set_solver).
      assert (0 <= x) by (apply Hpos; rewrite Heq; set_solver). lia.
    + apply list_elem_of_singleton in Hj as ->. exists k, sd. split_and!; try done.
      by apply list_lookup_insert_eq.
Qed.

(** The shardings of XLA: the reshape dimensions of an iota assignment are permuted
    and it has as many devices as tiles; an assignment over one reshape dimension
    is not permuted. *)
Record sharding_ok sharding : Prop := {
  sok_iota : forall iota, ta_iota sharding = Some iota ->
    iota_ok iota /\ iota_num_elements iota = prod (ta_dimensions sharding);
  sok_elements : ta_num_elements sharding = prod (ta_dimensions sharding);
  sok_create : forall dims n offset,
    let iota := IotaTileAssignment_Create dims [n] [0] offset in
    reshape_dims iota = [n] /\ transpose_perm iota = [0] /\
    iota_offset iota = offset /\ iota_num_elements iota = n;
}.

Lemma CanonicalizeSharding_iota_OK sharding iota shape global (ss : ShardedShape D) :
  iota_ok iota -> CanonicalizeSharding_iota sharding iota shape global = OK ss ->
  zuku_type (element_type shape) = OK (ss_type ss) /\
  ss_devices ss = dl_create (iota_offset iota) (iota_num_elements iota) /\
  length (ss_dims ss) = length (ta_dimensions sharding) /\
  (forall (k : nat) sd, ss_dims ss !! k = Some sd -> dim_entry sharding shape global k sd) /\
  is_perm (sd_permutation <$> ss_dims ss) (Zlength (ss_dims ss)).
Proof.
  intros [Hperm Hne] Hrun. unfold CanonicalizeSharding_iota in Hrun.
  apply Result_bind_OK in Hrun as (permuted & Hpermuted & Hrun).
  apply Result_bind_OK in Hrun as (gs & Hgs & Hrun).
  apply Result_bind_OK in Hrun as (pgs & Hpgs & Hrun).
  apply Result_bind_OK in Hrun as (dims & Hdims & Hrun).
  apply Result_bind_OK in Hrun as (ty & Hty & [= <-]). cbn.
  assert (Zlength permuted = Zlength (reshape_dims iota)) as Hl.
  { unfold Zlength. by rewrite (permuted_reshape_dims_length _ _ Hpermuted). }
  rewrite <- Hl in Hperm.
  assert (0 < Zlength permuted) as Hpos.
  { rewrite Hl. unfold Zlength. destruct (reshape_dims iota); [done|cbn; lia]. }
  pose proof (ungrouped_permutation _ _ _ _ _ _ _ _ Hgs Hperm Hpos Hpgs) as Hfull.
  set (dims0 := replicate (length (ta_dimensions sharding)) default_ShardingDim) in *.
  assert (length dims0 = length (ta_dimensions sharding)) as Hl0 by apply length_replicate.
  assert (Zlength dims0 = Zlength (ta_dimensions sharding)) as Hzl0 by (unfold Zlength; lia).
  rewrite <- Hzl0 in Hfull.
  destruct (sharding_dims_spec _ _ _ _ _ _ Hfull Hdims) as [Hlen Hall].
  split; [done|]. split; [done|]. split; [lia|].
  split; [intros k sd Hk; by destruct (Hall k sd Hk)|].
  assert (length (concat pgs) = length dims0) as Hlf.
  { rewrite (Permutation_length Hfull), length_seqZ. unfold Zlength. lia. }
  apply NoDup_Permutation.
  - apply NoDup_alt. intros i j x Hi Hj. rewrite list_lookup_fmap in Hi, Hj.
    destruct (dims !! i) as [a|] eqn:Ha; [|done]. destruct (dims !! j) as [b|] eqn:Hb; [|done].
    cbn in Hi, Hj. injection Hi as <-. injection Hj as Hj.
    destruct (Hall _ _ Ha) as (_ & _ & Hfa), (Hall _ _ Hb) as (_ & _ & Hfb).
    rewrite Hj, Hfa in Hfb. injection Hfb as Hfb. lia.
  - apply NoDup_seqZ.
  - intros x. rewrite elem_of_seqZ, list_elem_of_fmap. split.
    + intros (sd & -> & [k Hk]%list_elem_of_lookup). destruct (Hall _ _ Hk) as (_ & Hr & _).
      unfold Zlength in *. lia.
    + intros Hx. destruct (lookup_lt_is_Some_2 (concat pgs) (Z.to_nat x)) as [p Hp].
      { unfold Zlength in Hx. lia. }
      assert (0 <= p < Zlength dims0) as Hpr.
      { apply list_elem_of_lookup_2 in Hp. rewrite Hfull in Hp. apply elem_of_seqZ in Hp. lia. }
      destruct (lookup_lt_is_Some_2 dims (Z.to_nat p)) as [sd Hsd]; [unfold Zlength in Hpr; lia|].
      exists sd. split; [|by eapply list_elem_of_lookup_2].
      destruct (Hall _ _ Hsd) as (_ & Hr & Hf). rewrite Z2Nat.id in Hf by lia.
      assert (NoDup (concat pgs)) as Hnd by (rewrite Hfull; apply NoDup_seqZ).
      pose proof (NoDup_lookup _ _ _ _ Hnd Hp Hf). lia.
Qed.

(** A sharding that the runtime accepts becomes a layout with one dimension per
    tile dimension: the dimension is cut into as many parts as the tile dimension
    has tiles, its size is that of the tensor dimension (a global shape is kept, a
    local one is scaled; the dimension of the replicas has size 1), and the device
    order of the dimensions is a permutation of them. *)
Theorem CanonicalizeSharding_layout sharding shape global (ss : ShardedShape D) :
  sharding_ok sharding -> CanonicalizeSharding sharding shape global = OK ss ->
  zuku_type (element_type shape) = OK (ss_type ss) /\
  length (ss_dims ss) = length (ta_dimensions sharding) /\
  (forall (k : nat) sd, ss_dims ss !! k = Some sd -> dim_entry sharding shape global k sd) /\
  is_perm (sd_permutation <$> ss_dims ss) (Zlength (ss_dims ss)).
Proof.
  intros [Hiota _ Hcreate] Hrun. unfold CanonicalizeSharding in Hrun.
  destruct (ta_iota sharding) as [iota|].
  - destruct (Hiota iota) as [Hok _]; [done|].
    apply CanonicalizeSharding_iota_OK in Hrun; naive_solver.
  - destruct (consecutive _ _); [|done].
    destruct (Hcreate (ta_dimensions sharding) (ta_num_elements sharding) (ta_first sharding))
      as (Hr & Hp & _).
    apply CanonicalizeSharding_iota_OK in Hrun; [naive_solver|]. split; [|by rewrite Hr].
    rewrite Hp, Hr. apply Permutation_refl.
Qed.

Lemma layout_shardings sharding shape global (dims : list ShardingDim) :
  length dims = length (ta_dimensions sharding) ->
  (forall (k : nat) sd, dims !! k = Some sd -> dim_entry sharding shape global k sd) ->
  sd_sharding <$> dims = ta_dimensions sharding.
Proof.
  intros Hlen Hall. apply list_eq_same_length with (length dims); [done|by rewrite length_fmap|].
  intros k x y _ Hx Hy. rewrite list_lookup_fmap in Hx.
  destruct (dims !! k) as [sd|] eqn:Hk; [|done]. injection Hx as <-.
  destruct (Hall k sd Hk) as [Hsd _]. congruence.
Qed.

Lemma replicated_dims_of_spec shape devices :
  0 < dl_size devices ->
  prod (sd_sharding <$> replicated_dims_of shape devices) = dl_size devices /\
  sd_permutation <$> replicated_dims_of shape devices =
    seqZ 0 (Zlength (replicated_dims_of shape devices)).
Proof.
  intros Hd. unfold replicated_dims_of.
  set (n := Zlength (dimensions shape)).
  set (front := (fun '(i, d) => MkDim d 1 i) <$> zip (seqZ 0 n) (dimensions shape)).
  assert (length front = length (dimensions shape)) as Hl.
  { unfold front, n. rewrite length_fmap, length_zip, length_seqZ. unfold Zlength. lia. }
  assert (Zlength front = n) as Hz by (unfold Zlength, n; by rewrite Hl).
  assert (prod (sd_sharding <$> front) = 1) as Hp.
  { clear Hl Hz. unfold front. clear front. induction (zip _ _) as [|[i d] l IH]; [done|].
    rewrite !fmap_cons. cbn [prod]. rewrite IH. cbn. lia. }
  assert (sd_permutation <$> front = seqZ 0 n) as Hs.
  { unfold front. rewrite <- list_fmap_compose.
    rewrite <- (fst_zip (seqZ 0 n) (dimensions shape)) at 2
      by (rewrite length_seqZ; unfold n, Zlength; lia).
    apply list_fmap_ext. by intros ? [? ?] _. }
  case_bool_decide as Hd1; rewrite !fmap_app, prod_app, Hp, Hs; cbn.
  - split; [lia|]. unfold Zlength in *. rewrite length_app. cbn.
    replace (Z.of_nat (length front + 1)) with (n + 1) by (unfold n; lia).
    rewrite seqZ_app by (unfold n; lia). done.
  - rewrite !app_nil_r. split; [lia|]. by rewrite Hz.
Qed.

Context `{!DeviceListLaws D}.

(** A converted shape lies on exactly the devices it was asked for: their number
    is the number of parts the dimensions are cut into together, and the device
    order of the dimensions is a permutation. *)
Theorem XlaShapeToZukuShape_covers shape devices sharding global (ss : ShardedShape D) :
  sharding_ok sharding -> 0 < dl_size devices ->
  XlaShapeToZukuShape shape devices sharding global = OK ss ->
  ss_devices ss = devices /\
  prod (sd_sharding <$> ss_dims ss) = dl_size devices /\
  is_perm (sd_permutation <$> ss_dims ss) (Zlength (ss_dims ss)).
Proof.
  intros Hok Hd Hrun. unfold XlaShapeToZukuShape in Hrun.
  apply Result_bind_OK in Hrun as (ty & _ & Hrun).
  destruct (IsReplicated sharding || IsTileMaximal sharding).
  { injection Hrun as <-. cbn. destruct (replicated_dims_of_spec shape devices Hd) as [Hp Hs].
    split; [done|]. split; [done|]. unfold is_perm. by rewrite Hs. }
  apply Result_bind_OK in Hrun as (ss0 & Hcan & Hrun).
  assert (dl_size (ss_devices ss0) = prod (ta_dimensions sharding) /\
          length (ss_dims ss0) = length (ta_dimensions sharding) /\
          (forall (k : nat) sd, ss_dims ss0 !! k = Some sd ->
             dim_entry sharding shape global k sd) /\
          is_perm (sd_permutation <$> ss_dims ss0) (Zlength (ss_dims ss0))) as (Hsz & Hlen & Hall & Hperm).
  { destruct Hok as [Hiota Hel Hcreate]. unfold CanonicalizeSharding in Hcan.
    destruct (ta_iota sharding) as [iota|].
    - destruct (Hiota iota) as [Hi Hn]; [done|].
      apply CanonicalizeSharding_iota_OK in Hcan as (_ & -> & ? & ? & ?); [|done].
      by rewrite dl_size_create, Hn.
    - destruct (consecutive _ _); [|done].
      destruct (Hcreate (ta_dimensions sharding) (ta_num_elements sharding) (ta_first sharding))
        as (Hr & Hp & _ & Hn).
      apply CanonicalizeSharding_iota_OK in Hcan as (_ & -> & ? & ? & ?).
      + by rewrite dl_size_create, Hn, Hel.
      + split; [rewrite Hp, Hr; apply Permutation_refl|by rewrite Hr]. }
  pose proof (layout_shardings _ _ _ _ Hlen Hall) as Hsh.
  case_bool_decide as Hne; [case_bool_decide as Hsize; [done|]|]; injection Hrun as <-; cbn.
  - rewrite Hsh. split; [done|]. split; [congruence|done].
  - rewrite Hsh. split; [done|]. split; [congruence|done].
Qed.

(** Two shardings are equivalent on a mesh when both replicate over it or both
    have the same tile dimensions; this is an equivalence relation. *)
Theorem MeshEquivalentSharding_equivalence (a b c : HS) :
  MeshEquivalentSharding a a = true /\
  MeshEquivalentSharding a b = MeshEquivalentSharding b a /\
  (MeshEquivalentSharding a b = true -> MeshEquivalentSharding b c = true ->
   MeshEquivalentSharding a c = true) /\
  (MeshEquivalentSharding a b = true ->
   IsReplicatedOrSubmeshReplicate a = IsReplicatedOrSubmeshReplicate b).
Proof.
  unfold MeshEquivalentSharding.
  destruct (IsReplicatedOrSubmeshReplicate a), (IsReplicatedOrSubmeshReplicate b),
    (IsReplicatedOrSubmeshReplicate c); cbn; split_and!; try done.
  all: repeat case_bool_decide; try done; congruence.
Qed.
End layout.

(** ** Concrete shardings *)
Lemma message_sharding_ok (os : OpSharding) :
  is_perm (os_iota_transpose_perm os) (Zlength (os_iota_reshape_dims os)) ->
  prod (os_iota_reshape_dims os) = prod (os_tile_assignment_dimensions os) ->
  sharding_ok (HS := OpSharding) os.
Proof.
  intros Hperm Hprod. split; cbn.
  - intros iota. unfold Tiles.message_iota. case_bool_decide; [done|]. intros [= <-].
    by split; [split|].
  - done.
  - intros dims n offset. rewrite Z.mul_1_r. done.
Qed.

(** The last tile dimension replicates: the example of a permuted and replicated
    sharding in mm_sharding_test.cc. *)
Definition permuted_example : OpSharding :=
  MkOpSharding OTHER [1; 2; 4; 2; 3] [] [2; 4; 2; 3] [2; 1; 0; 3] 0 true.
Definition permuted_shape : Shape := MkShape BF16 [4; 4; 8; 4].
Definition permuted_dims : list ShardingDim :=
  [MkDim 4 1 2; MkDim 4 2 3; MkDim 8 4 1; MkDim 4 2 0; MkDim 1 3 4].

Lemma CanonicalizeSharding_layout_witness :
  let ss := MkSharded Z_BF16 permuted_dims (Slice.mk 0 48) in
  CanonicalizeSharding permuted_example permuted_shape true = OK ss /\
  (zuku_type (element_type permuted_shape) = OK (ss_type ss) /\
   length (ss_dims ss) = length (ta_dimensions permuted_example) /\
   (forall (k : nat) sd, ss_dims ss !! k = Some sd ->
      dim_entry permuted_example permuted_shape true k sd) /\
   is_perm (sd_permutation <$> ss_dims ss) (Zlength (ss_dims ss))).
Proof.
  cbv zeta. split; [by vm_compute|].
  apply (CanonicalizeSharding_layout (D := Slice.t) permuted_example permuted_shape true).
  - apply message_sharding_ok; [|done]. apply (bool_decide_unpack _). by vm_compute.
  - by vm_compute.
Defined.

Lemma XlaShapeToZukuShape_covers_witness :
  let ss := MkSharded Z_BF16 permuted_dims (Slice.mk 48 48) in
  ss_devices ss = Slice.mk 48 48 /\
  prod (sd_sharding <$> ss_dims ss) = dl_size (Slice.mk 48 48) /\
  is_perm (sd_permutation <$> ss_dims ss) (Zlength (ss_dims ss)).
Proof.
  cbv zeta.
  apply (XlaShapeToZukuShape_covers permuted_shape (Slice.mk 48 48) permuted_example true).
  - apply message_sharding_ok; [|done]. apply (bool_decide_unpack _). by vm_compute.
  - done.
  - by vm_compute.
Defined.
