(* ===== verification/ShardingReplication.v ===== *)
(** * Replicating and resizing shardings

    The theorems about [ReplicateDims] and [ResizeSharding] of mm_sharding.cc. *)
From S2P Require Import Prelude Hlo Sharding ShardingIndex ShardingLayout.
Local Open Scope Z_scope.

(** [l] with the elements at the positions [rep] replaced by [v]. *)
Definition overwrite (rep : list Z) (v : Z) (l : list Z) : list Z :=
  (fun k => if bool_decide (k ∈ rep) then v else nth (Z.to_nat k) l 0) <$> seqZ 0 (Zlength l).

(** Where dimension [k] is moved: the [j]-th replicated dimension becomes [n + j]. *)
Definition moved (n : Z) (rep : list Z) (k : Z) : Z :=
  match list_find (fun r => r = k) rep with Some (j, _) => n + Z.of_nat j | None => k end.

Definition moved_permutation (n : Z) (rep : list Z) : list Z :=
  (moved n rep <$> seqZ 0 n) ++ rep.

Lemma moved_nin n rep k : k ∉ rep -> moved n rep k = k.
Proof.
  intros Hk. unfold moved. destruct (list_find _ _) as [[j r]|] eqn:E; [|done].
  apply list_find_Some in E as (Hj & -> & _). apply list_elem_of_lookup_2 in Hj. done.
Qed.

Lemma moved_in n rep (j : nat) k : NoDup rep -> rep !! j = Some k -> moved n rep k = n + Z.of_nat j.
Proof.
  intros Hnd Hj. unfold moved.
  destruct (list_find_elem_of (fun r => r = k) rep k) as [[j' r] E]; [by eapply list_elem_of_lookup_2|done|].
  rewrite E. apply list_find_Some in E as (Hj' & -> & _).
  by rewrite (NoDup_lookup _ _ _ _ Hnd Hj' Hj).
Qed.

Lemma moved_is_perm n rep :
  0 <= n -> NoDup rep -> Forall (fun r => 0 <= r < n) rep ->
  is_perm (moved_permutation n rep) (n + Zlength rep).
Proof.
  intros Hn Hnd Hr. rewrite Forall_forall in Hr. unfold is_perm. symmetry.
  apply submseteq_length_Permutation.
  - apply NoDup_submseteq; [apply NoDup_seqZ|]. intros x Hx%elem_of_seqZ.
    unfold moved_permutation. rewrite elem_of_app, list_elem_of_fmap.
    destruct (decide (x < n)) as [Hxn|Hxn].
    + destruct (decide (x ∈ rep)) as [|Hin]; [by right|]. left. exists x.
      rewrite moved_nin by done. split; [done|]. apply elem_of_seqZ. lia.
    + left. destruct (lookup_lt_is_Some_2 rep (Z.to_nat (x - n))) as [k Hk];
        [unfold Zlength in Hx; lia|].
      exists k. rewrite (moved_in _ _ _ _ Hnd Hk). split; [lia|].
      apply elem_of_seqZ. apply list_elem_of_lookup_2 in Hk. specialize (Hr k Hk). lia.
  - unfold moved_permutation. rewrite length_app, length_fmap, !length_seqZ. unfold Zlength. lia.
Qed.

(** The permutation that [ReplicateDims] computes from an unpermuted one. *)
Lemma new_permutation_spec n rep :
  0 <= n -> NoDup rep -> Forall (fun r => 0 <= r < n) rep ->
  new_permutation (seqZ 0 n) rep = OK (moved_permutation n rep).
Proof.
  intros Hn Hnd Hr. unfold new_permutation. set (f := fun '(np, extra) dim => _).
  assert (Zlength (seqZ 0 n) = n) as Hlen by (unfold Zlength; rewrite length_seqZ; lia).
  destruct (foldM_total (fun done st => st = (moved_permutation n done, n + Zlength done))
    f (seqZ 0 n, Zlength (seqZ 0 n)) rep) as (st & -> & ->); [| |done].
  - rewrite Hlen. unfold moved_permutation. rewrite app_nil_r. f_equal; [|unfold Zlength; cbn; lia].
    symmetry. rewrite <- (list_fmap_id (seqZ 0 n)) at 2. by apply list_fmap_ext.
  - intros done r rest st Heq ->. rewrite Heq in Hnd, Hr.
    apply Forall_app in Hr as [_ [Hr _]%Forall_cons].
    apply NoDup_app in Hnd as (_ & Hdisj & _).
    assert (r ∉ done) as Hnot by (intros Hin; apply (Hdisj r Hin); set_solver).
    unfold f. rewrite (proj2 (vec_at_lookup (seqZ 0 n) r r)).
    2:{ split; [lia|]. rewrite lookup_seqZ_lt by lia. f_equal. lia. }
    cbn [mbind Result_bind].
    rewrite vec_set_OK by (unfold Zlength, moved_permutation;
      rewrite !length_app, length_fmap, length_seqZ; lia).
    cbn [mbind Result_bind]. eexists. split; [done|].
    f_equal; [|unfold Zlength; rewrite length_app; cbn; lia].
    unfold moved_permutation. rewrite <- app_assoc, insert_app_l by
      (rewrite length_fmap, length_seqZ; lia).
    f_equal. apply list_eq. intros i.
    destruct (decide (i = Z.to_nat r)) as [->|Hi].
    + rewrite list_lookup_insert_eq by (rewrite length_fmap, length_seqZ; lia).
      rewrite list_lookup_fmap, lookup_seqZ_lt by lia. cbn [fmap option_fmap option_map].
      rewrite Z.add_0_l, Z2Nat.id by lia. f_equal. unfold moved.
      assert (list_find (fun r' => r' = r) (done ++ [r]) = Some (length done, r)) as ->.
      { apply list_find_Some. split; [by apply list_lookup_middle|]. split; [done|].
        intros j y Hj Hlt ->. apply Hnot. rewrite lookup_app_l in Hj by done.
        by eapply list_elem_of_lookup_2. }
      done.
    + rewrite list_lookup_insert_ne by done. rewrite !list_lookup_fmap.
      destruct (seqZ 0 n !! i) as [k|] eqn:Hk; [|done]. cbn. f_equal.
      apply lookup_seqZ in Hk as [-> Hk]. unfold moved.
      destruct (list_find _ done) as [[j y]|] eqn:E.
      * apply list_find_Some in E as (Hj & -> & Hmin).
        assert (list_find (fun r' => r' = 0 + Z.of_nat i) (done ++ [r]) = Some (j, 0 + Z.of_nat i))
          as ->; [|done].
        apply list_find_Some. split; [by apply lookup_app_l_Some|]. split; [done|].
        intros j' y' Hj' Hlt. eapply Hmin; [|exact Hlt].
        rewrite lookup_app_l in Hj' by (apply lookup_lt_Some in Hj; lia). exact Hj'.
      * assert (list_find (fun r' => r' = 0 + Z.of_nat i) (done ++ [r]) = None) as ->; [|done].
        apply list_find_None. apply list_find_None in E. apply Forall_app. split; [done|].
        repeat constructor. lia.
Qed.

Lemma gather_moved (l rep : list Z) v :
  Forall (fun r => 0 <= r < Zlength l) rep -> NoDup rep ->
  gather (moved_permutation (Zlength l) rep) (l ++ replicate (length rep) v) =
  overwrite rep v l ++ gather rep l.
Proof.
  intros Hr Hnd. rewrite Forall_forall in Hr. unfold moved_permutation. rewrite gather_app. f_equal.
  - unfold gather, overwrite. rewrite <- list_fmap_compose. apply list_fmap_ext.
    intros i k [-> Hk]%lookup_seqZ. cbn [compose]. rewrite !Z.add_0_l.
    case_bool_decide as Hin.
    + apply list_elem_of_lookup in Hin as [j Hj].
      unfold compose. rewrite (moved_in _ _ _ _ Hnd Hj). apply nth_lookup_Some.
      apply lookup_lt_Some in Hj as Hjl.
      rewrite lookup_app_r by (unfold Zlength; lia). apply lookup_replicate. unfold Zlength. lia.
    + unfold compose. rewrite moved_nin by done. rewrite app_nth1; [done|]. unfold Zlength in Hk. lia.
  - unfold gather. apply list_fmap_ext. intros i r Hi%list_elem_of_lookup_2. specialize (Hr r Hi).
    rewrite app_nth1; [done|]. unfold Zlength in Hr. lia.
Qed.

Lemma lin_pad dims idx m :
  length dims = length idx ->
  lin (dims ++ replicate m 1) (idx ++ replicate m 0) = lin dims idx /\
  prod (dims ++ replicate m 1) = prod dims.
Proof.
  intros Hl. rewrite lin_app, prod_app by done.
  assert (lin (replicate m 1) (replicate m 0) = 0 /\ prod (replicate m 1) = 1) as [-> ->]; [|lia].
  induction m as [|m [IH1 IH2]]; [done|]. cbn. lia.
Qed.

Lemma in_bounds_pad dims idx m :
  in_bounds dims idx -> in_bounds (dims ++ replicate m 1) (idx ++ replicate m 0).
Proof.
  intros Hb. apply in_bounds_app; [done|]. induction m; constructor; [lia|done].
Qed.

Lemma ungroup_single span ta_dims ta_dim iota_dim sp back x :
  span 0 = OK x -> 0 <= iota_dim ->
  ungroup false 1 span ta_dims ta_dim iota_dim sp [] back =
  OK [back ++ seqZ ta_dim (Zlength ta_dims)].
Proof.
  intros Hspan. revert ta_dim iota_dim sp back.
  induction ta_dims as [|d ta_dims IH]; intros ta_dim iota_dim sp back Hi; cbn [ungroup].
  - change (seqZ ta_dim (Zlength [])) with (@nil Z). by rewrite app_nil_r.
  - assert (seqZ ta_dim (Zlength (d :: ta_dims)) = ta_dim :: seqZ (ta_dim + 1) (Zlength ta_dims))
      as ->.
    { rewrite (seqZ_cons ta_dim) by (unfold Zlength; cbn; lia). unfold Zlength. cbn [length].
      do 2 f_equal; lia. }
    case_bool_decide.
    + replace iota_dim with 0 by lia. rewrite Hspan. cbn [mbind Result_bind andb].
      rewrite (bool_decide_eq_false_2 (0 + 1 < 1)) by lia.
      case_bool_decide; rewrite IH by lia; by rewrite <- app_assoc.
    + rewrite IH by lia. by rewrite <- app_assoc.
Qed.

Lemma overwrite_length rep v l : length (overwrite rep v l) = length l.
Proof. unfold overwrite. rewrite length_fmap, length_seqZ. unfold Zlength. lia. Qed.

Lemma overwrite_app rep v l1 l2 :
  Forall (fun r => 0 <= r < Zlength l1) rep -> overwrite rep v (l1 ++ l2) = overwrite rep v l1 ++ l2.
Proof.
  intros Hr. rewrite Forall_forall in Hr. unfold overwrite.
  assert (Zlength (l1 ++ l2) = Zlength l1 + Zlength l2) as ->
    by (unfold Zlength; rewrite length_app; lia).
  rewrite seqZ_app, fmap_app by done. f_equal.
  - apply list_fmap_ext. intros i k [-> Hk]%lookup_seqZ. case_bool_decide; [done|].
    rewrite app_nth1; [done|]. unfold Zlength in Hk. lia.
  - rewrite Z.add_0_l. apply list_eq. intros i. rewrite list_lookup_fmap.
    destruct (decide (i < length l2)%nat) as [Hi|Hi].
    + rewrite lookup_seqZ_lt by (unfold Zlength; lia). cbn [fmap option_fmap option_map].
      rewrite bool_decide_eq_false_2 by (intros ?%Hr; unfold Zlength in *; lia).
      destruct (lookup_lt_is_Some_2 l2 i Hi) as [x Hx]. rewrite Hx. f_equal.
      apply nth_lookup_Some. rewrite lookup_app_r by (unfold Zlength; lia).
      rewrite <- Hx. f_equal. unfold Zlength. lia.
    + rewrite lookup_seqZ_ge by (unfold Zlength; lia). by rewrite lookup_ge_None_2 by lia.
Qed.

Lemma overwrite_snoc rep r v l :
  0 <= r < Zlength l -> <[Z.to_nat r := v]> (overwrite rep v l) = overwrite (rep ++ [r]) v l.
Proof.
  intros Hr. apply list_eq. intros i. unfold overwrite.
  destruct (decide (i < length l)%nat) as [Hi|Hi].
  - rewrite list_lookup_fmap, lookup_seqZ_lt by (unfold Zlength; lia).
    cbn [fmap option_fmap option_map]. destruct (decide (i = Z.to_nat r)) as [->|Hne].
    + rewrite list_lookup_insert_eq by
        (rewrite length_fmap, length_seqZ; unfold Zlength in *; lia).
      rewrite bool_decide_eq_true_2; [done|]. rewrite Z.add_0_l, Z2Nat.id by lia. set_solver.
    + rewrite list_lookup_insert_ne, list_lookup_fmap, lookup_seqZ_lt by (unfold Zlength; lia).
      cbn [fmap option_fmap option_map].
      rewrite (bool_decide_ext (0 + Z.of_nat i ∈ rep ++ [r]) (0 + Z.of_nat i ∈ rep)); [done|].
      rewrite elem_of_app, list_elem_of_singleton. naive_solver lia.
  - rewrite !lookup_ge_None_2; [done|..]; rewrite ?length_insert, length_fmap, length_seqZ;
      unfold Zlength; lia.
Qed.

Lemma overwrite_nil v l : overwrite [] v l = l.
Proof. exact (gather_seqZ l). Qed.

Lemma fill_ones_spec dims rep :
  Forall (fun r => 0 <= r < Zlength dims) rep ->
  foldM (fun dims dim => vec_set dims dim 1) dims rep = OK (overwrite rep 1 dims).
Proof.
  intros Hr. destruct (foldM_total (fun done st => st = overwrite done 1 dims)
    (fun dims dim => vec_set dims dim 1) dims rep) as (st & -> & ->); [|..|done].
  - by rewrite overwrite_nil.
  - intros done r rest st -> ->. apply Forall_app in Hr as [_ [Hr _]%Forall_cons].
    eexists. split; [|by apply overwrite_snoc]. apply vec_set_OK.
    unfold Zlength in *. by rewrite overwrite_length.
Qed.

Lemma gather_app_l rep (l1 l2 : list Z) :
  Forall (fun r => 0 <= r < Zlength l1) rep -> gather rep (l1 ++ l2) = gather rep l1.
Proof.
  rewrite Forall_forall. intros Hr. unfold gather. apply list_fmap_ext.
  intros i r Hi%list_elem_of_lookup_2. specialize (Hr r Hi). rewrite app_nth1; [done|].
  unfold Zlength in Hr. lia.
Qed.

Lemma overwrite_bounds rep dims idx :
  in_bounds dims idx -> in_bounds (overwrite rep 1 dims) (overwrite rep 0 idx).
Proof.
  intros Hb. pose proof (Forall2_length _ _ _ Hb) as Hl. unfold overwrite.
  assert (Zlength dims = Zlength idx) as -> by (unfold Zlength; by rewrite Hl).
  assert (Forall (fun k => 0 <= k < Zlength idx) (seqZ 0 (Zlength idx))) as Hr.
  { apply Forall_forall. intros k ?%elem_of_seqZ. lia. }
  induction Hr as [|k ks Hk _ IH]; [constructor|]. constructor; [|exact IH].
  case_bool_decide; [lia|].
  destruct (lookup_lt_is_Some_2 dims (Z.to_nat k)) as [d Hd]; [unfold Zlength in Hk; lia|].
  destruct (Forall2_lookup_l _ _ _ _ _ Hb Hd) as (i & Hi & Hdi).
  by rewrite (nth_lookup_Some _ _ _ _ Hd), (nth_lookup_Some _ _ _ _ Hi).
Qed.

Section replication.
Context {HS : Type} `{HloShardingApi HS} `{tiles : !IotaTiles}.
Implicit Types (sharding : HS) (rep idx : list Z).

Definition shape_rank sharding : nat := Z.to_nat (num_shape_dims sharding).

(** The tile that holds, after the dimensions [rep] are replicated, the data of
    tile [idx]: the replicated dimensions collapse to 0, and the last dimension is
    the position within the old replicas and the replicated dimensions. *)
Definition replicated_tile sharding rep idx : list Z :=
  let dims := ta_dimensions sharding in let m := shape_rank sharding in
  overwrite rep 0 (take m idx) ++
  [lin (drop m dims ++ gather rep dims) (drop m idx ++ gather rep idx)].

Definition replicated_tile_dims sharding rep : list Z :=
  let dims := ta_dimensions sharding in let m := shape_rank sharding in
  overwrite rep 1 (take m dims) ++ [prod (drop m dims ++ gather rep dims)].

Lemma total_replication_spec sharding rep :
  (ReplicateOnLastTileDim sharding = true -> ta_dimensions sharding <> []) ->
  Forall (fun r => 0 <= r < num_shape_dims sharding) rep ->
  total_replication sharding rep =
    OK (prod (drop (shape_rank sharding) (ta_dimensions sharding) ++
              gather rep (ta_dimensions sharding))).
Proof.
  intros Hne Hr. unfold total_replication, shape_rank, num_shape_dims, ta_dim, ta_num_dimensions in *.
  set (dims := ta_dimensions sharding) in *.
  assert (forall acc, Forall (fun r => 0 <= r < Zlength dims) rep ->
    foldM (fun replication dim => d ← vec_at dims dim; OK (replication * d)) acc rep =
    OK (acc * prod (gather rep dims))) as Hfold.
  { clear Hr. intros acc Hr. revert acc. induction Hr as [|r rep Hr _ IH]; intros acc.
    - cbn. f_equal. lia.
    - cbn [foldM]. rewrite vec_at_nth by done. cbn [mbind Result_bind]. rewrite IH.
      change (gather (r :: rep) dims) with (nth (Z.to_nat r) dims 0 :: gather rep dims).
      cbn [prod]. f_equal. lia. }
  assert (Forall (fun r => 0 <= r < Zlength dims) rep) as Hr'.
  { eapply Forall_impl; [exact Hr|]. cbn. intros r. destruct (ReplicateOnLastTileDim _); lia. }
  destruct (ReplicateOnLastTileDim sharding).
  - assert (0 < Zlength dims) as Hpos.
    { unfold Zlength. destruct dims; [by destruct Hne|cbn; lia]. }
    destruct (lookup_lt_is_Some_2 dims (Z.to_nat (Zlength dims - 1))) as [x Hx];
      [unfold Zlength in *; lia|].
    rewrite (proj2 (vec_at_lookup dims (Zlength dims - 1) x)) by (split; [lia|done]).
    cbn [mbind Result_bind]. rewrite Hfold by done. rewrite (drop_S_lookup _ _ _ Hx).
    rewrite drop_ge by (unfold Zlength in *; lia). done.
  - cbn [mbind Result_bind]. rewrite Hfold by done.
    rewrite drop_ge by (unfold Zlength; lia). cbn [app]. f_equal. lia.
Qed.

Lemma replicated_tile_lin sharding rep idx :
  let dims := ta_dimensions sharding in let n := Zlength dims in
  in_bounds dims idx -> NoDup rep ->
  Forall (fun r => 0 <= r < Zlength (take (shape_rank sharding) dims)) rep ->
  in_bounds (replicated_tile_dims sharding rep) (replicated_tile sharding rep idx) /\
  lin (replicated_tile_dims sharding rep) (replicated_tile sharding rep idx) =
    lin (gather (moved_permutation n rep) (dims ++ replicate (length rep) 1))
        (gather (moved_permutation n rep) (idx ++ replicate (length rep) 0)) /\
  prod (replicated_tile_dims sharding rep) = prod dims.
Proof.
  intros dims n Hb Hnd Hr. unfold replicated_tile_dims, replicated_tile. fold dims.
  set (m := shape_rank sharding) in *.
  pose proof (Forall2_length _ _ _ Hb) as Hlen.
  assert (Zlength idx = n) as Hn by (unfold n, Zlength; by rewrite Hlen).
  assert (Forall (fun r => 0 <= r < n) rep) as Hrn.
  { eapply Forall_impl; [exact Hr|]. cbn. intros r. unfold n, Zlength. rewrite length_take. lia. }
  assert (Forall (fun r => 0 <= r < Zlength (take m idx)) rep) as Hri.
  { unfold Zlength in *. by rewrite length_take, <- Hlen, <- length_take. }
  assert (forall l v, Zlength l = n ->
    gather (moved_permutation n rep) (l ++ replicate (length rep) v) =
    overwrite rep v l ++ gather rep l) as Hgm.
  { intros l v Hl. rewrite <- Hl. apply gather_moved; [by rewrite Hl|done]. }
  rewrite !Hgm by done.
  assert (in_bounds (drop m dims ++ gather rep dims) (drop m idx ++ gather rep idx)) as Hbt.
  { apply in_bounds_app; [by apply Forall2_drop|by apply in_bounds_gather]. }
  assert (in_bounds (overwrite rep 1 (take m dims)) (overwrite rep 0 (take m idx))) as Hbo.
  { by apply overwrite_bounds, Forall2_take. }
  assert (overwrite rep 1 dims = overwrite rep 1 (take m dims) ++ drop m dims) as Ho1.
  { rewrite <- overwrite_app by done. by rewrite take_drop. }
  assert (overwrite rep 0 idx = overwrite rep 0 (take m idx) ++ drop m idx) as Ho0.
  { rewrite <- overwrite_app by done. by rewrite take_drop. }
  split; [|split].
  - apply in_bounds_app; [done|]. constructor; [by apply lin_bound|constructor].
  - rewrite Ho1, Ho0, <- !app_assoc.
    assert (length (overwrite rep 1 (take m dims)) = length (overwrite rep 0 (take m idx)))
      by (rewrite !overwrite_length, !length_take; lia).
    rewrite (lin_app _ (drop m dims ++ _)), lin_app by done. cbn [lin prod]. lia.
  - rewrite prod_app. cbn [prod]. rewrite Z.mul_1_r, <- prod_app, app_assoc, <- Ho1, <- Hgm by done.
    rewrite <- (proj2 (lin_pad dims idx (length rep) Hlen)). apply prod_Permutation.
    apply (gather_perm _ (n + Zlength rep)); [apply moved_is_perm; [apply Zlength_nonneg|done..]|].
    unfold n, Zlength. rewrite length_app, length_replicate. lia.
Qed.

(** Replicating dimensions of a sharding in device order keeps the data where it
    is: the device of every tile of the old sharding is, in the new one, a device
    of the tile in which the replicated dimensions have collapsed.  (The new
    sharding counts devices from 0, whatever the offset of the old one.) *)
Theorem ReplicateDims_devices sharding iota rep :
  let dims := ta_dimensions sharding in
  ta_iota sharding = Some iota -> transpose_perm iota = [0] -> reshape_dims iota = [prod dims] ->
  ta_num_elements sharding = prod dims ->
  (ReplicateOnLastTileDim sharding = true -> dims <> []) ->
  NoDup rep -> Forall (fun r => 0 <= r < num_shape_dims sharding) rep ->
  prod (drop (shape_rank sharding) dims ++ gather rep dims) <> prod dims ->
  exists os, ReplicateDims rep sharding = FromProto os /\
    os_replicate_on_last_tile_dim os = true /\
    os_tile_assignment_dimensions os = replicated_tile_dims sharding rep /\
    forall idx, in_bounds dims idx ->
      in_bounds (replicated_tile_dims sharding rep) (replicated_tile sharding rep idx) /\
      device_of os (replicated_tile sharding rep idx) = lin dims idx.
Proof.
  intros dims Hiota Hperm Hreshape Hel Hne Hnd Hr Htotal. unfold ReplicateDims. rewrite Hiota.
  assert (Zlength (take (shape_rank sharding) dims) = num_shape_dims sharding /\
          num_shape_dims sharding <= Zlength dims) as [Hm Hmn].
  { unfold shape_rank, num_shape_dims, ta_num_dimensions in *. fold dims in Hne |- *.
    unfold Zlength. rewrite length_take. destruct (ReplicateOnLastTileDim _); [|lia].
    destruct dims; [by destruct Hne|cbn; lia]. }
  assert (Forall (fun r => 0 <= r < Zlength dims) rep) as Hrn.
  { eapply Forall_impl; [exact Hr|]. cbn. lia. }
  unfold current_permutation. rewrite Hperm, Hreshape. rewrite bool_decide_eq_false_2 by done.
  rewrite (ungroup_single _ _ _ _ _ _ (prod dims)) by (done || lia).
  cbn [mbind Result_bind app]. fold dims.
  change (permute_groups false [0] [seqZ 0 (Zlength dims)]) with (OK [seqZ 0 (Zlength dims)]).
  cbn [mbind Result_bind concat]. rewrite app_nil_r.
  assert (new_reshape_dims sharding (seqZ 0 (Zlength dims)) rep =
          OK (dims ++ replicate (length rep) 1)) as ->.
  { unfold new_reshape_dims, ta_dim. fold dims.
    rewrite (foldM_push _ (fun k => [nth (Z.to_nat k) dims 0])).
    2:{ intros acc k ?%elem_of_seqZ. by rewrite vec_at_nth by lia. }
    cbn [mbind Result_bind app]. rewrite bind_singleton. fold (gather (seqZ 0 (Zlength dims)) dims).
    rewrite gather_seqZ. do 2 f_equal. apply const_fmap. done. }
  cbn [mbind Result_bind]. rewrite new_permutation_spec by done. cbn [mbind Result_bind].
  rewrite total_replication_spec by done. fold dims. cbn [mbind Result_bind].
  rewrite bool_decide_eq_false_2 by (by rewrite Hel).
  set (total := prod (drop _ _ ++ _)) in *.
  assert ((if ReplicateOnLastTileDim sharding then vec_set dims (num_shape_dims sharding) total
           else OK (dims ++ [total])) = OK (take (shape_rank sharding) dims ++ [total])) as ->.
  { unfold shape_rank, num_shape_dims, ta_num_dimensions in *. fold dims in Hne |- *.
    destruct (ReplicateOnLastTileDim _).
    - assert (0 < Zlength dims) by (unfold Zlength; destruct dims; [by destruct Hne|cbn; lia]).
      rewrite vec_set_OK by lia. f_equal. rewrite insert_take_drop by (unfold Zlength in *; lia).
      rewrite drop_ge by (unfold Zlength in *; lia). done.
    - rewrite take_ge by (unfold Zlength; lia). done. }
  cbn [mbind Result_bind]. rewrite fill_ones_spec.
  2:{ eapply Forall_impl; [exact Hr|]. cbn. intros r Hr0. rewrite <- Hm in Hr0.
      unfold Zlength in *. rewrite length_app. lia. }
  cbn [mbind Result_bind]. rewrite overwrite_app by (by rewrite Hm).
  eexists. split; [done|]. split; [done|]. split; [done|]. intros idx Hb.
  destruct (replicated_tile_lin sharding rep idx) as (Hbt & Hlin & Hprod); [done..|fold dims; by rewrite Hm|].
  split; [done|]. unfold device_of. cbn. destruct (lin_pad dims idx (length rep)) as [Hlp Hpp].
  { by apply Forall2_length in Hb. }
  rewrite <- Hlp, <- (Z.add_0_l (lin (_ ++ _) _)). apply tile_device_law; [|by apply in_bounds_pad|done| |exact Hlin].
  - unfold Zlength at 2. rewrite length_app, length_replicate.
    pose proof (moved_is_perm (Zlength dims) rep) as Hp. unfold Zlength in *.
    rewrite Nat2Z.inj_add. apply Hp; [lia|done|done].
  - by rewrite Hpp.
Qed.
End replication.

(** ** Resizing *)
Section resizing.
Context {HS D : Type} `{HloShardingApi HS} `{EqDecision D} `{DeviceListApi D}.
Implicit Types (sharding : HS) (shape : Shape).

(** Whether one of the sizes divides the other. *)
Definition resizable (src dst : Z) : Prop :=
  (src > dst -> Z.rem src dst = 0) /\ (src < dst -> Z.rem dst src = 0).

Lemma ResizeSharding_dim_OK shape sharding src dst st dim st' :
  ResizeSharding_dim shape sharding src dst st dim = OK st' ->
  exists old, 0 <= dim /\ ta_dimensions sharding !! Z.to_nat dim = Some old /\
    dim < Zlength (dimensions shape) /\
    ((st' = st /\ rs_matched st = false /\ ~ resizable src dst) \/
     (rs_guess st' = rs_guess st ++ [old] /\ rs_matched st' = rs_matched st) \/
     (exists s, dimensions shape !! Z.to_nat dim = Some s /\ rs_matched st = false /\
        rs_matched st' = true /\ resizable src dst /\ 1 < old /\
        0 < Z.quot (old * dst) src <= s /\
        rs_guess st' = rs_guess st ++ [Z.quot (old * dst) src])).
Proof.
  unfold ResizeSharding_dim. intros Hrun.
  apply Result_bind_OK in Hrun as (old & [Hd Hold]%vec_at_lookup & Hrun).
  apply Result_bind_OK in Hrun as (new & Hnew & Hrun).
  apply Result_bind_OK in Hrun as (s & [_ Hs]%vec_at_lookup & Hrun).
  exists old. split; [done|]. split; [done|].
  split; [apply lookup_lt_Some in Hs; unfold Zlength; lia|].
  apply cdiv_OK in Hnew as [Hsrc ->].
  assert (forall d m st', (if bool_decide (dim = ta_num_dimensions sharding - 1) &&
      ReplicateOnLastTileDim sharding then
      g ← vec_at (rs_guess st ++ [d]) dim;
      OK (MkResize (rs_guess st ++ [d]) m (rs_replicate st || bool_decide (g > 1)))
    else OK (MkResize (rs_guess st ++ [d]) m (rs_replicate st))) = OK st' ->
    rs_guess st' = rs_guess st ++ [d] /\ rs_matched st' = m) as Hadd.
  { intros d m st1 Hst1. destruct (bool_decide (dim = ta_num_dimensions sharding - 1) && _).
    - by apply Result_bind_OK in Hst1 as (g & _ & [= <-]).
    - by injection Hst1 as <-. }
  destruct (negb (rs_matched st) && _ && _ && _) eqn:Hcond; [|right; left; by apply Hadd].
  rewrite !andb_true_iff, negb_true_iff, !bool_decide_eq_true in Hcond.
  destruct Hcond as [[[Hm Ho] Hq] Hle].
  assert (forall st', resizable src dst ->
    rs_guess st' = rs_guess st ++ [Z.quot (old * dst) src] /\ rs_matched st' = true ->
    (st' = st /\ rs_matched st = false /\ ~ resizable src dst) \/
    (rs_guess st' = rs_guess st ++ [old] /\ rs_matched st' = rs_matched st) \/
    (exists s, dimensions shape !! Z.to_nat dim = Some s /\ rs_matched st = false /\
        rs_matched st' = true /\ resizable src dst /\ 1 < old /\
        0 < Z.quot (old * dst) src <= s /\
        rs_guess st' = rs_guess st ++ [Z.quot (old * dst) src])) as Hgood.
  { intros st1 Hres [Hg1 Hm1]. right. right. exists s. split_and!; done || lia. }
  destruct (bool_decide (src > dst)) eqn:Hgt;
    [apply bool_decide_eq_true in Hgt|apply bool_decide_eq_false in Hgt;
     destruct (bool_decide (src < dst)) eqn:Hlt;
       [apply bool_decide_eq_true in Hlt|apply bool_decide_eq_false in Hlt]].
  - apply Result_bind_OK in Hrun as (r & [_ ->]%cmod_OK & Hrun).
    destruct (decide (Z.rem src dst = 0)) as [Hz|Hz];
      [rewrite (bool_decide_eq_false_2 (Z.rem src dst <> 0)) in Hrun by tauto
      |rewrite (bool_decide_eq_true_2 (Z.rem src dst <> 0)) in Hrun by done]; swap 1 2.
    + left. split; [congruence|]. split; [done|]. by intros [Hr _]; apply Hr in Hgt.
    + apply Hgood; [split; [done|lia]|by apply Hadd].
  - apply Result_bind_OK in Hrun as (r & [_ ->]%cmod_OK & Hrun).
    destruct (decide (Z.rem dst src = 0)) as [Hz|Hz];
      [rewrite (bool_decide_eq_false_2 (Z.rem dst src <> 0)) in Hrun by tauto
      |rewrite (bool_decide_eq_true_2 (Z.rem dst src <> 0)) in Hrun by done]; swap 1 2.
    + left. split; [congruence|]. split; [done|]. by intros [_ Hr]; apply Hr in Hlt.
    + apply Hgood; [split; [lia|done]|by apply Hadd].
  - apply Hgood; [split; lia|by apply Hadd].
Qed.

(** A resized sharding differs from the old one in a single tile dimension, which
    is scaled by the ratio of the numbers of elements, one of which divides the
    other; it had more than one tile before, has at least one after, and no more
    than the dimension of the shape has elements. *)
Theorem ResizeSharding_one_dimension shape sharding num (devices : option D) hs :
  ResizeSharding shape sharding num devices = OK (Some hs) ->
  exists os (dim : nat) old s, FromProto os = OK hs /\
    ta_dimensions sharding !! dim = Some old /\ dimensions shape !! dim = Some s /\
    os_tile_assignment_dimensions os =
      <[dim := Z.quot (old * num) (ta_num_elements sharding)]> (ta_dimensions sharding) /\
    resizable (ta_num_elements sharding) num /\ 1 < old /\
    0 < Z.quot (old * num) (ta_num_elements sharding) <= s.
Proof.
  unfold ResizeSharding. case_match; [done|]. clear.
  intros (st & Hrun & Hst)%Result_bind_OK.
  destruct (rs_matched st) eqn:Hm; [|done].
  destruct (FromProto _) as [hs'| |] eqn:Hproto; [|done..]. injection Hst as ->.
  set (src := ta_num_elements sharding) in *. set (dims := ta_dimensions sharding) in *.
  apply (foldM_inv (fun done st =>
    (resizable src num -> rs_matched st = false -> rs_guess st = take (length done) dims) /\
    (rs_matched st = true -> exists (dim : nat) old s,
       dims !! dim = Some old /\ dimensions shape !! dim = Some s /\ (dim < length done)%nat /\
       rs_guess st = <[dim := Z.quot (old * num) src]> (take (length done) dims) /\
       resizable src num /\ 1 < old /\ 0 < Z.quot (old * num) src <= s))) in Hrun.
  - destruct Hrun as [_ Hall].
    destruct (Hall Hm) as (dim & old & s & Hold & Hs & _ & Hguess & Hres & Hold1 & Hnew).
    eexists _, dim, old, s. split; [exact Hproto|]. split_and!; try done; try lia.
    rewrite length_seqZ, take_ge in Hguess
      by (unfold ta_num_dimensions, Zlength, dims; lia).
    unfold resize_proto. by case_match.
  - done.
  - intros done x rest st1 st2 Heq [Hun Hma] Hstep.
    assert (x = Zlength done) as ->.
    { assert (seqZ 0 (ta_num_dimensions sharding) !! length done = Some x) as Hx
        by (rewrite Heq; by apply list_lookup_middle).
      apply lookup_seqZ in Hx as [-> _]. done. }
    apply ResizeSharding_dim_OK in Hstep as (old & _ & Hold & _ & Hcase).
    unfold Zlength in *. rewrite Nat2Z.id in *. fold dims in Hold. rewrite length_app. cbn [length].
    replace (length done + 1)%nat with (S (length done)) by lia.
    destruct Hcase as [(-> & Hf & Hnr)|[(Hg & Hsame)|(s & Hs & Hf & Ht & Hres & Ho & Hn & Hg)]].
    + split; [done|congruence].
    + rewrite Hsame. split.
      * intros Hres Hf. rewrite Hg, (Hun Hres Hf). by rewrite (take_S_r _ _ old).
      * intros Ht. destruct (Hma Ht) as (dim & old' & s & ? & ? & Hlt & Hg' & ?).
        exists dim, old', s. split_and!; try tauto; [lia|].
        rewrite Hg, Hg', (take_S_r _ _ old) by done. rewrite insert_app_l; [done|].
        apply lookup_lt_Some in Hold. rewrite length_take. lia.
    + split; [congruence|]. intros _. exists (length done), old, s. split_and!; try done; try lia.
      rewrite Hg, (Hun Hres Hf), (take_S_r _ _ old) by done.
      apply lookup_lt_Some in Hold as Hlt.
      rewrite insert_app_r_alt by (rewrite length_take; lia).
      rewrite length_take, Nat.min_l, Nat.sub_diag by lia. done.
Qed.

(** A sharding with more tile dimensions than the shape has dimensions, such as
    every sharding that is replicated along its last tile dimension, cannot be
    resized: the loop reads beyond the dimensions of the shape. *)
Theorem ResizeSharding_reads_beyond_rank shape sharding iota num (devices : option D) :
  ta_iota sharding = Some iota -> is_permuted (transpose_perm iota) = false ->
  (length (dimensions shape) < length (ta_dimensions sharding))%nat ->
  ~ is_OK (ResizeSharding shape sharding num devices).
Proof.
  intros Hiota Hperm Hlt. unfold ResizeSharding. rewrite Hiota, Hperm.
  intros [r (st & Hrun & _)%Result_bind_OK].
  assert (forall x, x ∈ seqZ 0 (ta_num_dimensions sharding) -> x < Zlength (dimensions shape))
    as Hall.
  { revert Hrun. apply (foldM_inv (fun done _ => forall x, x ∈ done -> x < Zlength (dimensions shape))).
    - set_solver.
    - intros done x rest st1 st2 _ Hall Hstep y [Hy|Hy]%elem_of_app; [by apply Hall|].
      apply list_elem_of_singleton in Hy as ->.
      apply ResizeSharding_dim_OK in Hstep as (_ & _ & _ & ? & _). done. }
  assert (Zlength (dimensions shape) < Zlength (dimensions shape)); [|lia].
  apply Hall, elem_of_seqZ. unfold ta_num_dimensions, Zlength. lia.
Qed.
End resizing.

(** ** Concrete shardings *)
Lemma ReplicateDims_devices_witness :
  let s := Tiles.iota_tile [2; 4; 3] in
  exists os, ReplicateDims [0; 2] s = FromProto os /\
    os_replicate_on_last_tile_dim os = true /\
    os_tile_assignment_dimensions os = replicated_tile_dims s [0; 2] /\
    forall idx, in_bounds [2; 4; 3] idx ->
      in_bounds (replicated_tile_dims s [0; 2]) (replicated_tile s [0; 2] idx) /\
      device_of os (replicated_tile s [0; 2] idx) = lin [2; 4; 3] idx.
Proof.
  cbv zeta.
  refine (ReplicateDims_devices (Tiles.iota_tile [2; 4; 3]) (MkIota [24] [0] 0 24) [0; 2]
            _ _ _ _ _ _ _ _).
  - reflexivity.
  - reflexivity.
  - reflexivity.
  - reflexivity.
  - discriminate.
  - apply (bool_decide_unpack _). by vm_compute.
  - repeat constructor; by vm_compute.
  - by vm_compute.
Defined.

(** Under a permutation that is not its own inverse the data moves: the device that
    holds tile (0, 0, 1, 0) of the old sharding holds, after dimension 1 is
    replicated, a tile with another index in the dimension that was not. *)
Theorem ReplicateDims_misplaces :
  exists (s s' : OpSharding) (idx idx' : list Z),
    s = MkOpSharding OTHER [3; 2; 2; 2] [] [2; 3; 2; 2] [1; 3; 0; 2] 0 false /\
    FromProto s = OK s /\ ReplicateDims [1] s = OK s' /\
    in_bounds (ta_dimensions s) idx /\ in_bounds (ta_dimensions s') idx' /\
    device_of s idx = device_of s' idx' /\ idx !! 3%nat <> idx' !! 3%nat.
Proof.
  eexists _, _, [0; 0; 1; 0], [0; 0; 1; 1; 0]. split; [done|].
  split; [by vm_compute|]. split; [by vm_compute|].
  cbn [ta_dimensions Tiles.api os_tile_assignment_dimensions].
  split; [repeat (constructor; [lia|]); constructor|].
  split; [repeat (constructor; [lia|]); constructor|]. split; [by vm_compute|done].
Qed.

(** The resizing test of mm_sharding_test.cc. *)
Lemma ResizeSharding_one_dimension_witness :
  let s := Tiles.iota_tile [2; 1; 2] in let shape := MkShape F32 [2; 8; 8] in
  exists hs os (dim : nat) old n, FromProto os = OK hs /\
    [2; 1; 2] !! dim = Some old /\ [2; 8; 8] !! dim = Some n /\
    os_tile_assignment_dimensions os = <[dim := Z.quot (old * 16) 4]> [2; 1; 2] /\
    resizable 4 16 /\ 1 < old /\ 0 < Z.quot (old * 16) 4 <= n.
Proof.
  cbv zeta. eexists.
  refine (ResizeSharding_one_dimension (MkShape F32 [2; 8; 8]) (Tiles.iota_tile [2; 1; 2]) 16
            (None : option Slice.t) _ _).
  by vm_compute.
Defined.

Lemma ResizeSharding_reads_beyond_rank_witness :
  ~ is_OK (ResizeSharding (MkShape F32 [8]) (MkOpSharding OTHER [2; 2] [] [4] [0] 0 true) 8
             (None : option Slice.t)).
Proof.
  refine (ResizeSharding_reads_beyond_rank (MkShape F32 [8])
            (MkOpSharding OTHER [2; 2] [] [4] [0] 0 true) (MkIota [4] [0] 0 4) 8 None _ _ _).
  - reflexivity.
  - reflexivity.
  - cbn. lia.
Defined.
