(* ===== verification/Utils.v ===== *)
(** * Helpers of the passes (mpmd_utils.h, mpmd_utils.cc)

    The functions of mpmd_utils.cc that read an HLO graph: looking through tuples
    and calls, device lists, weights, depth and topological index of instructions.
    Functions that follow operands recursively take fuel; [Fatal Diverges] is the
    result when it runs out. *)
From S2P Require Import Prelude Hlo Sharding.
Local Open Scope Z_scope.

Definition kCustomCallArgumentRecolor : string := "ArgumentRecolor".
Definition kCustomCallReshard : string := "Reshard".
Definition kCustomCallSliceOffset : string := "SliceOffset".
Definition kCustomCallRootTupleRecolor : string := "RootTupleRecolor".
Definition kCustomCallDummyOperation : string := "DummyOperation".
Definition kCustomCallSharding : string := "Sharding".
Definition kCustomCallUnpackedOptimizationBarrier : string := "UnpackedOptimizationBarrier".

Definition kNoOpCustomCalls : list string :=
  [kCustomCallReshard; kCustomCallSharding; kCustomCallArgumentRecolor;
   "SPMDFullToShardShape"; "SPMDShardToFullShape"].

(** [GetEnvOption]: the environment is a function, [atoi] a parameter. *)
Definition GetEnvOption_bool (getenv : string -> option string) (atoi : string -> Z)
    (name : string) (deflt : bool) : bool :=
  match getenv name with Some env => negb (atoi env =? 0) | None => deflt end.
Definition GetEnvOption_int (getenv : string -> option string) (atoi : string -> Z)
    (name : string) (deflt : Z) : Z :=
  match getenv name with Some env => atoi env | None => deflt end.
Definition GetEnvOption_string (getenv : string -> option string)
    (name deflt : string) : string :=
  match getenv name with Some env => env | None => deflt end.

Section sharding_queries.
Context {HS : Type} `{HloShardingApi HS}.

(** An instruction is given by its sharding, if it has one. *)
Definition IsReplicatedOrNotSharded (sharding : option HS) : bool :=
  match sharding with
  | None => true
  | Some s => IsReplicated s || IsManual s || IsTileMaximal s
  end.

Definition ShardingHasTileAssignment (sharding : option HS) : bool :=
  match sharding with
  | None => false
  | Some s => negb (IsReplicated s || IsManual s || IsTuple s || IsTileMaximal s)
  end.
End sharding_queries.

(** ** Device lists *)
Section device_lists.
Context {HS D : Type} `{HloShardingApi HS} `{DeviceListApi D}.

(** Whether some device is smaller than the one before it. *)
Fixpoint has_descent (prev : Z) (devices : list Z) : bool :=
  match devices with
  | [] => false
  | d :: devices => bool_decide (d < prev) || has_descent d devices
  end.

(** [devices.front()] of an empty vector is undefined. *)
Definition CreateDeviceList (devices : list Z) : Result D :=
  match devices with
  | [] => Fatal OutOfBounds
  | d :: rest =>
      if has_descent d rest then Err kUnimplemented "non-contiguous device lists not yet supported"
      else OK (dl_create d (Zlength devices))
  end.

Definition CreateDeviceList_tiles (sharding : HS) : Result D :=
  match ta_iota sharding with
  | Some iota => OK (dl_create (iota_offset iota) (iota_num_elements iota))
  | None =>
      let first_device := ta_first sharding in
      if consecutive (first_device - 1) (ta_array sharding) then
        let last_device := default (first_device - 1) (last (ta_array sharding)) + 1 in
        OK (dl_create first_device (last_device - first_device))
      else Err kUnimplemented "non-iota tile assignments not yet supported for DeviceList"
  end.
End device_lists.

Definition DimensionProduct (dims : list Z) : Z := foldl Z.mul 1 dims.

Definition AllowOverride (index : Z) (override : list bool) : Result bool :=
  if bool_decide (Zlength override > index) then vec_at override index
  else if bool_decide (override = []) then OK false
  else vec_at override 0.

Section graph.
Context {I C : Type} `{EqDecision I, !Countable I} `{!Hlo I C}.
Implicit Types (i : I) (c : C).

(** ** Looking through tuples, calls and custom calls *)

Definition GetTupleOrComputationAlias i : Result (option I) :=
  if bool_decide (opcode i = kGetTupleElement) then
    o ← operand i 0;
    match opcode o with
    | kTuple => a ← operand o (tuple_index i); OK (Some a)
    | kParameter => OK None
    | kCall | kWhile =>
        c ← called_computation o 0;
        a ← operand (root_instruction c) (tuple_index i); OK (Some a)
    | kOptimizationBarrier =>
        t ← operand o 0; a ← operand t (tuple_index i); OK (Some a)
    | _ => OK None
    end
  else match opcode i with
       | kCall | kWhile => c ← called_computation i 0; OK (Some (root_instruction c))
       | _ => OK None
       end.

Fixpoint UnwrapCustomCall (fuel : nat) i : Result I :=
  match fuel with
  | O => Fatal Diverges
  | S fuel => if bool_decide (opcode i = kCustomCall) then UnwrapCustomCall fuel i else OK i
  end.

Definition GetComputationRootTuplePartner (gte : I) c : Result I :=
  operand (root_instruction c) (tuple_index gte).

Definition GetTupleElement (tuple : I) (index : Z) : option I :=
  snd <$> list_find (fun user => tuple_index user = index) (users tuple).

(** Follows custom calls to their first operand, as long as [i] itself is one
    without effect, to an element of a parameter. *)
Fixpoint DealiasLoopInput_loop (fuel : nat) i (o : I) : Result (option I) :=
  match fuel with
  | O => Fatal Diverges
  | S fuel =>
      if bool_decide (opcode o = kCustomCall) &&
         bool_decide (custom_call_target i ∈ kNoOpCustomCalls) then
        next ← operand o 0; DealiasLoopInput_loop fuel i next
      else if bool_decide (opcode o = kGetTupleElement) then
        p ← operand o 0;
        OK (if bool_decide (opcode p = kParameter) then Some o else None)
      else OK None
  end.

Definition DealiasLoopInput (fuel : nat) i : Result (option I) := DealiasLoopInput_loop fuel i i.

(** ** Weights, depths and topological indices *)

Fixpoint OperandWeight (fuel : nat) i : Result Z :=
  match fuel with
  | O => Fatal Diverges
  | S fuel =>
      if bool_decide (opcode i = kBroadcast) then o ← operand i 0; OperandWeight fuel o
      else OK (ElementsIn i)
  end.

(** [depth[x]] of a hash map inserts 0 for a missing key. *)
Definition depth_at (depth : gmap I Z) i : Z := default 0 (depth !! i).

(** The bodies of the loops over the instructions and over their operands. *)
Definition depth_operand i (depth : gmap I Z) o : gmap I Z :=
  <[i := Z.max (depth_at depth i) (depth_at depth o + 1)]> (<[o := depth_at depth o]> depth).

Definition depth_step (depth : gmap I Z) i : gmap I Z :=
  foldl (depth_operand i) (<[i := 0]> depth) (operands i).

Definition ComputeDepthMap c : gmap I Z := foldl depth_step ∅ (MakeInstructionPostOrder c).

Definition CreateTopologicalIndexMap c : gmap I Z :=
  foldl (fun (m : gmap I Z) '(n, i) => <[i := n]> m) ∅
    (zip (seqZ 0 (Zlength (MakeInstructionPostOrder c))) (MakeInstructionPostOrder c)).
End graph.

(** ** Properties *)
Section graph_properties.
Context {I C : Type} `{EqDecision I, !Countable I} `{!Hlo I C, !PostOrderLaws I C}.
Implicit Types (i o : I) (c : C).

(** The depth that the operands of an instruction give it. *)
Definition depth_of (m : gmap I Z) i : Z :=
  foldr Z.max 0 ((fun o => depth_at m o + 1) <$> operands i).

Lemma foldr_max_nonneg l : 0 <= foldr Z.max 0 l.
Proof. induction l as [|x l IH]; cbn [foldr]; lia. Qed.

Lemma foldr_max_le x l : x ∈ l -> x <= foldr Z.max 0 l.
Proof. induction 1; cbn [foldr]; lia. Qed.

Lemma depth_step_lookup m i :
  i ∉ operands i -> (forall o, o ∈ operands i -> is_Some (m !! o)) ->
  (forall j, j <> i -> depth_step m i !! j = m !! j) /\ depth_step m i !! i = Some (depth_of m i).
Proof.
  intros Hself Hops. unfold depth_step, depth_of.
  assert (forall ops (acc : gmap I Z) d, (forall o, o ∈ ops -> o <> i /\ is_Some (m !! o)) ->
    (forall j, j <> i -> acc !! j = m !! j) -> acc !! i = Some d ->
    (forall j, j <> i -> foldl (depth_operand i) acc ops !! j = m !! j) /\
    foldl (depth_operand i) acc ops !! i = Some (Z.max d (foldr Z.max d ((fun o => depth_at m o + 1) <$> ops)))) as Hgen.
  { induction ops as [|o ops IH]; intros acc d Ho Hj Hi; cbn [foldl].
    - split; [done|]. cbn. rewrite Z.max_id. done.
    - destruct (Ho o) as [Hoi [x Hx]]; [set_solver|].
      assert (depth_at acc o = depth_at m o) as Hd by (unfold depth_at; by rewrite Hj).
      assert (depth_at acc i = d) as Hdi by (unfold depth_at; by rewrite Hi).
      destruct (IH (<[i:=Z.max d (depth_at m o + 1)]> (<[o:=depth_at m o]> acc))
                  (Z.max d (depth_at m o + 1))) as [Hj' Hi'].
      + set_solver.
      + intros j Hne. rewrite lookup_insert_ne by done.
        destruct (decide (j = o)) as [->|Hjo].
        * rewrite lookup_insert_eq. unfold depth_at. by rewrite Hx.
        * rewrite lookup_insert_ne by done. by apply Hj.
      + by rewrite lookup_insert_eq.
      + unfold depth_operand at 2 4. rewrite Hd, Hdi. split; [done|]. rewrite Hi'. f_equal.
        cbn [fmap list_fmap foldr].
        assert (forall l d e, Z.max (Z.max d e) (foldr Z.max (Z.max d e) l) =
                              Z.max d (Z.max e (foldr Z.max d l))) as Hmax.
        { clear. induction l as [|x l IHl]; intros d e; cbn; [lia|]. specialize (IHl d e). lia. }
        apply Hmax. }
  destruct (Hgen (operands i) (<[i := 0]> m) 0) as [Hj Hi].
  - intros o Ho. split; [by intros ->|by apply Hops].
  - intros j Hj. by rewrite lookup_insert_ne.
  - by rewrite lookup_insert_eq.
  - split; [done|]. rewrite Hi. f_equal.
    pose proof (foldr_max_nonneg ((fun o => depth_at m o + 1) <$> operands i)). lia.
Qed.

Lemma depth_of_ext m1 m2 i :
  (forall o, o ∈ operands i -> m1 !! o = m2 !! o) -> depth_of m1 i = depth_of m2 i.
Proof.
  intros Hext. unfold depth_of. f_equal. apply list_fmap_ext.
  intros k o Hk%list_elem_of_lookup_2. unfold depth_at. by rewrite Hext.
Qed.

(** The depth of an instruction is 0 without operands and otherwise one more than
    the largest depth of its operands: the length of a longest path to it. *)
Theorem ComputeDepthMap_spec c i :
  i ∈ MakeInstructionPostOrder c ->
  ComputeDepthMap c !! i = Some (depth_of (ComputeDepthMap c) i) /\
  (forall o, o ∈ operands i -> depth_at (ComputeDepthMap c) o < depth_at (ComputeDepthMap c) i).
Proof.
  assert (forall l done m, MakeInstructionPostOrder c = done ++ l ->
    (forall j, j ∈ done -> m !! j = Some (depth_of m j)) ->
    forall j, j ∈ done ++ l -> foldl depth_step m l !! j = Some (depth_of (foldl depth_step m l) j))
    as Hgen.
  { induction l as [|x l IH]; intros done m Heq Hdone j Hj; cbn [foldl].
    - rewrite app_nil_r in Hj. by apply Hdone.
    - assert (MakeInstructionPostOrder c !! length done = Some x) as Hx
        by (rewrite Heq; by apply list_lookup_middle).
      pose proof (postorder_NoDup c) as Hnd.
      assert (forall k o, MakeInstructionPostOrder c !! k = Some o -> (k < length done)%nat ->
                o ∈ done) as Hin.
      { intros k o Hk Hlt. rewrite Heq, lookup_app_l in Hk by done. by eapply list_elem_of_lookup_2. }
      assert (forall o, o ∈ operands x -> o ∈ done) as Hops.
      { intros o Ho. destruct (postorder_operands c _ _ _ Hx Ho) as (k & Hk & Hlook). by eapply Hin. }
      rewrite Heq in Hnd. apply NoDup_app in Hnd as (_ & Hdisj & Hndl).
      assert (x ∉ done) as Hxd by (intros Hxd; apply (Hdisj x Hxd); set_solver).
      destruct (depth_step_lookup m x) as [Hsame Hnew].
      { intros Hself. by apply Hxd, Hops. }
      { intros o Ho. exists (depth_of m o). by apply Hdone, Hops. }
      apply (IH (done ++ [x])); [by rewrite <- app_assoc| |by rewrite <- app_assoc].
      intros k [Hk|Hk%list_elem_of_singleton]%elem_of_app.
      + rewrite Hsame by (intros ->; done). rewrite (Hdone k Hk). f_equal. apply depth_of_ext.
        intros o Ho. rewrite Hsame; [done|]. intros ->.
        apply list_elem_of_lookup in Hk as [n Hn].
        assert (MakeInstructionPostOrder c !! n = Some k) as Hn'
          by (rewrite Heq; by apply lookup_app_l_Some).
        destruct (postorder_operands c _ _ _ Hn' Ho) as (n' & Hlt & Hn'').
        apply Hxd. eapply Hin; [exact Hn''|]. apply lookup_lt_Some in Hn. lia.
      + subst k. rewrite Hnew. f_equal. apply depth_of_ext.
        intros o Ho. rewrite Hsame; [done|]. intros ->. by apply Hxd, Hops. }
  intros Hi. assert (ComputeDepthMap c !! i = Some (depth_of (ComputeDepthMap c) i)) as Hd.
  { apply (Hgen (MakeInstructionPostOrder c) [] ∅); [done|set_solver|done]. }
  split; [done|]. intros o Ho. set (m := ComputeDepthMap c) in *.
  assert (depth_at m i = depth_of m i) as -> by (unfold depth_at; by rewrite Hd).
  unfold depth_of.
  assert (depth_at m o + 1 ∈ (fun o => depth_at m o + 1) <$> operands i) as Hin
    by (apply list_elem_of_fmap; by exists o).
  pose proof (foldr_max_le _ _ Hin). lia.
Qed.

(** The topological index of an instruction is its position in the post order, and
    operands have smaller indices. *)
Theorem CreateTopologicalIndexMap_spec c i n :
  CreateTopologicalIndexMap c !! i = Some n <->
  0 <= n /\ MakeInstructionPostOrder c !! Z.to_nat n = Some i.
Proof.
  unfold CreateTopologicalIndexMap. set (l := MakeInstructionPostOrder c).
  assert (forall (l : list I) base (m : gmap I Z), NoDup l -> (forall j, j ∈ l -> m !! j = None) ->
    forall i n, foldl (fun (m : gmap I Z) '(n, i) => <[i := n]> m) m
              (zip (seqZ base (Zlength l)) l) !! i = Some n <->
           m !! i = Some n \/ (base <= n /\ l !! Z.to_nat (n - base) = Some i)) as Hgen.
  { clear. induction l as [|x l IH]; intros base m Hnd Hm i n.
    - cbn. naive_solver.
    - rewrite (seqZ_cons base) by (unfold Zlength; cbn; lia). cbn [zip zip_with foldl].
      replace (Zlength (x :: l) - 1) with (Zlength l) by (unfold Zlength; cbn; lia).
      replace (Z.pred (Zlength (x :: l))) with (Zlength l) by (unfold Zlength; cbn; lia).
      apply NoDup_cons in Hnd as [Hx Hnd].
      rewrite IH; [|done|]; replace (Z.succ base) with (base + 1) by lia.
      2:{ intros j Hj. rewrite lookup_insert_ne by set_solver. apply Hm. set_solver. }
      destruct (decide (n = base)) as [->|Hn].
      + rewrite Z.sub_diag. cbn [Z.to_nat lookup list_lookup].
        split.
        * intros [Hi|[? _]]; [|lia]. apply lookup_insert_Some in Hi as [[<- _]|[_ Hi]]; [|by left].
          right. done.
        * intros [Hi|[_ [= ->]]]; left; [|by rewrite lookup_insert_eq].
          rewrite lookup_insert_ne; [done|]. intros ->. by rewrite Hm in Hi by set_solver.
      + assert (forall k, base < k -> (x :: l) !! Z.to_nat (k - base) = l !! Z.to_nat (k - (base + 1)))
          as Hshift.
        { intros k Hk. replace (Z.to_nat (k - base)) with (S (Z.to_nat (k - (base + 1)))) by lia. done. }
        split.
        * intros [Hi|[Hb Hi]].
          -- apply lookup_insert_Some in Hi as [[_ ->]|[_ Hi]]; [done|by left].
          -- right. split; [lia|]. by rewrite Hshift by lia.
        * intros [Hi|[Hb Hi]].
          -- left. rewrite lookup_insert_ne; [done|]. intros ->. by rewrite Hm in Hi by set_solver.
          -- right. split; [lia|]. by rewrite <- Hshift by lia. }
  rewrite (Hgen l 0 ∅); [|apply postorder_NoDup|by intros; rewrite lookup_empty].
  rewrite Z.sub_0_r. rewrite lookup_empty. naive_solver.
Qed.
End graph_properties.

(** A custom call unwraps to itself: the recursion never ends. *)
Theorem UnwrapCustomCall_custom_call {I C : Type} `{!Hlo I C} (i : I) (fuel : nat) :
  UnwrapCustomCall fuel i = if decide (fuel = 0%nat \/ opcode i = kCustomCall)
                            then Fatal Diverges else OK i.
Proof.
  induction fuel as [|fuel IH]; cbn; [done|]. case_bool_decide as Hc.
  - rewrite IH. by rewrite !decide_True by auto.
  - rewrite decide_False; [done|]. by intros [?|?].
Qed.

(** Operands have lower rank, so a weight is found with fuel above the rank, and it
    is the weight of the first operand of the chain that is not a broadcast. *)
Lemma OperandWeight_terminates {I C : Type} `{!Hlo I C, !AcyclicLaws I C} (i : I) (fuel : nat) :
  (operand_rank i < fuel)%nat -> OperandWeight fuel i <> Fatal Diverges.
Proof.
  revert i. induction fuel as [|fuel IH]; intros i Hf; [lia|]. cbn.
  case_bool_decide; [|done]. destruct (operand i 0) as [o| |k] eqn:Ho; cbn; [|done|].
  - apply IH. unfold operand in Ho. apply vec_at_lookup in Ho as [_ Ho%list_elem_of_lookup_2].
    apply operand_rank_lt in Ho. lia.
  - unfold operand, vec_at in Ho. intros [= ->]. case_bool_decide; [done|].
    by destruct (operands i !! Z.to_nat 0).
Qed.

Lemma has_descent_sorted prev devices :
  has_descent prev devices = false -> Sorted Z.le (prev :: devices).
Proof.
  revert prev. induction devices as [|d devices IH]; intros prev; cbn.
  - intros _. by repeat constructor.
  - intros [Hd Hrest]%orb_false_iff. apply bool_decide_eq_false in Hd.
    constructor; [by apply IH|]. constructor. lia.
Qed.

(** A device list is created exactly for a vector of devices that does not decrease;
    it is the range of as many devices from the first one on, whatever the gaps. *)
Theorem CreateDeviceList_spec {D : Type} `{DeviceListLaws D} (devices : list Z) (d : D) :
  CreateDeviceList devices = OK d ->
  StronglySorted Z.le devices /\ dl_size d = Zlength devices /\ head devices = Some (dl_start d).
Proof.
  destruct devices as [|x rest]; cbn [CreateDeviceList]; [done|].
  destruct (has_descent x rest) eqn:Hdesc; [done|]. intros [= <-].
  rewrite dl_size_create, dl_start_create. split; [|done].
  apply Sorted_StronglySorted; [intros a b c; lia|]. by apply has_descent_sorted.
Qed.

(** The error message says that only contiguous devices are supported, but a gap is
    accepted, and the list then holds a device that was not asked for. *)
Theorem CreateDeviceList_accepts_gap {D : Type} `{DeviceListLaws D} :
  exists d : D, CreateDeviceList [0; 2] = OK d /\ dl_at d 1 = 1.
Proof.
  exists (dl_create 0 2). split; [done|].
  rewrite dl_at_def; [by rewrite dl_start_create|]. rewrite dl_size_create. lia.
Qed.

(** ** Evaluations on a concrete module *)
Module Sample.
Definition nodes : list Graph.node :=
  [Graph.op kParameter []; Graph.op kParameter []; Graph.op kAdd [0; 1]%nat;
   Graph.op kNegate [2]%nat; Graph.op kAdd [3; 0]%nat].
Definition comps : list Graph.comp := [Graph.Comp 4 [0; 1]%nat [0; 1; 2; 3; 4]%nat].
#[global] Instance hlo : Hlo nat nat := Graph.hlo nodes comps.
#[global] Instance postorder : PostOrderLaws nat nat := Graph.postorder_laws nodes comps eq_refl.
#[global] Instance acyclic : AcyclicLaws nat nat := Graph.acyclic_laws nodes comps eq_refl.
End Sample.

Lemma ComputeDepthMap_spec_witness :
  let m := ComputeDepthMap (Hlo0 := Sample.hlo) 0%nat in
  m !! 4%nat = Some (depth_of m 4%nat) /\ m !! 4%nat = Some 3.
Proof.
  split; [|reflexivity].
  refine (proj1 (ComputeDepthMap_spec 0%nat 4%nat _)).
  apply (bool_decide_eq_true_1 (4%nat ∈ [0; 1; 2; 3; 4]%nat)). reflexivity.
Defined.

Lemma CreateTopologicalIndexMap_spec_witness :
  CreateTopologicalIndexMap (Hlo0 := Sample.hlo) 0%nat !! 3%nat = Some 3.
Proof.
  refine (proj2 (CreateTopologicalIndexMap_spec 0%nat 3%nat 3) _). split; [lia|reflexivity].
Defined.

Lemma CreateDeviceList_spec_witness :
  StronglySorted Z.le [2; 3; 4] /\ dl_size (Slice.mk 2 3) = Zlength [2; 3; 4] /\
  head [2; 3; 4] = Some (dl_start (Slice.mk 2 3)).
Proof. exact (CreateDeviceList_spec [2; 3; 4] (Slice.mk 2 3) eq_refl). Defined.

Lemma CreateDeviceList_accepts_gap_witness :
  exists d : Slice.t, CreateDeviceList [0; 2] = OK d /\ dl_at d 1 = 1.
Proof. exact CreateDeviceList_accepts_gap. Defined.
