(* ===== verification/InstructionProperties.v ===== *)
(** * Instruction properties (class InstructionProperties of mpmd_utils.cc)

    For every instruction an [Entry]: whether it derives from constants or
    parameters, its aliases across calls and loops, and how it is connected to the
    outputs.  The entries are a finite map; [entries_[i]] inserts a default entry,
    and references into the map are taken to stay valid.  The two passes recurse
    over the computations that are called, with fuel for the depth of calls. *)
From S2P Require Import Prelude Hlo Utils.
Local Open Scope Z_scope.

Record Entry (I : Type) := MkEntry {
  derived_constant : bool;
  derived_parameter : bool;
  allow_recomputation : bool;
  parameter_copy : bool;
  forward_alias : option I;
  backward_alias : option I;
  parameter_number : option Z;
  loop_carried_index : option Z;
  loop_parameter_index : option Z;
  elementwise_connected_to_entry_output : option I;
  equivalent_to_while_output : option I;
  additive_to_while_input : list I;
  loop_carried_initializer : option I;
}.
Arguments MkEntry {_} _ _ _ _ _ _ _ _ _ _ _ _ _.
Arguments derived_constant {_} _. Arguments derived_parameter {_} _.
Arguments allow_recomputation {_} _. Arguments parameter_copy {_} _.
Arguments forward_alias {_} _. Arguments backward_alias {_} _.
Arguments parameter_number {_} _. Arguments loop_carried_index {_} _.
Arguments loop_parameter_index {_} _.
Arguments elementwise_connected_to_entry_output {_} _.
Arguments equivalent_to_while_output {_} _. Arguments additive_to_while_input {_} _.
Arguments loop_carried_initializer {_} _.

(** Assignments to single fields. *)
Section setters.
Context {I : Type}.
Implicit Types (e : Entry I).

Definition set_derived_constant b e := MkEntry b (derived_parameter e) (allow_recomputation e)
  (parameter_copy e) (forward_alias e) (backward_alias e) (parameter_number e)
  (loop_carried_index e) (loop_parameter_index e) (elementwise_connected_to_entry_output e)
  (equivalent_to_while_output e) (additive_to_while_input e) (loop_carried_initializer e).
Definition set_derived_parameter b e := MkEntry (derived_constant e) b (allow_recomputation e)
  (parameter_copy e) (forward_alias e) (backward_alias e) (parameter_number e)
  (loop_carried_index e) (loop_parameter_index e) (elementwise_connected_to_entry_output e)
  (equivalent_to_while_output e) (additive_to_while_input e) (loop_carried_initializer e).
Definition set_allow_recomputation b e := MkEntry (derived_constant e) (derived_parameter e) b
  (parameter_copy e) (forward_alias e) (backward_alias e) (parameter_number e)
  (loop_carried_index e) (loop_parameter_index e) (elementwise_connected_to_entry_output e)
  (equivalent_to_while_output e) (additive_to_while_input e) (loop_carried_initializer e).
Definition set_parameter_copy b e := MkEntry (derived_constant e) (derived_parameter e)
  (allow_recomputation e) b (forward_alias e) (backward_alias e) (parameter_number e)
  (loop_carried_index e) (loop_parameter_index e) (elementwise_connected_to_entry_output e)
  (equivalent_to_while_output e) (additive_to_while_input e) (loop_carried_initializer e).
Definition set_forward_alias a e := MkEntry (derived_constant e) (derived_parameter e)
  (allow_recomputation e) (parameter_copy e) a (backward_alias e) (parameter_number e)
  (loop_carried_index e) (loop_parameter_index e) (elementwise_connected_to_entry_output e)
  (equivalent_to_while_output e) (additive_to_while_input e) (loop_carried_initializer e).
Definition set_backward_alias a e := MkEntry (derived_constant e) (derived_parameter e)
  (allow_recomputation e) (parameter_copy e) (forward_alias e) a (parameter_number e)
  (loop_carried_index e) (loop_parameter_index e) (elementwise_connected_to_entry_output e)
  (equivalent_to_while_output e) (additive_to_while_input e) (loop_carried_initializer e).
Definition set_parameter_number n e := MkEntry (derived_constant e) (derived_parameter e)
  (allow_recomputation e) (parameter_copy e) (forward_alias e) (backward_alias e) n
  (loop_carried_index e) (loop_parameter_index e) (elementwise_connected_to_entry_output e)
  (equivalent_to_while_output e) (additive_to_while_input e) (loop_carried_initializer e).
Definition set_loop_carried_index n e := MkEntry (derived_constant e) (derived_parameter e)
  (allow_recomputation e) (parameter_copy e) (forward_alias e) (backward_alias e)
  (parameter_number e) n (loop_parameter_index e) (elementwise_connected_to_entry_output e)
  (equivalent_to_while_output e) (additive_to_while_input e) (loop_carried_initializer e).
Definition set_loop_parameter_index n e := MkEntry (derived_constant e) (derived_parameter e)
  (allow_recomputation e) (parameter_copy e) (forward_alias e) (backward_alias e)
  (parameter_number e) (loop_carried_index e) n (elementwise_connected_to_entry_output e)
  (equivalent_to_while_output e) (additive_to_while_input e) (loop_carried_initializer e).
Definition set_elementwise o e := MkEntry (derived_constant e) (derived_parameter e)
  (allow_recomputation e) (parameter_copy e) (forward_alias e) (backward_alias e)
  (parameter_number e) (loop_carried_index e) (loop_parameter_index e) o
  (equivalent_to_while_output e) (additive_to_while_input e) (loop_carried_initializer e).
Definition set_equivalent o e := MkEntry (derived_constant e) (derived_parameter e)
  (allow_recomputation e) (parameter_copy e) (forward_alias e) (backward_alias e)
  (parameter_number e) (loop_carried_index e) (loop_parameter_index e)
  (elementwise_connected_to_entry_output e) o (additive_to_while_input e)
  (loop_carried_initializer e).
Definition set_additive l e := MkEntry (derived_constant e) (derived_parameter e)
  (allow_recomputation e) (parameter_copy e) (forward_alias e) (backward_alias e)
  (parameter_number e) (loop_carried_index e) (loop_parameter_index e)
  (elementwise_connected_to_entry_output e) (equivalent_to_while_output e) l
  (loop_carried_initializer e).
Definition set_initializer o e := MkEntry (derived_constant e) (derived_parameter e)
  (allow_recomputation e) (parameter_copy e) (forward_alias e) (backward_alias e)
  (parameter_number e) (loop_carried_index e) (loop_parameter_index e)
  (elementwise_connected_to_entry_output e) (equivalent_to_while_output e)
  (additive_to_while_input e) o.

Definition default_entry : Entry I :=
  MkEntry false false true false None None None None None None None [] None.

(** [target.CopyFromAlias(entry)] keeps the aliases of the target. *)
Definition CopyFromAlias (target entry : Entry I) : Entry I :=
  MkEntry (derived_constant entry) (derived_parameter entry) (allow_recomputation entry)
    (parameter_copy entry) (forward_alias target) (backward_alias target)
    (parameter_number entry) (loop_carried_index entry) (loop_parameter_index entry)
    (elementwise_connected_to_entry_output entry) (equivalent_to_while_output entry)
    (additive_to_while_input entry) (loop_carried_initializer entry).
End setters.

Section properties.
Context {I C : Type} `{EqDecision I, !Countable I} `{!Hlo I C}.
Abbreviation Entries := (gmap I (Entry I)).
Implicit Types (i o : I) (c : C) (es : Entries).

(** The value of [entries_[i]], the insertion it makes, and an update through it. *)
Definition entry_of es i : Entry I := default default_entry (es !! i).
Definition touch i es : Entries := <[i := entry_of es i]> es.
Definition upd (f : Entry I -> Entry I) i es : Entries := <[i := f (entry_of es i)]> es.

(** ** Queries *)

Definition Get es i : Result (Entry I) := of_option LogFatal (es !! i).

Definition AllowRecomputation es i : Result bool := e ← Get es i; OK (allow_recomputation e).
Definition ForwardAlias es i : Result (option I) := e ← Get es i; OK (forward_alias e).
Definition BackwardAlias es i : Result (option I) := e ← Get es i; OK (backward_alias e).
Definition ParameterNumber es i : Result (option Z) := e ← Get es i; OK (parameter_number e).
Definition ParameterAlias es i : Result bool :=
  e ← Get es i; OK (bool_decide (is_Some (parameter_number e))).
Definition ParameterCopy es i : Result bool := e ← Get es i; OK (parameter_copy e).
Definition DerivedConstant es i : Result bool := e ← Get es i; OK (derived_constant e).
Definition DerivedParameter es i : Result bool := e ← Get es i; OK (derived_parameter e).
Definition DerivedInput es i : Result bool :=
  e ← Get es i; OK (derived_parameter e || derived_constant e).

(** The instructions that [ForEachBackwardAlias] and [ForEachForwardAlias] visit;
    a chain without a cycle has at most as many links as there are entries. *)
Fixpoint alias_chain (missing : FatalKind) (link : Entry I -> option I) (fuel : nat) es i
    : Result (list I) :=
  match fuel with
  | O => Fatal Diverges
  | S fuel =>
      e ← of_option missing (es !! i);
      match link e with
      | None => OK []
      | Some a => rest ← alias_chain missing link fuel es a; OK (a :: rest)
      end
  end.

Definition ForEachBackwardAlias es i : Result (list I) :=
  alias_chain CheckFailed backward_alias (S (size es)) es i.
Definition ForEachForwardAlias es i : Result (list I) :=
  alias_chain CheckFailed forward_alias (S (size es)) es i.
Definition ForEachAlias es i : Result (list I) :=
  b ← ForEachBackwardAlias es i; f ← ForEachForwardAlias es i; OK (b ++ f).
Definition ForEachBackwardAliasAndSelf es i : Result (list I) :=
  b ← ForEachBackwardAlias es i; OK (i :: b).
Definition ForEachForwardAliasAndSelf es i : Result (list I) :=
  f ← ForEachForwardAlias es i; OK (i :: f).
Definition ForEachAliasAndSelf es i : Result (list I) :=
  b ← ForEachBackwardAlias es i; f ← ForEachForwardAlias es i; OK (i :: b ++ f).

(** [Operands] and [Users] look through the aliases. *)
Definition Operands es i : Result (list I) :=
  b ← alias_chain LogFatal backward_alias (S (size es)) es i; OK (operands (default i (last b))).
Definition Users es i : Result (list I) :=
  f ← alias_chain LogFatal forward_alias (S (size es)) es i; OK (users (default i (last f))).

(** ** Updates *)

Definition AddBackwardAlias i (alias : I) es : Entries :=
  upd (set_backward_alias (Some alias)) i (touch alias es).
Definition AddForwardAlias i (alias : I) es : Entries :=
  upd (set_forward_alias (Some alias)) i (touch alias es).
Definition AddDefaultProperties i es : Entries := touch i es.

Definition Add es (other : list (I * Entry I)) : Entries :=
  foldl (fun es '(i, e) => upd (fun target => CopyFromAlias target e) i es) es other.

Definition Clone es (source target : I) : Entries :=
  let es := touch source es in
  <[target := CopyFromAlias default_entry (entry_of es source)]> es.

(** ** The forward pass *)

(** [entries_.at(i)] *)
Definition at_entry es i : Result (Entry I) := of_option Thrown (es !! i).

(** Transposes, broadcasts, reshapes and converts derive from their operand. *)
Definition forward_derived i es : Result Entries :=
  o ← operand i 0;
  let es := touch o es in
  let operand_prop := entry_of es o in
  OK (upd (fun p => set_derived_parameter (derived_parameter operand_prop)
                      (set_derived_constant (derived_constant operand_prop) p)) i es).

(** The parameters of a called computation alias the operands of the call. *)
Definition forward_call_parameter i c es (parameter_number : Z) : Result Entries :=
  inner_param ← vec_at (parameter_instructions c) parameter_number;
  input_alias ← operand i parameter_number;
  let es := touch input_alias es in
  OK (<[inner_param := set_backward_alias (Some input_alias)
          (CopyFromAlias default_entry (entry_of es input_alias))]> es).

(** The users of a call alias the roots of the called computation. *)
Definition forward_call_user (root : I) es (user : I) : Result Entries :=
  matching_root ← operand root (tuple_index user);
  let es := touch user es in
  _ ← at_entry es matching_root;
  let es := upd (set_forward_alias (Some user)) matching_root es in
  OK (upd (set_backward_alias (Some matching_root)) user es).

Definition forward_call (rec : C -> Entries -> Result Entries) i es : Result Entries :=
  c ← called_computation i 0;
  es ← foldM (forward_call_parameter i c) es (seqZ 0 (Zlength (parameter_instructions c)));
  es ← rec c es;
  if shape_IsTuple i then foldM (forward_call_user (root_instruction c)) es (users i)
  else OK (AddForwardAlias (root_instruction c) i es).

(** The body parameter's elements alias the inputs of the loop. *)
Definition forward_while_input (input_tuple root_tuple : I) es (user : I) : Result Entries :=
  let n := tuple_index user in
  input_alias ← operand input_tuple n;
  let es := touch user es in
  input_properties ← at_entry es input_alias;
  let es := upd (fun p => set_backward_alias (Some input_alias)
                            (CopyFromAlias p input_properties)) user es in
  matching_root_input ← operand root_tuple n;
  if bool_decide (matching_root_input = user) then
    let es := upd (set_loop_parameter_index (Some n)) user es in
    aliases ← ForEachBackwardAlias es user;
    OK (foldl (fun es a => upd (set_loop_parameter_index (Some n)) a es) es aliases)
  else
    let es := upd (fun p => set_initializer (Some input_alias)
                              (set_loop_carried_index (Some n) p)) user es in
    aliases ← ForEachBackwardAliasAndSelf es input_alias;
    let es := foldl (fun es a => upd (set_loop_parameter_index (Some n)) a es) es aliases in
    let carried p := set_initializer (Some input_alias) (set_loop_carried_index (Some n) p) in
    let es := upd carried input_alias es in
    OK (upd carried matching_root_input es).

(** The users of a loop alias the inputs of its root tuple. *)
Definition forward_while_output (root_tuple : I) es (user : I) : Result Entries :=
  matching_root_input ← operand root_tuple (tuple_index user);
  let es := touch matching_root_input es in
  let user_properties := set_backward_alias (Some matching_root_input)
                           (CopyFromAlias default_entry (entry_of es matching_root_input)) in
  let es := upd (set_forward_alias (Some user)) matching_root_input es in
  OK (<[user := user_properties]> es).

Definition check (b : bool) : Result unit := if b then OK () else Fatal CheckFailed.

Definition forward_while (rec : C -> Entries -> Result Entries) i es : Result Entries :=
  input_tuple ← operand i 0;
  c ← called_computation i 0;
  let root_tuple := root_instruction c in
  _ ← check (bool_decide (opcode root_tuple = kTuple));
  _ ← check (bool_decide (length (parameter_instructions c) = 1%nat));
  body_tuple_param ← vec_at (parameter_instructions c) 0;
  _ ← check (shape_IsTuple body_tuple_param);
  es ← foldM (forward_while_input input_tuple root_tuple) es (users body_tuple_param);
  es ← foldM (forward_while_output root_tuple) es (users i);
  rec c es.

Definition forward_barrier i es : Result Entries :=
  if shape_IsTuple i then
    input_tuple ← operand i 0;
    foldM (fun es user =>
        alias ← operand input_tuple (tuple_index user); OK (AddBackwardAlias user alias es))
      es (users i)
  else OK es.

Definition forward_copy i es : Result Entries :=
  let es := upd (set_allow_recomputation false) i es in
  o ← operand i 0;
  let es := touch o es in
  let operand_props := entry_of es o in
  OK (if bool_decide (is_Some (parameter_number operand_props)) || parameter_copy operand_props
      then upd (set_parameter_copy true) i es else es).

Definition forward_custom_call i es : Result Entries :=
  if IsCustomCall i kCustomCallReshard then
    o ← operand i 0;
    let es := touch o es in
    let operand_props := entry_of es o in
    let es := upd (set_derived_parameter (derived_parameter operand_props)) i es in
    OK (if bool_decide (is_Some (parameter_number operand_props))
        then upd (set_parameter_copy true) i es else es)
  else OK es.

Definition forward_instruction (rec : C -> Entries -> Result Entries) es i : Result Entries :=
  let es := touch i es in
  match opcode i with
  | kConstant => OK (upd (set_derived_constant true) i es)
  | kTranspose | kBroadcast | kReshape | kConvert => forward_derived i es
  | kCall => forward_call rec i es
  | kWhile => forward_while rec i es
  | kOptimizationBarrier => forward_barrier i es
  | kCopy => forward_copy i es
  | kCustomCall => forward_custom_call i es
  | _ => OK es
  end.

Fixpoint AddForwardProperties (fuel : nat) c es : Result Entries :=
  match fuel with
  | O => Fatal Diverges
  | S fuel =>
      foldM (forward_instruction (AddForwardProperties fuel)) es (MakeInstructionPostOrder c)
  end.

(** ** The backward pass *)

Definition propagate_elementwise (src target : I) es : Entries :=
  let es := touch src es in
  upd (fun t => match elementwise_connected_to_entry_output t with
                | None => set_elementwise (elementwise_connected_to_entry_output (entry_of es src)) t
                | Some _ => t
                end) target es.

Definition propagate_additive_elementwise (src target : I) es : Entries :=
  let es := propagate_elementwise src target es in
  upd (set_additive (additive_to_while_input (entry_of es src))) target es.

Definition propagate_no_op_elementwise (src target : I) es : Entries :=
  let es := propagate_elementwise src target es in
  let es := upd (set_equivalent (equivalent_to_while_output (entry_of es src))) target es in
  upd (set_additive (additive_to_while_input (entry_of es src))) target es.

Definition push_additive (x : I) i es : Entries :=
  upd (fun p => set_additive (additive_to_while_input p ++ [x]) p) i es.

(** [dealias_fuel] bounds the chains of custom calls that are followed. *)
Context (dealias_fuel : nat).

Definition backward_add i es : Result Entries :=
  lhs ← operand i 0;
  let es := propagate_elementwise i lhs (touch lhs es) in
  lhs_loop_input ← DealiasLoopInput dealias_fuel lhs;
  rhs ← operand i 1;
  let es := propagate_elementwise i rhs (touch rhs es) in
  rhs_loop_input ← DealiasLoopInput dealias_fuel rhs;
  match lhs_loop_input, rhs_loop_input with
  | Some x, _ => OK (push_additive x rhs (push_additive x i es))
  | None, Some x => OK (push_additive x lhs (push_additive x i es))
  | None, None =>
      if bool_decide (additive_to_while_input (entry_of es i) <> []) then
        let es := if bool_decide (length (users lhs) = 1%nat)
                  then propagate_additive_elementwise i lhs es else es in
        OK (if bool_decide (length (users rhs) = 1%nat)
            then propagate_additive_elementwise i rhs es else es)
      else OK es
  end.

Definition backward_no_op i es : Result Entries :=
  o ← operand i 0; OK (propagate_no_op_elementwise i o (touch o es)).

Definition backward_reduce i es : Result Entries :=
  c ← called_computation i 0;
  if bool_decide (opcode (root_instruction c) = kAdd) then
    o ← operand i 0;
    OK (upd (set_additive (additive_to_while_input (entry_of es i))) o es)
  else OK es.

Definition backward_unary i es : Result Entries :=
  o ← operand i 0; OK (propagate_elementwise i o es).

Definition backward_binary i es : Result Entries :=
  o0 ← operand i 0; o1 ← operand i 1;
  OK (propagate_elementwise i o1 (propagate_elementwise i o0 es)).

(** Connects the users of a call or loop to the inputs of the root. *)
Definition backward_outputs (root : I) es (user_list : list I) : Result Entries :=
  foldM (fun es user =>
      root_input ← operand root (tuple_index user);
      OK (propagate_elementwise user root_input es)) es user_list.

Definition backward_call (rec : C -> bool -> Entries -> Result Entries) i es : Result Entries :=
  subcomp ← called_computation i 0;
  es ← (if shape_IsTuple i then backward_outputs (root_instruction subcomp) es (users i)
        else OK es);
  es ← rec subcomp false es;
  foldM (fun es index =>
      o ← operand i index;
      param ← vec_at (parameter_instructions subcomp) index;
      OK (propagate_elementwise param o es)) es (seqZ 0 (Zlength (operands i))).

Definition backward_while (rec : C -> bool -> Entries -> Result Entries) c i es : Result Entries :=
  subcomp ← called_computation i 0;
  let root := root_instruction subcomp in
  let es :=
    if bool_decide (opcode root = kTuple) then
      foldl (fun es o => upd (set_equivalent (Some o)) o es) es (operands root)
    else upd (set_equivalent (Some (root_instruction c))) root es in
  es ← backward_outputs root es (users i);
  es ← rec subcomp true es;
  input_tuple ← operand i 0;
  param ← vec_at (parameter_instructions subcomp) 0;
  foldM (fun es user =>
      tuple_operand ← operand input_tuple (tuple_index user);
      OK (propagate_elementwise user tuple_operand es)) es (users param).

Definition backward_instruction (rec : C -> bool -> Entries -> Result Entries) c es i
    : Result Entries :=
  let es := touch i es in
  match opcode i with
  | kAdd => backward_add i es
  | kCustomCall =>
      if bool_decide (custom_call_target i ∈ kNoOpCustomCalls) then backward_no_op i es else OK es
  | kReduce => backward_reduce i es
  | kTranspose | kReshape | kConvert | kBitcast => backward_no_op i es
  | kMultiply | kDivide | kOr | kSubtract | kSelect | kAnd => backward_binary i es
  | kSin | kCos | kExp | kCeil | kCopy | kLog | kNegate | kNot | kReducePrecision | kSqrt
  | kTan | kTanh => backward_unary i es
  | kCall => backward_call rec i es
  | kWhile => backward_while rec c i es
  | _ => OK es
  end.

Fixpoint AddBackwardProperties (fuel : nat) c (loop : bool) es : Result Entries :=
  match fuel with
  | O => Fatal Diverges
  | S fuel =>
      _ ← (if loop then arg ← vec_at (parameter_instructions c) 0; OK () else OK ());
      foldM (backward_instruction (AddBackwardProperties fuel) c) es
        (reverse (MakeInstructionPostOrder c))
  end.

(** ** Construction *)

Definition mark_parameter es (ni : Z * I) : Entries :=
  let '(n, i) := ni in
  upd (set_derived_parameter true) i
    (upd (fun p => set_parameter_number (Some n) (set_derived_parameter true p)) i es).

Definition AddEntryProperties c es : Entries :=
  let es := foldl mark_parameter es (zip (seqZ 0 (Zlength (parameter_instructions c))) (parameter_instructions c)) in
  let root := root_instruction c in
  if bool_decide (opcode root = kTuple) then
    foldl (fun es o => upd (set_elementwise (Some o)) o es) es (operands root)
  else upd (set_elementwise (Some root)) root es.

Definition CreateProperties (fuel : nat) c : Result Entries :=
  let es := AddEntryProperties c ∅ in
  es ← AddForwardProperties fuel c es;
  AddBackwardProperties fuel c false es.
End properties.
