(* ===== verification/PropertiesFacts.v ===== *)
(** * What InstructionProperties computes

    The backward pass leaves alone what the forward pass found and always returns;
    on a computation without calls and loops the entries say which instructions are
    reshapings of a constant or of a parameter. *)
From S2P Require Import Prelude Hlo Utils InstructionProperties.
Local Open Scope Z_scope.

Section facts.
Context {I C : Type} `{EqDecision I, !Countable I} `{!Hlo I C}.
Abbreviation Entries := (gmap I (Entry I)).
Implicit Types (i j o : I) (c : C) (es : Entries).

(** ** Entries through updates *)

Lemma entry_of_touch i es j : entry_of (touch i es) j = entry_of es j.
Proof.
  unfold touch, entry_of. destruct (decide (i = j)) as [->|].
  - by rewrite lookup_insert_eq.
  - by rewrite lookup_insert_ne.
Qed.

Lemma entry_of_upd f i es j :
  entry_of (upd f i es) j = if decide (i = j) then f (entry_of es i) else entry_of es j.
Proof.
  unfold upd, entry_of. case_decide as Hij.
  - subst j. by rewrite lookup_insert_eq.
  - by rewrite lookup_insert_ne.
Qed.

(** [es'] has the entries of [es], and agrees with it in the field [g] on [P]. *)
Definition keeps {X} (g : Entry I -> X) (P : I -> Prop) es es' : Prop :=
  dom es ⊆ dom es' /\ forall j, P j -> g (entry_of es' j) = g (entry_of es j).

#[export] Instance keeps_preorder {X} (g : Entry I -> X) P : PreOrder (keeps g P).
Proof.
  split; [done|]. intros es1 es2 es3 [H1 H1'] [H2 H2']. split; [set_solver|].
  intros j Hj. by rewrite H2', H1'.
Qed.

Lemma keeps_touch {X} (g : Entry I -> X) P i es : keeps g P es (touch i es).
Proof. split; [unfold touch; set_solver|]. intros j _. by rewrite entry_of_touch. Qed.

Lemma keeps_upd {X} (g : Entry I -> X) (P : I -> Prop) f i es :
  (P i -> g (f (entry_of es i)) = g (entry_of es i)) -> keeps g P es (upd f i es).
Proof.
  intros Hf. split; [unfold upd; set_solver|]. intros j Hj. rewrite entry_of_upd.
  case_decide; [subst; auto|done].
Qed.

Lemma keeps_foldl {X A} (g : Entry I -> X) P (f : Entries -> A -> Entries) l es :
  (forall es x, x ∈ l -> keeps g P es (f es x)) -> keeps g P es (foldl f es l).
Proof.
  revert es; induction l as [|x l IH]; intros es Hf; cbn; [done|].
  etrans; [apply (Hf es x); set_solver|]. apply IH. intros; apply Hf; set_solver.
Qed.

Lemma keeps_foldM {X A} (g : Entry I -> X) P (f : Entries -> A -> Result Entries) l es es' :
  (forall es es' x, x ∈ l -> f es x = OK es' -> keeps g P es es') ->
  foldM f es l = OK es' -> keeps g P es es'.
Proof.
  revert es; induction l as [|x l IH]; intros es Hf; cbn.
  - by intros [= ->].
  - intros (es1 & H1 & H2)%Result_bind_OK. etrans; [eapply (Hf es es1 x); [set_solver|done]|].
    eapply IH; [|done]. intros es2 es3 y Hy. apply Hf. set_solver.
Qed.

(** ** The backward pass *)

(** The fields that the backward pass does not write. *)
Definition forward_part (e : Entry I) :=
  (derived_constant e, derived_parameter e, allow_recomputation e, parameter_copy e,
   (forward_alias e, backward_alias e),
   (parameter_number e, loop_carried_index e, loop_parameter_index e, loop_carried_initializer e)).

Abbreviation kept := (keeps forward_part (fun _ => True)).

Lemma kept_elementwise src target es : kept es (propagate_elementwise src target es).
Proof.
  unfold propagate_elementwise. etrans; [apply (keeps_touch _ _ src)|].
  apply keeps_upd. intros _. by destruct (elementwise_connected_to_entry_output _).
Qed.

Lemma kept_additive_elementwise src target es :
  kept es (propagate_additive_elementwise src target es).
Proof.
  unfold propagate_additive_elementwise. etrans; [apply (kept_elementwise src target)|].
  by apply keeps_upd.
Qed.

Lemma kept_no_op_elementwise src target es : kept es (propagate_no_op_elementwise src target es).
Proof.
  unfold propagate_no_op_elementwise. etrans; [apply (kept_elementwise src target)|].
  etrans; [|by apply keeps_upd]. by apply keeps_upd.
Qed.

Lemma kept_push x i es : kept es (push_additive x i es).
Proof. by apply keeps_upd. Qed.

Lemma kept_backward_outputs root es es' l :
  backward_outputs root es l = OK es' -> kept es es'.
Proof.
  unfold backward_outputs. apply keeps_foldM. intros ? ? ? _ H. run_inv.
  apply kept_elementwise.
Qed.

Lemma kept_backward_add fuel i es es' : backward_add fuel i es = OK es' -> kept es es'.
Proof.
  unfold backward_add. intros H. run_inv.
  match goal with H : context [propagate_elementwise i ?r (touch ?r (propagate_elementwise i ?l (touch ?l es)))] |- _ =>
    set (es1 := propagate_elementwise i r (touch r (propagate_elementwise i l (touch l es)))) in H;
    assert (kept es es1) as Hes1
  end.
  { unfold es1. etrans; [apply keeps_touch|]. etrans; [apply kept_elementwise|].
    etrans; [apply keeps_touch|]. apply kept_elementwise. }
  etrans; [exact Hes1|].
  repeat match goal with
  | H : context [match ?o with Some _ => _ | None => _ end] |- _ => destruct o
  end; run_inv.
  all: repeat (case_bool_decide; run_inv).
  all: repeat first [reflexivity | apply kept_additive_elementwise
                    | etrans; [|apply kept_push] | etrans; [|apply kept_additive_elementwise]].
Qed.

Section pass.
Variable dealias_fuel : nat.

Lemma kept_backward_call rec i es es' :
  (forall c es es', rec c false es = OK es' -> kept es es') ->
  backward_call rec i es = OK es' -> kept es es'.
Proof.
  intros Hrec H. unfold backward_call in H. run_inv.
  etrans; [|eapply keeps_foldM; [|done]].
  - etrans; [|by eapply Hrec]. destruct (shape_IsTuple i); run_inv; [|done].
    by eapply kept_backward_outputs.
  - intros ? ? ? _ Hx. cbv beta in Hx. run_inv. apply kept_elementwise.
Qed.

Lemma kept_backward_while rec c i es es' :
  (forall c es es', rec c true es = OK es' -> kept es es') ->
  backward_while rec c i es = OK es' -> kept es es'.
Proof.
  intros Hrec H. unfold backward_while in H. run_inv.
  etrans; [|eapply keeps_foldM; [|done]].
  - etrans; [|by eapply Hrec]. etrans; [|by eapply kept_backward_outputs].
    case_bool_decide; [|by apply keeps_upd].
    apply keeps_foldl. intros. by apply keeps_upd.
  - intros ? ? ? _ Hy. cbv beta in Hy. run_inv. apply kept_elementwise.
Qed.

Lemma kept_backward_instruction rec c i es es' :
  (forall c loop es es', rec c loop es = OK es' -> kept es es') ->
  backward_instruction dealias_fuel rec c es i = OK es' -> kept es es'.
Proof.
  intros Hrec H. unfold backward_instruction in H.
  etrans; [apply (keeps_touch _ _ i)|].
  destruct (opcode i); run_inv; try reflexivity.
  all: try by eapply kept_backward_add.
  all: try by (eapply kept_backward_call; [|done]; eauto).
  all: try by (eapply kept_backward_while; [|done]; eauto).
  all: try case_bool_decide; run_inv; try reflexivity.
  all: unfold backward_no_op, backward_unary, backward_binary, backward_reduce in *; run_inv.
  all: try case_bool_decide; run_inv; try reflexivity.
  all: try apply kept_elementwise.
  all: try (etrans; [apply keeps_touch|]; apply kept_no_op_elementwise).
  all: try (etrans; [|apply kept_elementwise]; apply kept_elementwise).
  all: try by apply keeps_upd.
Qed.

Lemma kept_AddBackwardProperties fuel c loop es es' :
  AddBackwardProperties dealias_fuel fuel c loop es = OK es' -> kept es es'.
Proof.
  revert c loop es es'. induction fuel as [|fuel IH]; intros c loop es es'; cbn; [done|].
  intros H. run_inv. eapply keeps_foldM; [|done].
  intros es1 es2 i _. apply kept_backward_instruction. eauto.
Qed.
End pass.

(** ** The forward pass on a computation without calls and loops *)

Definition reshaping : list HloOpcode := [kTranspose; kBroadcast; kReshape; kConvert].

(** [i] is a constant seen through transposes, broadcasts, reshapes and converts. *)
Inductive derives_constant : I -> Prop :=
  | derives_constant_here i : opcode i = kConstant -> derives_constant i
  | derives_constant_step i o :
      opcode i ∈ reshaping -> operand i 0 = OK o -> derives_constant o -> derives_constant i.

(** [i] is a parameter of [c] seen through the same operations and reshards. *)
Inductive derives_parameter c : I -> Prop :=
  | derives_parameter_here i : i ∈ parameter_instructions c -> derives_parameter c i
  | derives_parameter_step i o :
      (opcode i ∈ reshaping \/ IsCustomCall i kCustomCallReshard = true) ->
      operand i 0 = OK o -> derives_parameter c o -> derives_parameter c i.

Definition derived (e : Entry I) := (derived_constant e, derived_parameter e).

Definition is_flat c : Prop :=
  forall i, i ∈ MakeInstructionPostOrder c -> opcode i <> kCall /\ opcode i <> kWhile.

(** What visiting [i] writes to its own flags. *)
Definition derived_after i es : Result (bool * bool) :=
  let e := entry_of es i in
  if decide (opcode i = kConstant) then OK (true, derived_parameter e)
  else if decide (opcode i ∈ reshaping) then
    o ← operand i 0; OK (derived (entry_of es o))
  else if IsCustomCall i kCustomCallReshard then
    o ← operand i 0; OK (derived_constant e, derived_parameter (entry_of es o))
  else OK (derived e).

Lemma keeps_AddBackwardAlias {X} (g : Entry I -> X) P i a es :
  (forall e, g (set_backward_alias (Some a) e) = g e) -> keeps g P es (AddBackwardAlias i a es).
Proof.
  intros Hg. unfold AddBackwardAlias. etrans; [apply keeps_touch|]. apply keeps_upd. auto.
Qed.

Lemma derived_upd (P : I -> Prop) f i es :
  (forall e, derived (f e) = derived e) -> keeps derived P es (upd f i es).
Proof. intros Hf. apply keeps_upd. auto. Qed.

Lemma derived_at_upd f i es : derived (entry_of (upd f i es) i) = derived (f (entry_of es i)).
Proof. rewrite entry_of_upd. by rewrite decide_True. Qed.

Lemma touch_is_Some i es : is_Some (touch i es !! i).
Proof. unfold touch. rewrite lookup_insert_eq. eauto. Qed.

Lemma keeps_is_Some {X} (g : Entry I -> X) P es es' i :
  keeps g P es es' -> is_Some (es !! i) -> is_Some (es' !! i).
Proof. intros [Hd _] Hi. apply elem_of_dom. apply Hd. by apply elem_of_dom. Qed.

Lemma visited_upd f i es es1 :
  keeps derived (fun j => j <> i) es es1 ->
  keeps derived (fun j => j <> i) es (upd f i es1) /\ is_Some (upd f i es1 !! i).
Proof.
  intros H1. split; [|unfold upd; rewrite lookup_insert_eq; eauto].
  trans es1; [done|]. by apply keeps_upd.
Qed.

Lemma keeps_weaken {X} (g : Entry I -> X) (P Q : I -> Prop) es es' :
  (forall j, Q j -> P j) -> keeps g P es es' -> keeps g Q es es'.
Proof. intros HPQ [??]. split; auto. Qed.

Lemma touch_others i j es : keeps derived (fun j => j <> i) es (touch j es).
Proof. apply keeps_touch. Qed.

(** A visit of an instruction of each kind: the flags of the others are kept, its
    own are [d]. *)
Definition visits i es es' (d : bool * bool) : Prop :=
  keeps derived (fun j => j <> i) es es' /\ is_Some (es' !! i) /\ derived (entry_of es' i) = d.

Lemma visits_derived i o es es' :
  operand i 0 = OK o -> forward_derived i (touch i es) = OK es' ->
  visits i es es' (derived (entry_of es o)).
Proof.
  intros Ho Hd. unfold forward_derived in Hd. rewrite Ho in Hd.
  cbn [mbind Result_bind] in Hd. run_inv.
  match goal with |- visits i es (upd ?f i ?e) _ => destruct (visited_upd f i es e) as [H1 H2] end.
  { etrans; [apply (touch_others _ i)|]. apply touch_others. }
  split; [done|]. split; [done|]. rewrite derived_at_upd. unfold derived; cbn.
  by rewrite !entry_of_touch.
Qed.

Lemma visits_reshard i o es es' :
  operand i 0 = OK o -> IsCustomCall i kCustomCallReshard = true ->
  forward_custom_call i (touch i es) = OK es' ->
  visits i es es' (derived_constant (entry_of es i), derived_parameter (entry_of es o)).
Proof.
  intros Ho Hcc H. unfold forward_custom_call in H. rewrite Hcc, Ho in H.
  cbn [mbind Result_bind] in H. run_inv.
  rewrite !entry_of_touch. set (es1 := touch o (touch i es)).
  assert (keeps derived (fun j => j <> i) es es1) as H1
    by (etrans; [apply (touch_others _ i)|]; apply touch_others).
  destruct (visited_upd (set_derived_parameter (derived_parameter (entry_of es o))) i es es1 H1)
    as [H2 H3].
  case_bool_decide.
  - destruct (visited_upd (set_parameter_copy true) i _ _ H2) as [H4 H5].
    split; [done|]. split; [done|].
    rewrite derived_at_upd, entry_of_upd, decide_True by done. unfold derived, es1; cbn.
    by rewrite !entry_of_touch.
  - split; [done|]. split; [done|]. rewrite derived_at_upd. unfold derived, es1; cbn.
    by rewrite !entry_of_touch.
Qed.

Lemma visits_other rec i es es' :
  opcode i <> kCall -> opcode i <> kWhile -> opcode i <> kConstant -> opcode i ∉ reshaping ->
  IsCustomCall i kCustomCallReshard = false ->
  forward_instruction rec es i = OK es' -> visits i es es' (derived (entry_of es i)).
Proof.
  intros Hcall Hwhile Hc Hr Hcc H. unfold forward_instruction in H. set (es0 := touch i es) in *.
  assert (keeps derived (fun _ => True) es0 es') as Hend.
  { unfold reshaping in Hr. rewrite !elem_of_cons in Hr.
    destruct (opcode i); run_inv; try reflexivity; try congruence;
      try solve [exfalso; apply Hr; auto 6].
    - unfold forward_copy in H. run_inv.
      trans (upd (set_allow_recomputation false) i es0); [by apply derived_upd|].
      etrans; [apply (keeps_touch _ _ x)|]. destruct (_ || _); [|reflexivity]. by apply derived_upd.
    - unfold forward_custom_call in H. rewrite Hcc in H. by run_inv.
    - unfold forward_barrier in H. destruct (shape_IsTuple i); run_inv; [|reflexivity].
      eapply keeps_foldM; [|done]. intros ? ? ? _ Hx. cbv beta in Hx. run_inv.
      by apply keeps_AddBackwardAlias. }
  split; [|split].
  - trans es0; [apply touch_others|]. by eapply (keeps_weaken derived (fun _ => True)).
  - eapply keeps_is_Some; [done|]. apply touch_is_Some.
  - destruct Hend as [_ Hg]. rewrite Hg by done. unfold es0. by rewrite entry_of_touch.
Qed.

Lemma forward_flat rec i es es' :
  opcode i <> kCall -> opcode i <> kWhile -> forward_instruction rec es i = OK es' ->
  exists d, derived_after i es = OK d /\ visits i es es' d.
Proof.
  intros Hcall Hwhile H. unfold derived_after.
  destruct (decide (opcode i = kConstant)) as [Hc|Hc].
  { unfold forward_instruction in H. rewrite Hc in H. run_inv. eexists. split; [done|].
    destruct (visited_upd (set_derived_constant true) i es (touch i es)); [apply touch_others|].
    split; [done|]. split; [done|]. rewrite derived_at_upd. unfold derived; cbn.
    by rewrite entry_of_touch. }
  destruct (decide (opcode i ∈ reshaping)) as [Hr|Hr].
  { assert (forward_derived i (touch i es) = OK es') as Hd.
    { unfold reshaping in Hr. rewrite !elem_of_cons in Hr. unfold forward_instruction in H.
      destruct Hr as [Hr|[Hr|[Hr|[Hr|Hr]]]]; [rewrite Hr in H; done..|set_solver]. }
    pose proof Hd as Hd'. unfold forward_derived in Hd'. apply Result_bind_OK in Hd' as (o & Ho & _).
    rewrite Ho. eexists. split; [done|]. by apply visits_derived. }
  destruct (IsCustomCall i kCustomCallReshard) eqn:Hcc.
  { assert (forward_custom_call i (touch i es) = OK es') as Hd.
    { unfold forward_instruction in H. unfold IsCustomCall in Hcc.
      apply andb_true_iff in Hcc as [Hop%bool_decide_eq_true_1 _]. by rewrite Hop in H. }
    pose proof Hd as Hd'. unfold forward_custom_call in Hd'. rewrite Hcc in Hd'.
    apply Result_bind_OK in Hd' as (o & Ho & _).
    rewrite Ho. eexists. split; [done|]. by apply visits_reshard. }
  eexists. split; [done|]. by eapply visits_other.
Qed.

(** ** The flags before the passes *)

Lemma mark_parameters_derived i l ns es :
  length ns = length l ->
  derived (entry_of (foldl mark_parameter es (zip ns l)) i) =
  (derived_constant (entry_of es i), derived_parameter (entry_of es i) || bool_decide (i ∈ l)).
Proof.
  revert ns es. induction l as [|x l IH]; intros ns es Hlen; destruct ns as [|n ns]; try done.
  - cbn. by rewrite orb_false_r.
  - cbn [zip zip_with foldl]. rewrite IH by (cbn in Hlen; lia). unfold mark_parameter.
    rewrite !entry_of_upd. destruct (decide (x = i)) as [->|Hx].
    + rewrite !decide_True by done. cbn. f_equal. symmetry.
      rewrite bool_decide_eq_true_2 by set_solver. by rewrite orb_true_r.
    + f_equal. f_equal. apply bool_decide_ext. set_solver.
Qed.

Lemma AddEntryProperties_derived c i :
  derived (entry_of (AddEntryProperties c ∅) i) =
  (false, bool_decide (i ∈ parameter_instructions c)).
Proof.
  unfold AddEntryProperties.
  set (es := foldl mark_parameter _ _).
  assert (derived (entry_of es i) = (false, bool_decide (i ∈ parameter_instructions c))) as Hes.
  { unfold es. rewrite mark_parameters_derived; [done|]. rewrite length_seqZ. unfold Zlength. lia. }
  rewrite <- Hes. destruct (bool_decide (opcode _ = kTuple)).
  - assert (forall l, keeps derived (fun _ => True) es
      (foldl (fun es o => upd (set_elementwise (Some o)) o es) es l)) as Hl.
    { intros l. apply keeps_foldl. intros. by apply derived_upd. }
    by apply Hl.
  - by apply (derived_upd (fun _ => True)).
Qed.

Section flat.
Context `{!PostOrderLaws I C} (c : C).
Hypothesis (params : forall i, i ∈ parameter_instructions c -> opcode i = kParameter).

(** What the flags of [i] mean. *)
Definition flags_ok i (d : bool * bool) : Prop :=
  (d.1 = true <-> derives_constant i) /\ (d.2 = true <-> derives_parameter c i).

Lemma not_a_step i o :
  opcode i ∉ reshaping -> IsCustomCall i kCustomCallReshard = false ->
  ~ (opcode i ∈ reshaping \/ IsCustomCall i kCustomCallReshard = true).
Proof. intros ? ->. naive_solver. Qed.

Lemma flags_ok_after i es d :
  derived (entry_of es i) = (false, bool_decide (i ∈ parameter_instructions c)) ->
  (forall o, o ∈ operands i -> flags_ok o (derived (entry_of es o))) ->
  derived_after i es = OK d -> flags_ok i d.
Proof.
  intros Hi Hops Hd. unfold derived_after in Hd. unfold derived in Hi.
  assert (forall o, operand i 0 = OK o -> flags_ok o (derived (entry_of es o))) as Ho.
  { intros o Ho. apply Hops. apply vec_at_lookup in Ho as [_ Ho]. by eapply list_elem_of_lookup_2. }
  assert (derived_constant (entry_of es i) = false) as Hi1 by congruence.
  assert (derived_parameter (entry_of es i) = bool_decide (i ∈ parameter_instructions c)) as Hi2
    by congruence.
  assert (opcode i <> kParameter -> i ∉ parameter_instructions c) as Hp by auto.
  destruct (decide (opcode i = kConstant)) as [Hc|Hc].
  { run_inv. split; cbn; [split; [by constructor|done]|]. rewrite Hi2, bool_decide_eq_true.
    split; [by constructor|]. intros Hpar; inversion Hpar as [|? ? [Hr|Hr]]; [done|..].
    - rewrite Hc in Hr. unfold reshaping in Hr. set_solver.
    - unfold IsCustomCall in Hr. rewrite Hc in Hr. done. }
  destruct (decide (opcode i ∈ reshaping)) as [Hr|Hr].
  { run_inv. destruct (Ho _ H) as [Hoc Hop]. unfold flags_ok, derived in *; cbn [fst snd] in *. split.
    - rewrite Hoc. split; [intros Hx; by eapply derives_constant_step|].
      intros Hcst; inversion Hcst as [|? o ? Ho']; [done|].
      rewrite H in Ho'. by injection Ho' as ->.
    - rewrite Hop. split; [intros Hx; eapply derives_parameter_step; eauto|].
      intros Hpar; inversion Hpar as [? Hin|? ? ? Ho'].
      + apply params in Hin. rewrite Hin in Hr. unfold reshaping in Hr. set_solver.
      + rewrite H in Ho'. by injection Ho' as ->. }
  destruct (IsCustomCall i kCustomCallReshard) eqn:Hcc.
  { run_inv. destruct (Ho _ H) as [_ Hop]. unfold flags_ok, derived in *; cbn [fst snd] in *. split.
    - rewrite Hi1. split; [done|]. intros Hcst. by inversion Hcst; simplify_eq.
    - rewrite Hop. split; [intros Hx; eapply derives_parameter_step; eauto|].
      intros Hpar; inversion Hpar as [? Hin|? ? ? Ho'].
      + apply params in Hin. unfold IsCustomCall in Hcc. by rewrite Hin in Hcc.
      + rewrite H in Ho'. by injection Ho' as ->. }
  run_inv. split; cbn.
  - rewrite Hi1. split; [done|]. intros Hcst. by inversion Hcst; simplify_eq.
  - rewrite Hi2, bool_decide_eq_true. split; [by constructor|].
    intros Hpar; inversion Hpar as [|? ? [|]]; [done|done|congruence].
Qed.

Lemma AddForwardProperties_flags fuel es :
  is_flat c -> AddForwardProperties (S fuel) c (AddEntryProperties c ∅) = OK es ->
  forall i, i ∈ MakeInstructionPostOrder c ->
    is_Some (es !! i) /\ flags_ok i (derived (entry_of es i)).
Proof.
  intros Hflat. cbn [AddForwardProperties].
  set (P := fun (done : list I) (es : Entries) =>
    (forall i, i ∈ done -> is_Some (es !! i) /\ flags_ok i (derived (entry_of es i))) /\
    (forall i, i ∉ done ->
       derived (entry_of es i) = (false, bool_decide (i ∈ parameter_instructions c)))).
  intros Hrun. cut (P (MakeInstructionPostOrder c) es); [by intros [HP _]|].
  revert Hrun. apply foldM_inv.
  - split; [set_solver|]. intros. apply AddEntryProperties_derived.
  - intros done x rest es1 es2 Hl [Hdone Hrest] Hx.
    assert (x ∉ done) as Hxd.
    { pose proof (postorder_NoDup c) as Hnd. rewrite Hl in Hnd.
      apply NoDup_app in Hnd as (_ & Hdisj & _). intros Hin. apply (Hdisj x Hin). set_solver. }
    destruct (Hflat x) as [Hcall Hwhile]; [rewrite Hl; set_solver|].
    destruct (forward_flat _ x es1 es2 Hcall Hwhile Hx) as (d & Hd & [Hdom Hkeep] & Hsome & Hown).
    split.
    + intros i [Hi|Hi%list_elem_of_singleton]%elem_of_app.
      * destruct (Hdone i Hi) as [Hs Hok]. assert (i <> x) by congruence. rewrite Hkeep by done.
        split; [|done]. apply elem_of_dom, Hdom. by apply elem_of_dom.
      * subst i. split; [done|]. rewrite Hown. eapply flags_ok_after; [by apply Hrest| |done].
        intros o Ho. apply Hdone.
        assert (MakeInstructionPostOrder c !! length done = Some x) as Hn
          by (rewrite Hl; by apply list_lookup_middle).
        destruct (postorder_operands c _ _ _ Hn Ho) as (m & Hm & Hlook).
        rewrite Hl, lookup_app_l in Hlook by done. by eapply list_elem_of_lookup_2.
    + intros i Hi. rewrite Hkeep by set_solver. apply Hrest. set_solver.
Qed.

(** C26: On a computation without calls and loops, whose parameters are parameters, the
    created properties have an entry for every instruction; [derived_constant] is
    set exactly for a constant seen through transposes, broadcasts, reshapes and
    converts, and [derived_parameter] exactly for a parameter seen through those
    and reshards. *)
Theorem CreateProperties_flags dealias_fuel fuel es i :
  is_flat c -> CreateProperties dealias_fuel (S fuel) c = OK es ->
  i ∈ MakeInstructionPostOrder c ->
  exists dc dp, DerivedConstant es i = OK dc /\ DerivedParameter es i = OK dp /\
    (dc = true <-> derives_constant i) /\ (dp = true <-> derives_parameter c i).
Proof.
  intros Hflat Hrun Hi. unfold CreateProperties in Hrun. apply Result_bind_OK in Hrun as (es1 & H1 & H2).
  destruct (AddForwardProperties_flags fuel es1 Hflat H1 i Hi) as [Hsome Hok].
  pose proof (kept_AddBackwardProperties _ _ _ _ _ _ H2) as [Hdom Hkeep].
  assert (is_Some (es !! i)) as [e He]
    by (apply elem_of_dom, Hdom; by apply elem_of_dom).
  specialize (Hkeep i Logic.I).
  assert (derived (entry_of es i) = derived (entry_of es1 i)) as Hd.
  { unfold forward_part in Hkeep. unfold derived. congruence. }
  rewrite <- Hd in Hok. exists (derived_constant e), (derived_parameter e).
  unfold DerivedConstant, DerivedParameter, Get. rewrite He. split; [done|]. split; [done|].
  unfold entry_of in Hok. by rewrite He in Hok.
Qed.
End flat.

(** ** The backward pass returns *)
Section termination.
Context `{!AcyclicLaws I C}.

Lemma returns_operand i n : returns (operand i n).
Proof. apply returns_vec_at. Qed.

Lemma returns_called i n : returns (called_computation i n).
Proof. apply returns_vec_at. Qed.

#[local] Hint Resolve returns_operand returns_called : returns.

Lemma operand_rank_operand i n o : operand i n = OK o -> (operand_rank o < operand_rank i)%nat.
Proof.
  intros Ho. apply vec_at_lookup in Ho as [_ Ho]. apply operand_rank_lt.
  by eapply list_elem_of_lookup_2.
Qed.

Lemma returns_DealiasLoopInput fuel i o :
  (operand_rank o < fuel)%nat -> returns (DealiasLoopInput_loop fuel i o).
Proof.
  revert o. induction fuel as [|fuel IH]; intros o Hf; [lia|]. cbn [DealiasLoopInput_loop].
  destruct (_ && _).
  - apply returns_bind; [apply returns_operand|]. intros next Hn%operand_rank_operand. apply IH. lia.
  - destruct (bool_decide _); [|done]. apply returns_bind; [apply returns_operand|done].
Qed.

Variable dealias_fuel : nat.
Hypothesis (dealias_enough : forall i, (operand_rank i < dealias_fuel)%nat).

Lemma returns_backward_add i es : returns (backward_add dealias_fuel i es).
Proof.
  unfold backward_add, DealiasLoopInput.
  repeat (apply returns_bind; [auto using returns_DealiasLoopInput with returns|intros ? _]).
  destruct a0 as [?|]; [done|]. destruct a2 as [?|]; [done|].
  by destruct (bool_decide _).
Qed.

Lemma returns_backward_outputs root es l : returns (backward_outputs root es l).
Proof. apply returns_foldM. intros. apply returns_bind; [auto with returns|done]. Qed.

Lemma returns_backward_instruction rec c i es :
  (forall c' loop es, c' ∈ called_computations i -> returns (rec c' loop es)) ->
  returns (backward_instruction dealias_fuel rec c es i).
Proof.
  intros Hrec. unfold backward_instruction. set (es0 := touch i es).
  assert (forall c' loop es, called_computation i 0 = OK c' -> returns (rec c' loop es)) as Hrec'.
  { intros c' loop es' Hc. apply Hrec. apply vec_at_lookup in Hc as [_ Hc].
    by eapply list_elem_of_lookup_2. }
  assert (returns (backward_call rec i es0)) as Hcall.
  { unfold backward_call. apply returns_bind; [auto with returns|intros sub Hsub].
    apply returns_bind; [destruct (shape_IsTuple i); [apply returns_backward_outputs|done]|intros ? _].
    apply returns_bind; [auto|intros ? _]. apply returns_foldM. intros.
    by repeat (apply returns_bind; [auto with returns|intros ? _]). }
  assert (returns (backward_while rec c i es0)) as Hwhile.
  { unfold backward_while. apply returns_bind; [auto with returns|intros sub Hsub].
    apply returns_bind; [apply returns_backward_outputs|intros ? _].
    apply returns_bind; [auto|intros ? _].
    apply returns_bind; [auto with returns|intros ? _].
    apply returns_bind; [auto with returns|intros ? _]. apply returns_foldM. intros.
    by repeat (apply returns_bind; [auto with returns|intros ? _]). }
  destruct (opcode i); try done; try apply returns_backward_add.
  all: unfold backward_reduce, backward_no_op, backward_binary, backward_unary.
  all: try (destruct (bool_decide _); [|done]).
  all: repeat (apply returns_bind; [auto with returns|intros ? _]); try done.
  by destruct (bool_decide _); [apply returns_bind; [auto with returns|done]|].
Qed.

(** The recursion of the backward pass through calls and loops ends: with fuel above
    the nesting of the called computations, and above the operand chains that are
    followed through custom calls, the pass never runs out. *)
Theorem AddBackwardProperties_returns fuel c loop es :
  (call_rank c < fuel)%nat -> AddBackwardProperties dealias_fuel fuel c loop es <> Fatal Diverges.
Proof.
  revert c loop es. induction fuel as [|fuel IH]; intros c loop es Hf; [lia|].
  cbn [AddBackwardProperties]. apply (returns_bind _ _).
  - destruct loop; [|done]. apply returns_bind; [auto with returns|done].
  - intros ? _. apply returns_foldM. intros es1 i Hi. rewrite elem_of_reverse in Hi.
    apply returns_backward_instruction. intros c' loop' es2 Hc'.
    apply IH. pose proof (call_rank_lt c i c' Hi Hc'). lia.
Qed.
End termination.
End facts.

(** ** Evaluations on a concrete module

    A computation [0] that adds its parameters, and computation [1] without calls:
    a broadcast constant times a reshaped parameter. *)
Module PropertiesSample.
Definition nodes : list Graph.node :=
  [Graph.op kParameter []; Graph.op kParameter []; Graph.op kAdd [0; 1]%nat;
   Graph.op kParameter []; Graph.op kConstant []; Graph.op kBroadcast [4]%nat;
   Graph.op kReshape [3]%nat; Graph.op kMultiply [5; 6]%nat;
   Graph.Node kCall [5; 6]%nat 0 [0%nat] "" "" false 1 false].
Definition comps : list Graph.comp :=
  [Graph.Comp 2 [0; 1]%nat [0; 1; 2]%nat; Graph.Comp 7 [3]%nat [3; 4; 5; 6; 7]%nat;
   Graph.Comp 8 [3]%nat [3; 4; 5; 6; 8]%nat].
#[global] Instance hlo : Hlo nat nat := Graph.hlo nodes comps.
#[global] Instance postorder : PostOrderLaws nat nat := Graph.postorder_laws nodes comps eq_refl.
#[global] Instance acyclic : AcyclicLaws nat nat := Graph.acyclic_laws nodes comps eq_refl.

(** The properties created for the computation without calls. *)
Definition created : gmap nat (Entry nat) :=
  match CreateProperties 10 1 1%nat with OK es => es | _ => ∅ end.
End PropertiesSample.

Lemma CreateProperties_flags_witness :
  exists dc dp, DerivedConstant PropertiesSample.created 5%nat = OK dc /\
    DerivedParameter PropertiesSample.created 5%nat = OK dp /\
    (dc = true <-> derives_constant 5%nat) /\ (dp = true <-> derives_parameter 1%nat 5%nat).
Proof.
  refine (CreateProperties_flags 1%nat _ 10 0 PropertiesSample.created 5%nat _ _ _).
  - intros i Hi. change (i ∈ [3%nat]) in Hi. apply list_elem_of_singleton in Hi as ->. reflexivity.
  - intros i Hi. change (i ∈ [3; 4; 5; 6; 7]%nat) in Hi.
    repeat (apply elem_of_cons in Hi as [->|Hi]; [split; discriminate|]). by apply elem_of_nil in Hi.
  - vm_compute. reflexivity.
  - apply (bool_decide_eq_true_1 (5%nat ∈ [3; 4; 5; 6; 7]%nat)). reflexivity.
Defined.

Lemma AddBackwardProperties_returns_witness :
  AddBackwardProperties 10 3 2%nat false (AddEntryProperties 2%nat ∅) <> Fatal Diverges.
Proof.
  refine (AddBackwardProperties_returns 10 _ 3 2%nat false _ _).
  - intros i. cbn. case_decide; cbn in *; lia.
  - cbn. lia.
Defined.
