(* ===== verification/Coloring.v ===== *)
(** * Propagation of colors (class MpmdColoring of mpmd_coloring.cc)

    The state is the attribute store, which holds the colors; the alias properties
    of the module are the entries [es].  [if_visit] is the filter of a propagation.
    The pre- and post-processing pipelines of [Run] are not part of this file. *)
From S2P Require Import Prelude Hlo Instruction Partition Utils InstructionProperties.
Local Open Scope Z_scope.

Inductive ColorPropagationPriority := kWeight | kDepth | kTopological.

Definition GetColorPropagationPriorityFromString (priority_str : string)
    : ColorPropagationPriority :=
  if bool_decide (priority_str = "WEIGHT") then kWeight
  else if bool_decide (priority_str = "DEPTH") then kDepth
  else if bool_decide (priority_str = "TOPOLOGICAL") then kTopological
  else kWeight.

(** [std::numeric_limits<int64_t>::max()] *)
Definition int64_max : Z := 2 ^ 63 - 1.

Definition value_or {K V} `{Countable K} (m : gmap K V) (k : K) (v : V) : V :=
  match m !! k with Some x => x | None => v end.

(** The tables of [PropagateFromUsersAndOperands]: weight, depth distance and index
    distance of every color, and the best color with its scores. *)
Record Votes := MkVotes {
  color_weights : gmap string Z;
  color_depths : gmap string Z;
  color_topological_indices : gmap string Z;
  max_operand_color : option string;
  max_color_weight : Z;
  max_color_depth : Z;
  max_color_topological_index : Z;
}.

Definition no_votes : Votes := MkVotes ∅ ∅ ∅ None 0 int64_max int64_max.

(** Whether scores [(w, d, t)] beat the best ones [(mw, md, mt)]. *)
Definition better (priority : ColorPropagationPriority) (new best : Z * Z * Z) : bool :=
  let '(w, d, t) := new in
  let '(mw, md, mt) := best in
  match priority with
  | kWeight => (mw <? w) || ((w =? mw) && ((d <? md) || ((d =? md) && (t <? mt))))
  | kDepth => (d <? md) || ((d =? md) && ((mw <? w) || ((w =? mw) && (t <? mt))))
  | kTopological => t <? mt
  end.

(** A vote for a color of the given weight and distances. *)
Definition vote (priority : ColorPropagationPriority) (v : Votes) (color : string)
    (weight depth_distance index_distance : Z) : Votes :=
  let weights := <[color := value_or (color_weights v) color 0 + weight]> (color_weights v) in
  let depths := <[color := Z.min (value_or (color_depths v) color int64_max) depth_distance]>
                  (color_depths v) in
  let indices := <[color := Z.min (value_or (color_topological_indices v) color int64_max)
                              index_distance]> (color_topological_indices v) in
  let w := value_or weights color 0 in
  let d := value_or depths color 0 in
  let t := value_or indices color 0 in
  let update_max_color :=
    bool_decide (max_operand_color v = None) ||
    better priority (w, d, t)
      (max_color_weight v, max_color_depth v, max_color_topological_index v) in
  if update_max_color then MkVotes weights depths indices (Some color) w d t
  else MkVotes weights depths indices (max_operand_color v) (max_color_weight v)
         (max_color_depth v) (max_color_topological_index v).

Section coloring.
Context {I C St D : Type} `{EqDecision I, !Countable I} `{!Hlo I C, !AttrStore I St}.
Context `{HashOrder} `{EqDecision D, !Countable D, !DeviceListApi D}.
Abbreviation Entries := (gmap I (Entry I)).
Implicit Types (i : I) (c : C) (s : St) (es : Entries) (if_visit : I -> bool).

(** ** ColorBackwards *)

(** What [add_visits] pushes, in order. *)
Definition add_visits es (next : I) : Result (list I) :=
  aliases ← ForEachBackwardAlias es next;
  OK (filter (fun o => opcode o <> kParameter \/ shape_IsTuple o = false) (operands next) ++ aliases).

(** The head of [to_visit] is the back of the vector. *)
Fixpoint ColorBackwards_loop (fuel : nat) (color : string) (instruction : I) es
    (to_visit : list I) s : Result St :=
  match fuel with
  | O => Fatal Diverges
  | S fuel =>
      match to_visit with
      | [] => OK s
      | next :: to_visit =>
          let loop := ColorBackwards_loop fuel color instruction es in
          if IsCustomCall instruction kCustomCallSliceOffset then loop to_visit s
          else
            derived ← DerivedConstant es next;
            if (derived : bool) then loop to_visit s
            else if negb (IsAssignedColor s next) then
              visits ← add_visits es next;
              loop (reverse visits ++ to_visit) (AssignColor next color s)
            else loop to_visit s
      end
  end.

Definition ColorBackwards (fuel : nat) (color : string) (instruction : I) es s : Result St :=
  if negb (IsAssignedColor s instruction) then Fatal LogFatal
  else
    visits ← add_visits es instruction;
    ColorBackwards_loop fuel color instruction es (reverse visits) s.

(** ** ComputeColorDepthMap *)

Definition color_depth_step (depth : gmap I Z) s (color_depth : gmap string Z) i
    : Result (gmap string Z) :=
  match Color s i with
  | Some c =>
      d ← of_option Thrown (depth !! i);
      OK (<[c := Z.max (value_or color_depth c 0) d]> color_depth)
  | None => OK color_depth
  end.

(** The result is an ordered map; of the colors of one depth the last one in the
    iteration order of the hash map stays. *)
Definition ComputeColorDepthMap c (depth : gmap I Z) s : Result (gmap Z string) :=
  color_depth ← foldM (color_depth_step depth s) ∅ (MakeInstructionPostOrder c);
  OK (foldl (fun (m : gmap Z string) '(color, d) => <[d := color]> m) ∅
        (hash_order (map_to_list color_depth))).

(** The iteration over an ordered map. *)
Definition by_depth : relation (Z * string) := fun a b => a.1 <= b.1.
#[local] Instance by_depth_dec : RelDecision by_depth := fun a b => decide (a.1 <= b.1).
Definition ascending (m : gmap Z string) : list (Z * string) :=
  merge_sort by_depth (map_to_list m).

(** ** PropagateDirectionally *)

Definition assign_alias (color : string) (fixed : gset I) s i : St :=
  if negb (IsAssignedColor s i) || bool_decide (i ∉ fixed) then AssignColor i color s else s.

Definition color_related es if_visit (fixed : gset I) (color : string)
    (st : bool * St) (related : I) : Result (bool * St) :=
  let '(changed, s) := st in
  st ← (if if_visit related && bool_decide (related ∉ fixed) then
          aliases ← ForEachAlias es related;
          OK (true, foldl (assign_alias color fixed) (AssignColor related color s) aliases)
        else OK (changed, s));
  let '(changed, s) := (st : bool * St) in
  OK (changed, if bool_decide (opcode related = kTuple) then ColorTuple related s else s).

Definition process_instruction es if_visit fixed (color : string) (related : I -> list I)
    (st : bool * St) i : Result (bool * St) :=
  if bool_decide (ColorOrDefault st.2 i = color)
  then foldM (color_related es if_visit fixed color) st (related i)
  else OK st.

Definition PropagateDirectionally (postorder : list I) (color : string) es if_visit
    (fixed : gset I) (propagate_forward : bool) s : Result (bool * St) :=
  if propagate_forward
  then foldM (process_instruction es if_visit fixed color users) (false, s) postorder
  else foldM (process_instruction es if_visit fixed color operands) (false, s) (reverse postorder).

(** ** PropagateFromUsersAndOperands *)
Section votes.
Context (priority : ColorPropagationPriority).
Context (depth topological_index : gmap I Z).

Definition add_user_or_operand if_visit (instruction : I) s (v : Votes) i : Result Votes :=
  if if_visit i then
    i ← (if bool_decide (opcode i = kBroadcast) then operand i 0 else OK i);
    OK match Color s i with
       | None => v
       | Some color =>
           vote priority v color (ByteSizeOf i)
             (Z.abs (value_or depth i int64_max - value_or depth instruction int64_max))
             (Z.abs (value_or topological_index i int64_max -
                     value_or topological_index instruction int64_max))
       end
  else OK v.

Definition count_votes es if_visit (instruction : I) s : Result Votes :=
  ops ← Operands es instruction;
  v ← foldM (add_user_or_operand if_visit instruction s) no_votes ops;
  us ← Users es instruction;
  foldM (add_user_or_operand if_visit instruction s) v us.

Definition assign_if_unassigned (color : string) s i : St :=
  if negb (IsAssignedColor s i) then AssignColor i color s else s.

Definition PropagateFromUsersAndOperands es if_visit (instruction : I) s : Result (bool * St) :=
  v ← count_votes es if_visit instruction s;
  match max_operand_color v with
  | Some color =>
      aliases ← ForEachAlias es instruction;
      OK (true, foldl (assign_if_unassigned color) (AssignColor instruction color s) aliases)
  | None => OK (false, s)
  end.
End votes.

(** ** PropagateIf *)
Section PropagateIf.
Context (priority : ColorPropagationPriority) (es : Entries) (if_visit : I -> bool).

(** The visit of an instruction in one round; [rec] colors the body of a loop. *)
Definition propagate_instruction (rec : C -> St -> Result (bool * St)) (depth index : gmap I Z)
    (st : bool * St) i : Result (bool * St) :=
  let '(propagated, s) := st in
  if bool_decide (opcode i = kTuple) then OK (propagated, ColorTuple i s)
  else
    st ← (if if_visit i && negb (IsAssignedColor s i) then
            r ← PropagateFromUsersAndOperands priority depth index es if_visit i s;
            OK (propagated || (r : bool * St).1, r.2)
          else OK (propagated, s));
    let '(propagated, s) := (st : bool * St) in
    if bool_decide (opcode i = kWhile) then
      body ← called_computation i 0;
      r ← rec body s;
      OK (propagated || (r : bool * St).1, r.2)
    else OK (propagated, s).

Definition propagate_round (rec : C -> St -> Result (bool * St)) c s : Result (bool * St) :=
  foldM (propagate_instruction rec (ComputeDepthMap c) (CreateTopologicalIndexMap c))
    (false, s) (MakeInstructionPostOrder c).

(** [while (propagated)] *)
Fixpoint propagate_rounds (rounds : nat) (rec : C -> St -> Result (bool * St)) c
    (changed : bool) s : Result (bool * St) :=
  match rounds with
  | O => Fatal Diverges
  | S rounds =>
      r ← propagate_round rec c s;
      let '(propagated, s) := (r : bool * St) in
      if propagated then propagate_rounds rounds rec c true s else OK (changed, s)
  end.

(** [fuel] bounds the nesting of loops, [rounds] the rounds of each of them. *)
Fixpoint PropagateIf (fuel rounds : nat) c s : Result (bool * St) :=
  match fuel with
  | O => Fatal Diverges
  | S fuel => propagate_rounds rounds (PropagateIf fuel rounds) c false s
  end.
End PropagateIf.

(** ** PropagateLoopColorDepth *)

(** The preprocessing passes collect the colored instructions and color their aliases. *)
Record Collected := MkCollected {
  col_changed : bool;
  col_fixed : gset I;
  col_body : option C;
}.

Definition color_aliases es i s : Result (bool * St) :=
  aliases ← ForEachAlias es i;
  foldM (fun '(changed, s) a =>
      if negb (IsAssignedColor s a) then
        color ← of_option NullDeref (Color s i); OK (true, AssignColor a color s)
      else OK (changed, s)) (false, s) aliases.

Definition collect_outside es (st : Collected * St) i : Result (Collected * St) :=
  let '(k, s) := st in
  st ← (if IsAssignedColor s i then
          r ← color_aliases es i s;
          OK (MkCollected (col_changed k || (r : bool * St).1) ({[i]} ∪ col_fixed k) (col_body k), r.2)
        else OK (k, s));
  let '(k, s) := (st : Collected * St) in
  if bool_decide (opcode i = kWhile) then
    body ← called_computation i 0;
    OK (MkCollected (col_changed k) (col_fixed k) (Some body), s)
  else OK (k, s).

Definition collect_inside es (st : gset I * St) i : Result (gset I * St) :=
  let '(fixed, s) := st in
  if IsAssignedColor s i then
    r ← color_aliases es i s; OK ({[i]} ∪ fixed, (r : bool * St).2)
  else OK (fixed, s).

Definition propagate_colors es if_visit (fixed : gset I) (postorder : list I) (forward : bool)
    (colors : list (Z * string)) (st : bool * St) : Result (bool * St) :=
  foldM (fun '(changed, s) '(_, color) =>
      r ← PropagateDirectionally postorder color es if_visit fixed forward s;
      OK (changed || (r : bool * St).1, r.2)) st colors.

Definition PropagateLoopColorDepth es if_visit c s : Result (bool * St) :=
  r ← foldM (collect_outside es) (MkCollected false ∅ None, s) (MakeInstructionPostOrder c);
  let '(k, s) := (r : Collected * St) in
  match col_body k with
  | None => OK (col_changed k, s)
  | Some body =>
      let while_postorder := MakeInstructionPostOrder body in
      r ← foldM (collect_inside es) (col_fixed k, s) while_postorder;
      let '(fixed, s) := (r : gset I * St) in
      depth_to_colors ← ComputeColorDepthMap body (ComputeDepthMap body) s;
      let colors := ascending depth_to_colors in
      st ← propagate_colors es if_visit fixed while_postorder true colors (col_changed k, s);
      propagate_colors es if_visit fixed while_postorder false (reverse colors) st
  end.

(** ** Run, between the pre- and the post-processing *)

Definition visit_array i : bool :=
  bool_decide (opcode i <> kConstant) &&
  (negb (shape_IsTuple i) || bool_decide (opcode i = kRngBitGenerator)).
Definition visit_elementwise i : bool :=
  bool_decide (opcode i <> kConstant) && negb (shape_IsTuple i) &&
  (IsElementwise i || bool_decide (opcode i = kParameter) || bool_decide (opcode i = kReduce)).
Definition visit_nontrivial i : bool :=
  bool_decide (opcode i <> kConstant) && negb (shape_IsTuple i) && bool_decide (ElementsIn i > 1).

Definition color_root (visits : nat) es (st : HloPartition D * St) i : Result (HloPartition D * St) :=
  let '(p, s) := st in
  if negb (IsAssignedColor s i) then
    r ← FindOrAllocateGlobalColor p;
    let '(color, p) := (r : string * HloPartition D) in
    s ← ColorBackwards visits color i es (AssignColor i color s);
    OK (p, s)
  else OK (p, s).

Definition Run_propagate (priority : ColorPropagationPriority) (fuel rounds visits : nat) es
    (entry : C) (p : HloPartition D) s : Result (HloPartition D * St) :=
  r ← PropagateLoopColorDepth es visit_array entry s;
  r ← PropagateIf priority es visit_elementwise fuel rounds entry (r : bool * St).2;
  r ← PropagateIf priority es visit_nontrivial fuel rounds entry (r : bool * St).2;
  r ← PropagateIf priority es visit_array fuel rounds entry (r : bool * St).2;
  let s := (r : bool * St).2 in
  let root := root_instruction entry in
  if shape_IsTuple root then foldM (color_root visits es) (p, s) (operands root)
  else color_root visits es (p, s) root.
End coloring.
