(* ===== verification/ColoringVotes.v ===== *)
(** * The color that an uncolored instruction takes

    [PropagateFromUsersAndOperands] keeps running scores of the colors of the
    neighbors and the best color so far.  Here the scores are given a definition
    without state, and the color that wins is shown to be the one that no color
    beats, for each of the three priorities. *)
From S2P Require Import Prelude Hlo Instruction Partition Utils InstructionProperties Coloring.
From Stdlib Require Import ZifyBool.
Local Open Scope Z_scope.

Record Ballot := MkBallot {
  b_color : string;
  b_weight : Z;
  b_depth : Z;
  b_index : Z;
}.

Definition cast (priority : ColorPropagationPriority) (v : Votes) (b : Ballot) : Votes :=
  vote priority v (b_color b) (b_weight b) (b_depth b) (b_index b).

(** ** Scores without state *)

Definition for_color (c : string) (bs : list Ballot) : list Ballot :=
  filter (fun b => b_color b = c) bs.

Definition weight_of (bs : list Ballot) (c : string) : Z :=
  foldr Z.add 0 (b_weight <$> for_color c bs).
Definition depth_distance_of (bs : list Ballot) (c : string) : Z :=
  foldr Z.min int64_max (b_depth <$> for_color c bs).
Definition index_distance_of (bs : list Ballot) (c : string) : Z :=
  foldr Z.min int64_max (b_index <$> for_color c bs).

Definition score (bs : list Ballot) (c : string) : Z * Z * Z :=
  (weight_of bs c, depth_distance_of bs c, index_distance_of bs c).

(** [c] has a vote and no color beats it. *)
Definition wins (priority : ColorPropagationPriority) (bs : list Ballot) (c : string) : Prop :=
  c ∈ b_color <$> bs /\
  forall c', c' ∈ b_color <$> bs -> better priority (score bs c') (score bs c) = false.

(** ** One more ballot *)

Lemma foldr_add_snoc l x : foldr Z.add 0 (l ++ [x]) = foldr Z.add 0 l + x.
Proof. induction l as [|y l IH]; cbn; [lia|]. rewrite IH. lia. Qed.

Lemma foldr_min_snoc m l x : foldr Z.min m (l ++ [x]) = Z.min (foldr Z.min m l) x.
Proof. induction l as [|y l IH]; cbn; [lia|]. rewrite IH. lia. Qed.

Lemma for_color_snoc c bs b :
  for_color c (bs ++ [b]) = if decide (b_color b = c) then for_color c bs ++ [b] else for_color c bs.
Proof.
  unfold for_color. rewrite filter_app, filter_cons, filter_nil. case_decide; [done|].
  by rewrite app_nil_r.
Qed.

Lemma score_snoc_ne bs b c : b_color b <> c -> score (bs ++ [b]) c = score bs c.
Proof.
  intros Hne. unfold score, weight_of, depth_distance_of, index_distance_of.
  by rewrite for_color_snoc, decide_False.
Qed.

Lemma score_snoc_eq bs b :
  score (bs ++ [b]) (b_color b) =
  (weight_of bs (b_color b) + b_weight b, Z.min (depth_distance_of bs (b_color b)) (b_depth b),
   Z.min (index_distance_of bs (b_color b)) (b_index b)).
Proof.
  unfold score, weight_of, depth_distance_of, index_distance_of.
  rewrite for_color_snoc, decide_True by done.
  rewrite !fmap_app. cbn [fmap list_fmap]. by rewrite foldr_add_snoc, !foldr_min_snoc.
Qed.

(** A color without a ballot has the score that the tables assume. *)
Lemma score_none bs c : c ∉ b_color <$> bs -> score bs c = (0, int64_max, int64_max).
Proof.
  intros Hc. unfold score, weight_of, depth_distance_of, index_distance_of.
  assert (for_color c bs = []) as ->; [|done].
  induction bs as [|b bs IH]; [done|]. unfold for_color in *. rewrite fmap_cons in Hc.
  rewrite filter_cons, decide_False by set_solver. apply IH. set_solver.
Qed.

(** ** The order of scores *)

Definition improves (new old : Z * Z * Z) : Prop :=
  old.1.1 <= new.1.1 /\ new.1.2 <= old.1.2 /\ new.2 <= old.2.

(** The scores that the priority looks at. *)
Definition same_rank (priority : ColorPropagationPriority) (a b : Z * Z * Z) : Prop :=
  match priority with kTopological => a.2 = b.2 | _ => a = b end.

Lemma better_irrefl p a : better p a a = false.
Proof. destruct a as [[w d] t], p; cbn; lia. Qed.

Lemma better_trans p a b c : better p b c = false -> better p a b = false -> better p a c = false.
Proof. destruct a as [[??]?], b as [[??]?], c as [[??]?], p; cbn; lia. Qed.

Lemma better_asym p a b : better p a b = true -> better p b a = false.
Proof. destruct a as [[??]?], b as [[??]?], p; cbn; lia. Qed.

Lemma better_same_rank_l p a b c : same_rank p a b -> better p a c = better p b c.
Proof. destruct a as [[??]?], b as [[??]?], c as [[??]?], p; cbn; intros Hr; simplify_eq; lia. Qed.

Lemma better_same_rank_r p a b c : same_rank p a b -> better p c a = better p c b.
Proof. destruct a as [[??]?], b as [[??]?], c as [[??]?], p; cbn; intros Hr; simplify_eq; lia. Qed.

Lemma improves_rank p new old :
  improves new old -> better p new old = false -> same_rank p new old.
Proof.
  destruct new as [[??]?], old as [[??]?], p; unfold improves; cbn; intros (?&?&?) ?;
    try (f_equal; [f_equal|]); lia.
Qed.

Lemma better_improves p new old : improves new old -> better p old new = false.
Proof. destruct new as [[??]?], old as [[??]?], p; unfold improves; cbn; lia. Qed.

Lemma score_improves bs b c :
  0 <= b_weight b -> improves (score (bs ++ [b]) c) (score bs c).
Proof.
  intros Hw. destruct (decide (b_color b = c)) as [<-|Hne].
  - rewrite score_snoc_eq. unfold improves, score; cbn. lia.
  - rewrite score_snoc_ne by done. unfold improves. lia.
Qed.

(** ** The running state *)

Definition tables (v : Votes) (c : string) : Z * Z * Z :=
  (value_or (color_weights v) c 0, value_or (color_depths v) c int64_max,
   value_or (color_topological_indices v) c int64_max).

Definition best (v : Votes) : Z * Z * Z :=
  (max_color_weight v, max_color_depth v, max_color_topological_index v).

Record votes_ok (p : ColorPropagationPriority) (bs : list Ballot) (v : Votes) : Prop := {
  ok_tables : forall c, tables v c = score bs c;
  ok_none : max_operand_color v = None <-> bs = [];
  ok_best : forall c, max_operand_color v = Some c -> wins p bs c /\ same_rank p (score bs c) (best v);
}.

Lemma tables_vote p v c w d t c' :
  tables (vote p v c w d t) c' =
  if decide (c = c') then ((tables v c').1.1 + w, Z.min (tables v c').1.2 d, Z.min (tables v c').2 t)
  else tables v c'.
Proof.
  unfold vote, tables. destruct (bool_decide _ || _); cbn; unfold value_or; case_decide; subst;
    by rewrite ?lookup_insert_eq, ?lookup_insert_ne by done.
Qed.

(** What the vote compares with the best. *)
Definition new_score (v : Votes) (b : Ballot) : Z * Z * Z :=
  let c := b_color b in
  ((tables v c).1.1 + b_weight b, Z.min (tables v c).1.2 (b_depth b), Z.min (tables v c).2 (b_index b)).

Lemma cast_best p v b :
  let update := bool_decide (max_operand_color v = None) || better p (new_score v b) (best v) in
  max_operand_color (cast p v b) = (if update then Some (b_color b) else max_operand_color v) /\
  best (cast p v b) = if update then new_score v b else best v.
Proof.
  cbv zeta. unfold cast, vote, new_score, tables, best.
  assert (forall (m : gmap string Z) c x, value_or (<[c:=x]> m) c 0 = x) as Hv.
  { intros m c x. unfold value_or. by rewrite lookup_insert_eq. }
  rewrite !Hv. cbn [fst snd]. by destruct (bool_decide _ || _).
Qed.

Lemma wins_snoc_new p bs b :
  (forall c, c ∈ b_color <$> bs -> better p (score (bs ++ [b]) c) (score (bs ++ [b]) (b_color b)) = false) ->
  wins p (bs ++ [b]) (b_color b).
Proof.
  intros Hb. split; [rewrite fmap_app; set_solver|]. intros c. rewrite fmap_app, elem_of_app.
  intros [Hc|Hc%list_elem_of_singleton]; [by apply Hb|]. subst c. apply better_irrefl.
Qed.

Lemma votes_ok_cast p bs v b :
  0 <= b_weight b -> votes_ok p bs v -> votes_ok p (bs ++ [b]) (cast p v b).
Proof.
  intros Hw [Htab Hnone Hbest].
  assert (new_score v b = score (bs ++ [b]) (b_color b)) as Hnew.
  { unfold new_score. rewrite Htab, score_snoc_eq. done. }
  destruct (cast_best p v b) as [Hcol Hbst]. rewrite Hnew in Hcol, Hbst.
  assert (bool_decide (max_operand_color v = None) =
          match max_operand_color v with None => true | Some _ => false end) as Hdec
    by (destruct (max_operand_color v); [by apply bool_decide_eq_false_2|by apply bool_decide_eq_true_2]).
  rewrite Hdec in Hcol, Hbst. clear Hdec Hnew. split.
  - intros c. unfold cast. rewrite tables_vote, Htab. case_decide as Hc.
    + subst c. by rewrite score_snoc_eq.
    + by rewrite score_snoc_ne.
  - rewrite Hcol. destruct (max_operand_color v) as [c|] eqn:Hv; cbn [orb].
    + destruct (better _ _ _); (split; [done|]; by intros [_ ?]%app_nil).
    + split; [done|]. by intros [_ ?]%app_nil.
  - intros c Hc. rewrite Hcol in Hc. rewrite Hbst.
    destruct (max_operand_color v) as [c0|] eqn:Hv; cbn [orb] in Hc |- *.
    + destruct (Hbest c0 eq_refl) as [[Hin Hwin] Hrank].
      assert (same_rank p (score bs c0) (best v)) as Hrank' by done.
      destruct (better p (score (bs ++ [b]) (b_color b)) (best v)) eqn:Hb.
      * injection Hc as <-. split; [|destruct p; done]. apply wins_snoc_new. intros c Hc.
        destruct (decide (b_color b = c)) as [<-|Hne]; [apply better_irrefl|].
        rewrite score_snoc_ne by done. eapply better_trans; [|by apply Hwin].
        rewrite (better_same_rank_l p _ _ _ Hrank). by apply better_asym.
      * injection Hc as <-.
        assert (same_rank p (score (bs ++ [b]) c0) (score bs c0)) as Hsame.
        { destruct (decide (b_color b = c0)) as [<-|Hne].
          - apply improves_rank; [by apply score_improves|].
            by rewrite (better_same_rank_r p _ _ _ Hrank).
          - rewrite score_snoc_ne by done. by destruct p. }
        split; [|destruct p; cbn in *; congruence]. split; [rewrite fmap_app; set_solver|].
        intros c. rewrite (better_same_rank_r p _ _ _ Hsame), fmap_app, elem_of_app.
        intros [Hc|Hc%list_elem_of_singleton].
        -- destruct (decide (b_color b = c)) as [<-|Hne].
           ++ by rewrite (better_same_rank_r p _ _ _ Hrank).
           ++ rewrite score_snoc_ne by done. by apply Hwin.
        -- subst c. by rewrite (better_same_rank_r p _ _ _ Hrank).
    + injection Hc as <-. split; [|destruct p; done].
      rewrite (proj1 Hnone eq_refl). apply (wins_snoc_new p []). set_solver.
Qed.

Lemma votes_ok_nil p : votes_ok p [] no_votes.
Proof. by split. Qed.

Lemma votes_ok_all p bs :
  Forall (fun b => 0 <= b_weight b) bs -> votes_ok p bs (foldl (cast p) no_votes bs).
Proof.
  induction bs as [|b bs IH] using rev_ind; [intros _; apply votes_ok_nil|].
  intros [Hbs Hb]%Forall_app. apply Forall_cons in Hb as [Hb _]. rewrite foldl_app.
  apply votes_ok_cast; [done|by apply IH].
Qed.

(** ** The instruction's neighbors *)
Section neighbors.
Context {I C St : Type} `{EqDecision I, !Countable I} `{!Hlo I C, !AttrStore I St, !AttrStoreLaws I St}.
Abbreviation Entries := (gmap I (Entry I)).
Implicit Types (i : I) (s : St) (es : Entries) (if_visit : I -> bool).
Context (priority : ColorPropagationPriority) (depth index : gmap I Z).

(** The instruction that votes in place of a neighbor. *)
Definition voter i : Result I := if bool_decide (opcode i = kBroadcast) then operand i 0 else OK i.

(** The ballot of a neighbor of [x], if it is visited and has a color. *)
Definition ballot if_visit (x : I) s i : Result (option Ballot) :=
  if if_visit i then
    i ← voter i;
    OK (c ← Color s i;
        Some (MkBallot c (ByteSizeOf i)
                (Z.abs (value_or depth i int64_max - value_or depth x int64_max))
                (Z.abs (value_or index i int64_max - value_or index x int64_max))))
  else OK None.

Lemma add_user_or_operand_ballot if_visit x s v i :
  add_user_or_operand priority depth index if_visit x s v i =
  b ← ballot if_visit x s i; OK (match b with Some b => cast priority v b | None => v end).
Proof.
  unfold add_user_or_operand, ballot, voter. destruct (if_visit i); [|done].
  destruct (if bool_decide (opcode i = kBroadcast) then operand i 0 else OK i) as [j| |]; [|done..].
  cbn. by destruct (Color s j).
Qed.

(** The ballots of a list of neighbors, in order. *)
Fixpoint ballots if_visit (x : I) s (l : list I) : Result (list Ballot) :=
  match l with
  | [] => OK []
  | i :: l =>
      b ← ballot if_visit x s i; bs ← ballots if_visit x s l;
      OK (match b with Some b => b :: bs | None => bs end)
  end.

Lemma foldM_ballots if_visit x s l v v' :
  foldM (add_user_or_operand priority depth index if_visit x s) v l = OK v' <->
  exists bs, ballots if_visit x s l = OK bs /\ v' = foldl (cast priority) v bs.
Proof.
  revert v. induction l as [|i l IH]; intros v; cbn [foldM ballots].
  { split; [intros [= ->]; by exists []|]. by intros (? & [= <-] & ->). }
  rewrite add_user_or_operand_ballot.
  destruct (ballot if_visit x s i) as [b| |]; cbn [mbind Result_bind]; [|naive_solver..].
  rewrite IH. destruct (ballots if_visit x s l) as [bs| |]; cbn [mbind Result_bind]; [|naive_solver..].
  destruct b; naive_solver.
Qed.

Lemma ballots_app if_visit x s l1 l2 bs :
  ballots if_visit x s (l1 ++ l2) = OK bs <->
  exists bs1 bs2, ballots if_visit x s l1 = OK bs1 /\ ballots if_visit x s l2 = OK bs2 /\
    bs = bs1 ++ bs2.
Proof.
  revert bs. induction l1 as [|i l1 IH]; intros bs; cbn [app ballots].
  { split; [intros; by exists [], bs|]. by intros (? & ? & [= <-] & ? & ->). }
  destruct (ballot if_visit x s i) as [b| |]; cbn [mbind Result_bind]; [|naive_solver..].
  split.
  - intros (bs' & Hbs' & [= <-])%Result_bind_OK. apply IH in Hbs' as (bs1 & bs2 & -> & -> & ->).
    eexists _, bs2. split; [reflexivity|]. split; [done|]. by destruct b.
  - intros (bs1 & bs2 & (bs1' & H1 & [= <-])%Result_bind_OK & H2 & ->).
    rewrite (proj2 (IH (bs1' ++ bs2))) by eauto. cbn. by destruct b.
Qed.

Lemma ballots_Forall if_visit x s l bs :
  (forall i, 0 <= ByteSizeOf i) -> ballots if_visit x s l = OK bs ->
  Forall (fun b => 0 <= b_weight b) bs.
Proof.
  intros Hsize. revert bs. induction l as [|i l IH]; intros bs; cbn [ballots].
  { intros [= <-]. constructor. }
  intros (b & Hb & (bs' & Hbs' & [= <-])%Result_bind_OK)%Result_bind_OK.
  specialize (IH _ Hbs'). destruct b as [b|]; [|done]. constructor; [|done].
  unfold ballot in Hb. destruct (if_visit i); [|done]. run_inv.
  match goal with H : context [Color s ?j] |- _ => destruct (Color s j) as [c|] end; [|done].
  simplify_eq/=. apply Hsize.
Qed.

(** Assigning a color to aliases leaves the colored instructions alone. *)
Lemma assign_if_unassigned_colors color s l j :
  Color (foldl (assign_if_unassigned color) s l) j =
  if decide (Color s j = None /\ j ∈ l) then Some color else Color s j.
Proof.
  revert s. induction l as [|i l IH]; intros s; cbn [foldl].
  - rewrite decide_False; [done|]. set_solver.
  - rewrite IH. unfold assign_if_unassigned.
    destruct (IsAssignedColor s i) eqn:Hi; cbn [negb].
    + apply IsAssignedColor_spec in Hi as [c Hc].
      repeat case_decide; try done; exfalso; set_solver.
    + apply IsAssignedColor_false in Hi. rewrite Color_AssignColor.
      destruct (decide (i = j)) as [->|Hij].
      * rewrite Hi. rewrite decide_False by (by intros [? _]).
        rewrite decide_True by set_solver. done.
      * repeat case_decide; try done; exfalso; set_solver.
Qed.

Lemma PropagateFromUsersAndOperands_colors es if_visit x s changed s' :
  PropagateFromUsersAndOperands priority depth index es if_visit x s = OK (changed, s') ->
  exists v, count_votes priority depth index es if_visit x s = OK v /\
    match max_operand_color v with
    | None => changed = false /\ s' = s
    | Some c => changed = true /\ exists aliases, ForEachAlias es x = OK aliases /\
        forall j, Color s' j = if decide (j = x \/ (Color s j = None /\ j ∈ aliases))
                               then Some c else Color s j
    end.
Proof.
  unfold PropagateFromUsersAndOperands. intros (v & Hv & Hrun)%Result_bind_OK.
  exists v. split; [done|]. destruct (max_operand_color v) as [c|].
  - apply Result_bind_OK in Hrun as (aliases & Ha & Hrun). injection Hrun as <- <-.
    split; [done|]. exists aliases. split; [done|].
    intros j. rewrite assign_if_unassigned_colors, Color_AssignColor.
    destruct (decide (x = j)) as [->|Hne].
    + rewrite (decide_True (P := j = j \/ _)) by auto. by rewrite decide_False by (by intros [? _]).
    + repeat case_decide; try done; exfalso; naive_solver.
  - by injection Hrun as <- <-.
Qed.

(** C27: An uncolored instruction that is visited takes the color that no other color of
    its neighbors beats: the neighbors are the operands behind its backward aliases
    and the users behind its forward aliases, each one that passes the filter votes
    with the size of its shape and its distances (a broadcast lets its operand vote).
    The aliases without a color take it too; without a vote nothing changes. *)
Theorem PropagateFromUsersAndOperands_spec es if_visit x s changed s' :
  (forall i, 0 <= ByteSizeOf i) ->
  PropagateFromUsersAndOperands priority depth index es if_visit x s = OK (changed, s') ->
  exists ops us bs, Operands es x = OK ops /\ Users es x = OK us /\
    ballots if_visit x s (ops ++ us) = OK bs /\
    ((changed = false /\ bs = [] /\ s' = s) \/
     (changed = true /\ exists c aliases, wins priority bs c /\ ForEachAlias es x = OK aliases /\
        forall j, Color s' j = if decide (j = x \/ (Color s j = None /\ j ∈ aliases))
                               then Some c else Color s j)).
Proof.
  intros Hsize (v & Hv & Hrun)%PropagateFromUsersAndOperands_colors. unfold count_votes in Hv.
  apply Result_bind_OK in Hv as (ops & Hops & Hv). apply Result_bind_OK in Hv as (v1 & Hv1 & Hv).
  apply Result_bind_OK in Hv as (us & Hus & Hv2).
  apply foldM_ballots in Hv1 as (bs1 & Hb1 & ->). apply foldM_ballots in Hv2 as (bs2 & Hb2 & ->).
  rewrite <- foldl_app in Hrun.
  assert (ballots if_visit x s (ops ++ us) = OK (bs1 ++ bs2)) as Hbs
    by (apply ballots_app; eauto).
  pose proof (votes_ok_all priority _ (ballots_Forall _ _ _ _ _ Hsize Hbs)) as [_ Hnone Hbest].
  exists ops, us, (bs1 ++ bs2). split; [done|]. split; [done|]. split; [done|].
  destruct (max_operand_color _) as [c|].
  - right. destruct Hrun as [-> (aliases & Ha & Hcol)]. split; [done|]. exists c, aliases.
    split; [by apply Hbest|]. done.
  - left. destruct Hrun as [-> ->]. split; [done|]. split; [|done]. by apply Hnone.
Qed.
End neighbors.
