(* ===== verification/ColoringFacts.v ===== *)
(** * Propagation to a fixpoint

    [PropagateIf] repeats rounds over a computation and the bodies of its loops.  It
    keeps the colors it finds and invents none, it stops only when no instruction
    that is visited can take a color from its neighbors, and it stops: every round
    but the last gives a color to an instruction that had none. *)
From S2P Require Import Prelude Hlo Instruction Partition Utils InstructionProperties PropertiesFacts Coloring ColoringVotes.
Local Open Scope Z_scope.

Section facts.
Context {I C St : Type} `{EqDecision I, !Countable I} `{!Hlo I C, !AttrStore I St, !AttrStoreLaws I St}.
Abbreviation Entries := (gmap I (Entry I)).
Implicit Types (i j : I) (s : St) (es : Entries) (if_visit : I -> bool).

(** ** Keeping colors *)

(** Colored instructions stay colored, with their color unless they are tuples, and
    every color was there before. *)
Record extends s s' : Prop := {
  ext_colored : forall j, is_Some (Color s j) -> is_Some (Color s' j);
  ext_color : forall j, opcode j <> kTuple -> is_Some (Color s j) -> Color s' j = Color s j;
  ext_palette : forall j c, Color s' j = Some c -> exists k, Color s k = Some c;
}.

(** Only tuples may have changed. *)
Definition same_colors s s' : Prop := forall j, opcode j <> kTuple -> Color s' j = Color s j.

#[export] Instance extends_preorder : PreOrder extends.
Proof.
  split; [by split; eauto|]. intros s1 s2 s3 [A1 A2 A3] [B1 B2 B3]. split.
  - auto.
  - intros j Ht Hj. rewrite B2; auto.
  - intros j c Hj. destruct (B3 _ _ Hj) as [k Hk]. eauto.
Qed.

#[export] Instance same_colors_preorder : PreOrder same_colors.
Proof. split; [by intros ???|]. intros s1 s2 s3 H1 H2 j Hj. by rewrite H2, H1. Qed.

Lemma Color_ColorTuple i s j :
  Color (ColorTuple i s) j = Color s j \/
  (j = i /\ exists k c, Color (ColorTuple i s) j = Some c /\ Color s k = Some c).
Proof.
  unfold ColorTuple. destruct (uniform_color s (operands i) None) as [c|] eqn:Hu; [|by left].
  apply uniform_color_None in Hu as [Hne Hall]. rewrite Color_AssignColor.
  case_decide as Hij; [|by left]. right. split; [done|].
  destruct (operands i) as [|o ops]; [done|]. apply Forall_cons in Hall as [Ho _]. eauto.
Qed.

Lemma extends_ColorTuple i s : opcode i = kTuple -> extends s (ColorTuple i s).
Proof.
  intros Ht. split.
  - intros j Hj. destruct (Color_ColorTuple i s j) as [->|(-> & k & c & -> & _)]; eauto.
  - intros j Hj _. by destruct (Color_ColorTuple i s j) as [->|(-> & _)].
  - intros j c Hc. destruct (Color_ColorTuple i s j) as [Heq|(-> & k & c' & Hc' & Hk)].
    + rewrite Heq in Hc. eauto.
    + rewrite Hc in Hc'. simplify_eq. eauto.
Qed.

Lemma same_colors_ColorTuple i s : opcode i = kTuple -> same_colors s (ColorTuple i s).
Proof. intros Ht j Hj. by destruct (Color_ColorTuple i s j) as [->|(-> & _)]. Qed.

(** ** One instruction *)
Section instruction.
Context (priority : ColorPropagationPriority) (es : Entries) (if_visit : I -> bool).

Lemma vote_winner p v color w d t (c : string) :
  max_operand_color (vote p v color w d t) = Some c -> c = color \/ max_operand_color v = Some c.
Proof. unfold vote. destruct (_ || _); cbn; [intros [= ->]; by left|by right]. Qed.

Lemma votes_palette depth index x s l v v' :
  (forall c, max_operand_color v = Some c -> exists k, Color s k = Some c) ->
  foldM (add_user_or_operand priority depth index if_visit x s) v l = OK v' ->
  forall c, max_operand_color v' = Some c -> exists k, Color s k = Some c.
Proof.
  intros Hv. apply (foldM_inv (fun _ v => forall c, max_operand_color v = Some c ->
                                exists k, Color s k = Some c)); [done|].
  intros _ i _ v1 v2 _ Hv1. unfold add_user_or_operand. destruct (if_visit i); [|by intros [= <-]].
  intros (i' & _ & [= <-])%Result_bind_OK c. destruct (Color s i') as [ci|] eqn:Hci; [|by apply Hv1].
  intros [->|Hc]%vote_winner; eauto.
Qed.

Lemma count_votes_palette depth index x s v c :
  count_votes priority depth index es if_visit x s = OK v -> max_operand_color v = Some c ->
  exists k, Color s k = Some c.
Proof.
  unfold count_votes. intros Hv. run_inv. eapply votes_palette; [|done].
  eapply votes_palette; [|done]. done.
Qed.

Lemma extends_PropagateFromUsersAndOperands depth index x s b s' :
  Color s x = None ->
  PropagateFromUsersAndOperands priority depth index es if_visit x s = OK (b, s') ->
  extends s s' /\ (b = false -> s' = s) /\ (b = true -> is_Some (Color s' x)).
Proof.
  intros Hx (v & Hv & Hrun)%PropagateFromUsersAndOperands_colors.
  destruct (max_operand_color v) as [c|] eqn:Hc; [|by destruct Hrun as [-> ->]].
  destruct Hrun as [-> (aliases & _ & Hcol)]. split; [|split; [done|]].
  - assert (forall j, is_Some (Color s j) -> Color s' j = Color s j) as Hkeep.
    { intros j [cj Hj]. rewrite Hcol, decide_False; [done|]. intros [->|[? _]]; congruence. }
    split; auto.
    + intros j Hj. by rewrite Hkeep.
    + intros j cj. rewrite Hcol. case_decide; [|eauto]. intros [= <-].
      by eapply count_votes_palette.
  - intros _. rewrite Hcol, decide_True by auto. eauto.
Qed.
End instruction.

(** ** Loops in loops *)

(** [c'] is [c] or the body of a loop in it, at any depth. *)
Inductive loop_nest : C -> C -> Prop :=
  | loop_here c : loop_nest c c
  | loop_inside c i body c' :
      i ∈ MakeInstructionPostOrder c -> opcode i = kWhile -> called_computation i 0 = OK body ->
      loop_nest body c' -> loop_nest c c'.

(** The instructions of a computation and of the bodies of its loops. *)
Fixpoint nest_instructions (fuel : nat) (c : C) : list I :=
  match fuel with
  | O => []
  | S fuel =>
      MakeInstructionPostOrder c ++
      (MakeInstructionPostOrder c ≫= fun i =>
         if decide (opcode i = kWhile) then
           match called_computation i 0 with OK body => nest_instructions fuel body | _ => [] end
         else [])
  end.

Lemma nest_instructions_body fuel c i body :
  i ∈ MakeInstructionPostOrder c -> opcode i = kWhile -> called_computation i 0 = OK body ->
  nest_instructions fuel body ⊆ nest_instructions (S fuel) c.
Proof.
  intros Hi Hw Hb j Hj. cbn [nest_instructions]. apply elem_of_app. right.
  apply elem_of_bind_list. exists i. by rewrite decide_True, Hb.
Qed.

Section PropagateIf_facts.
Context (priority : ColorPropagationPriority) (es : Entries) (if_visit : I -> bool).
Abbreviation run := (PropagateIf priority es if_visit).
Abbreviation votes c := (count_votes priority (ComputeDepthMap c) (CreateTopologicalIndexMap c) es if_visit).

(** The outcome of a visit: what changed, and that a color was given if it says so. *)
Definition progress (l : list I) s (r : bool * St) : Prop :=
  extends s r.2 /\ (r.1 = false -> same_colors s r.2) /\
  (r.1 = true -> exists j, j ∈ l /\ Color s j = None /\ is_Some (Color r.2 j)).

Lemma progress_refl l s : progress l s (false, s).
Proof. done. Qed.

Lemma progress_trans l s r1 r2 :
  progress l s r1 -> progress l r1.2 r2 -> progress l s (r1.1 || r2.1, r2.2).
Proof.
  intros (E1 & S1 & G1) (E2 & S2 & G2). split; [by etrans|]. cbn. split.
  - intros [Hr1 Hr2]%orb_false_iff. trans r1.2; auto.
  - intros Hr. apply orb_true_iff in Hr as [Hr|Hr].
    + destruct (G1 Hr) as (j & Hj & Hn & Hs). exists j. split; [done|]. split; [done|].
      by apply (ext_colored _ _ E2).
    + destruct (G2 Hr) as (j & Hj & Hn & Hs). exists j. split; [done|]. split; [|done].
      destruct (Color s j) eqn:Hc; [|done].
      destruct (ext_colored _ _ E1 j ltac:(by eexists)) as [? ?]. congruence.
Qed.

Lemma progress_weaken l l' s r : l ⊆ l' -> progress l s r -> progress l' s r.
Proof. intros Hl (E & Sm & G). split; [done|]. split; [done|]. intros Hr.
  destruct (G Hr) as (j & Hj & Hc). exists j. split; [by apply Hl|done].
Qed.

Lemma progress_propagate_instruction rec l c s0 r i r' :
  (forall body s r, opcode i = kWhile -> called_computation i 0 = OK body ->
     rec body s = OK r -> progress l s r) ->
  i ∈ l -> progress l s0 r ->
  propagate_instruction priority es if_visit rec (ComputeDepthMap c) (CreateTopologicalIndexMap c)
    r i = OK r' ->
  progress l s0 r'.
Proof.
  intros Hrec Hi Hr Hrun. destruct r as [b s]. unfold propagate_instruction in Hrun.
  assert (forall r1, progress l s r1 -> progress l s0 (b || r1.1, r1.2)) as Hstep.
  { intros r1 Hr1. exact (progress_trans _ _ (b, s) r1 Hr Hr1). }
  case_bool_decide as Ht.
  { injection Hrun as <-. rewrite <- (orb_false_r b). apply (Hstep (false, _)). split; cbn.
    - by apply extends_ColorTuple.
    - split; [|done]. intros _. by apply same_colors_ColorTuple. }
  apply Result_bind_OK in Hrun as ([b1 s1] & H1 & Hrun).
  assert (progress l s0 (b1, s1)) as Hr1.
  { destruct (if_visit i && negb (IsAssignedColor s i)) eqn:Hv; [|by injection H1 as <- <-].
    apply Result_bind_OK in H1 as ([b2 s2] & H2 & [= <- <-]).
    apply andb_true_iff in Hv as [_ Hv%negb_true_iff%IsAssignedColor_false].
    destruct (extends_PropagateFromUsersAndOperands _ _ _ _ _ _ _ _ _ Hv H2) as (E & Sm & G).
    apply (Hstep (b2, s2)). split; [done|]. split; cbn.
    - intros Hb. by rewrite (Sm Hb).
    - intros Hb. exists i. auto. }
  case_bool_decide as Hw; [|by injection Hrun as <-].
  apply Result_bind_OK in Hrun as (body & Hb & Hrun).
  apply Result_bind_OK in Hrun as (r2 & Hr2 & [= <-]).
  apply (progress_trans _ _ (b1, s1)); [done|]. by eapply Hrec.
Qed.

Lemma progress_round rec l c s r :
  (forall i body s r, i ∈ MakeInstructionPostOrder c -> opcode i = kWhile ->
     called_computation i 0 = OK body -> rec body s = OK r -> progress l s r) ->
  MakeInstructionPostOrder c ⊆ l ->
  propagate_round priority es if_visit rec c s = OK r -> progress l s r.
Proof.
  intros Hrec Hl Hrun. unfold propagate_round in Hrun.
  revert Hrun. apply (foldM_inv (fun _ r => progress l s r)); [apply progress_refl|].
  intros done i rest r1 r2 Heq Hr1 Hr2.
  assert (i ∈ MakeInstructionPostOrder c) as Hi by (rewrite Heq; set_solver).
  eapply progress_propagate_instruction; [|by apply Hl|exact Hr1|exact Hr2]. eauto.
Qed.

Lemma progress_rounds rounds rec l c b s r :
  (forall s r, propagate_round priority es if_visit rec c s = OK r -> progress l s r) ->
  propagate_rounds priority es if_visit rounds rec c b s = OK r ->
  exists b', r.1 = b || b' /\ progress l s (b', r.2).
Proof.
  intros Hround. revert b s. induction rounds as [|rounds IH]; intros b s; cbn [propagate_rounds]; [done|].
  intros ([p s1] & H1 & Hrun)%Result_bind_OK. pose proof (Hround _ _ H1) as Hp.
  destruct p.
  - destruct (IH _ _ Hrun) as (b' & Hb' & Hp'). exists true. rewrite Hb', orb_true_r. split; [done|].
    apply (progress_trans _ _ (true, s1) (b', r.2)); done.
  - injection Hrun as <-. exists false. rewrite orb_false_r. done.
Qed.

Lemma progress_PropagateIf fuel rounds c s r :
  run fuel rounds c s = OK r -> progress (nest_instructions fuel c) s r.
Proof.
  revert c s r. induction fuel as [|fuel IH]; intros c s r; cbn [PropagateIf]; [done|].
  intros Hrun. eapply progress_rounds in Hrun as (b' & Hb & Hp).
  { cbn in Hb. subst b'. by destruct r. }
  intros s1 r1 H1. eapply (progress_round (run fuel rounds) _ c);
    [|intros j Hj; apply elem_of_app; by left|exact H1].
  intros i body s2 r2 Hi Hw Hb Hr. eapply progress_weaken; [|by apply (IH body)].
  by eapply nest_instructions_body.
Qed.

(** ** The fixpoint *)

(** An instruction that is visited and has no color gets no vote. *)
Definition quiet c s i : Prop :=
  opcode i <> kTuple -> if_visit i = true -> Color s i = None ->
  exists v, count_votes priority (ComputeDepthMap c) (CreateTopologicalIndexMap c) es if_visit i s
              = OK v /\ max_operand_color v = None.

Definition settled c s : Prop := forall i, i ∈ MakeInstructionPostOrder c -> quiet c s i.

(** No tuple votes: the filter rejects tuples, and a broadcast is not one of a tuple. *)
Hypothesis (visit_no_tuple : forall i, if_visit i = true -> opcode i <> kTuple).
Hypothesis (broadcast_no_tuple : forall i o,
  opcode i = kBroadcast -> operand i 0 = OK o -> opcode o <> kTuple).

Lemma add_user_or_operand_same depth index x s s' v i :
  same_colors s s' ->
  add_user_or_operand priority depth index if_visit x s' v i =
  add_user_or_operand priority depth index if_visit x s v i.
Proof.
  intros Hs. unfold add_user_or_operand. destruct (if_visit i) eqn:Hv; [|done].
  case_bool_decide as Hb.
  - destruct (operand i 0) as [o| |] eqn:Ho; [|done..]. cbn. by rewrite (Hs o) by eauto.
  - cbn. by rewrite (Hs i) by eauto.
Qed.

Lemma count_votes_same depth index x s s' :
  same_colors s s' ->
  count_votes priority depth index es if_visit x s' = count_votes priority depth index es if_visit x s.
Proof.
  intros Hs. unfold count_votes. destruct (Operands es x) as [ops| |]; [|done..].
  cbn [mbind Result_bind].
  rewrite (foldM_ext _ (add_user_or_operand priority depth index if_visit x s) _ ops)
    by (intros; by apply add_user_or_operand_same).
  destruct (foldM _ no_votes ops) as [v| |]; [|done..]. cbn [mbind Result_bind].
  destruct (Users es x) as [us| |]; [|done..]. cbn [mbind Result_bind].
  apply foldM_ext. intros. by apply add_user_or_operand_same.
Qed.

Lemma quiet_same c s s' i : same_colors s s' -> quiet c s i -> quiet c s' i.
Proof.
  intros Hs Hq Ht Hv Hn. rewrite (Hs i Ht) in Hn. rewrite (count_votes_same _ _ _ _ _ Hs). auto.
Qed.

Lemma settled_same c s s' : same_colors s s' -> settled c s -> settled c s'.
Proof. intros Hs Hc i Hi. eapply quiet_same; [done|by apply Hc]. Qed.

(** What a visit that reports no change has seen. *)
Definition seen rec c s i : Prop :=
  quiet c s i /\
  (opcode i = kWhile -> forall body, called_computation i 0 = OK body ->
     exists s0 s1, rec body s0 = OK (false, s1) /\ same_colors s1 s).

Lemma seen_same rec c s s' i : same_colors s s' -> seen rec c s i -> seen rec c s' i.
Proof.
  intros Hs [Hq Hw]. split; [by eapply quiet_same|]. intros Hop body Hb.
  destruct (Hw Hop body Hb) as (s0 & s1 & Hr & Hs1). exists s0, s1. split; [done|]. by trans s.
Qed.

Lemma seen_propagate_instruction rec c b s i s' :
  (forall body s s', rec body s = OK (false, s') -> same_colors s s') ->
  propagate_instruction priority es if_visit rec (ComputeDepthMap c) (CreateTopologicalIndexMap c)
    (b, s) i = OK (false, s') ->
  b = false /\ same_colors s s' /\ seen rec c s' i.
Proof.
  intros Hrec Hrun. unfold propagate_instruction in Hrun. case_bool_decide as Ht.
  { injection Hrun as -> <-. split; [done|]. split; [by apply same_colors_ColorTuple|].
    split; [by intros ?|]. intros Hw. congruence. }
  apply Result_bind_OK in Hrun as ([b1 s1] & H1 & Hrun).
  assert (b1 = false -> b = false /\ s1 = s /\ quiet c s1 i) as Hq.
  { intros ->. destruct (if_visit i && negb (IsAssignedColor s i)) eqn:Hv.
    - apply Result_bind_OK in H1 as ([b2 s2] & H2 & [= Hb <-]).
      apply orb_false_iff in Hb as [-> ->].
      apply PropagateFromUsersAndOperands_colors in H2 as (v & Hv2 & Hc).
      destruct (max_operand_color v) eqn:Hm; [by destruct Hc|]. destruct Hc as [_ ->].
      split; [done|]. split; [done|]. intros _ _ _. by exists v.
    - injection H1 as -> ->. split; [done|]. split; [done|]. intros _ Hvis Hn.
      rewrite Hvis in Hv. apply IsAssignedColor_false in Hn. by rewrite Hn in Hv. }
  case_bool_decide as Hw.
  - apply Result_bind_OK in Hrun as (body & Hb & Hrun).
    apply Result_bind_OK in Hrun as ([b2 s2] & Hr & [= Hbb <-]).
    apply orb_false_iff in Hbb as [-> ->]. destruct (Hq eq_refl) as (-> & -> & Hqi).
    split; [done|]. pose proof (Hrec _ _ _ Hr) as Hsame. split; [done|].
    split; [by eapply quiet_same|]. intros _ body' Hb'. rewrite Hb in Hb'. injection Hb' as <-.
    exists s, s2. done.
  - injection Hrun as -> ->. destruct (Hq eq_refl) as (-> & -> & Hqi).
    split; [done|]. split; [done|]. split; [done|]. congruence.
Qed.

Lemma seen_round rec c s s' :
  (forall body s s', rec body s = OK (false, s') -> same_colors s s') ->
  propagate_round priority es if_visit rec c s = OK (false, s') ->
  forall i, i ∈ MakeInstructionPostOrder c -> seen rec c s' i.
Proof.
  intros Hrec Hrun. unfold propagate_round in Hrun.
  cut (false = false -> forall i, i ∈ MakeInstructionPostOrder c -> seen rec c s' i); [auto|].
  revert Hrun.
  apply (foldM_inv (fun l (r : bool * St) => r.1 = false -> forall i, i ∈ l -> seen rec c r.2 i)
           _ (false, s) _ (false, s')); [set_solver|].
  intros done x rest [b1 s1] [b2 s2] _ IH Hstep Hb. cbn in Hb |- *. subst b2.
  destruct (seen_propagate_instruction _ _ _ _ _ _ Hrec Hstep) as (-> & Hsame & Hseen).
  intros i [Hi|Hi%list_elem_of_singleton]%elem_of_app; [|by subst i].
  eapply seen_same; [done|]. by apply IH.
Qed.

Lemma last_round rounds rec c b s r :
  propagate_rounds priority es if_visit rounds rec c b s = OK r ->
  exists s1, propagate_round priority es if_visit rec c s1 = OK (false, r.2).
Proof.
  revert b s. induction rounds as [|rounds IH]; intros b s; cbn [propagate_rounds]; [done|].
  intros ([p s1] & H1 & Hrun)%Result_bind_OK. destruct p; [by eapply IH|].
  injection Hrun as <-. by exists s.
Qed.

Lemma settled_PropagateIf fuel rounds c s b s' :
  run fuel rounds c s = OK (b, s') -> forall c', loop_nest c c' -> settled c' s'.
Proof.
  revert c s b s'. induction fuel as [|fuel IH]; intros c s b s'; cbn [PropagateIf]; [done|].
  intros (s1 & Hround)%last_round c' Hc'. cbn in Hround.
  assert (forall body s s', run fuel rounds body s = OK (false, s') -> same_colors s s') as Hrec.
  { intros body s2 s3 (_ & Hsame & _)%progress_PropagateIf. by apply Hsame. }
  pose proof (seen_round _ _ _ _ Hrec Hround) as Hseen.
  destruct Hc' as [c|c i body c' Hi Hw Hb Hc'].
  - intros i Hi. by apply Hseen.
  - destruct (Hseen i Hi) as [_ Hbody].
    destruct (Hbody Hw body Hb) as (s2 & s3 & Hr & Hsame).
    eapply settled_same; [exact Hsame|]. by eapply IH.
Qed.

(** C22: Propagation keeps colored instructions colored, and with their color unless they
    are tuples; every color is one that some instruction had before.  It stops at a
    fixpoint: in the computation and in the bodies of its loops, at any depth, no
    instruction that is visited and has no color gets a vote from its neighbors. *)
Theorem PropagateIf_fixpoint fuel rounds c s b s' :
  PropagateIf priority es if_visit fuel rounds c s = OK (b, s') ->
  extends s s' /\ (b = false -> same_colors s s') /\
  forall c', loop_nest c c' -> settled c' s'.
Proof.
  intros Hrun. destruct (progress_PropagateIf _ _ _ _ _ Hrun) as (He & Hs & _).
  split; [done|]. split; [done|]. by eapply settled_PropagateIf.
Qed.
End PropagateIf_facts.

(** ** Termination *)
Section termination.
Context `{!AcyclicLaws I C}.
Context (priority : ColorPropagationPriority) (es : Entries) (if_visit : I -> bool).

(** The alias chains that the visits follow end. *)
Record chains_end : Prop := {
  end_alias : forall i, returns (ForEachAlias es i);
  end_operands : forall i, returns (Operands es i);
  end_users : forall i, returns (Users es i);
}.
Hypothesis (chains : chains_end).

Definition uncolored (l : list I) s : nat := length (filter (fun j => Color s j = None) l).

Lemma uncolored_extends l s s' : extends s s' -> (uncolored l s' <= uncolored l s)%nat.
Proof.
  intros He. unfold uncolored. induction l as [|j l IH]; [done|]. rewrite !filter_cons.
  case_decide as H1; case_decide as H2; cbn [length]; try lia.
  exfalso. destruct (Color s j) as [c|] eqn:Hc; [|done].
  destruct (ext_colored _ _ He j ltac:(by eexists)). congruence.
Qed.

Lemma uncolored_progress l s s' :
  progress l s (true, s') -> (uncolored l s' < uncolored l s)%nat.
Proof.
  intros (He & _ & Hg). destruct (Hg eq_refl) as (j & Hj & Hn & [c Hc]).
  apply list_elem_of_split in Hj as (l1 & l2 & ->). cbn in Hc. cbn [snd] in He.
  pose proof (uncolored_extends l1 s s' He). pose proof (uncolored_extends l2 s s' He).
  unfold uncolored in *. rewrite !filter_app, !filter_cons, !length_app.
  rewrite (decide_False (P := Color s' j = None)) by congruence.
  rewrite (decide_True (P := Color s j = None)) by done. cbn [length]. lia.
Qed.

Lemma returns_count_votes depth index x s :
  returns (count_votes priority depth index es if_visit x s).
Proof.
  assert (forall v l, returns (foldM (add_user_or_operand priority depth index if_visit x s) v l))
    as Hl.
  { intros v l. apply returns_foldM. intros v' i _. unfold add_user_or_operand.
    destruct (if_visit i); [|done]. apply returns_bind; [|done].
    case_bool_decide; [apply returns_vec_at|done]. }
  unfold count_votes. repeat (apply returns_bind; [by try apply end_operands; try apply end_users; try apply Hl|intros ? _]).
  apply Hl.
Qed.

Lemma returns_propagate_instruction rec depth index r i :
  (forall body, opcode i = kWhile -> called_computation i 0 = OK body ->
     forall s', extends r.2 s' -> returns (rec body s')) ->
  returns (propagate_instruction priority es if_visit rec depth index r i).
Proof.
  destruct r as [b s]. intros Hrec. unfold propagate_instruction. case_bool_decide; [done|].
  apply returns_bind.
  { destruct (_ && _); [|done]. apply returns_bind; [|done]. unfold PropagateFromUsersAndOperands.
    apply returns_bind; [apply returns_count_votes|]. intros v _. destruct (max_operand_color v); [|done].
    apply returns_bind; [apply end_alias, chains|done]. }
  intros [b1 s1] H1. case_bool_decide as Hw; [|done].
  apply returns_bind; [apply returns_vec_at|]. intros body Hb. apply returns_bind; [|done].
  apply Hrec; [done|done|]. destruct (if_visit i && negb (IsAssignedColor s i)) eqn:Hv.
  - apply andb_true_iff in Hv as [_ Hv%negb_true_iff%IsAssignedColor_false].
    apply Result_bind_OK in H1 as ([b2 s2] & H2 & [= <- <-]).
    by eapply extends_PropagateFromUsersAndOperands.
  - by injection H1 as <- <-.
Qed.

(** A round returns when the bodies of the loops do, from every state of the round. *)
Lemma returns_round fuel rounds c s :
  (forall i body s', i ∈ MakeInstructionPostOrder c -> opcode i = kWhile ->
     called_computation i 0 = OK body -> extends s s' ->
     returns (PropagateIf priority es if_visit fuel rounds body s')) ->
  returns (propagate_round priority es if_visit (PropagateIf priority es if_visit fuel rounds) c s).
Proof.
  intros Hrec. unfold propagate_round.
  set (L := nest_instructions (S fuel) c).
  assert (forall l r, l ⊆ MakeInstructionPostOrder c -> progress L s r ->
    returns (foldM (propagate_instruction priority es if_visit
      (PropagateIf priority es if_visit fuel rounds) (ComputeDepthMap c)
      (CreateTopologicalIndexMap c)) r l)) as Hl; [|by apply Hl].
  induction l as [|i l IH]; intros r Hsub Hr; cbn [foldM]; [done|].
  assert (i ∈ MakeInstructionPostOrder c) as Hi by (apply Hsub; left).
  apply returns_bind.
  - apply returns_propagate_instruction. intros body Hw Hb s' Hs'.
    apply (Hrec i); [done..|]. trans r.2; [by apply Hr|done].
  - intros r' Hr'. apply IH; [intros j Hj; apply Hsub; by right|].
    eapply progress_propagate_instruction; [| |exact Hr|exact Hr'].
    + intros body s2 r2 Hw Hb Hr2. apply (progress_weaken (nest_instructions fuel body)).
      * by eapply nest_instructions_body.
      * by eapply progress_PropagateIf.
    + unfold L. cbn [nest_instructions]. apply elem_of_app. by left.
Qed.

Lemma returns_PropagateIf fuel rounds l c s :
  (call_rank c < fuel)%nat -> nest_instructions fuel c ⊆ l -> (uncolored l s < rounds)%nat ->
  returns (PropagateIf priority es if_visit fuel rounds c s).
Proof.
  revert c s. induction fuel as [|fuel IH]; intros c s Hf Hl Hu; [lia|]. cbn [PropagateIf].
  assert (forall s, (uncolored l s < rounds)%nat ->
    returns (propagate_round priority es if_visit (PropagateIf priority es if_visit fuel rounds) c s))
    as Hround.
  { intros s1 Hs1. apply returns_round. intros i body s2 Hi Hw Hb He. apply IH.
    - apply vec_at_lookup in Hb as [_ Hb%list_elem_of_lookup_2].
      pose proof (call_rank_lt c i body Hi Hb). lia.
    - etrans; [by eapply nest_instructions_body|done].
    - pose proof (uncolored_extends l _ _ He). lia. }
  assert (forall n b s, (uncolored l s < n <= rounds)%nat ->
    returns (propagate_rounds priority es if_visit n (PropagateIf priority es if_visit fuel rounds)
               c b s)) as Hn; [|apply Hn; lia].
  induction n as [|n IHn]; intros b s1 Hs1; [lia|]. cbn [propagate_rounds].
  apply returns_bind; [apply Hround; lia|]. intros [[] s2] H2; [|done].
  apply IHn. split; [|lia].
  assert (progress l s1 (true, s2)) as Hp.
  { eapply (progress_weaken (nest_instructions (S fuel) c)); [done|].
    eapply progress_round; [| |exact H2].
    - intros i body s3 r Hi Hw Hb Hr. apply (progress_weaken (nest_instructions fuel body)).
      + by eapply nest_instructions_body.
      + by eapply progress_PropagateIf.
    - intros j Hj. cbn [nest_instructions]. apply elem_of_app. by left. }
  pose proof (uncolored_progress _ _ _ Hp). lia.
Qed.

(** Propagation returns: when the alias chains end, it needs at most one round more
    than there are instructions in the computation and the bodies of its loops. *)
Theorem PropagateIf_returns fuel rounds c s :
  (call_rank c < fuel)%nat -> (length (nest_instructions fuel c) < rounds)%nat ->
  PropagateIf priority es if_visit fuel rounds c s <> Fatal Diverges.
Proof.
  intros Hf Hr. apply (returns_PropagateIf _ _ (nest_instructions fuel c)); [done..|].
  unfold uncolored. eapply Nat.le_lt_trans; [|done]. apply length_filter.
Qed.
End termination.
End facts.
