(* ===== verification/ColoringRun.v ===== *)
(** * The coloring of a module

    What the user colored in the entry computation and in its (last) loop keeps its
    color through the whole of [Run], and every root ends up with a color. *)
From S2P Require Import Prelude Hlo Instruction Partition Utils InstructionProperties PropertiesFacts Coloring ColoringVotes ColoringFacts.
Local Open Scope Z_scope.

Section run.
Context {I C St D : Type} `{EqDecision I, !Countable I}.
Context `{!Hlo I C, !AttrStore I St, !AttrStoreLaws I St}.
Context `{HashOrder} `{EqDecision D, !Countable D, !DeviceListApi D}.
Abbreviation Entries := (gmap I (Entry I)).
Implicit Types (i j : I) (s : St) (es : Entries) (if_visit : I -> bool).

(** No color is replaced. *)
Definition only_adds s s' : Prop := forall j, is_Some (Color s j) -> Color s' j = Color s j.

#[export] Instance only_adds_preorder : PreOrder only_adds.
Proof.
  split; [by intros ??|]. intros s1 s2 s3 H1 H2 j Hj.
  rewrite H2; [by apply H1|]. by rewrite H1.
Qed.

Lemma only_adds_AssignColor i color s : Color s i = None -> only_adds s (AssignColor i color s).
Proof.
  intros Hi j Hj. apply Color_AssignColor_ne. intros ->. rewrite Hi in Hj. by destruct Hj.
Qed.

Lemma only_adds_extends s s' j :
  extends s s' -> opcode j <> kTuple -> is_Some (Color s j) -> Color s' j = Color s j.
Proof. intros He. apply (ext_color _ _ He). Qed.

(** ** ColorBackwards *)

Lemma ColorBackwards_loop_colors fuel color i es to_visit s s' :
  ColorBackwards_loop fuel color i es to_visit s = OK s' ->
  forall j, Color s' j = Color s j \/ (Color s j = None /\ Color s' j = Some color).
Proof.
  revert to_visit s. induction fuel as [|fuel IH]; intros to_visit s; cbn [ColorBackwards_loop]; [done|].
  destruct to_visit as [|next to_visit]; [intros [= <-]; by left|].
  destruct (IsCustomCall _ _); [apply IH|].
  intros ([] & _ & Hrun)%Result_bind_OK; [by eapply IH|].
  destruct (IsAssignedColor s next) eqn:Hn; cbn [negb] in Hrun; [by eapply IH|].
  apply Result_bind_OK in Hrun as (vs & _ & Hrun). apply IsAssignedColor_false in Hn.
  intros j. destruct (IH _ _ Hrun j) as [Hj|[Hj1 Hj2]]; rewrite Color_AssignColor in *.
  - case_decide; [subst j; right; done|by left].
  - case_decide; [done|]. by right.
Qed.

(** Coloring backwards gives instructions without a color the color of the root and
    leaves the others alone. *)
Theorem ColorBackwards_colors fuel color i es s s' :
  ColorBackwards fuel color i es s = OK s' ->
  is_Some (Color s i) /\
  forall j, Color s' j = Color s j \/ (Color s j = None /\ Color s' j = Some color).
Proof.
  unfold ColorBackwards. destruct (IsAssignedColor s i) eqn:Hi; cbn [negb]; [|done].
  intros (vs & _ & Hrun)%Result_bind_OK. split; [by apply IsAssignedColor_spec|].
  by eapply ColorBackwards_loop_colors.
Qed.

(** The work list: its length, and what the uncolored instructions of [u] may push. *)
Definition pending es (u : list I) s : nat :=
  foldr (fun j n => (match Color s j, add_visits es j with
                     | None, OK vs => S (length vs) | _, _ => O end + n)%nat) O u.

Lemma pending_assign es u s next color vs :
  NoDup u -> next ∈ u -> Color s next = None -> add_visits es next = OK vs ->
  (pending es u (AssignColor next color s) + S (length vs) = pending es u s)%nat.
Proof.
  intros Hnd Hin Hn Hvs. induction Hnd as [|j u Hj Hnd IH]; [by apply elem_of_nil in Hin|].
  cbn [pending foldr]. apply elem_of_cons in Hin as [->|Hin].
  - rewrite Color_AssignColor_eq, Hn, Hvs.
    assert (pending es u (AssignColor j color s) = pending es u s) as Heq; [|unfold pending in *; lia].
    clear -Hj AttrStoreLaws0. induction u as [|k u IH]; [done|]. cbn [pending foldr].
    rewrite Color_AssignColor_ne by set_solver. f_equal. apply IH. set_solver.
  - assert (next <> j) by (intros ->; done). rewrite Color_AssignColor_ne by done.
    specialize (IH Hin). unfold pending in *. lia.
Qed.

Section backwards.
Variables (es : Entries) (u : list I).
Hypothesis (u_NoDup : NoDup u).
Hypothesis (u_closed : forall j, j ∈ u -> exists vs, add_visits es j = OK vs /\ vs ⊆ u).
Hypothesis (u_entries : forall j, j ∈ u -> is_Some (es !! j)).

Lemma ColorBackwards_loop_total fuel color i to_visit s :
  to_visit ⊆ u -> (length to_visit + pending es u s < fuel)%nat ->
  is_OK (ColorBackwards_loop fuel color i es to_visit s).
Proof.
  revert to_visit s. induction fuel as [|fuel IH]; intros to_visit s Hsub Hf; [lia|].
  cbn [ColorBackwards_loop]. destruct to_visit as [|next to_visit]; [by eexists|].
  assert (next ∈ u) as Hu by (apply Hsub; left).
  assert (to_visit ⊆ u) as Hsub' by (intros j Hj; apply Hsub; by right).
  cbn [length] in Hf. destruct (IsCustomCall _ _); [apply IH; [done|lia]|].
  destruct (u_entries next Hu) as [e He]. unfold DerivedConstant, Get. rewrite He.
  cbn [of_option mbind Result_bind]. destruct (derived_constant e); [apply IH; [done|lia]|].
  destruct (IsAssignedColor s next) eqn:Hn; cbn [negb]; [apply IH; [done|lia]|].
  apply IsAssignedColor_false in Hn. destruct (u_closed next Hu) as (vs & Hvs & Hvsu).
  rewrite Hvs. cbn [mbind Result_bind]. apply IH.
  - intros j [Hj|Hj]%elem_of_app; [|by apply Hsub']. apply Hvsu. by apply elem_of_reverse.
  - pose proof (pending_assign es u s next color vs u_NoDup Hu Hn Hvs).
    rewrite length_app, length_reverse. lia.
Qed.

(** Coloring backwards ends: on a set of instructions that is closed under operands
    and backward aliases, it needs as many visits as those have operands and aliases. *)
Theorem ColorBackwards_total fuel color i vs s :
  i ∈ u -> is_Some (Color s i) -> add_visits es i = OK vs ->
  (length vs + pending es u s < fuel)%nat -> is_OK (ColorBackwards fuel color i es s).
Proof.
  intros Hi Hc Hvs Hf. unfold ColorBackwards. apply IsAssignedColor_spec in Hc. rewrite Hc, Hvs.
  cbn [negb mbind Result_bind]. apply ColorBackwards_loop_total.
  - intros j Hj. destruct (u_closed i Hi) as (vs' & Hvs' & Hsub). rewrite Hvs in Hvs'.
    injection Hvs' as <-. apply Hsub. by apply elem_of_reverse.
  - by rewrite length_reverse.
Qed.
End backwards.

(** ** PropagateLoopColorDepth *)

Lemma color_aliases_only_adds es i s r :
  color_aliases es i s = OK r -> only_adds s r.2.
Proof.
  unfold color_aliases. intros (aliases & _ & Hrun)%Result_bind_OK.
  revert Hrun. apply (foldM_inv (fun _ (r : bool * St) => only_adds s r.2)); [done|].
  intros _ a _ [b1 s1] [b2 s2] _ H1. cbn in H1 |- *.
  destruct (IsAssignedColor s1 a) eqn:Ha; cbn [negb]; [by intros [= <- <-]|].
  intros (color & _ & [= <- <-])%Result_bind_OK. trans s1; [done|].
  apply only_adds_AssignColor. by apply IsAssignedColor_false.
Qed.

(** The fixed instructions are colored and include the colored ones of [l]. *)
Definition fixes (l : list I) s0 (fixed : gset I) s : Prop :=
  only_adds s0 s /\ (forall j, j ∈ fixed -> is_Some (Color s j)) /\
  (forall j, j ∈ l -> is_Some (Color s0 j) -> j ∈ fixed).

Lemma fixes_step (l : list I) s0 (fixed : gset I) s i s' :
  fixes l s0 fixed s -> only_adds s s' -> is_Some (Color s i) -> fixes (l ++ [i]) s0 ({[i]} ∪ fixed) s'.
Proof.
  intros (Ha & Hf & Hl) Hs Hi. split; [by trans s|]. split.
  - intros j Hj. assert (is_Some (Color s j)) as Hc; [|by rewrite Hs].
    apply elem_of_union in Hj as [Hj%elem_of_singleton|Hj]; [by subst j|auto].
  - intros j [Hj|Hj%list_elem_of_singleton]%elem_of_app Hc; [|subst j; set_solver].
    apply elem_of_union_r. auto.
Qed.

Lemma fixes_skip (l : list I) s0 (fixed : gset I) s i :
  fixes l s0 fixed s -> Color s i = None -> fixes (l ++ [i]) s0 fixed s.
Proof.
  intros (Ha & Hf & Hl) Hi. split; [done|]. split; [done|].
  intros j [Hj|Hj%list_elem_of_singleton]%elem_of_app Hc; [auto|]. subst j.
  exfalso. rewrite <- (Ha i Hc), Hi in Hc. by destruct Hc.
Qed.

(** The loop that [PropagateLoopColorDepth] finds: the last one. *)
Definition last_loop (l : list I) : option I := last (filter (fun i => opcode i = kWhile) l).

Lemma last_loop_snoc l i :
  last_loop (l ++ [i]) = if decide (opcode i = kWhile) then Some i else last_loop l.
Proof.
  unfold last_loop. rewrite filter_app, filter_cons, filter_nil. case_decide.
  - by rewrite last_snoc.
  - by rewrite app_nil_r.
Qed.

Definition body_ok (l : list I) (body : option C) : Prop :=
  match last_loop l with
  | None => body = None
  | Some i => exists c, called_computation i 0 = OK c /\ body = Some c
  end.

Lemma collect_outside_ok es c s r :
  foldM (collect_outside es) (MkCollected false ∅ None, s) (MakeInstructionPostOrder c) = OK r ->
  fixes (MakeInstructionPostOrder c) s (col_fixed r.1) r.2 /\
  body_ok (MakeInstructionPostOrder c) (col_body r.1).
Proof.
  apply (foldM_inv (fun l (r : Collected * St) => fixes l s (col_fixed r.1) r.2 /\ body_ok l (col_body r.1))).
  { repeat split; cbn; try done; set_solver. }
  intros done i rest [k1 s1] r2 _ [Hfix Hbody]. unfold collect_outside. cbn in Hfix, Hbody.
  intros ([k2 s2] & H2 & Hrun)%Result_bind_OK.
  assert (fixes (done ++ [i]) s (col_fixed k2) s2 /\ col_body k2 = col_body k1) as [Hfix2 Hb2].
  { destruct (IsAssignedColor s1 i) eqn:Hi.
    - apply Result_bind_OK in H2 as (ra & Hra & [= <- <-]). cbn. split; [|done].
      eapply fixes_step; [done|by eapply color_aliases_only_adds|by apply IsAssignedColor_spec].
    - injection H2 as <- <-. split; [|done]. apply fixes_skip; [done|by apply IsAssignedColor_false]. }
  unfold body_ok. rewrite last_loop_snoc. destruct (decide (opcode i = kWhile)) as [Hw|Hw].
  - rewrite bool_decide_eq_true_2 in Hrun by done.
    apply Result_bind_OK in Hrun as (body & Hb & [= <-]). cbn. split; [done|]. eauto.
  - rewrite bool_decide_eq_false_2 in Hrun by done. injection Hrun as <-. cbn.
    split; [done|]. rewrite Hb2. exact Hbody.
Qed.

Lemma collect_inside_ok es l0 l s0 fixed s r :
  fixes l0 s0 fixed s -> only_adds s0 s ->
  foldM (collect_inside es) (fixed, s) l = OK r -> fixes (l0 ++ l) s0 r.1 r.2.
Proof.
  intros Hfix Ha. apply (foldM_inv (fun l (r : gset I * St) => fixes (l0 ++ l) s0 r.1 r.2)).
  { by rewrite app_nil_r. }
  intros done i rest [f1 s1] r2 _ Hf1. cbn in Hf1. unfold collect_inside.
  destruct (IsAssignedColor s1 i) eqn:Hi; rewrite app_assoc.
  - intros (ra & Hra & [= <-])%Result_bind_OK. cbn.
    eapply fixes_step; [done|by eapply color_aliases_only_adds|by apply IsAssignedColor_spec].
  - intros [= <-]. apply fixes_skip; [done|by apply IsAssignedColor_false].
Qed.

(** ** Fixed instructions keep their color *)

Definition keeps_fixed (fixed : gset I) s s' : Prop :=
  (forall j, j ∈ fixed -> opcode j <> kTuple -> Color s' j = Color s j) /\
  (forall j, is_Some (Color s j) -> is_Some (Color s' j)).

#[export] Instance keeps_fixed_preorder fixed : PreOrder (keeps_fixed fixed).
Proof.
  split; [done|]. intros s1 s2 s3 [A1 A2] [B1 B2]. split; [|auto].
  intros j Hj Ht. by rewrite B1, A1.
Qed.

Lemma keeps_fixed_AssignColor fixed i color s :
  i ∉ fixed -> keeps_fixed fixed s (AssignColor i color s).
Proof.
  intros Hi. split.
  - intros j Hj _. apply Color_AssignColor_ne. by intros ->.
  - intros j Hj. rewrite Color_AssignColor. case_decide; eauto.
Qed.

Lemma keeps_fixed_ColorTuple fixed i s :
  opcode i = kTuple -> keeps_fixed fixed s (ColorTuple i s).
Proof.
  intros Ht. destruct (extends_ColorTuple i s Ht) as [H1 _ _]. split; [|done].
  intros j _ Hj. by apply same_colors_ColorTuple.
Qed.

Definition all_colored (fixed : gset I) s : Prop := forall j, j ∈ fixed -> is_Some (Color s j).

Lemma keeps_fixed_assign_alias fixed color s i :
  all_colored fixed s -> keeps_fixed fixed s (assign_alias color fixed s i).
Proof.
  intros Hall. unfold assign_alias. destruct (negb _ || _) eqn:Hc; [|done].
  apply keeps_fixed_AssignColor. intros Hi.
  pose proof (proj2 (IsAssignedColor_spec s i) (Hall i Hi)) as Hi'.
  rewrite Hi' in Hc. cbn [negb orb] in Hc. by apply (bool_decide_eq_true_1 _ Hc).
Qed.

Lemma keeps_fixed_aliases fixed color s l :
  all_colored fixed s -> keeps_fixed fixed s (foldl (assign_alias color fixed) s l).
Proof.
  revert s. induction l as [|i l IH]; intros s Hall; cbn [foldl]; [done|].
  pose proof (keeps_fixed_assign_alias fixed color s i Hall) as Hk.
  etrans; [exact Hk|]. apply IH. intros j Hj. apply Hk. auto.
Qed.

Lemma keeps_fixed_color_related es if_visit fixed color s0 r i r' :
  all_colored fixed s0 -> keeps_fixed fixed s0 r.2 ->
  color_related es if_visit fixed color r i = OK r' -> keeps_fixed fixed s0 r'.2.
Proof.
  intros Hall. destruct r as [b s]. cbn. intros Hr ([b1 s1] & H1 & [= <-])%Result_bind_OK. cbn.
  assert (keeps_fixed fixed s0 s1) as Hs1.
  { destruct (if_visit i && bool_decide (i ∉ fixed)) eqn:Hv; [|by injection H1 as <- <-].
    apply Result_bind_OK in H1 as (aliases & _ & [= <- <-]).
    apply andb_true_iff in Hv as [_ Hv%bool_decide_eq_true_1].
    trans s; [done|]. pose proof (keeps_fixed_AssignColor fixed i color s Hv) as Hk.
    etrans; [exact Hk|]. apply keeps_fixed_aliases. intros j Hj. apply Hk, Hr, Hall, Hj. }
  destruct (bool_decide (opcode i = kTuple)) eqn:Ht; [|done]. trans s1; [done|].
  apply bool_decide_eq_true_1 in Ht. by apply keeps_fixed_ColorTuple.
Qed.

Lemma keeps_fixed_process es if_visit fixed color related s0 r i r' :
  all_colored fixed s0 -> keeps_fixed fixed s0 r.2 ->
  process_instruction es if_visit fixed color related r i = OK r' -> keeps_fixed fixed s0 r'.2.
Proof.
  intros Hall Hr. unfold process_instruction. case_bool_decide; [|by intros [= <-]].
  apply (foldM_inv (fun _ (r : bool * St) => keeps_fixed fixed s0 r.2)); [done|].
  intros _ x _ r1 r2 _ Hr1. by apply keeps_fixed_color_related.
Qed.

Lemma keeps_fixed_PropagateDirectionally postorder color es if_visit fixed forward s r :
  all_colored fixed s ->
  PropagateDirectionally postorder color es if_visit fixed forward s = OK r ->
  keeps_fixed fixed s r.2.
Proof.
  intros Hall. unfold PropagateDirectionally. destruct forward.
  all: apply (foldM_inv (fun _ (r : bool * St) => keeps_fixed fixed s r.2)); [done|].
  all: intros _ x _ r1 r2 _ Hr1; by apply keeps_fixed_process.
Qed.

Lemma keeps_fixed_propagate_colors es if_visit fixed postorder forward colors s0 st r :
  all_colored fixed s0 -> keeps_fixed fixed s0 st.2 ->
  propagate_colors es if_visit fixed postorder forward colors st = OK r -> keeps_fixed fixed s0 r.2.
Proof.
  intros Hall Hst. unfold propagate_colors.
  apply (foldM_inv (fun _ (r : bool * St) => keeps_fixed fixed s0 r.2)); [done|].
  intros _ [d color] _ [b1 s1] r2 _ Hr1. cbn in Hr1. intros (ra & Hra & [= <-])%Result_bind_OK. cbn.
  trans s1; [done|]. eapply keeps_fixed_PropagateDirectionally; [|exact Hra].
  intros j Hj. apply Hr1, Hall, Hj.
Qed.

(** What the user colored: an instruction of the entry computation or of its last
    loop that is not a tuple and has a color. *)
Definition annotated c s j : Prop :=
  opcode j <> kTuple /\ is_Some (Color s j) /\
  (j ∈ MakeInstructionPostOrder c \/
   exists i body, last_loop (MakeInstructionPostOrder c) = Some i /\
     called_computation i 0 = OK body /\ j ∈ MakeInstructionPostOrder body).

Lemma PropagateLoopColorDepth_keeps es if_visit c s r j :
  PropagateLoopColorDepth es if_visit c s = OK r -> annotated c s j -> Color r.2 j = Color s j.
Proof.
  unfold PropagateLoopColorDepth. intros ([k s1] & H1 & Hrun)%Result_bind_OK (Ht & Hc & Hin).
  apply collect_outside_ok in H1 as [Hfix Hbody]. cbn in Hfix, Hbody.
  destruct (col_body k) as [body|] eqn:Hb.
  - apply Result_bind_OK in Hrun as ([fixed s2] & H2 & Hrun).
    pose proof (collect_inside_ok _ _ _ _ _ _ _ Hfix (proj1 Hfix) H2) as (Ha2 & Hf2 & Hl2).
    cbn in Ha2, Hf2, Hl2. apply Result_bind_OK in Hrun as (m & _ & Hrun).
    apply Result_bind_OK in Hrun as ([b3 s3] & H3 & H4).
    assert (keeps_fixed fixed s2 (b3, s3).2) as Hk3
      by (eapply keeps_fixed_propagate_colors; [exact Hf2| |exact H3]; done).
    pose proof (keeps_fixed_propagate_colors _ _ _ _ _ _ _ _ _ Hf2 Hk3 H4) as [Hk4 _].
    rewrite Hk4; [by apply Ha2| |done]. apply Hl2; [|done]. apply elem_of_app.
    destruct Hin as [Hin|(i & body' & Hl & Hcall & Hin)]; [by left|right].
    unfold body_ok in Hbody. rewrite Hl in Hbody. destruct Hbody as (c' & Hc' & [= <-]).
    rewrite Hcall in Hc'. by injection Hc' as <-.
  - injection Hrun as <-. cbn. by apply Hfix.
Qed.

(** ** Run *)

Lemma color_root_adds visits es r i r' :
  color_root visits es r i = OK r' -> only_adds r.2 r'.2 /\ is_Some (Color r'.2 i).
Proof.
  destruct r as [p s]. unfold color_root. destruct (IsAssignedColor s i) eqn:Hi; cbn [negb].
  { intros [= <-]. split; [done|]. by apply IsAssignedColor_spec. }
  apply IsAssignedColor_false in Hi.
  intros ([color p'] & _ & (s' & Hs' & [= <-])%Result_bind_OK)%Result_bind_OK. cbn.
  apply ColorBackwards_colors in Hs' as [Hc Hs'].
  assert (only_adds (AssignColor i color s) s') as Ha.
  { intros j Hj. destruct (Hs' j) as [?|[Hn _]]; [done|]. rewrite Hn in Hj. by destruct Hj. }
  split; [|by rewrite Ha]. etrans; [|done]. by apply only_adds_AssignColor.
Qed.

Lemma color_roots_add visits es l r r' :
  foldM (color_root visits es) r l = OK r' ->
  only_adds r.2 r'.2 /\ forall i, i ∈ l -> is_Some (Color r'.2 i).
Proof.
  apply (foldM_inv (fun l (r' : HloPartition D * St) =>
    only_adds r.2 r'.2 /\ forall i, i ∈ l -> is_Some (Color r'.2 i))); [split; [done|set_solver]|].
  intros done x rest r1 r2 _ [Ha Hl] H2. apply color_root_adds in H2 as [Ha2 Hx].
  split; [by trans r1.2|]. intros i [Hi|Hi%list_elem_of_singleton]%elem_of_app; [|by subst i].
  rewrite Ha2 by auto. auto.
Qed.

End run.

(** ** Evaluations on a concrete module

    Computation [0] is the entry: two parameters colored A and B, a sum, its negation,
    a loop over computation [1] and the root tuple. *)
Module ColoringSample.
Definition nodes : list Graph.node :=
  [Graph.op kParameter []; Graph.op kParameter []; Graph.op kAdd [0; 1]%nat;
   Graph.op kNegate [2]%nat; Graph.Node kTuple [2; 3]%nat 0 [] "" "" true 2 false;
   Graph.Node kParameter [] 0 [] "" "" true 2 false;
   Graph.Node kGetTupleElement [5]%nat 0 [] "" "" false 1 false;
   Graph.Node kGetTupleElement [5]%nat 1 [] "" "" false 1 false;
   Graph.op kMultiply [6; 7]%nat; Graph.Node kTuple [6; 8]%nat 0 [] "" "" true 2 false;
   Graph.Node kWhile [4]%nat 0 [0%nat] "" "" true 2 false;
   Graph.Node kGetTupleElement [10]%nat 1 [] "" "" false 1 false;
   Graph.Node kTuple [11]%nat 0 [] "" "" true 1 false].
Definition comps : list Graph.comp :=
  [Graph.Comp 9 [5]%nat [5; 6; 7; 8; 9]%nat;
   Graph.Comp 12 [0; 1]%nat [0; 1; 2; 3; 4; 10; 11; 12]%nat].
#[global] Instance hlo : Hlo nat nat := Graph.hlo nodes comps.
#[global] Instance postorder : PostOrderLaws nat nat := Graph.postorder_laws nodes comps eq_refl.
#[global] Instance acyclic : AcyclicLaws nat nat := Graph.acyclic_laws nodes comps eq_refl.
#[global] Instance order : HashOrder := insertion_order.

Definition created : gmap nat (Entry nat) :=
  match CreateProperties 20 3 1%nat with OK es => es | _ => ∅ end.

(** The parameters are annotated. *)
Definition start : AttrMap.t := AssignColor 0%nat "A" (AssignColor 1%nat "B" ∅).

Definition partition : HloPartition Slice.t := Create (Slice.mk 0 4).

Definition propagated : bool * AttrMap.t :=
  match PropagateIf kWeight created visit_array 3 20 1%nat start with
  | OK r => r | _ => (false, ∅) end.

Definition coloring : HloPartition Slice.t * AttrMap.t :=
  match Run_propagate kWeight 3 20 100 created 1%nat partition start with
  | OK r => r | _ => (partition, ∅) end.

Definition chose : bool * AttrMap.t :=
  match PropagateFromUsersAndOperands kWeight ∅ ∅ created visit_array 2%nat start with
  | OK r => r | _ => (false, ∅) end.

Lemma sizes i : 0 <= ByteSizeOf i.
Proof. do 13 (destruct i as [|i]; [cbn; lia|]). cbn. destruct i; cbn; lia. Qed.

Lemma no_tuple i : visit_array i = true -> opcode i <> kTuple.
Proof. do 13 (destruct i as [|i]; [by vm_compute|]). cbn. by destruct i. Qed.

Lemma no_broadcast i o : opcode i = kBroadcast -> operand i 0 = OK o -> opcode o <> kTuple.
Proof. do 13 (destruct i as [|i]; [done|]). cbn. by destruct i. Qed.
End ColoringSample.

Lemma PropagateFromUsersAndOperands_spec_witness :
  exists ops us bs, Operands ColoringSample.created 2%nat = OK ops /\
    Users ColoringSample.created 2%nat = OK us /\
    ballots ∅ ∅ visit_array 2%nat ColoringSample.start (ops ++ us) = OK bs /\
    ((ColoringSample.chose.1 = false /\ bs = [] /\ ColoringSample.chose.2 = ColoringSample.start) \/
     (ColoringSample.chose.1 = true /\ exists c aliases, wins kWeight bs c /\
        ForEachAlias ColoringSample.created 2%nat = OK aliases /\
        forall j, Color ColoringSample.chose.2 j =
          if decide (j = 2%nat \/ (Color ColoringSample.start j = None /\ j ∈ aliases))
          then Some c else Color ColoringSample.start j)).
Proof.
  apply (PropagateFromUsersAndOperands_spec kWeight ∅ ∅ ColoringSample.created visit_array).
  - exact ColoringSample.sizes.
  - vm_compute. reflexivity.
Defined.

Lemma PropagateIf_fixpoint_witness :
  ColoringSample.propagated.1 = true /\
  extends ColoringSample.start ColoringSample.propagated.2 /\
  settled kWeight ColoringSample.created visit_array 0%nat ColoringSample.propagated.2.
Proof.
  split; [reflexivity|].
  destruct (PropagateIf_fixpoint kWeight ColoringSample.created visit_array
    ColoringSample.no_tuple ColoringSample.no_broadcast 3 20 1%nat ColoringSample.start
    ColoringSample.propagated.1 ColoringSample.propagated.2) as (H1 & _ & H2).
  - vm_compute. reflexivity.
  - split; [exact H1|]. apply H2. apply (loop_inside 1%nat 10%nat 0%nat 0%nat).
    + apply (bool_decide_eq_true_1 (10%nat ∈ [0; 1; 2; 3; 4; 10; 11; 12]%nat)). reflexivity.
    + reflexivity.
    + reflexivity.
    + apply loop_here.
Defined.


Lemma created_small i : (13 <= i)%nat -> ColoringSample.created !! i = None.
Proof.
  assert (map_Forall (fun k _ => (k < 13)%nat) ColoringSample.created) as Hall
    by (apply (bool_decide_eq_true_1 _); vm_compute; reflexivity).
  intros Hi. destruct (ColoringSample.created !! i) as [e|] eqn:He; [|done].
  apply Hall in He. lia.
Qed.

Lemma created_chains_end : chains_end ColoringSample.created.
Proof.
  assert (forall i, ~ (13 <= i)%nat ->
    returns (ForEachAlias ColoringSample.created i) /\ returns (Operands ColoringSample.created i) /\
    returns (Users ColoringSample.created i)) as Hsmall.
  { intros i Hi. do 13 (destruct i as [|i]; [by vm_compute|]). lia. }
  assert (forall i, returns (ForEachAlias ColoringSample.created i) /\
    returns (Operands ColoringSample.created i) /\ returns (Users ColoringSample.created i)) as Hall.
  { intros i. destruct (decide (13 <= i)%nat) as [Hi|Hi]; [|by apply Hsmall].
    unfold ForEachAlias, ForEachBackwardAlias, Operands, Users, returns. cbn [alias_chain].
    by rewrite (created_small i Hi). }
  split; intros i; apply (Hall i).
Qed.

Lemma PropagateIf_returns_witness :
  PropagateIf kWeight ColoringSample.created visit_array 2 14 1%nat ColoringSample.start
    <> Fatal Diverges.
Proof.
  apply (PropagateIf_returns kWeight ColoringSample.created visit_array created_chains_end).
  - cbn. lia.
  - vm_compute. lia.
Defined.
