(* ===== verification/BufferScheduling.v ===== *)
(** * Buffers of temporaries (mpmd_buffer_scheduling_name.cc)

    A pool of free buffers per shape, the allocator over the pools, and the pass that
    gives every output of a task the name of the buffer it is computed into.  The
    name of a buffer is metadata of the instruction; the pass starts from the names
    [names] that the module has. *)
From S2P Require Import Prelude Hlo Instruction Partition Sharding Utils.
Local Open Scope Z_scope.

Record BufferUse := MkUse { use_name : string; available : Z }.

(** [std::priority_queue] with [CompareTimes]: the top is a use of the smallest time,
    ties are broken in an unspecified way. *)
Definition CompareTimes (lhs rhs : BufferUse) : bool := available rhs <? available lhs.

Class HeapTop := {
  heap_pop : list BufferUse -> option (BufferUse * list BufferUse);
  heap_pop_None : forall l, heap_pop l = None <-> l = [];
  heap_pop_Some : forall l top rest, heap_pop l = Some (top, rest) ->
    l ≡ₚ top :: rest /\ forall u, u ∈ l -> CompareTimes top u = false;
}.

(** ** BufferPool *)
Module BufferPool.
Section pool.
Context `{HeapTop}.

Definition AllocateAtTime (time : Z) (uses : list BufferUse)
    : option string * list BufferUse :=
  match heap_pop uses with
  | None => (None, uses)
  | Some (top, rest) =>
      if available top <=? time then (Some (use_name top), rest) else (None, uses)
  end.

Definition FreeAtTime (time : Z) (name : string) (uses : list BufferUse) : list BufferUse :=
  uses ++ [MkUse name time].

(** [while (!uses.empty() && ...)]; a queue of [n] uses is popped at most [n] times. *)
Fixpoint ClearUpToTime_loop (fuel : nat) (time : Z) (uses : list BufferUse) : list BufferUse :=
  match fuel with
  | O => uses
  | S fuel =>
      match heap_pop uses with
      | None => uses
      | Some (top, rest) =>
          if available top <=? time then ClearUpToTime_loop fuel time rest else uses
      end
  end.

Definition ClearUpToTime (time : Z) (uses : list BufferUse) : list BufferUse :=
  ClearUpToTime_loop (length uses) time uses.
End pool.
End BufferPool.

(** ** Hash tables over shapes *)

Definition SupportedType_code (t : SupportedType) : nat :=
  match t with
  | Z_PRED => 0 | Z_F16 => 1 | Z_BF16 => 2 | Z_F32 => 3 | Z_F64 => 4 | Z_S8 => 5 | Z_S16 => 6
  | Z_S32 => 7 | Z_S64 => 8 | Z_U8 => 9 | Z_U16 => 10 | Z_U32 => 11 | Z_U64 => 12 | Z_C64 => 13
  | Z_C128 => 14
  end.
Definition SupportedType_of_code (n : nat) : SupportedType :=
  nth n [Z_PRED; Z_F16; Z_BF16; Z_F32; Z_F64; Z_S8; Z_S16; Z_S32; Z_S64; Z_U8; Z_U16; Z_U32;
         Z_U64; Z_C64; Z_C128] Z_PRED.

#[export] Instance SupportedType_eq_dec : EqDecision SupportedType.
Proof. solve_decision. Defined.
#[export] Instance SupportedType_countable : Countable SupportedType.
Proof. by apply (inj_countable' SupportedType_code SupportedType_of_code); intros []. Defined.
#[export] Instance ShardingDim_eq_dec : EqDecision ShardingDim.
Proof. solve_decision. Defined.
#[export] Instance ShardingDim_countable : Countable ShardingDim.
Proof.
  by apply (inj_countable' (fun d => (sd_size d, sd_sharding d, sd_permutation d))
                           (fun q => MkDim q.1.1 q.1.2 q.2)); intros [].
Defined.
#[export] Instance ShardedShape_eq_dec {D} `{EqDecision D} : EqDecision (ShardedShape D).
Proof. solve_decision. Defined.
#[export] Instance ShardedShape_countable {D} `{Countable D} : Countable (ShardedShape D).
Proof.
  by apply (inj_countable' (fun s => (ss_type s, ss_dims s, ss_devices s))
                           (fun q => MkSharded q.1.1 q.1.2 q.2)); intros [].
Defined.

(** ** BufferAllocator *)
Module BufferAllocator.
Record t (Sh : Type) `{Countable Sh} := mk {
  pools_ : gmap Sh (list BufferUse);
  shapes_ : gmap string Sh;
}.
Arguments mk {_ _ _} _ _. Arguments pools_ {_ _ _} _. Arguments shapes_ {_ _ _} _.

Section allocator.
Context {Sh : Type} `{Countable Sh, !Inhabited Sh, !HeapTop}.
Implicit Types (a : t Sh) (shape : Sh).

Definition empty : t Sh := mk ∅ ∅.

(** [pools_[shape]] and [shapes_[name]] *)
Definition pool_of a shape : list BufferUse := default [] (pools_ a !! shape).
Definition shape_for a name : Sh := default inhabitant (shapes_ a !! name).

Definition FreeAtTime (time : Z) (name : string) a : t Sh :=
  let shape := shape_for a name in
  mk (<[shape := BufferPool.FreeAtTime time name (pool_of a shape)]> (pools_ a))
     (<[name := shape]> (shapes_ a)).

Definition AllocateAtTime shape (time : Z) (instruction_name : string) a : string * t Sh :=
  let '(buffer, pool) := BufferPool.AllocateAtTime time (pool_of a shape) in
  let name := default instruction_name buffer in
  (name, mk (<[shape := pool]> (pools_ a)) (<[name := shape]> (shapes_ a))).
End allocator.
End BufferAllocator.

(** ** The pass *)

(** What the pass reads of an instruction besides the graph. *)
Class NamedInstruction (I HS : Type) := {
  instruction_name : I -> string;
  instruction_shape : I -> Shape;
  sharding_or_default : I -> HS -> HS;
}.

Record Schedule (I D : Type) `{Countable I, Countable D} := MkSchedule {
  time_on_mesh : gmap D Z;
  times_visited : gmap I Z;
  times_available : gmap I Z;
  allocator : BufferAllocator.t (ShardedShape D);
  scheduling_names : gmap I string;
}.
Arguments MkSchedule {_ _ _ _ _ _} _ _ _ _ _.
Arguments time_on_mesh {_ _ _ _ _ _} _. Arguments times_visited {_ _ _ _ _ _} _.
Arguments times_available {_ _ _ _ _ _} _. Arguments allocator {_ _ _ _ _ _} _.
Arguments scheduling_names {_ _ _ _ _ _} _.

Section pass.
Context {I C St D HS : Type} `{Countable I, Countable D}.
Context `{!Hlo I C, !AttrStore I St, !DeviceListApi D, !HloShardingApi HS, !NamedInstruction I HS}.
Context `{!Inhabited (ShardedShape D), !HeapTop}.
Abbreviation Schedule := (Schedule I D).
Implicit Types (i : I) (st : Schedule).

(** [m[k]] of a map to integers; the 0 it inserts is what a missing key reads as. *)
Definition time_at {K} `{Countable K} (m : gmap K Z) (k : K) : Z := default 0 (m !! k).

Definition name_of st i : string := default "" (scheduling_names st !! i).

Definition set_name i (name : string) st : Schedule :=
  MkSchedule (time_on_mesh st) (times_visited st) (times_available st) (allocator st)
    (<[i := name]> (scheduling_names st)).
Definition set_allocator a st : Schedule :=
  MkSchedule (time_on_mesh st) (times_visited st) (times_available st) a (scheduling_names st).
Definition set_visited i (n : Z) st : Schedule :=
  MkSchedule (time_on_mesh st) (<[i := n]> (times_visited st)) (times_available st)
    (allocator st) (scheduling_names st).
Definition set_available i (time : Z) st : Schedule :=
  MkSchedule (time_on_mesh st) (times_visited st) (<[i := time]> (times_available st))
    (allocator st) (scheduling_names st).
Definition set_mesh_time (devices : D) (time : Z) st : Schedule :=
  MkSchedule (<[devices := time]> (time_on_mesh st)) (times_visited st) (times_available st)
    (allocator st) (scheduling_names st).

Definition free_operand (time_done : Z) (operand : I) st : Result Schedule :=
  if IsCustomCall operand kCustomCallSliceOffset then OK st
  else if bool_decide (opcode operand <> kParameter) then
    if bool_decide (name_of st operand = "") then
      Err kInvalidArgument "operand was not assigned a scheduling name"
    else
      let num_visits := time_at (times_visited st) operand + 1 in
      let st := set_visited operand num_visits st in
      OK (if bool_decide (num_visits = Zlength (users operand))
          then set_allocator
                 (BufferAllocator.FreeAtTime time_done (name_of st operand) (allocator st)) st
          else st)
  else OK st.

Definition visit_output (entry : C) (time_started : Z) (output : I) (devices : D) st
    : Result Schedule :=
  if bool_decide (name_of st output <> "") then OK st
  else if existsb (fun user => bool_decide (user = root_instruction entry)) (users output) then
    OK (set_name output (instruction_name output) st)
  else
    user_shape ← XlaShapeToZukuShape (instruction_shape output) devices
                   (sharding_or_default output Replicate) true;
    let '(name, a) := BufferAllocator.AllocateAtTime user_shape time_started
                        (instruction_name output) (allocator st) in
    OK (set_name output name (set_allocator a st)).

(** The loops of a call over its users and its operands. *)
Definition call_output (entry : C) (max_operand_time time_done : Z) (devices : D)
    (acc : Schedule * gset string) (user : I) : Result (Schedule * gset string) :=
  let '(st, output_names) := acc in
  st ← visit_output entry max_operand_time user devices (set_available user time_done st);
  OK (st, {[name_of st user]} ∪ output_names).

Definition call_operand (time_done : Z) (output_names : gset string) st (operand : I)
    : Result Schedule :=
  if bool_decide (name_of st operand ∉ output_names) then free_operand time_done operand st
  else OK st.

Definition call_step (entry : C) (p : HloPartition D) (s : St) st i : Result Schedule :=
  match Color s i with
  | None => Err kInvalidArgument "instruction was not assigned a color"
  | Some color =>
      devices ← DevicesForColor p color;
      let max_operand_time :=
        foldl (fun time o => Z.max (time_at (times_available st) o) time)
          (time_at (time_on_mesh st) devices) (operands i) in
      let time_done := max_operand_time + 1 in
      r ← foldM (call_output entry max_operand_time time_done devices) (st, ∅) (users i);
      let '(st, output_names) := (r : Schedule * gset string) in
      st ← foldM (call_operand time_done output_names) st (operands i);
      OK (set_mesh_time devices time_done st)
  end.

Definition reshard_step (entry : C) (p : HloPartition D) (s : St) st i : Result Schedule :=
  match Color s i with
  | None => Err kInvalidArgument "instruction was not assigned a color"
  | Some color =>
      devices ← DevicesForColor p color;
      operand ← operand i 0;
      let time_started := time_at (times_available st) operand in
      let time_done := time_started + 2 in
      st ← visit_output entry time_started i devices st;
      st ← (if bool_decide (opcode operand <> kParameter) then
              match Color s operand with
              | None => Err kInvalidArgument "operand was not assigned a color"
              | Some _ => free_operand time_done operand st
              end
            else OK st);
      OK (set_available i time_done st)
  end.

Definition schedule_step (entry : C) (p : HloPartition D) (s : St) st i : Result Schedule :=
  if bool_decide (opcode i = kCall) then call_step entry p s st i
  else if IsCustomCall i kCustomCallReshard then reshard_step entry p s st i
  else OK st.

Definition initial_schedule (entry : C) (names : gmap I string) : Schedule :=
  foldl (fun st i => set_name i (instruction_name i) st)
    (MkSchedule ∅ ∅ ∅ BufferAllocator.empty names) (parameter_instructions entry).

Definition Run (entry : C) (p : HloPartition D) (s : St) (names : gmap I string)
    : Result Schedule :=
  foldM (schedule_step entry p s) (initial_schedule entry names) (MakeInstructionPostOrder entry).
End pass.
