(* ===== verification/BufferSafety.v ===== *)
(** * Temporaries that share a buffer do not overlap

    When every operand of a task is passed once, two instructions are given the same
    buffer only if all users of the one come before the instruction that produces
    the other.  A task that takes an operand twice breaks this. *)
From S2P Require Import Prelude Hlo Instruction Partition Sharding ShardingIndex Utils BufferScheduling.
Local Open Scope Z_scope.

(** ** The allocator *)
Section allocator.
Context {Sh : Type} `{Countable Sh, !Inhabited Sh, !HeapTop}.
Implicit Types (a : BufferAllocator.t Sh) (shape : Sh).

Definition pooled a shape (b : string) : Prop := b ∈ use_name <$> BufferAllocator.pool_of a shape.

(** A buffer is in at most one pool, at most once. *)
Definition pools_unique a : Prop :=
  (forall sh1 sh2 b, pooled a sh1 b -> pooled a sh2 b -> sh1 = sh2) /\
  (forall shape, NoDup (use_name <$> BufferAllocator.pool_of a shape)).

Lemma pool_of_insert a shape pool shapes sh :
  BufferAllocator.pool_of (BufferAllocator.mk (<[shape := pool]> (BufferAllocator.pools_ a)) shapes) sh =
  if decide (shape = sh) then pool else BufferAllocator.pool_of a sh.
Proof.
  unfold BufferAllocator.pool_of; cbn. case_decide as Hs.
  - subst. by rewrite lookup_insert_eq.
  - by rewrite lookup_insert_ne.
Qed.

Lemma pooled_FreeAtTime time name a shape b :
  pooled (BufferAllocator.FreeAtTime time name a) shape b <->
  pooled a shape b \/ (shape = BufferAllocator.shape_for a name /\ b = name).
Proof.
  unfold pooled, BufferAllocator.FreeAtTime. rewrite pool_of_insert. case_decide as Hs.
  - unfold BufferPool.FreeAtTime. rewrite fmap_app. set_solver.
  - set_solver.
Qed.

Lemma unique_FreeAtTime time name a :
  pools_unique a -> (forall shape, ~ pooled a shape name) ->
  pools_unique (BufferAllocator.FreeAtTime time name a).
Proof.
  intros [Hone Hnd] Hnew. split.
  - intros sh1 sh2 b. rewrite !pooled_FreeAtTime. intros [H1|[-> ->]] [H2|[-> Hb]]; try done.
    + by eapply Hone.
    + subst b. by apply Hnew in H1.
    + by apply Hnew in H2.
  - intros shape. unfold BufferAllocator.FreeAtTime. rewrite pool_of_insert. case_decide as Hs; [|done].
    unfold BufferPool.FreeAtTime. rewrite fmap_app. apply NoDup_app. split; [apply Hnd|].
    split; [|apply NoDup_singleton]. intros b Hb Hb'. apply list_elem_of_singleton in Hb'. subst b.
    by apply (Hnew (BufferAllocator.shape_for a name)).
Qed.

(** An allocation takes a buffer of the shape out of its pool that was freed in time,
    or gives the instruction a buffer of its own. *)
Lemma AllocateAtTime_cases shape time name a b a' :
  BufferAllocator.AllocateAtTime shape time name a = (b, a') ->
  (b = name /\ forall sh b', pooled a' sh b' <-> pooled a sh b') \/
  (pooled a shape b /\ (pools_unique a -> forall sh b', pooled a' sh b' <-> pooled a sh b' /\ b' <> b)).
Proof.
  unfold BufferAllocator.AllocateAtTime, BufferPool.AllocateAtTime.
  destruct (heap_pop (BufferAllocator.pool_of a shape)) as [[top rest]|] eqn:Hpop.
  2:{ intros [= <- <-]. left. split; [done|]. intros sh b'. unfold pooled. rewrite pool_of_insert.
      by case_decide; subst. }
  destruct (available top <=? time).
  2:{ intros [= <- <-]. left. split; [done|]. intros sh b'. unfold pooled. rewrite pool_of_insert.
      by case_decide; subst. }
  intros [= <- <-]. cbn. apply heap_pop_Some in Hpop as [Hperm _]. right.
  assert (forall b', b' ∈ use_name <$> BufferAllocator.pool_of a shape <->
            b' = use_name top \/ b' ∈ use_name <$> rest) as Helem.
  { intros b'. rewrite Hperm. set_solver. }
  split; [apply Helem; by left|]. intros [Hone Hnd] sh b'. unfold pooled. rewrite pool_of_insert.
  case_decide as Hs.
  - subst sh. rewrite Helem. specialize (Hnd shape). rewrite Hperm in Hnd.
    apply NoDup_cons in Hnd as [Htop _]. naive_solver.
  - split; [|tauto]. intros Hb'. split; [done|]. intros ->. apply Hs.
    eapply Hone; [|exact Hb']. apply Helem. by left.
Qed.

Lemma unique_AllocateAtTime shape time name a b a' :
  BufferAllocator.AllocateAtTime shape time name a = (b, a') -> pools_unique a -> pools_unique a'.
Proof.
  intros Ha Hu. pose proof (AllocateAtTime_cases _ _ _ _ _ _ Ha) as Hcases.
  assert (forall sh b', pooled a' sh b' -> pooled a sh b') as Hsub.
  { intros sh b' Hb'. destruct Hcases as [[_ Heq]|[_ Heq]]; [by apply Heq|].
    by apply (Heq Hu) in Hb' as [? _]. }
  destruct Hu as [Hone Hnd]. split; [intros sh1 sh2 b' H1 H2; eapply Hone; by apply Hsub|].
  intros sh. unfold BufferAllocator.AllocateAtTime, BufferPool.AllocateAtTime in Ha.
  destruct (heap_pop _) as [[top rest]|] eqn:Hpop; [destruct (_ <=? _)|]; injection Ha as <- <-;
    rewrite pool_of_insert; case_decide; try apply Hnd.
  apply heap_pop_Some in Hpop as [Hperm _]. specialize (Hnd shape). rewrite Hperm in Hnd.
  by apply NoDup_cons in Hnd as [_ Hnd].
Qed.
End allocator.

(** ** The pass *)
Section safety.
Context {I C St D HS : Type} `{Countable I, Countable D}.
Context `{!Hlo I C, !AttrStore I St, !DeviceListApi D, !HloShardingApi HS, !NamedInstruction I HS}.
Context `{!Inhabited (ShardedShape D), !HeapTop, !PostOrderLaws I C}.
Abbreviation Schedule := (Schedule I D).
Implicit Types (i v w x : I) (st : Schedule) (l done : list I).

(** The instruction whose visit gives [w] its buffer. *)
Definition produces x w : Prop :=
  (opcode x = kCall /\ w ∈ users x) \/ (IsCustomCall x kCustomCallReshard = true /\ x = w).

(** In the order [l], all users of [v] come before the instruction that produces [w]. *)
Definition before l v w : Prop :=
  exists prefix x, (prefix ++ [x]) `prefix_of` l /\ produces x w /\ users v ⊆ prefix.

Lemma before_app l l' v w : before l v w -> before (l ++ l') v w.
Proof.
  intros (p & x & Hp & Hx & Hu). exists p, x. split; [|done]. by apply prefix_app_r.
Qed.

Lemma before_dead done x v w : before (done ++ [x]) v w -> users v ⊆ done.
Proof.
  intros (p & y & [k Hk] & _ & Hu). etrans; [exact Hu|]. intros j [n Hn]%list_elem_of_lookup.
  assert ((done ++ [x]) !! n = Some j) as Hj by (rewrite Hk; by do 2 apply lookup_app_l_Some).
  apply lookup_lt_Some in Hn. apply (f_equal length) in Hk. rewrite !length_app in Hk. cbn in Hk.
  rewrite lookup_app_l in Hj by lia. by eapply list_elem_of_lookup_2.
Qed.

(** How many users of [v] are in [l]. *)
Definition used l v : nat := length (filter (fun u => u ∈ l) (users v)).

Lemma filter_length_mono (P Q : I -> Prop) `{!forall j, Decision (P j), !forall j, Decision (Q j)} us :
  (forall j, P j -> Q j) -> (length (filter P us) <= length (filter Q us))%nat.
Proof.
  intros HPQ. induction us as [|j us IH]; [done|]. rewrite !filter_cons.
  repeat case_decide; cbn [length]; try lia. exfalso. auto.
Qed.

Lemma used_snoc done x v :
  (used done v + (if decide (x ∈ users v /\ x ∉ done) then 1 else 0) <= used (done ++ [x]) v)%nat.
Proof.
  unfold used. case_decide as Hx.
  - destruct Hx as [Hx Hd]. apply list_elem_of_split in Hx as (l1 & l2 & ->).
    rewrite !filter_app, !filter_cons, !length_app.
    rewrite (decide_False (P := x ∈ done)) by done.
    rewrite (decide_True (P := x ∈ done ++ [x])) by set_solver. cbn [length].
    pose proof (filter_length_mono (fun u => u ∈ done) (fun u => u ∈ done ++ [x]) l1
      ltac:(set_solver)).
    pose proof (filter_length_mono (fun u => u ∈ done) (fun u => u ∈ done ++ [x]) l2
      ltac:(set_solver)). lia.
  - rewrite Nat.add_0_r. apply filter_length_mono. set_solver.
Qed.

(** When all but one of the users are in [done], and [x] is not, the rest are. *)
Lemma used_all_but done x v :
  x ∈ users v -> x ∉ done -> (length (users v) <= used done v + 1)%nat -> users v ⊆ done ++ [x].
Proof.
  intros Hx Hd Hlen j Hj. destruct (decide (j = x)) as [->|Hjx]; [set_solver|].
  destruct (decide (j ∈ done)) as [Hjd|Hjd]; [set_solver|]. exfalso.
  assert (used done v + 2 <= length (users v))%nat as Hlt; [|lia].
  clear Hlen. unfold used.
  assert (forall us, (length (filter (fun u => u ∈ done) us) <= length us)%nat) as Hle
    by (intros us; apply length_filter).
  apply list_elem_of_split in Hx as (l1 & l2 & Heq). rewrite Heq in *.
  rewrite filter_app, filter_cons, !length_app, (decide_False (P := x ∈ done)) by done. cbn [length].
  assert (forall us, j ∈ us -> (length (filter (fun u => u ∈ done) us) + 1 <= length us)%nat) as Hj1.
  { clear -Hle Hjd. intros us Hj. apply list_elem_of_split in Hj as (k1 & k2 & ->).
    rewrite filter_app, filter_cons, !length_app, (decide_False (P := j ∈ done)) by done.
    cbn [length]. pose proof (Hle k1). pose proof (Hle k2). lia. }
  apply elem_of_app in Hj as [Hj|Hj].
  - pose proof (Hj1 _ Hj). pose proof (Hle l2). lia.
  - apply elem_of_cons in Hj as [?|Hj]; [done|]. pose proof (Hj1 _ Hj). pose proof (Hle l1). lia.
Qed.

(** ** The invariant *)

(** What is known after the instructions [done]: [extra] are the operands that the
    current instruction [x] has already released, and [order] are the instructions
    that may have named something. *)
Record released done (x : I) (extra : list I) order st : Prop := {
  rel_visits : forall v,
    time_at (times_visited st) v <= Z.of_nat (used done v + if decide (v ∈ extra) then 1 else 0);
  rel_unique : pools_unique (allocator st);
  rel_holder : forall sh b, pooled (allocator st) sh b -> b <> "" /\ exists v, name_of st v = b;
  rel_pool : forall sh b, pooled (allocator st) sh b ->
    (forall v, name_of st v = b -> users v ⊆ done) \/
    (exists w, w ∈ extra /\ name_of st w = b /\ forall v, name_of st v = b -> users v ⊆ done ++ [x]);
  rel_names : forall v, name_of st v <> "" ->
    exists w, name_of st v = instruction_name w /\ name_of st w = instruction_name w;
  rel_disjoint : forall v w, v <> w -> name_of st v = name_of st w -> name_of st v <> "" ->
    before order v w \/ before order w v;
}.

Hypothesis (names_nonempty : forall i, instruction_name i <> "").
Hypothesis (names_distinct : forall i j, instruction_name i = instruction_name j -> i = j).

Lemma name_of_set_name i n st j : name_of (set_name i n st) j = if decide (i = j) then n else name_of st j.
Proof.
  unfold name_of, set_name; cbn. case_decide; subst; by rewrite ?lookup_insert_eq, ?lookup_insert_ne.
Qed.

(** The own name of an instruction without a buffer is not in use. *)
Lemma own_name_unused done x extra order st o v :
  released done x extra order st -> name_of st o = "" -> name_of st v <> instruction_name o.
Proof.
  intros R Ho Hv. destruct (rel_names _ _ _ _ _ R v) as (w & Hw & Hww).
  - rewrite Hv. apply names_nonempty.
  - rewrite Hv in Hw. apply names_distinct in Hw. subst w. rewrite Ho in Hww.
    by apply (names_nonempty o).
Qed.

(** A step that changes neither names, visits nor pools. *)
Lemma released_same done x extra order st st' :
  released done x extra order st -> times_visited st' = times_visited st ->
  allocator st' = allocator st -> scheduling_names st' = scheduling_names st ->
  released done x extra order st'.
Proof.
  intros R Hv Ha Hn.
  assert (forall j, name_of st' j = name_of st j) as Hname by (intros j; unfold name_of; by rewrite Hn).
  destruct R as [R1 R2 R3 R4 R5 R6]. split; rewrite ?Hv, ?Ha; try done.
  - intros sh b Hb. destruct (R3 sh b Hb) as [Hne [v Hv']]. split; [done|]. exists v. by rewrite Hname.
  - intros sh b Hb. destruct (R4 sh b Hb) as [Hd|(w & Hw & Hwb & Hd)]; [left|right].
    + intros v. rewrite Hname. auto.
    + exists w. rewrite Hname. split; [done|]. split; [done|]. intros v. rewrite Hname. auto.
  - intros v. rewrite Hname. intros Hne. destruct (R5 v Hne) as (w & ? & ?).
    exists w. by rewrite Hname.
  - intros v w. rewrite !Hname. apply R6.
Qed.

(** The output [o] takes a name [n] that leaves the pools, and whose other holders
    come before [o]. *)
Lemma released_named done x order st o n a :
  released done x [] order st -> name_of st o = "" -> n <> "" -> pools_unique a ->
  (forall sh b, pooled a sh b -> pooled (allocator st) sh b /\ b <> n) ->
  (n = instruction_name o \/ exists v, name_of st v = n) ->
  (forall v, name_of st v = n -> before order v o) ->
  released done x [] order (set_name o n (set_allocator a st)).
Proof.
  intros [R1 R2 R3 R4 R5 R6] Ho Hn Ha Hpool Hname Hbefore.
  assert (forall v, name_of st v <> "" -> name_of (set_name o n (set_allocator a st)) v = name_of st v)
    as Hold by (intros v Hv; rewrite name_of_set_name; case_decide; [by subst v|done]).
  assert (forall v, name_of (set_name o n (set_allocator a st)) v <> n ->
            name_of (set_name o n (set_allocator a st)) v = name_of st v) as Hother
    by (intros v; rewrite name_of_set_name; by case_decide).
  split; try done.
  - intros sh b Hb. destruct (Hpool sh b Hb) as [Hb' _]. destruct (R3 sh b Hb') as [Hne [v Hv]].
    split; [done|]. exists v. rewrite Hold; congruence.
  - intros sh b Hb. destruct (Hpool sh b Hb) as [Hb' Hbn].
    destruct (R4 sh b Hb') as [Hd|(w & Hw & _)]; [left|by apply elem_of_nil in Hw].
    intros v Hv. apply Hd. rewrite <- Hother; congruence.
  - intros v Hv. destruct (decide (name_of (set_name o n (set_allocator a st)) v = n)) as [Hvn|Hvn].
    + rewrite Hvn. destruct Hname as [->|[u Hu]].
      * exists o. split; [done|]. rewrite name_of_set_name. by rewrite decide_True.
      * destruct (R5 u) as (w & Hw & Hww); [congruence|]. exists w. split; [congruence|].
        rewrite Hold; [done|]. rewrite Hww. apply names_nonempty.
    + rewrite (Hother v Hvn) in Hv |- *. destruct (R5 v Hv) as (w & Hw & Hww). exists w.
      split; [done|]. rewrite Hold; [done|]. rewrite Hww. apply names_nonempty.
  - intros v w Hvw Heq Hne. rewrite !name_of_set_name in *.
    destruct (decide (o = v)) as [<-|Hov], (decide (o = w)) as [<-|How]; try done.
    + right. by apply Hbefore.
    + left. by apply Hbefore.
    + by apply R6.
Qed.

(** ** Outputs *)

Lemma released_visit_output done x entry time o devices st st' :
  released done x [] (done ++ [x]) st -> produces x o ->
  visit_output entry time o devices st = OK st' -> released done x [] (done ++ [x]) st'.
Proof.
  intros R Hx. unfold visit_output. case_bool_decide as Ho; [by intros [= <-]|].
  pose proof (fun v => own_name_unused _ _ _ _ _ o v R Ho) as Hfresh.
  assert (forall sh b, pooled (allocator st) sh b -> b <> instruction_name o) as Hown.
  { intros sh b Hb ->. destruct (rel_holder _ _ _ _ _ R _ _ Hb) as [_ [v Hv]].
    by apply (Hfresh v) in Hv. }
  destruct (existsb _ _).
  { intros [= <-].
    replace (set_name o (instruction_name o) st)
      with (set_name o (instruction_name o) (set_allocator (allocator st) st)) by by destruct st.
    apply released_named; try done; [apply R|by eauto|by left|].
    intros v Hv. by apply (Hfresh v) in Hv. }
  intros (shape & _ & Hrun)%Result_bind_OK.
  destruct (BufferAllocator.AllocateAtTime _ _ _ _) as [name a] eqn:Halloc. injection Hrun as <-.
  pose proof (unique_AllocateAtTime _ _ _ _ _ _ Halloc (rel_unique _ _ _ _ _ R)) as Hu.
  apply AllocateAtTime_cases in Halloc as [[-> Heq]|[Hb Heq]].
  - apply released_named; try done; [|by left|].
    + intros sh b Hb. split; [by apply Heq|]. by eapply Hown, Heq.
    + intros v Hv. by apply (Hfresh v) in Hv.
  - specialize (Heq (rel_unique _ _ _ _ _ R)).
    destruct (rel_holder _ _ _ _ _ R _ _ Hb) as [Hne [v0 Hv0]].
    apply released_named; try done; [by intros sh b ?%Heq|by right; exists v0|].
    intros v Hv. exists done, x. split; [done|]. split; [done|].
    destruct (rel_pool _ _ _ _ _ R _ _ Hb) as [Hd|(w & Hw & _)]; [by apply Hd|by apply elem_of_nil in Hw].
Qed.

(** ** Operands *)

Hypothesis (users_operands : forall v x, x ∈ users v <-> v ∈ operands x).

Lemma released_free_operand done x extra time v st st' :
  x ∉ done -> v ∈ operands x -> v ∉ extra -> extra ⊆ operands x ->
  released done x extra (done ++ [x]) st ->
  free_operand time v st = OK st' -> released done x (v :: extra) (done ++ [x]) st'.
Proof.
  intros Hx Hv Hextra Hsub R. pose proof R as [R1 R2 R3 R4 R5 R6].
  apply users_operands in Hv as Hxv.
  assert (released done x (v :: extra) (done ++ [x]) st) as Hmore.
  { split; try done.
    - intros j. specialize (R1 j). repeat case_decide; try lia. set_solver.
    - intros sh b Hb. destruct (R4 sh b Hb) as [Hd|(w & Hw & ?)]; [by left|right].
      exists w. split; [set_solver|done]. }
  unfold free_operand. destruct (IsCustomCall v kCustomCallSliceOffset); [by intros [= <-]|].
  destruct (bool_decide (opcode v <> kParameter)); [|by intros [= <-]].
  case_bool_decide as Hname; [done|]. intros [= <-].
  assert (forall n, n <= Z.of_nat (used done v + 1) ->
    released done x (v :: extra) (done ++ [x]) (set_visited v n st)) as Hset.
  { intros n Hn. destruct Hmore as [M1 M2 M3 M4 M5 M6]. split; try done. intros j. unfold time_at; cbn.
    destruct (decide (v = j)) as [<-|Hvj].
    - rewrite lookup_insert_eq. cbn. rewrite decide_True by (by left). lia.
    - rewrite lookup_insert_ne by done. apply M1. }
  pose proof (R1 v) as Hcount. rewrite decide_False in Hcount by done.
  set (n := time_at (times_visited st) v + 1).
  assert (n <= Z.of_nat (used done v + 1)) as Hn by (unfold n; lia). specialize (Hset n Hn).
  case_bool_decide as Hlast; [|done].
  assert (users v ⊆ done ++ [x]) as Hdead.
  { apply used_all_but; [done|done|]. unfold Zlength in Hlast. lia. }
  assert (forall w, w <> v -> name_of st w = name_of st v -> x ∈ users w -> False) as Hsingle.
  { intros w Hwv Hwn Hxw. destruct (R6 v w) as [Hb|Hb]; try done.
    - apply Hx. by apply (before_dead _ _ _ _ Hb).
    - apply Hx. by apply (before_dead _ _ _ _ Hb). }
  assert (forall sh, ~ pooled (allocator st) sh (name_of st v)) as Hnot.
  { intros sh Hb. destruct (R4 _ _ Hb) as [Hd|(w & Hw & Hwb & _)].
    - apply Hx. by apply (Hd v eq_refl).
    - apply (Hsingle w); [by intros ->|done|]. apply users_operands. by apply Hsub. }
  destruct Hset as [S1 S2 S3 S4 S5 S6]. split; try done.
  - cbn. by apply unique_FreeAtTime.
  - intros sh b Hb. apply pooled_FreeAtTime in Hb as [Hb|[-> ->]]; [by apply (R3 sh)|].
    split; [done|]. by exists v.
  - intros sh b Hb. apply pooled_FreeAtTime in Hb as [Hb|[-> ->]]; [by apply (S4 sh)|].
    right. exists v. split; [by left|]. split; [done|]. intros w Hw.
    destruct (decide (w = v)) as [->|Hwv]; [done|].
    destruct (R6 v w) as [Hb|Hb]; try done.
    + exfalso. apply Hx. by apply (before_dead _ _ _ _ Hb).
    + etrans; [by apply (before_dead _ _ _ _ Hb)|]. set_solver.
Qed.

(** ** Instructions *)

(** Between two instructions. *)
Definition scheduled done st : Prop := forall x, released done x [] done st.

Lemma before_mono l l' v w : l `prefix_of` l' -> before l v w -> before l' v w.
Proof. intros [k ->]. apply before_app. Qed.

Lemma released_start done x st : scheduled done st -> released done x [] (done ++ [x]) st.
Proof.
  intros Hs. destruct (Hs x) as [R1 R2 R3 R4 R5 R6]. split; try done.
  intros v w Hvw Heq Hne. destruct (R6 v w Hvw Heq Hne); [left|right]; by apply before_app.
Qed.

Lemma scheduled_end done x extra st :
  x ∉ done -> extra ⊆ operands x -> released done x extra (done ++ [x]) st ->
  scheduled (done ++ [x]) st.
Proof.
  intros Hx Hsub [R1 R2 R3 R4 R5 R6] y. split; try done.
  - intros v. specialize (R1 v). pose proof (used_snoc done x v) as Hu.
    rewrite (decide_False (P := v ∈ [])) by apply not_elem_of_nil.
    destruct (decide (v ∈ extra)) as [Hv|Hv].
    + rewrite decide_True in Hu; [lia|]. split; [|done]. by apply users_operands, Hsub.
    + lia.
  - intros sh b Hb. left. intros v Hv. destruct (R4 sh b Hb) as [Hd|(w & _ & _ & Hd)]; [|auto].
    etrans; [by apply Hd|]. set_solver.
Qed.

Lemma scheduled_skip done x st : x ∉ done -> scheduled done st -> scheduled (done ++ [x]) st.
Proof.
  intros Hx Hs. apply (scheduled_end _ _ [] _ Hx); [set_solver|]. by apply released_start.
Qed.

Lemma released_call_outputs done x entry t1 t2 devices us st names r :
  released done x [] (done ++ [x]) st -> (forall o, o ∈ us -> produces x o) ->
  foldM (call_output entry t1 t2 devices) (st, names) us = OK r ->
  released done x [] (done ++ [x]) r.1.
Proof.
  intros R Hus.
  apply (foldM_inv (fun _ (r : Schedule * gset string) => released done x [] (done ++ [x]) r.1)); [done|].
  intros ds o rest [st1 n1] r2 Heq R1. unfold call_output. cbn in R1.
  intros (st2 & H2 & [= <-])%Result_bind_OK. cbn.
  eapply released_visit_output; [|apply (Hus o); rewrite Heq; set_solver|exact H2].
  by eapply released_same.
Qed.

Lemma released_call_operands done x time names ops st st' :
  x ∉ done -> NoDup ops -> ops ⊆ operands x -> released done x [] (done ++ [x]) st ->
  foldM (call_operand time names) st ops = OK st' ->
  exists extra, extra ⊆ ops /\ released done x extra (done ++ [x]) st'.
Proof.
  intros Hx Hnd Hsub R Hrun.
  revert Hrun. apply (foldM_inv (fun l st =>
    exists extra, extra ⊆ l /\ released done x extra (done ++ [x]) st)); [by exists []|].
  intros l v rest st1 st2 Heq (extra & Hextra & R1). unfold call_operand.
  destruct (bool_decide _); [|intros [= <-]; exists extra; split; [set_solver|done]].
  intros Hfree. exists (v :: extra). split; [set_solver|].
  rewrite Heq in Hnd. apply NoDup_app in Hnd as (_ & Hdisj & _).
  eapply released_free_operand; [done| | | |exact R1|exact Hfree].
  - apply Hsub. rewrite Heq. set_solver.
  - intros Hv. apply (Hdisj v); [by apply Hextra|]. left.
  - etrans; [exact Hextra|]. etrans; [|exact Hsub]. rewrite Heq. set_solver.
Qed.

Variables (entry : C) (p : HloPartition D) (s : St).
Hypothesis (call_operands : forall i,
  i ∈ MakeInstructionPostOrder entry -> opcode i = kCall -> NoDup (operands i)).

Lemma scheduled_step done x st st' :
  x ∉ done -> x ∈ MakeInstructionPostOrder entry -> scheduled done st ->
  schedule_step entry p s st x = OK st' -> scheduled (done ++ [x]) st'.
Proof.
  intros Hx Hin Hs Hrun. unfold schedule_step in Hrun.
  pose proof (released_start done x st Hs) as R.
  case_bool_decide as Hcall; [|destruct (IsCustomCall x kCustomCallReshard) eqn:Hre].
  - unfold call_step in Hrun. destruct (Color s x); [|done].
    apply Result_bind_OK in Hrun as (devices & _ & Hrun).
    apply Result_bind_OK in Hrun as ([st1 names] & Hout & Hrun).
    apply Result_bind_OK in Hrun as (st2 & Hops & [= <-]).
    apply (released_call_outputs done x) in Hout; [|done|intros o Ho; by left].
    eapply released_call_operands in Hops as (extra & Hsub & R2); [|done|by apply call_operands|done|exact Hout].
    apply (scheduled_end _ _ extra); [done|done|]. by eapply released_same.
  - unfold reshard_step in Hrun. destruct (Color s x); [|done].
    apply Result_bind_OK in Hrun as (devices & _ & Hrun).
    apply Result_bind_OK in Hrun as (o & Ho & Hrun).
    apply Result_bind_OK in Hrun as (st1 & Hout & Hrun).
    apply Result_bind_OK in Hrun as (st2 & Hops & [= <-]).
    apply (released_visit_output done x) in Hout; [|done|by right].
    assert (o ∈ operands x) as Hox by (apply vec_at_lookup in Ho as [_ Ho]; by eapply list_elem_of_lookup_2).
    assert (exists extra, extra ⊆ operands x /\ released done x extra (done ++ [x]) st2)
      as (extra & Hsub & R2).
    { destruct (bool_decide _); [|injection Hops as <-; exists []; split; [set_solver|done]].
      destruct (Color s o); [|done]. exists [o]. split; [set_solver|].
      eapply released_free_operand; [done|exact Hox|apply not_elem_of_nil|set_solver|exact Hout|exact Hops]. }
    apply (scheduled_end _ _ extra); [done|done|]. by eapply released_same.
  - injection Hrun as <-. by apply scheduled_skip.
Qed.

Definition start : Schedule := initial_schedule entry ∅.

Lemma initial_names v :
  name_of (start) v = "" \/
  name_of (start) v = instruction_name v.
Proof.
  unfold start, initial_schedule.
  assert (forall ps st, (name_of st v = "" \/ name_of st v = instruction_name v) ->
    name_of (foldl (fun st i => set_name i (instruction_name i) st) st ps) v = "" \/
    name_of (foldl (fun st i => set_name i (instruction_name i) st) st ps) v = instruction_name v) as Hps.
  { induction ps as [|q ps IH]; intros st Hst; cbn [foldl]; [done|]. apply IH.
    rewrite name_of_set_name. case_decide; [by subst; right|done]. }
  apply Hps. left. unfold name_of. cbn. by rewrite lookup_empty.
Qed.

Lemma initial_state :
  allocator (start) = BufferAllocator.empty /\
  times_visited (start) = ∅.
Proof.
  unfold start, initial_schedule.
  assert (forall ps st,
    allocator (foldl (fun st i => set_name i (instruction_name i) st) st ps) = allocator st /\
    times_visited (foldl (fun st i => set_name i (instruction_name i) st) st ps) = times_visited st)
    as Hps.
  { induction ps as [|q ps IH]; intros st; [done|]. cbn [foldl].
    by destruct (IH (set_name q (instruction_name q) st)) as [-> ->]. }
  apply Hps.
Qed.

Lemma scheduled_initial : scheduled [] (start).
Proof.
  destruct initial_state as [Ha Hv]. intros x. split; rewrite ?Ha, ?Hv.
  - intros v. unfold time_at. rewrite lookup_empty. cbn. lia.
  - split; [|intros sh; constructor]. intros sh1 sh2 b Hb. by apply elem_of_nil in Hb.
  - intros sh b Hb. by apply elem_of_nil in Hb.
  - intros sh b Hb. by apply elem_of_nil in Hb.
  - intros v Hne. exists v. by destruct (initial_names v).
  - intros v w Hvw Heq Hne. destruct (initial_names v), (initial_names w); try congruence.
    exfalso. apply Hvw, names_distinct. congruence.
Qed.

(** C23: When the calls take every operand once and no buffer is named in advance, two
    instructions share a buffer only if, in the order of the entry computation, all
    users of the one come before the call or reshard that produces the other. *)
Theorem Run_buffers_disjoint st v w :
  Run entry p s ∅ = OK st -> v <> w -> name_of st v = name_of st w -> name_of st v <> "" ->
  before (MakeInstructionPostOrder entry) v w \/ before (MakeInstructionPostOrder entry) w v.
Proof.
  unfold Run. intros Hrun Hvw Heq Hne.
  cut (scheduled (MakeInstructionPostOrder entry) st).
  { intros Hs. by apply (rel_disjoint _ _ _ _ _ (Hs v)). }
  revert Hrun. apply (foldM_inv scheduled); [apply scheduled_initial|].
  intros done x rest st1 st2 Heq' Hs Hx. eapply scheduled_step; [| |exact Hs|exact Hx].
  - intros Hin. pose proof (postorder_NoDup entry) as Hnd. rewrite Heq' in Hnd.
    apply NoDup_app in Hnd as (_ & Hdisj & _). apply (Hdisj x Hin). left.
  - rewrite Heq'. set_solver.
Qed.
End safety.

(** ** Evaluations on concrete modules *)

(** A queue whose top is the first of the uses with the smallest time. *)
Fixpoint pop_min (uses : list BufferUse) : option (BufferUse * list BufferUse) :=
  match uses with
  | [] => None
  | u :: uses =>
      match pop_min uses with
      | None => Some (u, uses)
      | Some (top, rest) =>
          if CompareTimes u top then Some (top, u :: rest) else Some (u, uses)
      end
  end.

Lemma pop_min_None uses : pop_min uses = None <-> uses = [].
Proof.
  destruct uses as [|u uses]; [done|]. cbn. destruct (pop_min uses) as [[top rest]|]; [|done].
  by destruct (CompareTimes u top).
Qed.

Lemma pop_min_Some uses top rest : pop_min uses = Some (top, rest) ->
  uses ≡ₚ top :: rest /\ forall u, u ∈ uses -> CompareTimes top u = false.
Proof.
  revert top rest. induction uses as [|u uses IH]; intros top rest; cbn; [done|].
  unfold CompareTimes in *. destruct (pop_min uses) as [[top' rest']|] eqn:Hpop.
  - destruct (IH _ _ eq_refl) as [Hperm Hmin].
    destruct (available top' <? available u) eqn:Hlt; intros [= <- <-]; split.
    + by rewrite Hperm, perm_swap.
    + intros u' [->|Hu']%elem_of_cons; [apply Z.ltb_ge; apply Z.ltb_lt in Hlt; lia|by apply Hmin].
    + done.
    + intros u' [->|Hu'%Hmin]%elem_of_cons; [apply Z.ltb_irrefl|].
      apply Z.ltb_ge in Hlt, Hu'. apply Z.ltb_ge. lia.
  - apply pop_min_None in Hpop as ->. intros [= <- <-]. split; [done|].
    intros u' ->%list_elem_of_singleton. apply Z.ltb_irrefl.
Qed.

Definition first_min : HeapTop :=
  {| heap_pop := pop_min; heap_pop_None := pop_min_None; heap_pop_Some := pop_min_Some |}.

Module SchedulingSample.
Definition call (ops : list nat) : Graph.node := Graph.Node kCall ops 0 [] "" "" true 1 false.
Definition gte (i : nat) : Graph.node := Graph.Node kGetTupleElement [i] 0 [] "" "" false 1 false.

(** A chain of tasks that each pass their result on. *)
Definition chain : list Graph.node :=
  [Graph.op kParameter []; call [0]%nat; gte 1; call [2]%nat; gte 3; call [4]%nat; gte 5;
   call [6]%nat; gte 7; Graph.Node kTuple [8]%nat 0 [] "" "" true 1 false].

(** The same, but the second task takes its operand twice and the last one takes the
    first result again. *)
Definition twice : list Graph.node :=
  [Graph.op kParameter []; call [0]%nat; gte 1; call [2; 2]%nat; gte 3; call [4]%nat; gte 5;
   call [2; 6]%nat; gte 7; Graph.Node kTuple [8]%nat 0 [] "" "" true 1 false].

Definition comps : list Graph.comp := [Graph.Comp 9 [0]%nat [0; 1; 2; 3; 4; 5; 6; 7; 8; 9]%nat].

#[global] Instance named : NamedInstruction nat OpSharding := {
  instruction_name i := "v" +:+ pretty i;
  instruction_shape _ := MkShape F32 [8];
  sharding_or_default _ d := d;
}.
#[global] Instance top : HeapTop := first_min.
#[global] Instance shape_inhabited : Inhabited (ShardedShape Slice.t) :=
  populate (MkSharded Z_F32 [] (Slice.mk 0 0)).

Definition mesh : Slice.t := Slice.mk 0 4.
Definition partition : HloPartition Slice.t :=
  snd (AllocateColor_named (Create mesh) "task" mesh default_TaskOptions).
Definition colors : AttrMap.t :=
  foldl (fun s i => AssignColor i "task" s) ∅ [1; 3; 5; 7]%nat.

Definition run (ns : list Graph.node) : Result (Schedule nat Slice.t) :=
  @Run nat nat AttrMap.t Slice.t OpSharding _ _ _ _ (Graph.hlo ns comps) _ _ ShardingIndex.Tiles.api
    named _ top 0%nat partition colors ∅.

Definition result (ns : list Graph.node) : Schedule nat Slice.t :=
  match run ns with OK st => st | _ => MkSchedule ∅ ∅ ∅ BufferAllocator.empty ∅ end.

#[global] Instance hlo : Hlo nat nat := Graph.hlo chain comps.
#[global] Instance postorder : PostOrderLaws nat nat := Graph.postorder_laws chain comps eq_refl.
End SchedulingSample.

Lemma Run_buffers_disjoint_witness :
  name_of (SchedulingSample.result SchedulingSample.chain) 2%nat = "v2" /\
  name_of (SchedulingSample.result SchedulingSample.chain) 6%nat = "v2" /\
  (before (MakeInstructionPostOrder 0%nat) 2%nat 6%nat \/
   before (MakeInstructionPostOrder 0%nat) 6%nat 2%nat).
Proof.
  split; [vm_compute; reflexivity|]. split; [vm_compute; reflexivity|].
  refine (Run_buffers_disjoint _ _ _ 0%nat SchedulingSample.partition SchedulingSample.colors _
    (SchedulingSample.result SchedulingSample.chain) 2%nat 6%nat _ _ _ _).
  - discriminate.
  - intros i j [= Hij]. change (pretty i = pretty j) in Hij. by apply (inj pretty) in Hij.
  - intros v x. apply Graph.users_operands.
  - intros i Hi Hcall. change (i ∈ [0; 1; 2; 3; 4; 5; 6; 7; 8; 9]%nat) in Hi.
    repeat (apply elem_of_cons in Hi as [->|Hi]; [first [discriminate Hcall|apply NoDup_singleton]|]).
    by apply elem_of_nil in Hi.
  - vm_compute. reflexivity.
  - discriminate.
  - vm_compute. reflexivity.
  - vm_compute. discriminate.
Defined.

(** When a task takes an operand twice, both occurrences count as uses: the operand
    is freed although another task still uses it.  Here the third task's output is put
    into the buffer of the first task's output, and the last task takes both. *)
Theorem Run_reuses_live_buffer :
  exists st, SchedulingSample.run SchedulingSample.twice = OK st /\
    name_of st 2%nat = "v2" /\ name_of st 6%nat = "v2" /\
    operands (Hlo := Graph.hlo SchedulingSample.twice SchedulingSample.comps) 7%nat = [2; 6]%nat.
Proof.
  exists (SchedulingSample.result SchedulingSample.twice).
  split; [vm_compute; reflexivity|]. split; [vm_compute; reflexivity|].
  split; [vm_compute; reflexivity|reflexivity].
Qed.
