(* ===== verification/BufferAlias.v ===== *)
(** * Input-output aliases (mpmd_input_output_buffer_alias.cc)

    The pass pairs parameters that may be donated with outputs of the same size.
    XLA's alias and donor configurations are parameters, given by the classes
    [AliasConfig] and [BufferDonors] with the laws of their updates; an output index
    is a list ([] for a root that is not a tuple). *)
From S2P Require Import Prelude Hlo.
Local Open Scope Z_scope.

Class AliasConfig (A : Type) := {
  alias_of : A -> list Z -> option Z;
  ParameterHasAlias : A -> Z -> bool;
  SetUpAlias : list Z -> Z -> A -> Result A;
}.
Class AliasConfigLaws (A : Type) `{AliasConfig A} := {
  alias_of_SetUpAlias : forall o p a a', SetUpAlias o p a = OK a' ->
    forall o', alias_of a' o' = if decide (o = o') then Some p else alias_of a o';
  ParameterHasAlias_iff : forall a p, ParameterHasAlias a p = true <-> exists o, alias_of a o = Some p;
}.

Class BufferDonors (B : Type) := {
  ParameterIsBufferDonor : B -> Z -> bool;
  RemoveBufferDonor : Z -> B -> Result B;
}.

Class BufferDonorsLaws (B : Type) `{BufferDonors B} := {
  donor_Remove : forall p b b', RemoveBufferDonor p b = OK b' ->
    forall q, ParameterIsBufferDonor b' q = ParameterIsBufferDonor b q && negb (q =? p);
}.

Definition OutputHasAlias {A} `{AliasConfig A} (a : A) (o : list Z) : bool :=
  bool_decide (is_Some (alias_of a o)).

(** What the pass reads of a module besides the graph.  The sizes are those of
    [GetSpmdShape]; a root of tuple shape has one per element. *)
Class AliasModule (I C : Type) := {
  instructions : C -> list I;
  spmd_size : I -> Z;
  spmd_tuple_sizes : I -> option (list Z);
  same_shape : I -> I -> bool;
}.

Record DonorEntry := MkDonor { param_number : Z; donor_size : Z }.
Record DoneeEntry := MkDonee { donee_index : list Z; donee_size : Z }.

(** [absl::c_stable_sort] by size, in non-increasing order. *)
Fixpoint insert_by_size {X} (size : X -> Z) (x : X) (l : list X) : list X :=
  match l with
  | [] => [x]
  | y :: l => if size x <? size y then y :: insert_by_size size x l else x :: y :: l
  end.
Definition stable_sort {X} (size : X -> Z) (l : list X) : list X :=
  foldr (insert_by_size size) [] l.

Section pass.
Context {I C A B : Type} `{EqDecision I, !Hlo I C, !AliasModule I C, !AliasConfig A, !BufferDonors B}.
Context (temporary_param_indices_ temporary_root_indices_ : gset Z).
Implicit Types (i : I) (a : A) (b : B).

(** ** Build *)

Definition collect_donor (a : A) (b : B) (match_temps : bool) (donors : list DonorEntry) i
    : Result (list DonorEntry) :=
  if bool_decide (opcode i = kParameter) then
    let n := parameter_number_of i in
    if shape_IsTuple i then
      Err kInvalidArgument "cannot perform MPMD input/output aliasing with arg tuples"
    else if ParameterHasAlias a n then OK donors
    else if negb (ParameterIsBufferDonor b n) then OK donors
    else if Bool.eqb match_temps (bool_decide (n ∈ temporary_param_indices_)) then
      if negb (ParameterHasAlias a n) then OK (donors ++ [MkDonor n (spmd_size i)]) else OK donors
    else OK donors
  else OK donors.

Definition collect_donees (a : A) (match_temps : bool) (root : I) : list DoneeEntry :=
  match spmd_tuple_sizes root with
  | Some sizes =>
      (fun '(index, size) => MkDonee [index] size) <$>
        filter (fun '(index, _) =>
          match_temps = bool_decide (index ∈ temporary_root_indices_) /\
          OutputHasAlias a [index] = false) (zip (seqZ 0 (Zlength sizes)) sizes)
  | None =>
      if Bool.eqb match_temps (bool_decide (0 ∈ temporary_root_indices_)) &&
         negb (OutputHasAlias a [])
      then [MkDonee [] (spmd_size root)] else []
  end.

(** The two pointers; one of them advances in every iteration. *)
Fixpoint match_donors (fuel : nat) (donors : list DonorEntry) (donees : list DoneeEntry)
    (st : bool * A * B) : Result (bool * A * B) :=
  match fuel with
  | O => Fatal Diverges
  | S fuel =>
      match donors, donees with
      | donor :: donors', donee :: donees' =>
          if donee_size donee <? donor_size donor then match_donors fuel donors' donees st
          else if donor_size donor <? donee_size donee then match_donors fuel donors donees' st
          else
            let '(_, a, b) := st in
            a ← SetUpAlias (donee_index donee) (param_number donor) a;
            b ← RemoveBufferDonor (param_number donor) b;
            match_donors fuel donors' donees' (true, a, b)
      | _, _ => OK st
      end
  end.

Definition Build (entry : C) (output_is_dynamic match_temps : bool) (a : A) (b : B)
    : Result (bool * A * B) :=
  if output_is_dynamic then OK (false, a, b)
  else
    donors ← foldM (collect_donor a b match_temps) [] (instructions entry);
    let donees := collect_donees a match_temps (root_instruction entry) in
    match_donors (length donors + length donees + 1)
      (stable_sort donor_size donors) (stable_sort donee_size donees) (false, a, b).

(** ** FindBestMatch *)

Definition kMaxVisits : nat := 1000.

Definition is_donor_parameter (a : A) (b : B) i : bool :=
  if bool_decide (opcode i = kParameter) &&
     bool_decide (parameter_number_of i ∉ temporary_param_indices_) &&
     negb (ParameterHasAlias a (parameter_number_of i))
  then ParameterIsBufferDonor b (parameter_number_of i) else false.

(** The breadth-first search, for at most [visits] instructions. *)
Fixpoint find_match (visits : nat) (output_index : list Z) (root : I) (b : B)
    (to_visit : list I) (a : A) : Result A :=
  match visits with
  | O => OK a
  | S visits =>
      match to_visit with
      | [] => OK a
      | o :: to_visit =>
          if is_donor_parameter a b o && same_shape o root
          then SetUpAlias output_index (parameter_number_of o) a
          else find_match visits output_index root b (to_visit ++ operands o) a
      end
  end.

Definition FindBestMatch (entry : C) (output_index : list Z) (root : I) (a : A) (b : B) : Result A :=
  if OutputHasAlias a output_index then OK a
  else if bool_decide (length output_index = 1%nat) &&
          bool_decide (default 0 (head output_index) ∈ temporary_root_indices_) then OK a
  else
    tupled_args ← (if bool_decide (length (parameter_instructions entry) = 1%nat)
                   then p ← vec_at (parameter_instructions entry) 0; OK (shape_IsTuple p)
                   else OK false);
    if (tupled_args : bool) then
      Err kInvalidArgument "MultiMesh buffer donation does not suppoort tupled args"
    else if is_donor_parameter a b root then SetUpAlias output_index (parameter_number_of root) a
    else find_match kMaxVisits output_index root b (operands root) a.

(** ** Run *)

(** [verify] is the check of the alias configuration. *)
Definition Run (verify : A -> Result unit) (entry : C) (output_is_dynamic : bool) (a : A) (b : B)
    : Result (bool * A * B) :=
  let root := root_instruction entry in
  a ← (if shape_IsTuple root then
         foldM (fun a '(n, o) => FindBestMatch entry [n] o a b) a
           (zip (seqZ 0 (Zlength (operands root))) (operands root))
       else FindBestMatch entry [] root a b);
  r1 ← Build entry output_is_dynamic true a b;
  let '(matched_params, a, b) := (r1 : bool * A * B) in
  r2 ← Build entry output_is_dynamic false a b;
  let '(matched_temps, a, b) := (r2 : bool * A * B) in
  _ ← verify a;
  OK (matched_params || matched_temps, a, b).
End pass.
