(* ===== verification/BufferAliasFacts.v ===== *)
(** * What the input-output aliases pair

    The matching of [Build] is a largest one, and [Run] pairs temporaries with
    temporaries only, each parameter with at most one output, when the root is a
    tuple; a root that is not a tuple escapes the first part. *)
From S2P Require Import Prelude Hlo BufferAlias.
Local Open Scope Z_scope.

(** ** Sorting by size *)
Section sorting.
Context {X : Type} (size : X -> Z).

Definition no_smaller : relation X := fun x y => size y <= size x.

Lemma insert_by_size_perm x l : insert_by_size size x l ≡ₚ x :: l.
Proof.
  induction l as [|y l IH]; cbn; [done|]. destruct (size x <? size y); [|done].
  rewrite IH. apply perm_swap.
Qed.

Lemma stable_sort_perm l : stable_sort size l ≡ₚ l.
Proof. induction l as [|x l IH]; cbn; [done|]. by rewrite insert_by_size_perm, IH. Qed.

Lemma insert_by_size_sorted x l :
  StronglySorted no_smaller l -> StronglySorted no_smaller (insert_by_size size x l).
Proof.
  induction 1 as [|y l Hl IH Hy]; cbn; [by repeat constructor|].
  destruct (Z.ltb_spec (size x) (size y)) as [Hlt|Hge].
  - constructor; [done|]. rewrite insert_by_size_perm. constructor; [unfold no_smaller; lia|done].
  - constructor; [by constructor|]. constructor; [unfold no_smaller; lia|].
    eapply Forall_impl; [exact Hy|]. unfold no_smaller. lia.
Qed.

Lemma stable_sort_sorted l : StronglySorted no_smaller (stable_sort size l).
Proof. induction l as [|x l IH]; cbn; [constructor|]. by apply insert_by_size_sorted. Qed.

(** How many elements have the size [n]. *)
Definition count_size (n : Z) (l : list X) : nat := length (filter (fun x => size x = n) l).

Lemma count_size_cons n x l :
  count_size n (x :: l) = ((if decide (size x = n) then 1 else 0) + count_size n l)%nat.
Proof. unfold count_size. rewrite filter_cons. by case_decide. Qed.

Lemma count_size_perm n l1 l2 : l1 ≡ₚ l2 -> count_size n l1 = count_size n l2.
Proof. intros Hp. unfold count_size. by rewrite Hp. Qed.

(** Nothing in a sorted list is larger than its head. *)
Lemma count_size_above n x l :
  StronglySorted no_smaller (x :: l) -> size x < n -> count_size n (x :: l) = 0%nat.
Proof.
  intros Hs Hn. apply StronglySorted_inv in Hs as [_ Hall]. unfold count_size.
  rewrite filter_cons, decide_False by lia. apply length_zero_iff_nil.
  apply elem_of_nil_inv. intros y Hy. apply list_elem_of_filter in Hy as [Hy Hin].
  rewrite Forall_forall in Hall. specialize (Hall y Hin). unfold no_smaller in Hall. lia.
Qed.
End sorting.

Lemma NoDup_included {X} (l k : list X) : NoDup k -> l ⊆+ k -> NoDup l.
Proof.
  intros Hk Hl. apply submseteq_Permutation in Hl as [k' Hp]. rewrite Hp in Hk.
  by apply NoDup_app in Hk as [? _].
Qed.

Section facts.
Context {I C A B : Type} `{EqDecision I, !Hlo I C, !AliasModule I C}.
Context `{!AliasConfig A, !AliasConfigLaws A, !BufferDonors B}.
Implicit Types (i : I) (a : A) (b : B) (ps : list (DonorEntry * DoneeEntry)).

(** ** The two pointers *)

(** The pairs that the loop makes. *)
Fixpoint pairs (fuel : nat) (donors : list DonorEntry) (donees : list DoneeEntry)
    : list (DonorEntry * DoneeEntry) :=
  match fuel with
  | O => []
  | S fuel =>
      match donors, donees with
      | donor :: donors', donee :: donees' =>
          if donee_size donee <? donor_size donor then pairs fuel donors' donees
          else if donor_size donor <? donee_size donee then pairs fuel donors donees'
          else (donor, donee) :: pairs fuel donors' donees'
      | _, _ => []
      end
  end.

(** [a'] and [b'] result from setting up the pairs one after the other. *)
Definition set_up ps (st : A * B) : Result (A * B) :=
  foldM (fun '(a, b) '(donor, donee) =>
      a ← SetUpAlias (donee_index donee) (param_number donor) a;
      b ← RemoveBufferDonor (param_number donor) b; OK (a, b)) st ps.

Lemma match_donors_pairs fuel donors donees c a b r :
  match_donors fuel donors donees (c, a, b) = OK r ->
  set_up (pairs fuel donors donees) (a, b) = OK (r.1.2, r.2) /\
  r.1.1 = c || bool_decide (pairs fuel donors donees <> []).
Proof.
  revert donors donees c a b. induction fuel as [|fuel IH]; intros donors donees c a b; [done|].
  cbn [match_donors pairs]. destruct donors as [|donor donors], donees as [|donee donees].
  1-3: by intros [= <-]; rewrite orb_false_r.
  destruct (_ <? _); [apply IH|]. destruct (_ <? _); [apply IH|].
  intros (a1 & Ha & Hrun)%Result_bind_OK. apply Result_bind_OK in Hrun as (b1 & Hb & Hrun).
  apply IH in Hrun as [Hset Hc]. split.
  - unfold set_up in *. cbn [foldM]. rewrite Ha. cbn [mbind Result_bind]. by rewrite Hb.
  - rewrite Hc. cbn [orb]. by rewrite orb_true_r.
Qed.

Lemma pairs_sublist fuel donors donees :
  fst <$> pairs fuel donors donees ⊆+ donors /\ snd <$> pairs fuel donors donees ⊆+ donees.
Proof.
  revert donors donees. induction fuel as [|fuel IH]; intros donors donees; cbn [pairs].
  { split; apply submseteq_nil_l. }
  destruct donors as [|donor donors], donees as [|donee donees].
  1-3: split; apply submseteq_nil_l.
  destruct (_ <? _).
  { destruct (IH donors (donee :: donees)). split; [by apply submseteq_cons|done]. }
  destruct (_ <? _).
  { destruct (IH (donor :: donors) donees). split; [done|by apply submseteq_cons]. }
  destruct (IH donors donees). split; cbn; by apply submseteq_skip.
Qed.

Lemma pairs_same_size fuel donors donees :
  Forall (fun q => donor_size q.1 = donee_size q.2) (pairs fuel donors donees).
Proof.
  revert donors donees. induction fuel as [|fuel IH]; intros donors donees; cbn [pairs]; [constructor|].
  destruct donors as [|donor donors], donees as [|donee donees]; try constructor.
  destruct (Z.ltb_spec (donee_size donee) (donor_size donor)); [apply IH|].
  destruct (Z.ltb_spec (donor_size donor) (donee_size donee)); [apply IH|].
  constructor; [cbn; lia|apply IH].
Qed.

(** On sorted lists, of every size as many pairs are made as there can be. *)
Lemma pairs_largest fuel donors donees n :
  (length donors + length donees < fuel)%nat ->
  StronglySorted (no_smaller donor_size) donors -> StronglySorted (no_smaller donee_size) donees ->
  count_size donor_size n (fst <$> pairs fuel donors donees) =
  Nat.min (count_size donor_size n donors) (count_size donee_size n donees).
Proof.
  revert donors donees. induction fuel as [|fuel IH]; intros donors donees Hf Hd He; [lia|].
  cbn [pairs]. destruct donors as [|donor donors], donees as [|donee donees];
    [done|done|by rewrite Nat.min_0_r|].
  cbn [length] in Hf. pose proof Hd as [Hd' _]%StronglySorted_inv. pose proof He as [He' _]%StronglySorted_inv.
  destruct (Z.ltb_spec (donee_size donee) (donor_size donor)).
  { rewrite IH by (cbn [length]; try done; lia). rewrite (count_size_cons _ _ donor).
    case_decide as Hn; [|done]. rewrite (count_size_above donee_size n) by (try done; lia). lia. }
  destruct (Z.ltb_spec (donor_size donor) (donee_size donee)).
  { rewrite IH by (cbn [length]; try done; lia). rewrite (count_size_cons _ _ donee).
    case_decide as Hn; [|done]. rewrite (count_size_above donor_size n) by (try done; lia). lia. }
  cbn [fmap list_fmap fst]. rewrite !count_size_cons, IH by (try done; lia).
  repeat case_decide; lia.
Qed.

(** ** The configuration after the pairs *)

Lemma set_up_alias ps a b a' b' o :
  set_up ps (a, b) = OK (a', b') -> NoDup (donee_index <$> (snd <$> ps)) ->
  alias_of a' o =
    match list_find (fun q => donee_index q.2 = o) ps with
    | Some (_, q) => Some (param_number q.1)
    | None => alias_of a o
    end.
Proof.
  revert a b. induction ps as [|[d e] ps IH]; intros a b Hrun Hnd; cbn in Hrun |- *.
  { by injection Hrun as <- <-. }
  apply Result_bind_OK in Hrun as ([a1 b1] & H1 & Hrun).
  apply Result_bind_OK in H1 as (a2 & Ha & H1). apply Result_bind_OK in H1 as (b2 & Hb & [= <- <-]).
  apply NoDup_cons in Hnd as [He Hnd]. cbn [snd] in He. rewrite (IH _ _ Hrun Hnd).
  case_decide as Ho; cbn.
  - destruct (list_find _ ps) as [[k q]|] eqn:Hq.
    + exfalso. apply list_find_Some in Hq as (Hq & Hqo & _). apply He. rewrite Ho, <- Hqo.
      apply list_elem_of_fmap. exists q.2. split; [done|]. apply list_elem_of_fmap. exists q.
      split; [done|]. by eapply list_elem_of_lookup_2.
    + rewrite (alias_of_SetUpAlias _ _ _ _ Ha). by rewrite decide_True.
  - destruct (list_find _ ps) as [[k q]|] eqn:Hq; cbn; [done|].
    rewrite (alias_of_SetUpAlias _ _ _ _ Ha). by rewrite decide_False.
Qed.

(** ** Donors and donees *)
Section candidates.
Context (temp_params temp_roots : gset Z).

(** What [collect_donor] makes of a parameter that is not a tuple. *)
Definition donor_of a b (match_temps : bool) i : option DonorEntry :=
  let n := parameter_number_of i in
  if decide (opcode i = kParameter /\ ParameterHasAlias a n = false /\
             ParameterIsBufferDonor b n = true /\ match_temps = bool_decide (n ∈ temp_params))
  then Some (MkDonor n (spmd_size i)) else None.

Lemma collect_donors_omap a b mt l donors r :
  foldM (collect_donor temp_params a b mt) donors l = OK r -> r = donors ++ omap (donor_of a b mt) l.
Proof.
  revert donors. induction l as [|i l IH]; intros donors; cbn [foldM omap list_omap].
  { intros [= <-]. by rewrite app_nil_r. }
  intros (d1 & H1 & H2)%Result_bind_OK. apply IH in H2. rewrite H2. clear H2.
  assert (d1 = donors ++ option_list (donor_of a b mt i)) as ->.
  { unfold collect_donor in H1. unfold donor_of.
    destruct (decide (opcode i = kParameter)) as [Hp|Hp].
    2:{ rewrite bool_decide_eq_false_2 in H1 by done. injection H1 as <-.
        rewrite decide_False by tauto. by rewrite app_nil_r. }
    rewrite bool_decide_eq_true_2 in H1 by done. destruct (shape_IsTuple i); [done|].
    destruct (ParameterHasAlias a _) eqn:Ha; cbn [negb] in H1.
    { injection H1 as <-. rewrite decide_False by naive_solver. by rewrite app_nil_r. }
    destruct (ParameterIsBufferDonor b _) eqn:Hb; cbn [negb] in H1.
    2:{ injection H1 as <-. rewrite decide_False by naive_solver. by rewrite app_nil_r. }
    destruct (Bool.eqb mt _) eqn:He; injection H1 as <-.
    - apply eqb_prop in He. by rewrite decide_True.
    - apply eqb_false_iff in He. rewrite decide_False by naive_solver. by rewrite app_nil_r. }
  rewrite <- app_assoc. f_equal. by destruct (donor_of a b mt i).
Qed.

Lemma donor_of_Some a b mt i d :
  donor_of a b mt i = Some d ->
  opcode i = kParameter /\ param_number d = parameter_number_of i /\
  ParameterHasAlias a (param_number d) = false /\ ParameterIsBufferDonor b (param_number d) = true /\
  mt = bool_decide (param_number d ∈ temp_params).
Proof. unfold donor_of. case_decide as Hd; [|done]. intros [= <-]. cbn. tauto. Qed.

Lemma donors_distinct a b mt l :
  NoDup (parameter_number_of <$> filter (fun i => opcode i = kParameter) l) ->
  NoDup (param_number <$> omap (donor_of a b mt) l).
Proof.
  induction l as [|i l IH]; cbn [omap list_omap]; [done|]. rewrite filter_cons.
  destruct (donor_of a b mt i) as [d|] eqn:Hd.
  - apply donor_of_Some in Hd as (Hp & Hn & _). rewrite decide_True by done.
    rewrite !fmap_cons. intros [Hi Hnd]%NoDup_cons. apply NoDup_cons. split; [|by apply IH].
    intros (d' & Hd' & Hin)%list_elem_of_fmap. apply list_elem_of_omap in Hin as (j & Hj & Hjd).
    apply donor_of_Some in Hjd as (Hjp & Hjn & _). apply Hi. apply list_elem_of_fmap.
    exists j. split; [congruence|]. by apply list_elem_of_filter.
  - case_decide; [|apply IH]. rewrite fmap_cons. intros [_ Hnd]%NoDup_cons. by apply IH.
Qed.

Lemma donees_spec a mt root e :
  e ∈ collect_donees temp_roots a mt root ->
  OutputHasAlias a (donee_index e) = false /\
  (is_Some (spmd_tuple_sizes root) ->
   exists n, donee_index e = [n] /\ mt = bool_decide (n ∈ temp_roots)).
Proof.
  unfold collect_donees. destruct (spmd_tuple_sizes root) as [sizes|].
  - intros ([n sz] & -> & [[Hm Ha] _]%list_elem_of_filter)%list_elem_of_fmap. cbn. split; [done|]. eauto.
  - destruct (_ && _) eqn:Hc; [|by intros ?%elem_of_nil].
    intros ->%list_elem_of_singleton. apply andb_true_iff in Hc as [_ Hc%negb_true_iff].
    split; [done|]. by intros [? ?].
Qed.

Lemma donees_distinct a mt root : NoDup (donee_index <$> collect_donees temp_roots a mt root).
Proof.
  unfold collect_donees. destruct (spmd_tuple_sizes root) as [sizes|].
  - assert (forall (P : Z * Z -> Prop) `{!forall q, Decision (P q)} (ns zs : list Z), NoDup ns ->
      NoDup (donee_index <$> ((fun '(index, size) => MkDonee [index] size) <$> filter P (zip ns zs))))
      as Hgen; [|apply Hgen, NoDup_seqZ].
    intros P HP ns. induction ns as [|n ns IH]; intros zs Hnd; [constructor|].
    apply NoDup_cons in Hnd as [Hn Hnd]. destruct zs as [|z zs]; [constructor|].
    cbn [zip zip_with]. rewrite filter_cons. case_decide; [|by apply IH].
    rewrite !fmap_cons. apply NoDup_cons. split; [|by apply IH]. cbn.
    intros (e & He & (q & -> & [_ Hq]%list_elem_of_filter)%list_elem_of_fmap)%list_elem_of_fmap.
    destruct q as [k sz]. cbn in He. injection He as <-. by apply elem_of_zip_l in Hq.
  - destruct (_ && _); cbn; [apply NoDup_singleton|constructor].
Qed.

(** ** Build *)

(** What [Build] does: it pairs donors with donees of their size, and of every size
    as many of them as possible; each pair is an alias, the other aliases stay. *)
Definition matching (donors : list DonorEntry) (donees : list DoneeEntry) ps : Prop :=
  fst <$> ps ⊆+ donors /\ snd <$> ps ⊆+ donees /\
  Forall (fun q => donor_size q.1 = donee_size q.2) ps /\
  forall n, count_size donor_size n (fst <$> ps) =
            Nat.min (count_size donor_size n donors) (count_size donee_size n donees).

Lemma Build_pairs entry mt a b c a' b' :
  Build temp_params temp_roots entry false mt a b = OK (c, a', b') ->
  exists ps, matching (omap (donor_of a b mt) (instructions entry))
               (collect_donees temp_roots a mt (root_instruction entry)) ps /\
    set_up ps (a, b) = OK (a', b') /\ c = bool_decide (ps <> []).
Proof.
  unfold Build. intros (donors & Hd & Hrun)%Result_bind_OK. apply collect_donors_omap in Hd as ->.
  set (donors := omap _ _) in *. set (donees := collect_donees _ _ _ _) in *.
  apply match_donors_pairs in Hrun as [Hset Hc]. cbn in Hset, Hc.
  set (fuel := (length _ + length _ + 1)%nat) in *.
  exists (pairs fuel (stable_sort donor_size donors) (stable_sort donee_size donees)).
  split; [|done]. destruct (pairs_sublist fuel (stable_sort donor_size donors) (stable_sort donee_size donees))
    as [H1 H2]. split; [|split; [|split; [apply pairs_same_size|]]].
  - etrans; [exact H1|]. by rewrite stable_sort_perm.
  - etrans; [exact H2|]. by rewrite stable_sort_perm.
  - intros n. rewrite pairs_largest; [|unfold fuel; rewrite !stable_sort_perm; lia|apply stable_sort_sorted..].
    f_equal; apply count_size_perm, stable_sort_perm.
Qed.

(** C25: The matching of [Build] is a largest one, and it is what becomes of the aliases. *)
Theorem Build_matching entry mt a b c a' b' :
  Build temp_params temp_roots entry false mt a b = OK (c, a', b') ->
  exists ps, matching (omap (donor_of a b mt) (instructions entry))
               (collect_donees temp_roots a mt (root_instruction entry)) ps /\
    c = bool_decide (ps <> []) /\
    (forall d e, (d, e) ∈ ps -> alias_of a' (donee_index e) = Some (param_number d)) /\
    (forall o, o ∉ donee_index <$> (snd <$> ps) -> alias_of a' o = alias_of a o).
Proof.
  intros (ps & Hm & Hset & Hc)%Build_pairs. exists ps. split; [done|]. split; [done|].
  destruct Hm as (_ & Hdonees & _).
  assert (NoDup (donee_index <$> (snd <$> ps))) as Hnd.
  { eapply NoDup_included; [apply (donees_distinct a mt (root_instruction entry))|].
    by apply fmap_submseteq. }
  split.
  - intros d e Hde. rewrite (set_up_alias _ _ _ _ _ _ Hset Hnd).
    destruct (list_find _ ps) as [[k q]|] eqn:Hq.
    + apply list_find_Some in Hq as (Hq & Hqo & _). f_equal. f_equal.
      apply list_elem_of_lookup in Hde as [m Hm].
      assert (k = m) as ->.
      { apply (NoDup_lookup _ k m (donee_index e) Hnd); rewrite !list_lookup_fmap.
        - rewrite Hq. cbn. by rewrite Hqo.
        - by rewrite Hm. }
      rewrite Hq in Hm. by injection Hm as ->.
    + apply list_find_None in Hq. rewrite Forall_forall in Hq. by destruct (Hq _ Hde).
  - intros o Ho. rewrite (set_up_alias _ _ _ _ _ _ Hset Hnd).
    destruct (list_find _ ps) as [[k q]|] eqn:Hq; [|done].
    apply list_find_Some in Hq as (Hq & <- & _). destruct Ho.
    apply list_elem_of_fmap. exists q.2. split; [done|]. apply list_elem_of_fmap. exists q.
    split; [done|]. by eapply list_elem_of_lookup_2.
Qed.

(** ** Run *)
Context `{!BufferDonorsLaws B}.

(** Every alias of [a] was one of [a0], or pairs a donor with an output of a tuple,
    both temporaries or none. *)
Definition fair (a0 : A) (b0 : B) a : Prop :=
  forall o p, alias_of a o = Some p -> alias_of a0 o = Some p \/
    exists n, o = [n] /\ (n ∈ temp_roots <-> p ∈ temp_params) /\ ParameterIsBufferDonor b0 p = true.

(** No parameter is paired with two outputs. *)
Definition one_output a : Prop :=
  forall o1 o2 p, alias_of a o1 = Some p -> alias_of a o2 = Some p -> o1 = o2.

Lemma ParameterHasAlias_false a p o : ParameterHasAlias a p = false -> alias_of a o <> Some p.
Proof.
  intros Hp Ho. apply not_true_iff_false in Hp. apply Hp, ParameterHasAlias_iff. by exists o.
Qed.

Lemma one_output_SetUpAlias o p a a' :
  SetUpAlias o p a = OK a' -> ParameterHasAlias a p = false -> one_output a -> one_output a'.
Proof.
  intros Hset Hp Hone o1 o2 q. rewrite !(alias_of_SetUpAlias _ _ _ _ Hset).
  repeat case_decide; subst; try done.
  - intros [= <-] Hq. by apply (ParameterHasAlias_false _ _ o2) in Hp.
  - intros Hq [= <-]. by apply (ParameterHasAlias_false _ _ o1) in Hp.
  - apply Hone.
Qed.

Lemma set_up_donors ps a b a' b' q :
  set_up ps (a, b) = OK (a', b') -> ParameterIsBufferDonor b' q = true ->
  ParameterIsBufferDonor b q = true.
Proof.
  revert a b. induction ps as [|[d e] ps IH]; intros a b Hrun; cbn in Hrun.
  { by injection Hrun as <- <-. }
  apply Result_bind_OK in Hrun as ([a1 b1] & H1 & Hrun).
  apply Result_bind_OK in H1 as (a2 & Ha & H1). apply Result_bind_OK in H1 as (b2 & Hb & [= <- <-]).
  intros Hq%(IH _ _ Hrun). rewrite (donor_Remove _ _ _ Hb) in Hq. by apply andb_true_iff in Hq as [? _].
Qed.

Lemma find_match_cases visits o root b to_visit a a' :
  find_match temp_params visits o root b to_visit a = OK a' ->
  a' = a \/ exists i, is_donor_parameter temp_params a b i = true /\
                    SetUpAlias o (parameter_number_of i) a = OK a'.
Proof.
  revert to_visit. induction visits as [|visits IH]; intros to_visit; cbn [find_match].
  { intros [= <-]. by left. }
  destruct to_visit as [|i to_visit]; [intros [= <-]; by left|].
  destruct (_ && _) eqn:Hc; [|apply IH]. apply andb_true_iff in Hc as [Hc _].
  intros Hset. right. by exists i.
Qed.

Lemma FindBestMatch_cases entry n root a b a' :
  FindBestMatch temp_params temp_roots entry [n] root a b = OK a' ->
  a' = a \/ ((n ∉ temp_roots) /\ exists p, SetUpAlias [n] p a = OK a' /\ (p ∉ temp_params) /\
             ParameterHasAlias a p = false /\ ParameterIsBufferDonor b p = true).
Proof.
  assert (forall i, is_donor_parameter temp_params a b i = true ->
    (parameter_number_of i ∉ temp_params) /\ ParameterHasAlias a (parameter_number_of i) = false /\
    ParameterIsBufferDonor b (parameter_number_of i) = true) as Hdonor.
  { intros i. unfold is_donor_parameter. destruct (_ && _) eqn:Hc; [|done].
    apply andb_true_iff in Hc as [[_ Hc%bool_decide_eq_true_1]%andb_true_iff Ha%negb_true_iff]. done. }
  unfold FindBestMatch. destruct (OutputHasAlias a [n]); [intros [= <-]; by left|].
  cbn [length head default]. rewrite bool_decide_eq_true_2 by done. cbn [andb].
  case_bool_decide as Hn; [intros [= <-]; by left|]. cbn in Hn.
  intros (tupled & _ & Hrun)%Result_bind_OK. destruct tupled; [done|].
  destruct (is_donor_parameter temp_params a b root) eqn:Hroot.
  - right. split; [done|]. exists (parameter_number_of root). split; [done|]. by apply Hdonor.
  - apply find_match_cases in Hrun as [?|(i & Hi & Hset)]; [by left|]. right. split; [done|].
    exists (parameter_number_of i). split; [done|]. by apply Hdonor.
Qed.

Lemma FindBestMatch_fair entry n root a0 b a a' :
  FindBestMatch temp_params temp_roots entry [n] root a b = OK a' ->
  (fair a0 b a -> fair a0 b a') /\ (one_output a -> one_output a').
Proof.
  intros [->|(Hn & p & Hset & Hp & Ha & Hb)]%FindBestMatch_cases; [done|]. split.
  - intros Hfair o q. rewrite (alias_of_SetUpAlias _ _ _ _ Hset). case_decide as Ho; [|by apply Hfair].
    intros [= <-]. subst o. right. exists n. split; [done|]. split; [|done]. tauto.
  - by eapply one_output_SetUpAlias.
Qed.

Context (entry : C).
Hypothesis (root_is_tuple : is_Some (spmd_tuple_sizes (root_instruction entry))).
Hypothesis (parameters_distinct :
  NoDup (parameter_number_of <$> filter (fun i => opcode i = kParameter) (instructions entry))).

Lemma Build_new mt a b c a' b' :
  Build temp_params temp_roots entry false mt a b = OK (c, a', b') ->
  exists ps, NoDup (param_number <$> (fst <$> ps)) /\
    (forall d e, (d, e) ∈ ps ->
       ParameterHasAlias a (param_number d) = false /\
       ParameterIsBufferDonor b (param_number d) = true /\
       mt = bool_decide (param_number d ∈ temp_params) /\
       exists n, donee_index e = [n] /\ mt = bool_decide (n ∈ temp_roots)) /\
    (forall o p, alias_of a' o = Some p ->
       alias_of a o = Some p \/ exists d e, (d, e) ∈ ps /\ donee_index e = o /\ param_number d = p).
Proof.
  intros (ps & (Hd & He & _) & _ & Hnew & Hold)%Build_matching. exists ps. split; [|split].
  - eapply NoDup_included; [apply (donors_distinct a b mt), parameters_distinct|].
    by apply fmap_submseteq.
  - intros d e Hde.
    assert (d ∈ omap (donor_of a b mt) (instructions entry)) as Hdin.
    { eapply elem_of_submseteq; [|exact Hd]. apply list_elem_of_fmap. by exists (d, e). }
    assert (e ∈ collect_donees temp_roots a mt (root_instruction entry)) as Hein.
    { eapply elem_of_submseteq; [|exact He]. apply list_elem_of_fmap. by exists (d, e). }
    apply list_elem_of_omap in Hdin as (i & _ & Hi). apply donor_of_Some in Hi as (_ & _ & ? & ? & ?).
    apply donees_spec in Hein as [_ Hein]. auto.
  - intros o p Ho. destruct (decide (o ∈ donee_index <$> (snd <$> ps))) as [Hin|Hin].
    2:{ left. by rewrite <- Hold. }
    right. apply list_elem_of_fmap in Hin as (e & -> & ([d e'] & -> & Hde)%list_elem_of_fmap).
    cbn in *. rewrite (Hnew _ _ Hde) in Ho. injection Ho as <-. eauto.
Qed.

Lemma Build_fair mt a0 b0 a b c a' b' :
  (forall q, ParameterIsBufferDonor b q = true -> ParameterIsBufferDonor b0 q = true) ->
  Build temp_params temp_roots entry false mt a b = OK (c, a', b') ->
  (fair a0 b0 a -> fair a0 b0 a') /\ (one_output a -> one_output a') /\
  (forall q, ParameterIsBufferDonor b' q = true -> ParameterIsBufferDonor b0 q = true).
Proof.
  intros Hb Hrun. destruct (Build_new _ _ _ _ _ _ Hrun) as (ps & Hnd & Hps & Hnew).
  split; [|split].
  - intros Hfair o p [Hold|(d & e & Hde & <- & <-)]%Hnew; [by apply Hfair|].
    destruct (Hps _ _ Hde) as (_ & Hd & Hp & n & Hn & Hmt). right. exists n. split; [done|].
    split; [|auto]. rewrite Hp in Hmt. rewrite <- (bool_decide_eq_true (n ∈ temp_roots)).
    by rewrite <- Hmt, bool_decide_eq_true.
  - intros Hone o1 o2 p [H1|(d1 & e1 & H1 & <- & Hp1)]%Hnew [H2|(d2 & e2 & H2 & <- & Hp2)]%Hnew.
    + by eapply Hone.
    + destruct (Hps _ _ H2) as (Ha & _). rewrite Hp2 in Ha. by apply (ParameterHasAlias_false _ _ o1) in Ha.
    + destruct (Hps _ _ H1) as (Ha & _). rewrite Hp1 in Ha. by apply (ParameterHasAlias_false _ _ o2) in Ha.
    + apply list_elem_of_lookup in H1 as [k1 H1]. apply list_elem_of_lookup in H2 as [k2 H2].
      assert (k1 = k2) as <-; [|by rewrite H1 in H2; injection H2 as <- <-].
      apply (NoDup_lookup _ k1 k2 p Hnd); rewrite !list_lookup_fmap.
      * rewrite H1. cbn. by f_equal.
      * rewrite H2. cbn. by f_equal.
  - intros q Hq. apply Build_pairs in Hrun as (ps' & _ & Hset & _). apply Hb. by eapply set_up_donors.
Qed.

Lemma roots_fair a0 b l a a' :
  foldM (fun a '(n, o) => FindBestMatch temp_params temp_roots entry [n] o a b) a l = OK a' ->
  (fair a0 b a -> fair a0 b a') /\ (one_output a -> one_output a').
Proof.
  revert a. induction l as [|[n o] l IH]; intros a; cbn [foldM]; [by intros [= <-]|].
  intros (a1 & H1 & H2)%Result_bind_OK. apply (FindBestMatch_fair _ _ _ a0) in H1 as [F1 O1].
  apply IH in H2 as [F2 O2]. tauto.
Qed.

(** For a root of tuple shape, every alias that the pass adds pairs a donated
    parameter with an output, both temporaries or neither; and when no parameter is
    aliased with two outputs before, none is afterwards. *)
Theorem Run_pairs_kinds verify dynamic a b c a' b' :
  shape_IsTuple (root_instruction entry) = true ->
  Run temp_params temp_roots verify entry dynamic a b = OK (c, a', b') ->
  (forall o p, alias_of a' o = Some p -> alias_of a o = Some p \/
     exists n, o = [n] /\ (n ∈ temp_roots <-> p ∈ temp_params) /\ ParameterIsBufferDonor b p = true) /\
  (one_output a -> one_output a').
Proof.
  intros Htuple Hrun. unfold Run in Hrun. rewrite Htuple in Hrun.
  apply Result_bind_OK in Hrun as (a1 & H1 & Hrun).
  apply Result_bind_OK in Hrun as ([[c2 a2] b2] & H2 & Hrun).
  apply Result_bind_OK in Hrun as ([[c3 a3] b3] & H3 & Hrun).
  apply Result_bind_OK in Hrun as (u & _ & [= <- <- <-]).
  apply (roots_fair a) in H1 as [F1 O1].
  assert (fair a b a) as F0 by (intros o p; by left).
  destruct dynamic.
  { cbn in H2, H3. injection H2 as <- <- <-. injection H3 as <- <- <-. split; [exact (F1 F0)|done]. }
  apply (Build_fair _ a b) in H2 as (F2 & O2 & B2); [|done].
  apply (Build_fair _ a b) in H3 as (F3 & O3 & _); [|done].
  split; [|tauto]. apply F3, F2, F1, F0.
Qed.
End candidates.
End facts.

(** ** Evaluations on a concrete module

    The configurations as finite maps and sets. *)
Module AliasSample.
#[global] Instance config : AliasConfig (gmap (list Z) Z) := {
  alias_of a o := a !! o;
  ParameterHasAlias a p := bool_decide (p ∈ (map_to_list a).*2);
  SetUpAlias o p a := OK (<[o := p]> a);
}.
#[global] Instance config_laws : AliasConfigLaws (gmap (list Z) Z).
Proof.
  split.
  - intros o p a a' [= <-] o'. cbn. case_decide; subst;
      by rewrite ?lookup_insert_eq, ?lookup_insert_ne.
  - intros a p. cbn. rewrite bool_decide_eq_true, list_elem_of_fmap. split.
    + intros ([o q] & -> & Hin). exists o. by apply elem_of_map_to_list.
    + intros [o Ho]. exists (o, p). split; [done|]. by apply elem_of_map_to_list.
Qed.
#[global] Instance donors : BufferDonors (gset Z) := {
  ParameterIsBufferDonor b p := bool_decide (p ∈ b);
  RemoveBufferDonor p b := OK (b ∖ {[p]});
}.
#[global] Instance donors_laws : BufferDonorsLaws (gset Z).
Proof.
  split. intros p b b' [= <-] q. cbn.
  destruct (bool_decide_reflect (q ∈ b)), (Z.eqb_spec q p); cbn;
    (apply bool_decide_eq_true_2 || apply bool_decide_eq_false_2); set_solver.
Qed.

Definition param (n size : Z) : Graph.node := Graph.Node kParameter [] n [] "" "" false size false.

(** Three parameters, a sum of the first two, a copy of the third and the root tuple. *)
Definition nodes : list Graph.node :=
  [param 0 8; param 1 8; param 2 4; Graph.Node kAdd [0; 1]%nat 0 [] "" "" false 8 true;
   Graph.Node kCopy [2]%nat 0 [] "" "" false 4 true;
   Graph.Node kTuple [3; 4]%nat 0 [] "" "" true 12 false].
Definition comps : list Graph.comp :=
  [Graph.Comp 5 [0; 1; 2]%nat [0; 1; 2; 3; 4; 5]%nat; Graph.Comp 3 [0; 1; 2]%nat [0; 1; 2; 3]%nat].
#[global] Instance hlo : Hlo nat nat := Graph.hlo nodes comps.
#[global] Instance modul : AliasModule nat nat := {
  instructions c := MakeInstructionPostOrder c;
  spmd_size i := Graph.n_elements (Graph.at_ nodes i);
  spmd_tuple_sizes i :=
    if shape_IsTuple i then Some ((fun o => Graph.n_elements (Graph.at_ nodes o)) <$> operands i)
    else None;
  same_shape i j := Graph.n_elements (Graph.at_ nodes i) =? Graph.n_elements (Graph.at_ nodes j);
}.

(** Parameter 2 and output 1 are temporaries, every parameter may be donated. *)
Definition all : gset Z := {[0; 1; 2]}.
Definition run (temp_params temp_roots : gset Z) (c : nat)
    : Result (bool * gmap (list Z) Z * gset Z) :=
  Run temp_params temp_roots (fun _ => OK ()) c false ∅ all.
Definition result (temp_params temp_roots : gset Z) (c : nat) : bool * gmap (list Z) Z * gset Z :=
  match run temp_params temp_roots c with OK r => r | _ => (false, ∅, ∅) end.
Definition built : bool * gmap (list Z) Z * gset Z :=
  match Build {[2]} {[1]} 0%nat false true (∅ : gmap (list Z) Z) all with
  | OK r => r | _ => (false, ∅, ∅) end.
End AliasSample.

Lemma Run_pairs_kinds_witness :
  let a := (AliasSample.result {[2]} {[1]} 0%nat).1.2 in
  a !! [0] = Some 0 /\ a !! [1] = Some 2 /\ (1 ∈ ({[1]} : gset Z) <-> 2 ∈ ({[2]} : gset Z)).
Proof.
  cbv zeta. split; [vm_compute; reflexivity|]. split; [vm_compute; reflexivity|].
  destruct (Run_pairs_kinds (A := gmap (list Z) Z) (B := gset Z) {[2]} {[1]} 0%nat
    ltac:(by eexists) ltac:(apply (bool_decide_eq_true_1 _); vm_compute; reflexivity)
    (fun _ => OK ()) false ∅ AliasSample.all
    (AliasSample.result {[2]} {[1]} 0%nat).1.1 (AliasSample.result {[2]} {[1]} 0%nat).1.2
    (AliasSample.result {[2]} {[1]} 0%nat).2) as [H _].
  - reflexivity.
  - vm_compute. reflexivity.
  - destruct (H [1] 2) as [Hno|(n & [= <-] & Hn & _)]; [vm_compute; reflexivity|discriminate Hno|done].
Defined.

Lemma Build_matching_witness :
  AliasSample.built.1.1 = true /\ alias_of AliasSample.built.1.2 [1] = Some 2.
Proof.
  destruct (Build_matching (A := gmap (list Z) Z) (B := gset Z) {[2]} {[1]} 0%nat true ∅ AliasSample.all
    AliasSample.built.1.1 AliasSample.built.1.2 AliasSample.built.2) as (ps & _ & Hc & _).
  - vm_compute. reflexivity.
  - split; [vm_compute; reflexivity|]. vm_compute. reflexivity.
Defined.

(** A temporary root that is not a tuple is not recognized in the search for the best
    match: its index is empty, and it is paired with a parameter that is no temporary. *)
Theorem Run_pairs_temporary_root :
  (AliasSample.result ∅ {[0]} 1%nat).1.2 !! [] = Some 0 /\ (0 ∉ (∅ : gset Z)) /\ 0 ∈ ({[0]} : gset Z).
Proof. split; [vm_compute; reflexivity|set_solver]. Qed.
