(* ===== verification/DeviceRuntime.v ===== *)
(** * Device assignments and cached streams (mm_device_assignment.h/.cc, mm_utils.cc)

    [MultiMeshToXlaDeviceAssignment] fills XLA's table of replicas and partitions from a
    device list; [GetCachedStream] keeps one stream per local device.  [CreateStream]
    of the stream executor is a parameter, which may fail. *)
From S2P Require Import Prelude Hlo.
Local Open Scope Z_scope.

(** ** Device assignments *)

Record MultiMeshDeviceAssignment (D : Type) := MkAssignment {
  local_device_id_ : Z;
  global_device_id_ : Z;
  replica_count_ : Z;
  num_partitions_ : Z;
  devices_ : D;
}.
Arguments MkAssignment {_} _ _ _ _ _.
Arguments local_device_id_ {_} _. Arguments global_device_id_ {_} _.
Arguments replica_count_ {_} _. Arguments num_partitions_ {_} _. Arguments devices_ {_} _.

Section assignment.
Context {D : Type} `{DeviceListApi D}.
Implicit Types (da : MultiMeshDeviceAssignment D).

Definition GlobalDeviceId da (replica partition : Z) : Z :=
  dl_at (devices_ da) (partition * replica_count_ da + replica).

(** The XLA assignment is a table of replicas and computations. *)
Definition MultiMeshToXlaDeviceAssignment da : gmap (Z * Z) Z :=
  foldl (fun t r =>
      foldl (fun t c => <[(r, c) := GlobalDeviceId da r c]> t) t (seqZ 0 (num_partitions_ da)))
    ∅ (seqZ 0 (replica_count_ da)).

Lemma insert_all_lookup {K} `{Countable K} (f : K -> Z) (l : list K) (t : gmap K Z) k :
  foldl (fun t k => <[k := f k]> t) t l !! k = if decide (k ∈ l) then Some (f k) else t !! k.
Proof.
  revert t. induction l as [|x l IH]; intros t; cbn [foldl]; [done|]. rewrite IH.
  destruct (decide (k ∈ l)) as [Hl|Hl].
  - by rewrite decide_True by (by right).
  - destruct (decide (x = k)) as [->|Hx].
    + by rewrite lookup_insert_eq, decide_True by left.
    + rewrite lookup_insert_ne by done. rewrite decide_False; [done|]. set_solver.
Qed.

Lemma assignment_lookup da r c :
  MultiMeshToXlaDeviceAssignment da !! (r, c) =
  if decide (0 <= r < replica_count_ da /\ 0 <= c < num_partitions_ da)
  then Some (GlobalDeviceId da r c) else None.
Proof.
  set (f := fun q : Z * Z => GlobalDeviceId da q.1 q.2).
  assert (forall rs (t : gmap (Z * Z) Z), foldl (fun t r =>
      foldl (fun t c => <[(r, c) := GlobalDeviceId da r c]> t) t (seqZ 0 (num_partitions_ da))) t rs =
    foldl (fun t q => <[q := f q]> t) t (rs ≫= fun r => pair r <$> seqZ 0 (num_partitions_ da)))
    as Hflat.
  { induction rs as [|x rs IH]; intros t; [done|]. cbn [foldl]. rewrite IH, bind_cons, foldl_app.
    f_equal. generalize (seqZ 0 (num_partitions_ da)). intros cs. revert t.
    induction cs as [|y cs IHc]; intros t; [done|]. cbn. apply IHc. }
  unfold MultiMeshToXlaDeviceAssignment. rewrite Hflat, insert_all_lookup.
  assert ((r, c) ∈ (seqZ 0 (replica_count_ da) ≫= fun r => pair r <$> seqZ 0 (num_partitions_ da)) <->
          0 <= r < replica_count_ da /\ 0 <= c < num_partitions_ da) as Hin.
  { rewrite elem_of_bind_list. split.
    - intros (r' & Hr & Hr'). apply list_elem_of_fmap in Hr as (c' & [= -> ->] & Hc').
      apply elem_of_seqZ in Hr', Hc'. lia.
    - intros [Hr Hc]. exists r. rewrite list_elem_of_fmap. split; [exists c; split; [done|]|];
        apply elem_of_seqZ; lia. }
  repeat case_decide; try done; tauto.
Qed.

(** The converted assignment is defined exactly on the replicas and partitions; when
    the mesh has as many devices, it gives each of them to one replica and partition. *)
Theorem MultiMeshToXlaDeviceAssignment_bijection `{!DeviceListLaws D} da k :
  0 <= replica_count_ da -> dl_size (devices_ da) = replica_count_ da * num_partitions_ da ->
  0 <= k < dl_size (devices_ da) ->
  exists r c, MultiMeshToXlaDeviceAssignment da !! (r, c) = Some (dl_start (devices_ da) + k) /\
    forall r' c', MultiMeshToXlaDeviceAssignment da !! (r', c') = Some (dl_start (devices_ da) + k) ->
      r' = r /\ c' = c.
Proof.
  set (R := replica_count_ da). set (P := num_partitions_ da). intros HR0 Hsize Hk.
  assert (0 < R) as HR.
  { destruct (decide (R = 0)) as [HR|]; [rewrite HR in Hsize|]; lia. }
  exists (k mod R), (k / R).
  pose proof (Z.div_mod k R ltac:(lia)) as Hdm. pose proof (Z.mod_pos_bound k R HR).
  assert (0 <= k / R < P) by (split; [apply Z.div_pos; lia|apply Z.div_lt_upper_bound; lia]).
  assert (forall r c, 0 <= r < R -> 0 <= c < P ->
    GlobalDeviceId da r c = dl_start (devices_ da) + (c * R + r)) as Hat.
  { intros r c Hr Hc. unfold GlobalDeviceId. apply dl_at_def. rewrite Hsize. fold R. nia. }
  split.
  - rewrite assignment_lookup, decide_True by done. rewrite Hat by done. f_equal. lia.
  - intros r' c'. rewrite assignment_lookup. case_decide as Hr'; [|done]. fold R P in Hr'.
    rewrite Hat by tauto. intros [= Heq]. assert (c' * R + r' = k) as <- by lia.
    rewrite Z.add_comm, Z_mod_plus_full, Z.div_add, (Z.mod_small r'), (Z.div_small r') by lia. lia.
Qed.
End assignment.

Lemma MultiMeshToXlaDeviceAssignment_bijection_witness :
  let da := MkAssignment 0 0 2 3 (Slice.mk 4 6) in
  exists r c, MultiMeshToXlaDeviceAssignment da !! (r, c) = Some (4 + 5) /\
    forall r' c', MultiMeshToXlaDeviceAssignment da !! (r', c') = Some (4 + 5) -> r' = r /\ c' = c.
Proof.
  refine (MultiMeshToXlaDeviceAssignment_bijection (MkAssignment 0 0 2 3 (Slice.mk 4 6)) 5 _ _ _).
  - cbn. lia.
  - reflexivity.
  - cbn. lia.
Defined.

(** ** Cached streams *)
Section streams.
Context {Executor Stream : Type}.
Context (CreateStream : Executor -> Result Stream).

Record StreamCacheEntry := MkEntry {
  initialized : bool;
  executor_ : option Executor;
  stream_ : option Stream;
}.

Definition clear : StreamCacheEntry := MkEntry false None None.
Definition MAX_LOCAL_GPUS : nat := 32.

(** [initialize] sets its flag before it creates the stream. *)
Definition initialize (executor : Executor) (e : StreamCacheEntry)
    : Result unit * StreamCacheEntry :=
  if initialized e then (OK (), e)
  else match CreateStream executor with
       | OK stream => (OK (), MkEntry true (Some executor) (Some stream))
       | Err c m => (Err c m, MkEntry true (executor_ e) (stream_ e))
       | Fatal k => (Fatal k, MkEntry true (executor_ e) (stream_ e))
       end.

Definition ClearCachedStreams (cache : list StreamCacheEntry) : list StreamCacheEntry :=
  (fun _ => clear) <$> cache.

Definition GetCachedStream (se : Executor) (device_id : Z) (cache : list StreamCacheEntry)
    : Result (option Stream) * list StreamCacheEntry :=
  if bool_decide (Z.of_nat MAX_LOCAL_GPUS <= device_id) then
    (Err kInvalidArgument "stream cache is limited", cache)
  else match vec_at cache device_id with
       | OK e =>
           if initialized e then (OK (stream_ e), cache)
           else let '(status, e) := initialize se e in
                let cache := <[Z.to_nat device_id := e]> cache in
                match status with
                | OK _ => (OK (stream_ e), cache)
                | Err c m => (Err c m, cache)
                | Fatal k => (Fatal k, cache)
                end
       | Err c m => (Err c m, cache)
       | Fatal k => (Fatal k, cache)
       end.

(** A stream that was handed out is handed out again, without creating another. *)
Theorem GetCachedStream_stable se se' device_id cache r cache' :
  GetCachedStream se device_id cache = (OK r, cache') ->
  GetCachedStream se' device_id cache' = (OK r, cache').
Proof.
  unfold GetCachedStream. destruct (bool_decide _); [done|].
  destruct (vec_at cache device_id) as [e| |] eqn:He; [|done..].
  destruct (initialized e) eqn:Hi; [intros [= <- <-]; by rewrite He, Hi|].
  unfold initialize. rewrite Hi. destruct (CreateStream se) as [stream| |]; [|done..].
  intros [= <- <-]. apply vec_at_lookup in He as [Hpos He].
  assert (vec_at (<[Z.to_nat device_id := MkEntry true (Some se) (Some stream)]> cache) device_id =
          OK (MkEntry true (Some se) (Some stream))) as ->; [|done].
  apply vec_at_lookup. split; [done|]. apply list_lookup_insert_eq. by eapply lookup_lt_Some.
Qed.

(** A creation that fails leaves the entry initialized without a stream: the next
    call succeeds with the null pointer. *)
Theorem GetCachedStream_null_after_error se se' device_id cache c m cache' :
  0 <= device_id < Z.of_nat MAX_LOCAL_GPUS -> cache !! Z.to_nat device_id = Some clear ->
  GetCachedStream se device_id cache = (Err c m, cache') ->
  fst (GetCachedStream se' device_id cache') = OK None.
Proof.
  intros Hd Hcache. unfold GetCachedStream. rewrite bool_decide_eq_false_2 by lia.
  assert (vec_at cache device_id = OK clear) as -> by (apply vec_at_lookup; split; [lia|done]).
  cbn [clear initialized initialize]. destruct (CreateStream se) as [stream|c' m'|]; [done| |done].
  intros [= <- <- <-].
  assert (vec_at (<[Z.to_nat device_id := MkEntry true None None]> cache) device_id =
          OK (MkEntry true None None)) as ->; [|done].
  apply vec_at_lookup. split; [lia|]. apply list_lookup_insert_eq. by eapply lookup_lt_Some.
Qed.
End streams.

Lemma GetCachedStream_null_after_error_witness :
  let create (_ : unit) : Result nat := Err kInternal "no stream" in
  fst (GetCachedStream create () 3 (snd (GetCachedStream create () 3 (replicate 32 clear)))) = OK None.
Proof.
  refine (GetCachedStream_null_after_error _ () () 3 (replicate 32 clear) kInternal "no stream" _ _ _ _).
  - unfold MAX_LOCAL_GPUS. lia.
  - reflexivity.
  - reflexivity.
Defined.
