(* ===== verification/ExecutableCache.v ===== *)
(** * The executable cache under concurrency (executable_cache.h/.cc)

    Threads call [compile_executable] and [find_executable].  Every statement that
    touches shared state or a lock is a step of its own; a thread's position in its
    call is its program counter.  [invoke] is what the thread's callback returns
    ([None] is a null pointer). *)
From S2P Require Import Prelude.
Local Open Scope Z_scope.

Section cache.
Context {T E : Type} `{EqDecision T}.
Implicit Types (t : T) (id : Z) (e : E).

(** Where a thread is. *)
Inductive pc :=
  | Idle
  | CompileLock id (invoke : option E)          (* before cache_lock.lock() *)
  | CompileEntry id (invoke : option E)         (* before executables_[hlo_id] *)
  | CompileUnlock id (invoke : option E)        (* before cache_lock.unlock() *)
  | CompileGuard id (invoke : option E)         (* before the guard of entry.lock *)
  | CompileTest id (invoke : option E)          (* before if (entry.executable) *)
  | CompileInvoke id (invoke : option E)        (* before entry.executable = invoke() *)
  | CompileReturn id (result : bool)            (* before the guard is released *)
  | Compiled id (result : bool)
  | FindGuard id                                (* before the guard of cache_lock *)
  | FindLookup id                               (* before executables_.find and get() *)
  | FindReturn id (result : option E)           (* before the guard is released *)
  | Found id (result : option E).

(** The shared state: the table of entries, the holders of the locks, the threads and
    the executables that have been stored, the latest first. *)
Record state := MkState {
  executables_ : gmap Z (option E);
  cache_lock : option T;
  entry_lock : Z -> option T;
  thread : T -> pc;
  stored : list (Z * E);
}.

Definition at_pc t p s : state :=
  MkState (executables_ s) (cache_lock s) (entry_lock s)
    (fun u => if decide (u = t) then p else thread s u) (stored s).
Definition with_cache_lock (l : option T) s : state :=
  MkState (executables_ s) l (entry_lock s) (thread s) (stored s).
Definition with_entry_lock id (l : option T) s : state :=
  MkState (executables_ s) (cache_lock s) (fun i => if decide (i = id) then l else entry_lock s i)
    (thread s) (stored s).
Definition with_executables (m : gmap Z (option E)) s : state :=
  MkState m (cache_lock s) (entry_lock s) (thread s) (stored s).
Definition store id (invoke : option E) s : state :=
  MkState (<[id := invoke]> (executables_ s)) (cache_lock s) (entry_lock s) (thread s)
    (match invoke with Some e => (id, e) :: stored s | None => stored s end).

Definition initial : state := MkState ∅ None (fun _ => None) (fun _ => Idle) [].

(** The pointer of an entry; [executables_.find] on a missing entry gives null, too. *)
Definition executable s id : option E := default None (executables_ s !! id).

Inductive step : state -> state -> Prop :=
  (* compile_executable *)
  | step_call t id invoke s : thread s t = Idle -> step s (at_pc t (CompileLock id invoke) s)
  | step_lock t id invoke s :
      thread s t = CompileLock id invoke -> cache_lock s = None ->
      step s (at_pc t (CompileEntry id invoke) (with_cache_lock (Some t) s))
  | step_entry t id invoke s :
      thread s t = CompileEntry id invoke ->
      step s (at_pc t (CompileUnlock id invoke)
                (with_executables (<[id := executable s id]> (executables_ s)) s))
  | step_unlock t id invoke s :
      thread s t = CompileUnlock id invoke ->
      step s (at_pc t (CompileGuard id invoke) (with_cache_lock None s))
  | step_guard t id invoke s :
      thread s t = CompileGuard id invoke -> entry_lock s id = None ->
      step s (at_pc t (CompileTest id invoke) (with_entry_lock id (Some t) s))
  | step_test t id invoke s :
      thread s t = CompileTest id invoke ->
      step s (at_pc t (match executable s id with
                       | Some _ => CompileReturn id false
                       | None => CompileInvoke id invoke end) s)
  | step_invoke t id invoke s :
      thread s t = CompileInvoke id invoke ->
      step s (at_pc t (CompileReturn id true) (store id invoke s))
  | step_release t id result s :
      thread s t = CompileReturn id result ->
      step s (at_pc t (Compiled id result) (with_entry_lock id None s))
  (* find_executable *)
  | step_find t id s : thread s t = Idle -> step s (at_pc t (FindGuard id) s)
  | step_find_guard t id s :
      thread s t = FindGuard id -> cache_lock s = None ->
      step s (at_pc t (FindLookup id) (with_cache_lock (Some t) s))
  | step_find_lookup t id s :
      thread s t = FindLookup id -> step s (at_pc t (FindReturn id (executable s id)) s)
  | step_find_release t id r s :
      thread s t = FindReturn id r -> step s (at_pc t (Found id r) (with_cache_lock None s))
  (* a finished call, and the next one *)
  | step_compiled t id r s : thread s t = Compiled id r -> step s (at_pc t Idle s)
  | step_found t id r s : thread s t = Found id r -> step s (at_pc t Idle s).

Definition reachable : state -> Prop := rtc step initial.

(** ** The invariant *)

(** The entry whose lock a thread at [p] holds. *)
Definition holds (p : pc) : option Z :=
  match p with
  | CompileTest id _ | CompileInvoke id _ | CompileReturn id _ => Some id
  | _ => None
  end.

(** What a thread that has its answer may rely on. *)
Definition pc_ok s (p : pc) : Prop :=
  match p with
  | FindReturn id (Some e) | Found id (Some e) => executable s id = Some e
  | CompileReturn id false | Compiled id false => is_Some (executable s id)
  | _ => True
  end.

Record cache_ok s : Prop := {
  ok_lock : forall t id, holds (thread s t) = Some id -> entry_lock s id = Some t;
  ok_invoke : forall t id invoke, thread s t = CompileInvoke id invoke -> executable s id = None;
  ok_stored : forall id e, (id, e) ∈ stored s <-> executable s id = Some e;
  ok_once : NoDup (stored s).*1;
  ok_answer : forall t, pc_ok s (thread s t);
}.

Lemma thread_at_pc t p s u : thread (at_pc t p s) u = if decide (u = t) then p else thread s u.
Proof. done. Qed.

Lemma pc_ok_mono s s' p :
  (forall id e, executable s id = Some e -> executable s' id = Some e) -> pc_ok s p -> pc_ok s' p.
Proof.
  intros Hm. destruct p as [| | | | | | |id []|id []| | |id []|id []]; cbn; try done; try apply Hm;
    intros [e He]; exists e; by apply Hm.
Qed.

(** A step that moves one thread and leaves table and entry locks alone. *)
Lemma cache_ok_move t p s s' :
  cache_ok s -> executables_ s' = executables_ s -> entry_lock s' = entry_lock s ->
  stored s' = stored s -> (forall u, thread s' u = if decide (u = t) then p else thread s u) ->
  holds p = holds (thread s t) \/ holds p = None ->
  (forall id invoke, p = CompileInvoke id invoke -> executable s id = None) ->
  pc_ok s p -> cache_ok s'.
Proof.
  intros [H1 H2 H3 H4 H5] He Hl Hs Ht Hh Hi Hp.
  assert (forall id, executable s' id = executable s id) as Hex by (intros id; unfold executable; by rewrite He).
  split.
  - intros u id. rewrite Ht, Hl. case_decide as Hut; [|apply H1]. subst u.
    destruct Hh as [-> | ->]; [apply H1|done].
  - intros u id invoke. rewrite Ht, Hex. case_decide; [|apply H2]. apply Hi.
  - intros id e. rewrite Hs, Hex. apply H3.
  - by rewrite Hs.
  - intros u. rewrite Ht. apply (pc_ok_mono s); [intros id e; by rewrite Hex|]. by case_decide.
Qed.

Lemma executable_insert_same s id id' :
  executable (with_executables (<[id := executable s id]> (executables_ s)) s) id' = executable s id'.
Proof.
  unfold executable; cbn. destruct (decide (id = id')) as [<-|Hne].
  - by rewrite lookup_insert_eq.
  - by rewrite lookup_insert_ne.
Qed.

Lemma executable_store s id invoke id' :
  executable (store id invoke s) id' = if decide (id = id') then invoke else executable s id'.
Proof.
  unfold executable; cbn. case_decide as Hid.
  - subst. by rewrite lookup_insert_eq.
  - by rewrite lookup_insert_ne.
Qed.

Lemma cache_ok_entry t id invoke s :
  cache_ok s -> thread s t = CompileEntry id invoke ->
  cache_ok (at_pc t (CompileUnlock id invoke)
              (with_executables (<[id := executable s id]> (executables_ s)) s)).
Proof.
  intros [H1 H2 H3 H4 H5] Ht. split.
  - intros u id'. rewrite thread_at_pc. case_decide; [done|]. apply H1.
  - intros u id' invoke'. rewrite thread_at_pc. case_decide; [done|]. intros Hu.
    etrans; [apply executable_insert_same|]. by eapply H2.
  - intros id' e. etrans; [apply H3|].
    by rewrite <- (executable_insert_same s id id').
  - done.
  - intros u. rewrite thread_at_pc. case_decide; [done|]. apply (pc_ok_mono s); [|apply H5].
    intros id' e. by rewrite <- (executable_insert_same s id id').
Qed.

Lemma cache_ok_guard t id invoke s :
  cache_ok s -> entry_lock s id = None ->
  cache_ok (at_pc t (CompileTest id invoke) (with_entry_lock id (Some t) s)).
Proof.
  intros [H1 H2 H3 H4 H5] Hfree. split; [|by intros u id' invoke'; rewrite thread_at_pc;
    case_decide; [|apply H2]|done|done|intros u; rewrite thread_at_pc; case_decide; [done|apply H5]].
  intros u id'. rewrite thread_at_pc. cbn. case_decide as Hut.
  - subst u. cbn. intros [= <-]. by rewrite decide_True.
  - intros Hh%H1. rewrite decide_False; [done|]. intros ->. cbn in Hh. congruence.
Qed.

Lemma cache_ok_invoke t id invoke s :
  cache_ok s -> thread s t = CompileInvoke id invoke ->
  cache_ok (at_pc t (CompileReturn id true) (store id invoke s)).
Proof.
  intros [H1 H2 H3 H4 H5] Ht. pose proof (H2 _ _ _ Ht) as Hnone.
  assert (entry_lock s id = Some t) as Hlock by (apply H1; by rewrite Ht).
  assert (forall e, (id, e) ∉ stored s) as Hnew by (intros e He%H3; congruence). split.
  - intros u id'. rewrite thread_at_pc. case_decide; [subst; by intros [= <-]|]. apply H1.
  - intros u id' invoke'. rewrite thread_at_pc. case_decide as Hut; [done|]. intros Hu.
    etrans; [apply executable_store|]. case_decide as Hid; [|by eapply H2]. subst id'.
    assert (entry_lock s id = Some u) by (apply H1; cbn in Hu; by rewrite Hu). congruence.
  - intros id' e.
    assert (executable (at_pc t (CompileReturn id true) (store id invoke s)) id' =
            if decide (id = id') then invoke else executable s id') as -> by apply executable_store.
    cbn. destruct invoke as [e0|]; [rewrite elem_of_cons|]; rewrite H3; case_decide as Hid.
    + subst id'. rewrite Hnone. naive_solver.
    + naive_solver.
    + subst id'. by rewrite Hnone.
    + done.
  - cbn. destruct invoke as [e0|]; [|done]. apply NoDup_cons. split; [|done].
    intros ([id' e] & Heq & He)%list_elem_of_fmap. cbn in Heq. subst id'. by apply (Hnew e).
  - intros u. rewrite thread_at_pc. case_decide; [done|]. apply (pc_ok_mono s); [|apply H5].
    intros id' e He. etrans; [apply executable_store|]. case_decide; [|done]. congruence.
Qed.

Lemma cache_ok_release t id r s :
  cache_ok s -> thread s t = CompileReturn id r ->
  cache_ok (at_pc t (Compiled id r) (with_entry_lock id None s)).
Proof.
  intros [H1 H2 H3 H4 H5] Ht. split; [|by intros u id' invoke'; rewrite thread_at_pc;
    case_decide; [|apply H2]|done|done|].
  2: { intros u. rewrite thread_at_pc. case_decide; [|apply H5]. specialize (H5 t). by rewrite Ht in H5. }
  intros u id'. rewrite thread_at_pc. cbn. case_decide as Hut; [done|]. intros Hh%H1.
  rewrite decide_False; [done|]. intros ->.
  assert (entry_lock s id = Some t) by (apply H1; by rewrite Ht). cbn in Hh. congruence.
Qed.

Lemma cache_ok_step s s' : step s s' -> cache_ok s -> cache_ok s'.
Proof.
  intros Hstep Hok. destruct Hstep.
  all: try (eapply (cache_ok_move t); [exact Hok|done..| | |]; cbn;
            [by right|by intros ? ? [=]|done]; fail).
  - by apply cache_ok_entry.
  - by apply cache_ok_guard.
  - eapply (cache_ok_move t); [exact Hok|done..| | |].
    + rewrite H. cbn. left. by destruct (executable s id).
    + intros id' invoke'. destruct (executable s id) eqn:He; [done|]. by intros [= <- <-].
    + destruct (executable s id) eqn:He; [|done]. cbn. by rewrite He.
  - by eapply cache_ok_invoke.
  - by apply cache_ok_release.
  - eapply (cache_ok_move t); [exact Hok|done..|by right|by intros ? ? [=]|].
    cbn. by destruct (executable s id) eqn:He.
  - eapply (cache_ok_move t); [exact Hok|done..|by right|by intros ? ? [=]|].
    pose proof (ok_answer _ Hok t) as Ha. by rewrite H in Ha.
Qed.

Lemma cache_ok_reachable s : reachable s -> cache_ok s.
Proof.
  intros Hr. unfold reachable in Hr.
  assert (cache_ok initial) as H0.
  { split; [done|done| |constructor|done]. intros id e. unfold executable; cbn. rewrite lookup_empty. cbn.
    split; [by intros ?%elem_of_nil|done]. }
  revert H0. induction Hr as [s|s1 s2 s3 Hs _ IH]; [done|]. intros H0. by apply IH, (cache_ok_step s1).
Qed.

(** ** What the cache guarantees *)

(** C36: In every interleaving at most one executable is stored for a module and no later
    step replaces it, so a pointer that [find_executable] returned stays valid; a call
    of [compile_executable] that answers false has left an executable in the table; the
    threads in the body of [compile_executable] for a module exclude each other. *)
Theorem executable_stored_once s s' :
  reachable s -> rtc step s s' ->
  (forall id e1 e2, (id, e1) ∈ stored s' -> (id, e2) ∈ stored s' -> e1 = e2) /\
  NoDup (stored s').*1 /\
  (forall id e, executable s id = Some e -> executable s' id = Some e) /\
  (forall t id e, thread s t = Found id (Some e) -> executable s' id = Some e) /\
  (forall t id, thread s t = Compiled id false -> is_Some (executable s' id)) /\
  (forall t u id, holds (thread s' t) = Some id -> holds (thread s' u) = Some id -> t = u).
Proof.
  intros Hr Hs.
  assert (reachable s') as [H1 H2 H3 H4 H5]%cache_ok_reachable
    by (unfold reachable in *; by trans s).
  apply cache_ok_reachable in Hr.
  assert (forall id e, executable s id = Some e -> executable s' id = Some e) as Hm.
  { intros id e He%(ok_stored _ Hr). apply H3. clear -He Hs.
    induction Hs as [s|s1 s2 s3 Hstep _ IH]; [done|]. apply IH.
    destruct Hstep; try done. cbn. destruct invoke; [by right|done]. }
  split_and!; [|done|done|..].
  - intros id e1 e2 He1%H3 He2%H3. congruence.
  - intros t id e Ht. apply Hm. pose proof (ok_answer _ Hr t) as Ha. by rewrite Ht in Ha.
  - intros t id Ht. pose proof (ok_answer _ Hr t) as Ha. rewrite Ht in Ha. destruct Ha as [e He].
    exists e. by apply Hm.
  - intros t u id Ht%H1 Hu%H1. congruence.
Qed.

(** [find_executable] reads the pointer under the lock of the table, the store is under
    the lock of the entry: a thread can be about to read an entry while another one is
    about to write it, with nothing to keep them apart. *)
Definition races s : Prop :=
  exists t u id invoke, t <> u /\ thread s t = FindLookup id /\ thread s u = CompileInvoke id invoke.

(** The steps of one thread from its call up to the body of [compile_executable]. *)
Lemma compile_reaches_test t id (invoke : option E) s :
  (forall u, thread s u = Idle) -> cache_lock s = None -> entry_lock s id = None ->
  exists s', rtc step s s' /\ thread s' t = CompileTest id invoke /\
    (forall u, u <> t -> thread s' u = Idle) /\ cache_lock s' = None /\
    entry_lock s' id = Some t /\ executable s' id = executable s id.
Proof.
  intros Hidle Hcl Hel.
  assert (forall p s, thread (at_pc t p s) t = p) as Ht by (intros; cbn; by rewrite decide_True).
  eexists. split.
  { eapply rtc_l; [apply (step_call t id invoke), Hidle|].
    eapply rtc_l; [apply step_lock; [apply Ht|done]|].
    eapply rtc_l; [apply step_entry, Ht|]. eapply rtc_l; [apply step_unlock, Ht|].
    apply rtc_once. by apply step_guard; [apply Ht|]. }
  split_and!; [apply Ht| |done|cbn; by rewrite decide_True|].
  - intros u Hu. cbn. by rewrite !decide_False.
  - unfold executable at 1. cbn. by rewrite lookup_insert_eq.
Qed.

(** A single thread compiles a module that nobody has compiled. *)
Lemma compile_reaches_compiled t id (invoke : option E) :
  exists s, reachable s /\ thread s t = Compiled id true /\ executable s id = invoke.
Proof.
  destruct (compile_reaches_test t id invoke initial) as (s & Hr & Ht & _ & _ & Hl & He); [done..|].
  assert (forall p s, thread (at_pc t p s) t = p) as Hat by (intros; cbn; by rewrite decide_True).
  eexists. split.
  { unfold reachable. trans s; [exact Hr|].
    eapply rtc_l; [by apply (step_test t id invoke)|]. rewrite He.
    eapply rtc_l; [by apply step_invoke, Hat|]. apply rtc_once. apply step_release, Hat. }
  split; [apply Hat|]. unfold executable. cbn. by rewrite lookup_insert_eq.
Qed.

(** Two threads can reach the race. *)
Theorem find_races t u id (invoke : option E) : t <> u -> exists s, reachable s /\ races s.
Proof.
  intros Htu. destruct (compile_reaches_test u id invoke initial) as (s & Hr & Hu & Hi & Hc & _ & He);
    [done..|].
  eexists. split.
  - unfold reachable. trans s; [exact Hr|].
    eapply rtc_l; [apply (step_test u id invoke), Hu|]. rewrite He.
    eapply rtc_l; [apply (step_find t id)|apply rtc_once; apply (step_find_guard t id); [|exact Hc]].
    + cbn. rewrite decide_False by done. by apply Hi.
    + cbn. by rewrite decide_True.
  - exists t, u, id, invoke. cbn. rewrite !(decide_False (P := u = t)) by congruence.
    by rewrite !decide_True.
Qed.
End cache.

(** One thread compiles module 7, its executable is in the table and stays there. *)
Lemma executable_stored_once_witness :
  exists s : state (T := nat) (E := nat), reachable s /\ executable s 7 = Some 1%nat /\
    NoDup (stored s).*1.
Proof.
  destruct (compile_reaches_compiled (T := nat) (E := nat) 0%nat 7 (Some 1%nat)) as (s & Hr & _ & He).
  exists s. split; [exact Hr|]. split; [exact He|].
  exact (proj1 (proj2 (executable_stored_once s s Hr (rtc_refl _ _)))).
Defined.

Lemma find_races_witness : exists s : state (T := nat) (E := nat), reachable s /\ races s.
Proof. exact (find_races 0%nat 1%nat 7 (Some 1%nat) ltac:(discriminate)). Defined.
