(* ===== verification/Dfs.v ===== *)
(** * Iterative depth-first search

    Three loops of the code walk the operands of instructions with an explicit stack
    and a table [visited] (color_dfs.cc, [AddReplicatedOperandDfs] of
    mpmd_computation_grouper.cc and mpmd_argument_recompute.cc): a node that is met for the first time is entered as
    unfinished and its successors are pushed above it; when it is met again it is
    popped and, unless it is finished, emitted; one of the loops finishes some nodes at
    once.  This file has the abstract step relation that the loops refine, and what every run of it guarantees. *)
From S2P Require Import Prelude.

Section dfs.
Context {I : Type} `{EqDecision I, !Countable I}.
Implicit Types (x y d : I) (v : gmap I bool) (o : list I).

(** The head of [stack] is the back of the vector; [v !! x] is [Some false] for an
    unfinished and [Some true] for a finished node. *)
Record state := State { stack : list I; visited : gmap I bool; out : list I }.

Definition finished v x : Prop := v !! x = Some true.
Definition finish_all (block : list I) v : gmap I bool :=
  foldl (fun v x => <[x := true]> v) v block.

Lemma finish_all_lookup block v x :
  finish_all block v !! x = if decide (x ∈ block) then Some true else v !! x.
Proof.
  unfold finish_all. revert v. induction block as [|y block IH]; intros v; cbn; [done|]. rewrite IH.
  destruct (decide (x ∈ block)); [by rewrite decide_True by (by right)|].
  destruct (decide (y = x)) as [->|Hne].
  - by rewrite lookup_insert_eq, decide_True by left.
  - rewrite lookup_insert_ne, decide_False by set_solver. done.
Qed.

Lemma finished_finish_all block v x :
  finished (finish_all block v) x <-> x ∈ block \/ finished v x.
Proof. unfold finished. rewrite finish_all_lookup. case_decide; naive_solver. Qed.

(** The successors of a node. *)
Context (deps : I -> list I).

Inductive step : state -> state -> Prop :=
  | step_enter x rest pushes v o :
      v !! x = None ->
      length pushes <= length (deps x) ->
      (forall y, y ∈ pushes -> y ∈ deps x) ->
      (forall y, y ∈ deps x -> y ∈ pushes \/ finished v y) ->
      step (State (x :: rest) v o) (State (pushes ++ x :: rest) (<[x := false]> v) o)
  | step_mark x rest v o :
      v !! x = None ->
      (forall y, y ∈ deps x -> finished v y) ->
      step (State (x :: rest) v o) (State (x :: rest) (<[x := true]> v) (o ++ [x]))
  | step_skip x rest v o :
      finished v x -> step (State (x :: rest) v o) (State rest v o)
  | step_finish x rest block v o :
      v !! x = Some false ->
      x ∈ block -> NoDup block ->
      (forall y, y ∈ block -> ~ finished v y) ->
      (forall y d, y ∈ block -> d ∈ deps y -> d ∈ deps x) ->
      step (State (x :: rest) v o) (State rest (finish_all block v) (o ++ block)).

(** ** What is reached *)

(** What was in the stack is finished when the stack is empty, or still in it. *)
Lemma step_stack st st' x : step st st' ->
  x ∈ stack st \/ finished (visited st) x -> x ∈ stack st' \/ finished (visited st') x.
Proof.
  destruct 1 as [y rest pushes v o Hy _ Hp Hd|y rest v o Hy _|y rest v o Hy|y rest block v o Hy Hin _ _ _]; cbn.
  - intros [|Hf]; [left; set_solver|right]. unfold finished in *. rewrite lookup_insert_ne; congruence.
  - intros [|Hf]; [by left|right]. unfold finished in *. rewrite lookup_insert_ne; congruence.
  - intros [[->|]%elem_of_cons|]; auto.
  - rewrite finished_finish_all. intros [[->|]%elem_of_cons|]; auto.
Qed.

Lemma steps_stack st st' x : rtc step st st' ->
  x ∈ stack st \/ finished (visited st) x -> x ∈ stack st' \/ finished (visited st') x.
Proof. induction 1; eauto using step_stack. Qed.

(** A set of nodes that holds the stack and the emitted nodes keeps holding them. *)
Lemma step_within (P : I -> Prop) st st' :
  (forall x d, P x -> d ∈ deps x -> P d) -> step st st' ->
  Forall P (stack st) -> Forall P (stack st').
Proof.
  intros Hcl. destruct 1 as [y rest pushes v o Hy _ Hp Hd|y rest v o Hy _|y rest v o Hy|y rest block v o Hy Hin _ _ _];
    cbn; rewrite ?Forall_app, !Forall_cons; [|tauto..].
  intros [Hx Hr]. split; [|done]. apply Forall_forall. intros z Hz%Hp. eauto.
Qed.

Lemma steps_within (P : I -> Prop) st st' :
  (forall x d, P x -> d ∈ deps x -> P d) -> rtc step st st' ->
  Forall P (stack st) -> Forall P (stack st').
Proof. intros Hcl. induction 1; eauto using step_within. Qed.

(** ** Termination *)

(** The nodes that have not been entered, with the pushes they may cause. *)
Definition pending (U : list I) v : nat :=
  sum_list ((fun x => 1 + length (deps x)) <$> filter (fun x => v !! x = None) U).

Definition measure (U : list I) (st : state) : nat := length (stack st) + pending U (visited st).

Lemma pending_cons U v x :
  pending (x :: U) v = (if decide (v !! x = None) then 1 + length (deps x) else 0) + pending U v.
Proof. unfold pending. rewrite filter_cons. by case_decide. Qed.

Lemma pending_empty U : pending U ∅ = sum_list ((fun x => 1 + length (deps x)) <$> U).
Proof.
  induction U as [|x U IH]; [done|]. rewrite pending_cons, IH, decide_True; [done|].
  apply lookup_empty.
Qed.

Lemma pending_mono U v v' :
  (forall x, v' !! x = None -> v !! x = None) -> pending U v' <= pending U v.
Proof.
  intros Hv. induction U as [|x U IH]; [done|]. rewrite !pending_cons.
  specialize (Hv x). repeat case_decide; try tauto; lia.
Qed.

Lemma pending_enter U v x b : x ∈ U -> v !! x = None ->
  pending U (<[x := b]> v) + 1 + length (deps x) <= pending U v.
Proof.
  intros Hin Hx. induction U as [|y U IH]; [by apply elem_of_nil in Hin|]. rewrite !pending_cons.
  destruct (decide (y = x)) as [->|Hy].
  - rewrite decide_False by (by rewrite lookup_insert_eq). rewrite decide_True by done.
    assert (pending U (<[x := b]> v) <= pending U v); [|lia]. apply pending_mono.
    intros z. rewrite lookup_insert. by case_decide.
  - rewrite lookup_insert_ne by done.
    assert (x ∈ U) as HU by set_solver. specialize (IH HU). lia.
Qed.

Lemma pending_finish U v block : pending U (finish_all block v) <= pending U v.
Proof. apply pending_mono. intros x. rewrite finish_all_lookup. by case_decide. Qed.

Lemma measure_decreases U st st' : step st st' -> Forall (.∈ U) (stack st) ->
  measure U st' < measure U st.
Proof.
  destruct 1 as [y rest pushes v o Hy Hlen Hp Hd|y rest v o Hy _|y rest v o Hy|y rest block v o Hy Hin _ _ _];
    unfold measure; cbn; rewrite ?length_app; cbn; intros HU.
  - pose proof (pending_enter U v y false (Forall_inv HU) Hy). lia.
  - pose proof (pending_enter U v y true (Forall_inv HU) Hy). lia.
  - lia.
  - pose proof (pending_finish U v block). lia.
Qed.
(** ** The invariant

    A rank shows that the successors have no cycle. *)
Context (rank : I -> nat) (rank_lt : forall x d, d ∈ deps x -> rank d < rank x).


(** Every node of the list comes after its successors, up to those in [done]. *)
Definition topological (done : gset I) (l : list I) : Prop :=
  forall l1 y l2, l = l1 ++ y :: l2 -> forall d, d ∈ deps y -> d ∈ done \/ d ∈ l1.

(** [x] waits in the stack below what it waits for. *)
Definition waiting (st : state) x : Prop :=
  exists above below, stack st = above ++ x :: below /\ (x ∉ above) /\
    (forall d, d ∈ deps x -> d ∈ above \/ finished (visited st) d) /\
    (forall y, y ∈ above -> rank y < rank x).

Record dfs_ok (done : gset I) (st : state) : Prop := {
  ok_finished : forall x, finished (visited st) x <-> x ∈ done \/ x ∈ out st;
  ok_NoDup : NoDup (out st);
  ok_disjoint : forall x, x ∈ out st -> x ∉ done;
  ok_topological : topological done (out st);
  ok_waiting : forall x, visited st !! x = Some false -> waiting st x;
}.

Lemma topological_app done l block :
  topological done l ->
  (forall y, y ∈ block -> forall d, d ∈ deps y -> d ∈ done \/ d ∈ l) ->
  topological done (l ++ block).
Proof.
  intros Hl Hblock l1 y l2 Heq d Hd.
  apply app_eq_inv in Heq as [(k & -> & Heq)|(k & -> & Heq)].
  - destruct k as [|z k]; cbn in Heq.
    + destruct (Hblock y ltac:(rewrite <- Heq; left) d Hd); [by left|right; set_solver].
    + injection Heq as <- ->. by apply (Hl l1 y k).
  - destruct (Hblock y ltac:(rewrite Heq; set_solver) d Hd); [by left|right; set_solver].
Qed.

Lemma waiting_top x rest v o :
  waiting (State (x :: rest) v o) x -> forall d, d ∈ deps x -> finished v d.
Proof.
  intros (above & below & Heq & Hx & Hd & _) d [Ha|]%Hd; [|done]. cbn in Heq.
  destruct above as [|z above]; [by apply elem_of_nil in Ha|].
  injection Heq as <- _. set_solver.
Qed.

(** Below the top nothing but the top changes for a node that waits. *)
Lemma waiting_pop x rest v v' o o' y :
  waiting (State (x :: rest) v o) y -> y <> x ->
  finished v' x -> (forall d, finished v d -> finished v' d) ->
  waiting (State rest v' o') y.
Proof.
  intros (above & below & Heq & Hy & Hd & Hr) Hne Hx Hv. cbn in Heq.
  destruct above as [|z above]; cbn in Heq; [congruence|]. injection Heq as <- ->.
  exists above, below. cbn. split_and!; [done|set_solver| |intros; apply Hr; by right].
  intros d [[->|]%elem_of_cons|]%Hd; [by right..|left; done|right; by apply Hv].
Qed.

Lemma waiting_push x rest pushes v o y :
  waiting (State (x :: rest) v o) y -> y <> x ->
  (forall z, z ∈ pushes -> z ∈ deps x) ->
  waiting (State (pushes ++ x :: rest) (<[x := false]> v) o) y.
Proof.
  intros (above & below & Heq & Hy & Hd & Hr) Hne Hp. cbn in Heq.
  destruct above as [|z above]; cbn in Heq; [congruence|]. injection Heq as <- ->.
  assert (rank x < rank y) as Hxy by (apply Hr; left).
  exists (pushes ++ x :: above), below. cbn [stack visited]. split_and!.
  - by rewrite <- app_assoc.
  - intros [Hin|?]%elem_of_app; [|done]. apply Hp, rank_lt in Hin. lia.
  - intros d [Hin|Hf]%Hd; [left; set_solver|]. destruct (decide (d = x)) as [->|Hdx].
    + left. set_solver.
    + right. unfold finished. by rewrite lookup_insert_ne.
  - intros z [Hin|Hin]%elem_of_app; [|by apply Hr]. apply Hp, rank_lt in Hin. lia.
Qed.

Lemma dfs_ok_step done st st' : step st st' -> dfs_ok done st -> dfs_ok done st'.
Proof.
  intros Hstep [H1 H2 H3 H4 H5]. destruct Hstep as [x rest pushes v o Hx Hlen Hp Hd|x rest v o Hx Hd|
    x rest v o Hx|x rest block v o Hx Hin Hnd Hnew Hdeps]; cbn in *.
  - split; cbn; [|done..|].
    + intros y. rewrite <- H1. unfold finished. rewrite lookup_insert.
      case_decide; subst; naive_solver congruence.
    + intros y. rewrite lookup_insert. case_decide as Hxy; [intros _; subst y|].
      * exists pushes, rest. cbn. split_and!; [done|by intros ?%Hp%rank_lt; lia| |by intros y ?%Hp%rank_lt].
        intros d Hdd. destruct (Hd d Hdd) as [|Hf]; [by left|right]. unfold finished in *.
        rewrite lookup_insert_ne; [done|]. intros ->. congruence.
      * intros Hy. apply (waiting_push x rest); [by apply H5|done|done].
  - assert ((x ∉ done) /\ (x ∉ o)) as [Hxd Hxo].
    { split; intros Hin; assert (finished v x) as Hf by (apply H1; tauto); unfold finished in Hf; congruence. }
    split; cbn.
    + intros y. rewrite elem_of_app, list_elem_of_singleton. unfold finished. rewrite lookup_insert.
      specialize (H1 y). unfold finished in H1. destruct (decide (x = y)) as [->|Hne]; [tauto|]. naive_solver.
    + apply NoDup_app. split; [done|]. split; [|apply NoDup_singleton]. by intros y Hy ->%list_elem_of_singleton.
    + intros y [Hy| ->%list_elem_of_singleton]%elem_of_app; [by apply H3|done].
    + apply topological_app; [done|]. intros y ->%list_elem_of_singleton d Hdd. by apply H1, Hd.
    + intros y. rewrite lookup_insert. case_decide as Hxy; [done|]. intros Hy.
      destruct (H5 y Hy) as (above & below & Heq & Hya & Hdy & Hr). exists above, below. cbn [stack visited].
      split_and!; [done..| |done]. intros d [Ha|Hf]%Hdy; [by left|right]. unfold finished in *. rewrite lookup_insert_ne; [done|].
      intros ->. cbn in Hf. congruence.
  - split; cbn; [done..|]. intros y Hy.
    apply (waiting_pop x rest v v o o); [by apply H5| |done|done].
    intros ->. unfold finished in Hx. congruence.
  - pose proof (waiting_top _ _ _ _ (H5 x Hx)) as Htop. split; cbn.
    + intros y. rewrite finished_finish_all, H1. set_solver.
    + apply NoDup_app. split; [done|]. split; [|done]. intros y Hy Hb.
      apply (Hnew y Hb), H1. by right.
    + intros y [Hy|Hy]%elem_of_app Hdone; [by apply (H3 y)|].
      apply (Hnew y Hy), H1. by left.
    + apply topological_app; [done|]. intros y Hy d Hdd. apply H1, Htop. by apply (Hdeps y).
    + intros y. rewrite finish_all_lookup. case_decide as Hy; [done|]. intros Hv.
      apply (waiting_pop x rest v _ o); [by apply H5| | |].
      * intros ->. done.
      * apply finished_finish_all. by left.
      * intros d Hf. apply finished_finish_all. by right.
Qed.

Lemma dfs_ok_steps done st st' : rtc step st st' -> dfs_ok done st -> dfs_ok done st'.
Proof. induction 1; eauto using dfs_ok_step. Qed.

Lemma dfs_ok_initial (done : gset I) st :
  out st = [] -> (forall x, finished (visited st) x <-> x ∈ done) ->
  (forall x, visited st !! x <> Some false) -> dfs_ok done st.
Proof.
  intros Ho Hf Hg. split; rewrite ?Ho.
  - intros x. rewrite Hf. set_solver.
  - constructor.
  - set_solver.
  - intros [] ? ? ?; done.
  - intros x Hx. by destruct (Hg x).
Qed.

(** A search that has emptied its stack. *)
Lemma search_done done st st' :
  rtc step st st' -> stack st' = [] -> dfs_ok done st -> out st = [] ->
  NoDup (out st') /\ topological done (out st') /\
  (forall x, x ∈ out st' -> x ∉ done) /\
  (forall x, x ∈ stack st -> x ∈ done \/ x ∈ out st') /\
  (forall x, finished (visited st') x <-> x ∈ done \/ x ∈ out st').
Proof.
  intros Hrun Hempty Hok Hout. pose proof (dfs_ok_steps _ _ _ Hrun Hok) as [H1 H2 H3 H4 _].
  split_and!; [done..| |done]. intros x Hx.
  destruct (steps_stack st st' x Hrun (or_introl Hx)) as [Hs|Hs]; [|by apply H1].
  rewrite Hempty in Hs. set_solver.
Qed.

End dfs.
Arguments State {_ _ _} _ _ _.
Arguments stack {_ _ _} _. Arguments visited {_ _ _} _. Arguments out {_ _ _} _.
