(* ===== verification/ColorDfs.v ===== *)
(** * The color-sorted post order (color_dfs.h/.cc)

    [ColorSortedPostorder] lists the instructions of a computation, operands first,
    visiting operands of the color that was met last after the others, so that the
    instructions of a color come together.  The get-tuple-elements of a custom call
    are emitted together.  The loop refines the abstract search of Dfs.v; reading
    [color_priority[c]] of an unknown color inserts a zero, which no later step can
    tell from the absence of the color. *)
From S2P Require Import Prelude Hlo Instruction Coloring Dfs.
Local Open Scope Z_scope.

(** [std::stable_sort] with the comparison [less]. *)
Fixpoint insert_sorted {X} (less : X -> X -> bool) (x : X) (l : list X) : list X :=
  match l with
  | [] => [x]
  | y :: l => if less y x then y :: insert_sorted less x l else x :: y :: l
  end.
Definition stable_sort {X} (less : X -> X -> bool) (l : list X) : list X :=
  foldr (insert_sorted less) [] l.

Lemma stable_sort_Permutation {X} (less : X -> X -> bool) l : stable_sort less l ≡ₚ l.
Proof.
  assert (forall x l, insert_sorted less x l ≡ₚ x :: l) as Hins.
  { intros x. induction l0 as [|y l0 IH]; cbn; [done|]. destruct (less y x); [|done].
    rewrite IH. apply Permutation_swap. }
  induction l as [|x l IH]; cbn; [done|]. by rewrite Hins, IH.
Qed.

Section color_dfs.
Context {I C St : Type} `{EqDecision I, !Countable I} `{!Hlo I C, !AttrStore I St}.
Implicit Types (i : I) (c : C) (s : St).

(** The variables of the loop; the head of [to_visit] is the back of the vector. *)
Record ColorDfs := MkColorDfs {
  search : Dfs.state (I := I);
  color_priority : gmap string Z;
  last_color : option string;
  next_priority : Z;
}.

Definition operand_less (priority : gmap string Z) s (lhs rhs : I) : bool :=
  match Color s lhs, Color s rhs with
  | Some l, Some r => value_or priority r 0 <? value_or priority l 0
  | Some _, None => true
  | None, _ => false
  end.

(** A node that is met for the first time. *)
Definition enter s (next : I) (st : ColorDfs) : ColorDfs :=
  let new_color := bool_decide (Color s next <> last_color st) in
  let '(priority, last, np) :=
    match Color s next with
    | Some color =>
        if new_color then (<[color := next_priority st]> (color_priority st), Some color, next_priority st + 1)
        else (color_priority st, last_color st, next_priority st)
    | None => (color_priority st, last_color st, next_priority st)
    end in
  let ops := stable_sort (operand_less priority s) (operands next) in
  MkColorDfs (State (reverse ops ++ stack (search st)) (<[next := false]> (visited (search st)))
                (out (search st)))
    priority last np.

(** What is emitted when a node is left: itself, or all users of the custom call
    that it is an element of. *)
Definition emitted (next : I) : Result (list I) :=
  if bool_decide (opcode next = kGetTupleElement) then
    o ← operand next 0;
    OK (if bool_decide (opcode o = kCustomCall) then users o else [next])
  else OK [next].

Definition with_search (q : Dfs.state) (st : ColorDfs) : ColorDfs :=
  MkColorDfs q (color_priority st) (last_color st) (next_priority st).

(** One iteration; [None] when [to_visit] is empty. *)
Definition iteration s (st : ColorDfs) : Result (option ColorDfs) :=
  match stack (search st) with
  | [] => OK None
  | next :: rest =>
      match visited (search st) !! next with
      | None => OK (Some (enter s next st))
      | Some true => OK (Some (with_search (State rest (visited (search st)) (out (search st))) st))
      | Some false =>
          block ← emitted next;
          OK (Some (with_search (State rest (finish_all block (visited (search st)))
                                   (out (search st) ++ block)) st))
      end
  end.

Fixpoint search_loop (fuel : nat) s (st : ColorDfs) : Result ColorDfs :=
  match fuel with
  | O => Fatal Diverges
  | S fuel =>
      st' ← iteration s st;
      match st' with Some st' => search_loop fuel s st' | None => OK st end
  end.

Definition initial_search c : ColorDfs := MkColorDfs (State [root_instruction c] ∅ []) ∅ None 1.

Definition ColorSortedPostorder (fuel : nat) s c : Result (list I) :=
  st ← search_loop fuel s (initial_search c);
  OK (out (search st)).

(** ** The loop refines the abstract search *)
Context `{!PostOrderLaws I C, !AcyclicLaws I C, !UsersLaws I C}.

(** A custom call with an element has only elements as users. *)
Definition elements_only : Prop := forall g cc u,
  opcode g = kGetTupleElement -> operands g !! 0%nat = Some cc -> opcode cc = kCustomCall ->
  u ∈ users cc -> opcode u = kGetTupleElement /\ operands u = [cc].

(** The loop keeps: elements of a custom call are finished together, and every node
    of the stack has what it needs to be left. *)
Definition together (v : gmap I bool) : Prop := forall g u cc,
  opcode g = kGetTupleElement -> operands g = [cc] -> opcode cc = kCustomCall ->
  u ∈ users cc -> finished v g -> finished v u.

Definition well_formed : Prop := forall g, opcode g = kGetTupleElement -> exists cc, operands g = [cc].

Lemma emitted_OK next : well_formed -> is_OK (emitted next).
Proof.
  intros Hwf. unfold emitted, is_OK. case_bool_decide as Hg; [|eauto].
  destruct (Hwf next Hg) as [cc Hcc]. unfold operand. rewrite Hcc. cbn. eauto.
Qed.

Lemma emitted_cases next block : well_formed -> emitted next = OK block ->
  block = [next] /\ (opcode next <> kGetTupleElement \/
     exists cc, operands next = [cc] /\ opcode cc <> kCustomCall) \/
  opcode next = kGetTupleElement /\ exists cc, operands next = [cc] /\ opcode cc = kCustomCall /\
    block = users cc.
Proof.
  intros Hwf. unfold emitted. case_bool_decide as Hg; [|intros [= <-]; tauto].
  destruct (Hwf next Hg) as [cc Hcc]. unfold operand. rewrite Hcc.
  change (vec_at [cc] 0) with (OK cc). cbn [mbind Result_bind].
  case_bool_decide; intros [= <-]; [right; eauto|left; eauto].
Qed.

Lemma enter_search s next st :
  exists ops, ops ≡ₚ operands next /\
    search (enter s next st) =
      State (ops ++ stack (search st)) (<[next := false]> (visited (search st))) (out (search st)).
Proof.
  unfold enter. destruct (Color s next) as [color|]; [destruct (bool_decide _)|]; cbn;
    (eexists; split; [|done]); by rewrite reverse_Permutation, stable_sort_Permutation.
Qed.

Lemma iteration_step s st st' :
  well_formed -> elements_only -> together (visited (search st)) ->
  iteration s st = OK (Some st') ->
  Dfs.step operands (search st) (search st') /\ together (visited (search st')).
Proof.
  intros Hwf Hel Htog. unfold iteration.
  destruct (search st) as [stk v o] eqn:Hst. cbn in *.
  destruct stk as [|next rest]; [done|]. destruct (v !! next) as [[]|] eqn:Hv.
  - intros [= <-]. split; [by constructor|done].
  - intros (block & Hb & [= <-])%Result_bind_OK. cbn.
    apply emitted_cases in Hb as [(-> & Hcase)|(Hg & cc & Hcc & Hop & ->)]; [| |done].
    + split.
      * apply step_finish; [done|by left|apply NoDup_singleton| |].
        -- intros y ->%list_elem_of_singleton. unfold finished. congruence.
        -- by intros y d ->%list_elem_of_singleton.
      * intros g u cc Hg Hcc Hop Hu. rewrite !finished_finish_all.
        intros [->%list_elem_of_singleton|Hf]; [|right; by apply (Htog g u cc)].
        destruct Hcase as [?|(cc' & Hcc' & ?)]; [done|]. congruence.
    + assert (forall u, u ∈ users cc -> opcode u = kGetTupleElement /\ operands u = [cc]) as Hus
        by (intros; by apply (Hel next); [| rewrite Hcc| |]).
      assert (next ∈ users cc) as Hin by (apply users_spec; rewrite Hcc; by left).
      split.
      * apply step_finish; [done|done|apply users_NoDup| |].
        -- intros y Hy Hf. destruct (Hus y Hy) as [Hgy Hoy].
           assert (finished v next) as Hfn by (by apply (Htog y next cc)).
           unfold finished in Hfn. congruence.
        -- intros y d Hy. destruct (Hus y Hy) as [_ ->]. by rewrite Hcc.
      * intros g u cc' Hg' Hcc' Hop' Hu. rewrite !finished_finish_all.
        intros [Hgin|Hf]; [|right; by apply (Htog g u cc')].
        left. destruct (Hus g Hgin) as [_ Hog].
        rewrite Hcc' in Hog. by injection Hog as ->.
  - intros [= <-]. destruct (enter_search s next st) as (ops & Hperm & ->). rewrite Hst. cbn. split.
    + apply step_enter; [done|by rewrite Hperm|intros y; by rewrite Hperm|intros y; rewrite Hperm; by left].
    + intros g u cc Hg Hcc Hop Hu. unfold finished. rewrite !lookup_insert.
      case_decide as Hng; [done|]. intros Hf. case_decide as Hnu; [|by apply (Htog g u cc)].
      subst u. pose proof (Htog g next cc Hg Hcc Hop Hu Hf) as Hn. unfold finished in Hn. congruence.
Qed.

(** ** What the loop returns *)

Lemma iteration_OK s st : well_formed -> is_OK (iteration s st).
Proof.
  intros Hwf. unfold iteration, is_OK. destruct (stack (search st)) as [|next rest]; [eauto|].
  destruct (visited (search st) !! next) as [[]|]; [eauto| |eauto].
  destruct (emitted_OK next Hwf) as [block ->]. cbn. eauto.
Qed.

(** Where emitted instructions come from. *)
Definition from_search (U : list I) (x : I) : Prop := x ∈ U \/ exists cc, x ∈ users cc /\ cc ∈ U.

Lemma iteration_from_search U s st st' :
  well_formed -> (forall x d, x ∈ U -> d ∈ operands x -> d ∈ U) -> iteration s st = OK (Some st') ->
  Forall (.∈ U) (stack (search st)) -> Forall (from_search U) (out (search st)) ->
  Forall (from_search U) (out (search st')).
Proof.
  intros Hwf HU. unfold iteration. destruct (search st) as [stk v o] eqn:Hst. cbn.
  destruct stk as [|next rest]; [done|]. destruct (v !! next) as [[]|].
  - by intros [= <-].
  - intros (block & Hb & [= <-])%Result_bind_OK Hin Ho. cbn. apply Forall_app. split; [done|].
    pose proof (Forall_inv Hin) as Hnext. cbn in Hnext.
    apply emitted_cases in Hb as [(-> & _)|(_ & cc & Hcc & _ & ->)]; [| |done].
    + apply Forall_singleton. left. exact Hnext.
    + apply Forall_forall. intros x Hx. right. exists cc. split; [done|].
      apply (HU next); [done|]. rewrite Hcc. by left.
  - intros [= <-]. destruct (enter_search s next st) as (ops & _ & ->). by rewrite Hst.
Qed.

Lemma search_loop_runs U s fuel st :
  well_formed -> elements_only -> (forall x d, x ∈ U -> d ∈ operands x -> d ∈ U) ->
  together (visited (search st)) -> Forall (.∈ U) (stack (search st)) ->
  Forall (from_search U) (out (search st)) ->
  (measure operands U (search st) < fuel)%nat ->
  exists st', search_loop fuel s st = OK st' /\ rtc (Dfs.step operands) (search st) (search st') /\
    stack (search st') = [] /\ Forall (from_search U) (out (search st')).
Proof.
  intros Hwf Hel HU. revert st. induction fuel as [|fuel IH]; intros st Htog Hin Ho Hm; [lia|]. cbn.
  destruct (iteration_OK s st Hwf) as [[st1|] Hit]; rewrite Hit; cbn.
  - destruct (iteration_step s st st1 Hwf Hel Htog Hit) as [Hstep Htog1].
    pose proof (measure_decreases operands U _ _ Hstep Hin) as Hlt.
    pose proof (step_within operands (.∈ U) _ _ HU Hstep Hin) as Hin1.
    pose proof (iteration_from_search U s st st1 Hwf HU Hit Hin Ho) as Ho1.
    destruct (IH st1 Htog1 Hin1 Ho1 ltac:(lia)) as (st' & -> & Hrun & Hempty).
    exists st'. split_and!; [done| |apply Hempty..]. by eapply rtc_l.
  - exists st. split_and!; [done|apply rtc_refl| |done]. unfold iteration in Hit.
    destruct (stack (search st)) as [|next rest]; [done|].
    destruct (visited (search st) !! next) as [[]|]; [done| |done].
    by destruct (emitted next).
Qed.

(** Enough iterations: each instruction is entered once, and every entry pushes its
    operands, each of which is popped once. *)
Definition enough_fuel c : nat :=
  2 + sum_list ((fun x => 1 + length (operands x))%nat <$> MakeInstructionPostOrder c).

Lemma postorder_closed c x d :
  x ∈ MakeInstructionPostOrder c -> d ∈ operands x -> d ∈ MakeInstructionPostOrder c.
Proof.
  intros (n & Hn)%list_elem_of_lookup Hd.
  destruct (postorder_operands c n x d Hn Hd) as (m & _ & Hm). by eapply list_elem_of_lookup_2.
Qed.

(** What is promised of the order: instructions once, operands before users, and
    nothing but the computation's instructions and elements of their custom calls. *)
Record topological_order c (l : list I) : Prop := {
  order_NoDup : NoDup l;
  order_root : root_instruction c ∈ l;
  order_operands : forall l1 x l2, l = l1 ++ x :: l2 -> forall d, d ∈ operands x -> d ∈ l1;
  order_within : Forall (from_search (MakeInstructionPostOrder c)) l;
}.

Lemma ColorSortedPostorder_order s c fuel :
  well_formed -> elements_only -> (enough_fuel c <= fuel)%nat ->
  exists l, ColorSortedPostorder fuel s c = OK l /\ topological_order c l.
Proof.
  intros Hwf Hel Hfuel. set (U := MakeInstructionPostOrder c).
  assert (measure operands U (search (initial_search c)) < fuel)%nat as Hm.
  { unfold measure. cbn. rewrite pending_empty. unfold enough_fuel in Hfuel. fold U in Hfuel. lia. }
  destruct (search_loop_runs U s fuel (initial_search c)) as (st & Hrun & Hsteps & Hempty & Ho);
    [done..| | | | |done|].
  - apply postorder_closed.
  - intros g u cc _ _ _ _ Hf. unfold finished in Hf. cbn in Hf. by rewrite lookup_empty in Hf.
  - apply Forall_singleton, postorder_root.
  - constructor.
  - assert (dfs_ok operands operand_rank ∅ (search (initial_search c))) as Hok.
    { apply dfs_ok_initial; [apply operand_rank_lt|done|intros x; unfold finished; cbn; rewrite lookup_empty; set_solver|].
      intros x. cbn. by rewrite lookup_empty. }
    destruct (search_done operands operand_rank operand_rank_lt ∅ _ _ Hsteps Hempty Hok eq_refl)
      as (Hnd & Htop & _ & Hroot & _).
    unfold ColorSortedPostorder. rewrite Hrun. cbn. eexists. split; [done|]. split; [done| | |done].
    + destruct (Hroot (root_instruction c)) as [|]; [by left|set_solver|done].
    + intros l1 x l2 Heq d Hd. destruct (Htop l1 x l2 Heq d Hd); [set_solver|done].
Qed.

(** C33: The color-sorted order exists and is a topological order of what the root needs:
    instructions come once, operands before users, the root is there, and besides the
    instructions of the computation's post order there are only elements of their
    custom calls. *)
Theorem ColorSortedPostorder_topological s c fuel :
  well_formed -> elements_only -> (enough_fuel c <= fuel)%nat ->
  exists l, ColorSortedPostorder fuel s c = OK l /\ NoDup l /\ root_instruction c ∈ l /\
    (forall l1 x l2, l = l1 ++ x :: l2 -> forall d, d ∈ operands x -> d ∈ l1) /\
    (forall x, x ∈ l -> x ∈ MakeInstructionPostOrder c \/
       exists cc, x ∈ users cc /\ cc ∈ MakeInstructionPostOrder c).
Proof.
  intros Hwf Hel Hfuel. destruct (ColorSortedPostorder_order s c fuel Hwf Hel Hfuel)
    as (l & Hl & [H1 H2 H3 H4]).
  exists l. split_and!; try done. by apply Forall_forall.
Qed.
End color_dfs.

(** A custom call with two elements, in two colors. *)
Module ColorDfsSample.
Definition nodes : list Graph.node := [
  Graph.op kParameter []; Graph.op kCustomCall [0];
  Graph.op kGetTupleElement [1]; Graph.op kGetTupleElement [1];
  Graph.op kAdd [2; 0]; Graph.op kMultiply [3; 4]; Graph.op kTuple [5; 4]]%nat.
Definition comps : list Graph.comp := [Graph.Comp 6 [0] [0; 1; 2; 3; 4; 5; 6]]%nat.
#[global] Instance hlo : Hlo nat nat := Graph.hlo nodes comps.
Definition colors : AttrMap.t :=
  AssignColor 4%nat "a" (AssignColor 5%nat "b" (AssignColor 2%nat "a" (AssignColor 3%nat "b" ∅))).
#[global] Instance postorder : PostOrderLaws nat nat := Graph.postorder_laws nodes comps eq_refl.
#[global] Instance acyclic : AcyclicLaws nat nat := Graph.acyclic_laws nodes comps eq_refl.
#[global] Instance users : UsersLaws nat nat := Graph.users_laws nodes comps.

Lemma wf : well_formed (I := nat).
Proof. intros g. do 7 (destruct g as [|g]; [cbn; try done; eauto|]). by destruct g. Qed.

Lemma elements : elements_only (I := nat).
Proof.
  intros g cc u Hg Hcc Hop Hu.
  assert (g = 2 \/ g = 3)%nat as Hg23.
  { do 7 (destruct g as [|g]; [cbn in Hg; try done; auto|]). by destruct g. }
  assert (cc = 1%nat) as -> by (destruct Hg23; subst g; by injection Hcc).
  change (u ∈ [2; 3])%nat in Hu. rewrite !elem_of_cons in Hu.
  destruct Hu as [-> | [-> | []%elem_of_nil]]; done.
Qed.

(** The call is used as a whole, too, by the instruction 4. *)
Definition mixed_nodes : list Graph.node := [
  Graph.op kParameter []; Graph.op kCustomCall [0]; Graph.op kGetTupleElement [1];
  Graph.op kAdd [2; 0]; Graph.op kOptimizationBarrier [1; 3]; Graph.op kTuple [4]]%nat.
Definition mixed_hlo : Hlo nat nat := Graph.hlo mixed_nodes [Graph.Comp 5 [0] [0; 1; 2; 3; 4; 5]]%nat.
End ColorDfsSample.

Lemma ColorSortedPostorder_topological_witness :
  exists l, ColorSortedPostorder 40 ColorDfsSample.colors 0%nat = OK l /\ NoDup l /\ 6%nat ∈ l.
Proof.
  destruct (ColorSortedPostorder_topological ColorDfsSample.colors 0%nat 40
    ColorDfsSample.wf ColorDfsSample.elements ltac:(by vm_compute; lia)) as (l & Hl & Hnd & Hroot & _).
  exists l. split; [exact Hl|split; [exact Hnd|exact Hroot]].
Defined.

(** When a custom call with an element is also used as a whole, the order can have a
    user before its operand: here the instruction 4 comes before its operand 3. *)
Theorem ColorSortedPostorder_mixed_users :
  let _ := ColorDfsSample.mixed_hlo in
  ColorSortedPostorder 40 (∅ : AttrMap.t) 0%nat = OK [0; 1; 2; 4; 3; 5]%nat /\
  3%nat ∈ @operands nat nat ColorDfsSample.mixed_hlo 4%nat.
Proof. split; [by vm_compute|]. cbn. set_solver. Qed.
