(* ===== verification/TaskMemory.v ===== *)
(** * Memory of a task (mm_computation.cc)

    [TaskTempMemoryAllocator] takes one block for the temporaries of a task and hands
    it out in padded pieces; [RunCpuExecutable] and [RunGpuExecutable] build from the
    inputs, the outputs, the constants and these pieces the vector of buffers, one for
    every allocation of the executable.  XLA's [BufferAllocation] and what the
    executables say of their outputs and constants are parameters; a memory region is
    its address and its size. *)
From S2P Require Import Prelude.
Local Open Scope Z_scope.

(** What the code reads of an [xla::BufferAllocation]. *)
Class BufferAllocation (A : Type) := {
  is_entry_computation_parameter : A -> bool;
  parameter_number : A -> Z;
  param_shape_index : A -> list Z;
  maybe_live_out : A -> bool;
  is_tuple : A -> bool;
  IsPreallocatedTempBuffer : A -> bool;
  is_constant : A -> bool;
  is_thread_local : A -> bool;
  index : A -> Z;
  size : A -> Z;
  (* the ids of the instructions at the positions of the assigned values *)
  assigned_positions : A -> list Z;
}.

(** Arithmetic on [size_t]. *)
Definition size_t_mod : Z := 2 ^ 64.
Definition wrap (z : Z) : Z := z mod size_t_mod.
Definition pointer_size : Z := 8.

Record DeviceMemoryBase := Memory { opaque : Z; mem_size : Z }.
Definition no_memory : DeviceMemoryBase := Memory 0 0.

(** ** The allocator of temporaries *)

Definition padding : Z := 4096 - 1.
Definition PaddedSize (size : Z) : Z :=
  Z.land (wrap (size + padding)) (size_t_mod - 1 - padding).

Record TaskTempMemoryAllocator := MkAllocator {
  position_ : Z;
  total_size_ : Z;
  buffer_ : Z;
}.

Definition Next (alloc_size : Z) (a : TaskTempMemoryAllocator) : Z * TaskTempMemoryAllocator :=
  (buffer_ a + position_ a,
   MkAllocator (wrap (position_ a + PaddedSize alloc_size)) (total_size_ a) (buffer_ a)).

Section task.
Context {A : Type} `{BufferAllocation A}.
Context (Allocate : Z -> Z).
Implicit Types (alloc : A) (allocs : list A).

Definition total_size allocs (tupled_args : bool) (num_args : Z) (tupled_outputs : bool)
    (num_outputs : Z) : Z :=
  let total := 0 in
  let total := if tupled_args then wrap (total + PaddedSize (num_args * pointer_size)) else total in
  let total := if tupled_outputs then wrap (total + PaddedSize (num_outputs * pointer_size)) else total in
  foldl (fun total alloc =>
    if IsPreallocatedTempBuffer alloc then wrap (total + PaddedSize (size alloc)) else total)
    total allocs.

Definition MakeAllocator allocs tupled_args num_args tupled_outputs num_outputs
    : TaskTempMemoryAllocator :=
  let total := total_size allocs tupled_args num_args tupled_outputs num_outputs in
  MkAllocator 0 total (Allocate total).

(** ** The buffers of a CPU executable

    An [int] is compared with a [size_t] as an unsigned number, so a negative one is
    not below any size. *)
Section cpu.
(** The ids of the operands of a root of tuple shape, or of the root. *)
Context (root_ids : list Z) (root_is_tuple : bool).
Context (constants inputs outputs : list DeviceMemoryBase).

(** [output_buffer_indices] *)
Definition output_buffer_indices : gmap Z Z :=
  foldl (fun m '(i, id) => <[id := i]> m) ∅ (zip (seqZ 0 (Zlength root_ids)) root_ids).

(** [get_output_index]; the first position of an output decides. *)
Fixpoint first_output (positions : list Z) : Z :=
  match positions with
  | [] => -1
  | id :: positions =>
      match output_buffer_indices !! id with Some i => i | None => first_output positions end
  end.
Definition get_output_index alloc : Z := first_output (assigned_positions alloc).

Definition cpu_buffer (a : TaskTempMemoryAllocator) alloc
    : Result (DeviceMemoryBase * TaskTempMemoryAllocator) :=
  if is_entry_computation_parameter alloc then
    input ← vec_at inputs (parameter_number alloc);
    if negb (size alloc =? 0) && negb (mem_size input =? size alloc) then
      Err kInvalidArgument "input has mismatched sizes"
    else if maybe_live_out alloc && (get_output_index alloc =? -1) then
      Err kInternal "buffer allocation could not be matched against output index"
    else OK (input, a)
  else if maybe_live_out alloc then
    if is_tuple alloc then
      let size := Zlength outputs * pointer_size in
      let '(output_tuple, a) := Next size a in OK (Memory output_tuple size, a)
    else
      let output_index := get_output_index alloc in
      if output_index =? -1 then
        Err kInternal "buffer allocation could not be matched against output index"
      else
        output ← vec_at outputs output_index;
        if negb (size alloc =? 0) && negb (mem_size output =? size alloc) then
          Err kInvalidArgument "output has mismatched sizes"
        else OK (output, a)
  else if IsPreallocatedTempBuffer alloc then
    let '(buf, a) := Next (size alloc) a in OK (Memory buf (size alloc), a)
  else if is_constant alloc && (0 <=? index alloc) && (index alloc <? Zlength constants) then
    c ← vec_at constants (index alloc); OK (c, a)
  else if is_constant alloc || is_thread_local alloc then OK (no_memory, a)
  else Err kInvalidArgument "Got buffer allocation that is not an input, output, or temp".
End cpu.

(** The loop over the allocations. *)
Definition add_buffer (f : TaskTempMemoryAllocator -> A -> Result (DeviceMemoryBase * TaskTempMemoryAllocator))
    (st : list DeviceMemoryBase * TaskTempMemoryAllocator) alloc
    : Result (list DeviceMemoryBase * TaskTempMemoryAllocator) :=
  r ← f st.2 alloc; OK (st.1 ++ [r.1], r.2).

Definition RunCpuExecutable_buffers (root_ids : list Z) (root_is_tuple : bool)
    (constants inputs outputs : list DeviceMemoryBase) (tupled_args : bool) allocs
    : Result (list DeviceMemoryBase) :=
  let a := MakeAllocator allocs tupled_args (Zlength inputs) root_is_tuple (Zlength outputs) in
  r ← foldM (add_buffer (cpu_buffer root_ids constants inputs outputs)) ([], a) allocs;
  OK r.1.

(** ** The buffers of a GPU executable *)
Section gpu.
(** [output_info]: the output of an allocation; [globals]: the resolved constants. *)
Context (output_info : list (list Z * Z)) (globals : gmap Z DeviceMemoryBase).
Context (inputs outputs : list DeviceMemoryBase) (tupled_args : bool).

Definition tupled_outputs allocs : bool :=
  existsb (fun alloc => maybe_live_out alloc && is_tuple alloc) allocs.

Definition output_buffer_reorder : gmap Z Z :=
  foldl (fun m '(shape_index, allocation_index) =>
    match shape_index with
    | [] => <[allocation_index := 0]> m
    | i :: _ => <[allocation_index := i]> m
    end) ∅ output_info.

Definition input_index alloc : Result Z :=
  match param_shape_index alloc with
  | [i] => OK i
  | [] => OK (parameter_number alloc)
  | _ => Err kInvalidArgument "Do yet not support arg tuples with nested shapes"
  end.

(** [buffers] is not read by the loop; the two tuple tables are remembered. *)
Record GpuArena := MkArena {
  arena : TaskTempMemoryAllocator;
  input_tuple_bufs_device : Z;
  output_tuple_bufs_device : Z;
}.

Definition gpu_buffer (g : GpuArena) alloc : Result (DeviceMemoryBase * GpuArena) :=
  if is_thread_local alloc then OK (no_memory, g)
  else if is_entry_computation_parameter alloc then
    if tupled_args && bool_decide (param_shape_index alloc = []) then
      let size := Zlength inputs * pointer_size in
      let '(buf, a) := Next size (arena g) in
      OK (Memory buf size, MkArena a buf (output_tuple_bufs_device g))
    else
      i ← input_index alloc;
      if (i <? 0) || (Zlength inputs <=? i) then Err kInvalidArgument "Too few inputs given to GPU executable"
      else
        input ← vec_at inputs i;
        if negb (mem_size input =? size alloc) && (0 <? size alloc) then
          Err kInvalidArgument "Mismatched size on input"
        else OK (input, g)
  else if maybe_live_out alloc then
    if is_tuple alloc then
      let size := Zlength inputs * pointer_size in
      let '(buf, a) := Next size (arena g) in
      OK (Memory buf size, MkArena a (input_tuple_bufs_device g) buf)
    else
      match output_buffer_reorder !! index alloc with
      | None => Err kInvalidArgument "Buffer allocation missing from GpuExecutable::OutputInfo"
      | Some i =>
          if (i <? 0) || (Zlength outputs <=? i) then Err kInvalidArgument "Too few outputs given to GPU executable"
          else
            output ← vec_at outputs i;
            if negb (mem_size output =? size alloc) && (0 <? size alloc) then
              Err kInvalidArgument "Mismatched size on output"
            else OK (output, g)
      end
  else if IsPreallocatedTempBuffer alloc then
    let '(buf, a) := Next (size alloc) (arena g) in
    OK (Memory buf (size alloc), MkArena a (input_tuple_bufs_device g) (output_tuple_bufs_device g))
  else if is_constant alloc then
    OK (default no_memory (globals !! index alloc), g)
  else Err kInvalidArgument "Got buffer allocation that is not an input, output, or temp".

Definition add_gpu_buffer (st : list DeviceMemoryBase * GpuArena) alloc
    : Result (list DeviceMemoryBase * GpuArena) :=
  r ← gpu_buffer st.2 alloc; OK (st.1 ++ [r.1], r.2).

(** The buffers, and the memory that the copies of the pointer tables write. *)
Definition RunGpuExecutable_buffers allocs
    : Result (list DeviceMemoryBase * list DeviceMemoryBase) :=
  let a := MakeAllocator allocs tupled_args (Zlength inputs) (tupled_outputs allocs) (Zlength outputs) in
  r ← foldM add_gpu_buffer ([], MkArena a 0 0) allocs;
  let '(buffers, g) := (r : list DeviceMemoryBase * GpuArena) in
  OK (buffers,
      (if tupled_args then [Memory (input_tuple_bufs_device g) (Zlength inputs * pointer_size)] else []) ++
      (if tupled_outputs allocs then [Memory (output_tuple_bufs_device g) (Zlength outputs * pointer_size)] else [])).
End gpu.
End task.

(** ** Padding *)

Definition padded (size : Z) : Z := 4096 * ((size + padding) / 4096).

Lemma land_high x : 0 <= x < 2 ^ 64 -> Z.land x (2 ^ 64 - 1 - padding) = 4096 * (x / 4096).
Proof.
  intros Hx. change (2 ^ 64 - 1 - padding) with (Z.shiftl (Z.ones 52) 12).
  replace (4096 * (x / 4096)) with (Z.shiftl (Z.shiftr x 12) 12)
    by (rewrite Z.shiftl_mul_pow2, Z.shiftr_div_pow2 by lia; change (2 ^ 12) with 4096; lia).
  apply Z.bits_inj'. intros n Hn. rewrite Z.land_spec, !Z.shiftl_spec by lia.
  destruct (decide (n < 12)) as [Hlt|Hge].
  - by rewrite (Z.testbit_neg_r _ (n - 12)), (Z.testbit_neg_r (Z.shiftr x 12)), andb_false_r by lia.
  - rewrite Z.shiftr_spec by lia. replace (n - 12 + 12) with n by lia.
    destruct (decide (n < 64)) as [Hlt|Hge'].
    + rewrite Z.ones_spec_low by lia. by rewrite andb_true_r.
    + assert (Z.testbit x n = false) as ->; [|done].
      destruct (decide (x = 0)) as [->|]; [apply Z.testbit_0_l|].
      apply Z.bits_above_log2; [lia|]. apply Z.log2_lt_pow2; [lia|].
      apply Z.lt_le_trans with (2 ^ 64); [lia|]. apply Z.pow_le_mono_r; lia.
Qed.

Lemma PaddedSize_padded size : 0 <= size <= 2 ^ 64 - 4096 -> PaddedSize size = padded size.
Proof.
  intros Hs. unfold PaddedSize, wrap, size_t_mod, padded, padding in *.
  rewrite Z.mod_small by lia. apply land_high. lia.
Qed.

Lemma padded_bounds size : 0 <= size -> size <= padded size < size + 4096.
Proof. intros. unfold padded, padding. pose proof (Z.div_mod (size + (4096 - 1)) 4096). pose proof (Z.mod_pos_bound (size + (4096 - 1)) 4096). lia. Qed.

(** A padded size below 2^64 leaves room for the addition. *)
Lemma padded_room size : 0 <= size -> padded size < 2 ^ 64 -> size <= 2 ^ 64 - 4096.
Proof.
  intros Hs Hp. pose proof (padded_bounds size Hs). unfold padded in *.
  assert (4096 * ((size + padding) / 4096) <= 2 ^ 64 - 4096); [|lia].
  generalize dependent ((size + padding) / 4096). intros q. lia.
Qed.

(** ** The pieces that a loop over the allocations takes

    [need] is the size an allocation takes from the arena, if it takes one. *)
Section layout.
Context {A S : Type} (arena_of : S -> TaskTempMemoryAllocator).
Context (f : S -> A -> Result (DeviceMemoryBase * S)) (need : A -> option Z).

Definition takes : Prop := forall s x m s', f s x = OK (m, s') ->
  match need x with
  | Some sz => m = Memory (Next sz (arena_of s)).1 sz /\ arena_of s' = (Next sz (arena_of s)).2
  | None => arena_of s' = arena_of s
  end.

Definition piece (x : A) : Z := match need x with Some sz => padded sz | None => 0 end.
Definition used (l : list A) : Z := foldr (fun x n => piece x + n) 0 l.
Definition needs_ok (l : list A) : Prop := forall x sz, x ∈ l -> need x = Some sz -> 0 <= sz.

Definition add_to (st : list DeviceMemoryBase * S) (x : A) : Result (list DeviceMemoryBase * S) :=
  r ← f st.2 x; OK (st.1 ++ [r.1], r.2).

Lemma used_cons x l : used (x :: l) = piece x + used l.
Proof. done. Qed.

Lemma piece_nonneg x : (forall sz, need x = Some sz -> 0 <= sz) -> 0 <= piece x.
Proof.
  unfold piece. destruct (need x) as [sz|]; [|lia]. intros Hn.
  pose proof (padded_bounds sz (Hn sz eq_refl)). specialize (Hn sz eq_refl). lia.
Qed.

Lemma used_nonneg l : needs_ok l -> 0 <= used l.
Proof.
  induction l as [|x l IH]; intros Hn; [done|]. rewrite used_cons.
  assert (0 <= piece x) by (apply piece_nonneg; intros; eapply Hn; [by left|done]).
  assert (0 <= used l) by (apply IH; intros y sz Hy; eapply Hn; by right). lia.
Qed.

Lemma used_app l1 l2 : used (l1 ++ l2) = used l1 + used l2.
Proof. induction l1 as [|x l1 IH]; [done|]. cbn [app]. rewrite !used_cons. lia. Qed.

Lemma used_take_S l k x : l !! k = Some x -> used (take (Datatypes.S k) l) = used (take k l) + piece x.
Proof. intros Hx. rewrite (take_S_r _ _ x) by done. rewrite used_app, used_cons. cbn. lia. Qed.

Lemma needs_ok_take l k : needs_ok l -> needs_ok (take k l).
Proof. intros Hn x sz Hx. apply Hn. by apply (subseteq_take k) in Hx. Qed.

Lemma used_take_le l k : needs_ok l -> used (take k l) <= used l.
Proof.
  intros Hn. rewrite <- (take_drop k l) at 2. rewrite used_app.
  assert (0 <= used (drop k l)); [|lia]. apply used_nonneg.
  intros x sz Hx. apply Hn. by apply (subseteq_drop k) in Hx.
Qed.

Lemma layout_run l bufs0 s bufs s' : takes -> needs_ok l ->
  0 <= position_ (arena_of s) -> position_ (arena_of s) + used l < 2 ^ 64 ->
  foldM add_to (bufs0, s) l = OK (bufs, s') ->
  exists new, bufs = bufs0 ++ new /\ length new = length l /\
    forall k x sz, l !! k = Some x -> need x = Some sz ->
      new !! k = Some (Memory (buffer_ (arena_of s) + (position_ (arena_of s) + used (take k l))) sz).
Proof.
  intros Htakes. revert bufs0 s. induction l as [|x l IH]; intros bufs0 s Hn Hp Hu Hrun.
  - injection Hrun as <- <-. exists []. by rewrite app_nil_r.
  - apply Result_bind_OK in Hrun as (st & Hadd & Hrun).
    apply Result_bind_OK in Hadd as ([m s1] & Hf & [= <-]). cbn [fst snd] in *. pose proof (Htakes _ _ _ _ Hf) as Hx.
    assert (needs_ok l) as Hnl by (intros y sz Hy; apply Hn; by right).
    pose proof (used_nonneg l Hnl) as Hul. rewrite used_cons in Hu.
    assert (0 <= piece x) as Hpx by (apply piece_nonneg; intros; eapply Hn; [by left|done]).
    assert (buffer_ (arena_of s1) = buffer_ (arena_of s) /\
            position_ (arena_of s1) = position_ (arena_of s) + piece x) as [Hb Hpos].
    { unfold piece in *. destruct (need x) as [sz|] eqn:Hneed; [|rewrite Hx; split; [done|lia]].
      destruct Hx as [_ ->]. cbn. split; [done|].
      assert (0 <= sz) by (eapply Hn; [by left|done]).
      rewrite PaddedSize_padded by (split; [done|apply padded_room; lia]).
      unfold wrap, size_t_mod. apply Z.mod_small. lia. }
    destruct (IH _ s1 Hnl ltac:(lia) ltac:(lia) Hrun) as (new & -> & Hlen & Hnew).
    exists (m :: new). rewrite <- app_assoc. split; [done|]. split; [cbn; lia|].
    intros [|k] y sz Hy Hsz; cbn in Hy.
    + injection Hy as ->. cbn. rewrite Hsz in Hx. destruct Hx as [-> _]. cbn. do 2 f_equal. lia.
    + change ((m :: new) !! Datatypes.S k) with (new !! k).
      change (take (Datatypes.S k) (x :: l)) with (x :: take k l). rewrite used_cons, (Hnew k y sz Hy Hsz), Hb, Hpos. do 2 f_equal. lia.
Qed.

(** Pieces do not overlap, and they lie in the first [used] bytes of the block. *)
Lemma layout_disjoint l s bufs s' : takes -> needs_ok l ->
  position_ (arena_of s) = 0 -> used l < 2 ^ 64 -> foldM add_to ([], s) l = OK (bufs, s') ->
  length bufs = length l /\
  (forall i x sz m, l !! i = Some x -> need x = Some sz -> bufs !! i = Some m ->
     mem_size m = sz /\
     buffer_ (arena_of s) <= opaque m /\ opaque m + mem_size m <= buffer_ (arena_of s) + used l) /\
  (forall i j x y sx sy m n, (i < j)%nat -> l !! i = Some x -> l !! j = Some y ->
     need x = Some sx -> need y = Some sy -> bufs !! i = Some m -> bufs !! j = Some n ->
     opaque m + mem_size m <= opaque n).
Proof.
  intros Htakes Hn Hp0 Hu Hrun.
  destruct (layout_run l [] s bufs s' Htakes Hn ltac:(lia) ltac:(lia) Hrun) as (new & -> & Hlen & Hnew).
  cbn. assert (forall i x sz, l !! i = Some x -> need x = Some sz ->
    used (take i l) + sz <= used (take (Datatypes.S i) l)) as Hend.
  { intros i x sz Hx Hsz. rewrite (used_take_S l i x) by done. unfold piece. rewrite Hsz.
    assert (0 <= sz) as Hsz0 by (eapply Hn; [by eapply list_elem_of_lookup_2|done]).
    pose proof (padded_bounds sz Hsz0). lia. }
  split; [done|]. split.
  - intros i x sz m Hx Hsz Hm. rewrite (Hnew i x sz Hx Hsz) in Hm. injection Hm as <-. cbn.
    pose proof (Hend i x sz Hx Hsz). pose proof (used_take_le l (Datatypes.S i) Hn).
    pose proof (used_nonneg (take i l) (needs_ok_take l i Hn)). lia.
  - intros i j x y sx sy m n Hij Hx Hy Hsx Hsy Hm Hn'.
    rewrite (Hnew i x sx Hx Hsx) in Hm. rewrite (Hnew j y sy Hy Hsy) in Hn'.
    injection Hm as <-. injection Hn' as <-. cbn. pose proof (Hend i x sx Hx Hsx) as He.
    assert (used (take (Datatypes.S i) l) <= used (take j l)); [|lia].
    replace (take (Datatypes.S i) l) with (take (Datatypes.S i) (take j l))
      by (rewrite take_take; f_equal; lia).
    apply used_take_le, needs_ok_take, Hn.
Qed.
End layout.

(** ** The temporaries of a task *)
Section temporaries.
Context {A : Type} `{BufferAllocation A} (Allocate : Z -> Z).
Implicit Types (alloc : A) (allocs : list A).

(** What an allocation takes from the arena. *)
Definition cpu_need (outputs : list DeviceMemoryBase) alloc : option Z :=
  if is_entry_computation_parameter alloc then None
  else if maybe_live_out alloc then
    if is_tuple alloc then Some (Zlength outputs * pointer_size) else None
  else if IsPreallocatedTempBuffer alloc then Some (size alloc) else None.

Definition gpu_need (inputs : list DeviceMemoryBase) (tupled_args : bool) alloc : option Z :=
  if is_thread_local alloc then None
  else if is_entry_computation_parameter alloc then
    if tupled_args && bool_decide (param_shape_index alloc = []) then Some (Zlength inputs * pointer_size)
    else None
  else if maybe_live_out alloc then
    if is_tuple alloc then Some (Zlength inputs * pointer_size) else None
  else if IsPreallocatedTempBuffer alloc then Some (size alloc) else None.

Lemma cpu_takes root_ids constants inputs outputs :
  takes id (cpu_buffer root_ids constants inputs outputs) (cpu_need outputs).
Proof.
  intros a alloc m a'. unfold cpu_buffer, cpu_need.
  destruct (is_entry_computation_parameter alloc).
  { intros Hrun. run_inv. destruct (negb _ && negb _); [done|].
    destruct (maybe_live_out alloc && _); [done|]. by simplify_eq. }
  destruct (maybe_live_out alloc).
  { destruct (is_tuple alloc); [by intros [= <- <-]|].
    destruct (_ =? -1); [done|]. intros Hrun. run_inv.
    destruct (negb _ && negb _); [done|]. by simplify_eq. }
  destruct (IsPreallocatedTempBuffer alloc); [by intros [= <- <-]|].
  destruct (is_constant alloc && _ && _); [intros Hrun; run_inv; done|].
  destruct (is_constant alloc || _); [by intros [= <- <-]|done].
Qed.

Lemma gpu_takes output_info globals inputs outputs tupled_args :
  takes arena (gpu_buffer output_info globals inputs outputs tupled_args) (gpu_need inputs tupled_args).
Proof.
  intros g alloc m g'. unfold gpu_buffer, gpu_need.
  destruct (is_thread_local alloc); [by intros [= <- <-]|].
  destruct (is_entry_computation_parameter alloc).
  { destruct (tupled_args && _); [by intros [= <- <-]|]. intros Hrun. run_inv.
    destruct (_ || _); [done|]. run_inv. destruct (negb _ && _); [done|]. by simplify_eq. }
  destruct (maybe_live_out alloc).
  { destruct (is_tuple alloc); [by intros [= <- <-]|].
    destruct (_ !! _); [|done]. destruct (_ || _); [done|]. intros Hrun. run_inv.
    destruct (negb _ && _); [done|]. by simplify_eq. }
  destruct (IsPreallocatedTempBuffer alloc); [by intros [= <- <-]|].
  destruct (is_constant alloc); [by intros [= <- <-]|done].
Qed.

(** The bytes that the constructor counts. *)
Definition temp_bytes allocs : Z :=
  foldr (fun alloc n => (if IsPreallocatedTempBuffer alloc then padded (size alloc) else 0) + n) 0 allocs.

Definition counted allocs (tupled_args : bool) (num_args : Z) (tupled_outputs : bool) (num_outputs : Z) : Z :=
  (if tupled_args then padded (num_args * pointer_size) else 0) +
  (if tupled_outputs then padded (num_outputs * pointer_size) else 0) + temp_bytes allocs.

Definition sizes_ok allocs : Prop := forall alloc, alloc ∈ allocs -> 0 <= size alloc.

Lemma temp_bytes_nonneg allocs : sizes_ok allocs -> 0 <= temp_bytes allocs.
Proof.
  induction allocs as [|alloc allocs IH]; intros Hs; cbn; [done|]. fold (temp_bytes allocs).
  assert (0 <= temp_bytes allocs) by (apply IH; intros ? ?; apply Hs; by right).
  pose proof (padded_bounds (size alloc) (Hs alloc ltac:(left))). pose proof (Hs alloc ltac:(left)).
  destruct (IsPreallocatedTempBuffer alloc); lia.
Qed.

(** As long as the sum is below 2^64 the constructor computes it. *)
Lemma total_size_counted allocs tupled_args n tupled_outputs m :
  sizes_ok allocs -> 0 <= n -> 0 <= m -> counted allocs tupled_args n tupled_outputs m < 2 ^ 64 ->
  total_size allocs tupled_args n tupled_outputs m = counted allocs tupled_args n tupled_outputs m.
Proof.
  intros Hs Hn Hm. unfold counted, total_size, pointer_size.
  pose proof (padded_bounds (n * 8) ltac:(lia)). pose proof (padded_bounds (m * 8) ltac:(lia)).
  pose proof (temp_bytes_nonneg allocs Hs) as Ht. intros Hc.
  assert (forall total, 0 <= total -> total + temp_bytes allocs < 2 ^ 64 ->
    foldl (fun total alloc => if IsPreallocatedTempBuffer alloc
             then wrap (total + PaddedSize (size alloc)) else total) total allocs =
    total + temp_bytes allocs) as Hfold.
  { clear -Hs. induction allocs as [|alloc allocs IH]; intros total Htot Hlt; cbn in *; [lia|].
    fold (temp_bytes allocs) in *.
    assert (sizes_ok allocs) as Hs' by (intros ? ?; apply Hs; by right).
    pose proof (temp_bytes_nonneg allocs Hs'). pose proof (Hs alloc ltac:(left)) as Ha.
    pose proof (padded_bounds _ Ha). destruct (IsPreallocatedTempBuffer alloc); [|rewrite IH by (done || lia); lia].
    rewrite PaddedSize_padded by (split; [done|apply padded_room; lia]).
    unfold wrap, size_t_mod. rewrite Z.mod_small, IH by (done || lia). lia. }
  assert (forall k, 0 <= k -> padded k < 2 ^ 64 -> PaddedSize k = padded k) as Hpad
    by (intros k Hk Hk'; apply PaddedSize_padded; split; [done|by apply padded_room]).
  unfold wrap, size_t_mod.
  destruct tupled_args, tupled_outputs; rewrite ?Hpad, ?Z.add_0_l, ?(Z.mod_small (padded _)) by lia;
    rewrite ?(Z.mod_small (_ + _)) by lia; rewrite Hfold; lia.
Qed.

(** What a run of the CPU takes is what the constructor counted, when an executable
    has a buffer for its tuple of outputs only if its root is a tuple, and then one. *)
Definition tuple_buffers allocs : nat :=
  length (filter (fun alloc => is_entry_computation_parameter alloc = false /\
                               maybe_live_out alloc = true /\ is_tuple alloc = true) allocs).

Lemma cpu_used outputs allocs : sizes_ok allocs ->
  used (cpu_need outputs) allocs <=
    Z.of_nat (tuple_buffers allocs) * padded (Zlength outputs * pointer_size) + temp_bytes allocs.
Proof.
  intros Hs. induction allocs as [|alloc allocs IH]; [done|].
  specialize (IH ltac:(intros ? ?; apply Hs; by right)). pose proof (Hs alloc ltac:(left)) as Ha.
  rewrite used_cons. unfold tuple_buffers in *. cbn [temp_bytes foldr]. fold (temp_bytes allocs).
  rewrite filter_cons. pose proof (padded_bounds _ Ha).
  set (P := padded (Zlength outputs * pointer_size)) in *.
  unfold piece, cpu_need at 1. destruct (is_entry_computation_parameter alloc).
  { rewrite decide_False by naive_solver. destruct (IsPreallocatedTempBuffer alloc); lia. }
  destruct (maybe_live_out alloc).
  { destruct (is_tuple alloc).
    - rewrite decide_True by done. cbn [length]. subst P. destruct (IsPreallocatedTempBuffer alloc); lia.
    - rewrite decide_False by naive_solver. destruct (IsPreallocatedTempBuffer alloc); lia. }
  rewrite decide_False by naive_solver. destruct (IsPreallocatedTempBuffer alloc); lia.
Qed.

(** The buffers that a CPU run takes from its block do not overlap and lie inside the
    block, as long as the block is smaller than 2^64 bytes. *)
Theorem cpu_temporaries_disjoint root_ids root_is_tuple constants inputs outputs allocs buffers :
  let total := counted allocs false (Zlength inputs) root_is_tuple (Zlength outputs) in
  sizes_ok allocs -> total < 2 ^ 64 -> (tuple_buffers allocs <= Nat.b2n root_is_tuple)%nat ->
  RunCpuExecutable_buffers Allocate root_ids root_is_tuple constants inputs outputs false allocs = OK buffers ->
  length buffers = length allocs /\
  (forall i alloc sz m, allocs !! i = Some alloc -> cpu_need outputs alloc = Some sz ->
     buffers !! i = Some m ->
     mem_size m = sz /\ Allocate total <= opaque m /\ opaque m + mem_size m <= Allocate total + total) /\
  (forall i j x y sx sy m n, i <> j -> allocs !! i = Some x -> allocs !! j = Some y ->
     cpu_need outputs x = Some sx -> cpu_need outputs y = Some sy ->
     buffers !! i = Some m -> buffers !! j = Some n ->
     opaque m + mem_size m <= opaque n \/ opaque n + mem_size n <= opaque m).
Proof.
  intros total Hs Htotal Hone Hrun. unfold RunCpuExecutable_buffers in Hrun.
  apply Result_bind_OK in Hrun as ([bufs a'] & Hrun & [= ->]).
  set (a := MakeAllocator _ _ _ _ _ _) in Hrun.
  assert (buffer_ a = Allocate total) as Hbase.
  { unfold a, MakeAllocator. cbn. f_equal. apply total_size_counted; [done|apply Zlength_nonneg..|done]. }
  assert (used (cpu_need outputs) allocs <= total) as Hused.
  { pose proof (cpu_used outputs allocs Hs). unfold total, counted.
    pose proof (Zlength_nonneg outputs) as Hlen.
    pose proof (padded_bounds (Zlength outputs * pointer_size) ltac:(unfold pointer_size; lia)).
    unfold pointer_size in *. destruct root_is_tuple; cbn in Hone; nia. }
  assert (needs_ok (cpu_need outputs) allocs) as Hneeds.
  { intros alloc sz Hin. unfold cpu_need. pose proof (Zlength_nonneg outputs). unfold pointer_size.
    repeat case_match; intros [= <-]; [lia|by apply Hs]. }
  destruct (layout_disjoint id (cpu_buffer root_ids constants inputs outputs) (cpu_need outputs)
    allocs a buffers a') as (Hlen & Hin & Hdis); [apply cpu_takes|done|done|cbn; lia|exact Hrun|].
  cbn [id] in *. rewrite Hbase in Hin. split; [done|]. split.
  - intros i alloc sz m Hi Hn Hm. destruct (Hin i alloc sz m Hi Hn Hm) as (? & ? & ?). split_and!; lia.
  - intros i j x y sx sy m n Hij Hx Hy Hsx Hsy Hm Hn. destruct (decide (i < j)%nat) as [Hlt|Hge].
    + left. by apply (Hdis i j x y sx sy).
    + right. apply (Hdis j i y x sy sx n m); try done. lia.
Qed.
End temporaries.

(** ** Examples *)
Module TaskMemorySample.
Inductive kind := Input (n : Z) | Output | OutputTuple | Temp.
Record alloc := Alloc { a_kind : kind; a_size : Z; a_index : Z }.
#[global] Instance api : BufferAllocation alloc := {
  is_entry_computation_parameter a := match a_kind a with Input _ => true | _ => false end;
  parameter_number a := match a_kind a with Input n => n | _ => 0 end;
  param_shape_index a := [];
  maybe_live_out a := match a_kind a with Output | OutputTuple => true | _ => false end;
  is_tuple a := match a_kind a with OutputTuple => true | _ => false end;
  IsPreallocatedTempBuffer a := match a_kind a with Temp => true | _ => false end;
  is_constant _ := false;
  is_thread_local _ := false;
  index := a_index;
  size := a_size;
  assigned_positions a := match a_kind a with Output => [a_index a] | _ => [] end;
}.
(** One input, one output in a tuple, and two temporaries. *)
Definition allocs : list alloc :=
  [Alloc (Input 0) 16 0; Alloc OutputTuple 8 1; Alloc Output 32 2; Alloc Temp 5000 3; Alloc Temp 64 4].
Definition base : Z -> Z := fun _ => 2 ^ 20.
End TaskMemorySample.

Lemma cpu_temporaries_disjoint_witness :
  let buffers := [Memory 100 16; Memory (2 ^ 20) 8; Memory 200 32;
                  Memory (2 ^ 20 + 4096) 5000; Memory (2 ^ 20 + 12288) 64] in
  RunCpuExecutable_buffers TaskMemorySample.base [2] true [] [Memory 100 16] [Memory 200 32] false
    TaskMemorySample.allocs = OK buffers /\
  forall i j x y sx sy m n, i <> j ->
    TaskMemorySample.allocs !! i = Some x -> TaskMemorySample.allocs !! j = Some y ->
    cpu_need [Memory 200 32] x = Some sx -> cpu_need [Memory 200 32] y = Some sy ->
    buffers !! i = Some m -> buffers !! j = Some n ->
    opaque m + mem_size m <= opaque n \/ opaque n + mem_size n <= opaque m.
Proof.
  split; [reflexivity|].
  refine (proj2 (proj2 (cpu_temporaries_disjoint TaskMemorySample.base [2] true [] [Memory 100 16]
    [Memory 200 32] TaskMemorySample.allocs _ _ _ _ _))).
  - intros a Ha. repeat (apply elem_of_cons in Ha as [->|Ha]; [cbn; lia|]). by apply elem_of_nil in Ha.
  - reflexivity.
  - vm_compute. lia.
  - reflexivity.
Defined.

(** The table of outputs of a GPU run is taken with the size of the table of inputs:
    without inputs it shares its address with the next temporary, and the copy of the
    output pointers overwrites that temporary; with more than 512 inputs the last
    temporary lies behind the end of the block. *)
Theorem gpu_output_table_misplaced :
  let run inputs allocs :=
    RunGpuExecutable_buffers TaskMemorySample.base [([0], 2)] ∅ inputs [Memory 200 32] false allocs in
  run [] [TaskMemorySample.Alloc TaskMemorySample.OutputTuple 8 1;
          TaskMemorySample.Alloc TaskMemorySample.Temp 64 3] =
    OK ([Memory (2 ^ 20) 0; Memory (2 ^ 20) 64], [Memory (2 ^ 20) 8]) /\
  let inputs := replicate 513 (Memory 100 16) in
  let allocs := [TaskMemorySample.Alloc TaskMemorySample.OutputTuple 8 1;
                 TaskMemorySample.Alloc TaskMemorySample.Temp 64 3] in
  exists buffers writes, run inputs allocs = OK (buffers, writes) /\
    buffers !! 1%nat = Some (Memory (2 ^ 20 + 8192) 64) /\
    total_size allocs false (Zlength inputs) true 1 = 8192.
Proof.
  split; [reflexivity|]. intros inputs allocs. do 2 eexists. split; [vm_compute; reflexivity|].
  split; reflexivity.
Qed.

(** ** Aliases of outputs (MultiMeshXla)

    [alias_config] lists, in the order of [ForEachAliasWithStatus], the index of the
    output, the number of the parameter and the index in it. *)
Section aliases.
(** The number of elements of the one parameter, when it is a tuple. *)
Context (num_parameters : Z) (tuple_parameter : option Z).

(** [TupledArgs] *)
Definition TupledArgs : bool :=
  (num_parameters =? 1) && bool_decide (is_Some tuple_parameter).

Definition number_of_parameters : Z :=
  match tuple_parameter with
  | Some elements => if TupledArgs then elements else num_parameters
  | None => num_parameters
  end.

Definition root_index (output_index : list Z) : Z := match output_index with [] => 0 | i :: _ => i end.

Definition setup_alias (m : gmap Z Z) (alias : list Z * Z * list Z) : Result (gmap Z Z) :=
  let '(output_index, parameter_number, parameter_index) := alias in
  if TupledArgs then
    if negb (parameter_number =? 0) then Err kInvalidArgument "Unexpected parameter number"
    else match parameter_index with
         | [] => OK m
         | i :: _ =>
             if number_of_parameters <=? i then Err kInvalidArgument "Unexpected parameter index"
             else OK (<[root_index output_index := i]> m)
         end
  else if number_of_parameters <=? parameter_number then
    Err kInvalidArgument "parameter number exceeds no. of parameters"
  else OK (<[root_index output_index := parameter_number]> m).

Definition SetupOutputInputAlias (alias_config : list (list Z * Z * list Z)) : Result (gmap Z Z) :=
  foldM setup_alias ∅ alias_config.

Definition OutputAlias (output_input_alias_ : gmap Z Z) (i : Z) : option Z := output_input_alias_ !! i.

(** The aliases of an executable: those of the configuration, each with a parameter of
    the executable; an output has an alias when the configuration has one for it. *)
Theorem SetupOutputInputAlias_sound alias_config m : TupledArgs = false ->
  SetupOutputInputAlias alias_config = OK m ->
  (forall i p, OutputAlias m i = Some p -> p < num_parameters /\
     exists o q, (o, p, q) ∈ alias_config /\ root_index o = i) /\
  (forall o p q, (o, p, q) ∈ alias_config -> is_Some (OutputAlias m (root_index o))).
Proof.
  intros Ht Hrun.
  assert (number_of_parameters = num_parameters) as Hnum.
  { unfold number_of_parameters. rewrite Ht. by destruct tuple_parameter. }
  refine (foldM_inv (fun done m =>
    (forall i p, OutputAlias m i = Some p -> p < num_parameters /\
       exists o q, (o, p, q) ∈ done /\ root_index o = i) /\
    (forall o p q, (o, p, q) ∈ done -> is_Some (OutputAlias m (root_index o))))
    setup_alias ∅ alias_config m _ _ Hrun).
  - split; [intros i p; unfold OutputAlias; by rewrite lookup_empty|set_solver].
  - intros done [[o p] q] rest st st' _ [H1 H2]. unfold setup_alias. rewrite Ht, Hnum.
    destruct (num_parameters <=? p) eqn:Hp; [done|]. intros [= <-]. unfold OutputAlias in *. split.
    + intros i p'. rewrite lookup_insert. case_decide as Hi.
      * intros [= <-]. split; [lia|]. exists o, q. split; [set_solver|done].
      * intros (Hlt & o' & q' & Hin & Ho)%H1. split; [done|]. exists o', q'. split; [set_solver|done].
    + intros o' p' q' [Hin|Hin]%elem_of_app; rewrite lookup_insert; (case_decide; [done|]); [by eapply H2|].
      apply list_elem_of_singleton in Hin. congruence.
Qed.
End aliases.

Lemma SetupOutputInputAlias_sound_witness :
  exists m, SetupOutputInputAlias 2 None [([0], 1, []); ([], 0, [])] = OK m /\ OutputAlias m 0 = Some 0 /\
    forall o p q, (o, p, q) ∈ [([0], 1, []); ([], 0, [] : list Z)] -> is_Some (OutputAlias m (root_index o)).
Proof.
  eexists. split; [reflexivity|]. split; [reflexivity|].
  refine (proj2 (SetupOutputInputAlias_sound 2 None [([0], 1, []); ([], 0, [])] _ eq_refl _)).
  reflexivity.
Defined.
