(* ===== verification/CompilerLatch.v ===== *)
(** * Waiting for a compilation (class MultiMeshCompiler of mm_computation.h/.cc)

    One thread compiles a module ([Compile]), others call [MakeExecutable], which blocks
    on a condition variable until the compilation has finished ([Block]).  Every access
    to the mutex, the flag or the condition variable is a step of its own.  [compile_ok]
    is the status of the compilation; on an error the process is aborted. *)
From S2P Require Import Prelude.
Local Open Scope nat_scope.

(** Where a thread is in [Compile]: before the statement named. *)
Inductive pc :=
  | Compiling        (* status = computation_->Compile(...) *)
  | CompileLock      (* lock_guard lock(mutex_) *)
  | CompileSet       (* compilation_finished_ = true *)
  | CompileUnlock    (* the end of the guarded block *)
  | CompileStatus    (* if (!status.ok()) *)
  | CompileNotify    (* condition_.notify_all() *)
  | CompileDone
  (* and in [Block] *)
  | BlockTest                      (* if (!compilation_finished_) *)
  | BlockLock                      (* unique_lock lock(mutex_) *)
  | BlockPredicate (timed_out : bool)   (* the predicate of wait_for, after a timeout or not *)
  | BlockWait                      (* asleep in wait_for *)
  | BlockWake (timed_out : bool)   (* awake, before the mutex is taken again *)
  | BlockUnlock                    (* the end of the unique_lock *)
  | Returned.

#[export] Instance pc_eq_dec : EqDecision pc.
Proof. solve_decision. Defined.

(** The mutex is held by a thread, or by none. *)
Record state := MkState {
  mutex_ : option nat;
  compilation_finished_ : bool;
  aborted : bool;
  threads : list pc;
}.

Definition move (t : nat) (p : pc) (s : state) : state :=
  MkState (mutex_ s) (compilation_finished_ s) (aborted s) (<[t := p]> (threads s)).
Definition with_mutex (m : option nat) (s : state) : state :=
  MkState m (compilation_finished_ s) (aborted s) (threads s).
Definition finish (s : state) : state := MkState (mutex_ s) true (aborted s) (threads s).
Definition abort (s : state) : state :=
  MkState (mutex_ s) (compilation_finished_ s) true (threads s).
(** [notify_all] wakes all threads that are asleep. *)
Definition notify_all (s : state) : state :=
  MkState (mutex_ s) (compilation_finished_ s) (aborted s)
    ((fun p => match p with BlockWait => BlockWake false | _ => p end) <$> threads s).

Section latch.
Context (compile_ok : bool).
Implicit Types (s : state) (t n : nat) (p : pc).

Definition at_ s t p : Prop := aborted s = false /\ threads s !! t = Some p.

Inductive step : state -> state -> Prop :=
  (* Compile *)
  | step_compile t s : at_ s t Compiling -> step s (move t CompileLock s)
  | step_compile_lock t s :
      at_ s t CompileLock -> mutex_ s = None -> step s (move t CompileSet (with_mutex (Some t) s))
  | step_compile_set t s : at_ s t CompileSet -> step s (move t CompileUnlock (finish s))
  | step_compile_unlock t s : at_ s t CompileUnlock -> step s (move t CompileStatus (with_mutex None s))
  | step_compile_status t s :
      at_ s t CompileStatus -> step s (if compile_ok then move t CompileNotify s else abort s)
  | step_compile_notify t s : at_ s t CompileNotify -> step s (move t CompileDone (notify_all s))
  (* Block *)
  | step_block_test t s :
      at_ s t BlockTest ->
      step s (move t (if compilation_finished_ s then Returned else BlockLock) s)
  | step_block_lock t s :
      at_ s t BlockLock -> mutex_ s = None ->
      step s (move t (BlockPredicate false) (with_mutex (Some t) s))
  | step_block_ready timed_out t s :
      at_ s t (BlockPredicate timed_out) -> compilation_finished_ s = true ->
      step s (move t BlockUnlock s)
  | step_block_sleep t s :
      at_ s t (BlockPredicate false) -> compilation_finished_ s = false ->
      step s (move t BlockWait (with_mutex None s))
  | step_block_again t s :   (* the body of the loop logs, and waits again *)
      at_ s t (BlockPredicate true) -> compilation_finished_ s = false ->
      step s (move t (BlockPredicate false) s)
  | step_block_wake timed_out t s :   (* a timeout, or a spurious wake-up *)
      at_ s t BlockWait -> step s (move t (BlockWake timed_out) s)
  | step_block_relock timed_out t s :
      at_ s t (BlockWake timed_out) -> mutex_ s = None ->
      step s (move t (BlockPredicate timed_out) (with_mutex (Some t) s))
  | step_block_unlock t s : at_ s t BlockUnlock -> step s (move t Returned (with_mutex None s)).

(** The first thread compiles, [n] others call [Block]. *)
Definition initial n : state := MkState None false false (Compiling :: replicate n BlockTest).
Definition reachable n s : Prop := rtc step (initial n) s.

(** ** The invariant *)

Definition holds (p : pc) : bool :=
  match p with CompileSet | CompileUnlock | BlockPredicate _ | BlockUnlock => true | _ => false end.

(** What the position of a thread says about the flag. *)
Definition pc_ok (finished : bool) (p : pc) : Prop :=
  match p with
  | Compiling | CompileLock | CompileSet => finished = false
  | CompileUnlock | CompileStatus | CompileNotify | CompileDone | BlockUnlock | Returned =>
      finished = true
  | _ => True
  end.

Definition compiles (p : pc) : bool :=
  match p with
  | Compiling | CompileLock | CompileSet | CompileUnlock | CompileStatus | CompileNotify | CompileDone => true
  | _ => false
  end.

Record latch_ok s : Prop := {
  ok_mutex : forall t p, threads s !! t = Some p -> holds p = true <-> mutex_ s = Some t;
  ok_holder : forall t, mutex_ s = Some t -> is_Some (threads s !! t);
  ok_pc : forall t p, threads s !! t = Some p -> pc_ok (compilation_finished_ s) p;
  ok_one : forall t p, threads s !! t = Some p -> compiles p = true <-> t = 0;
  ok_first : is_Some (threads s !! 0);
}.

Lemma move_lookup t p s u : threads (move t p s) !! u =
  if decide (u = t) then (if decide (t < length (threads s)) then Some p else None) else threads s !! u.
Proof.
  cbn. case_decide as Hu; [subst|by rewrite list_lookup_insert_ne].
  case_decide; [by rewrite list_lookup_insert_eq|]. apply lookup_ge_None_2. rewrite length_insert. lia.
Qed.

(** How the mutex may change hands when a thread moves from [p] to [p']. *)
Definition mutex_change t (p p' : pc) (m m' : option nat) : Prop :=
  (m' = m /\ holds p' = holds p) \/
  (m = None /\ m' = Some t /\ holds p' = true) \/
  (holds p = true /\ m' = None /\ holds p' = false).

Lemma latch_move t p p' m' finished' s ab :
  latch_ok s -> threads s !! t = Some p -> compiles p' = compiles p ->
  mutex_change t p p' (mutex_ s) m' ->
  (finished' = compilation_finished_ s \/ p = CompileSet /\ finished' = true) -> pc_ok finished' p' ->
  latch_ok (MkState m' finished' ab (<[t := p']> (threads s))).
Proof.
  intros [H1 H2 H3 H4 H5] Ht Hc Hm Hf Hp.
  assert (forall u, (<[t := p']> (threads s)) !! u = if decide (u = t) then Some p' else threads s !! u)
    as Hlook.
  { intros u. case_decide as Hu; [subst|by apply list_lookup_insert_ne].
    apply list_lookup_insert_eq. by eapply lookup_lt_Some. }
  split; cbn.
  - intros u q. rewrite Hlook. case_decide as Hu.
    + subst u. intros [= <-]. pose proof (H1 t p Ht) as Hpt.
      destruct Hm as [(-> & ->)|[(Hnone & -> & ->)|(Hh & -> & ->)]]; [done|naive_solver|naive_solver].
    + intros Hq. rewrite (H1 u q Hq). pose proof (H1 t p Ht) as Hpt.
      destruct Hm as [(-> & _)|[(-> & -> & _)|(Hh & -> & _)]]; naive_solver congruence.
  - intros u Hu. rewrite Hlook. case_decide; [done|].
    destruct Hm as [(Hm & _)|[(_ & Hm & _)|(_ & Hm & _)]]; [apply H2|..]; congruence.
  - intros u q. rewrite Hlook. case_decide as Hu; [by intros [= <-]|]. intros Hq.
    destruct Hf as [->|(-> & ->)]; [by eapply H3|].
    assert (compiles q = false) as Hcq.
    { destruct (compiles q) eqn:E; [|done]. apply (H4 u q Hq) in E.
      assert (t = 0) by (apply (H4 t CompileSet Ht); done). congruence. }
    by destruct q.
  - intros u q. rewrite Hlook. case_decide; [|apply H4]. intros [= <-]. rewrite Hc. subst. by apply H4.
  - rewrite Hlook. by case_decide.
Qed.

Lemma latch_notify s : latch_ok s -> latch_ok (notify_all s).
Proof.
  intros [H1 H2 H3 H4 H5].
  assert (forall t p, threads (notify_all s) !! t = Some p -> exists q, threads s !! t = Some q /\
    (p = q \/ q = BlockWait /\ p = BlockWake false)) as Hlook.
  { intros t p. cbn. rewrite list_lookup_fmap. destruct (threads s !! t) as [q|]; [|done].
    cbn. intros [= <-]. exists q. destruct q; naive_solver. }
  split.
  - intros t p (q & Hq & [->|(-> & ->)])%Hlook; [by apply H1|]. by rewrite <- (H1 t BlockWait Hq).
  - intros t (p & Hp)%H2. cbn. rewrite list_lookup_fmap, Hp. eauto.
  - intros t p (q & Hq & [->|(-> & ->)])%Hlook; [by apply (H3 t)|done].
  - intros t p (q & Hq & [->|(-> & ->)])%Hlook; [by apply (H4 t)|]. by rewrite <- (H4 t BlockWait Hq).
  - cbn. rewrite list_lookup_fmap. destruct H5 as [p ->]. eauto.
Qed.

Lemma latch_ok_step s s' : step s s' -> latch_ok s -> latch_ok s'.
Proof.
  intros Hstep Hok. destruct Hstep;
    (match goal with H : at_ _ _ _ |- _ => destruct H as [? Ht]; pose proof (ok_pc _ Hok _ _ Ht) as Hpc end);
    try (refine (latch_move _ _ _ _ _ s _ Hok Ht _ _ _ _); [done| |by left|done];
         unfold mutex_change; naive_solver).
  - refine (latch_move _ _ _ _ _ s _ Hok Ht _ _ _ _); [done|by left|by right|done].
  - destruct compile_ok; [|by destruct Hok].
    refine (latch_move _ _ _ _ _ s _ Hok Ht _ _ _ _); [done|by left|by left|done].
  - refine (latch_move t CompileNotify _ _ _ (notify_all s) _ (latch_notify s Hok) _ _ _ _ _);
      [|done|by left|by left|done].
    cbn. by rewrite list_lookup_fmap, Ht.
  - refine (latch_move _ _ _ _ _ s _ Hok Ht _ _ _ _); [|by left; destruct (compilation_finished_ s)|by left|];
      by destruct (compilation_finished_ s).
Qed.

Lemma latch_ok_reachable n s : reachable n s -> latch_ok s.
Proof.
  intros Hr. assert (latch_ok (initial n)) as Hi.
  { assert (forall t p, threads (initial n) !! t = Some p -> t = 0 /\ p = Compiling \/ t <> 0 /\ p = BlockTest)
      as Hlook.
    { intros [|t] p; cbn; [intros [= <-]; by left|]. intros [-> _]%lookup_replicate. by right. }
    split; cbn.
    - by intros t p [(-> & ->)|(Ht & ->)]%Hlook.
    - done.
    - by intros t p [(-> & ->)|(Ht & ->)]%Hlook.
    - by intros t p [(-> & ->)|(Ht & ->)]%Hlook.
    - eauto. }
  revert Hi. unfold reachable in Hr. induction Hr; eauto using latch_ok_step.
Qed.

(** ** Progress *)

(** What a thread still has to do once the compilation has finished. *)
Definition todo (p : pc) : nat :=
  match p with
  | CompileDone | Returned => 0
  | CompileNotify | BlockUnlock => 1
  | CompileStatus | BlockPredicate _ => 2
  | CompileUnlock | BlockLock | BlockWake _ => 3
  | CompileSet | BlockTest | BlockWait => 4
  | CompileLock => 5
  | Compiling => 6
  end.
Definition total s : nat := (if aborted s then 0 else 1) + sum_list_with todo (threads s).

Lemma sum_insert (l : list pc) t p q :
  l !! t = Some p -> sum_list_with todo (<[t := q]> l) + todo p = sum_list_with todo l + todo q.
Proof.
  revert t. induction l as [|x l IH]; intros [|t] Ht; [done..| |].
  - injection Ht as ->. cbn. lia.
  - specialize (IH t Ht). change (<[S t := q]> (x :: l)) with (x :: <[t := q]> l).
    cbn [sum_list_with]. lia.
Qed.

Lemma sum_notify (l : list pc) :
  sum_list_with todo ((fun p => match p with BlockWait => BlockWake false | _ => p end) <$> l) <=
  sum_list_with todo l.
Proof. induction l as [|x l IH]; cbn; [done|]. destruct x; cbn; lia. Qed.

Lemma total_decreases s s' :
  latch_ok s -> compilation_finished_ s = true -> step s s' -> total s' < total s /\ compilation_finished_ s' = true.
Proof.
  intros Hok Hf Hstep. destruct Hstep;
    (match goal with H : at_ _ _ _ |- _ => destruct H as [Hab Ht]; pose proof (ok_pc _ Hok _ _ Ht) as Hpc end);
    cbn in Hpc; try congruence; unfold total; cbn; rewrite ?Hab, ?Hf.
  all: try (match goal with Hu : threads ?st !! ?u = Some _ |- context [<[?u := ?q]> (threads ?st)] =>
    pose proof (sum_insert (threads st) u _ q Hu) as Hsum; cbn in Hsum end; split; [lia|done]).
  - destruct compile_ok; cbn; rewrite ?Hab; [|split; [lia|done]].
    pose proof (sum_insert (threads s) t _ CompileNotify Ht) as Hsum. cbn in Hsum. split; [lia|done].
  - set (l := _ <$> threads s) in *.
    assert (l !! t = Some CompileNotify) as Hl by (subst l; by rewrite list_lookup_fmap, Ht).
    pose proof (sum_insert l t _ CompileDone Hl) as Hsum. cbn in Hsum.
    pose proof (sum_notify (threads s)) as Hle. fold l in Hle. split; [lia|done].
Qed.

(** Whoever holds the mutex, or anybody who has not returned when it is free, can move. *)
Lemma no_deadlock s t p : latch_ok s -> aborted s = false -> threads s !! t = Some p -> todo p <> 0 ->
  exists s', step s s'.
Proof.
  intros Hok Hab Ht Hp.
  assert (exists u q, threads s !! u = Some q /\ todo q <> 0 /\ (holds q = true \/ mutex_ s = None))
    as (u & q & Hu & Hq & Hm).
  { destruct (mutex_ s) as [u|] eqn:Hm; [|by eauto 6].
    destruct (ok_holder _ Hok u Hm) as [q Hu]. exists u, q. apply (ok_mutex _ Hok u q Hu) in Hm.
    split; [done|]. split; [by destruct q|by left]. }
  assert (at_ s u q) as Ha by (split; done).
  destruct q; cbn in Hq; try done; try (destruct Hm as [|Hm]; [done|]);
    eauto using step_compile, step_compile_lock, step_compile_set, step_compile_unlock,
      step_compile_status, step_compile_notify, step_block_test, step_block_lock,
      step_block_relock, step_block_unlock.
  - destruct (compilation_finished_ s) eqn:Hf; [eexists; by eapply step_block_ready|].
    destruct timed_out; eexists; [by apply step_block_again|by apply step_block_sleep].
  - eexists. by apply (step_block_wake false).
Qed.

(** A thread whose [Block] has returned knows that the compilation has finished, and
    at most one thread is in a guarded block. *)
Theorem Block_waits_for_Compile n s : reachable n s ->
  (forall t, threads s !! t = Some Returned -> compilation_finished_ s = true) /\
  (forall t u p q, threads s !! t = Some p -> threads s !! u = Some q ->
     holds p = true -> holds q = true -> t = u).
Proof.
  intros Hok%latch_ok_reachable. split.
  - intros t Ht. apply (ok_pc _ Hok t Returned Ht).
  - intros t u p q Ht Hu Hp Hq. apply (ok_mutex _ Hok t p Ht) in Hp.
    apply (ok_mutex _ Hok u q Hu) in Hq. congruence.
Qed.

(** C35: Once the compilation has finished every schedule of the threads ends, after a number
    of steps that is bounded by what the threads have left to do, and where it ends every
    thread has returned, unless the process was aborted.  Before, some thread can move. *)
Theorem Block_returns n s : reachable n s -> aborted s = false ->
  (forall t p, threads s !! t = Some p -> p = CompileDone \/ p = Returned \/ exists s', step s s') /\
  (compilation_finished_ s = true -> forall k s', nsteps step k s s' ->
     k <= total s /\
     ((forall s2, ~ step s' s2) -> aborted s' = false ->
      forall t p, threads s' !! t = Some p -> p = CompileDone \/ p = Returned)).
Proof.
  intros Hr Hab. pose proof (latch_ok_reachable n s Hr) as Hok. split.
  - intros t p Ht. destruct (decide (todo p = 0)) as [Hp|Hp]; [destruct p; auto; done|].
    right; right. by eapply no_deadlock.
  - intros Hf k s' Hsteps.
    assert (k + total s' <= total s /\ latch_ok s') as [Hk Hok'].
    { clear -Hok Hf Hsteps. induction Hsteps as [s|k s s1 s' Hstep _ IH]; [split; [lia|done]|].
      destruct (total_decreases s s1 Hok Hf Hstep) as [Hlt Hf1].
      destruct (IH (latch_ok_step s s1 Hstep Hok) Hf1) as [Hle Hok']. split; [lia|done]. }
    split; [lia|]. intros Hstuck Hab' t p Ht.
    destruct (decide (todo p = 0)) as [Hp|Hp]; [destruct p; auto; done|].
    destruct (no_deadlock s' t p Hok' Hab' Ht Hp) as [s2 Hs2]. by destruct (Hstuck s2).
Qed.
End latch.

(** One thread waits; the compilation has set its flag. *)
Module LatchSample.
Definition waiting : state := MkState (Some 0) true false [CompileUnlock; BlockWait].
Lemma waiting_reachable : reachable true 1 waiting.
Proof.
  unfold reachable, initial. cbn.
  eapply rtc_l; [by apply (step_block_test true 1)|].
  eapply rtc_l; [by apply (step_block_lock true 1)|].
  eapply rtc_l; [by apply (step_block_sleep true 1)|].
  eapply rtc_l; [by apply (step_compile true 0)|].
  eapply rtc_l; [by apply (step_compile_lock true 0)|].
  eapply rtc_l; [by apply (step_compile_set true 0)|]. apply rtc_refl.
Qed.

(** The waiting thread has returned. *)
Definition returned : state := MkState None true false [CompileNotify; Returned].
Lemma returned_reachable : reachable true 1 returned.
Proof.
  unfold reachable. transitivity waiting; [exact waiting_reachable|].
  eapply rtc_l; [by apply (step_compile_unlock true 0)|].
  eapply rtc_l; [by apply (step_compile_status true 0)|].
  eapply rtc_l; [by apply (step_block_wake true false 1)|].
  eapply rtc_l; [by apply (step_block_relock true false 1)|].
  eapply rtc_l; [by apply (step_block_ready true false 1)|].
  eapply rtc_l; [by apply (step_block_unlock true 1)|]. apply rtc_refl.
Qed.
End LatchSample.

Lemma Block_waits_for_Compile_witness :
  threads LatchSample.returned !! 1 = Some Returned /\ compilation_finished_ LatchSample.returned = true.
Proof.
  split; [reflexivity|].
  exact (proj1 (Block_waits_for_Compile true 1 _ LatchSample.returned_reachable) 1 eq_refl).
Defined.

Lemma Block_returns_witness :
  total LatchSample.waiting = 8 /\
  forall k s', nsteps (step true) k LatchSample.waiting s' -> k <= total LatchSample.waiting.
Proof.
  split; [reflexivity|]. intros k s' Hk.
  exact (proj1 (proj2 (Block_returns true 1 _ LatchSample.waiting_reachable eq_refl) eq_refl k s' Hk)).
Defined.
