(* ===== verification/Grouper.v ===== *)
(** * Grouping instructions into tasks (mpmd_computation_grouper.cc)

    [GroupComputationIntoTasks] cuts the color-sorted order of a computation into runs
    of one color.  Each run becomes a [BuildContext], in which the instructions of the
    run, and the replicated instructions they need, are cloned into a new computation;
    operands from outside become its parameters and results needed outside its roots.
    Then every computation is called, and the uses of the roots are replaced by the
    elements of the call.

    XLA's builders and the edits of the graph are recorded: [builder_] is the list of
    instructions that the code adds to a new computation, a clone being named by its
    position; [Call]s and replacements are the edits of the parent computation.  The
    clones get the color of their context or, with axes and sharding, that of the
    instruction they are cloned from; these attributes are not recorded. *)
From S2P Require Import Prelude Hlo Instruction Utils InstructionProperties ColorDfs.
Local Open Scope Z_scope.

Fixpoint filterM {A} (f : A -> Result bool) (l : list A) : Result (list A) :=
  match l with
  | [] => OK []
  | x :: l => b ← f x; l' ← filterM f l; OK (if (b : bool) then x :: l' else l')
  end.

Section context.
Context {I : Type} `{EqDecision I, !Countable I}.

(** An instruction of a new computation; operands are positions. *)
Inductive NewInstruction :=
  | NewParameter (number : Z) (source : I)
  | NewClone (source : I) (new_operands : list nat).

(** A value of the parent computation: an instruction of it, or an element of the call
    of a context. *)
Inductive Value :=
  | Original (i : I)
  | Element (context : nat) (tuple_index : Z).

(** [call_instruction_] is the loop of a context that only stands for a loop. *)
Record BuildContext := MkContext {
  name_ : string;
  color_ : string;
  call_instruction_ : option I;
  clones_ : gmap I nat;
  builder_ : list NewInstruction;
  parameters_ : list I;
  roots_ : list I;
  producers_ : list nat;
  consumers_ : list nat;
  instruction_dfs_ : list I;
  producers_added_ : gset nat;
  consumers_added_ : gset nat;
  roots_added_ : gset I;
  instructions_added_ : gset I;
}.

Definition new_context (name : string) (color : option string) : BuildContext :=
  MkContext name (default "none" color) None ∅ [] [] [] [] [] [] ∅ ∅ ∅ ∅.
Definition loop_context (loop : I) : BuildContext :=
  MkContext "" "none" (Some loop) ∅ [] [] [] [] [] [] ∅ ∅ ∅ ∅.
End context.
Arguments NewInstruction : clear implicits.
Arguments Value : clear implicits.
Arguments BuildContext I {_ _}.

Section setters.
Context {I : Type} `{EqDecision I, !Countable I}.
Implicit Types (b : BuildContext I).

Definition with_dfs (dfs : list I) (added : gset I) b :=
  MkContext (name_ b) (color_ b) (call_instruction_ b) (clones_ b) (builder_ b) (parameters_ b)
    (roots_ b) (producers_ b) (consumers_ b) dfs (producers_added_ b) (consumers_added_ b)
    (roots_added_ b) added.
Definition with_roots (roots : list I) (added : gset I) b :=
  MkContext (name_ b) (color_ b) (call_instruction_ b) (clones_ b) (builder_ b) (parameters_ b)
    roots (producers_ b) (consumers_ b) (instruction_dfs_ b) (producers_added_ b) (consumers_added_ b)
    added (instructions_added_ b).
Definition with_clone (i : I) (n : NewInstruction I) (parameters : list I) b :=
  MkContext (name_ b) (color_ b) (call_instruction_ b) (<[i := length (builder_ b)]> (clones_ b))
    (builder_ b ++ [n]) parameters
    (roots_ b) (producers_ b) (consumers_ b) (instruction_dfs_ b) (producers_added_ b) (consumers_added_ b)
    (roots_added_ b) (instructions_added_ b).
Definition with_links (producers consumers : list nat) b :=
  MkContext (name_ b) (color_ b) (call_instruction_ b) (clones_ b) (builder_ b) (parameters_ b)
    (roots_ b) producers consumers (instruction_dfs_ b) (producers_added_ b) (consumers_added_ b)
    (roots_added_ b) (instructions_added_ b).
End setters.

Section grouper.
Context {I C St : Type} `{EqDecision I, !Countable I} `{!Hlo I C, !AttrStore I St}.
Abbreviation Context_ := (BuildContext I).
Abbreviation Entries := (gmap I (Entry I)).
Context (s : St) (es : Entries).
Implicit Types (i : I) (c : C) (b : Context_).

(** ** Kinds of instructions *)

(** [parent] is the computation of the instruction. *)
Definition IsRoot (parent : C) i : bool :=
  let root := root_instruction parent in
  if bool_decide (opcode root = kTuple) then bool_decide (root ∈ users i)
  else bool_decide (i = root).

Definition IsAliasedGetTupleElement i : Result bool :=
  o ← operand i 0;
  OK match opcode o with kOptimizationBarrier | kTuple => true | _ => false end.

Definition IsMicrobatchLoop i : bool := bool_decide (opcode i = kWhile) && has_backend_config i.

Definition IsAlwaysTaskOperand i : Result bool :=
  match opcode i with
  | kParameter => OK true
  | kGetTupleElement =>
      o ← operand i 0; OK (IsMicrobatchLoop o || bool_decide (opcode o = kParameter))
  | kCustomCall => OK (IsCustomCall i kCustomCallSliceOffset || IsCustomCall i kCustomCallDummyOperation)
  | _ => OK false
  end.

Definition ReplicateInstruction i : Result bool :=
  derived ← DerivedInput es i;
  if (derived : bool) || negb (IsAssignedColor s i) || IsCustomCall i kCustomCallArgumentRecolor
  then OK true
  else match opcode i with
       | kOptimizationBarrier | kTuple => OK true
       | kGetTupleElement => IsAliasedGetTupleElement i
       | _ => OK false
       end.

Definition IncludeDirectlyInBuilder i : Result bool :=
  r ← ReplicateInstruction i;
  if (r : bool) then OK false else a ← IsAlwaysTaskOperand i; OK (negb a).

Definition IncludeIndirectlyInBuilder i : Result bool :=
  r ← ReplicateInstruction i;
  if (r : bool) then a ← IsAlwaysTaskOperand i; OK (negb a) else OK false.

(** ** Contexts *)

Definition AddRoot (root : I) b : Result Context_ :=
  if shape_IsTuple root then Fatal LogFatal
  else if bool_decide (root ∈ roots_added_ b) then OK b
  else OK (with_roots (roots_ b ++ [root]) ({[root]} ∪ roots_added_ b) b).

(** [bs !! this] gets [context] as a consumer of [root]. *)
Definition AddConsumer (this : nat) (root : I) (context : nat) (bs : list Context_)
    : Result (list Context_) :=
  b ← of_option NullDeref (bs !! this);
  if bool_decide (this ∈ producers_added_ b) then Fatal LogFatal
  else
    b ← AddRoot root b;
    let b := if bool_decide (context ∉ consumers_added_ b)
             then with_links (producers_ b) (consumers_ b ++ [context]) b else b in
    let bs := <[this := b]> bs in
    d ← of_option NullDeref (bs !! context);
    OK (if bool_decide (this ∉ producers_added_ d)
        then <[context := with_links (producers_ d ++ [this]) (consumers_ d) d]> bs else bs).

(** *** AddReplicatedOperandDfs *)

(** The operands that are pushed: replicated ones that are not in the context yet. *)
Definition pushed (added : gset I) i : Result (list I) :=
  filterM (fun o => r ← IncludeIndirectlyInBuilder o; OK ((r : bool) && bool_decide (o ∉ added)))
    (operands i).

(** The back of [to_visit] is its head; [visited] is a table of its own. *)
Fixpoint replicated_loop (fuel : nat) (to_visit : list I) (visited : gmap I bool)
    (dfs : list I) (added : gset I) : Result (list I * gset I) :=
  match fuel with
  | O => Fatal Diverges
  | S fuel =>
      match to_visit with
      | [] => OK (dfs, added)
      | next :: rest =>
          match visited !! next with
          | None =>
              ops ← pushed added next;
              replicated_loop fuel (reverse ops ++ to_visit) (<[next := false]> visited) dfs added
          | Some true => replicated_loop fuel rest visited dfs added
          | Some false =>
              replicated_loop fuel rest (<[next := true]> visited) (dfs ++ [next]) ({[next]} ∪ added)
          end
      end
  end.

Definition AddReplicatedOperandDfs (fuel : nat) i b : Result Context_ :=
  ops ← pushed (instructions_added_ b) i;
  match ops with
  | [] => OK b
  | _ =>
      r ← replicated_loop fuel (reverse ops) ∅ (instruction_dfs_ b) (instructions_added_ b);
      OK (with_dfs (r : list I * gset I).1 r.2 b)
  end.

Definition AddInstruction (fuel : nat) i b : Result Context_ :=
  if bool_decide (i ∈ instructions_added_ b) then OK b
  else
    b ← AddReplicatedOperandDfs fuel i b;
    OK (with_dfs (instruction_dfs_ b ++ [i]) ({[i]} ∪ instructions_added_ b) b).

(** *** Build *)

(** The clone of an operand: its clone in the context, or a new parameter; the
    context [n] becomes a consumer of the context that computes the operand. *)
Definition build_operand (assignments : gmap I nat) (n : nat) (st : list nat * list Context_) (o : I)
    : Result (list nat * list Context_) :=
  let '(new_operands, bs) := st in
  b ← of_option NullDeref (bs !! n);
  match clones_ b !! o with
  | Some k => OK (new_operands ++ [k], bs)
  | None =>
      let k := length (builder_ b) in
      let param := NewParameter (Zlength (parameters_ b)) o in
      bs ← match assignments !! o with
           | Some m => AddConsumer m o n bs
           | None => OK bs
           end;
      b ← of_option NullDeref (bs !! n);
      OK (new_operands ++ [k], <[n := with_clone o param (parameters_ b ++ [o]) b]> bs)
  end.

Definition build_instruction (parent : C) (assignments : gmap I nat) (n : nat) (bs : list Context_) i
    : Result (list Context_) :=
  b ← of_option NullDeref (bs !! n);
  b ← (if IsRoot parent i then AddRoot i b else OK b);
  r ← foldM (build_operand assignments n) ([], <[n := b]> bs) (operands i);
  let '(new_operands, bs) := (r : list nat * list Context_) in
  b ← of_option NullDeref (bs !! n);
  OK (<[n := with_clone i (NewClone i new_operands) (parameters_ b) b]> bs).

Definition Build (parent : C) (assignments : gmap I nat) (n : nat) (bs : list Context_)
    : Result (list Context_) :=
  b ← of_option NullDeref (bs !! n);
  foldM (build_instruction parent assignments n) bs (instruction_dfs_ b).

(** *** Calls *)

(** The call of the computation of a context; [call_roots] are the operands of the
    root tuple. *)
Record Call := MkCall {
  call_context : nat;
  call_operands : list (Value I);
  call_roots : list nat;
}.

Definition call_operand (clone_map : gmap I (Value I)) (param : I) : Result (Value I) :=
  if bool_decide (opcode param = kParameter) then OK (Original param)
  else match clone_map !! param with
       | Some clone => OK clone
       | None => Err kInvalidArgument "has no intermediate root to use as a parameter"
       end.

Definition mapM_Result {A B} (f : A -> Result B) (l : list A) : Result (list B) :=
  foldM (fun acc x => y ← f x; OK (acc ++ [y])) [] l.

Definition clone_root (n : nat) (clone_map : gmap I (Value I)) (ir : Z * I) : gmap I (Value I) :=
  if bool_decide (is_Some (clone_map !! ir.2)) then clone_map
  else <[ir.2 := Element n ir.1]> clone_map.

Definition ReplaceWithCall (n : nat) b (clone_map : gmap I (Value I))
    : Result (option Call * gmap I (Value I)) :=
  match roots_ b with
  | [] => OK (None, clone_map)
  | _ =>
      roots ← mapM_Result (fun root =>
        match clones_ b !! root with
        | Some k => OK k
        | None => Err kInvalidArgument "root for task has not been cloned"
        end) (roots_ b);
      parameters ← mapM_Result (call_operand clone_map) (parameters_ b);
      OK (Some (MkCall n parameters roots),
          foldl (clone_root n) clone_map (zip (seqZ 0 (Zlength (roots_ b))) (roots_ b)))
  end.

Definition ReplaceRootsWithCallOutputs b (clone_map : gmap I (Value I)) : Result (list (I * Value I)) :=
  mapM_Result (fun root => v ← of_option NullDeref (clone_map !! root); OK (root, v)) (roots_ b).

(** ** GroupComputationIntoTasks *)

Record Grouping := MkGrouping {
  builders : list Context_;
  builder_assignments : gmap I nat;
  gte_root_clones : gmap I (Value I);
  last_color : option string;
  current_builder : option nat;
}.

Definition update_builder (n : nat) (f : Context_ -> Result Context_) (bs : list Context_)
    : Result (list Context_) :=
  b ← of_option NullDeref (bs !! n); b ← f b; OK (<[n := b]> bs).

(** What the loop does for the inputs of a microbatch loop. *)
Definition add_loop_input (assignments : gmap I nat) (bs : list Context_) (o : I) : Result (list Context_) :=
  match assignments !! o with Some m => update_builder m (AddRoot o) bs | None => OK bs end.

(** [in_loop]: the computation is the body of a loop. *)
Definition group_instruction (fuel : nat) (in_loop : bool) (g : Grouping) i : Result Grouping :=
  if IsCustomCall i kCustomCallRootTupleRecolor then
    o ← operand i 0;
    match builder_assignments g !! o with
    | None => Err kInvalidArgument "was not assigned to a builder"
    | Some m =>
        bs ← update_builder m (AddRoot o) (builders g);
        OK (MkGrouping bs (builder_assignments g) (gte_root_clones g) (last_color g) (current_builder g))
    end
  else if IsMicrobatchLoop i then
    let n := length (builders g) in
    o ← operand i 0;
    bs ← foldM (add_loop_input (builder_assignments g)) (builders g ++ [loop_context i]) (operands o);
    OK (MkGrouping bs
          (foldl (fun m u => <[u := n]> m) (<[i := n]> (builder_assignments g)) (users i))
          (foldl (fun m u => <[u := Original u]> m) (gte_root_clones g) (users i))
          None (current_builder g))
  else
    direct ← IncludeDirectlyInBuilder i;
    if (direct : bool) then
      match Color s i with
      | None => Err kInvalidArgument "has no color"
      | Some color =>
          let '(bs, current) :=
            if bool_decide (last_color g <> Some color)
            then (builders g ++ [new_context (if in_loop then color +:+ "_loop" else color) (Some color)],
                  Some (length (builders g)))
            else (builders g, current_builder g) in
          n ← of_option NullDeref current;
          bs ← update_builder n (AddInstruction fuel i) bs;
          OK (MkGrouping bs (<[i := n]> (builder_assignments g)) (gte_root_clones g) (Some color) current)
      end
    else OK g.

(** The grouping of one computation: its contexts and the edits. *)
Record Tasks := MkTasks {
  task_contexts : list Context_;
  task_calls : list Call;
  task_replacements : list (I * Value I);
}.

Definition always_operands (instructions : list I) : Result (list I) := filterM IsAlwaysTaskOperand instructions.

(** Building the contexts in order; [rec] groups the body of a loop. *)
Definition build_context (rec : C -> I -> Result (list (C * Tasks))) (parent : C)
    (assignments : gmap I nat)
    (st : list Context_ * gmap I (Value I) * list (C * Tasks)) (n : nat)
    : Result (list Context_ * gmap I (Value I) * list (C * Tasks)) :=
  let '(bs, clone_map, done) := st in
  b ← of_option NullDeref (bs !! n);
  match call_instruction_ b with
  | Some loop =>
      body ← called_computation loop 0;
      inner ← rec body loop;
      OK (bs, foldl (fun m u => <[u := Original u]> m) clone_map (users loop), done ++ inner)
  | None => bs ← Build parent assignments n bs; OK (bs, clone_map, done)
  end.

Definition call_step (st : list Call * gmap I (Value I)) (nb : nat * Context_)
    : Result (list Call * gmap I (Value I)) :=
  let '(calls, clone_map) := st in
  match call_instruction_ nb.2 with
  | Some _ => OK (calls, clone_map)
  | None =>
      r ← ReplaceWithCall nb.1 nb.2 clone_map;
      OK (match (r : option Call * gmap I (Value I)).1 with Some call => calls ++ [call] | None => calls end, r.2)
  end.

Definition replace_step (clone_map : gmap I (Value I)) (acc : list (I * Value I)) b
    : Result (list (I * Value I)) :=
  match call_instruction_ b with
  | Some _ => OK acc
  | None => r ← ReplaceRootsWithCallOutputs b clone_map; OK (acc ++ r)
  end.

(** [instructions c] is [computation->instructions()]; [visits] bounds the searches,
    [fuel] the nesting of loops. *)
Context (instructions : C -> list I).

Definition initial_grouping (always : list I) : Grouping :=
  MkGrouping [] ∅ (foldl (fun m i => <[i := Original i]> m) ∅ always) None None.

(** The body of the function; [rec] is the recursive call. *)
Definition GroupComputation (rec : C -> I -> Result (list (C * Tasks))) (visits : nat) c
    (parent_call : option I) : Result (list (C * Tasks)) :=
  always ← always_operands (instructions c);
  postorder ← ColorSortedPostorder visits s c;
  let in_loop := match parent_call with Some p => bool_decide (opcode p = kWhile) | None => false end in
  g ← foldM (group_instruction visits in_loop) (initial_grouping always) postorder;
  st ← foldM (build_context rec c (builder_assignments g)) (builders g, gte_root_clones g, [])
         (seq 0 (length (builders g)));
  let '(bs, clone_map, inner) := (st : list Context_ * gmap I (Value I) * list (C * Tasks)) in
  r ← foldM call_step ([], clone_map) (zip (seq 0 (length bs)) bs);
  let '(calls, clone_map) := (r : list Call * gmap I (Value I)) in
  replacements ← foldM (replace_step clone_map) [] bs;
  OK (inner ++ [(c, MkTasks bs calls replacements)]).

Fixpoint GroupComputationIntoTasks (fuel visits : nat) c (parent_call : option I)
    : Result (list (C * Tasks)) :=
  match fuel with
  | O => Fatal Diverges
  | S fuel =>
      GroupComputation (fun body loop => GroupComputationIntoTasks fuel visits body (Some loop))
        visits c parent_call
  end.
End grouper.
