(* ===== verification/GrouperSemantics.v ===== *)
(** * The tasks compute what the computation computes (mpmd_computation_grouper.cc)

    An instruction means a function of the values of its operands.  The recorded
    computations of the contexts are evaluated on their parameters, the calls one after
    the other; every value that replaces a root is the value the root had. *)
From S2P Require Import Prelude Hlo Instruction Utils InstructionProperties ColorDfs Grouper.
Local Open Scope Z_scope.

(** ** Evaluation *)
Section evaluation.
Context {I V : Type} `{EqDecision I, !Countable I} (sem : I -> list V -> V) (val : I -> V).
Implicit Types (args vals : list V) (n : NewInstruction I) (b : BuildContext I).

Definition eval_new args vals n : option V :=
  match n with
  | NewParameter number _ => args !! Z.to_nat number
  | NewClone i ops => vs ← mapM (vals !!.) ops; Some (sem i vs)
  end.

(** The values of the instructions of a new computation, in the order of the list. *)
Definition eval_log args (log : list (NewInstruction I)) : option (list V) :=
  foldl (fun acc n => vals ← acc; v ← eval_new args vals n; Some (vals ++ [v])) (Some []) log.

(** The results of the calls so far, by context. *)
Definition eval_value (results : gmap nat (list V)) (v : Value I) : option V :=
  match v with
  | Original i => Some (val i)
  | Element n k => l ← results !! n; l !! Z.to_nat k
  end.

Definition eval_call (bs : list (BuildContext I)) (results : gmap nat (list V)) (call : Call (I := I))
    : option (gmap nat (list V)) :=
  args ← mapM (eval_value results) (call_operands call);
  b ← bs !! call_context call;
  vals ← eval_log args (builder_ b);
  outs ← mapM (vals !!.) (call_roots call);
  Some (<[call_context call := outs]> results).

Definition eval_calls (bs : list (BuildContext I)) (calls : list Call) : option (gmap nat (list V)) :=
  foldl (fun acc call => results ← acc; eval_call bs results call) (Some ∅) calls.

Lemma eval_log_snoc args log n :
  eval_log args (log ++ [n]) = (vals ← eval_log args log; v ← eval_new args vals n; Some (vals ++ [v])).
Proof. unfold eval_log. by rewrite foldl_app. Qed.

Lemma eval_calls_snoc bs calls call :
  eval_calls bs (calls ++ [call]) = (results ← eval_calls bs calls; eval_call bs results call).
Proof. unfold eval_calls. by rewrite foldl_app. Qed.

(** More arguments do not change the values. *)
Lemma eval_log_more args more log vals :
  eval_log args log = Some vals -> eval_log (args ++ more) log = Some vals.
Proof.
  revert vals. induction log as [|n log IH] using rev_ind; intros vals; [done|].
  rewrite !eval_log_snoc. destruct (eval_log args log) as [vs|]; [|done]. rewrite (IH vs) by done. cbn.
  destruct n as [number i|i ops]; cbn; [|done].
  destruct (args !! Z.to_nat number) as [v|] eqn:Hv; [|done].
  by rewrite (lookup_app_l_Some _ _ _ _ Hv).
Qed.

(** ** Contexts *)

(** The clones of a context have the values of the instructions they are clones of. *)
Definition context_ok b : Prop := exists vals,
  eval_log (val <$> parameters_ b) (builder_ b) = Some vals /\ length vals = length (builder_ b) /\
  forall i k, clones_ b !! i = Some k -> vals !! k = Some (val i).

(** What the edits of roots and links leave alone. *)
Definition core b := (clones_ b, builder_ b, parameters_ b, instruction_dfs_ b, call_instruction_ b).

Lemma context_ok_core b b' : core b = core b' -> context_ok b -> context_ok b'.
Proof. unfold context_ok, core. by intros [= -> -> -> _ _]. Qed.

Lemma context_ok_empty b : clones_ b = ∅ -> builder_ b = [] -> context_ok b.
Proof.
  intros Hc Hb. exists []. rewrite Hb, Hc. split_and!; [done..|]. intros i k. by rewrite lookup_empty.
Qed.

(** Adding a clone with the value of its instruction. *)
Lemma context_ok_clone b i n more :
  context_ok b ->
  (forall vals, eval_log (val <$> parameters_ b ++ more) (builder_ b) = Some vals ->
     (forall j k, clones_ b !! j = Some k -> vals !! k = Some (val j)) ->
     eval_new (val <$> parameters_ b ++ more) vals n = Some (val i)) ->
  context_ok (with_clone i n (parameters_ b ++ more) b).
Proof.
  intros (vals & Hlog & Hlen & Hcl) Hn.
  assert (eval_log (val <$> parameters_ b ++ more) (builder_ b) = Some vals) as Hmore
    by (rewrite fmap_app; by apply eval_log_more).
  exists (vals ++ [val i]). cbn [parameters_ builder_ clones_ with_clone]. split_and!.
  - by rewrite eval_log_snoc, Hmore; cbn; rewrite (Hn vals).
  - rewrite !length_app. cbn. lia.
  - intros j k. rewrite lookup_insert. case_decide as Hj.
    + intros [= <-]. subst j. by apply list_lookup_middle.
    + intros Hk. apply lookup_app_l_Some. by apply Hcl.
Qed.

Lemma context_ok_parameter b o :
  context_ok b ->
  context_ok (with_clone o (NewParameter (Zlength (parameters_ b)) o) (parameters_ b ++ [o]) b).
Proof.
  intros Hok. apply context_ok_clone; [done|]. intros vals _ _. cbn. unfold Zlength.
  rewrite Nat2Z.id, fmap_app. apply list_lookup_middle. by rewrite length_fmap.
Qed.

Lemma context_ok_instruction b i new_operands ops :
  context_ok b -> Forall2 (fun k o => clones_ b !! o = Some k) new_operands ops ->
  val i = sem i (val <$> ops) ->
  context_ok (with_clone i (NewClone i new_operands) (parameters_ b) b).
Proof.
  intros Hok Hops Hi. rewrite <- (app_nil_r (parameters_ b)). apply context_ok_clone; [done|].
  intros vals _ Hcl. cbn. assert (mapM (vals !!.) new_operands = Some (val <$> ops)) as ->.
  { apply mapM_Some. clear -Hops Hcl. induction Hops as [|k o ks os Hk _ IH]; constructor; [|done].
    by apply Hcl. }
  cbn. by rewrite <- Hi.
Qed.
End evaluation.

(** ** Building the contexts *)
Section build.
Context {I C St V : Type} `{EqDecision I, !Countable I} `{!Hlo I C, !AttrStore I St}.
Context (s : St) (es : gmap I (Entry I)) (sem : I -> list V -> V) (val : I -> V).
Implicit Types (i o : I) (c : C) (b : BuildContext I) (bs : list (BuildContext I)).

Abbreviation ok := (context_ok sem val).

(** What a context keeps while it is built. *)
Definition frame bs := (fun b => (instruction_dfs_ b, call_instruction_ b)) <$> bs.

Lemma fmap_insert_same {X Y} (f : X -> Y) (l : list X) n x y :
  l !! n = Some x -> f y = f x -> f <$> <[n := y]> l = f <$> l.
Proof.
  intros Hx Hf. rewrite list_fmap_insert. apply list_insert_id. by rewrite list_lookup_fmap, Hx, Hf.
Qed.

Lemma cores_frame bs bs' : core <$> bs' = core <$> bs -> frame bs' = frame bs.
Proof.
  intros Hc. apply (f_equal (fmap (fun q => (q.1.2, q.2)))) in Hc. by rewrite <- !list_fmap_compose in Hc.
Qed.

Lemma cores_ok bs bs' : core <$> bs' = core <$> bs -> Forall ok bs -> Forall ok bs'.
Proof.
  intros Hc Hok. apply Forall_lookup. intros n b' Hb'.
  assert ((core <$> bs) !! n = Some (core b')) as Hl by (by rewrite <- Hc, list_lookup_fmap, Hb').
  rewrite list_lookup_fmap in Hl. apply fmap_Some in Hl as (b & Hb & Heq).
  apply (context_ok_core sem val b); [done|]. by eapply Forall_lookup_1.
Qed.

Lemma AddRoot_core root b b' : AddRoot root b = OK b' -> core b' = core b.
Proof.
  unfold AddRoot. destruct (shape_IsTuple root); [done|]. case_bool_decide; by intros [= <-].
Qed.

Lemma AddConsumer_cores this root n bs bs' :
  AddConsumer this root n bs = OK bs' -> core <$> bs' = core <$> bs.
Proof.
  unfold AddConsumer. destruct (bs !! this) as [b|] eqn:Hb; [|done]. cbn.
  case_bool_decide; [done|]. intros (b' & Hroot & Hrun)%Result_bind_OK.
  apply AddRoot_core in Hroot.
  set (b1 := if bool_decide _ then _ else _) in Hrun.
  assert (core b1 = core b) as Hb1 by (subst b1; by case_bool_decide).
  assert (core <$> <[this := b1]> bs = core <$> bs) as Hbs by (by eapply fmap_insert_same).
  destruct (<[this := b1]> bs !! n) as [d|] eqn:Hd; [|done]. cbn in Hrun. injection Hrun as <-.
  case_bool_decide; [|done]. rewrite <- Hbs. by eapply fmap_insert_same.
Qed.

Lemma update_builder_cores n f bs bs' :
  (forall b b', f b = OK b' -> core b' = core b) -> update_builder n f bs = OK bs' ->
  core <$> bs' = core <$> bs.
Proof.
  intros Hf. unfold update_builder. destruct (bs !! n) as [b|] eqn:Hb; [|done]. cbn.
  intros (b' & Hb' & [= <-])%Result_bind_OK. eapply fmap_insert_same; [done|by apply Hf].
Qed.

(** One operand: its clone is known afterwards. *)
Lemma build_operand_ok assignments n ops bs o ops' bs' b :
  build_operand assignments n (ops, bs) o = OK (ops', bs') -> Forall ok bs -> bs !! n = Some b ->
  Forall ok bs' /\ frame bs' = frame bs /\
  exists b' k, bs' !! n = Some b' /\ ops' = ops ++ [k] /\ clones_ b' !! o = Some k /\ clones_ b ⊆ clones_ b'.
Proof.
  intros Hrun Hok Hb. unfold build_operand in Hrun. rewrite Hb in Hrun. cbn in Hrun.
  destruct (clones_ b !! o) as [k|] eqn:Hk.
  { injection Hrun as <- <-. eauto 10. }
  apply Result_bind_OK in Hrun as (bs1 & Hadd & Hrun).
  assert (core <$> bs1 = core <$> bs) as Hcores.
  { destruct (assignments !! o); [by eapply AddConsumer_cores|by injection Hadd as <-]. }
  assert (exists b1, bs1 !! n = Some b1 /\ core b1 = core b) as (b1 & Hb1 & Hcore).
  { apply (f_equal (.!! n)) in Hcores. rewrite !list_lookup_fmap, Hb in Hcores.
    destruct (bs1 !! n) as [b1|]; [|done]. exists b1. split; [done|].
    exact (inj Some _ _ Hcores). }
  rewrite Hb1 in Hrun. cbn in Hrun. injection Hrun as <- <-.
  assert (clones_ b1 = clones_ b /\ builder_ b1 = builder_ b /\ parameters_ b1 = parameters_ b)
    as (Hc & Hbd & Hps) by (unfold core in Hcore; naive_solver).
  assert (Forall ok bs1) as Hok1 by (by eapply cores_ok).
  pose proof (Forall_lookup_1 _ _ _ _ Hok1 Hb1) as Hokb.
  assert (n < length bs1)%nat as Hn by (by eapply lookup_lt_Some). split_and!.
  - apply Forall_insert; [done|]. rewrite <- Hps. by apply context_ok_parameter.
  - rewrite <- (cores_frame _ _ Hcores). unfold frame. by eapply fmap_insert_same.
  - eexists _, _. split; [by apply list_lookup_insert_eq|]. split; [done|]. cbn. rewrite Hbd, Hc. split.
    + by rewrite lookup_insert_eq.
    + by apply insert_subseteq.
Qed.

Lemma build_operands_ok assignments n ops bs ops' bs' b done_ops os :
  foldM (build_operand assignments n) (ops, bs) os = OK (ops', bs') -> Forall ok bs -> bs !! n = Some b ->
  Forall2 (fun k o => clones_ b !! o = Some k) ops done_ops ->
  Forall ok bs' /\ frame bs' = frame bs /\
  exists b', bs' !! n = Some b' /\ Forall2 (fun k o => clones_ b' !! o = Some k) ops' (done_ops ++ os).
Proof.
  revert ops bs b done_ops. induction os as [|o os IH]; intros ops bs b done_ops Hrun Hok Hb Hops.
  - injection Hrun as <- <-. rewrite app_nil_r. eauto.
  - apply Result_bind_OK in Hrun as ([ops1 bs1] & Hstep & Hrun).
    destruct (build_operand_ok _ _ _ _ _ _ _ _ Hstep Hok Hb) as (Hok1 & Hfr & b1 & k & Hb1 & -> & Hk & Hsub).
    destruct (IH _ _ b1 (done_ops ++ [o]) Hrun Hok1 Hb1) as (Hok' & Hfr' & b' & Hb' & Hops').
    { apply Forall2_app; [|by repeat constructor]. eapply Forall2_impl; [exact Hops|].
      intros k' o' Hk'. by apply (lookup_weaken (clones_ b)). }
    rewrite <- app_assoc in Hops'. rewrite Hfr' , Hfr. eauto.
Qed.

Definition evaluates i : Prop := val i = sem i (val <$> operands i).

Lemma build_instruction_ok c assignments n bs i bs' :
  build_instruction c assignments n bs i = OK bs' -> evaluates i -> Forall ok bs ->
  Forall ok bs' /\ frame bs' = frame bs.
Proof.
  intros Hrun Hi Hok. unfold build_instruction in Hrun.
  destruct (bs !! n) as [b|] eqn:Hb; [|done]. cbn in Hrun.
  apply Result_bind_OK in Hrun as (b1 & Hroot & Hrun).
  assert (core b1 = core b) as Hcore
    by (revert Hroot; destruct (IsRoot c i); [apply AddRoot_core|by intros [= <-]]).
  apply Result_bind_OK in Hrun as ([ops bs2] & Hops & Hrun).
  assert (n < length bs)%nat as Hn by (by eapply lookup_lt_Some).
  assert (core <$> <[n := b1]> bs = core <$> bs) as Hcores by (by eapply fmap_insert_same).
  destruct (build_operands_ok _ _ _ _ _ _ b1 [] _ Hops) as (Hok2 & Hfr & b2 & Hb2 & Hf2);
    [by eapply cores_ok|by apply list_lookup_insert_eq|constructor|].
  rewrite Hb2 in Hrun. cbn in Hrun. injection Hrun as <-. split.
  - apply Forall_insert; [done|]. eapply context_ok_instruction; [by eapply Forall_lookup_1|done|done].
  - rewrite <- (cores_frame _ _ Hcores), <- Hfr. unfold frame. by eapply fmap_insert_same.
Qed.

Lemma Build_ok c assignments n bs bs' :
  Build c assignments n bs = OK bs' -> Forall ok bs ->
  (forall b i, bs !! n = Some b -> i ∈ instruction_dfs_ b -> evaluates i) ->
  Forall ok bs' /\ frame bs' = frame bs.
Proof.
  unfold Build. destruct (bs !! n) as [b|] eqn:Hb; [|done]. cbn. intros Hrun Hok Hev.
  specialize (Hev b). revert Hrun. generalize dependent (instruction_dfs_ b). intros dfs Hev Hrun.
  refine (foldM_inv (fun _ bs' => Forall ok bs' /\ frame bs' = frame bs) _ _ dfs bs' _ _ Hrun); [done|].
  intros l1 i l2 bs1 bs2 -> [Hok1 Hfr1] Hi.
  destruct (build_instruction_ok _ _ _ _ _ _ Hi) as [Hok2 Hfr2]; [|done|by rewrite Hfr2].
  apply Hev; [done|set_solver].
Qed.
End build.

(** ** The calls *)
Section calls.
Context {I C St V : Type} `{EqDecision I, !Countable I} `{!Hlo I C, !AttrStore I St}.
Context (s : St) (es : gmap I (Entry I)) (sem : I -> list V -> V) (val : I -> V).
Implicit Types (i o : I) (c : C) (b : BuildContext I) (bs : list (BuildContext I)).
Implicit Types (cm : gmap I (Value I)) (results : gmap nat (list V)).

Abbreviation ok := (context_ok sem val).
Abbreviation value_of := (eval_value val).

(** What replaces an instruction has its value. *)
Definition map_ok results cm : Prop := forall i v, cm !! i = Some v -> value_of results v = Some (val i).
Definition originals cm : Prop := forall i v, cm !! i = Some v -> v = Original i.

Lemma originals_ok results cm : originals cm -> map_ok results cm.
Proof. by intros Ho i v ->%Ho. Qed.

Lemma originals_insert_all (us : list I) cm :
  originals cm -> originals (foldl (fun m u => <[u := Original u]> m) cm us).
Proof.
  revert cm. induction us as [|u us IH]; intros cm Ho; [done|]. apply IH. intros i v.
  rewrite lookup_insert. case_decide; [by intros [= <-]; subst|apply Ho].
Qed.

(** A further result does not change values. *)
Lemma eval_value_insert results n outs v x :
  results !! n = None -> value_of results v = Some x -> value_of (<[n := outs]> results) v = Some x.
Proof.
  intros Hn. destruct v as [i|m k]; [done|]. cbn. destruct (results !! m) as [l|] eqn:Hl; [|done]. cbn.
  rewrite lookup_insert_ne by congruence. by rewrite Hl.
Qed.

Lemma mapM_Result_Forall2 {X Y} (f : X -> Result Y) l l' :
  mapM_Result f l = OK l' -> Forall2 (fun x y => f x = OK y) l l'.
Proof.
  intros Hrun. unfold mapM_Result in Hrun.
  refine (foldM_inv (fun done acc => Forall2 (fun x y => f x = OK y) done acc) _ _ _ _ _ _ Hrun);
    [constructor|].
  intros done x rest acc acc' _ HF (y & Hy & [= <-])%Result_bind_OK.
  apply Forall2_app; [done|by repeat constructor].
Qed.

Lemma clone_roots_ok results n roots cm :
  results !! n = None -> map_ok results cm ->
  map_ok (<[n := val <$> roots]> results)
    (foldl (clone_root n) cm (zip (seqZ 0 (Zlength roots)) roots)).
Proof.
  intros Hn Hcm. set (results' := <[n := _]> results).
  assert (map_ok results' cm) as Hcm'.
  { intros i v Hv. apply eval_value_insert; [done|by apply Hcm]. }
  assert (forall (l : list (Z * I)), (forall k i, (k, i) ∈ l -> value_of results' (Element n k) = Some (val i)) ->
    map_ok results' (foldl (clone_root n) cm l)) as Hl.
  { clear Hcm. intros l. revert cm Hcm'. induction l as [|[k i] l IH]; intros cm Hcm Hl; [done|]. cbn.
    apply IH; [|intros; apply Hl; by right]. unfold clone_root. cbn. case_bool_decide; [done|].
    intros j v. rewrite lookup_insert. case_decide; [|apply Hcm]. intros [= <-]. subst. apply Hl. left. }
  apply Hl. intros k i (m & Hm)%list_elem_of_lookup.
  apply lookup_zip_Some in Hm as [Hk Hi]. apply lookup_seqZ in Hk as [-> _].
  cbn. subst results'. rewrite lookup_insert_eq. cbn.
  replace (Z.to_nat (0 + Z.of_nat m)) with m by lia. by rewrite list_lookup_fmap, Hi.
Qed.

Lemma call_operands_ok results cm params vs : map_ok results cm ->
  mapM_Result (call_operand cm) params = OK vs -> mapM (value_of results) vs = Some (val <$> params).
Proof.
  intros Hcm HF%mapM_Result_Forall2. apply mapM_Some. clear -HF Hcm.
  induction HF as [|p v ps vs Hp _ IH]; constructor; [|done].
  unfold call_operand in Hp. case_bool_decide; [by injection Hp as <-|].
  destruct (cm !! p) as [w|] eqn:Hw; [|done]. injection Hp as ->. by apply Hcm.
Qed.

(** One call: its results are the values of the roots. *)
Lemma ReplaceWithCall_ok bs results n b cm call cm' :
  ReplaceWithCall n b cm = OK (Some call, cm') -> bs !! n = Some b -> ok b ->
  results !! n = None -> map_ok results cm ->
  eval_call sem val bs results call = Some (<[n := val <$> roots_ b]> results) /\
  map_ok (<[n := val <$> roots_ b]> results) cm'.
Proof.
  intros Hrun Hb (vals & Hlog & _ & Hcl) Hn Hcm. unfold ReplaceWithCall in Hrun.
  destruct (roots_ b) as [|r rs] eqn:Hroots; [done|]. rewrite <- Hroots in *.
  apply Result_bind_OK in Hrun as (refs & Hrefs & Hrun).
  apply Result_bind_OK in Hrun as (args & Hargs & [= <- <-]).
  split; [|by apply clone_roots_ok]. unfold eval_call. cbn.
  rewrite (call_operands_ok _ _ _ _ Hcm Hargs). cbn. rewrite Hb. cbn. rewrite Hlog. cbn.
  assert (mapM (vals !!.) refs = Some (val <$> roots_ b)) as ->; [|done].
  apply mapM_Some. apply mapM_Result_Forall2 in Hrefs. clear -Hrefs Hcl.
  induction Hrefs as [|r k rs ks Hr _ IH]; constructor; [|done].
  destruct (clones_ b !! r) as [k'|] eqn:Hk; [|done]. injection Hr as ->. by apply Hcl.
Qed.

Lemma ReplaceWithCall_None n b cm cm' : ReplaceWithCall n b cm = OK (None, cm') -> cm' = cm.
Proof.
  unfold ReplaceWithCall. destruct (roots_ b); [by intros [= <-]|].
  intros (? & _ & Hrun)%Result_bind_OK. by apply Result_bind_OK in Hrun as (? & _ & ?).
Qed.

(** All calls, in the order of the contexts. *)
Definition calls_ok bs (k : nat) (st : list Call * gmap I (Value I)) : Prop := exists results,
  eval_calls sem val bs st.1 = Some results /\ map_ok results st.2 /\
  (forall n, k <= n -> results !! n = None)%nat /\
  (forall n outs, results !! n = Some outs -> exists b, bs !! n = Some b /\ outs = val <$> roots_ b).

Lemma call_steps_ok bs cm calls cm' :
  foldM call_step ([], cm) (zip (seq 0 (length bs)) bs) = OK (calls, cm') ->
  Forall ok bs -> originals cm -> calls_ok bs (length bs) (calls, cm').
Proof.
  intros Hrun Hok Hcm. set (l := zip (seq 0 (length bs)) bs) in *.
  assert (length l = length bs) as Hlen by (unfold l; rewrite length_zip_with, length_seq; lia).
  rewrite <- Hlen.
  refine (foldM_inv (fun done st => calls_ok bs (length done) st) call_step _ l _ _ _ Hrun).
  - exists ∅. split_and!; [done|by apply originals_ok|intros; apply lookup_empty|].
    intros n outs. by rewrite lookup_empty.
  - intros done [n b] rest [calls1 cm1] st' Hl (results & Hev & Hmap & Hnone & Hres) Hstep.
    assert (l !! length done = Some (n, b)) as Hlk by (rewrite Hl; by apply list_lookup_middle).
    unfold l in Hlk. apply lookup_zip_Some in Hlk as [Hseq Hb]. apply lookup_seq in Hseq as [-> _].
    cbn [Nat.add] in *. rewrite length_app. cbn [length]. unfold call_step in Hstep. cbn in Hstep.
    assert (calls_ok bs (length done + 1) (calls1, cm1)) as Hsame.
    { exists results. split_and!; [done..| |done]. intros m Hm. apply Hnone. lia. }
    destruct (call_instruction_ b); [by injection Hstep as <-|].
    apply Result_bind_OK in Hstep as ([[call|] cm2] & Hcall & [= <-]); cbn.
    + destruct (ReplaceWithCall_ok bs results _ _ _ _ _ Hcall Hb) as [Hcev Hcmap];
        [by eapply Forall_lookup_1|by apply Hnone|done|].
      eexists. cbn [fst snd]. rewrite eval_calls_snoc. cbn [fst snd] in Hev, Hmap. rewrite Hev. cbn [mbind option_bind]. split_and!; [exact Hcev|done| |].
      * intros m Hm. rewrite lookup_insert_ne by lia. apply Hnone. lia.
      * intros m outs. rewrite lookup_insert. case_decide; [intros [= <-]; subst; eauto|apply Hres].
    + by rewrite (ReplaceWithCall_None _ _ _ _ Hcall).
Qed.

Lemma replace_steps_ok results cm bs replacements :
  foldM (replace_step cm) [] bs = OK replacements -> map_ok results cm ->
  forall i v, (i, v) ∈ replacements -> value_of results v = Some (val i).
Proof.
  intros Hrun Hmap.
  refine (foldM_inv (fun _ acc => forall i v, (i, v) ∈ acc -> value_of results v = Some (val i))
    (replace_step cm) [] bs replacements _ _ Hrun); [set_solver|].
  intros done b rest acc acc' _ Hacc. unfold replace_step.
  destruct (call_instruction_ b); [by intros [= <-]|].
  intros (r & Hr & [= <-])%Result_bind_OK i v [Hin|Hin]%elem_of_app; [by apply Hacc|].
  apply mapM_Result_Forall2 in Hr. apply list_elem_of_lookup in Hin as [k Hk].
  destruct (Forall2_lookup_r _ _ _ _ _ Hr Hk) as (root & _ & Hroot).
  apply Result_bind_OK in Hroot as (w & Hw & [= -> ->]).
  unfold of_option in Hw. destruct (cm !! i) as [w'|] eqn:Hcm; [|done]. injection Hw as ->. by apply Hmap.
Qed.
End calls.

(** ** The whole grouping *)
Section grouping.
Context {I C St : Type} `{EqDecision I, !Countable I} `{!Hlo I C, !AttrStore I St}.
Context (s : St) (es : gmap I (Entry I)) (instructions : C -> list I).
Implicit Types (i o : I) (c : C) (b : BuildContext I) (bs : list (BuildContext I)).

(** Before it is built a context has no clones. *)
Definition fresh b : Prop := clones_ b = ∅ /\ builder_ b = [].

Lemma update_builder_Forall (P : BuildContext I -> Prop) n f bs bs' :
  (forall b b', P b -> f b = OK b' -> P b') -> Forall P bs -> update_builder n f bs = OK bs' -> Forall P bs'.
Proof.
  intros Hf HP. unfold update_builder. destruct (bs !! n) as [b|] eqn:Hb; [|done]. cbn.
  intros (b' & Hb' & [= <-])%Result_bind_OK. apply Forall_insert; [done|].
  apply (Hf b); [by eapply Forall_lookup_1|done].
Qed.

Lemma AddRoot_fresh root b b' : fresh b -> AddRoot root b = OK b' -> fresh b'.
Proof. intros [Hc Hb] Hr%AddRoot_core. injection Hr as E1 E2 _ _ _. split; congruence. Qed.

Lemma AddInstruction_fresh visits i b b' : fresh b -> AddInstruction s es visits i b = OK b' -> fresh b'.
Proof.
  unfold AddInstruction, AddReplicatedOperandDfs. intros Hb. case_bool_decide; [by intros [= <-]|].
  intros (b1 & Hb1 & [= <-])%Result_bind_OK. apply Result_bind_OK in Hb1 as (ops & _ & Hb1).
  destruct ops; [by injection Hb1 as <-|]. by apply Result_bind_OK in Hb1 as (r & _ & [= <-]).
Qed.

Lemma group_instruction_fresh visits in_loop g i g' :
  group_instruction s es visits in_loop g i = OK g' ->
  Forall fresh (builders g) /\ originals (gte_root_clones g) ->
  Forall fresh (builders g') /\ originals (gte_root_clones g').
Proof.
  intros Hrun [Hf Ho]. unfold group_instruction in Hrun. destruct (IsCustomCall i _).
  { apply Result_bind_OK in Hrun as (o & _ & Hrun).
    destruct (builder_assignments g !! o) as [m|]; [|done].
    apply Result_bind_OK in Hrun as (bs & Hbs & [= <-]). split; [cbn|done].
    eapply update_builder_Forall; [by apply AddRoot_fresh|done|done]. }
  destruct (IsMicrobatchLoop i).
  { apply Result_bind_OK in Hrun as (o & _ & Hrun). apply Result_bind_OK in Hrun as (bs & Hbs & [= <-]).
    cbn. split; [|by apply originals_insert_all].
    refine (foldM_inv (fun _ bs => Forall fresh bs) _ _ (operands o) bs _ _ Hbs).
    - apply Forall_app. split; [done|]. by repeat constructor.
    - intros done x rest bs1 bs2 _ Hbs1. unfold add_loop_input.
      destruct (builder_assignments g !! x); [|by intros [= <-]].
      intros Hup. eapply update_builder_Forall; [by apply AddRoot_fresh|done|done]. }
  apply Result_bind_OK in Hrun as (direct & _ & Hrun). destruct direct; [|by injection Hrun as <-].
  destruct (Color s i) as [color|]; [|done].
  set (pair := if bool_decide _ then _ else _) in Hrun.
  assert (Forall fresh pair.1) as Hpair.
  { subst pair. case_bool_decide; [|done]. apply Forall_app. split; [done|]. by repeat constructor. }
  destruct pair as [bs current]. apply Result_bind_OK in Hrun as (n & _ & Hrun).
  apply Result_bind_OK in Hrun as (bs' & Hbs & [= <-]). split; [cbn|done].
  eapply update_builder_Forall; [by apply AddInstruction_fresh|exact Hpair|done].
Qed.

Lemma build_contexts_ok {V} (sem : I -> list V -> V) (val : I -> V) rec c assignments bs cm l st' :
  foldM (build_context rec c assignments) (bs, cm, []) l = OK st' ->
  Forall (context_ok sem val) bs -> originals cm ->
  (forall b i, b ∈ bs -> i ∈ instruction_dfs_ b -> evaluates sem val i) ->
  Forall (context_ok sem val) st'.1.1 /\ frame st'.1.1 = frame bs /\ originals st'.1.2.
Proof.
  intros Hrun Hok Ho Hev.
  refine (foldM_inv (fun _ st => Forall (context_ok sem val) st.1.1 /\ frame st.1.1 = frame bs /\
    originals st.1.2) (build_context rec c assignments) _ l st' _ _ Hrun); [done|].
  intros done n rest [[bs1 cm1] inner] st2 _ (Hok1 & Hfr1 & Ho1) Hstep. cbn in *.
  destruct (bs1 !! n) as [b|] eqn:Hb; [|done]. cbn in Hstep.
  destruct (call_instruction_ b) as [loop|].
  - apply Result_bind_OK in Hstep as (body & _ & Hstep).
    apply Result_bind_OK in Hstep as (rest' & _ & [= <-]). cbn.
    split_and!; [done..|by apply originals_insert_all].
  - apply Result_bind_OK in Hstep as (bs2 & Hbuild & [= <-]). cbn.
    destruct (Build_ok sem val _ _ _ _ _ Hbuild Hok1) as [Hok2 Hfr2]; [|split_and!; [done|by transitivity (frame bs1)|done]].
    intros b' i Hb' Hi. rewrite Hb in Hb'. injection Hb' as <-.
    apply (f_equal (.!! n)) in Hfr1. unfold frame in Hfr1. rewrite !list_lookup_fmap, Hb in Hfr1. cbn in Hfr1.
    destruct (bs !! n) as [b0|] eqn:Hb0; [|done]. cbn in Hfr1. injection Hfr1 as Hdfs _.
    apply (Hev b0); [by eapply list_elem_of_lookup_2|by rewrite <- Hdfs].
Qed.

(** The frame does not depend on what the instructions mean. *)
Lemma build_contexts_frame rec c assignments bs cm l st' :
  foldM (build_context rec c assignments) (bs, cm, []) l = OK st' ->
  Forall fresh bs -> originals cm -> frame st'.1.1 = frame bs.
Proof.
  intros Hrun Hf Ho.
  apply (build_contexts_ok (fun _ _ => ()) (fun _ => ()) _ _ _ _ _ _ _ Hrun); [|done|done].
  eapply Forall_impl; [exact Hf|]. intros b [? ?]. by apply context_ok_empty.
Qed.

(** What a grouping promises for every meaning of the instructions. *)
Definition computes (tasks : Tasks (I := I)) : Prop := forall V (sem : I -> list V -> V) (val : I -> V),
  (forall b i, b ∈ task_contexts tasks -> i ∈ instruction_dfs_ b -> val i = sem i (val <$> operands i)) ->
  exists results, eval_calls sem val (task_contexts tasks) (task_calls tasks) = Some results /\
    (forall i v, (i, v) ∈ task_replacements tasks -> eval_value val results v = Some (val i)) /\
    (forall n outs, results !! n = Some outs ->
       exists b, task_contexts tasks !! n = Some b /\ outs = val <$> roots_ b).

Lemma frame_elem bs bs' b' i : frame bs' = frame bs -> b' ∈ bs -> i ∈ instruction_dfs_ b' ->
  exists b, b ∈ bs' /\ i ∈ instruction_dfs_ b.
Proof.
  intros Hfr (n & Hn)%list_elem_of_lookup Hi. apply (f_equal (.!! n)) in Hfr. unfold frame in Hfr.
  rewrite !list_lookup_fmap, Hn in Hfr. destruct (bs' !! n) as [b|] eqn:Hb; [|done]. cbn in Hfr.
  injection Hfr as Hdfs _. exists b. split; [by eapply list_elem_of_lookup_2|by rewrite Hdfs].
Qed.

Lemma GroupComputation_computes rec visits c parent result :
  GroupComputation s es instructions rec visits c parent = OK result ->
  (forall body loop r c' t, rec body loop = OK r -> (c', t) ∈ r -> computes t) ->
  forall c' t, (c', t) ∈ result -> computes t.
Proof.
  intros Hrun Hrec. unfold GroupComputation in Hrun.
  apply Result_bind_OK in Hrun as (always & _ & Hrun). apply Result_bind_OK in Hrun as (order & _ & Hrun).
  apply Result_bind_OK in Hrun as (g & Hg & Hrun).
  apply Result_bind_OK in Hrun as ([[bs cm] inner] & Hbuild & Hrun).
  apply Result_bind_OK in Hrun as ([calls cm'] & Hcalls & Hrun).
  apply Result_bind_OK in Hrun as (replacements & Hrep & [= <-]).
  assert (Forall fresh (builders g) /\ originals (gte_root_clones g)) as [Hf Ho].
  { refine (foldM_inv (fun _ g => Forall fresh (builders g) /\ originals (gte_root_clones g))
      _ _ order g _ _ Hg).
    - split; [constructor|]. cbn. apply originals_insert_all. intros i v. by rewrite lookup_empty.
    - intros done x rest g1 g2 _ Hg1 Hstep. by apply (group_instruction_fresh _ _ _ _ _ Hstep). }
  intros c' t [Hin|Hin]%elem_of_app.
  - assert (forall c' t, (c', t) ∈ inner -> computes t) as Hinner; [|by apply (Hinner c')].
    clear -Hbuild Hrec. change inner with (bs, cm, inner).2.
    refine (foldM_inv (fun _ st => forall c' t, (c', t) ∈ st.2 -> computes t) _ _ _ (bs, cm, inner) _ _ Hbuild);
      [set_solver|].
    intros done n rest [[bs1 cm1] inner1] st2 _ Hinner1 Hstep. cbn in *.
    destruct (bs1 !! n) as [b|]; [|done]. cbn in Hstep. destruct (call_instruction_ b) as [loop|].
    + apply Result_bind_OK in Hstep as (body & _ & Hstep).
      apply Result_bind_OK in Hstep as (r & Hr & [= <-]). cbn. intros c' t [Hin|Hin]%elem_of_app; eauto.
    + by apply Result_bind_OK in Hstep as (bs2 & _ & [= <-]).
  - apply list_elem_of_singleton in Hin. injection Hin as -> ->. intros V sem val Hev. cbn in *.
    pose proof (build_contexts_frame _ _ _ _ _ _ _ Hbuild Hf Ho) as Hfr. cbn in Hfr.
    destruct (build_contexts_ok sem val _ _ _ _ _ _ _ Hbuild) as (Hok & _ & Hcm); [|done| |].
    + eapply Forall_impl; [exact Hf|]. intros b [? ?]. by apply context_ok_empty.
    + intros b i Hb Hi. destruct (frame_elem _ _ _ _ Hfr Hb Hi) as (b' & Hb' & Hi'). by apply (Hev b').
    + destruct (call_steps_ok sem val _ _ _ _ Hcalls Hok Hcm) as (results & Heval & Hmap & _ & Hres).
      exists results. split_and!; [done| |done]. by eapply replace_steps_ok.
Qed.

(** C3: For every meaning of the instructions under which the cloned instructions evaluate
    to their values, the calls of the tasks, one after the other, have results; the
    results of a task are the values of its roots, and every value that replaces an
    instruction is the value of that instruction. *)
Theorem tasks_compute_values fuel visits c parent result :
  GroupComputationIntoTasks s es instructions fuel visits c parent = OK result ->
  forall c' tasks, (c', tasks) ∈ result ->
  forall V (sem : I -> list V -> V) (val : I -> V),
  (forall b i, b ∈ task_contexts tasks -> i ∈ instruction_dfs_ b -> val i = sem i (val <$> operands i)) ->
  exists results, eval_calls sem val (task_contexts tasks) (task_calls tasks) = Some results /\
    (forall i v, (i, v) ∈ task_replacements tasks -> eval_value val results v = Some (val i)) /\
    (forall n outs, results !! n = Some outs ->
       exists b, task_contexts tasks !! n = Some b /\ outs = val <$> roots_ b).
Proof.
  intros Hrun. change (forall c' tasks, (c', tasks) ∈ result -> computes tasks).
  revert c parent result Hrun. induction fuel as [|fuel IH]; intros c parent result Hrun; [done|].
  cbn in Hrun. eapply GroupComputation_computes; [exact Hrun|].
  intros body loop r c' t Hr Hin. cbn in Hr. by eapply IH.
Qed.
End grouping.

(** Two tasks of color "a" and "b"; the second recomputes a constant and its broadcast. *)
Module GrouperSample.
Definition nodes : list Graph.node := [
  Graph.op kParameter []; Graph.op kAdd [0; 0]; Graph.op kConstant []; Graph.op kBroadcast [2];
  Graph.op kMultiply [1; 3]; Graph.op kNegate [1]; Graph.op kTuple [4; 5]]%nat.
Definition comps : list Graph.comp := [Graph.Comp 6 [0] [0; 1; 2; 3; 4; 5; 6]]%nat.
#[global] Instance hlo : Hlo nat nat := Graph.hlo nodes comps.
Definition colors : AttrMap.t :=
  AssignColor 1%nat "a" (AssignColor 4%nat "b" (AssignColor 5%nat "a" ∅)).
Definition entries : gmap nat (Entry nat) :=
  match CreateProperties 100 5 0%nat with OK es => es | _ => ∅ end.
Definition result : list (nat * Tasks (I := nat)) :=
  match GroupComputationIntoTasks colors entries (fun _ => seq 0 7) 3 50 0%nat None with
  | OK r => r | _ => [] end.
Definition tasks : Tasks (I := nat) := default (MkTasks [] [] []) (snd <$> head result).

(** A meaning: the sum of the operands and the number of the instruction. *)
Definition sem (i : nat) (args : list Z) : Z := Z.of_nat i + foldr Z.add 0 args.
Definition val (i : nat) : Z := nth i [10; 21; 2; 5; 30; 26] 0.

Example calls : task_calls tasks =
  [MkCall 0 [Original 0%nat] [2; 1]%nat; MkCall 1 [Element 0 1] [3]%nat].
Proof. vm_compute. reflexivity. Qed.

Lemma run : GroupComputationIntoTasks colors entries (fun _ => seq 0 7) 3 50 0%nat None = OK result.
Proof. vm_compute. reflexivity. Qed.
Lemma one_computation : result = [(0%nat, tasks)].
Proof. vm_compute. reflexivity. Qed.
Lemma evaluates b i : b ∈ task_contexts tasks -> i ∈ instruction_dfs_ b ->
  val i = sem i (val <$> operands i).
Proof.
  assert (Forall (fun b => Forall (fun i => val i = sem i (val <$> operands i)) (instruction_dfs_ b))
    (task_contexts tasks)) as Hall by (vm_compute; repeat constructor).
  intros Hb Hi. exact (proj1 (Forall_forall _ _) (proj1 (Forall_forall _ _) Hall b Hb) i Hi).
Qed.
Lemma replaced : (4%nat, Element 1 0) ∈ task_replacements tasks.
Proof. vm_compute. right. right. left. Qed.
End GrouperSample.

Lemma tasks_compute_values_witness :
  exists results,
    eval_calls GrouperSample.sem GrouperSample.val (task_contexts GrouperSample.tasks)
      (task_calls GrouperSample.tasks) = Some results /\
    eval_value GrouperSample.val results (Element 1 0) = Some 30.
Proof.
  destruct (tasks_compute_values _ _ _ 3 50 0%nat None _ GrouperSample.run 0%nat GrouperSample.tasks
    ltac:(rewrite GrouperSample.one_computation; left) Z GrouperSample.sem GrouperSample.val
    GrouperSample.evaluates) as (results & Hr & Hrep & _).
  exists results. split; [exact Hr|]. exact (Hrep 4%nat _ GrouperSample.replaced).
Defined.
