(* ===== verification/GrouperOrder.v ===== *)
(** * The order of instructions in a task (mpmd_computation_grouper.cc)

    The search of [AddReplicatedOperandDfs] refines the search of Dfs.v, and the first
    loop of [GroupComputationIntoTasks] puts every instruction into a task after its
    operands, which are in the same task, or computed by an earlier one, or available
    to every task. *)
From S2P Require Import Prelude Hlo Instruction Utils InstructionProperties ColorDfs Dfs Grouper.
Local Open Scope nat_scope.

Lemma filterM_OK {A} (f : A -> Result bool) (P : A -> bool) l :
  (forall x, x ∈ l -> f x = OK (P x)) -> filterM f l = OK (filter (fun x => P x = true) l).
Proof.
  induction l as [|x l IH]; intros Hf; [done|]. cbn [filterM]. rewrite Hf by left.
  rewrite IH by (intros; apply Hf; by right). rewrite filter_cons. cbn [mbind Result_bind].
  destruct (P x); [by rewrite decide_True|by rewrite decide_False].
Qed.

Section order.
Context {I C St : Type} `{EqDecision I, !Countable I} `{!Hlo I C, !AttrStore I St}.
Context (s : St) (es : gmap I (Entry I)).
Implicit Types (i o x y : I) (b : BuildContext I) (added : gset I).

(** ** Kinds of instructions *)
Definition always i : Prop := IsAlwaysTaskOperand i = OK true.
Definition direct i : Prop := IncludeDirectlyInBuilder s es i = OK true.
Definition indirect i : Prop := IncludeIndirectlyInBuilder s es i = OK true.
Definition recolor i : Prop := IsCustomCall i kCustomCallRootTupleRecolor = true.
Definition loop i : Prop := IsMicrobatchLoop i = true.

Definition classified i : Prop :=
  is_OK (ReplicateInstruction s es i) /\ is_OK (IsAlwaysTaskOperand i).

Lemma classified_cases i : classified i ->
  (is_OK (IncludeDirectlyInBuilder s es i) /\ is_OK (IncludeIndirectlyInBuilder s es i)) /\
  (always i \/ direct i \/ indirect i) /\ (always i -> ~ direct i /\ ~ indirect i).
Proof.
  unfold classified, always, direct, indirect, IncludeDirectlyInBuilder, IncludeIndirectlyInBuilder, is_OK.
  intros [[r ->] [a ->]]. destruct r, a; cbn; naive_solver.
Qed.

(** The instructions that start out in a task: the others of the order are not visited,
    loops have contexts of their own. *)
Definition task_instruction i : Prop := ~ recolor i /\ ~ loop i /\ direct i.

(** ** The search for replicated operands *)

(** The operands that have to be in a task before an instruction. *)
Definition replicated i : list I := filter (fun o => indirect o) (operands i).

Lemma pushed_OK added i :
  (forall o, o ∈ operands i -> classified o) ->
  pushed s es added i = OK (filter (fun o => indirect o /\ o ∉ added) (operands i)).
Proof.
  intros Hc. unfold pushed.
  rewrite (filterM_OK _ (fun o => bool_decide (indirect o) && bool_decide (o ∉ added))).
  - f_equal. apply list_filter_iff. intros o. by rewrite andb_true_iff, !bool_decide_eq_true.
  - intros o Ho. destruct (classified_cases o (Hc o Ho)) as [[_ [r Hr]] _].
    assert (bool_decide (indirect o) = r) as ->.
    { destruct r; [by apply bool_decide_eq_true|apply bool_decide_eq_false]. unfold indirect. congruence. }
    by rewrite Hr.
Qed.

(** The search of Dfs.v with the added instructions as finished ones. *)
Definition sim (st : Dfs.state (I := I)) (visited : gmap I bool) added : Prop :=
  (forall y, Dfs.visited st !! y = if decide (y ∈ added) then Some true else visited !! y) /\
  (forall y, visited !! y = Some true -> y ∈ added) /\
  (forall y, y ∈ stack st -> y ∈ added -> visited !! y = Some true).

Context `{!AcyclicLaws I C}.

Lemma replicated_loop_runs U (P : I -> Prop) fuel st visited added dfs0 :
  (forall x d, x ∈ U -> d ∈ operands x -> d ∈ U) -> (forall x, x ∈ U -> classified x) ->
  (forall x o, x ∈ U -> o ∈ operands x -> indirect o -> P o) ->
  sim st visited added -> Forall (fun x => x ∈ U /\ P x) (stack st) ->
  Forall (fun x => x ∈ U /\ P x) (out st) ->
  measure replicated U st < fuel ->
  exists st' added', replicated_loop s es fuel (stack st) visited (dfs0 ++ out st) added =
      OK (dfs0 ++ out st', added') /\
    rtc (Dfs.step replicated) st st' /\ stack st' = [] /\
    (forall y, y ∈ added' <-> finished (Dfs.visited st') y) /\
    Forall (fun x => x ∈ U /\ P x) (out st').
Proof.
  intros HU Hcl HP. revert st visited added. induction fuel as [|fuel IH]; intros st visited added Hsim Hin Ho Hm; [lia|].
  destruct st as [stk v o]. destruct Hsim as (Hv & Htrue & Hstk). cbn in Hv, Hstk, Hin, Ho.
  assert (forall y, y ∈ added <-> finished v y) as Hfin.
  { intros y. unfold finished. rewrite Hv. case_decide; [done|]. split; [done|]. intros ?%Htrue. done. }
  assert (Forall (.∈ U) stk) as HstkU by (eapply Forall_impl; [exact Hin|]; cbn; tauto).
  cbn [replicated_loop stack out]. destruct stk as [|next rest].
  { exists (State [] v o), added. split_and!; [done|apply rtc_refl|done|done|done]. }
  assert (next ∈ U) as HnU by (by apply Forall_inv in Hin as [? _]).
  destruct (visited !! next) as [[]|] eqn:Hvn.
  - assert (Dfs.step replicated (State (next :: rest) v o) (State rest v o)) as Hstep
      by (apply step_skip, Hfin, Htrue, Hvn).
    pose proof (measure_decreases replicated U _ _ Hstep HstkU) as Hlt.
    destruct (IH (State rest v o) visited added) as (st' & added' & Hrun & Hsteps & Hrest).
    + unfold sim. cbn. split_and!; [done|done|]. intros y Hy. apply Hstk. by right.
    + by apply Forall_inv_tail in Hin.
    + done.
    + lia.
    + exists st', added'. split_and!; [done|by eapply rtc_l|apply Hrest..].
  - assert (next ∉ added) as Hna.
    { intros Hna. rewrite (Hstk next ltac:(left) Hna) in Hvn. done. }
    assert (Dfs.step replicated (State (next :: rest) v o)
              (State rest (finish_all [next] v) (o ++ [next]))) as Hstep.
    { apply step_finish; [|by left|apply NoDup_singleton| |by intros y d ->%list_elem_of_singleton].
      - rewrite Hv. by rewrite decide_False.
      - intros y ->%list_elem_of_singleton. by rewrite <- Hfin. }
    pose proof (measure_decreases replicated U _ _ Hstep HstkU) as Hlt.
    destruct (IH (State rest (finish_all [next] v) (o ++ [next])) (<[next := true]> visited) ({[next]} ∪ added))
      as (st' & added' & Hrun & Hsteps & Hrest).
    + unfold sim. cbn. split_and!.
      * intros y. rewrite !lookup_insert, Hv. repeat case_decide; set_solver.
      * intros y. rewrite lookup_insert. case_decide; [set_solver|]. intros ?%Htrue. set_solver.
      * intros y Hy. rewrite lookup_insert. case_decide as Hny; [done|]. intros [?|Hya]%elem_of_union; [set_solver|].
        apply Hstk; [by right|done].
    + by apply Forall_inv_tail in Hin.
    + cbn. apply Forall_app. split; [done|]. apply Forall_singleton. by apply Forall_inv in Hin.
    + lia.
    + exists st', added'. rewrite <- app_assoc. split_and!; [exact Hrun|by eapply rtc_l|apply Hrest..].
  - assert (next ∉ added) as Hna.
    { intros Hna. rewrite (Hstk next ltac:(left) Hna) in Hvn. done. }
    rewrite pushed_OK by (intros; eapply Hcl, HU; done). cbn [mbind Result_bind].
    set (ops := filter _ (operands next)).
    assert (forall y, y ∈ reverse ops <-> y ∈ operands next /\ indirect y /\ y ∉ added) as Hops.
    { intros y. rewrite elem_of_reverse. unfold ops. rewrite list_elem_of_filter. tauto. }
    assert (Dfs.step replicated (State (next :: rest) v o)
              (State (reverse ops ++ next :: rest) (<[next := false]> v) o)) as Hstep.
    { apply step_enter.
      - rewrite Hv. by rewrite decide_False.
      - rewrite length_reverse. unfold ops, replicated. clear. induction (operands next) as [|y l IHl]; [done|].
        rewrite !filter_cons. repeat case_decide; cbn; try tauto; lia.
      - intros y Hy%Hops. unfold replicated. rewrite list_elem_of_filter. tauto.
      - intros y. unfold replicated. rewrite list_elem_of_filter, Hops, <- Hfin.
        intros [Hi Hy]. destruct (decide (y ∈ added)); tauto. }
    pose proof (measure_decreases replicated U _ _ Hstep HstkU) as Hlt.
    destruct (IH (State (reverse ops ++ next :: rest) (<[next := false]> v) o) (<[next := false]> visited) added)
      as (st' & added' & Hrun & Hsteps & Hrest).
    + unfold sim. cbn. split_and!.
      * intros y. rewrite !lookup_insert, Hv. repeat case_decide; subst; done.
      * intros y. rewrite lookup_insert. case_decide; [done|]. apply Htrue.
      * intros y [Hy%Hops|Hy]%elem_of_app Hya; [tauto|]. rewrite lookup_insert.
        case_decide; [by subst|]. by apply Hstk.
    + cbn. apply Forall_app. split; [|done]. apply Forall_forall. intros y (Hy & Hi & _)%Hops. split; eauto.
    + done.
    + lia.
    + exists st', added'. split_and!; [exact Hrun|by eapply rtc_l|apply Hrest..].
Qed.

(** ** Adding an instruction to a context *)

(** The set of added instructions is the one of the list; replicated operands come
    before the instructions that use them. *)
Record dfs_good b : Prop := {
  good_added : forall y, y ∈ instructions_added_ b <-> y ∈ instruction_dfs_ b;
  good_NoDup : NoDup (instruction_dfs_ b);
  good_order : forall d1 y d2, instruction_dfs_ b = d1 ++ y :: d2 ->
    forall o, o ∈ operands y -> indirect o -> o ∈ d1;
}.

Lemma dfs_good_new (color : string) (oc : option string) : dfs_good (new_context color oc).
Proof. split; cbn; [set_solver|constructor|]. intros []; cbn; done. Qed.

(** What a search from an instruction can add. *)
Definition needed (U : list I) i y : Prop := indirect y /\ exists z, (z = i \/ z ∈ U) /\ y ∈ operands z.

(** What AddReplicatedOperandDfs adds. *)
Lemma AddReplicatedOperandDfs_spec U visits i b :
  (forall x d, x ∈ U -> d ∈ operands x -> d ∈ U) -> (forall x, x ∈ U -> classified x) ->
  (forall o, o ∈ operands i -> o ∈ U) -> dfs_good b ->
  2 + length (operands i) + sum_list ((fun x => 1 + length (operands x)) <$> U) <= visits ->
  exists new added', AddReplicatedOperandDfs s es visits i b = OK (with_dfs (instruction_dfs_ b ++ new) added' b) /\
    NoDup new /\ (forall y, y ∈ new -> y ∉ instruction_dfs_ b) /\
    (forall y, y ∈ added' <-> y ∈ instruction_dfs_ b \/ y ∈ new) /\
    (forall d1 y d2, new = d1 ++ y :: d2 -> forall o, o ∈ operands y -> indirect o ->
       o ∈ instruction_dfs_ b \/ o ∈ d1) /\
    (forall o, o ∈ operands i -> indirect o -> o ∈ instruction_dfs_ b \/ o ∈ new) /\
    Forall (fun x => x ∈ U /\ needed U i x) new.
Proof.
  intros HU Hcl Hi [Hadd Hnd Hord] Hvisits. unfold AddReplicatedOperandDfs.
  rewrite pushed_OK by (intros; by apply Hcl, Hi). cbn [mbind Result_bind].
  set (ops := filter _ (operands i)).
  assert (forall o, o ∈ ops <-> o ∈ operands i /\ indirect o /\ o ∉ instruction_dfs_ b) as Hops.
  { intros o. unfold ops. rewrite list_elem_of_filter, Hadd. tauto. }
  assert (forall r, match ops with [] => OK b | _ :: _ => r end = match ops with [] => OK (with_dfs (instruction_dfs_ b ++ []) (instructions_added_ b) b) | _ :: _ => r end) as ->.
  { intros r. destruct ops; [|done]. rewrite app_nil_r. by destruct b. }
  destruct (decide (ops = [])) as [Hnil|Hne].
  { rewrite Hnil. exists [], (instructions_added_ b). split_and!; [done|constructor|set_solver| | | |constructor].
    - intros y. rewrite Hadd. set_solver.
    - by intros [].
    - intros o Ho Hio. left. destruct (decide (o ∈ instruction_dfs_ b)) as [|Hno]; [done|].
      assert (o ∈ ops) as Hin by (by apply Hops). rewrite Hnil in Hin. by apply elem_of_nil in Hin. }
  set (v := finish_all (elements (instructions_added_ b)) (∅ : gmap I bool)).
  set (st := State (reverse ops) v []).
  assert (forall y, v !! y = if decide (y ∈ instructions_added_ b) then Some true else None) as Hv.
  { intros y. unfold v. rewrite finish_all_lookup, lookup_empty. by repeat case_decide; set_solver. }
  assert (Forall (fun x => x ∈ U /\ needed U i x) (stack st)) as Hstk.
  { apply Forall_forall. intros x. cbn. rewrite elem_of_reverse, Hops. unfold needed. naive_solver. }
  destruct (replicated_loop_runs U (needed U i) visits st ∅ (instructions_added_ b) (instruction_dfs_ b) HU Hcl)
    as (st' & added' & Hrun & Hsteps & Hempty & Hadd' & Hout).
  - intros x o Hx Ho Hio. split; [done|]. exists x. auto.
  - split_and!.
    + intros y. cbn. rewrite lookup_empty. apply Hv.
    + intros y. by rewrite lookup_empty.
    + intros y. cbn. rewrite elem_of_reverse, Hops, Hadd. naive_solver.
  - done.
  - constructor.
  - unfold measure. cbn. rewrite length_reverse.
    assert (length ops <= length (operands i)) by (unfold ops; apply length_filter).
    assert (forall l, pending replicated l v <= sum_list ((fun x => 1 + length (operands x)) <$> l)); [|specialize (H0 U); lia].
    intros l. induction l as [|x l IH]; [done|]. rewrite pending_cons.
    assert (length (replicated x) <= length (operands x)) by (unfold replicated; apply length_filter).
    cbn [fmap list_fmap sum_list sum_list_with]. case_decide; cbn in *; lia.
  - destruct (search_done replicated operand_rank) with (done := instructions_added_ b) (st := st) (st' := st')
      as (Hnd' & Htop & Hdis & Hreach & Hfin'); [|done|done| |done|].
    { intros x d. unfold replicated. rewrite list_elem_of_filter. intros [_ Hd]. by apply operand_rank_lt. }
    { apply dfs_ok_initial; [|done| |].
      - intros x d. unfold replicated. rewrite list_elem_of_filter. intros [_ Hd]. by apply operand_rank_lt.
      - intros x. unfold finished. cbn. rewrite Hv. by case_decide.
      - intros x. cbn. rewrite Hv. by case_decide. }
    assert (match ops with [] => OK (with_dfs (instruction_dfs_ b ++ []) (instructions_added_ b) b)
            | _ :: _ => r ← replicated_loop s es visits (reverse ops) ∅ (instruction_dfs_ b) (instructions_added_ b);
                        OK (with_dfs (r : list I * gset I).1 r.2 b) end =
            OK (with_dfs (instruction_dfs_ b ++ out st') added' b)) as ->.
    { change (reverse ops) with (stack st). cbn [out st] in Hrun. rewrite app_nil_r in Hrun.
      destruct ops as [|o ops']; [done|]. by rewrite Hrun. }
    exists (out st'), added'. split_and!; [done|done| | | | |done].
    + intros y Hy. rewrite <- Hadd. by apply Hdis.
    + intros y. by rewrite Hadd', Hfin', Hadd.
    + intros d1 y d2 Heq o Ho Hio. rewrite <- Hadd. apply (Htop d1 y d2 Heq). unfold replicated.
      by apply list_elem_of_filter.
    + intros o Ho Hio. rewrite <- Hadd. destruct (decide (o ∈ instructions_added_ b)); [by left|].
      apply Hreach. cbn. rewrite elem_of_reverse, Hops, <- Hadd. done.
Qed.

Lemma AddInstruction_spec U visits i b :
  (forall x d, x ∈ U -> d ∈ operands x -> d ∈ U) -> (forall x, x ∈ U -> classified x) ->
  (forall o, o ∈ operands i -> o ∈ U) -> i ∉ U -> i ∉ instruction_dfs_ b -> dfs_good b ->
  2 + length (operands i) + sum_list ((fun x => 1 + length (operands x)) <$> U) <= visits ->
  exists new added', AddInstruction s es visits i b =
      OK (with_dfs (instruction_dfs_ b ++ new ++ [i]) added' b) /\
    dfs_good (with_dfs (instruction_dfs_ b ++ new ++ [i]) added' b) /\
    Forall (fun x => x ∈ U /\ needed U i x) new.
Proof.
  intros HU Hcl Hi HiU Hib Hgood Hvisits.
  destruct (AddReplicatedOperandDfs_spec U visits i b HU Hcl Hi Hgood Hvisits)
    as (new & added' & Hrun & Hnd & Hdis & Hadd & Htop & Hops & Hnew).
  unfold AddInstruction. rewrite bool_decide_eq_false_2 by (by rewrite (good_added _ Hgood)).
  rewrite Hrun. cbn. rewrite <- app_assoc. exists new, ({[i]} ∪ added'). split; [done|]. split; [|done].
  assert (i ∉ new) as Hinew.
  { intros Hin. by apply (proj1 (Forall_forall _ _) Hnew) in Hin as [? _]. }
  split; cbn.
  - intros y. rewrite elem_of_union, Hadd. set_solver.
  - apply NoDup_app. split; [apply Hgood|]. split.
    + intros y Hy [Hyn|Hyi]%elem_of_app; [by apply (Hdis y)|].
      apply list_elem_of_singleton in Hyi. by subst.
    + apply NoDup_app. split; [done|]. split; [|apply NoDup_singleton].
      intros y Hy Hyi%list_elem_of_singleton. by subst.
  - intros d1 y d2 Heq o Ho Hio.
    apply app_eq_inv in Heq as [(k & Heq & Hk)|(k & -> & Hk)].
    + destruct k as [|z k]; cbn in Hk.
      * rewrite app_nil_r in Heq. subst d1.
        destruct new as [|z new]; cbn in Hk; injection Hk as -> ->.
        -- destruct (Hops o Ho Hio); [done|set_solver].
        -- destruct (Htop [] z new eq_refl o Ho Hio); [done|set_solver].
      * injection Hk as <- Hk. by apply (good_order _ Hgood d1 y k).
    + apply app_eq_inv in Hk as [(k' & -> & Hk)|(k' & -> & Hk)].
      * destruct k' as [|z k']; cbn in Hk; [injection Hk as -> ->|].
        -- rewrite app_nil_r in *. destruct (Hops o Ho Hio); set_solver.
        -- injection Hk as <- Hk. destruct (Htop k y k' eq_refl o Ho Hio); set_solver.
      * destruct k' as [|z k']; cbn in Hk; [injection Hk as <- <-|by destruct k'].
        destruct (Hops o Ho Hio); set_solver.
Qed.
End order.
