(* ===== verification/GrouperTotal.v ===== *)
(** * Grouping succeeds (mpmd_computation_grouper.cc)

    The conditions on a computation under which [GroupComputationIntoTasks] returns a
    grouping, the invariant of its first loop, and what the tasks are: every task
    instruction is in one task, of its color, and a task only needs values that are
    available to every task or that an earlier task returns. *)
From S2P Require Import Prelude Hlo Instruction Utils InstructionProperties ColorDfs Dfs Grouper GrouperSemantics GrouperOrder.
Local Open Scope nat_scope.

Section facts.
Context {I C : Type} `{EqDecision I, !Countable I} `{!Hlo I C}.
Implicit Types (b : BuildContext I).

Definition same_roots b : Prop := forall r, r ∈ roots_added_ b <-> r ∈ roots_ b.

Lemma AddRoot_OK root b : shape_IsTuple root = false -> same_roots b ->
  exists b', AddRoot root b = OK b' /\ same_roots b' /\
    (forall r, r ∈ roots_ b' <-> r ∈ roots_ b \/ r = root) /\
    core b' = core b /\ producers_added_ b' = producers_added_ b /\ color_ b' = color_ b /\
    instructions_added_ b' = instructions_added_ b.
Proof.
  intros Hs Hsame. unfold AddRoot. rewrite Hs. case_bool_decide as Hr.
  - exists b. split_and!; try done. intros r. split; [by left|]. intros [?| ->]; [done|by apply Hsame].
  - eexists. split; [done|]. cbn. split_and!; try done; [|intros r; set_solver].
    intros r. cbn. specialize (Hsame r). set_solver.
Qed.

Lemma lookup_loop_users n us (m : gmap I nat) i :
  foldl (fun m u => <[u := n]> m) m us !! i = if decide (i ∈ us) then Some n else m !! i.
Proof.
  revert m. induction us as [|u us IH]; intros m; cbn [foldl]; [by rewrite decide_False by set_solver|].
  rewrite IH, lookup_insert. repeat case_decide; set_solver.
Qed.
Lemma lookup_originals us (m : gmap I (Value I)) i :
  foldl (fun m u => <[u := Original u]> m) m us !! i = if decide (i ∈ us) then Some (Original i) else m !! i.
Proof.
  revert m. induction us as [|u us IH]; intros m; cbn [foldl]; [by rewrite decide_False by set_solver|].
  rewrite IH, lookup_insert. repeat case_decide; set_solver.
Qed.
End facts.

Section total.
Context {I C St : Type} `{EqDecision I, !Countable I} `{!Hlo I C, !AttrStore I St}.
Context `{!AcyclicLaws I C, !UsersLaws I C}.
Context (s : St) (es : gmap I (Entry I)) (c : C) (l : list I).
Implicit Types (i o x y : I) (b : BuildContext I) (bs : list (BuildContext I)).

Abbreviation task := (task_instruction s es).
Abbreviation indirect := (indirect s es).

(** What the order, the list [l] of instructions, has to satisfy. *)
Record groupable : Prop := {
  gr_classified : forall i, i ∈ l -> classified s es i;
  gr_topological : forall l1 x l2, l = l1 ++ x :: l2 -> forall o, o ∈ operands x -> o ∈ l1;
  gr_NoDup : NoDup l;
  (* roots and values between tasks are arrays *)
  gr_arrays : forall i, task i \/ (exists lp, loop lp /\ i ∈ users lp) \/ (indirect i /\ IsRoot c i = true) ->
    shape_IsTuple i = false;
  (* a marked root is computed by a task, and its mark is used by the root only *)
  gr_recolor : forall i, i ∈ l -> recolor i -> exists o, operand i 0 = OK o /\ task o;
  gr_recolor_uses : forall x o, x ∈ l -> o ∈ operands x -> recolor o ->
    ~ task x /\ forall y, y ∈ l -> x ∉ operands y;
  (* loops have their inputs in a tuple, and are used by their elements *)
  gr_loops : forall i, i ∈ l -> loop i ->
    exists o, operand i 0 = OK o /\ forall x, x ∈ operands o -> ~ loop x;
  gr_loop_users : forall i u, loop i -> u ∈ users i -> always u;
}.
Context (Hgr : groupable).

Lemma task_not_always i : i ∈ l -> task i -> ~ always i /\ ~ indirect i.
Proof.
  intros Hi (_ & _ & Hd). destruct (classified_cases s es i (gr_classified Hgr i Hi)) as (_ & _ & Ha).
  split; [intros Hal; by destruct (Ha Hal)|].
  unfold direct, GrouperOrder.indirect in *. unfold IncludeDirectlyInBuilder in Hd.
  unfold IncludeIndirectlyInBuilder. destruct (ReplicateInstruction s es i) as [[]| |]; done.
Qed.

Lemma head_operand i o : operand i 0 = OK o -> o ∈ operands i.
Proof. intros Ho. apply vec_at_lookup in Ho as [_ Ho]. by eapply list_elem_of_lookup_2. Qed.

(** An operand of a cloned instruction is cloned with it, available, or of a task. *)
Lemma operand_cases x o : x ∈ l -> o ∈ l -> o ∈ operands x ->
  task x \/ indirect x /\ (exists z, z ∈ l /\ x ∈ operands z) ->
  always o \/ indirect o \/ task o.
Proof.
  intros Hx Hol Ho Hcase.
  destruct (classified_cases s es o (gr_classified Hgr o Hol)) as (_ & [Ha|[Hd|Hi]] & _); [by left| |by right; left].
  right; right. split; [|split; [|done]].
  - intros Hrec. destruct (gr_recolor_uses Hgr x o Hx Ho Hrec) as [Hnt Hnu].
    destruct Hcase as [?|(_ & z & Hz & Hxz)]; [done|by apply (Hnu z)].
  - intros Hloop. assert (always x) as Hax by (apply (gr_loop_users Hgr o); [done|by apply users_spec]).
    destruct (classified_cases s es x (gr_classified Hgr x Hx)) as (_ & _ & Hn).
    destruct (Hn Hax) as [Hnd Hni]. destruct Hcase as [(_ & _ & ?)|[? _]]; done.
Qed.

(** ** The invariant of the first loop *)

Definition clean b : Prop :=
  clones_ b = ∅ /\ builder_ b = [] /\ parameters_ b = [] /\ producers_added_ b = ∅ /\
  (forall r, r ∈ roots_added_ b <-> r ∈ roots_ b).

Lemma clean_loop x : clean (loop_context x).
Proof. split_and!; try done. intros r. cbn. set_solver. Qed.
Lemma clean_new name color : clean (new_context name color).
Proof. split_and!; try done. intros r. cbn. set_solver. Qed.

(** Available to the task [n]: to every task, or computed by an earlier one. *)
Definition outside (asg : gmap I nat) (n : nat) o : Prop :=
  always o \/ task o /\ exists m, m < n /\ asg !! o = Some m.

(** A context of the instructions visited so far. *)
Record context_good (l1 : list I) (asg : gmap I nat) (n : nat) b : Prop := {
  cg_dfs : dfs_good s es b;
  cg_members : forall y, y ∈ instruction_dfs_ b -> y ∈ l1 /\
    (task y /\ asg !! y = Some n /\ Color s y = Some (color_ b) \/
     indirect y /\ exists z, z ∈ l /\ y ∈ operands z);
  cg_roots : forall r, r ∈ roots_ b -> r ∈ instruction_dfs_ b;
  cg_order : forall d1 y d2, instruction_dfs_ b = d1 ++ y :: d2 ->
    forall o, o ∈ operands y -> o ∈ d1 \/ outside asg n o;
}.

Definition slot_good (l1 : list I) (asg : gmap I nat) (n : nat) b : Prop :=
  clean b /\ match call_instruction_ b with
             | Some lp => loop lp /\ lp ∈ l1
             | None => context_good l1 asg n b
             end.

(** Where an instruction may be assigned. *)
Definition assigned_good (l1 : list I) x b : Prop :=
  match call_instruction_ b with
  | Some lp => loop lp /\ (x = lp \/ x ∈ users lp)
  | None => task x /\ x ∈ l1 /\ x ∈ instruction_dfs_ b
  end.

Record grouped (l1 : list I) (g : Grouping (I := I)) : Prop := {
  gi_slots : forall n b, builders g !! n = Some b -> slot_good l1 (builder_assignments g) n b;
  gi_assigned : forall x n, builder_assignments g !! x = Some n ->
    exists b, builders g !! n = Some b /\ assigned_good l1 x b;
  gi_task : forall x, x ∈ l1 -> task x -> exists n b,
    builder_assignments g !! x = Some n /\ builders g !! n = Some b /\ call_instruction_ b = None;
  gi_last : forall col, last_color g = Some col -> exists n b, current_builder g = Some n /\
    length (builders g) = S n /\ builders g !! n = Some b /\ call_instruction_ b = None /\ color_ b = col;
  gi_always : forall o, o ∈ l -> always o -> is_Some (gte_root_clones g !! o);
}.

Lemma context_good_mono l1 l1' asg asg' n b :
  (forall x, x ∈ l1 -> x ∈ l1') -> (forall x m, task x -> asg !! x = Some m -> asg' !! x = Some m) ->
  context_good l1 asg n b -> context_good l1' asg' n b.
Proof.
  intros Hl Ha [H1 H2 H3 H4]. split; [done| |done|].
  - intros y Hy. destruct (H2 y Hy) as [Hyl [(? & ? & ?)|?]]; split; auto.
  - intros d1 y d2 Heq o Ho. destruct (H4 d1 y d2 Heq o Ho) as [|[?|(? & m & ? & ?)]]; [by left|right; by left|].
    right; right. eauto 6.
Qed.

Lemma slot_good_mono l1 l1' asg asg' n b :
  (forall x, x ∈ l1 -> x ∈ l1') -> (forall x m, task x -> asg !! x = Some m -> asg' !! x = Some m) ->
  slot_good l1 asg n b -> slot_good l1' asg' n b.
Proof.
  intros Hl Ha [Hc Hs]. split; [done|]. destruct (call_instruction_ b); [naive_solver|].
  by eapply context_good_mono.
Qed.

Lemma assigned_good_mono l1 l1' x b :
  (forall x, x ∈ l1 -> x ∈ l1') -> assigned_good l1 x b -> assigned_good l1' x b.
Proof. unfold assigned_good. intros Hl. destruct (call_instruction_ b); naive_solver. Qed.

(** *** Roots *)

(** An assigned instruction that is not the loop itself is an array. *)
Lemma assigned_array l1 x b : assigned_good l1 x b -> ~ loop x -> shape_IsTuple x = false.
Proof.
  unfold assigned_good. intros Ha Hx. apply (gr_arrays Hgr). destruct (call_instruction_ b) as [lp|].
  - destruct Ha as [? [->|?]]; [done|right; left; eauto].
  - left. tauto.
Qed.

Lemma slot_good_core l1 asg n b b' : slot_good l1 asg n b -> core b' = core b ->
  same_roots b' -> producers_added_ b' = producers_added_ b -> color_ b' = color_ b ->
  instructions_added_ b' = instructions_added_ b ->
  (call_instruction_ b = None -> forall r, r ∈ roots_ b' -> r ∈ instruction_dfs_ b) ->
  slot_good l1 asg n b'.
Proof.
  intros [(H1 & H2 & H3 & H4 & _) Hs] Hcore Hsame Hp Hc Hi Hr.
  unfold core in Hcore. injection Hcore as E1 E2 E3 E4 E5. split.
  - unfold clean. rewrite E1, E2, E3, Hp. done.
  - rewrite E5. destruct (call_instruction_ b); [done|]. destruct Hs as [[G1 G2 G3] S2 S3 S4]. split.
    + split; rewrite ?Hi, E4; done.
    + by rewrite E4, Hc.
    + rewrite E4. by apply Hr.
    + by rewrite E4.
Qed.

Lemma assigned_good_core l1 x b b' : core b' = core b -> assigned_good l1 x b -> assigned_good l1 x b'.
Proof. unfold assigned_good, core. intros [= _ _ _ -> ->]. done. Qed.

(** Contexts that differ in their roots. *)
Definition alike b b' : Prop := core b' = core b /\ color_ b' = color_ b.
Definition all_alike bs bs' : Prop := Forall2 alike bs bs'.

Lemma all_alike_refl bs : all_alike bs bs.
Proof. apply Forall2_same_length_lookup_2; [done|]. intros i x y -> [= ->]. done. Qed.
Lemma all_alike_trans bs1 bs2 bs3 : all_alike bs1 bs2 -> all_alike bs2 bs3 -> all_alike bs1 bs3.
Proof.
  unfold all_alike. intros H1. revert bs3. induction H1 as [|b1 b2 bs1 bs2 [E1 E2] _ IH]; intros bs3 H2;
    inversion_clear H2 as [|? b3 ? bs3' [E3 E4] Hr]; constructor; [split; congruence|by apply IH].
Qed.
Lemma all_alike_lookup bs bs' n b : all_alike bs bs' -> bs !! n = Some b ->
  exists b', bs' !! n = Some b' /\ alike b b'.
Proof. intros H ?. by eapply Forall2_lookup_l in H. Qed.
Lemma all_alike_insert bs m b b' : bs !! m = Some b -> alike b b' -> all_alike bs (<[m := b']> bs).
Proof.
  intros Hb Hbb. rewrite <- (list_insert_id bs m b) at 1 by done.
  apply Forall2_insert; [apply all_alike_refl|done].
Qed.
Lemma alike_call b b' : alike b b' -> call_instruction_ b' = call_instruction_ b.
Proof. intros [Hc _]. unfold core in Hc. by injection Hc. Qed.
Lemma assigned_all_alike l1 bs bs' x n : all_alike bs bs' ->
  (exists b, bs !! n = Some b /\ assigned_good l1 x b) ->
  exists b, bs' !! n = Some b /\ assigned_good l1 x b.
Proof.
  intros Hall (b & Hb & Ha). destruct (all_alike_lookup bs bs' n b Hall Hb) as (b' & Hb' & Hcore & _).
  exists b'. split; [done|]. by eapply assigned_good_core.
Qed.

(** Making an assigned instruction a root. *)
Lemma update_AddRoot_OK l1 asg bs m o :
  (forall n b, bs !! n = Some b -> slot_good l1 asg n b) ->
  (exists b, bs !! m = Some b /\ assigned_good l1 o b) -> ~ loop o ->
  exists bs', update_builder m (AddRoot o) bs = OK bs' /\ all_alike bs bs' /\
    (forall n b, bs' !! n = Some b -> slot_good l1 asg n b).
Proof.
  intros Hs (b & Hb & Ha) Ho. unfold update_builder. rewrite Hb. cbn.
  destruct (Hs m b Hb) as [(_ & _ & _ & _ & Hsame) Hslot].
  destruct (AddRoot_OK o b (assigned_array l1 o b Ha Ho) Hsame) as (b' & -> & Hsame' & Hr & Hcore & Hp & Hc & Hi).
  cbn. eexists. split; [done|]. split; [by apply (all_alike_insert bs m b)|].
  intros n d [(<- & <- & _)|(? & Hd)]%list_lookup_insert_Some; [|by apply Hs].
  apply (slot_good_core l1 asg m b); [by apply Hs|done..|].
  intros Hnone r. rewrite Hr. unfold assigned_good in Ha. rewrite Hnone in Hslot, Ha.
  intros [?| ->]; [by apply (cg_roots _ _ _ _ Hslot)|tauto].
Qed.

Lemma add_loop_inputs_OK l1 asg bs ops :
  (forall n b, bs !! n = Some b -> slot_good l1 asg n b) ->
  (forall x n, asg !! x = Some n -> exists b, bs !! n = Some b /\ assigned_good l1 x b) ->
  (forall x, x ∈ ops -> ~ loop x) ->
  exists bs', foldM (add_loop_input asg) bs ops = OK bs' /\ all_alike bs bs' /\
    (forall n b, bs' !! n = Some b -> slot_good l1 asg n b).
Proof.
  intros Hs Ha Hops.
  apply (foldM_total (fun _ bs' => all_alike bs bs' /\ forall n b, bs' !! n = Some b -> slot_good l1 asg n b)).
  { split; [apply all_alike_refl|done]. }
  intros done x rest bs' -> [Hall Hs']. unfold add_loop_input.
  destruct (asg !! x) as [m|] eqn:Hm; [|by exists bs'].
  destruct (update_AddRoot_OK l1 asg bs' m x Hs') as (bs'' & -> & Hall' & Hs'').
  - eapply assigned_all_alike; [done|]. by apply Ha.
  - apply Hops. set_solver.
  - exists bs''. split_and!; [done|by eapply all_alike_trans|done].
Qed.

(** *** The cases of the first loop *)

Lemma always_not_direct i : always i -> ~ direct s es i.
Proof.
  unfold always, direct, IncludeDirectlyInBuilder. intros ->.
  destruct (ReplicateInstruction s es i) as [[]| |]; done.
Qed.
Lemma task_not_loop_user lp i : task i -> loop lp -> i ∉ users lp.
Proof. intros (_ & _ & Hd) Hlp Hu. by eapply always_not_direct, Hd; eapply (gr_loop_users Hgr). Qed.
Lemma task_color i : task i -> exists color, Color s i = Some color.
Proof.
  intros (_ & _ & Hd). unfold direct, IncludeDirectlyInBuilder, ReplicateInstruction in Hd.
  destruct (DerivedInput es i) as [d| |]; [cbn in Hd|done..].
  destruct (IsAssignedColor s i) eqn:Ha; [by apply IsAssignedColor_spec in Ha|].
  rewrite orb_true_r in Hd. done.
Qed.

(** A task instruction that has not been visited is not assigned. *)
Lemma unassigned l1 g x : grouped l1 g -> task x -> x ∉ l1 -> builder_assignments g !! x = None.
Proof.
  intros Hg Hx Hl1. apply eq_None_not_Some. intros [n Hn].
  destruct (gi_assigned _ _ Hg x n Hn) as (b & _ & Ha). unfold assigned_good in Ha.
  destruct (call_instruction_ b) as [lp|]; [|tauto].
  destruct Ha as [Hlp [->|Hu]]; [by destruct Hx as (_ & ? & _)|by eapply task_not_loop_user].
Qed.

Lemma grouped_alike l1 g bs' : grouped l1 g -> all_alike (builders g) bs' ->
  (forall n b, bs' !! n = Some b -> slot_good l1 (builder_assignments g) n b) ->
  grouped l1 (MkGrouping bs' (builder_assignments g) (gte_root_clones g) (last_color g) (current_builder g)).
Proof.
  intros [G1 G2 G3 G4 G5] Hall Hs. split; cbn; [done| | | |done].
  - intros x n Hx. eapply assigned_all_alike; [done|]. by apply G2.
  - intros x Hx Ht. destruct (G3 x Hx Ht) as (n & b & Hn & Hb & Hc).
    destruct (all_alike_lookup _ _ _ _ Hall Hb) as (b' & ? & Hbb). exists n, b'.
    split_and!; [done..|]. by rewrite (alike_call b b').
  - intros col Hcol. destruct (G4 col Hcol) as (n & b & Hn & Hlen & Hb & Hc & Hcb).
    destruct (all_alike_lookup _ _ _ _ Hall Hb) as (b' & ? & Hbb). exists n, b'.
    split_and!; [done| |done| |]; [by rewrite <- (Forall2_length _ _ _ Hall)| |].
    + by rewrite (alike_call b b').
    + destruct Hbb as [_ ?]. congruence.
Qed.

(** An instruction that is not put into a task. *)
Lemma grouped_skip l1 g x : grouped l1 g -> ~ task x -> grouped (l1 ++ [x]) g.
Proof.
  intros [G1 G2 G3 G4 G5] Hx. split; [| | |done..].
  - intros n b Hb. eapply slot_good_mono; [| |by apply G1]; [set_solver|done].
  - intros y n Hn. destruct (G2 y n Hn) as (b & ? & ?). exists b. split; [done|].
    eapply assigned_good_mono; [|done]. set_solver.
  - intros y [Hy|Hy%list_elem_of_singleton]%elem_of_app Ht; [by apply G3|]. by subst.
Qed.


Lemma in_prefix l1 x l2 : l = l1 ++ x :: l2 ->
  x ∈ l /\ ~ (x ∈ l1) /\ (forall y, y ∈ l1 -> y ∈ l) /\ (forall o, o ∈ operands x -> o ∈ l1) /\
  (forall y o, y ∈ l1 -> o ∈ operands y -> o ∈ l1).
Proof.
  intros Hl. pose proof (gr_NoDup Hgr) as Hnd. rewrite Hl in Hnd. apply NoDup_app in Hnd as (_ & Hnd & _).
  split_and!.
  - rewrite Hl. set_solver.
  - intros Hx. by apply (Hnd x Hx); left.
  - rewrite Hl. set_solver.
  - by apply (gr_topological Hgr l1 x l2).
  - intros y o (k1 & k2 & ->)%list_elem_of_split Ho.
    pose proof (gr_topological Hgr k1 y (k2 ++ x :: l2) ltac:(by rewrite Hl, <- app_assoc) o Ho). set_solver.
Qed.

Context (visits : nat).
Context (Hvisits : forall x, x ∈ l -> 2 + length (operands x) + sum_list ((fun x => 1 + length (operands x)) <$> l) <= visits).
Context (in_loop : bool).

Abbreviation step := (group_instruction s es visits in_loop).

Lemma step_recolor l1 x l2 g : l = l1 ++ x :: l2 -> grouped l1 g -> recolor x ->
  exists g', step g x = OK g' /\ grouped (l1 ++ [x]) g'.
Proof.
  intros Hl Hg Hx. destruct (in_prefix l1 x l2 Hl) as (Hxl & _ & _ & Hops & _).
  destruct (gr_recolor Hgr x Hxl Hx) as (o & Ho & Hto).
  unfold group_instruction. unfold recolor in Hx. rewrite Hx, Ho. cbn.
  destruct (gi_task _ _ Hg o (Hops o (head_operand x o Ho)) Hto) as (m & b & Hm & Hb & Hcall).
  rewrite Hm. destruct (update_AddRoot_OK l1 (builder_assignments g) (builders g) m o) as (bs' & -> & Hall & Hs).
  - apply (gi_slots _ _ Hg).
  - by apply (gi_assigned _ _ Hg).
  - apply Hto.
  - cbn. eexists. split; [done|]. apply grouped_skip; [|by intros (? & _)]. by apply grouped_alike.
Qed.

Lemma loop_slot_good l1 asg n x : loop x -> x ∈ l1 -> slot_good l1 asg n (loop_context x).
Proof. intros. split; [apply clean_loop|done]. Qed.

Lemma step_loop l1 x l2 g : l = l1 ++ x :: l2 -> grouped l1 g -> ~ recolor x -> loop x ->
  exists g', step g x = OK g' /\ grouped (l1 ++ [x]) g'.
Proof.
  intros Hl Hg Hnr Hx. destruct (in_prefix l1 x l2 Hl) as (Hxl & Hxl1 & _).
  destruct (gr_loops Hgr x Hxl Hx) as (o & Ho & Hoo).
  unfold group_instruction. apply not_true_is_false in Hnr. unfold loop in Hx. rewrite Hnr, Hx, Ho. cbn [mbind Result_bind].
  set (n := length (builders g)). set (bs0 := builders g ++ [loop_context x]).
  assert (grouped (l1 ++ [x]) g) as [G1 G2 G3 G4 G5].
  { apply grouped_skip; [done|]. intros (_ & Hnl & _). done. }
  assert (forall k b, bs0 !! k = Some b -> slot_good (l1 ++ [x]) (builder_assignments g) k b) as Hs0.
  { intros k b. unfold bs0. rewrite lookup_app_Some, list_lookup_singleton_Some. intros [?|(_ & _ & <-)]; [by apply G1|].
    apply loop_slot_good; [done|set_solver]. }
  assert (forall k b, builders g !! k = Some b -> bs0 !! k = Some b) as Hold by (intros; by apply lookup_app_l_Some).
  destruct (add_loop_inputs_OK (l1 ++ [x]) (builder_assignments g) bs0 (operands o) Hs0) as (bs & -> & Hall & Hs).
  { intros y m Hy. destruct (G2 y m Hy) as (b & Hb & ?). exists b. split; [by apply Hold|done]. }
  { done. }
  cbn. eexists. split; [done|]. split; cbn.
  - intros k b Hb. eapply slot_good_mono; [done| |by apply Hs]. intros y m Hy Hm.
    rewrite lookup_loop_users, decide_False by (by apply (task_not_loop_user x y)).
    rewrite lookup_insert_ne; [done|]. intros ->. by destruct Hy as (_ & ? & _).
  - intros y m. rewrite lookup_loop_users, lookup_insert.
    assert (exists b, bs0 !! n = Some b /\ call_instruction_ b = Some x) as (b & Hb & Hc).
    { exists (loop_context x). split; [|done]. unfold bs0, n. by rewrite lookup_app_r, Nat.sub_diag by lia. }
    assert (y = x \/ y ∈ users x -> exists b, bs !! n = Some b /\ assigned_good (l1 ++ [x]) y b) as Hn.
    { intros Hy. apply (assigned_all_alike (l1 ++ [x]) bs0 bs y n Hall). exists b. split; [done|].
      unfold assigned_good. rewrite Hc. split; [done|]. tauto. }
    repeat case_decide; intros Hm; simplify_eq; [by apply Hn; right|by apply Hn; left|].
    destruct (G2 y m Hm) as (b' & Hb' & Ha).
    apply (assigned_all_alike (l1 ++ [x]) bs0 bs y m Hall). exists b'. split; [by apply Hold|done].
  - intros y Hy Ht. destruct (G3 y Hy Ht) as (m & b & Hm & Hb & Hc).
    destruct (all_alike_lookup _ _ _ _ Hall (Hold m b Hb)) as (b' & Hb' & Hbb). exists m, b'.
    rewrite lookup_loop_users, decide_False by (by apply (task_not_loop_user x y)).
    rewrite lookup_insert_ne by (intros ->; by destruct Ht as (_ & ? & _)).
    split_and!; [done|done|]. by rewrite (alike_call b b').
  - done.
  - intros y Hy Hal. rewrite lookup_originals. case_decide; [done|by apply G5].
Qed.

(** The context that a task instruction is added to. *)
Definition opened (g : Grouping (I := I)) (color : string) : list (BuildContext I) * option nat :=
  if bool_decide (last_color g <> Some color)
  then (builders g ++ [new_context (if in_loop then color +:+ "_loop" else color) (Some color)],
        Some (length (builders g)))
  else (builders g, current_builder g).

Lemma new_context_good l1 asg n name color : context_good l1 asg n (new_context name color).
Proof.
  split; [apply dfs_good_new|cbn; set_solver|cbn; set_solver|]. intros d1 y d2 Heq. by destruct d1.
Qed.

Lemma opened_spec l1 g color : grouped l1 g -> exists bs n b,
  opened g color = (bs, Some n) /\ grouped l1 (MkGrouping bs (builder_assignments g) (gte_root_clones g) (Some color) (Some n)) /\
  bs !! n = Some b /\ length bs = S n /\ call_instruction_ b = None /\ color_ b = color.
Proof.
  intros [G1 G2 G3 G4 G5]. unfold opened. case_bool_decide as Hl.
  - set (b := new_context _ _). exists (builders g ++ [b]), (length (builders g)), b.
    assert ((builders g ++ [b]) !! length (builders g) = Some b) as Hn by (by rewrite lookup_app_r, Nat.sub_diag by lia).
    assert (forall k b', builders g !! k = Some b' -> (builders g ++ [b]) !! k = Some b') as Hold
      by (intros; by apply lookup_app_l_Some).
    assert (length (builders g ++ [b]) = S (length (builders g))) as Hlen by (rewrite length_app; cbn; lia).
    split_and!; try done. split; cbn; [| | | |done].
    + intros k b' [?|(_ & Hb)]%lookup_app_Some; [by apply G1|].
      apply list_lookup_singleton_Some in Hb as [_ <-]. split; [apply clean_new|apply new_context_good].
    + intros x m Hx. destruct (G2 x m Hx) as (b' & ? & ?). eauto.
    + intros x Hx Ht. destruct (G3 x Hx Ht) as (m & b' & ? & ? & ?). eauto 10.
    + intros col [= <-]. exists (length (builders g)), b. done.
  - destruct (G4 color Hl) as (n & b & Hcur & Hlen & Hb & Hc & Hcol).
    exists (builders g), n, b. rewrite Hcur. split_and!; try done. split; cbn; try done.
    intros col [= <-]. exists n, b. done.
Qed.

Lemma step_direct g x color : ~ recolor x -> ~ loop x -> direct s es x -> Color s x = Some color ->
  step g x = (let '(bs, current) := opened g color in
    n ← of_option NullDeref current;
    bs ← update_builder n (AddInstruction s es visits x) bs;
    OK (MkGrouping bs (<[x := n]> (builder_assignments g)) (gte_root_clones g) (Some color) current)).
Proof.
  unfold recolor, loop, direct. intros Hr%not_true_is_false Hl%not_true_is_false Hd Hc.
  unfold group_instruction. rewrite Hr, Hl, Hd. cbn [mbind Result_bind]. by rewrite Hc.
Qed.

(** The new instructions of a context come after their operands. *)
Lemma context_good_extended l1 x l2 asg n b new added' : l = l1 ++ x :: l2 ->
  context_good l1 asg n b -> dfs_good s es (with_dfs (instruction_dfs_ b ++ new ++ [x]) added' b) ->
  Forall (fun y => y ∈ l1 /\ needed s es l1 x y) new -> task x -> asg !! x = Some n -> Color s x = Some (color_ b) ->
  (forall o, o ∈ l1 -> task o -> exists m, asg !! o = Some m /\ (m < n \/ m = n /\ o ∈ instruction_dfs_ b)) ->
  context_good (l1 ++ [x]) asg n (with_dfs (instruction_dfs_ b ++ new ++ [x]) added' b).
Proof.
  intros Hl [C1 C2 C3 C4] Hgood Hnew Hx Hasg Hcol Hearlier. rewrite Forall_forall in Hnew.
  destruct (in_prefix l1 x l2 Hl) as (Hxl & Hxl1 & Hl1 & Hops & Hclosed).
  split; cbn.
  - done.
  - intros y [Hy|[Hy|Hy%list_elem_of_singleton]%elem_of_app]%elem_of_app.
    + destruct (C2 y Hy) as [? [?|?]]; (split; [set_solver|auto]).
    + destruct (Hnew y Hy) as [Hy1 (Hi & z & [->|Hz] & Hyz)]; (split; [set_solver|right; eauto]).
    + subst y. split; [set_solver|]. auto.
  - intros r Hr. apply elem_of_app. left. by apply C3.
  - intros d1 y d2 Heq o Ho.
    assert ((exists k, instruction_dfs_ b = d1 ++ y :: k) \/
            exists k, d1 = instruction_dfs_ b ++ k /\ new ++ [x] = k ++ y :: d2) as [[k Hk]|(k & -> & Hk)].
    { apply app_eq_inv in Heq as [([|y' k] & Hold & Hk)|(k & -> & Hk)]; cbn in Hk; [|by simplify_eq; eauto|by eauto].
      right. exists []. rewrite app_nil_r in *. split; cbn; congruence. }
    + by apply (C4 d1 y k).
    + rewrite elem_of_app.
      assert (y ∈ l1 ++ [x] /\ (task y \/ indirect y /\ exists z, z ∈ l /\ y ∈ operands z)) as [Hyl Hyc].
      { assert (y ∈ new ++ [x]) as [Hy|Hy%list_elem_of_singleton]%elem_of_app by (rewrite Hk; set_solver).
        - destruct (Hnew y Hy) as [Hy1 (Hi & z & [->|Hz] & Hyz)]; (split; [set_solver|right; eauto]).
        - subst y. split; [set_solver|by left]. }
      assert (o ∈ l1) as Hol by (apply elem_of_app in Hyl as [?|Hyx%list_elem_of_singleton];
        [by apply (Hclosed y)|subst; by apply Hops]).
      assert (y ∈ l) as Hyl' by (apply elem_of_app in Hyl as [?|Hyx%list_elem_of_singleton]; [by apply Hl1|by subst]).
      destruct (operand_cases y o Hyl' (Hl1 o Hol) Ho Hyc) as [?|[Hio|Hto]]; [by right; left| |].
      * left. apply elem_of_app. eapply (good_order _ _ _ Hgood (instruction_dfs_ b ++ k) y d2); [|done|done].
        cbn. by rewrite Hk, app_assoc.
      * destruct (Hearlier o Hol Hto) as (m & Hm & [Hlt|[-> Hin]]); [right; right; eauto|]. set_solver.
Qed.

Lemma extended_grouped l1 x g n b b' : grouped l1 g -> task x -> x ∉ l1 ->
  builders g !! n = Some b -> length (builders g) = S n -> call_instruction_ b = None ->
  last_color g = Some (color_ b) -> current_builder g = Some n ->
  call_instruction_ b' = None -> color_ b' = color_ b -> clean b' ->
  (forall y, y ∈ instruction_dfs_ b \/ y = x -> y ∈ instruction_dfs_ b') ->
  context_good (l1 ++ [x]) (<[x := n]> (builder_assignments g)) n b' ->
  grouped (l1 ++ [x]) (MkGrouping (<[n := b']> (builders g)) (<[x := n]> (builder_assignments g))
    (gte_root_clones g) (last_color g) (current_builder g)).
Proof.
  intros Hg Hx Hxl1 Hb Hlen Hc Hlast Hcur Hc' Hcol Hclean Hdfs Hgood.
  pose proof (unassigned l1 g x Hg Hx Hxl1) as Hun. destruct Hg as [G1 G2 G3 G4 G5].
  assert (<[n := b']> (builders g) !! n = Some b') as Hn by (apply list_lookup_insert_eq; lia).
  assert (forall m d, builders g !! m = Some d -> exists d', <[n := b']> (builders g) !! m = Some d' /\
    call_instruction_ d' = call_instruction_ d /\ (forall y, y ∈ instruction_dfs_ d -> y ∈ instruction_dfs_ d')) as Hold.
  { intros m d Hd. destruct (decide (m = n)) as [->|Hne].
    - rewrite Hb in Hd. injection Hd as <-. exists b'. split_and!; [done|congruence|naive_solver].
    - exists d. by rewrite list_lookup_insert_ne. }
  split; cbn; [| | | |done].
  - intros m d [(<- & <- & _)|(Hne & Hd)]%list_lookup_insert_Some.
    + split; [done|]. by rewrite Hc'.
    + eapply slot_good_mono; [| |by apply G1]; [set_solver|]. intros y k _ Hk.
      rewrite lookup_insert_ne; [done|]. intros ->. congruence.
  - intros y m [[<- <-]|[Hne Hm]]%lookup_insert_Some.
    + exists b'. split; [done|]. unfold assigned_good. rewrite Hc'. split_and!; [done|set_solver|apply Hdfs; by right].
    + destruct (G2 y m Hm) as (d & Hd & Ha). destruct (Hold m d Hd) as (d' & Hd' & Hcd & Hin).
      exists d'. split; [done|]. unfold assigned_good in *. rewrite Hcd.
      destruct (call_instruction_ d); [set_solver|]. destruct Ha as (? & ? & ?). split_and!; [done|set_solver|auto].
  - intros y [Hy|Hy%list_elem_of_singleton]%elem_of_app Ht.
    + destruct (G3 y Hy Ht) as (m & d & Hm & Hd & Hcd). destruct (Hold m d Hd) as (d' & Hd' & Hcd' & _).
      exists m, d'. split_and!; [|done|congruence]. rewrite lookup_insert_ne; [done|]. intros ->. done.
    + subst y. exists n, b'. by rewrite lookup_insert_eq.
  - intros col. rewrite Hlast. intros [= <-]. exists n, b'. rewrite length_insert. done.
Qed.

Lemma step_task l1 x l2 g : l = l1 ++ x :: l2 -> grouped l1 g -> task x ->
  exists g', step g x = OK g' /\ grouped (l1 ++ [x]) g'.
Proof.
  intros Hl Hg0 Hx. destruct (in_prefix l1 x l2 Hl) as (Hxl & Hxl1 & Hl1 & Hops & Hclosed).
  destruct (task_color x Hx) as [color Hcol].
  rewrite (step_direct g x color) by (done || apply Hx).
  destruct (opened_spec l1 g color Hg0) as (bs & n & b & -> & Hg & Hb & Hlen & Hc & Hbc). subst color.
  cbn [mbind Result_bind of_option]. unfold update_builder. rewrite Hb. cbn [mbind Result_bind of_option].
  set (g0 := MkGrouping _ _ _ _ _) in Hg.
  pose proof (unassigned l1 g0 x Hg Hx Hxl1) as Hun. cbn in Hun.
  pose proof (gi_slots _ _ Hg n b Hb) as [Hclean Hgood]. rewrite Hc in Hgood.
  assert (forall y m, task y -> builder_assignments g !! y = Some m -> <[x := n]> (builder_assignments g) !! y = Some m) as Hmono.
  { intros y m _ Hm. rewrite lookup_insert_ne; [done|]. intros ->. congruence. }
  apply (context_good_mono l1 l1 _ (<[x := n]> (builder_assignments g))) in Hgood; [|done|done].
  destruct (AddInstruction_spec s es l1 visits x b) as (new & added' & -> & Hdfs & Hnew).
  - intros y d. apply Hclosed.
  - intros y Hy. by apply (gr_classified Hgr), Hl1.
  - done.
  - done.
  - intros Hin. apply (cg_members _ _ _ _ Hgood) in Hin as [? _]. done.
  - apply (cg_dfs _ _ _ _ Hgood).
  - etrans; [|by apply (Hvisits x)]. rewrite Hl, fmap_app, sum_list_with_app. lia.
  - cbn [mbind Result_bind]. eexists. split; [done|].
    refine (extended_grouped l1 x g0 n b (with_dfs (instruction_dfs_ b ++ new ++ [x]) added' b) Hg Hx Hxl1 Hb Hlen Hc eq_refl eq_refl Hc eq_refl Hclean _ _).
    + intros y Hy. cbn. rewrite !elem_of_app, list_elem_of_singleton. tauto.
    + apply (context_good_extended l1 x l2); try done; [by rewrite lookup_insert_eq|].
      intros o Ho Hto. destruct (gi_task _ _ Hg o Ho Hto) as (m & d & Hm & Hd & Hcd). cbn in Hm, Hd.
      exists m. split; [by apply Hmono|]. apply lookup_lt_Some in Hd as Hlt. rewrite Hlen in Hlt.
      destruct (decide (m = n)) as [->|]; [right; split; [done|]|left; lia].
      destruct (gi_assigned _ _ Hg o n Hm) as (d' & Hd' & Ha). cbn in Hd'. rewrite Hb in Hd'. injection Hd' as <-.
      unfold assigned_good in Ha. rewrite Hc in Ha. tauto.
Qed.

#[local] Instance recolor_dec i : Decision (recolor i) := bool_eq_dec _ _.
#[local] Instance loop_dec i : Decision (loop i) := bool_eq_dec _ _.

Lemma step_grouped l1 x l2 g : l = l1 ++ x :: l2 -> grouped l1 g ->
  exists g', step g x = OK g' /\ grouped (l1 ++ [x]) g'.
Proof.
  intros Hl Hg. destruct (in_prefix l1 x l2 Hl) as (Hxl & _).
  destruct (decide (recolor x)) as [Hr|Hr]; [by eapply step_recolor|].
  destruct (decide (loop x)) as [Hlp|Hlp]; [by eapply step_loop|].
  destruct (classified_cases s es x (gr_classified Hgr x Hxl)) as ((([] & Hd) & _) & _).
  - eapply step_task; [done..|]. by split_and!.
  - exists g. split; [|apply grouped_skip; [done|]; intros (_ & _ & Hdt); unfold direct in Hdt; congruence].
    apply not_true_is_false in Hr, Hlp. unfold group_instruction. by rewrite Hr, Hlp, Hd.
Qed.

Lemma initial_grouped always_ops : (forall o, o ∈ l -> always o -> o ∈ always_ops) ->
  grouped [] (initial_grouping always_ops).
Proof.
  intros Ha. split; cbn; try done; [intros x Hx; by apply elem_of_nil in Hx|].
  intros o Ho Hal. rewrite lookup_originals, decide_True by auto. done.
Qed.

(** The first loop succeeds. *)
Lemma first_loop always_ops : (forall o, o ∈ l -> always o -> o ∈ always_ops) ->
  exists g, foldM step (initial_grouping always_ops) l = OK g /\ grouped l g.
Proof.
  intros Ha. apply (foldM_total grouped); [by apply initial_grouped|].
  intros done x rest st Hl Hg. by eapply step_grouped.
Qed.
End total.
