(* ===== verification/GrouperBuild.v ===== *)
(** * Building and calling the tasks (mpmd_computation_grouper.cc)

    The later loops of [GroupComputationIntoTasks] on a grouping that satisfies the
    invariant of GrouperTotal.v: every context is built, and its call finds its
    parameters among the parameters of the computation, the values available to every
    task and the roots of earlier tasks. *)
From S2P Require Import Prelude Hlo Instruction Utils InstructionProperties ColorDfs Dfs Grouper GrouperSemantics GrouperOrder GrouperTotal.
Local Open Scope nat_scope.

Lemma mapM_Result_total {A B} (f : A -> Result B) (l : list A) :
  (forall x, x ∈ l -> exists y, f x = OK y) -> exists ys, mapM_Result f l = OK ys.
Proof.
  intros Hf. destruct (foldM_total (fun _ _ => True) (fun acc x => y ← f x; OK (acc ++ [y])) [] l) as (ys & H & _).
  - done.
  - intros done x rest acc -> _. destruct (Hf x ltac:(set_solver)) as [y ->]. cbn. eauto.
  - by exists ys.
Qed.

(** The elements before a position of an enumerated list. *)
Lemma enumerate_prefix {A} (l : list A) done n b rest : zip (seq 0 (length l)) l = done ++ (n, b) :: rest ->
  l !! n = Some b /\ forall m d, m < n -> l !! m = Some d -> (m, d) ∈ done.
Proof.
  intros Heq.
  assert (forall k x, l !! k = Some x -> zip (seq 0 (length l)) l !! k = Some (k, x)) as Hat.
  { intros k x Hk. apply lookup_zip_Some. split; [|done]. apply lookup_seq. split; [done|by eapply lookup_lt_Some]. }
  assert (zip (seq 0 (length l)) l !! length done = Some (n, b)) as Hn by (rewrite Heq; by apply list_lookup_middle).
  apply lookup_zip_Some in Hn as [Hn Hb]. cbn in Hn, Hb. apply lookup_seq in Hn as [-> Hlt]. cbn in Hb |- *.
  split; [done|]. intros m d Hm Hd. apply Hat in Hd. rewrite Heq, lookup_app_l in Hd by done.
  by eapply list_elem_of_lookup_2.
Qed.

Section build.
Context {I C St : Type} `{EqDecision I, !Countable I} `{!Hlo I C, !AttrStore I St}.
Context `{!AcyclicLaws I C, !UsersLaws I C}.
Context (s : St) (es : gmap I (Entry I)) (c : C) (l : list I).
Implicit Types (i o x y : I) (b : BuildContext I) (bs : list (BuildContext I)).
Context (Hgr : groupable s es c l).
Context (g : Grouping (I := I)) (Hg : grouped s es l l g).

Abbreviation task := (task_instruction s es).
Abbreviation indirect := (indirect s es).
Abbreviation asg := (builder_assignments g).

(** ** The invariant of the build *)

(** What a later state of a context keeps. *)
Record ext b b' : Prop := {
  ext_call : call_instruction_ b' = call_instruction_ b;
  ext_dfs : instruction_dfs_ b' = instruction_dfs_ b;
  ext_color : color_ b' = color_ b;
  ext_clones : forall y, is_Some (clones_ b !! y) -> is_Some (clones_ b' !! y);
  ext_roots : forall r, r ∈ roots_ b -> r ∈ roots_ b';
}.
Definition exts bs bs' : Prop := Forall2 ext bs bs'.

Lemma ext_refl b : ext b b.
Proof. by split. Qed.
Lemma ext_trans b1 b2 b3 : ext b1 b2 -> ext b2 b3 -> ext b1 b3.
Proof. intros [] []. split; [congruence..|auto|auto]. Qed.
Lemma exts_refl bs : exts bs bs.
Proof. apply Forall2_same_length_lookup_2; [done|]. intros i x y -> [= ->]. apply ext_refl. Qed.
Lemma exts_trans bs1 bs2 bs3 : exts bs1 bs2 -> exts bs2 bs3 -> exts bs1 bs3.
Proof.
  unfold exts. intros H1. revert bs3. induction H1 as [|b1 b2 bs1 bs2 E _ IH]; intros bs3 H2;
    inversion_clear H2 as [|? b3 ? bs3' E' Hr]; constructor; [by eapply ext_trans|by apply IH].
Qed.
Lemma exts_lookup bs bs' n b : exts bs bs' -> bs !! n = Some b -> exists b', bs' !! n = Some b' /\ ext b b'.
Proof. intros H ?. by eapply Forall2_lookup_l in H. Qed.
Lemma exts_lookup_r bs bs' n b' : exts bs bs' -> bs' !! n = Some b' -> exists b, bs !! n = Some b /\ ext b b'.
Proof. intros H ?. by eapply Forall2_lookup_r in H. Qed.

(** A value that the call of the context [n] finds. *)
Definition provided bs n o : Prop :=
  o ∈ l /\ (always o \/ task o /\ exists m d, m < n /\ bs !! m = Some d /\ call_instruction_ d = None /\ o ∈ roots_ d).

Record slot_ok bs n b : Prop := {
  so_producers : producers_added_ b = ∅;
  so_roots : same_roots b;
  so_members : call_instruction_ b = None -> forall r, r ∈ roots_ b -> r ∈ instruction_dfs_ b;
  so_parameters : forall p, p ∈ parameters_ b -> provided bs n p;
}.
Definition building bs : Prop := exts (builders g) bs /\ forall n b, bs !! n = Some b -> slot_ok bs n b.

Lemma provided_mono bs bs' n o : exts bs bs' -> provided bs n o -> provided bs' n o.
Proof.
  intros He [Hol [Ha|(Ht & m & d & Hm & Hd & Hc & Ho)]]; (split; [done|]); [by left|right]. split; [done|].
  destruct (exts_lookup _ _ _ _ He Hd) as (d' & Hd' & [E1 E2 E3 E4 E5]). exists m, d'.
  split_and!; [done..|congruence|auto].
Qed.

Lemma building_insert bs m b b' : building bs -> bs !! m = Some b -> ext b b' -> slot_ok bs m b' ->
  building (<[m := b']> bs) /\ exts bs (<[m := b']> bs).
Proof.
  intros [He Hs] Hb Hbb [S1 S2 S3 S4].
  assert (exts bs (<[m := b']> bs)) as He'.
  { rewrite <- (list_insert_id bs m b) at 1 by done. apply Forall2_insert; [apply exts_refl|done]. }
  split; [|done]. split; [by eapply exts_trans|].
  intros n d [(<- & <- & _)|(_ & Hd)]%list_lookup_insert_Some.
  - split; [done..|]. intros p Hp. eapply provided_mono; [done|auto].
  - destruct (Hs n d Hd) as [T1 T2 T3 T4]. split; [done..|]. intros p Hp. eapply provided_mono; [done|auto].
Qed.

Lemma building_initial : building (builders g).
Proof.
  split; [apply exts_refl|]. intros n b Hb. destruct (gi_slots _ _ _ _ _ Hg n b Hb) as [(H1 & H2 & H3 & H4 & H5) Hs].
  split; [done|done| |by rewrite H3; intros p Hp%elem_of_nil].
  intros Hc. rewrite Hc in Hs. apply (cg_roots _ _ _ _ _ _ _ Hs).
Qed.

(** What the first loop says of a context that is being built. *)
Lemma building_slot bs n b : building bs -> bs !! n = Some b -> call_instruction_ b = None ->
  (forall y, y ∈ instruction_dfs_ b -> y ∈ l /\
     (task y /\ asg !! y = Some n /\ Color s y = Some (color_ b) \/ indirect y)) /\
  (forall d1 y d2, instruction_dfs_ b = d1 ++ y :: d2 ->
     forall o, o ∈ operands y -> o ∈ d1 \/ outside s es asg n o).
Proof.
  intros [He _] Hb Hc. destruct (exts_lookup_r _ _ _ _ He Hb) as (b0 & Hb0 & [E1 E2 E3 _ _]).
  destruct (gi_slots _ _ _ _ _ Hg n b0 Hb0) as [_ Hs]. rewrite <- E1, Hc in Hs.
  rewrite E2, E3. split; [|apply (cg_order _ _ _ _ _ _ _ Hs)].
  intros y Hy. destruct (cg_members _ _ _ _ _ _ _ Hs y Hy) as [? [?|[? _]]]; auto.
Qed.

Lemma building_assigned bs x n : building bs -> asg !! x = Some n ->
  exists b, bs !! n = Some b /\ assigned_good s es l x b.
Proof.
  intros [He _] Hx. destruct (gi_assigned _ _ _ _ _ Hg x n Hx) as (b0 & Hb0 & Ha).
  destruct (exts_lookup _ _ _ _ He Hb0) as (b & Hb & [E1 E2 _ _ _]). exists b. split; [done|].
  unfold assigned_good in *. by rewrite E1, E2.
Qed.

(** ** Build *)

Lemma AddConsumer_OK bs m o n b d : building bs -> bs !! m = Some b -> assigned_good s es l o b -> ~ loop o ->
  bs !! n = Some d ->
  exists bs', AddConsumer m o n bs = OK bs' /\ building bs' /\ exts bs bs' /\
    exists b', bs' !! m = Some b' /\ o ∈ roots_ b'.
Proof.
  intros Hbd Hb Ha Hol Hd. unfold AddConsumer. rewrite Hb. cbn [mbind Result_bind of_option].
  destruct (proj2 Hbd m b Hb) as [S1 S2 S3 S4]. rewrite S1, bool_decide_eq_false_2 by set_solver.
  destruct (AddRoot_OK o b (assigned_array s es c l Hgr l o b Ha Hol) S2) as (b1 & -> & Hsame & Hr & Hcore & Hp & Hcol & _).
  cbn [mbind Result_bind]. unfold core in Hcore. injection Hcore as E1 E2 E3 E4 E5.
  set (b2 := if bool_decide (n ∉ consumers_added_ b1) then _ else b1).
  assert (ext b b2 /\ slot_ok bs m b2 /\ o ∈ roots_ b2) as (Hext & Hok & Ho2).
  { assert (forall b2, (b2 = b1 \/ b2 = with_links (producers_ b1) (consumers_ b1 ++ [n]) b1) ->
      ext b b2 /\ slot_ok bs m b2 /\ o ∈ roots_ b2) as H; [|apply H; unfold b2; case_bool_decide; auto].
    intros b3 Hb3.
    assert (clones_ b3 = clones_ b /\ parameters_ b3 = parameters_ b /\ instruction_dfs_ b3 = instruction_dfs_ b /\
      call_instruction_ b3 = call_instruction_ b /\ producers_added_ b3 = ∅ /\ color_ b3 = color_ b /\
      roots_ b3 = roots_ b1 /\ same_roots b3) as (F1 & F2 & F3 & F4 & F5 & F6 & F7 & F8).
    { destruct Hb3 as [->| ->]; cbn; split_and!; congruence || done. }
    split_and!; [split; try congruence|split; [done|done| |by rewrite F2]|].
    - intros r. rewrite F7, Hr. auto.
    - intros Hnone r. rewrite F7, F3, Hr. rewrite F4 in Hnone. unfold assigned_good in Ha. rewrite Hnone in Ha.
      intros [?| ->]; [auto|tauto].
    - rewrite F7, Hr. auto. }
  destruct (building_insert bs m b b2 Hbd Hb Hext Hok) as [Hbd2 He2].
  destruct (exts_lookup _ _ _ _ He2 Hd) as (d2 & Hd2 & _). rewrite Hd2. cbn [mbind Result_bind of_option].
  assert (<[m := b2]> bs !! m = Some b2) as Hm2 by (apply list_lookup_insert_eq; by eapply lookup_lt_Some).
  case_bool_decide; [|eauto 10].
  set (d3 := with_links _ _ d2).
  assert (ext d2 d3) as Hext3 by (by split).
  destruct (building_insert _ n d2 d3 Hbd2 Hd2 Hext3) as [Hbd3 He3].
  { destruct (proj2 Hbd2 n d2 Hd2) as [T1 T2 T3 T4]. by split. }
  destruct (exts_lookup _ _ _ _ He3 Hm2) as (b' & Hb' & Hx). eexists. split_and!; [done|done|by eapply exts_trans|].
  exists b'. split; [done|]. by apply (ext_roots _ _ Hx).
Qed.

Lemma always_not_loop o : always o -> ~ loop o.
Proof.
  unfold always, loop, IsAlwaysTaskOperand, IsMicrobatchLoop. intros Ha Hl.
  apply andb_true_iff in Hl as [Hop%bool_decide_eq_true _]. by rewrite Hop in Ha.
Qed.

(** Adding a clone to a context. *)
Lemma add_clone_ok bs n b i node parameters : building bs -> bs !! n = Some b ->
  (forall p, p ∈ parameters -> p ∈ parameters_ b \/ provided bs n p) ->
  let bs' := <[n := with_clone i node parameters b]> bs in
  building bs' /\ exts bs bs' /\ exists b', bs' !! n = Some b' /\ ext b b' /\ is_Some (clones_ b' !! i).
Proof.
  intros Hbd Hb Hp bs'. destruct (proj2 Hbd n b Hb) as [S1 S2 S3 S4].
  assert (ext b (with_clone i node parameters b)) as Hext.
  { split; cbn; try done. intros y [k Hk]. rewrite lookup_insert. case_decide; eauto. }
  destruct (building_insert bs n b _ Hbd Hb Hext) as [? ?].
  { split; cbn; try done. intros p [?|?]%Hp; auto. }
  split_and!; [done..|]. exists (with_clone i node parameters b). split; [|split; [done|]].
  - apply list_lookup_insert_eq. by eapply lookup_lt_Some.
  - cbn. by rewrite lookup_insert_eq.
Qed.

(** The context [n] has clones of [cl]. *)
Definition cloned bs n (cl : list I) : Prop :=
  exists b, bs !! n = Some b /\ call_instruction_ b = None /\ forall y, y ∈ cl -> is_Some (clones_ b !! y).
Lemma cloned_mono bs bs' n cl : exts bs bs' -> cloned bs n cl -> cloned bs' n cl.
Proof.
  intros He (b & Hb & Hc & Hcl). destruct (exts_lookup _ _ _ _ He Hb) as (b' & Hb' & [E1 E2 E3 E4 E5]).
  exists b'. split_and!; [done|congruence|auto].
Qed.

Lemma build_operand_OK bs n cl acc o : building bs -> cloned bs n cl -> o ∈ l ->
  o ∈ cl \/ outside s es asg n o ->
  exists acc' bs', build_operand asg n (acc, bs) o = OK (acc', bs') /\ building bs' /\ exts bs bs'.
Proof.
  intros Hbd (b & Hb & Hc & Hcl) Hol Ho. unfold build_operand. rewrite Hb. cbn [mbind Result_bind of_option].
  destruct (clones_ b !! o) as [k|] eqn:Hk; [exists (acc ++ [k]), bs; split_and!; [done..|apply exts_refl]|].
  assert (outside s es asg n o) as Hout.
  { destruct Ho as [Hin|]; [|done]. destruct (Hcl o Hin) as [k Hk']. congruence. }
  assert (exists bs1, match asg !! o with Some m => AddConsumer m o n bs | None => OK bs end = OK bs1 /\
    building bs1 /\ exts bs bs1 /\ provided bs1 n o) as (bs1 & -> & Hbd1 & He1 & Hp).
  { destruct (asg !! o) as [m|] eqn:Hm.
    - destruct (building_assigned bs o m Hbd Hm) as (bm & Hbm & Ha).
      assert (~ loop o) as Hnl by (destruct Hout as [?|((_ & ? & _) & _)]; [by apply always_not_loop|done]).
      destruct (AddConsumer_OK bs m o n bm b Hbd Hbm Ha Hnl Hb) as (bs1 & -> & Hbd1 & He1 & d & Hd & Hod).
      exists bs1. split_and!; [done..|]. split; [done|].
      destruct Hout as [?|(Ht & m' & Hlt & Hm')]; [by left|right]. split; [done|].
      rewrite Hm in Hm'. injection Hm' as <-. exists m, d. split_and!; [done..| |done].
      destruct (building_assigned bs1 o m Hbd1 Hm) as (d' & Hd' & Ha').
      rewrite Hd in Hd'. injection Hd' as <-. unfold assigned_good in Ha'.
      destruct (call_instruction_ d) as [lp|]; [|done]. destruct Ha' as [Hlp [->|Hu]]; [done|].
      exfalso. by eapply (task_not_loop_user s es c l Hgr lp o).
    - exists bs. split_and!; [done..|apply exts_refl|]. split; [done|].
      destruct Hout as [?|(Ht & m' & Hlt & Hm')]; [by left|congruence]. }
  cbn [mbind Result_bind]. destruct (exts_lookup _ _ _ _ He1 Hb) as (b1 & Hb1 & _).
  rewrite Hb1. cbn [mbind Result_bind of_option].
  destruct (add_clone_ok bs1 n b1 o (NewParameter (Zlength (parameters_ b)) o) (parameters_ b1 ++ [o]) Hbd1 Hb1) as (Hbd2 & He2 & _).
  { intros p [?|Hpo%list_elem_of_singleton]%elem_of_app; [by left|right]. by subst. }
  eexists _, _. split; [done|]. split; [done|]. by eapply exts_trans.
Qed.

Lemma build_instruction_OK bs n cl i : building bs -> cloned bs n cl ->
  i ∈ l -> task i \/ indirect i -> (exists b, bs !! n = Some b /\ i ∈ instruction_dfs_ b) ->
  (forall o, o ∈ operands i -> o ∈ l /\ (o ∈ cl \/ outside s es asg n o)) ->
  exists bs', build_instruction c asg n bs i = OK bs' /\ building bs' /\ exts bs bs' /\ cloned bs' n (cl ++ [i]).
Proof.
  intros Hbd Hcl Hil Hkind (b & Hb & Hid) Hops. unfold build_instruction. rewrite Hb. cbn [mbind Result_bind of_option].
  assert (exists b1, (if IsRoot c i then AddRoot i b else OK b) = OK b1 /\ ext b b1 /\ slot_ok bs n b1) as (b1 & -> & Hext & Hok).
  { destruct (proj2 Hbd n b Hb) as [S1 S2 S3 S4]. destruct (IsRoot c i) eqn:Hr; [|by exists b; split_and!; [|apply ext_refl|]].
    assert (shape_IsTuple i = false) as Ht by (apply (gr_arrays _ _ _ _ Hgr); destruct Hkind; auto).
    destruct (AddRoot_OK i b Ht S2) as (b1 & -> & Hsame & Hroots & Hcore & Hp & Hcol & _).
    unfold core in Hcore. injection Hcore as E1 E2 E3 E4 E5. exists b1. split_and!; [done| |].
    - split; try congruence. intros r. rewrite Hroots. auto.
    - split; [congruence|done| |by rewrite E3]. intros Hc r. rewrite Hroots, E4. rewrite E5 in Hc.
      intros [?| ->]; auto. }
  destruct (building_insert bs n b b1 Hbd Hb Hext Hok) as [Hbd1 He1]. cbn [mbind Result_bind].
  destruct (foldM_total (fun _ st => building st.2 /\ exts bs st.2) (build_operand asg n) ([], <[n := b1]> bs) (operands i))
    as ([new_operands bs2] & -> & Hbd2 & He2); cbn [mbind Result_bind snd] in *.
  - done.
  - intros done o rest [acc bs1] Heq [Hbd' He']. cbn [snd] in *.
    destruct (Hops o ltac:(rewrite Heq; set_solver)) as [Hol Ho].
    destruct (build_operand_OK bs1 n cl acc o Hbd') as (acc' & bs2 & -> & Hbd2 & He2); [by eapply cloned_mono|done..|].
    exists (acc', bs2). split_and!; [done..|by eapply exts_trans].
  - destruct (exts_lookup _ _ _ _ He2 Hb) as (b2 & Hb2 & Hx2). rewrite Hb2. cbn [mbind Result_bind of_option].
    destruct (add_clone_ok bs2 n b2 i (NewClone i new_operands) (parameters_ b2) Hbd2 Hb2) as (Hbd3 & He3 & b3 & Hb3 & Hx3 & Hi); [auto|].
    eexists. split_and!; [done|done|by eapply exts_trans|]. exists b3. split; [done|].
    destruct Hcl as (b' & Hb' & Hc & Hcl). rewrite Hb in Hb'. injection Hb' as <-.
    pose proof (ext_trans _ _ _ Hx2 Hx3) as [E1 _ _ E4 _]. split; [congruence|].
    intros y [?|Hy%list_elem_of_singleton]%elem_of_app; [auto|by subst].
Qed.

Context (Hclosed : forall y o, y ∈ l -> o ∈ operands y -> o ∈ l).

Lemma Build_OK bs n b : building bs -> bs !! n = Some b -> call_instruction_ b = None ->
  exists bs', Build c asg n bs = OK bs' /\ building bs' /\ exts bs bs' /\ cloned bs' n (instruction_dfs_ b).
Proof.
  intros Hbd Hb Hc. unfold Build. rewrite Hb. cbn [mbind Result_bind of_option].
  destruct (building_slot bs n b Hbd Hb Hc) as [Hmem Hord].
  apply (foldM_total (fun cl bs' => building bs' /\ exts bs bs' /\ cloned bs' n cl)).
  - split_and!; [done|apply exts_refl|]. exists b. split_and!; [done..|]. intros y Hy%elem_of_nil. done.
  - intros cl i rest bs' Heq (Hbd' & He' & Hcl).
    destruct (Hmem i ltac:(rewrite Heq; set_solver)) as [Hil Hkind].
    destruct (build_instruction_OK bs' n cl i Hbd' Hcl Hil) as (bs'' & -> & Hbd'' & He'' & Hcl'').
    + destruct Hkind as [(? & _)|?]; auto.
    + destruct (exts_lookup _ _ _ _ He' Hb) as (b' & Hb' & Hx). exists b'. split; [done|].
      rewrite (ext_dfs _ _ Hx), Heq. set_solver.
    + intros o Ho. split; [by apply (Hclosed i)|]. by apply (Hord cl i rest).
    + exists bs''. split_and!; [done..|by eapply exts_trans|done].
Qed.

(** ** The second loop *)

Definition holds_always (clone_map : gmap I (Value I)) : Prop := forall o, o ∈ l -> always o -> is_Some (clone_map !! o).

(** All of the contexts of [done] are built. *)
Definition built bs (done : list nat) : Prop := forall n b, n ∈ done -> bs !! n = Some b ->
  call_instruction_ b = None -> forall y, y ∈ instruction_dfs_ b -> is_Some (clones_ b !! y).

Lemma built_mono bs bs' done : exts bs bs' -> built bs done -> built bs' done.
Proof.
  intros He Hbt n b' Hn Hb' Hc y Hy. destruct (exts_lookup_r _ _ _ _ He Hb') as (b & Hb & [E1 E2 E3 E4 E5]).
  apply E4, (Hbt n b); [done..|congruence|congruence].
Qed.

Context (rec : C -> I -> Result (list (C * Tasks (I := I)))).
Context (Hrec : forall lp, lp ∈ l -> loop lp -> exists body inner, called_computation lp 0 = OK body /\ rec body lp = OK inner).

Lemma second_loop : exists bs clone_map inner,
  foldM (build_context rec c asg) (builders g, gte_root_clones g, []) (seq 0 (length (builders g))) =
    OK (bs, clone_map, inner) /\
  building bs /\ built bs (seq 0 (length (builders g))) /\ holds_always clone_map.
Proof.
  destruct (foldM_total (fun done st => building st.1.1 /\ built st.1.1 done /\ holds_always st.1.2)
    (build_context rec c asg) (builders g, gte_root_clones g, []) (seq 0 (length (builders g))))
    as ([[bs cm] inner] & H & Hr); [| |by exists bs, cm, inner].
  - cbn. split_and!; [apply building_initial|by intros n b Hn%elem_of_nil|]. exact (gi_always _ _ _ _ _ Hg).
  - intros done n rest [[bs cm] inner] Heq (Hbd & Hbt & Ha). cbn in *.
    assert (n < length (builders g)) as Hn.
    { assert (n ∈ seq 0 (length (builders g))) as Hin by (rewrite Heq; set_solver). apply elem_of_seq in Hin. lia. }
    destruct (lookup_lt_is_Some_2 _ _ Hn) as [b0 Hb0]. destruct (exts_lookup _ _ _ _ (proj1 Hbd) Hb0) as (b & Hb & Hx).
    rewrite Hb. cbn [mbind Result_bind of_option]. destruct (call_instruction_ b) as [lp|] eqn:Hc.
    + destruct (gi_slots _ _ _ _ _ Hg n b0 Hb0) as [_ Hs]. rewrite <- (ext_call _ _ Hx), Hc in Hs.
      destruct (Hrec lp) as (body & inr & -> & Hrun); [tauto..|]. cbn [mbind Result_bind]. rewrite Hrun. cbn.
      eexists. split; [done|]. cbn. split_and!; [done| |].
      * intros m d [Hm|Hm%list_elem_of_singleton]%elem_of_app Hd Hcd; [by apply (Hbt m d)|]. subst m.
        rewrite Hb in Hd. congruence.
      * intros o Ho Hao. rewrite lookup_originals. case_decide; [done|auto].
    + destruct (Build_OK bs n b Hbd Hb Hc) as (bs' & -> & Hbd' & He' & Hcl). cbn. eexists. split; [done|]. cbn.
      split_and!; [done| |done].
      intros m d [Hm|Hm%list_elem_of_singleton]%elem_of_app Hd Hcd; [by apply (built_mono bs bs' done He' Hbt m d)|]. subst m.
      destruct Hcl as (d' & Hd' & _ & Hcl). rewrite Hd in Hd'. injection Hd' as <-.
      destruct (exts_lookup _ _ _ _ He' Hb) as (d' & Hd' & Hxd). rewrite Hd in Hd'. injection Hd' as <-.
      rewrite (ext_dfs _ _ Hxd). done.
Qed.

(** ** The calls *)

Lemma clone_roots_dom n irs (clone_map : gmap I (Value I)) y :
  is_Some (clone_map !! y) \/ y ∈ irs.*2 -> is_Some (foldl (clone_root n) clone_map irs !! y).
Proof.
  revert clone_map. induction irs as [|[k r] irs IH]; intros cm Hy; cbn in *; [set_solver|].
  apply IH. unfold clone_root. cbn. case_bool_decide as Hr.
  - destruct Hy as [?|[->|?]%elem_of_cons]; auto.
  - rewrite lookup_insert. case_decide; [left; eauto|]. destruct Hy as [?|[?|?]%elem_of_cons]; [by left|congruence|by right].
Qed.

Lemma ReplaceWithCall_OK bs n b clone_map : building bs -> bs !! n = Some b -> call_instruction_ b = None ->
  (forall y, y ∈ instruction_dfs_ b -> is_Some (clones_ b !! y)) -> holds_always clone_map ->
  (forall m d r, m < n -> bs !! m = Some d -> call_instruction_ d = None -> r ∈ roots_ d -> is_Some (clone_map !! r)) ->
  exists call clone_map', ReplaceWithCall n b clone_map = OK (call, clone_map') /\
    (forall y, is_Some (clone_map !! y) \/ y ∈ roots_ b -> is_Some (clone_map' !! y)).
Proof.
  intros Hbd Hb Hc Hcl Ha Hearlier. destruct (proj2 Hbd n b Hb) as [_ _ S3 S4].
  unfold ReplaceWithCall. destruct (roots_ b) as [|r0 rs] eqn:Hroots.
  { exists None, clone_map. split; [done|]. intros y [?|Hy%elem_of_nil]; done. }
  rewrite <- Hroots.
  assert (exists roots, mapM_Result (fun root => match clones_ b !! root with
    | Some k => OK k | None => Err kInvalidArgument "root for task has not been cloned" end) (roots_ b) = OK roots) as [roots ->].
  { apply mapM_Result_total. intros r Hr. rewrite Hroots in Hr. destruct (Hcl r (S3 Hc r Hr)) as [k ->]. eauto. }
  cbn [mbind Result_bind].
  destruct (mapM_Result_total (call_operand clone_map) (parameters_ b)) as [params ->].
  { intros p Hp. unfold call_operand. case_bool_decide; [eauto|].
    assert (is_Some (clone_map !! p)) as [v ->]; [|eauto].
    destruct (S4 p Hp) as [Hpl [Hpa|(_ & m & d & Hm & Hd & Hcd & Hpd)]]; [by apply Ha|by eapply Hearlier]. }
  cbn [mbind Result_bind]. eexists _, _. split; [done|]. intros y Hy. apply clone_roots_dom.
  rewrite snd_zip by (rewrite length_seqZ; unfold Zlength; lia). done.
Qed.

Lemma third_loop bs clone_map : building bs -> built bs (seq 0 (length bs)) -> holds_always clone_map ->
  exists calls clone_map', foldM call_step ([], clone_map) (zip (seq 0 (length bs)) bs) = OK (calls, clone_map') /\
    forall n b r, bs !! n = Some b -> call_instruction_ b = None -> r ∈ roots_ b -> is_Some (clone_map' !! r).
Proof.
  intros Hbd Hbt Ha.
  destruct (foldM_total (fun done st => holds_always st.2 /\
      forall m d r, (m, d) ∈ done -> call_instruction_ d = None -> r ∈ roots_ d -> is_Some (st.2 !! r))
    call_step ([], clone_map) (zip (seq 0 (length bs)) bs)) as ([calls cm] & H & _ & Hr).
  - split; [done|]. intros m d r Hm%elem_of_nil. done.
  - intros done [n b] rest [calls cm] Heq [Hal Hd]. cbn [snd] in *.
    destruct (enumerate_prefix bs done n b rest Heq) as [Hb Hprefix].
    unfold call_step. cbn [fst snd]. destruct (call_instruction_ b) as [lp|] eqn:Hc.
    { eexists. split; [done|]. cbn [snd]. split; [done|].
      intros m d r [Hm|Hm%list_elem_of_singleton]%elem_of_app Hcd Hr; [by eapply Hd|]. simplify_eq. }
    destruct (ReplaceWithCall_OK bs n b cm Hbd Hb Hc) as (call & cm' & -> & Hcm').
    + apply (Hbt n b); [|done..]. apply elem_of_seq. apply lookup_lt_Some in Hb. lia.
    + done.
    + intros m d r Hm Hdm. apply (Hd m). by apply Hprefix.
    + cbn [mbind Result_bind fst snd]. eexists. split; [done|]. cbn [snd]. split.
      * intros o Ho Hao. apply Hcm'. left. by apply Hal.
      * intros m d r [Hm|Hm%list_elem_of_singleton]%elem_of_app Hcd Hr; apply Hcm'; [left; by eapply Hd|].
        simplify_eq. by right.
  - exists calls, cm. split; [done|]. intros n b r Hb Hc Hrb. apply (Hr n b); [|done..].
    apply (list_elem_of_lookup_2 _ n), lookup_zip_Some. split; [|done]. apply lookup_seq.
    split; [done|by eapply lookup_lt_Some].
Qed.

Lemma fourth_loop bs clone_map :
  (forall n b r, bs !! n = Some b -> call_instruction_ b = None -> r ∈ roots_ b -> is_Some (clone_map !! r)) ->
  exists replacements, foldM (replace_step clone_map) [] bs = OK replacements.
Proof.
  intros Hr. destruct (foldM_total (fun _ _ => True) (replace_step clone_map) [] bs) as (r & ? & _); [done| |by exists r].
  intros done b rest acc Heq _. unfold replace_step. destruct (call_instruction_ b) eqn:Hc; [eauto|].
  unfold ReplaceRootsWithCallOutputs.
  destruct (mapM_Result_total (fun root => v ← of_option NullDeref (clone_map !! root); OK (root, v)) (roots_ b)) as [rs ->].
  - intros r Hrb. destruct (Hr (length done) b r) as [v ->]; [by rewrite Heq, list_lookup_middle|done..|]. cbn. eauto.
  - cbn. eauto.
Qed.

(** ** The tasks *)

Definition holds_task (bs : list (BuildContext I)) n i : Prop :=
  exists b, bs !! n = Some b /\ call_instruction_ b = None /\ i ∈ instruction_dfs_ b.

Lemma building_tasks bs : building bs ->
  (forall i, i ∈ l -> task i -> exists n b, bs !! n = Some b /\ call_instruction_ b = None /\
     Color s i = Some (color_ b) /\ i ∈ instruction_dfs_ b /\ forall m, holds_task bs m i -> m = n) /\
  (forall n b d1 y d2 o, bs !! n = Some b -> call_instruction_ b = None ->
     instruction_dfs_ b = d1 ++ y :: d2 -> o ∈ operands y ->
     o ∈ d1 \/ always o \/ exists m, m < n /\ holds_task bs m o).
Proof.
  intros Hbd.
  assert (forall i n b, bs !! n = Some b -> call_instruction_ b = None -> task i -> i ∈ instruction_dfs_ b ->
    asg !! i = Some n /\ Color s i = Some (color_ b)) as Hin.
  { intros i n b Hb Hc Ht Hi. destruct (building_slot bs n b Hbd Hb Hc) as [Hm _].
    destruct (Hm i Hi) as [Hil [(_ & ? & ?)|Hind]]; [done|].
    destruct (task_not_always s es c l Hgr i Hil Ht) as [_ ?]. done. }
  assert (forall i n, task i -> asg !! i = Some n -> exists b, bs !! n = Some b /\
    call_instruction_ b = None /\ i ∈ instruction_dfs_ b) as Hat.
  { intros i n Ht Hi. destruct (building_assigned bs i n Hbd Hi) as (b & Hb & Ha). exists b.
    unfold assigned_good in Ha. destruct (call_instruction_ b) as [lp|].
    - destruct Ha as [Hlp [->|Hu]]; [by destruct Ht as (_ & ? & _)|].
      exfalso. by eapply (task_not_loop_user s es c l Hgr lp i).
    - tauto. }
  split.
  - intros i Hi Ht. destruct (gi_task _ _ _ _ _ Hg i Hi Ht) as (n & b0 & Hn & _ & _).
    destruct (Hat i n Ht Hn) as (b & Hb & Hc & Hib). exists n, b. split_and!; [done..|by eapply Hin|done|].
    intros m (d & Hd & Hcd & Hid). destruct (Hin i m d Hd Hcd Ht Hid) as [? _]. congruence.
  - intros n b d1 y d2 o Hb Hc Heq Ho. destruct (building_slot bs n b Hbd Hb Hc) as [_ Hord].
    destruct (Hord d1 y d2 Heq o Ho) as [?|[?|(Ht & m & Hm & Ham)]]; [by left|by right; left|].
    right; right. exists m. split; [done|]. destruct (Hat o m Ht Ham) as (d & ?). by exists d.
Qed.
End build.

(** ** GroupComputationIntoTasks *)

Section grouping.
Context {I C St : Type} `{EqDecision I, !Countable I} `{!Hlo I C, !AttrStore I St}.
Context `{!AcyclicLaws I C, !UsersLaws I C}.

(** C16: The grouping of a computation succeeds.  Every task instruction is in exactly one
    task, which has its color, and the operands of the instructions of a task are
    before them in the task, or available to every task, or in an earlier task. *)
Theorem GroupComputation_succeeds (s : St) (es : gmap I (Entry I)) (instructions : C -> list I)
    (rec : C -> I -> Result (list (C * Tasks (I := I)))) (visits : nat) (c : C) (parent_call : option I)
    (always_ops l : list I) :
  always_operands (instructions c) = OK always_ops ->
  (forall o, o ∈ l -> always o -> o ∈ always_ops) ->
  ColorSortedPostorder visits s c = OK l ->
  groupable s es c l ->
  (forall x, x ∈ l -> 2 + length (operands x) + sum_list ((fun x => 1 + length (operands x)) <$> l) <= visits) ->
  (forall lp, lp ∈ l -> loop lp -> exists body inner, called_computation lp 0 = OK body /\ rec body lp = OK inner) ->
  exists inner tasks,
    GroupComputation s es instructions rec visits c parent_call = OK (inner ++ [(c, tasks)]) /\
    (forall i, i ∈ l -> task_instruction s es i ->
       exists n b, task_contexts tasks !! n = Some b /\ call_instruction_ b = None /\
         Color s i = Some (color_ b) /\ i ∈ instruction_dfs_ b /\
         forall m, holds_task (task_contexts tasks) m i -> m = n) /\
    (forall n b d1 y d2 o, task_contexts tasks !! n = Some b -> call_instruction_ b = None ->
       instruction_dfs_ b = d1 ++ y :: d2 -> o ∈ operands y ->
       o ∈ d1 \/ always o \/ exists m, m < n /\ holds_task (task_contexts tasks) m o).
Proof.
  intros Hops Ha Hl Hgr Hv Hrec. unfold GroupComputation. rewrite Hops, Hl. cbn [mbind Result_bind].
  destruct (first_loop s es c l Hgr visits Hv
    match parent_call with Some p => bool_decide (opcode p = kWhile) | None => false end always_ops Ha) as (g & -> & Hg).
  cbn [mbind Result_bind].
  assert (forall y o, y ∈ l -> o ∈ operands y -> o ∈ l) as Hclosed.
  { intros y o (l1 & l2 & ->)%list_elem_of_split Ho.
    pose proof (gr_topological _ _ _ _ Hgr l1 y l2 eq_refl o Ho). set_solver. }
  destruct (second_loop s es c l Hgr g Hg Hclosed rec Hrec) as (bs & cm & inner & -> & Hbd & Hbt & Hal).
  cbn [mbind Result_bind].
  rewrite (Forall2_length _ _ _ (proj1 Hbd)) in Hbt.
  destruct (third_loop s es c l Hgr g Hg Hclosed rec Hrec bs cm Hbd Hbt Hal) as (calls & cm' & -> & Hroots). cbn [mbind Result_bind].
  destruct (fourth_loop bs cm' Hroots) as [repl ->]. cbn [mbind Result_bind].
  exists inner, (MkTasks bs calls repl). split; [done|]. cbn [task_contexts].
  by apply (building_tasks s es c l Hgr g Hg).
Qed.
End grouping.

(** A computation with two tasks around a loop; a marked root. *)
Module LoopSample.
Definition get (ops : list nat) : Graph.node := Graph.Node kGetTupleElement ops 0 [] "" "" false 1 false.
Definition tuple (ops : list nat) : Graph.node := Graph.Node kTuple ops 0 [] "" "" true 1 false.
Definition nodes : list Graph.node := [
  (* the body *)
  Graph.Node kParameter [] 0 [] "" "" true 1 false; get [0]; Graph.op kNegate [1]; tuple [2];
  (* the computation *)
  Graph.op kParameter []; Graph.op kAdd [4; 4]; tuple [5];
  Graph.Node kWhile [6] 0 [0] "" "" true 1 false; get [7]; Graph.op kNegate [8];
  Graph.Node kCustomCall [9] 0 [] kCustomCallRootTupleRecolor "" false 1 false; tuple [10]]%nat.
Definition comps : list Graph.comp := [
  Graph.Comp 3 [0] [0; 1; 2; 3]; Graph.Comp 11 [4] [4; 5; 6; 7; 8; 9; 10; 11]]%nat.
#[global] Instance hlo : Hlo nat nat := Graph.hlo nodes comps.
#[global] Instance acyclic : AcyclicLaws nat nat := Graph.acyclic_laws nodes comps eq_refl.
#[global] Instance users_laws : UsersLaws nat nat := Graph.users_laws nodes comps.
Definition colors : AttrMap.t :=
  AssignColor 2%nat "a" (AssignColor 5%nat "a" (AssignColor 9%nat "b" (AssignColor 10%nat "b" ∅))).
Definition entries : gmap nat (Entry nat) :=
  match CreateProperties 100 5 1%nat with OK es => es | _ => ∅ end.
Definition instructions (c : nat) : list nat := Graph.c_order (nth c comps Graph.dummy_comp).
Definition rec (body loop : nat) := GroupComputationIntoTasks colors entries instructions 2 60 body (Some loop).
Definition l : list nat := [4; 5; 6; 7; 8; 9; 10; 11]%nat.

Lemma instruction_cases (P : nat -> Prop) : Forall P (seq 0 12) -> (forall i, Graph.at_ nodes i = Graph.dummy -> P i) ->
  forall i, P i.
Proof.
  intros Hs Hd i. destruct (decide (i < 12)) as [Hi|Hi].
  - apply (proj1 (Forall_forall _ _) Hs), elem_of_seq. lia.
  - apply Hd. unfold Graph.at_. apply nth_overflow. cbn. lia.
Qed.
Lemma loop_is_7 i : loop i -> i = 7.
Proof.
  revert i. apply (instruction_cases (fun i => loop i -> i = 7)); [repeat constructor; vm_compute; congruence|].
  intros i Hi. unfold loop, IsMicrobatchLoop. change (opcode i) with (Graph.n_opcode (Graph.at_ nodes i)).
  by rewrite Hi.
Qed.
Lemma recolor_is_10 i : recolor i -> i = 10.
Proof.
  revert i. apply (instruction_cases (fun i => recolor i -> i = 10)); [repeat constructor; vm_compute; congruence|].
  intros i Hi. unfold recolor, IsCustomCall. change (opcode i) with (Graph.n_opcode (Graph.at_ nodes i)).
  by rewrite Hi.
Qed.
Lemma arrays i : ~ i ∈ [0; 3; 6; 7; 11] -> shape_IsTuple i = false.
Proof.
  revert i. apply (instruction_cases (fun i => ~ i ∈ [0; 3; 6; 7; 11] -> shape_IsTuple i = false)).
  - repeat constructor; cbn; try (intros _; done); intros H; exfalso; apply H; set_solver.
  - intros i Hi _. change (Graph.n_tuple (Graph.at_ nodes i) = false). by rewrite Hi.
Qed.

Lemma tuples_excluded : Forall (fun i =>
    ~ direct colors entries i /\ ~ (i ∈ [8]) /\ ~ (indirect colors entries i /\ IsRoot 1%nat i = true)) [0; 3; 6; 7; 11].
Proof.
  repeat (apply List.Forall_cons; [split_and!; [by vm_compute|set_solver|intros [Hi Hr]; by vm_compute in Hi, Hr]|]).
  constructor.
Qed.

Lemma in_order : forall k x, l !! k = Some x -> Forall (.∈ take k l) (operands x).
Proof.
  intros k x Hk. pose proof (lookup_lt_Some _ _ _ Hk) as Hlt. cbn in Hlt.
  do 8 (destruct k as [|k]; [injection Hk as <-; apply (bool_decide_unpack _); by vm_compute|]). lia.
Qed.

Lemma sample_groupable : groupable colors entries 1%nat l.
Proof.
  split.
  - apply Forall_forall. repeat (apply List.Forall_cons; [split; vm_compute; eauto|]). constructor.
  - intros l1 x l2 Hl o Ho.
    destruct (split_lookup l l1 l2 x Hl) as [Hx Ht].
    rewrite <- Ht. by apply (proj1 (Forall_forall _ _) (in_order _ _ Hx)).
  - by apply (bool_decide_unpack _); vm_compute.
  - intros i Hi. apply arrays. intros Hin. destruct (proj1 (Forall_forall _ _) tuples_excluded i Hin) as (Hd & Hu & Hr).
    destruct Hi as [(_ & _ & ?)|[(lp & ->%loop_is_7 & Hlp)|?]]; [done| |done].
    apply Hu. vm_compute in Hlp. exact Hlp.
  - intros i _ ->%recolor_is_10. exists 9. split_and!; [done|by vm_compute..].
  - intros x o Hx Ho Hr.
    apply recolor_is_10 in Hr as ->.
    assert (x = 11) as ->.
    { revert x Hx Ho. apply (Forall_forall (fun x => 10 ∈ operands x -> x = 11)), (bool_decide_unpack _). by vm_compute. }
    split; [by intros (_ & _ & Hd); vm_compute in Hd|].
    apply (Forall_forall (fun y => ~ 11 ∈ operands y)), (bool_decide_unpack _). by vm_compute.
  - intros i _ ->%loop_is_7. exists 6. split; [done|]. intros x Hx ->%loop_is_7.
    revert Hx. apply (bool_decide_unpack _). by vm_compute.
  - intros i u ->%loop_is_7 Hu. revert u Hu.
    apply (Forall_forall (fun u => always u)). apply List.Forall_cons; [by vm_compute|constructor].
Qed.

Lemma always_ops : forall o, o ∈ l -> always o -> o ∈ [4; 8].
Proof.
  unfold always. apply (Forall_forall (fun o => IsAlwaysTaskOperand o = OK true -> o ∈ [4; 8])), (bool_decide_unpack _).
  by vm_compute.
Qed.
Lemma enough_visits : forall x, x ∈ l ->
  2 + length (operands x) + sum_list ((fun x => 1 + length (operands x)) <$> l) <= 60.
Proof.
  apply (Forall_forall (fun x => 2 + length (operands x) + sum_list ((fun x => 1 + length (operands x)) <$> l) <= 60)),
    (bool_decide_unpack _). by vm_compute.
Qed.
Lemma loop_body : forall lp, lp ∈ l -> loop lp ->
  exists body inner, called_computation lp 0 = OK body /\ rec body lp = OK inner.
Proof.
  intros lp _ ->%loop_is_7. destruct (rec 0%nat 7%nat) as [inner| |] eqn:Hr; [|by vm_compute in Hr..].
  exists 0%nat, inner. split; [reflexivity|exact Hr].
Qed.
Lemma always_list : always_operands (instructions 1%nat) = OK [4; 8].
Proof. by vm_compute. Qed.
Lemma order_l : ColorSortedPostorder 60 colors 1%nat = OK l.
Proof. by vm_compute. Qed.
Lemma in_l : 9 ∈ l.
Proof. apply (bool_decide_unpack _). by vm_compute. Qed.
Lemma is_task : task_instruction colors entries 9.
Proof. split_and!; by vm_compute. Qed.
End LoopSample.

Lemma GroupComputation_succeeds_witness :
  exists inner tasks, GroupComputation LoopSample.colors LoopSample.entries LoopSample.instructions
      LoopSample.rec 60 1%nat None = OK (inner ++ [(1%nat, tasks)]) /\
    exists n b, task_contexts tasks !! n = Some b /\ Color LoopSample.colors 9%nat = Some (color_ b) /\
      9 ∈ instruction_dfs_ b.
Proof.
  destruct (GroupComputation_succeeds LoopSample.colors LoopSample.entries LoopSample.instructions
    LoopSample.rec 60 1%nat None [4; 8] LoopSample.l LoopSample.always_list LoopSample.always_ops LoopSample.order_l
    LoopSample.sample_groupable LoopSample.enough_visits LoopSample.loop_body) as (inner & tasks & Hrun & Htask & _).
  exists inner, tasks. split; [exact Hrun|].
  destruct (Htask 9 LoopSample.in_l LoopSample.is_task) as (n & b & Hb & _ & Hc & Hi & _).
  exists n, b. auto.
Defined.
