(* ===== verification/TaskScheduler.v ===== *)
(** * Tasks and their schedule (mpmd_partition.cc, mpmd_store.h)

    [MpmdPartitionIntoTasks] turns the grouped module into a list of operations, tasks
    and reshards, over stores: every parameter, output of a task and reshard gets a
    store under its scheduling name, and instructions with the same scheduling name
    share one.  The check for circular dependencies between the passes is here, too.

    The clone of a called computation that a task runs is named by the computation;
    its aliases are those of BufferAlias.v.  The configuration of the clone and its
    cost analysis only have a status. *)
From S2P Require Import Prelude Hlo Instruction Partition Sharding Utils BufferAlias.
Local Open Scope Z_scope.

(** ** Stores and operations *)

Inductive StoreType := PARAM | ROOT | TEMP.
#[export] Instance StoreType_eq_dec : EqDecision StoreType.
Proof. solve_decision. Defined.
#[export] Instance StoreType_countable : Countable StoreType.
Proof.
  by apply (inj_countable' (fun t => match t with PARAM => 0 | ROOT => 1 | TEMP => 2 end)%nat
    (fun n => match n with O => PARAM | 1 => ROOT | _ => TEMP end)%nat); intros [].
Defined.

(** The default shape of a store without data is [None]. *)
Record Store (D HS : Type) := MkStore {
  store_type : StoreType;
  store_index : Z;
  store_name : string;
  scalar : bool;
  sharded_shape : option (ShardedShape D);
  mpmd_sharding : HS;
  store_shape : Shape;
}.
Arguments MkStore {_ _} _ _ _ _ _ _ _.
Arguments store_type {_ _} _. Arguments store_index {_ _} _. Arguments store_name {_ _} _.
Arguments scalar {_ _} _. Arguments sharded_shape {_ _} _. Arguments mpmd_sharding {_ _} _.
Arguments store_shape {_ _} _.

Record ScalarArgument := MkScalar { scalar_value : Z; scalar_parameter : Z }.

(** The module of a task: the computation it is a clone of and its configuration. *)
Record SpmdModule (C A HS : Type) := MkModule {
  module_computation : C;
  loop_increment : bool;
  slice_param_number : option Z;
  module_aliases : A;
  root_sharding : option HS;
  num_partitions : Z;
}.
Arguments MkModule {_ _ _} _ _ _ _ _ _.
Arguments module_computation {_ _ _} _. Arguments loop_increment {_ _ _} _.
Arguments slice_param_number {_ _ _} _. Arguments module_aliases {_ _ _} _.
Arguments root_sharding {_ _ _} _. Arguments num_partitions {_ _ _} _.

Inductive MpmdOperation (C A D HS : Type) :=
  | SpmdHloModuleTask (module : SpmdModule C A HS) (device_assignment : D)
      (inputs outputs : list (Store D HS)) (scalars : list ScalarArgument) (is_loop : bool)
  | Reshard (input output : Store D HS)
  | FreeStore (store : Store D HS)
  | CreateStore (store : Store D HS).
Arguments SpmdHloModuleTask {_ _ _ _} _ _ _ _ _ _. Arguments Reshard {_ _ _ _} _ _.
Arguments FreeStore {_ _ _ _} _. Arguments CreateStore {_ _ _ _} _.

(** What the scheduler reads of instructions besides the graph. *)
Class ScheduledInstruction (I C HS : Type) := {
  scheduling_name : I -> string;
  hlo_shape : I -> Shape;
  sharding_of : I -> option HS;
  tuple_shapes_size : I -> Z;
  computation_name : C -> string;
}.

(** Donors and aliases of the module, and of a module without any. *)
Class ModuleAliases (A B : Type) := {
  GetAliasedOutput : A -> Z -> option (list Z);
  no_aliases : A;
  no_donors : B;
  AddBufferDonor : Z -> B -> Result B;
}.

(** ** ValidateCircularDependencies *)
Section validate.
Context {I C : Type} `{EqDecision I, !Countable I} `{!Hlo I C}.

Definition check_operands (visited : gset I) (i : I) : Result (gset I) :=
  if forallb (fun o => bool_decide (o ∈ visited)) (operands i) then OK ({[i]} ∪ visited)
  else Err kInvalidArgument "operand was not visited, circular dependency".

(** The head of [to_visit] is the back of the vector. *)
Fixpoint validate_loop (fuel : nat) (to_visit : list C) : Result bool :=
  match fuel with
  | O => Fatal Diverges
  | S fuel =>
      match to_visit with
      | [] => OK false
      | next :: to_visit =>
          r ← foldM (fun '(visited, to_visit) i =>
                visited ← check_operands visited i;
                OK (visited, reverse (called_computations i) ++ to_visit))
              (∅, to_visit) (MakeInstructionPostOrder next);
          validate_loop fuel (r : gset I * list C).2
      end
  end.
Definition ValidateCircularDependencies_Run (fuel : nat) (entry : C) : Result bool :=
  validate_loop fuel [entry].
End validate.

Section scheduler.
Context {I C St D HS A B : Type} `{EqDecision I, !Countable I, EqDecision C, !Countable C, EqDecision D, !Countable D}.
Context `{!HashOrder}.
Context `{!Hlo I C, !AttrStore I St, !DeviceListApi D, !HloShardingApi HS, !ScheduledInstruction I C HS}.
Context `{!AliasModule I C, !AliasConfig A, !BufferDonors B, !ModuleAliases A B}.
Implicit Types (i : I) (c : C).
Abbreviation Store := (Store D HS).
Abbreviation Module_ := (SpmdModule C A HS).
Abbreviation Operation := (MpmdOperation C A D HS).

(** [IsTileMaximalLeaf] of a sharding, [absl::SimpleAtoi]. *)
Context (IsTileMaximalLeaf : HS -> bool) (SimpleAtoi : string -> option Z).
Context (partition_ : HloPartition D) (s : St).
(** The configuration of the module. *)
Context (allow_to_parameters allow_to_output : list bool).
Context (module_alias_config : A) (module_donor_config : B).
(** The status of making and of analysing the clone of a computation; the check and
    the dynamic shapes of BufferAlias.v. *)
Context (clone_status cost_status : C -> Result unit) (verify : C -> A -> Result unit) (output_is_dynamic : C -> bool).

(** ** ToMpmdSharding *)

(** The last argument is not read. *)
Definition ToMpmdSharding (shape : Shape) (iota_sharding : HS) (task_devices global_devices : D)
    (use_submesh_sharding : bool) : Result HS :=
  if IsReplicated iota_sharding && bool_decide (task_devices = global_devices) then OK Replicate
  else if bool_decide (dl_size task_devices = 1) &&
          (IsTileMaximalLeaf iota_sharding || IsReplicated iota_sharding)
  then OK (AssignDevice (dl_start task_devices))
  else
    let proto := ToProto iota_sharding in
    let proto :=
      if bool_decide (os_iota_reshape_dims proto <> []) then
        MkOpSharding (os_type proto) (os_tile_assignment_dimensions proto) (os_tile_assignment_devices proto)
          (os_iota_reshape_dims proto) (os_iota_transpose_perm proto) (dl_start task_devices)
          (os_replicate_on_last_tile_dim proto)
      else
        MkOpSharding (os_type proto) (os_tile_assignment_dimensions proto)
          (dl_at task_devices <$> os_tile_assignment_devices proto)
          (os_iota_reshape_dims proto) (os_iota_transpose_perm proto) (os_iota_offset proto)
          (os_replicate_on_last_tile_dim proto) in
    let proto :=
      if IsReplicated iota_sharding && bool_decide (dimensions shape <> []) then
        MkOpSharding OTHER
          (os_tile_assignment_dimensions proto ++ replicate (length (dimensions shape)) 1 ++ [dl_size task_devices])
          (os_tile_assignment_devices proto)
          (os_iota_reshape_dims proto ++ [dl_size task_devices]) (os_iota_transpose_perm proto ++ [0])
          (dl_start task_devices) true
      else proto in
    FromProto proto.

Definition ToMpmdSharding_instruction i (task_devices global_devices : D) (use_submesh_sharding : bool)
    : Result HS :=
  match sharding_of i with
  | Some sharding => ToMpmdSharding (hlo_shape i) sharding task_devices global_devices use_submesh_sharding
  | None => ToMpmdSharding (hlo_shape i) Replicate task_devices global_devices use_submesh_sharding
  end.

(** ** MpmdScheduler *)

Record MpmdScheduler := MkScheduler {
  already_scheduled_ : gset I;
  schedule_ : list Operation;
  scheduling_name_to_buffer_index_ : gmap string Store;
  last_use_ : gmap I I;
  modules_ : gmap C Module_;
  num_temp_stores_ : Z;
}.
Implicit Types (st : MpmdScheduler).

Definition empty_scheduler : MpmdScheduler := MkScheduler ∅ [] ∅ ∅ ∅ 0.

Definition with_stores (stores : gmap string Store) (temps : Z) st : MpmdScheduler :=
  MkScheduler (already_scheduled_ st) (schedule_ st) stores (last_use_ st) (modules_ st) temps.
Definition push_operation (op : Operation) st : MpmdScheduler :=
  MkScheduler (already_scheduled_ st) (schedule_ st ++ [op]) (scheduling_name_to_buffer_index_ st)
    (last_use_ st) (modules_ st) (num_temp_stores_ st).
Definition with_reshard i st : MpmdScheduler :=
  MkScheduler ({[i]} ∪ already_scheduled_ st) (schedule_ st) (scheduling_name_to_buffer_index_ st)
    (last_use_ st) (modules_ st) (num_temp_stores_ st).
Definition with_module c (m : Module_) st : MpmdScheduler :=
  MkScheduler (already_scheduled_ st) (schedule_ st) (scheduling_name_to_buffer_index_ st)
    (last_use_ st) (<[c := m]> (modules_ st)) (num_temp_stores_ st).

(** *** AddStore *)

Definition sharding_or_replicated i : HS := default Replicate (sharding_of i).

Definition store_devices i : Result D :=
  match Color s i with
  | Some color => DevicesForColor partition_ color
  | None =>
      if bool_decide (opcode i = kParameter)
      then OK (GetDevices (sharding_or_replicated i) (devices_ partition_))
      else Err kInvalidArgument "instruction has no color"
  end.

Definition allow_sharding_override (index : Z) (allow : list bool) : Result bool :=
  if Zlength allow >? index then vec_at allow index
  else match allow with [] => OK false | a :: _ => OK a end.

Definition AddStore (type : StoreType) i (index : Z) st : Result MpmdScheduler :=
  devices ← store_devices i;
  sharded_shape ← XlaShapeToZukuShape (hlo_shape i) devices (sharding_or_replicated i) true;
  let index := if bool_decide (type = TEMP) then num_temp_stores_ st else index in
  let temps := if bool_decide (type = TEMP) then num_temp_stores_ st + 1 else num_temp_stores_ st in
  use_submesh_sharding ←
    match type with
    | PARAM => allow_sharding_override index allow_to_parameters
    | ROOT => allow_sharding_override index allow_to_output
    | TEMP => OK true
    end;
  mpmd_sharding ← ToMpmdSharding_instruction i devices (devices_ partition_) use_submesh_sharding;
  let store := MkStore type index (scheduling_name i) false (Some sharded_shape) mpmd_sharding (hlo_shape i) in
  (* [emplace] keeps an existing entry *)
  OK (with_stores (match scheduling_name_to_buffer_index_ st !! scheduling_name i with
                   | Some _ => scheduling_name_to_buffer_index_ st
                   | None => <[scheduling_name i := store]> (scheduling_name_to_buffer_index_ st)
                   end) temps st).

Definition AssignedToStore i st : bool :=
  bool_decide (is_Some (scheduling_name_to_buffer_index_ st !! scheduling_name i)).

Definition GetStore i st : Result Store :=
  match scheduling_name_to_buffer_index_ st !! scheduling_name i with
  | Some store => OK store
  | None => Err kInvalidArgument "instruction has no assigned store"
  end.

(** *** Reshards *)

Definition AddReshardTask i st : Result MpmdScheduler :=
  if bool_decide (i ∉ already_scheduled_ st) then
    o ← operand i 0;
    source_store ← GetStore o st;
    dest_store ← GetStore i st;
    OK (with_reshard i (push_operation (Reshard source_store dest_store) st))
  else OK st.

Definition PrioritizeReshardsInSchedule i st : Result MpmdScheduler :=
  foldM (fun st user => if IsCustomCall user kCustomCallReshard then AddReshardTask user st else OK st)
    st (users i).

(** [temporaries]: dereferencing an index without a store is undefined. *)
Definition temporaries st : Result (list Store) :=
  temps ← foldM (fun temps store =>
      if bool_decide (store_type store = TEMP) then vec_set temps (store_index store) (Some store) else OK temps)
    (replicate (Z.to_nat (num_temp_stores_ st)) None)
    (snd <$> hash_order (map_to_list (scheduling_name_to_buffer_index_ st)));
  foldM (fun stores temp => store ← of_option NullDeref temp; OK (stores ++ [store])) [] temps.

Definition LogUseOrder (user operand : I) st : MpmdScheduler :=
  MkScheduler (already_scheduled_ st) (schedule_ st) (scheduling_name_to_buffer_index_ st)
    (<[operand := user]> (last_use_ st)) (modules_ st) (num_temp_stores_ st).

(** *** AddHloModuleTask *)

(** The variables of the two loops over the operands and the users. *)
Record TaskArguments := MkArguments {
  task_inputs : list Store;
  task_outputs : list Store;
  task_scalars : list ScalarArgument;
  temporary_param_indices : gset Z;
  temporary_root_indices : gset Z;
  input_names : gmap string Z;
  in_out_name_alias : gmap Z Z;
  slice_param : option Z;
}.
Definition no_arguments : TaskArguments := MkArguments [] [] [] ∅ ∅ ∅ ∅ None.

Definition add_input st (a : TaskArguments) (io : Z * I) : Result TaskArguments :=
  let '(index, operand) := io in
  if IsCustomCall operand kCustomCallSliceOffset then
    value ← GetAttribute s operand "offset";
    match SimpleAtoi value with
    | None => Err kInvalidArgument "attribute is not a valid integer"
    | Some offset =>
        OK (MkArguments
              (task_inputs a ++ [MkStore TEMP (-1) "slice-offset" true None Replicate (hlo_shape operand)])
              (task_outputs a) (task_scalars a ++ [MkScalar offset index])
              (temporary_param_indices a) (temporary_root_indices a) (input_names a) (in_out_name_alias a)
              (Some index))
    end
  else
    input ← GetStore operand st;
    OK (MkArguments (task_inputs a ++ [input]) (task_outputs a) (task_scalars a)
          (if bool_decide (store_type input = TEMP) then {[index]} ∪ temporary_param_indices a
           else temporary_param_indices a)
          (temporary_root_indices a) (<[scheduling_name operand := index]> (input_names a))
          (in_out_name_alias a) (slice_param a)).

(** [tuple_index] of a user that is no element is a failed cast. *)
Definition sort_user (sorted_users : list (option I)) (user : I) : Result (list (option I)) :=
  if bool_decide (opcode user = kGetTupleElement)
  then vec_set sorted_users (tuple_index user) (Some user) else Fatal CheckFailed.

Definition add_output st (a : TaskArguments) (user : option I) : Result TaskArguments :=
  user ← of_option NullDeref user;
  output ← GetStore user st;
  OK (MkArguments (task_inputs a) (task_outputs a ++ [output]) (task_scalars a) (temporary_param_indices a)
        (if bool_decide (store_type output = TEMP) then {[tuple_index user]} ∪ temporary_root_indices a
         else temporary_root_indices a)
        (input_names a)
        (match input_names a !! scheduling_name user with
         | Some n => <[n := tuple_index user]> (in_out_name_alias a)
         | None => in_out_name_alias a
         end) (slice_param a)).

(** The alias or the donor of a parameter whose last use is this call. *)
Definition alias_output (outputs : list Store) (root_number input_number : Z) (a : A) : Result A :=
  foldM (fun a '(output_number, output_store) =>
      if bool_decide (store_type output_store = ROOT) && (store_index output_store =? root_number)
      then SetUpAlias [output_number] input_number a else OK a)
    a (zip (seqZ 0 (Zlength outputs)) outputs).

Definition alias_input (call : I) st (args : TaskArguments) (ab : A * B) (input_number : Z) : Result (A * B) :=
  input_store ← vec_at (task_inputs args) input_number;
  o ← operand call input_number;
  if bool_decide (store_type input_store = PARAM) && bool_decide (last_use_ st !! o = Some call) then
    match GetAliasedOutput module_alias_config (store_index input_store) with
    | Some output_index =>
        a ← alias_output (task_outputs args) (default 0 (head output_index)) input_number ab.1;
        OK (a, ab.2)
    | None =>
        if ParameterIsBufferDonor module_donor_config (store_index input_store) && (1 <? ElementsIn o)
        then b ← AddBufferDonor input_number ab.2; OK (ab.1, b) else OK ab
    end
  else OK ab.

(** The pairs of [in_out_name_alias], in the order of the hash map. *)
Definition alias_names (args : TaskArguments) (a : A) : Result A :=
  foldM (fun a '(param_number, output_index) => SetUpAlias [output_index] param_number a)
    a (hash_order (map_to_list (in_out_name_alias args))).

Definition add_module (devices : D) (args : TaskArguments) (m : Module_) st : MpmdScheduler :=
  push_operation (SpmdHloModuleTask m devices (task_inputs args) (task_outputs args) (task_scalars args)
                    (StrContains (computation_name (module_computation m)) "loop")) st.

(** The sharding of the root of the clone. *)
Definition clone_root_sharding c : Result (option HS) :=
  let root := root_instruction c in
  match sharding_of root with
  | Some sharding => OK (Some sharding)
  | None =>
      if shape_IsTuple root then
        sharding ← FromProto_tuple ((fun o => match sharding_of o with
          | Some sharding => ToProto sharding
          | None => MkOpSharding REPLICATED [] [] [] [] 0 false
          end) <$> operands root);
        OK (Some sharding)
      else OK None
  end.

Definition make_module (call : I) c (color : string) (devices : D) (args : TaskArguments) st : Result Module_ :=
  ab ← foldM (alias_input call st args) (no_aliases, no_donors) (seqZ 0 (Zlength (parameter_instructions c)));
  a ← alias_names args (ab : A * B).1;
  _ ← clone_status c;
  sharding ← clone_root_sharding c;
  r ← BufferAlias.Run (temporary_param_indices args) (temporary_root_indices args) (verify c) c
        (output_is_dynamic c) a ab.2;
  _ ← cost_status c;
  OK (MkModule c (IsLoopIncrementColor partition_ color) (slice_param args)
        (r : bool * A * B).1.2 sharding (dl_size devices)).

Definition collect_arguments (call : I) st : Result TaskArguments :=
  a ← foldM (add_input st) no_arguments (zip (seqZ 0 (Zlength (operands call))) (operands call));
  sorted_users ← foldM sort_user (replicate (Z.to_nat (tuple_shapes_size call)) None) (users call);
  foldM (add_output st) a sorted_users.

Definition AddHloModuleTask (call : I) st : Result MpmdScheduler :=
  c ← called_computation call 0;
  match Color s call with
  | None => Err kInvalidArgument "call instruction has no assigned color"
  | Some color =>
      devices ← DevicesForColor partition_ color;
      args ← collect_arguments call st;
      if match task_outputs args with [output] => scalar output | _ => false end then OK st
      else
        match modules_ st !! c with
        | Some m => OK (add_module devices args m st)
        | None =>
            m ← make_module call c color devices args st;
            OK (add_module devices args m (with_module c m st))
        end
  end.

(** ** AddTasksFromEntryComputation *)

Fixpoint find_index (i : I) (index : Z) (ops : list I) : option Z :=
  match ops with
  | [] => None
  | o :: ops => if bool_decide (o = i) then Some index else find_index i (index + 1) ops
  end.

(** [parent] is the computation of the instruction; up to four users are searched for
    the root first. *)
Definition GetRootIndex (parent : C) i : option Z :=
  let root := root_instruction parent in
  if bool_decide (opcode root <> kTuple) then (if bool_decide (i = root) then Some 0 else None)
  else if (Zlength (users i) <=? 4) && negb (existsb (fun u => bool_decide (u = root)) (users i)) then None
  else find_index i 0 (operands root).

Definition is_output i : bool :=
  bool_decide (opcode i = kGetTupleElement) || IsCustomCall i kCustomCallReshard.

Definition add_fixed_store (computation : C) st i : Result MpmdScheduler :=
  if bool_decide (opcode i = kParameter) then AddStore PARAM i (parameter_number_of i) st
  else if is_output i then
    match GetRootIndex computation i with
    | Some root_index => AddStore ROOT i root_index st
    | None => OK st
    end
  else OK st.

Definition log_uses st i : MpmdScheduler :=
  if bool_decide (opcode i = kCall) || IsCustomCall i kCustomCallReshard
  then foldl (fun st o => LogUseOrder i o st) st (operands i) else st.

Definition add_temporary st i : Result MpmdScheduler :=
  if is_output i && negb (AssignedToStore i st) then AddStore TEMP i 0 st else OK st.

Definition add_operation st i : Result MpmdScheduler :=
  if bool_decide (opcode i = kCall) then AddHloModuleTask i st
  else if bool_decide (opcode i = kGetTupleElement) then PrioritizeReshardsInSchedule i st
  else if IsCustomCall i kCustomCallReshard then AddReshardTask i st
  else OK st.

Definition AddTasksFromEntryComputation (computation : C) st : Result MpmdScheduler :=
  let postorder := MakeInstructionPostOrder computation in
  st ← foldM (add_fixed_store computation) st postorder;
  let st := foldl log_uses st postorder in
  st ← foldM add_temporary st postorder;
  foldM add_operation st postorder.

(** ** MpmdPartitionIntoTasks *)

(** The schedule, the modules, the temporaries and the stores of unused parameters. *)
Definition MpmdPartitionIntoTasks (entry : C)
    : Result (list Operation * list Module_ * list Store * list Store) :=
  st ← AddTasksFromEntryComputation entry empty_scheduler;
  temps ← temporaries st;
  unused_parameters ← foldM (fun stores param =>
      if bool_decide (Zlength (users param) = 0) then store ← GetStore param st; OK (stores ++ [store])
      else OK stores) [] (parameter_instructions entry);
  OK (schedule_ st, snd <$> hash_order (map_to_list (modules_ st)), temps, unused_parameters).
End scheduler.
Arguments MpmdScheduler I C D HS A {_ _ _ _}.
