(* ===== verification/TaskSchedulerFacts.v ===== *)
(** * The stores of the scheduler (mpmd_partition.cc)

    The table of stores after the loops of [AddTasksFromEntryComputation]: which
    instruction an entry comes from, that different names have different stores, and
    that the temporaries are numbered without gaps. *)
From S2P Require Import Prelude Hlo Instruction Partition Sharding Utils BufferAlias TaskScheduler.
Local Open Scope Z_scope.

Section facts.
Context {I C St D HS A : Type} `{EqDecision I, !Countable I, EqDecision C, !Countable C, EqDecision D, !Countable D}.
Context `{!HashOrder}.
Context `{!Hlo I C, !AttrStore I St, !DeviceListApi D, !HloShardingApi HS, !ScheduledInstruction I C HS}.
Context (IsTileMaximalLeaf : HS -> bool).
Context (partition_ : HloPartition D) (s : St).
Context (allow_to_parameters allow_to_output : list bool).
Context (c : C).
Abbreviation Scheduler := (MpmdScheduler I C D HS A).
Implicit Types (i j : I) (st : Scheduler) (store : Store D HS) (l : list I).

Abbreviation table := (@scheduling_name_to_buffer_index_ I C D HS A _ _ _ _).
Abbreviation temps := (@num_temp_stores_ I C D HS A _ _ _ _).
Abbreviation AddStore := (AddStore IsTileMaximalLeaf partition_ s allow_to_parameters allow_to_output).
Abbreviation add_fixed_store := (add_fixed_store IsTileMaximalLeaf partition_ s allow_to_parameters allow_to_output).
Abbreviation add_temporary := (add_temporary IsTileMaximalLeaf partition_ s allow_to_parameters allow_to_output).

(** ** Adding a store *)

Definition store_for (type : StoreType) i (index : Z) store : Prop :=
  store_type store = type /\ store_index store = index /\ store_name store = scheduling_name i /\ scalar store = false.

Lemma AddStore_spec type i index st st' : AddStore type i index st = OK st' ->
  exists store, store_for type i (if decide (type = TEMP) then temps st else index) store /\
    temps st' = (if decide (type = TEMP) then temps st + 1 else temps st) /\
    (forall n, table st' !! n = match table st !! n with
       | Some old => Some old
       | None => if decide (n = scheduling_name i) then Some store else None end) /\
    schedule_ st' = schedule_ st /\ already_scheduled_ st' = already_scheduled_ st /\ modules_ st' = modules_ st.
Proof.
  unfold AddStore. intros (d & _ & Hrun)%Result_bind_OK. apply Result_bind_OK in Hrun as (ss & _ & Hrun).
  apply Result_bind_OK in Hrun as (u & _ & Hrun). apply Result_bind_OK in Hrun as (sh & _ & [= <-]).
  change (bool_decide (type = TEMP)) with (if decide (type = TEMP) then true else false).
  exists (MkStore type (if decide (type = TEMP) then temps st else index) (scheduling_name i) false (Some ss) sh (hlo_shape i)).
  assert (forall x y : Z, (if (if decide (type = TEMP) then true else false) then x else y) =
    if decide (type = TEMP) then x else y) as -> by (intros; by case_decide).
  split; [by split_and!|]. cbn.
  split; [by case_decide|]. split; [|done]. intros n.
  destruct (table st !! scheduling_name i) eqn:Hi.
  - destruct (table st !! n) eqn:Hn; [done|]. case_decide; congruence.
  - rewrite lookup_insert. repeat case_decide; subst; rewrite ?Hi; try done; by destruct (table st !! n).
Qed.

(** ** The invariant of the table *)

(** A parameter or an output of the module. *)
Definition fixed i : Prop := opcode i = kParameter \/ (is_output i = true /\ is_Some (GetRootIndex c i)).
Definition stored i : Prop := opcode i = kParameter \/ is_output i = true.

(** Where a store of the name [n] comes from, in a module with the instructions [l]. *)
Definition from l (temps : Z) (n : string) store : Prop :=
  store_name store = n /\ scalar store = false /\
  exists i, i ∈ l /\ scheduling_name i = n /\
    match store_type store with
    | PARAM => opcode i = kParameter /\ store_index store = parameter_number_of i
    | ROOT => is_output i = true /\ GetRootIndex c i = Some (store_index store)
    | TEMP => 0 <= store_index store < temps /\ forall j, j ∈ l -> fixed j -> scheduling_name j <> n
    end.

Record table_ok l st : Prop := {
  t_from : forall n store, table st !! n = Some store -> from l (temps st) n store;
  t_temps : forall k, 0 <= k < temps st -> exists n store, table st !! n = Some store /\
    store_type store = TEMP /\ store_index store = k;
  t_temp_inj : forall n1 n2 store1 store2, table st !! n1 = Some store1 -> table st !! n2 = Some store2 ->
    store_type store1 = TEMP -> store_type store2 = TEMP -> store_index store1 = store_index store2 -> n1 = n2;
  t_nonneg : 0 <= temps st;
}.

(** The other fields do not matter. *)
Lemma table_ok_same l st st' : table st' = table st -> temps st' = temps st -> table_ok l st -> table_ok l st'.
Proof. intros E1 E2 [H1 H2 H3 H4]. split; rewrite ?E1, ?E2; done. Qed.

Lemma is_output_not_parameter i : is_output i = true -> opcode i <> kParameter.
Proof.
  unfold is_output, IsCustomCall. rewrite orb_true_iff, andb_true_iff, !bool_decide_eq_true. intros [->|[-> _]]; done.
Qed.

Section fixed_stores.
Context (l : list I).

Lemma fixed_store_ok type i index st st' : i ∈ l -> type <> TEMP ->
  match type with PARAM => opcode i = kParameter /\ index = parameter_number_of i
                | _ => is_output i = true /\ GetRootIndex c i = Some index end ->
  table_ok l st /\ temps st = 0 -> AddStore type i index st = OK st' ->
  (table_ok l st' /\ temps st' = 0) /\ is_Some (table st' !! scheduling_name i) /\
  (forall n, is_Some (table st !! n) -> is_Some (table st' !! n)).
Proof.
  intros Hi Ht Hkind [[H1 H2 H3 H4] H0] Hrun.
  destruct (AddStore_spec _ _ _ _ _ Hrun) as (store & (E1 & E2 & E3 & E4) & Htemps & Htable & _).
  rewrite decide_False in E2, Htemps by done. rewrite H0 in *.
  assert (forall n store', table st' !! n = Some store' -> from l 0 n store') as Hfrom.
  { intros n store'. rewrite Htable. destruct (table st !! n) as [old|] eqn:Hn; [intros [= <-]; by apply H1|].
    case_decide as Hni; [|done]. intros [= <-]. subst n. split_and!; [done..|]. exists i. split_and!; [done..|].
    rewrite E1, E2. destruct type; done. }
  split; [split; [|done]; split; rewrite ?Htemps|split].
  - done.
  - lia.
  - intros n1 n2 st1 st2 Hn1 _ Ht1. apply Hfrom in Hn1 as (_ & _ & j & _ & _ & Hj). rewrite Ht1 in Hj. lia.
  - done.
  - rewrite Htable. rewrite decide_True by done. by destruct (table st !! scheduling_name i).
  - intros n [old Hn]. rewrite Htable, Hn. done.
Qed.

(** The first loop. *)
Lemma first_loop_ok st : foldM (add_fixed_store c) empty_scheduler l = OK st ->
  table_ok l st /\ temps st = 0 /\ schedule_ st = [] /\ already_scheduled_ st = ∅ /\ modules_ st = ∅ /\
  forall i, i ∈ l -> fixed i -> is_Some (table st !! scheduling_name i).
Proof.
  intros Hrun.
  pose (P := fun (done : list I) (st : Scheduler) => (table_ok l st /\ temps st = 0) /\
    (schedule_ st = [] /\ already_scheduled_ st = ∅ /\ modules_ st = ∅) /\
    forall i, i ∈ done -> fixed i -> is_Some (table st !! scheduling_name i)).
  assert (P l st) as ([Hok H0] & (? & ? & ?) & Hd); [|by split_and!].
  refine (foldM_inv P _ _ _ _ _ _ Hrun).
  { split; [|split; [done|intros i Hi%elem_of_nil; done]]. split; [|done]. split; cbn; intros; (done || lia). }
  intros done x rest st1 st2 Heq ([Hok H0] & Hf & Hd) Hx.
  assert (x ∈ l) as Hxl by (rewrite Heq; set_solver).
  assert ((exists type index, AddStore type x index st1 = OK st2 /\ type <> TEMP /\
      match type with PARAM => opcode x = kParameter /\ index = parameter_number_of x
                    | _ => is_output x = true /\ GetRootIndex c x = Some index end) \/
      st2 = st1 /\ ~ fixed x) as [(type & index & Hadd & Htype & Hkind)|[-> Hnf]].
  { unfold add_fixed_store in Hx. case_bool_decide as Hp; [left; exists PARAM, (parameter_number_of x); done|].
    destruct (is_output x) eqn:Ho; [|injection Hx as <-; right; split; [done|]; unfold fixed; rewrite Ho; naive_solver].
    destruct (GetRootIndex c x) as [k|] eqn:Hk; [left; exists ROOT, k; done|].
    injection Hx as <-. right. split; [done|]. unfold fixed. rewrite Hk. intros [?|[_ [? ?]]]; done. }
  - destruct (fixed_store_ok type x index st1 st2 Hxl Htype Hkind (conj Hok H0) Hadd) as (Hok2 & Hin & Hmono).
    destruct (AddStore_spec _ _ _ _ _ Hadd) as (store & _ & _ & _ & E1 & E2 & E3).
    split; [done|]. rewrite E1, E2, E3. split; [done|].
    intros i [Hi|Hi%list_elem_of_singleton]%elem_of_app Hfi; [by apply Hmono, Hd|by subst].
  - split; [done|]. split; [done|]. intros i [Hi|Hi%list_elem_of_singleton]%elem_of_app Hfi; [by apply Hd|by subst].
Qed.

(** The loop that adds the temporaries. *)
Lemma temporary_ok i st st' : i ∈ l -> table_ok l st ->
  (forall j, j ∈ l -> fixed j -> is_Some (table st !! scheduling_name j)) ->
  add_temporary st i = OK st' ->
  table_ok l st' /\ (is_output i = true -> is_Some (table st' !! scheduling_name i)) /\
  (forall n, is_Some (table st !! n) -> is_Some (table st' !! n)) /\
  schedule_ st' = schedule_ st /\ already_scheduled_ st' = already_scheduled_ st /\ modules_ st' = modules_ st.
Proof.
  intros Hi [H1 H2 H3 H4] Hfix. unfold add_temporary, AssignedToStore.
  destruct (is_output i) eqn:Ho; [|intros [= <-]; by split_and!].
  case_bool_decide as Hs; cbn [negb andb]; [intros [= <-]; by split_and!|].
  apply eq_None_not_Some in Hs. intros Hrun.
  destruct (AddStore_spec _ _ _ _ _ Hrun) as (store & (E1 & E2 & E3 & E4) & Htemps & Htable & Hrest).
  rewrite decide_True in E2, Htemps by done.
  assert (table st' !! scheduling_name i = Some store) as Hin by (by rewrite Htable, Hs, decide_True).
  assert (forall n store', table st' !! n = Some store' -> table st !! n = Some store' \/
    n = scheduling_name i /\ store' = store) as Hcases.
  { intros n store'. rewrite Htable. destruct (table st !! n); [naive_solver|]. case_decide; naive_solver. }
  assert (forall n store', table st !! n = Some store' -> table st' !! n = Some store') as Hold.
  { intros n store' Hn. by rewrite Htable, Hn. }
  split; [split; rewrite ?Htemps|split; [|split; [|exact Hrest]]].
  - intros n store' [Hn|[-> ->]]%Hcases.
    + destruct (H1 n store' Hn) as (F1 & F2 & j & Hj & Hnj & Hkind). split_and!; [done..|]. exists j. split_and!; [done..|].
      destruct (store_type store'); [done..|]. destruct Hkind as [? ?]. split; [lia|done].
    + split_and!; [done..|]. exists i. split_and!; [done..|]. rewrite E1, E2. split; [lia|].
      intros j Hj Hfj Heq. destruct (Hfix j Hj Hfj) as [old Hold']. rewrite Heq, Hs in Hold'. done.
  - intros k Hk. destruct (decide (k = temps st)) as [->|Hne]; [by exists (scheduling_name i), store|].
    destruct (H2 k ltac:(lia)) as (n & store' & Hn & ? & ?). exists n, store'. auto.
  - assert (forall n store', table st !! n = Some store' -> store_type store' = TEMP -> store_index store' <> temps st) as Hlt.
    { intros n store' Hn Ht. destruct (H1 n store' Hn) as (_ & _ & j & _ & _ & Hkind). rewrite Ht in Hkind. lia. }
    intros n1 n2 s1 s2 [Hn1|[-> ->]]%Hcases [Hn2|[-> ->]]%Hcases T1 T2 Heq; [by eapply H3| | |done].
    + exfalso. eapply Hlt; [exact Hn1|done|congruence].
    + exfalso. eapply Hlt; [exact Hn2|done|congruence].
  - lia.
  - intros _. by rewrite Hin.
  - intros n [old Hn]. rewrite (Hold n old Hn). done.
Qed.
End fixed_stores.

Abbreviation postorder := (MakeInstructionPostOrder c).

Lemma log_uses_same st l :
  table (foldl log_uses st l) = table st /\ temps (foldl log_uses st l) = temps st /\
  schedule_ (foldl log_uses st l) = schedule_ st /\ already_scheduled_ (foldl log_uses st l) = already_scheduled_ st /\
  modules_ (foldl log_uses st l) = modules_ st.
Proof.
  revert st. induction l as [|i l IH]; intros st; [done|]. cbn [foldl].
  destruct (IH (log_uses st i)) as (-> & -> & -> & -> & ->). unfold log_uses. destruct (_ || _); [|done].
  generalize st. induction (operands i) as [|o ops IHo]; intros st'; [done|]. cbn [foldl].
  by destruct (IHo (LogUseOrder i o st')) as (-> & -> & -> & -> & ->).
Qed.

(** The table when the operations are added. *)
Record stores_ready st : Prop := {
  sr_table : table_ok postorder st;
  sr_stored : forall i, i ∈ postorder -> stored i -> is_Some (table st !! scheduling_name i);
  sr_fixed_kind : forall i store, i ∈ postorder -> fixed i -> table st !! scheduling_name i = Some store ->
    store_type store <> TEMP;
}.

Lemma loops_ready st1 st2 : foldM (add_fixed_store c) empty_scheduler postorder = OK st1 ->
  foldM add_temporary (foldl log_uses st1 postorder) postorder = OK st2 ->
  stores_ready st2 /\ schedule_ st2 = [] /\ already_scheduled_ st2 = ∅ /\ modules_ st2 = ∅.
Proof.
  intros H1 H2. destruct (first_loop_ok postorder st1 H1) as (Hok & H0 & E1 & E2 & E3 & Hfix).
  destruct (log_uses_same st1 postorder) as (L1 & L2 & L3 & L4 & L5).
  pose (P := fun (done : list I) (st : Scheduler) => table_ok postorder st /\
    (schedule_ st = [] /\ already_scheduled_ st = ∅ /\ modules_ st = ∅) /\
    (forall j, j ∈ postorder -> fixed j -> is_Some (table st !! scheduling_name j)) /\
    forall i, i ∈ done -> is_output i = true -> is_Some (table st !! scheduling_name i)).
  assert (P postorder st2) as (Hok2 & Hf & Hfix2 & Hout).
  { refine (foldM_inv P _ _ _ _ _ _ H2).
    { unfold P. rewrite L1, L3, L4, L5. split; [by eapply table_ok_same|]. split_and!; [done..|].
      intros i Hi%elem_of_nil. done. }
    intros done x rest st st' Heq (Hok' & Hf & Hfix' & Hout) Hx.
    destruct (temporary_ok postorder x st st' ltac:(rewrite Heq; set_solver) Hok' Hfix' Hx)
      as (Hok'' & Hin & Hmono & F1 & F2 & F3).
    unfold P. rewrite F1, F2, F3. split_and!; [done|apply Hf..| |].
    - intros j Hj Hfj. by apply Hmono, Hfix'.
    - intros i [Hi|Hi%list_elem_of_singleton]%elem_of_app Ho; [by apply Hmono, Hout|subst; by apply Hin]. }
  split; [|done]. split; [done| |].
  - intros i Hi [Hp|Ho]; [|by apply Hout]. apply Hfix2; [done|by left].
  - intros i store Hi Hfi Hst Ht. destruct (t_from _ _ Hok2 _ _ Hst) as (_ & _ & j & _ & _ & Hkind).
    rewrite Ht in Hkind. by apply (proj2 Hkind i).
Qed.

(** ** Different names have different stores *)

Lemma find_index_Some i k ops n : find_index i k ops = Some n -> k <= n /\ ops !! Z.to_nat (n - k) = Some i.
Proof.
  revert k. induction ops as [|o ops IH]; intros k; cbn; [done|]. case_bool_decide as Ho.
  - intros [= <-]. rewrite Z.sub_diag. subst o. split; [lia|done].
  - intros [Hle Hn]%IH. split; [lia|]. replace (Z.to_nat (n - k)) with (S (Z.to_nat (n - (k + 1)))) by lia. done.
Qed.

Lemma GetRootIndex_operand i k : opcode (root_instruction c) = kTuple -> GetRootIndex c i = Some k ->
  operand (root_instruction c) k = OK i.
Proof.
  unfold GetRootIndex. intros Hr. rewrite bool_decide_eq_false_2 by (by intros []). destruct (_ && _); [done|].
  intros [Hle Hn]%find_index_Some. apply vec_at_lookup. by rewrite Z.sub_0_r in Hn.
Qed.

Lemma GetRootIndex_inj i j k : GetRootIndex c i = Some k -> GetRootIndex c j = Some k -> i = j.
Proof.
  destruct (decide (opcode (root_instruction c) = kTuple)) as [Hr|Hr].
  - intros Hi Hj. apply (GetRootIndex_operand i k Hr) in Hi. apply (GetRootIndex_operand j k Hr) in Hj. congruence.
  - unfold GetRootIndex. rewrite bool_decide_eq_true_2 by done. repeat case_bool_decide; congruence.
Qed.

Definition key store : StoreType * Z := (store_type store, store_index store).
Definition distinct_parameters : Prop := forall i j, i ∈ postorder -> j ∈ postorder ->
  opcode i = kParameter -> opcode j = kParameter -> parameter_number_of i = parameter_number_of j -> i = j.

Lemma key_inj st n1 n2 store1 store2 : distinct_parameters -> table_ok postorder st ->
  table st !! n1 = Some store1 -> table st !! n2 = Some store2 -> key store1 = key store2 -> n1 = n2.
Proof.
  intros Hp [H1 H2 H3 H4] Hs1 Hs2 [= Ht Hi].
  destruct (H1 n1 store1 Hs1) as (_ & _ & i & Hi1 & <- & K1), (H1 n2 store2 Hs2) as (_ & _ & j & Hj1 & <- & K2).
  rewrite <- Ht, <- Hi in K2. destruct (store_type store1) eqn:Hty.
  - destruct K1, K2. f_equal. apply Hp; congruence || done.
  - f_equal. exact (GetRootIndex_inj i j _ (proj2 K1) (proj2 K2)).
  - apply (H3 _ _ store1 store2 Hs1 Hs2); congruence.
Qed.

(** ** The temporaries *)

Lemma temporaries_ok st : table_ok postorder st ->
  exists stores, temporaries st = OK stores /\ Zlength stores = temps st /\
    forall k store, stores !! k = Some store ->
      store_type store = TEMP /\ store_index store = Z.of_nat k /\ table st !! store_name store = Some store.
Proof.
  intros [H1 H2 H3 H4]. unfold temporaries.
  set (entries := hash_order (map_to_list (table st))).
  assert (forall n store, (n, store) ∈ entries <-> table st !! n = Some store) as Hentries.
  { intros n store. unfold entries. rewrite (hash_order_perm (map_to_list (table st))). apply elem_of_map_to_list. }
  assert (forall store, store ∈ snd <$> entries -> exists n, table st !! n = Some store) as Hstore.
  { intros store ([n store'] & -> & Hin)%list_elem_of_fmap. exists n. by apply Hentries. }
  assert (forall n store, table st !! n = Some store -> store_type store = TEMP -> 0 <= store_index store < temps st) as Hbound.
  { intros n store Hn Ht. destruct (H1 n store Hn) as (_ & _ & j & _ & _ & Hkind). rewrite Ht in Hkind. apply Hkind. }
  set (collect := fun (ts : list (option (Store D HS))) store => _).
  assert (exists ts, foldM collect (replicate (Z.to_nat (temps st)) None) (snd <$> entries) = OK ts /\
    length ts = Z.to_nat (temps st) /\
    (forall k store, ts !! k = Some (Some store) -> store_type store = TEMP /\ store_index store = Z.of_nat k /\
       store ∈ snd <$> entries) /\
    (forall store, store ∈ snd <$> entries -> store_type store = TEMP ->
       ts !! Z.to_nat (store_index store) = Some (Some store))) as (ts & -> & Hlen & Hts & Hall).
  { refine (foldM_total (fun done ts => length ts = Z.to_nat (temps st) /\
      (forall k store, ts !! k = Some (Some store) -> store_type store = TEMP /\ store_index store = Z.of_nat k /\ store ∈ done) /\
      (forall store, store ∈ done -> store_type store = TEMP -> ts !! Z.to_nat (store_index store) = Some (Some store)))
      collect _ _ _ _).
    { split_and!; [by rewrite length_replicate| |by intros store Hs%elem_of_nil].
      intros k store Hk. apply lookup_replicate in Hk as [? _]. done. }
    intros done store rest ts Heq (Hlen & Hts & Hall). unfold collect.
    destruct (Hstore store ltac:(rewrite Heq; set_solver)) as [n Hn].
    case_bool_decide as Ht.
    - pose proof (Hbound n store Hn Ht) as Hidx.
      unfold vec_set. rewrite bool_decide_eq_true_2 by lia. eexists. split; [done|]. split_and!.
      + by rewrite length_insert.
      + intros k store' [(<- & [= <-] & _)|(_ & Hk)]%list_lookup_insert_Some; [split_and!; [done|lia|set_solver]|].
        destruct (Hts k store' Hk) as (? & ? & ?). split_and!; [done..|set_solver].
      + intros store' [Hs|Hs%list_elem_of_singleton]%elem_of_app Ht'.
        * destruct (Hstore store' ltac:(rewrite Heq; set_solver)) as [n' Hn']. pose proof (Hbound n' store' Hn' Ht').
          destruct (decide (store_index store' = store_index store)) as [He|Hne].
          -- assert (n' = n) as -> by (by eapply H3). rewrite Hn in Hn'. injection Hn' as <-.
             apply list_lookup_insert_eq. lia.
          -- rewrite list_lookup_insert_ne by lia. by apply Hall.
        * subst store'. apply list_lookup_insert_eq. lia.
    - exists ts. split_and!; [done..| |].
      + intros k store' Hk. destruct (Hts k store' Hk) as (? & ? & ?). split_and!; [done..|set_solver].
      + intros store' [Hs|Hs%list_elem_of_singleton]%elem_of_app Ht'; [by apply Hall|congruence]. }
  cbn [mbind Result_bind].
  assert (forall k, (k < length ts)%nat -> exists store, ts !! k = Some (Some store)) as Hfull.
  { intros k Hk. destruct (H2 (Z.of_nat k) ltac:(lia)) as (n & store & Hn & Ht & Hidx). exists store.
    replace k with (Z.to_nat (store_index store)) by lia. apply Hall; [|done].
    apply list_elem_of_fmap. exists (n, store). split; [done|]. by apply Hentries. }
  destruct (foldM_total (fun done stores => Some <$> stores = done)
    (fun stores temp => store ← of_option NullDeref temp; OK (stores ++ [store])) [] ts) as (stores & -> & Hst).
  - done.
  - intros done temp rest stores Heq Hd. destruct (Hfull (length done)) as [store Hs].
    { rewrite Heq, length_app. cbn. lia. }
    rewrite Heq, list_lookup_middle in Hs by done. injection Hs as ->. cbn. eexists. split; [done|].
    by rewrite fmap_app, Hd.
  - exists stores. split; [done|]. split.
    + unfold Zlength. rewrite <- (length_fmap Some stores), Hst, Hlen. lia.
    + intros k store Hk. destruct (Hts k store) as (Ht & Hi & Hin).
      { by rewrite <- Hst, list_lookup_fmap, Hk. }
      split_and!; [done..|]. destruct (Hstore store Hin) as [n Hn]. by destruct (H1 n _ Hn) as (-> & _).
Qed.
End facts.
