(* ===== verification/TaskSchedulerRun.v ===== *)
(** * Running the schedule (mpmd_partition.cc)

    The order in which calls and reshards enter the schedule, the arguments of a task,
    and what running the operations one after the other over the stores computes. *)
From S2P Require Import Prelude Hlo Instruction Partition Sharding Utils BufferAlias BufferSafety TaskScheduler TaskSchedulerFacts.
Local Open Scope Z_scope.

Section run.
Context {I C St D HS A B : Type} `{EqDecision I, !Countable I, EqDecision C, !Countable C, EqDecision D, !Countable D}.
Context `{!HashOrder}.
Context `{!Hlo I C, !AttrStore I St, !DeviceListApi D, !HloShardingApi HS, !ScheduledInstruction I C HS}.
Context `{!AliasModule I C, !AliasConfig A, !BufferDonors B, !ModuleAliases A B}.
Context (SimpleAtoi : string -> option Z).
Context (partition_ : HloPartition D) (s : St).
Context (module_alias_config : A) (module_donor_config : B).
Context (clone_status cost_status : C -> Result unit) (verify : C -> A -> Result unit) (output_is_dynamic : C -> bool).
Context (c : C).
Abbreviation Scheduler := (MpmdScheduler I C D HS A).
Abbreviation Operation := (MpmdOperation C A D HS).
Implicit Types (i o u x : I) (st : Scheduler) (store : Store D HS) (l L : list I).

Abbreviation table := (@scheduling_name_to_buffer_index_ I C D HS A _ _ _ _).
Abbreviation postorder := (MakeInstructionPostOrder c).
Abbreviation reshard i := (IsCustomCall i kCustomCallReshard).
Abbreviation slice_offset i := (IsCustomCall i kCustomCallSliceOffset).
Abbreviation collect := (collect_arguments SimpleAtoi s).
Abbreviation AddHloModuleTask := (AddHloModuleTask SimpleAtoi partition_ s module_alias_config module_donor_config
  clone_status cost_status verify output_is_dynamic).
Abbreviation add_operation := (add_operation SimpleAtoi partition_ s module_alias_config module_donor_config
  clone_status cost_status verify output_is_dynamic).

(** ** The arguments of a task *)

Lemma GetStore_same i st st' : table st' = table st -> GetStore i st' = GetStore i st.
Proof. unfold GetStore. by intros ->. Qed.

Lemma collect_same i st st' : table st' = table st -> collect i st' = collect i st.
Proof.
  intros Ht. unfold collect_arguments.
  rewrite (foldM_ext (add_input SimpleAtoi s st') (add_input SimpleAtoi s st)).
  - destruct (foldM _ _ _) as [a| |]; [cbn|done..]. destruct (foldM _ _ _) as [us| |]; [cbn|done..].
    apply foldM_ext. intros a' u _. unfold add_output. destruct (of_option _ _); [cbn|done..].
    by rewrite (GetStore_same _ st st').
  - intros a [n o] _. unfold add_input. by rewrite (GetStore_same _ st st').
Qed.

Definition numbered (l : list I) : list (Z * I) := zip (seqZ 0 (Zlength l)) l.

Definition input_for st (args : TaskArguments (D := D) (HS := HS)) (io : Z * I) store : Prop :=
  if slice_offset io.2 then (scalar store = true /\ store_type store = TEMP) /\ exists sc, sc ∈ task_scalars args /\ scalar_parameter sc = io.1
  else GetStore io.2 st = OK store.

Definition scalar_for (ios : list (Z * I)) (sc : ScalarArgument) : Prop :=
  exists o value, (scalar_parameter sc, o) ∈ ios /\ slice_offset o = true /\
    GetAttribute s o "offset" = OK value /\ SimpleAtoi value = Some (scalar_value sc).

Lemma inputs_spec ios st a : foldM (add_input SimpleAtoi s st) no_arguments ios = OK a ->
  Forall2 (input_for st a) ios (task_inputs a) /\ (forall sc, sc ∈ task_scalars a -> scalar_for ios sc) /\
  task_outputs a = [].
Proof.
  apply (foldM_inv (fun done a => Forall2 (input_for st a) done (task_inputs a) /\
    (forall sc, sc ∈ task_scalars a -> scalar_for done sc) /\ task_outputs a = [])).
  { split; [constructor|]. split; [by intros sc Hsc%elem_of_nil|done]. }
  intros done [n o] rest a1 a2 _ (H1 & H2 & H3). unfold add_input.
  assert (forall sc (l1 l2 : list (Z * I)), scalar_for l1 sc -> scalar_for (l1 ++ l2) sc) as Hmono.
  { intros sc l1 l2 (o' & v & Hin & Hr). exists o', v. split; [set_solver|done]. }
  destruct (slice_offset o) eqn:Ho.
  - intros (value & Hv & Hrun)%Result_bind_OK. destruct (SimpleAtoi value) as [k|] eqn:Hk; [|done].
    injection Hrun as <-. cbn. split_and!; [| |done].
    + apply Forall2_app.
      * eapply Forall2_impl; [exact H1|]. intros [n' o'] store. unfold input_for. cbn.
        destruct (slice_offset o'); [|done]. intros (? & sc & ? & ?). split; [done|]. exists sc. split; [set_solver|done].
      * constructor; [|constructor]. unfold input_for. cbn. rewrite Ho. split; [done|].
        exists (MkScalar k n). split; [set_solver|done].
    + intros sc [Hsc|Hsc%list_elem_of_singleton]%elem_of_app; [by apply Hmono, H2|]. subst sc.
      exists o, value. split; [set_solver|done].
  - intros (store & Hst & [= <-])%Result_bind_OK. cbn. split_and!; [| |done].
    + apply Forall2_app; [exact H1|]. constructor; [|constructor]. unfold input_for. cbn. by rewrite Ho.
    + intros sc Hsc. by apply Hmono, H2.
Qed.

Lemma sort_users_spec size us sorted : foldM sort_user (replicate size None) us = OK sorted ->
  (forall k u, sorted !! k = Some (Some u) -> u ∈ us /\ tuple_index u = Z.of_nat k /\ opcode u = kGetTupleElement) /\
  (forall u, u ∈ us -> 0 <= tuple_index u /\ exists u', sorted !! Z.to_nat (tuple_index u) = Some (Some u')).
Proof.
  apply (foldM_inv (fun done sorted =>
    (forall k u, sorted !! k = Some (Some u) -> u ∈ done /\ tuple_index u = Z.of_nat k /\ opcode u = kGetTupleElement) /\
    (forall u, u ∈ done -> 0 <= tuple_index u /\ exists u', sorted !! Z.to_nat (tuple_index u) = Some (Some u')))).
  { split; [|by intros u Hu%elem_of_nil]. intros k u Hk. apply lookup_replicate in Hk as [? _]. done. }
  intros done u rest l1 l2 _ [H1 H2]. unfold sort_user, vec_set. case_bool_decide as Hu; [|done].
  case_bool_decide as Hi; [|done]. intros [= <-]. split.
  - intros k u' [(Hk & [= <-] & _)|(_ & Hk)]%list_lookup_insert_Some; [split_and!; [set_solver|lia|done]|].
    destruct (H1 k u' Hk) as (? & ? & ?). split_and!; [set_solver|done..].
  - intros u' [Hu'|Hu'%list_elem_of_singleton]%elem_of_app.
    + destruct (H2 u' Hu') as [? [u'' ?]]. split; [done|].
      destruct (decide (Z.to_nat (tuple_index u) = Z.to_nat (tuple_index u'))) as [->|Hne].
      * exists u. apply list_lookup_insert_eq. by eapply lookup_lt_Some.
      * exists u''. by rewrite list_lookup_insert_ne.
    + subst u'. split; [lia|]. exists u. apply list_lookup_insert_eq. lia.
Qed.

Lemma outputs_spec st a sorted args : foldM (add_output st) a sorted = OK args -> task_outputs a = [] ->
  task_inputs args = task_inputs a /\ task_scalars args = task_scalars a /\
  Forall2 (fun ou store => exists u, ou = Some u /\ GetStore u st = OK store) sorted (task_outputs args).
Proof.
  intros Hrun Ha. revert Hrun. apply (foldM_inv (fun done args =>
    task_inputs args = task_inputs a /\ task_scalars args = task_scalars a /\
    Forall2 (fun ou store => exists u, ou = Some u /\ GetStore u st = OK store) done (task_outputs args))).
  { rewrite Ha. split_and!; [done..|constructor]. }
  intros done ou rest a1 a2 _ (H1 & H2 & H3). unfold add_output. destruct ou as [u|]; [cbn [of_option mbind Result_bind]|done].
  intros (store & Hst & [= <-])%Result_bind_OK. cbn. split_and!; [done..|].
  apply Forall2_app; [done|]. constructor; [eauto|constructor].
Qed.

Record arguments_ok i st (args : TaskArguments (D := D) (HS := HS)) : Prop := {
  ar_inputs : Forall2 (input_for st args) (numbered (operands i)) (task_inputs args);
  ar_scalars : forall sc, sc ∈ task_scalars args -> scalar_for (numbered (operands i)) sc;
  ar_outputs : forall k store, task_outputs args !! k = Some store ->
    exists u, u ∈ users i /\ tuple_index u = Z.of_nat k /\ opcode u = kGetTupleElement /\ GetStore u st = OK store;
  ar_users : forall u, u ∈ users i -> 0 <= tuple_index u /\
    is_Some (task_outputs args !! Z.to_nat (tuple_index u));
}.

Lemma collect_spec i st args : collect i st = OK args -> arguments_ok i st args.
Proof.
  unfold collect_arguments. intros (a & Ha & Hrun)%Result_bind_OK.
  apply Result_bind_OK in Hrun as (sorted & Hs & Hrun).
  destruct (inputs_spec _ _ _ Ha) as (H1 & H2 & H3). destruct (sort_users_spec _ _ _ Hs) as [H4 H5].
  destruct (outputs_spec _ _ _ _ Hrun H3) as (E1 & E2 & H6). split.
  - rewrite E1. eapply Forall2_impl; [exact H1|]. intros [n o] store. unfold input_for. by rewrite E2.
  - rewrite E2. exact H2.
  - intros k store Hk. destruct (Forall2_lookup_r _ _ _ _ _ H6 Hk) as (ou & Hou & u & -> & Hu).
    destruct (H4 k u Hou) as (? & ? & ?). eauto 10.
  - intros u Hu. destruct (H5 u Hu) as [? [u' Hu']]. split; [done|].
    destruct (Forall2_lookup_l _ _ _ _ _ H6 Hu') as (store & ? & _). by exists store.
Qed.

(** ** The order of the operations *)

Definition emit_reshard L u : list I := if reshard u && bool_decide (u ∉ L) then L ++ [u] else L.
Definition emit L i : list I :=
  if bool_decide (opcode i = kCall) then L ++ [i]
  else if bool_decide (opcode i = kGetTupleElement) then foldl emit_reshard L (users i)
  else emit_reshard L i.
Definition emission : list I := foldl emit [] postorder.

(** The operation of an instruction; [st] has the stores. *)
Definition op_for st i (op : Operation) : Prop :=
  (opcode i = kCall /\ exists c' m devices args flag, called_computation i 0 = OK c' /\ module_computation m = c' /\
     arguments_ok i st args /\
     op = SpmdHloModuleTask m devices (task_inputs args) (task_outputs args) (task_scalars args) flag) \/
  (reshard i = true /\ exists o source dest, operand i 0 = OK o /\ GetStore o st = OK source /\
     GetStore i st = OK dest /\ op = Reshard source dest).

Record emitted st0 L st : Prop := {
  em_table : table st = table st0;
  em_temps : num_temp_stores_ st = num_temp_stores_ st0;
  em_already : forall r, reshard r = true -> r ∈ already_scheduled_ st <-> r ∈ L;
  em_modules : forall c' m, modules_ st !! c' = Some m -> module_computation m = c';
  em_ops : Forall2 (op_for st0) L (schedule_ st);
}.

Lemma reshard_not_call u : reshard u = true -> opcode u <> kCall /\ opcode u <> kGetTupleElement.
Proof. unfold IsCustomCall. rewrite andb_true_iff, !bool_decide_eq_true. intros [-> _]. done. Qed.

Lemma AddReshardTask_emitted st0 L st u st' : emitted st0 L st -> reshard u = true ->
  AddReshardTask u st = OK st' -> emitted st0 (emit_reshard L u) st'.
Proof.
  intros [E1 E2 E3 E4 E5] Hu. unfold AddReshardTask, emit_reshard. rewrite Hu. cbn [andb].
  rewrite (bool_decide_ext (u ∉ already_scheduled_ st) (u ∉ L)) by (by rewrite E3).
  case_bool_decide as Hin; [|intros [= <-]; by split].
  intros (o & Ho & Hrun)%Result_bind_OK. apply Result_bind_OK in Hrun as (source & Hsource & Hrun).
  apply Result_bind_OK in Hrun as (dest & Hdest & [= <-]). split; cbn; [done|done| |done|].
  - intros r Hr. rewrite elem_of_union, elem_of_singleton, E3, elem_of_app, list_elem_of_singleton by done. tauto.
  - apply Forall2_app; [done|]. constructor; [|constructor]. right. split; [done|]. exists o, source, dest.
    rewrite <- !(GetStore_same _ st0 st) by done. done.
Qed.

Lemma Prioritize_emitted st0 L st i st' : emitted st0 L st ->
  PrioritizeReshardsInSchedule i st = OK st' -> emitted st0 (foldl emit_reshard L (users i)) st'.
Proof.
  intros He Hrun. refine (foldM_inv (fun done st => emitted st0 (foldl emit_reshard L done) st) _ _ _ _ _ _ Hrun); [done|].
  intros done u rest st1 st2 _ H1. rewrite foldl_app. cbn [foldl].
  destruct (reshard u) eqn:Hu; [by eapply AddReshardTask_emitted|].
  intros [= <-]. unfold emit_reshard at 1. by rewrite Hu.
Qed.

Lemma AddHloModuleTask_emitted st0 L st i st' : table_ok c postorder st0 -> emitted st0 L st -> opcode i = kCall ->
  AddHloModuleTask i st = OK st' -> emitted st0 (L ++ [i]) st'.
Proof.
  intros Hok [E1 E2 E3 E4 E5] Hi. unfold TaskScheduler.AddHloModuleTask.
  intros (c' & Hc & Hrun)%Result_bind_OK. destruct (Color s i) as [color|]; [|done].
  apply Result_bind_OK in Hrun as (devices & _ & Hrun). apply Result_bind_OK in Hrun as (args & Hargs & Hrun).
  rewrite (collect_same i st0 st E1) in Hargs. apply collect_spec in Hargs as Hspec.
  assert (match task_outputs args with [output] => scalar output | _ => false end = false) as Hsc.
  { destruct (task_outputs args) as [|out [|]] eqn:Ho; [done| |done].
    destruct (ar_outputs _ _ _ Hspec 0%nat out) as (u & _ & _ & _ & Hu); [by rewrite Ho|].
    unfold GetStore in Hu. destruct (table st0 !! scheduling_name u) as [store|] eqn:Hst; [|done].
    injection Hu as ->. by destruct (t_from _ _ _ Hok _ _ Hst) as (_ & ? & _). }
  rewrite Hsc in Hrun.
  assert (exists m st1, st' = add_module devices args m st1 /\ module_computation m = c' /\
    table st1 = table st0 /\ num_temp_stores_ st1 = num_temp_stores_ st0 /\ already_scheduled_ st1 = already_scheduled_ st /\
    schedule_ st1 = schedule_ st /\ forall c'' m', modules_ st1 !! c'' = Some m' -> module_computation m' = c'')
    as (m & st1 & -> & Hm & F1 & F2 & F3 & F4 & F5).
  { destruct (modules_ st !! c') as [m|] eqn:Hmod.
    - injection Hrun as <-. exists m, st. split_and!; try done. by apply E4.
    - apply Result_bind_OK in Hrun as (m & Hmake & [= <-]). exists m, (with_module c' m st).
      assert (module_computation m = c') as Hm.
      { unfold make_module in Hmake. apply Result_bind_OK in Hmake as (? & _ & Hmake).
        apply Result_bind_OK in Hmake as (? & _ & Hmake). apply Result_bind_OK in Hmake as (? & _ & Hmake).
        apply Result_bind_OK in Hmake as (? & _ & Hmake). apply Result_bind_OK in Hmake as (? & _ & Hmake).
        by apply Result_bind_OK in Hmake as (? & _ & [= <-]). }
      split_and!; try done. intros c'' m'. cbn.
      intros [[<- <-]|[_ Hm']]%lookup_insert_Some; [done|by apply E4]. }
  split; cbn; [done|done| |done|].
  - intros r Hr. rewrite F3, E3, elem_of_app, list_elem_of_singleton by done. split; [by left|].
    intros [?| ->]; [done|]. by destruct (reshard_not_call i Hr).
  - rewrite F4. apply Forall2_app; [done|]. constructor; [|constructor]. left. split; [done|].
    exists c', m, devices, args. eexists. done.
Qed.

Lemma add_operation_emitted st0 L st i st' : table_ok c postorder st0 -> emitted st0 L st ->
  add_operation st i = OK st' -> emitted st0 (emit L i) st'.
Proof.
  intros Hok He. unfold TaskScheduler.add_operation, emit.
  case_bool_decide as Hc; [by apply AddHloModuleTask_emitted|].
  case_bool_decide as Hg; [by apply Prioritize_emitted|].
  destruct (reshard i) eqn:Hr; [by apply AddReshardTask_emitted|].
  intros [= <-]. unfold emit_reshard. by rewrite Hr.
Qed.

Lemma operations_emitted st0 st : table_ok c postorder st0 -> schedule_ st0 = [] -> already_scheduled_ st0 = ∅ ->
  modules_ st0 = ∅ -> foldM add_operation st0 postorder = OK st -> emitted st0 emission st.
Proof.
  intros Hok E1 E2 E3. apply (foldM_inv (fun done st => emitted st0 (foldl emit [] done) st)).
  - split; [done|done|intros r _; rewrite E2; set_solver|rewrite E3; done|rewrite E1; constructor].
  - intros done i rest st1 st2 _ H1 Hrun. rewrite foldl_app. by eapply add_operation_emitted.
Qed.
End run.
