(* ===== verification/TaskExecution.v ===== *)
(** * What the schedule computes (mpmd_partition.cc)

    The operations enter the schedule after the operations that produce their inputs.
    When the buffer of an instruction is only taken for another one after its last use
    in the order of the schedule, running the schedule puts the values of the outputs
    of the module into the stores of the roots. *)
From S2P Require Import Prelude Hlo Instruction Partition Sharding Utils BufferAlias BufferSafety TaskScheduler TaskSchedulerFacts TaskSchedulerRun.
Local Open Scope Z_scope.

(** ** Running operations over stores *)
Section exec.
Context {C A D HS V : Type}.
Context (task_sem : C -> list V -> option (list V)) (scalar_sem : Z -> V).
Abbreviation Memory := (gmap (StoreType * Z) V).

Definition read_input (mem : Memory) (scalars : list ScalarArgument) (input : Z * Store D HS) : option V :=
  if scalar input.2
  then (fun sc => scalar_sem (scalar_value sc)) <$> head (filter (fun sc => scalar_parameter sc = input.1) scalars)
  else mem !! key input.2.

Definition write (mem : Memory) (output : Store D HS * V) : Memory := <[key output.1 := output.2]> mem.

Definition exec_op (mem : Memory) (op : MpmdOperation C A D HS) : option Memory :=
  match op with
  | SpmdHloModuleTask m _ inputs outputs scalars _ =>
      args ← mapM (read_input mem scalars) (zip (seqZ 0 (Zlength inputs)) inputs);
      results ← task_sem (module_computation m) args;
      Some (foldl write mem (zip outputs results))
  | Reshard input output => v ← mem !! key input; Some (<[key output := v]> mem)
  | FreeStore _ | CreateStore _ => Some mem
  end.

Fixpoint exec (mem : Memory) (ops : list (MpmdOperation C A D HS)) : option Memory :=
  match ops with
  | [] => Some mem
  | op :: ops => mem ← exec_op mem op; exec mem ops
  end.

Lemma foldl_write_ne (mem : Memory) outs k : (forall sv, sv ∈ outs -> key sv.1 <> k) ->
  foldl write mem outs !! k = mem !! k.
Proof.
  revert mem. induction outs as [|sv outs IH]; intros mem Hne; [done|]. cbn [foldl].
  rewrite IH by (intros; apply Hne; by right). unfold write. apply lookup_insert_ne, Hne. left.
Qed.

Lemma foldl_write_in (mem : Memory) outs store v : NoDup ((fun sv => key sv.1) <$> outs) -> (store, v) ∈ outs ->
  foldl write mem outs !! key store = Some v.
Proof.
  revert mem. induction outs as [|sv outs IH]; intros mem Hnd Hin; [by apply elem_of_nil in Hin|].
  rewrite fmap_cons in Hnd. apply NoDup_cons in Hnd as [Hn Hnd]. cbn [foldl].
  apply elem_of_cons in Hin as [<-|Hin]; [|by apply IH].
  rewrite foldl_write_ne; [apply lookup_insert_eq|]. intros sv' Hsv' Heq. apply Hn.
  apply list_elem_of_fmap. by exists sv'.
Qed.
End exec.

Section order.
Context {I C D HS A : Type} `{EqDecision I, !Countable I, EqDecision C, !Countable C, EqDecision D, !Countable D}.
Context `{!Hlo I C, !ScheduledInstruction I C HS, !PostOrderLaws I C, !UsersLaws I C}.
Context (c : C).
Implicit Types (i o u v w x y : I) (l L done : list I).
Abbreviation postorder := (MakeInstructionPostOrder c).
Abbreviation reshard i := (IsCustomCall i kCustomCallReshard).

(** A module as the scheduler expects it: tasks take parameters, elements of tasks,
    reshards and slice offsets; every element is one of a task. *)
Record flat : Prop := {
  fl_root : opcode (root_instruction c) = kTuple;
  fl_users : forall v u, v ∈ postorder -> u ∈ users v -> u ∈ postorder;
  fl_parameters : distinct_parameters c;
  fl_call : forall x o, x ∈ postorder -> opcode x = kCall -> o ∈ operands x ->
    IsCustomCall o kCustomCallSliceOffset = true \/ stored o;
  fl_element : forall g, g ∈ postorder -> opcode g = kGetTupleElement -> exists x, operands g = [x] /\ opcode x = kCall;
  fl_reshard : forall r, r ∈ postorder -> reshard r = true -> exists o, operands r = [o] /\ stored o;
  fl_tuple_index : forall x u u', x ∈ postorder -> opcode x = kCall -> u ∈ users x -> u' ∈ users x ->
    tuple_index u = tuple_index u' -> u = u';
}.
Context (Hflat : flat).

(** Parameters are there from the start, the others when their operation has run. *)
Definition defined L v : Prop := v ∈ postorder /\ (opcode v = kParameter \/ exists y, y ∈ L /\ produces y v).

Lemma defined_app L L' v : defined L v -> defined (L ++ L') v.
Proof. intros [Hv [?|(y & Hy & ?)]]; split; auto. right. exists y. split; [set_solver|done]. Qed.

Record emission_ok done L : Prop := {
  eo_members : forall x, x ∈ L -> x ∈ postorder /\ (opcode x = kCall /\ x ∈ done \/ reshard x = true);
  eo_calls : forall x, x ∈ done -> opcode x = kCall -> x ∈ L;
  eo_reshards : forall r, r ∈ done -> reshard r = true -> r ∈ L;
  eo_NoDup : NoDup L;
  eo_order : forall L1 x L2, L = L1 ++ x :: L2 -> forall o, o ∈ operands x -> stored o -> defined L1 o;
}.

Lemma earlier done rest x o : postorder = done ++ rest -> x ∈ done -> o ∈ operands x -> o ∈ done.
Proof.
  intros Hp [n Hn]%list_elem_of_lookup Ho.
  destruct (postorder_operands c n x o) as (m & Hm & Hmo); [rewrite Hp; by apply lookup_app_l_Some|done|].
  rewrite Hp, lookup_app_l in Hmo by (apply lookup_lt_Some in Hn; lia). by eapply list_elem_of_lookup_2.
Qed.

Lemma done_defined done rest L v : postorder = done ++ rest -> emission_ok done L -> v ∈ done -> stored v -> defined L v.
Proof.
  intros Hp [E1 E2 E3 E4 E5] Hv Hs. assert (v ∈ postorder) as Hvp by (rewrite Hp; set_solver). split; [done|].
  destruct Hs as [?|Ho]; [by left|right]. unfold is_output in Ho. apply orb_true_iff in Ho as [Hg|Hr].
  - apply bool_decide_eq_true in Hg. destruct (fl_element Hflat v Hvp Hg) as (x & Hx & Hc). exists x. split.
    + apply E2; [|done]. apply (earlier done rest v x Hp Hv). rewrite Hx. set_solver.
    + left. split; [done|]. apply users_spec. rewrite Hx. set_solver.
  - exists v. split; [by apply E3|by right].
Qed.

Lemma emission_snoc done done' L x : emission_ok done L -> (forall y, y ∈ done -> y ∈ done') -> x ∈ postorder -> x ∉ L ->
  opcode x = kCall /\ x ∈ done' \/ reshard x = true ->
  (forall y, y ∈ done' -> opcode y = kCall -> y ∈ done \/ y = x) ->
  (forall y, y ∈ done' -> reshard y = true -> y ∈ done \/ y = x) ->
  (forall o, o ∈ operands x -> stored o -> defined L o) -> emission_ok done' (L ++ [x]).
Proof.
  intros [E1 E2 E3 E4 E5] Hd Hx HxL Hkind Hc Hr Hops. split.
  - intros y [Hy|Hy%list_elem_of_singleton]%elem_of_app; [|by subst]. destruct (E1 y Hy) as [? [[??]|?]]; split; auto.
  - intros y Hy Hyc. destruct (Hc y Hy Hyc) as [?|?]; [|subst]; set_solver.
  - intros y Hy Hyr. destruct (Hr y Hy Hyr) as [?|?]; [|subst]; set_solver.
  - apply NoDup_app. split; [done|]. split; [|apply NoDup_singleton]. intros y Hy Hyx%list_elem_of_singleton. by subst.
  - intros L1 y L2 Heq. destruct (app_eq_inv _ _ _ _ Heq) as [(k & -> & Hk)|(k & -> & Hk)].
    + destruct k as [|y' k]; cbn in Hk.
      * injection Hk as -> ->. rewrite app_nil_r in Hops. exact Hops.
      * injection Hk as <- Hk. by apply (E5 L1 y k).
    + destruct k as [|y' k]; cbn in Hk; [|by destruct k]. injection Hk as -> <-.
      intros o. rewrite app_nil_r. apply Hops.
Qed.

Lemma emission_same done x L : emission_ok done L -> opcode x <> kCall -> (reshard x = true -> x ∈ L) ->
  emission_ok (done ++ [x]) L.
Proof.
  intros [E1 E2 E3 E4 E5] Hc Hr. split; [| | |done|done].
  - intros y Hy. destruct (E1 y Hy) as [? [[??]|?]]; split; set_solver.
  - intros y [?|Hy%list_elem_of_singleton]%elem_of_app Hyc; [auto|by subst].
  - intros y [?|Hy%list_elem_of_singleton]%elem_of_app Hyc; [auto|subst; auto].
Qed.

Lemma emit_ok done x rest L : postorder = done ++ x :: rest -> emission_ok done L -> emission_ok (done ++ [x]) (emit L x).
Proof.
  intros Hp He. assert (x ∈ postorder) as Hx by (rewrite Hp; set_solver).
  pose proof (postorder_NoDup c) as Hnd. rewrite Hp in Hnd. apply NoDup_app in Hnd as (_ & Hnd & _).
  assert (x ∉ done) as Hxd by (intros Hin; apply (Hnd x Hin); left).
  assert (forall o, o ∈ operands x -> o ∈ done) as Hops.
  { intros o Ho. assert (x ∈ done ++ [x]) as Hxx by set_solver.
    assert (postorder = (done ++ [x]) ++ rest) as Hp' by (by rewrite <- app_assoc).
    pose proof (earlier _ _ x o Hp' Hxx Ho) as [?|Hox%list_elem_of_singleton]%elem_of_app; [done|]. subst o.
    assert (postorder !! length done = Some x) as Hn by (rewrite Hp; by apply list_lookup_middle).
    destruct (postorder_operands c _ x x Hn Ho) as (m & Hm & Hmx).
    pose proof (NoDup_lookup _ _ _ _ (postorder_NoDup c) Hn Hmx). lia. }
  unfold emit. case_bool_decide as Hc; [|case_bool_decide as Hg].
  - apply (emission_snoc done); try done; [set_solver| |by left; set_solver| | |].
    + intros Hin. destruct (eo_members _ _ He x Hin) as [_ [[_ ?]|Hr]]; [done|].
      unfold IsCustomCall in Hr. apply andb_true_iff in Hr as [Hr%bool_decide_eq_true _]. congruence.
    + set_solver.
    + set_solver.
    + intros o Ho Hs. eapply done_defined; eauto.
  - assert (forall us, (forall u, u ∈ us -> u ∈ users x) -> emission_ok done (foldl emit_reshard L us)) as Hus.
    { intros us Hus. revert L He. induction us as [|u us IH]; intros L He; [done|]. cbn [foldl].
      apply IH; [intros; apply Hus; by right|]. unfold emit_reshard. destruct (reshard u) eqn:Hr; [|done].
      case_bool_decide as Hin; [|done]. cbn [andb].
      assert (u ∈ postorder) as Hup by (apply (fl_users Hflat x); [done|apply Hus; left]).
      apply (emission_snoc done); auto. intros o Ho Hs.
      destruct (fl_reshard Hflat u Hup Hr) as (o' & Hou & _). rewrite Hou in Ho. apply list_elem_of_singleton in Ho as ->.
      assert (x ∈ operands u) as Hxu by (apply users_spec, Hus; left). rewrite Hou in Hxu.
      apply list_elem_of_singleton in Hxu as ->. split; [done|right].
      destruct (fl_element Hflat o' Hx Hg) as (y & Hy & Hyc). exists y.
      assert (y ∈ operands o') as Hyo by (rewrite Hy; set_solver). split; [|by left; split; [|apply users_spec]].
      apply (eo_calls _ _ He); [by apply Hops|done]. }
    apply emission_same; [by apply Hus|done|]. intros Hr. unfold IsCustomCall in Hr. rewrite Hg in Hr. done.
  - unfold emit_reshard. destruct (reshard x) eqn:Hr; cbn [andb]; [case_bool_decide as Hin|].
    + apply (emission_snoc done); try done; [set_solver|by right|set_solver|set_solver|].
      intros o Ho Hs. eapply done_defined; eauto.
    + apply emission_same; [done|done|]. intros _. destruct (decide (x ∈ L)); tauto.
    + apply emission_same; [done..|congruence].
Qed.

Lemma emission_is_ok : emission_ok postorder (emission c).
Proof.
  unfold emission.
  assert (forall rest done L, postorder = done ++ rest -> emission_ok done L -> emission_ok postorder (foldl emit L rest)) as H.
  { induction rest as [|x rest IH]; intros done L Hp He; cbn [foldl]; [by rewrite app_nil_r in Hp; subst|].
    apply (IH (done ++ [x])); [by rewrite <- app_assoc|by eapply emit_ok]. }
  apply (H postorder []); [done|]. split; try (by intros x Hx%elem_of_nil); [constructor|]. intros [] ??; done.
Qed.
End order.

Section execution.
Context {I C St D HS A B : Type} `{EqDecision I, !Countable I, EqDecision C, !Countable C, EqDecision D, !Countable D}.
Context `{!HashOrder}.
Context `{!Hlo I C, !AttrStore I St, !DeviceListApi D, !HloShardingApi HS, !ScheduledInstruction I C HS}.
Context `{!AliasModule I C, !AliasConfig A, !BufferDonors B, !ModuleAliases A B}.
Context `{!PostOrderLaws I C, !UsersLaws I C}.
Context (SimpleAtoi : string -> option Z) (s : St) (c : C).
Abbreviation Scheduler := (MpmdScheduler I C D HS A).
Abbreviation Operation := (MpmdOperation C A D HS).
Implicit Types (i o u v w x y : I) (st : Scheduler) (l L done : list I) (store : Store D HS).
Abbreviation postorder := (MakeInstructionPostOrder c).
Abbreviation reshard i := (IsCustomCall i kCustomCallReshard).
Abbreviation table := (@scheduling_name_to_buffer_index_ I C D HS A _ _ _ _).

(** The scheduling names let a buffer be reused: no two outputs of a task have the
    same name, and when an operation has run, all uses of the earlier values with the
    names of its outputs have run before it. *)
Record reusable_names : Prop := {
  rn_siblings : forall x u u', x ∈ postorder -> opcode x = kCall -> u ∈ users x -> u' ∈ users x ->
    scheduling_name u = scheduling_name u' -> u = u';
  rn_fixed : forall i j, i ∈ postorder -> j ∈ postorder -> fixed c i -> fixed c j ->
    scheduling_name i = scheduling_name j -> i = j;
  rn_reuse : forall L1 x L2 v w, emission c = L1 ++ x :: L2 -> produces x w -> defined c L1 v -> v <> w ->
    scheduling_name v = scheduling_name w -> users v ⊆ L1;
}.

Context {V : Type} (task_sem : C -> list V -> option (list V)) (scalar_sem : Z -> V) (val : I -> V).
Abbreviation Memory := (gmap (StoreType * Z) V).

(** The values of the module: a task applies its computation to the values of its
    operands, a reshard keeps the value. *)
Record meaning : Prop := {
  mn_call : forall x c', x ∈ postorder -> opcode x = kCall -> called_computation x 0 = OK c' ->
    exists results, task_sem c' (val <$> operands x) = Some results /\
      forall u, u ∈ users x -> results !! Z.to_nat (tuple_index u) = Some (val u);
  mn_reshard : forall r o, r ∈ postorder -> reshard r = true -> operand r 0 = OK o -> val r = val o;
  mn_offset : forall o value k, IsCustomCall o kCustomCallSliceOffset = true ->
    GetAttribute s o "offset" = OK value -> SimpleAtoi value = Some k -> val o = scalar_sem k;
}.

Context (Hflat : flat c) (Hnames : reusable_names) (Hmeaning : meaning).
Context (st0 : Scheduler) (Hready : stores_ready c st0).

Lemma same_key i j si sj : GetStore i st0 = OK si -> GetStore j st0 = OK sj -> key si = key sj ->
  scheduling_name i = scheduling_name j.
Proof.
  unfold GetStore. destruct (table st0 !! scheduling_name i) as [a|] eqn:Hi; [|done]. intros [= ->].
  destruct (table st0 !! scheduling_name j) as [b|] eqn:Hj; [|done]. intros [= ->] Hk.
  eapply (key_inj c st0); [apply Hflat|apply Hready|done..].
Qed.
Lemma GetStore_scalar i si : GetStore i st0 = OK si -> scalar si = false.
Proof.
  unfold GetStore. destruct (table st0 !! scheduling_name i) as [a|] eqn:Hi; [|done]. intros [= ->].
  by destruct (t_from _ _ _ (sr_table _ _ Hready) _ _ Hi) as (_ & ? & _).
Qed.
Lemma stored_GetStore i : i ∈ postorder -> stored i -> exists store, GetStore i st0 = OK store.
Proof. intros Hi Hs. destruct (sr_stored _ _ Hready i Hi Hs) as [store Hst]. exists store. unfold GetStore. by rewrite Hst. Qed.

(** The values that are still needed are in the stores. *)
Definition holds L (mem : Memory) : Prop := forall v store, defined c L v -> (exists u, u ∈ users v /\ u ∉ L) ->
  GetStore v st0 = OK store -> mem !! key store = Some (val v).

Lemma holds_operand L1 x L2 mem o store : holds L1 mem -> emission c = L1 ++ x :: L2 -> o ∈ operands x -> stored o ->
  GetStore o st0 = OK store -> mem !! key store = Some (val o).
Proof.
  intros Hm He Ho Hs Hst. pose proof (emission_is_ok c Hflat) as Hok. apply Hm; [|exists x; split|done].
  - exact (eo_order _ _ _ Hok L1 x L2 He o Ho Hs).
  - by apply users_spec.
  - pose proof (eo_NoDup _ _ _ Hok) as Hnd. rewrite He in Hnd. apply NoDup_app in Hnd as (_ & Hnd & _).
    intros Hin. apply (Hnd x Hin). left.
Qed.

Lemma numbered_lookup l k (io : Z * I) : (numbered l) !! k = Some io -> io.1 = Z.of_nat k /\ l !! k = Some io.2.
Proof. unfold numbered. destruct io as [n o]. intros [Hn Ho]%lookup_zip_Some. apply lookup_seqZ in Hn as [-> _]. cbn. split; [lia|done]. Qed.

Lemma task_arguments L1 x L2 mem args : holds L1 mem -> emission c = L1 ++ x :: L2 -> opcode x = kCall ->
  arguments_ok SimpleAtoi s x st0 args ->
  mapM (read_input scalar_sem mem (task_scalars args)) (zip (seqZ 0 (Zlength (task_inputs args))) (task_inputs args)) =
    Some (val <$> operands x).
Proof.
  intros Hm He Hx [A1 A2 _ _].
  assert (x ∈ postorder) as Hxp.
  { apply (eo_members _ _ _ (emission_is_ok c Hflat)). rewrite He. set_solver. }
  assert (length (numbered (operands x)) = length (operands x)) as Hlen.
  { unfold numbered. rewrite length_zip_with, length_seqZ. unfold Zlength. lia. }
  apply mapM_Some_2. apply Forall2_same_length_lookup_2.
  { rewrite length_fmap, length_zip_with, length_seqZ, <- (Forall2_length _ _ _ A1), Hlen. unfold Zlength.
    rewrite <- (Forall2_length _ _ _ A1), Hlen. lia. }
  intros k [n store] v [Hn Hst]%lookup_zip_Some Hv. cbn in Hn, Hst. apply lookup_seqZ in Hn as [-> _].
  rewrite list_lookup_fmap in Hv. destruct (operands x !! k) as [o|] eqn:Ho; [|done]. injection Hv as <-.
  destruct (Forall2_lookup_r _ _ _ _ _ A1 Hst) as ([n' o'] & Hio & Hin).
  apply numbered_lookup in Hio as [Hn' Ho']. cbn in Hn', Ho'. rewrite Ho in Ho'. injection Ho' as <-. subst n'.
  unfold input_for in Hin. cbn in Hin. unfold read_input. cbn [fst snd]. rewrite Z.add_0_l.
  destruct (IsCustomCall o kCustomCallSliceOffset) eqn:Hso.
  - destruct Hin as ([-> _] & sc & Hsc & Hscn).
    destruct (head (filter (fun sc => scalar_parameter sc = Z.of_nat k) (task_scalars args))) as [sc'|] eqn:Hhead.
    + apply head_Some_elem_of, list_elem_of_filter in Hhead as [Hk Hin'].
      destruct (A2 sc' Hin') as (o2 & value & Hio2 & Hs2 & Hattr & Hatoi).
      apply list_elem_of_lookup in Hio2 as [k2 Hk2]. apply numbered_lookup in Hk2 as [Hk2 Ho2]. cbn in Hk2, Ho2.
      assert (k2 = k) as -> by lia. rewrite Ho in Ho2. injection Ho2 as <-.
      cbn. f_equal. symmetry. by eapply (mn_offset Hmeaning).
    + apply head_None in Hhead. assert (sc ∈ filter (fun sc => scalar_parameter sc = Z.of_nat k) (task_scalars args)) as Hf
        by (by apply list_elem_of_filter). rewrite Hhead in Hf. by apply elem_of_nil in Hf.
  - rewrite (GetStore_scalar o store Hin). apply (holds_operand L1 x L2); [done|done| | |done].
    + by eapply list_elem_of_lookup_2.
    + destruct (fl_call _ Hflat x o Hxp Hx) as [?|?]; [by eapply list_elem_of_lookup_2|congruence|done].
Qed.

(** The values of other instructions stay. *)
Lemma holds_other L1 x L2 (mem mem' : Memory) v store : emission c = L1 ++ x :: L2 -> holds L1 mem ->
  defined c L1 v -> (exists u, u ∈ users v /\ u ∉ L1 ++ [x]) -> GetStore v st0 = OK store ->
  (mem' !! key store = mem !! key store \/ exists w sw, produces x w /\ GetStore w st0 = OK sw /\ v <> w /\ key sw = key store) ->
  mem' !! key store = Some (val v).
Proof.
  intros He Hm Hd (u & Hu & HuL) Hst Hcase.
  destruct Hcase as [->|(w & sw & Hw & Hsw & Hvw & Hk)].
  - apply Hm; [done| |done]. exists u. split; [done|]. set_solver.
  - pose proof (same_key w v sw store Hsw Hst Hk) as Hname.
    assert (u ∈ L1) by (eapply (rn_reuse Hnames L1 x L2 v w); done). set_solver.
Qed.

Lemma defined_snoc L1 x v : defined c (L1 ++ [x]) v -> defined c L1 v \/ produces x v.
Proof.
  intros [Hv [?|(y & [Hy|Hy%list_elem_of_singleton]%elem_of_app & Hp)]]; [by left; split; [|left]|left|right; by subst].
  split; [done|]. right. by exists y.
Qed.

Lemma outputs_keys x args results : opcode x = kCall -> x ∈ postorder -> arguments_ok SimpleAtoi s x st0 args ->
  NoDup ((fun sv : Store D HS * V => key sv.1) <$> zip (task_outputs args) results).
Proof.
  intros Hx Hxp [_ _ A3 _]. apply NoDup_fmap_2_strong.
  2:{ apply NoDup_alt. intros k1 k2 sv H1 H2. destruct sv as [store v].
      apply lookup_zip_Some in H1 as [H1 _], H2 as [H2 _].
      destruct (A3 k1 store H1) as (u & _ & Hu & _). cbn in *.
      destruct (A3 k1 store H1) as (u1 & Hu1 & Ht1 & _ & Hg1), (A3 k2 store H2) as (u2 & Hu2 & Ht2 & _ & Hg2).
      assert (u1 = u2) as -> by (apply (rn_siblings Hnames x); try done; by eapply same_key). lia. }
  intros [s1 v1] [s2 v2] H1%list_elem_of_lookup H2%list_elem_of_lookup Hk. cbn in Hk.
  destruct H1 as [k1 H1], H2 as [k2 H2]. apply lookup_zip_Some in H1 as [H1 Hv1], H2 as [H2 Hv2]. cbn in *.
  destruct (A3 k1 s1 H1) as (u1 & Hu1 & Ht1 & _ & Hg1), (A3 k2 s2 H2) as (u2 & Hu2 & Ht2 & _ & Hg2).
  assert (u1 = u2) as -> by (apply (rn_siblings Hnames x); try done; by eapply same_key).
  assert (k1 = k2) as -> by lia. congruence.
Qed.

Lemma exec_task L1 x L2 mem (m : SpmdModule C A HS) devices args flag : holds L1 mem -> emission c = L1 ++ x :: L2 ->
  opcode x = kCall -> called_computation x 0 = OK (module_computation m) -> arguments_ok SimpleAtoi s x st0 args ->
  exists mem', exec_op task_sem scalar_sem mem
      (SpmdHloModuleTask m devices (task_inputs args) (task_outputs args) (task_scalars args) flag) = Some mem' /\
    holds (L1 ++ [x]) mem'.
Proof.
  intros Hm He Hx Hc Hargs.
  assert (x ∈ postorder) as Hxp.
  { apply (eo_members _ _ _ (emission_is_ok c Hflat)). rewrite He. set_solver. }
  destruct (mn_call Hmeaning x _ Hxp Hx Hc) as (results & Hsem & Hres).
  cbn [exec_op]. rewrite (task_arguments L1 x L2 mem args Hm He Hx Hargs). cbn [mbind option_bind].
  rewrite Hsem. cbn [mbind option_bind]. eexists. split; [done|].
  intros v store Hd Hlive Hst.
  destruct (decide (v ∈ users x)) as [Hvx|Hvx].
  - destruct (ar_users _ _ _ _ _ Hargs v Hvx) as [Hpos [store' Hs']].
    destruct (ar_outputs _ _ _ _ _ Hargs _ _ Hs') as (u & Hu & Htu & _ & Hgu).
    assert (u = v) as -> by (apply (fl_tuple_index _ Hflat x); try done; lia).
    rewrite Hst in Hgu. injection Hgu as <-.
    apply (foldl_write_in mem _ store (val v)); [by apply (outputs_keys x)|].
    apply (list_elem_of_lookup_2 _ (Z.to_nat (tuple_index v))), lookup_zip_Some. split; [done|]. by apply Hres.
  - apply defined_snoc in Hd as [Hd|[[_ ?]|[Hr _]]]; [|done|by destruct (reshard_not_call x Hr)].
    apply (holds_other L1 x L2 mem); [done..|].
    destruct (decide (key store ∈ (fun sv : Store D HS * V => key sv.1) <$> zip (task_outputs args) results)) as [Hin|Hnin].
    + right. apply list_elem_of_fmap in Hin as ([sw rv] & Hk & [k Hkw]%list_elem_of_lookup).
      apply lookup_zip_Some in Hkw as [Hkw _]. cbn in *.
      destruct (ar_outputs _ _ _ _ _ Hargs k sw Hkw) as (w & Hw & _ & _ & Hgw). exists w, sw.
      split_and!; [by left|done|intros ->; done|done].
    + left. apply foldl_write_ne. intros sv Hsv Heq. apply Hnin, list_elem_of_fmap. by exists sv.
Qed.

Lemma exec_reshard L1 x L2 mem o source dest : holds L1 mem -> emission c = L1 ++ x :: L2 ->
  reshard x = true -> operand x 0 = OK o -> GetStore o st0 = OK source -> GetStore x st0 = OK dest ->
  exists mem', exec_op task_sem scalar_sem mem (Reshard (C := C) (A := A) source dest) = Some mem' /\ holds (L1 ++ [x]) mem'.
Proof.
  intros Hm He Hx Ho Hsource Hdest.
  assert (x ∈ postorder) as Hxp.
  { apply (eo_members _ _ _ (emission_is_ok c Hflat)). rewrite He. set_solver. }
  destruct (fl_reshard _ Hflat x Hxp Hx) as (o' & Hxo & Hso).
  assert (o' = o) as -> by (apply vec_at_lookup in Ho as [_ Ho]; rewrite Hxo in Ho; by injection Ho).
  assert (mem !! key source = Some (val o)) as Hv.
  { apply (holds_operand L1 x L2); [done|done| |done|done]. rewrite Hxo. set_solver. }
  cbn [exec_op]. rewrite Hv. cbn [mbind option_bind]. eexists. split; [done|].
  intros v store Hd Hlive Hst. destruct (decide (v = x)) as [->|Hvx].
  - rewrite Hdest in Hst. injection Hst as <-. rewrite lookup_insert_eq. f_equal. symmetry. by apply (mn_reshard Hmeaning).
  - apply defined_snoc in Hd as [Hd|[[Hc _]|[_ ?]]]; [|by destruct (reshard_not_call x Hx)|congruence].
    apply (holds_other L1 x L2 mem); [done..|]. destruct (decide (key dest = key store)) as [Hk|Hk].
    + right. exists x, dest. split_and!; [by right|done..].
    + left. by rewrite lookup_insert_ne.
Qed.

Lemma exec_holds mem0 ops : holds [] mem0 -> Forall2 (op_for SimpleAtoi s st0) (emission c) ops ->
  exists mem, exec task_sem scalar_sem mem0 ops = Some mem /\ holds (emission c) mem.
Proof.
  intros H0 Hops.
  assert (forall L2 ops L1 mem, emission c = L1 ++ L2 -> Forall2 (op_for SimpleAtoi s st0) L2 ops -> holds L1 mem ->
    exists mem', exec task_sem scalar_sem mem ops = Some mem' /\ holds (emission c) mem') as Hgen; [|by apply (Hgen (emission c) ops [])].
  clear H0 Hops ops mem0. induction L2 as [|x L2 IH]; intros ops L1 mem He Hops Hm; inversion Hops as [|? op ? ops' Hop Hrest]; subst.
  { exists mem. rewrite He, app_nil_r. done. }
  assert (exists mem', exec_op task_sem scalar_sem mem op = Some mem' /\ holds (L1 ++ [x]) mem') as (mem' & Hrun & Hm').
  { destruct Hop as [(Hx & c' & m & devices & args & flag & Hc & Hmc & Hargs & ->)|(Hx & o & source & dest & Ho & Hs & Hd & ->)].
    - subst c'. by eapply exec_task.
    - by eapply exec_reshard. }
  cbn [exec]. rewrite Hrun. cbn [mbind option_bind]. apply (IH ops' (L1 ++ [x])); [by rewrite <- app_assoc|done..].
Qed.

(** The store of a parameter and of an output of the module. *)
Lemma fixed_store i store : i ∈ postorder -> fixed c i -> GetStore i st0 = OK store ->
  (opcode i = kParameter -> key store = (PARAM, parameter_number_of i)) /\
  (forall k, is_output i = true -> GetRootIndex c i = Some k -> key store = (ROOT, k)).
Proof.
  intros Hi Hf Hst. unfold GetStore in Hst. destruct (table st0 !! scheduling_name i) as [a|] eqn:Ha; [|done].
  injection Hst as ->. destruct (t_from _ _ _ (sr_table _ _ Hready) _ _ Ha) as (_ & _ & j & Hj & Hname & Hkind).
  destruct (store_type store) eqn:Ht.
  - destruct Hkind as [Hp Hidx]. assert (j = i) as -> by (apply (rn_fixed Hnames); try done; by left).
    split; [intros _; unfold key; congruence|]. intros k Ho _. by destruct (is_output_not_parameter i Ho).
  - destruct Hkind as [Ho Hidx]. assert (j = i) as -> by (apply (rn_fixed Hnames); try done; right; rewrite Hidx; eauto).
    split; [intros Hp; by destruct (is_output_not_parameter i Ho)|]. intros k _ Hk. unfold key. congruence.
  - by destruct (proj2 Hkind i Hi Hf).
Qed.
End execution.

(** ** MpmdPartitionIntoTasks *)
Section partition.
Context {I C St D HS A B : Type} `{EqDecision I, !Countable I, EqDecision C, !Countable C, EqDecision D, !Countable D}.
Context `{!HashOrder}.
Context `{!Hlo I C, !AttrStore I St, !DeviceListApi D, !HloShardingApi HS, !ScheduledInstruction I C HS}.
Context `{!AliasModule I C, !AliasConfig A, !BufferDonors B, !ModuleAliases A B}.
Context (IsTileMaximalLeaf : HS -> bool) (SimpleAtoi : string -> option Z).
Context (partition_ : HloPartition D) (s : St).
Context (allow_to_parameters allow_to_output : list bool).
Context (module_alias_config : A) (module_donor_config : B).
Context (clone_status cost_status : C -> Result unit) (verify : C -> A -> Result unit) (output_is_dynamic : C -> bool).
Abbreviation MpmdPartitionIntoTasks := (MpmdPartitionIntoTasks IsTileMaximalLeaf SimpleAtoi partition_ s
  allow_to_parameters allow_to_output module_alias_config module_donor_config clone_status cost_status verify output_is_dynamic).

(** C2: The schedule computes the module.  Whatever the tasks mean, when the scheduling
    names let buffers be reused, running the operations in the order of the schedule,
    from stores with the values of the parameters, never reads an empty store, and ends
    with the value of every output of the module in its root store. *)
Theorem MpmdPartitionIntoTasks_computes `{!PostOrderLaws I C, !UsersLaws I C} (c : C)
    (ops : list (MpmdOperation C A D HS)) (modules : list (SpmdModule C A HS)) (temps unused : list (Store D HS))
    {V : Type} (task_sem : C -> list V -> option (list V)) (scalar_sem : Z -> V) (val : I -> V)
    (mem0 : gmap (StoreType * Z) V) :
  MpmdPartitionIntoTasks c = OK (ops, modules, temps, unused) ->
  flat c -> reusable_names c -> meaning SimpleAtoi s c task_sem scalar_sem val ->
  (forall p, p ∈ MakeInstructionPostOrder c -> opcode p = kParameter ->
     mem0 !! (PARAM, parameter_number_of p) = Some (val p)) ->
  exists mem, exec task_sem scalar_sem mem0 ops = Some mem /\
    forall v k, v ∈ MakeInstructionPostOrder c -> is_output v = true -> GetRootIndex c v = Some k ->
      mem !! (ROOT, k) = Some (val v).
Proof.
  intros Hrun Hflat Hnames Hmeaning Hmem0. unfold TaskScheduler.MpmdPartitionIntoTasks in Hrun.
  apply Result_bind_OK in Hrun as (st & Hst & Hrun). apply Result_bind_OK in Hrun as (ts & _ & Hrun).
  apply Result_bind_OK in Hrun as (us & _ & [= <- <- <- <-]).
  unfold AddTasksFromEntryComputation in Hst. apply Result_bind_OK in Hst as (st1 & H1 & Hst).
  apply Result_bind_OK in Hst as (st2 & H2 & H3).
  destruct (loops_ready _ _ _ _ _ c st1 st2 H1 H2) as (Hready & E1 & E2 & E3).
  destruct (operations_emitted _ _ _ _ _ _ _ _ _ c st2 st (sr_table _ _ Hready) E1 E2 E3 H3) as [_ _ _ _ Hops].
  destruct (exec_holds SimpleAtoi s c task_sem scalar_sem val Hflat Hnames Hmeaning st2 Hready mem0 (schedule_ st))
    as (mem & Hexec & Hholds); [|exact Hops|].
  - intros v store [Hv [Hp|(y & Hy%elem_of_nil & _)]] _ Hs; [|done].
    destruct (fixed_store c Hnames st2 Hready v store Hv (or_introl Hp) Hs) as [Hkey _].
    rewrite (Hkey Hp). by apply Hmem0.
  - exists mem. split; [done|]. intros v k Hv Ho Hk.
    destruct (stored_GetStore c st2 Hready v Hv (or_intror Ho)) as [store Hs].
    assert (fixed c v) as Hfix by (right; rewrite Hk; eauto).
    destruct (fixed_store c Hnames st2 Hready v store Hv Hfix Hs) as [_ Hkey].
    rewrite <- (Hkey k Ho Hk). apply Hholds; [| |done].
    + apply (done_defined c Hflat (MakeInstructionPostOrder c) [] _ v); [by rewrite app_nil_r|by apply emission_is_ok|done|by right].
    + exists (root_instruction c). split.
      * apply users_spec. pose proof (GetRootIndex_operand c v k (fl_root _ Hflat) Hk) as Hop.
        apply vec_at_lookup in Hop as [_ Hop]. by eapply list_elem_of_lookup_2.
      * intros Hin. destruct (eo_members _ _ _ (emission_is_ok c Hflat) _ Hin) as [_ [[Hc _]|Hr]].
        -- rewrite (fl_root _ Hflat) in Hc. done.
        -- unfold IsCustomCall in Hr. by rewrite (fl_root _ Hflat) in Hr.
Qed.

(** Every temporary has its place: a store of the list of temporaries has its position
    as its index, and every temporary that an operation reads or writes is in the list. *)
Theorem MpmdPartitionIntoTasks_temporaries `{!PostOrderLaws I C} (c : C)
    (ops : list (MpmdOperation C A D HS)) (modules : list (SpmdModule C A HS)) (temps unused : list (Store D HS)) :
  MpmdPartitionIntoTasks c = OK (ops, modules, temps, unused) ->
  (forall k store, temps !! k = Some store -> store_type store = TEMP /\ store_index store = Z.of_nat k) /\
  (forall op store, op ∈ ops ->
     match op with
     | SpmdHloModuleTask _ _ inputs outputs _ _ => store ∈ inputs \/ store ∈ outputs
     | Reshard input output => store = input \/ store = output
     | FreeStore x | CreateStore x => store = x
     end -> store_type store = TEMP -> scalar store = true \/ store ∈ temps).
Proof.
  intros Hrun. unfold TaskScheduler.MpmdPartitionIntoTasks in Hrun.
  apply Result_bind_OK in Hrun as (st & Hst & Hrun). apply Result_bind_OK in Hrun as (ts & Hts & Hrun).
  apply Result_bind_OK in Hrun as (us & _ & [= <- <- <- <-]).
  unfold AddTasksFromEntryComputation in Hst. apply Result_bind_OK in Hst as (st1 & H1 & Hst).
  apply Result_bind_OK in Hst as (st2 & H2 & H3).
  destruct (loops_ready _ _ _ _ _ c st1 st2 H1 H2) as (Hready & E1 & E2 & E3).
  destruct (operations_emitted _ _ _ _ _ _ _ _ _ c st2 st (sr_table _ _ Hready) E1 E2 E3 H3) as [F1 F2 _ _ Hops].
  pose proof (table_ok_same c _ st2 st F1 F2 (sr_table _ _ Hready)) as Hok.
  destruct (temporaries_ok c st Hok) as (ts' & Hts' & Hlen & Hall). rewrite Hts in Hts'. injection Hts' as <-.
  split; [intros k store Hk; destruct (Hall k store Hk) as (? & ? & _); done|].
  assert (forall i store, GetStore i st2 = OK store -> store_type store = TEMP -> store ∈ ts) as Hin.
  { intros i store Hg Ht. unfold GetStore in Hg. rewrite <- F1 in Hg.
    destruct (scheduling_name_to_buffer_index_ st !! scheduling_name i) as [a|] eqn:Ha; [|done]. injection Hg as ->.
    destruct (t_from _ _ _ Hok _ _ Ha) as (_ & _ & j & _ & _ & Hkind). rewrite Ht in Hkind. destruct Hkind as [Hidx _].
    destruct (lookup_lt_is_Some_2 ts (Z.to_nat (store_index store))) as [store' Hs']; [unfold Zlength in Hlen; lia|].
    destruct (Hall _ _ Hs') as (Ht' & Hi' & Ht2).
    assert (store_name store' = scheduling_name i) as Hn.
    { eapply (t_temp_inj _ _ _ Hok); [exact Ht2|exact Ha|done|done|lia]. }
    rewrite Hn, Ha in Ht2. injection Ht2 as <-. by eapply list_elem_of_lookup_2. }
  intros op store [k Hk]%list_elem_of_lookup Hstore Ht.
  destruct (Forall2_lookup_r _ _ _ _ _ Hops Hk) as (i & _ & Hop).
  destruct Hop as [(Hx & c' & m & devices & args & flag & _ & _ & Hargs & ->)|(Hx & o & source & dest & _ & Hs & Hd & ->)].
  - destruct Hstore as [[n Hn]%list_elem_of_lookup|[n Hn]%list_elem_of_lookup].
    + destruct (Forall2_lookup_r _ _ _ _ _ (ar_inputs _ _ _ _ _ Hargs) Hn) as ([m' o] & _ & Hin').
      unfold input_for in Hin'. cbn in Hin'. destruct (IsCustomCall o _); [left; tauto|right; by eapply Hin].
    + right. destruct (ar_outputs _ _ _ _ _ Hargs n store Hn) as (u & _ & _ & _ & Hg). by eapply Hin.
  - right. destruct Hstore as [->| ->]; by eapply Hin.
Qed.
End partition.
