(* ===== verification/SchedulePriority.v ===== *)
(** * Buffers and the schedule together (mpmd_buffer_scheduling_name.cc, mpmd_partition.cc)

    The pass of BufferScheduling.v names the buffers in the post order of the module;
    [PrioritizeReshardsInSchedule] moves a reshard before instructions of the post
    order.  Two modules that differ in the order of their outputs: one is scheduled
    correctly, in the other one a reshard is overwritten before it is used. *)
From S2P Require Import Prelude Hlo Instruction Partition Sharding ShardingIndex Utils BufferScheduling BufferAlias BufferAliasFacts BufferSafety TaskScheduler TaskSchedulerFacts TaskSchedulerRun TaskExecution.
Local Open Scope Z_scope.

Module Priority.
Definition param (n : Z) : Graph.node := Graph.Node kParameter [] n [] "" "" false 8 false.
Definition call (o : nat) : Graph.node := Graph.Node kCall [o] 0 [0%nat] "" "" true 8 false.
Definition gte (i : nat) : Graph.node := Graph.Node kGetTupleElement [i] 0 [] "" "" false 8 false.
Definition tuple (ops : list nat) : Graph.node := Graph.Node kTuple ops 0 [] "" "" true 8 false.
Definition reshard (o : nat) : Graph.node := Graph.Node kCustomCall [o] 0 [] kCustomCallReshard "" false 8 false.

(** Two tasks on the mesh "a" from the first parameter, whose result is used by a task
    there and, after a reshard (14), by a task on the mesh "b"; two tasks on "b" from the
    second parameter.  All tasks run the computation 0. *)
Definition nodes (outputs : list nat) : list Graph.node := [
  param 0; tuple [0];
  param 0; param 1;
  call 2; gte 4; call 5; gte 6; call 7; gte 8;
  call 3; gte 10; call 11; gte 12;
  reshard 7; call 14; gte 15; tuple outputs]%nat.
Definition comps (order : list nat) : list Graph.comp := [Graph.Comp 1 [0] [0; 1]; Graph.Comp 17 [2; 3] order]%nat.
Definition colors : AttrMap.t :=
  foldl (fun s i => AssignColor i "b" s) (foldl (fun s i => AssignColor i "a" s) ∅ [2; 4; 5; 6; 7; 8; 9]%nat)
    [3; 10; 11; 12; 13; 14; 15; 16]%nat.
Definition partition : HloPartition Slice.t :=
  snd (AllocateColor_named (snd (AllocateColor_named (Create (Slice.mk 0 8)) "a" (Slice.mk 0 4) default_TaskOptions))
    "b" (Slice.mk 4 4) default_TaskOptions).

(** A module: its outputs and its post order. *)
Section sample.
Context (outputs order : list nat).

#[local] Instance hlo : Hlo nat nat := Graph.hlo (nodes outputs) (comps order).
#[local] Instance named : NamedInstruction nat OpSharding := {
  instruction_name i := "v" +:+ pretty i;
  instruction_shape _ := MkShape F32 [8];
  sharding_or_default _ d := d;
}.
#[local] Instance top : HeapTop := first_min.
#[local] Instance shape_inhabited : Inhabited (ShardedShape Slice.t) := populate (MkSharded Z_F32 [] (Slice.mk 0 0)).

Definition buffers : Result (Schedule nat Slice.t) :=
  BufferScheduling.Run (HS := OpSharding) 1%nat partition colors ∅.
Definition names : gmap nat string := match buffers with OK st => scheduling_names st | _ => ∅ end.

#[local] Instance scheduled : ScheduledInstruction nat nat OpSharding := {
  scheduling_name i := default "" (names !! i);
  hlo_shape _ := MkShape F32 [8];
  sharding_of _ := Some Replicate;
  tuple_shapes_size _ := 1;
  computation_name _ := "task";
}.
#[local] Instance modul : AliasModule nat nat := {
  instructions c := MakeInstructionPostOrder c;
  spmd_size _ := 8;
  spmd_tuple_sizes i := if shape_IsTuple i then Some ((fun _ => 8) <$> operands i) else None;
  same_shape _ _ := true;
}.
#[local] Instance module_aliases : ModuleAliases (gmap (list Z) Z) (gset Z) := {
  GetAliasedOutput _ _ := None;
  no_aliases := ∅;
  no_donors := ∅;
  AddBufferDonor p b := OK ({[p]} ∪ b);
}.
#[local] Instance order_of_tables : HashOrder := insertion_order.

Definition run := MpmdPartitionIntoTasks (I := nat) (A := gmap (list Z) Z) (B := gset Z) (HS := OpSharding) (D := Slice.t)
  (fun _ => false) (fun _ => None) partition colors [] [] ∅ ∅ (fun _ => OK ()) (fun _ => OK ()) (fun _ _ => OK ())
  (fun _ => false) 1%nat.
Definition ops : list (MpmdOperation nat (gmap (list Z) Z) Slice.t OpSharding) :=
  match run with OK r => r.1.1.1 | _ => [] end.
End sample.

(** A task adds one; the parameters are 100 and 200. *)
Definition task_sem (_ : nat) (args : list Z) : option (list Z) := Some [1 + foldr Z.add 0 args].
Definition val (i : nat) : Z :=
  nth i [0; 0; 100; 200; 0; 101; 0; 102; 0; 103; 0; 201; 0; 202; 102; 0; 103] 0.
Definition mem0 : gmap (StoreType * Z) Z := {[ (PARAM, 0) := 100; (PARAM, 1) := 200 ]}.

Definition good_outputs : list nat := [13; 9; 16]%nat.
Definition good_order : list nat := [3; 10; 11; 12; 13; 2; 4; 5; 6; 7; 8; 9; 14; 15; 16; 17]%nat.
Definition bad_outputs : list nat := [9; 13; 16]%nat.
Definition bad_order : list nat := [2; 4; 5; 6; 7; 8; 9; 3; 10; 11; 12; 13; 14; 15; 16; 17]%nat.

(** Decidable properties of all instructions, and the meaning of the sample. *)
Section checks.
Context (outputs order : list nat).
#[local] Existing Instance hlo.

Lemma checked_order (P : nat -> Prop) `{!forall i, Decision (P i)} : bool_decide (Forall P order) = true ->
  forall i, i ∈ @MakeInstructionPostOrder nat nat (hlo outputs order) 1%nat -> P i.
Proof. intros HP i Hi. apply bool_decide_eq_true in HP. by apply (proj1 (Forall_forall _ _) HP). Qed.

Definition means (i : nat) : Prop :=
  let _ := hlo outputs order in
  (opcode i = kCall -> called_computations i = [0%nat] /\
     Forall (fun u => tuple_index u = 0 /\ val u = 1 + foldr Z.add 0 (val <$> operands i)) (users i)) /\
  (IsCustomCall i kCustomCallReshard = true -> Forall (fun o => val i = val o) (operands i)).
#[local] Instance means_dec i : Decision (means i).
Proof. unfold means. apply _. Defined.

Lemma meaning_checked : bool_decide (Forall means order) = true ->
  meaning (Hlo0 := hlo outputs order) (fun _ => None) colors 1%nat task_sem (fun z => z) val.
Proof.
  intros Hc. pose proof (checked_order means Hc) as Hall. split.
  - intros x c' Hx Hop Hcall. destruct (Hall x Hx) as [Hm _]. destruct (Hm Hop) as [_ Hu].
    exists [1 + foldr Z.add 0 (val <$> @operands nat nat (hlo outputs order) x)]. split; [done|].
    intros u Hux. rewrite Forall_forall in Hu. destruct (Hu u Hux) as [-> ->]. done.
  - intros r o Hr Hre Ho. destruct (Hall r Hr) as [_ Hm]. specialize (Hm Hre). rewrite Forall_forall in Hm.
    apply Hm. apply vec_at_lookup in Ho as [_ Ho]. by eapply list_elem_of_lookup_2.
  - done.
Qed.
End checks.

(** The order of the operations, the same for both: reshard 14 follows task 6. *)
Definition good_emission : list nat := [10; 12; 4; 6; 14; 8; 15]%nat.

Section facts.
#[local] Instance hlo_good : Hlo nat nat := hlo good_outputs good_order.
#[local] Instance scheduled_good : ScheduledInstruction nat nat OpSharding := scheduled good_outputs good_order.

Lemma good_postorder_laws : PostOrderLaws nat nat.
Proof. exact (Graph.postorder_laws (nodes good_outputs) (comps good_order) eq_refl). Qed.
Lemma good_users_laws : UsersLaws nat nat.
Proof. exact (Graph.users_laws (nodes good_outputs) (comps good_order)). Qed.
Lemma emission_good : emission 1%nat = good_emission.
Proof. by vm_compute. Qed.
Lemma checked (P : nat -> Prop) `{!forall i, Decision (P i)} : bool_decide (Forall P good_order) = true ->
  forall i, i ∈ MakeInstructionPostOrder 1%nat -> P i.
Proof. apply (checked_order good_outputs good_order). Qed.
Lemma checked2 (P : nat -> nat -> Prop) `{!forall i j, Decision (P i j)} :
  bool_decide (Forall (fun i => Forall (P i) good_order) good_order) = true ->
  forall i j, i ∈ MakeInstructionPostOrder 1%nat -> j ∈ MakeInstructionPostOrder 1%nat -> P i j.
Proof.
  intros HP i j Hi Hj. apply bool_decide_eq_true in HP. rewrite Forall_forall in HP.
  by apply (proj1 (Forall_forall _ _) (HP i Hi)).
Qed.

(** A decidable property of all instructions, by evaluation. *)
Ltac by_check P H :=
  assert (forall i, i ∈ MakeInstructionPostOrder 1%nat -> P i) as H by (apply (checked P); vm_compute; reflexivity).

Definition stored_b (i : nat) : bool := bool_decide (opcode i = kParameter) || is_output i.
Lemma stored_b_spec i : stored_b i = true -> stored i.
Proof. unfold stored_b, stored. rewrite orb_true_iff, bool_decide_eq_true. done. Qed.
Definition one_operand (P : nat -> bool) (i : nat) : bool := match operands i with [o] => P o | _ => false end.
Lemma one_operand_spec P i : one_operand P i = true -> exists o, operands i = [o] /\ P o = true.
Proof. unfold one_operand. destruct (operands i) as [|o [|]]; [done|eauto|done]. Qed.

Lemma good_flat : flat 1%nat.
Proof.
  split.
  - done.
  - intros v u Hv. by_check (fun v => Forall (.∈ good_order) (users v)) Hcheck.
    pose proof (Hcheck v Hv) as Hall.
    rewrite Forall_forall in Hall. exact (Hall u).
  - intros i j Hi Hj.
    apply (checked2 (fun i j => opcode i = kParameter -> opcode j = kParameter ->
      parameter_number_of i = parameter_number_of j -> i = j)); [by vm_compute|done..].
  - intros x o Hx Hc Ho. right. apply stored_b_spec.
    by_check (fun x => opcode x = kCall -> Forall (fun o => stored_b o = true) (operands x)) Hcheck.
    pose proof (Hcheck x Hx Hc) as Hall.
    rewrite Forall_forall in Hall. exact (Hall o Ho).
  - intros g Hg Hop.
    by_check (fun g => opcode g = kGetTupleElement -> one_operand (fun o => bool_decide (opcode o = kCall)) g = true) Hcheck.
    pose proof (Hcheck g Hg Hop) as (o & Ho & Hc)%one_operand_spec.
    exists o. by apply bool_decide_eq_true in Hc.
  - intros r Hr Hop.
    by_check (fun r => IsCustomCall r kCustomCallReshard = true -> one_operand stored_b r = true) Hcheck.
    pose proof (Hcheck r Hr Hop) as (o & Ho & Hs)%one_operand_spec.
    exists o. split; [done|by apply stored_b_spec].
  - intros x u u' Hx Hc Hu Hu'.
    by_check (fun x => opcode x = kCall -> length (users x) = 1%nat) Hcheck.
    pose proof (Hcheck x Hx Hc) as Hlen.
    destruct (users x) as [|w [|]]; [done| |done]. apply list_elem_of_singleton in Hu, Hu'. congruence.
Qed.

(** Only the instructions 11 and 14 share a buffer. *)
Lemma good_sharing i j : i ∈ MakeInstructionPostOrder 1%nat -> j ∈ MakeInstructionPostOrder 1%nat ->
  stored_b i = true -> stored_b j = true -> scheduling_name i = scheduling_name j ->
  i = j \/ i = 11%nat /\ j = 14%nat \/ i = 14%nat /\ j = 11%nat.
Proof.
  apply (checked2 (fun i j => stored_b i = true -> stored_b j = true -> scheduling_name i = scheduling_name j ->
    i = j \/ i = 11%nat /\ j = 14%nat \/ i = 14%nat /\ j = 11%nat)). by vm_compute.
Qed.

Lemma not_fixed_14 : ~ fixed 1%nat 14%nat.
Proof. intros [H|[_ [k H]]]; vm_compute in H; discriminate H. Qed.
Lemma produces_cases x w : x ∈ good_emission -> produces x w -> w = (if bool_decide (x = 14%nat) then 14 else S x)%nat.
Proof.
  intros Hx [[Hc Hw]|[Hr <-]].
  - assert (Forall (fun x => opcode x = kCall -> users x = [S x] /\ x <> 14%nat) good_emission) as Hall
      by (apply (bool_decide_unpack _); by vm_compute).
    rewrite Forall_forall in Hall. destruct (Hall x Hx Hc) as [Hu Hne]. rewrite Hu in Hw.
    rewrite bool_decide_eq_false_2 by done. by apply list_elem_of_singleton in Hw.
  - assert (Forall (fun x => IsCustomCall x kCustomCallReshard = true -> x = 14%nat) good_emission) as Hall
      by (apply (bool_decide_unpack _); by vm_compute).
    rewrite Forall_forall in Hall. by rewrite (Hall x Hx Hr).
Qed.

Lemma produced_ok x w : x ∈ good_emission -> produces x w -> stored_b w = true /\ w ∈ good_order.
Proof.
  intros Hx Hp. rewrite (produces_cases x w Hx Hp). clear Hp. revert x Hx. apply Forall_forall.
  apply (bool_decide_unpack _). by vm_compute.
Qed.

Lemma emission_position (L1 : list nat) x : good_emission !! length L1 = Some x ->
  (x = 14%nat -> length L1 = 4%nat) /\ (x = 10%nat -> length L1 = 0%nat) /\ x <> 13%nat.
Proof.
  destruct (length L1) as [|[|[|[|[|[|[|n]]]]]]]; cbn; intros [= <-]; split_and!; congruence || done.
Qed.

Lemma good_names : reusable_names 1%nat.
Proof.
  split.
  - intros x u u' Hx Hc Hu Hu' _.
    by_check (fun x => opcode x = kCall -> length (users x) = 1%nat) Hcheck.
    pose proof (Hcheck x Hx Hc) as Hlen.
    destruct (users x) as [|w [|]]; [done| |done]. apply list_elem_of_singleton in Hu, Hu'. congruence.
  - intros i j Hi Hj Hfi Hfj Hname.
    assert (forall i, fixed 1%nat i -> stored_b i = true) as Hst.
    { intros k. unfold fixed, stored_b. rewrite orb_true_iff, bool_decide_eq_true. tauto. }
    pose proof (good_sharing i j Hi Hj (Hst i Hfi) (Hst j Hfj) Hname) as Hcases. clear Hname Hst.
    destruct Hcases as [Heq|[[-> ->]|[-> ->]]]; [exact Heq|by destruct (not_fixed_14 Hfj)|by destruct (not_fixed_14 Hfi)].
  - intros L1 x L2 v w He Hp Hd Hne Hname. rewrite emission_good in He.
    destruct (split_lookup _ _ _ _ He) as [Hx Ht].
    assert (x ∈ good_emission) as Hxe by (by eapply list_elem_of_lookup_2).
    destruct (produced_ok x w Hxe Hp) as [Hsw Hwo]. pose proof (produces_cases x w Hxe Hp) as Hw.
    assert (L1 ⊆ good_emission) as Hsub by (rewrite <- Ht; apply subseteq_take).
    assert (stored_b v = true) as Hsv.
    { destruct Hd as [_ [Hop|(y & Hy & Hyv)]]; [unfold stored_b; by rewrite bool_decide_eq_true_2|].
      by apply (produced_ok y v); [apply Hsub|]. }
    pose proof (good_sharing v w (proj1 Hd) Hwo Hsv Hsw Hname) as Hcases. clear Hname Hp Hsw Hsv Hxe.
    destruct Hcases as [Heq|[[-> ->]|[-> ->]]]; [by destruct (Hne Heq)| |].
    + assert (length L1 = 4)%nat as Hlen by
        (destruct (emission_position L1 x Hx) as (H14 & _ & H13); apply H14; case_bool_decide; [done|lia]).
      rewrite Hlen in Ht. rewrite <- Ht. apply (bool_decide_unpack _). by vm_compute.
    + assert (length L1 = 0)%nat as Hlen by
        (destruct (emission_position L1 x Hx) as (_ & H10 & _); apply H10; case_bool_decide; lia).
      apply length_zero_iff_nil in Hlen as ->. destruct Hd as [_ [Hop|(y & Hy & _)]]; [by vm_compute in Hop|by apply elem_of_nil in Hy].
Qed.

Definition good_result : Prop :=
  exists operations modules temps unused,
    MpmdPartitionIntoTasks (H := order_of_tables) (Hlo0 := hlo_good) (ScheduledInstruction0 := scheduled_good)
      (AliasModule0 := modul good_outputs good_order) (ModuleAliases0 := module_aliases)
      (fun _ => false) (fun _ => None) partition colors [] [] ∅ ∅ (fun _ => OK ()) (fun _ => OK ())
      (fun _ _ => OK ()) (fun _ => false) 1%nat = OK (operations, modules, temps, unused) /\
    exists input output, operations !! 4%nat = Some (Reshard input output) /\ store_type output = TEMP /\ scalar output = false.
Lemma good_run : good_result.
Proof.
  assert (match run good_outputs good_order with
    | OK (operations, _, _, _) => match operations !! 4%nat with
        Some (Reshard _ output) => bool_decide (store_type output = TEMP) && negb (scalar output) | _ => false end
    | _ => false end = true) as Hok by (by vm_compute).
  destruct (run good_outputs good_order) as [[[[o m] t] u]| |] eqn:Hrun; [|done..].
  exists o, m, t, u. split; [exact Hrun|]. clear Hrun. destruct (o !! 4%nat) as [[]|]; try discriminate Hok.
  apply andb_true_iff in Hok as [H1%bool_decide_eq_true H2%negb_true_iff]. eauto.
Qed.
Lemma good_meaning : meaning (fun _ => None) colors 1%nat task_sem (fun z => z) val.
Proof. apply meaning_checked. by vm_compute. Qed.
Lemma good_parameters : forall p, p ∈ MakeInstructionPostOrder 1%nat -> opcode p = kParameter ->
  mem0 !! (PARAM, parameter_number_of p) = Some (val p).
Proof.
  apply (checked (fun p => opcode p = kParameter -> mem0 !! (PARAM, parameter_number_of p) = Some (val p))).
  by vm_compute.
Qed.
Lemma good_output : 16%nat ∈ MakeInstructionPostOrder 1%nat /\ is_output 16%nat = true /\ GetRootIndex 1%nat 16%nat = Some 2.
Proof. split_and!; [apply (bool_decide_unpack _)|..]; by vm_compute. Qed.
End facts.
End Priority.

Lemma MpmdPartitionIntoTasks_computes_witness :
  exists (operations : list (MpmdOperation nat (gmap (list Z) Z) Slice.t OpSharding)) mem,
    exec Priority.task_sem (fun z => z) Priority.mem0 operations = Some mem /\ mem !! (ROOT, 2) = Some 103.
Proof.
  destruct Priority.good_run as (operations & modules & temps & unused & Hrun & _). exists operations.
  destruct (MpmdPartitionIntoTasks_computes (PostOrderLaws0 := Priority.good_postorder_laws) (UsersLaws0 := Priority.good_users_laws)
    _ _ _ _ _ _ _ _ _ _ _ _ _ _ _ _ _
    Priority.task_sem (fun z => z) Priority.val Priority.mem0 Hrun Priority.good_flat Priority.good_names
    Priority.good_meaning Priority.good_parameters) as (mem & Hexec & Hroots).
  exists mem. split; [exact Hexec|].
  destruct Priority.good_output as (H1 & H2 & H3). exact (Hroots 16%nat 2 H1 H2 H3).
Defined.

Lemma MpmdPartitionIntoTasks_temporaries_witness :
  exists (operations : list (MpmdOperation nat (gmap (list Z) Z) Slice.t OpSharding)) input output (temps : list (Store Slice.t OpSharding)),
    operations !! 4%nat = Some (Reshard input output) /\ output ∈ temps /\
    forall k store, temps !! k = Some store -> store_index store = Z.of_nat k.
Proof.
  destruct Priority.good_run as (operations & modules & temps & unused & Hrun & input & output & Hop & Htemp & Hscalar).
  destruct (MpmdPartitionIntoTasks_temporaries (PostOrderLaws0 := Priority.good_postorder_laws)
    _ _ _ _ _ _ _ _ _ _ _ _ _ _ _ _ _ Hrun) as [Hindex Hin].
  exists operations, input, output, temps. split; [exact Hop|]. split.
  - destruct (Hin (Reshard input output) output (list_elem_of_lookup_2 _ _ _ Hop) (or_intror eq_refl) Htemp) as [H|H];
      [|exact H].
    rewrite Hscalar in H. discriminate H.
  - intros k store Hk. exact (proj2 (Hindex k store Hk)).
Defined.

(** A reshard moved before the tasks whose buffers it reuses loses its value.  In the
    second sample all tasks and reshards are scheduled, every operation finds its inputs,
    and the value of the instruction 16 is 103; but the third output of the module is
    202: the buffer of the reshard 14 is the buffer of the instruction 11, whose task comes
    between the reshard and the task that uses it. *)
Theorem prioritized_reshard_is_overwritten :
  let _ := Priority.hlo Priority.bad_outputs Priority.bad_order in
  meaning (fun _ => None) Priority.colors 1%nat Priority.task_sem (fun z => z) Priority.val /\
  GetRootIndex 1%nat 16%nat = Some 2 /\ Priority.val 16%nat = 103 /\
  (exists st, Priority.buffers Priority.bad_outputs Priority.bad_order = OK st) /\
  exists operations modules temps unused mem,
    Priority.run Priority.bad_outputs Priority.bad_order = OK (operations, modules, temps, unused) /\
    exec Priority.task_sem (fun z => z) Priority.mem0 operations = Some mem /\ mem !! (ROOT, 2) = Some 202.
Proof.
  split; [apply Priority.meaning_checked; by vm_compute|]. split; [by vm_compute|]. split; [done|]. split.
  - assert (match Priority.buffers Priority.bad_outputs Priority.bad_order with OK _ => true | _ => false end = true)
      as Hok by (by vm_compute).
    destruct (Priority.buffers _ _) as [st| |]; [by exists st|done..].
  - assert (match Priority.run Priority.bad_outputs Priority.bad_order with
      | OK (operations, _, _, _) => match exec Priority.task_sem (fun z => z) Priority.mem0 operations with
          Some mem => bool_decide (mem !! (ROOT, 2) = Some 202) | _ => false end
      | _ => false end = true) as Hok by (by vm_compute).
    destruct (Priority.run _ _) as [[[[o m] t] u]| |]; [|done..].
    destruct (exec _ _ _ o) as [mem|] eqn:He; [|done].
    apply bool_decide_eq_true in Hok. exists o, m, t, u, mem. done.
Qed.
