(* ===== verification/ZukuContext.v ===== *)
(** * The execution context (zuku_execute_context.h, zuku_execute_context_impl.h/.cc)

    The context hands work to the Zuku runtime: every deferred call is a command, in
    the order in which it is issued.  What the context keeps itself is modelled: the
    handles of stores, the last events of every processor, the windows, the timers and
    the compilations that are pending.  Events are sets of command numbers; which
    events a command triggers is up to the runtime, as is whether an array has a tile
    on a processor. *)
From S2P Require Import Prelude Hlo Sharding TaskScheduler.
Local Open Scope Z_scope.

(** ** Handles *)

(** [impl] is a shared pointer; a default handle has none. *)
Record StoreHandle := MkHandle { impl : option Z; unique_id : Z }.
Definition null_handle : StoreHandle := MkHandle None (-1).

(** The implementation of a handle: the array by its shape and by the processor in
    whose cache it was made. *)
Record StoreHandleImpl (D : Type) := MkImpl {
  impl_name : string;
  array_shape : ShardedShape D;
  array_processor : Z;
}.
Arguments MkImpl {_} _ _ _. Arguments impl_name {_} _. Arguments array_shape {_} _.
Arguments array_processor {_} _.

Record CreateStoreConfig := MkConfig { config_name : option string }.

Record Shard (P : Type) := MkShard { shard_data : P; shard_local_device_id : Z; shard_size : Z }.
Arguments MkShard {_} _ _ _. Arguments shard_data {_} _.
Arguments shard_local_device_id {_} _. Arguments shard_size {_} _.

Record MultiMeshExecuteOptions := MkOptions {
  strict_ordering : bool;
  priority : option Z;
}.

(** ** Commands for the runtime

    An input of a task is an array, or a view of it that takes no part in the
    dependence analysis. *)
Inductive Command (C A D HS P : Type) :=
  | ExecuteCommand (run_id processor : Z) (devices : D) (compiler : SpmdModule C A HS)
      (scalars : list ScalarArgument) (inputs : list (Z * bool)) (outputs : list Z) (temp : Z)
      (order_event : option nat) (priority : Z)
  | ReshardCommand (processor src dst : Z)
  | AssembleCommand (processor : Z) (devices : D) (shard : Shard P) (array : Z)
  | CompileCommand (processor : Z) (compiler : SpmdModule C A HS)
  | CallbackCommand (after : gset nat)
  | TimerCommand (after : gset nat)
  | WaitCommand (events : gset nat).
Arguments ExecuteCommand {_ _ _ _ _} _ _ _ _ _ _ _ _ _ _.
Arguments ReshardCommand {_ _ _ _ _} _ _ _. Arguments AssembleCommand {_ _ _ _ _} _ _ _ _.
Arguments CompileCommand {_ _ _ _ _} _ _. Arguments CallbackCommand {_ _ _ _ _} _.
Arguments TimerCommand {_ _ _ _ _} _. Arguments WaitCommand {_ _ _ _ _} _.

Section context.
Context {C A D HS P : Type}.
Abbreviation Command := (Command C A D HS P).
Abbreviation Compiler := (SpmdModule C A HS).

Record ZukuExecuteContextImpl := MkContext {
  next_store_id : Z;
  impls : gmap Z (StoreHandleImpl D);
  next_buffer : Z;
  last_execute_events_ : list (gset nat);
  last_control_events_ : list (option nat);
  window_markers_ : list (gset nat);
  sync_all_execution_event : gset nat;
  pending_timers_ : gmap string (gset nat);
  pending_compilation_events_ : gset nat;
  commands : list Command;
}.
Implicit Types ctx : ZukuExecuteContextImpl.

(** The constructor: one entry for each processor. *)
Definition new_context (num_procs : nat) : ZukuExecuteContextImpl :=
  MkContext 0 ∅ 0 (replicate num_procs ∅) (replicate num_procs None) [] ∅ ∅ ∅ [].

(** The events of the runtime: those that complete a command, and the control event of a
    task; whether an array has a tile; the members of a device list. *)
Context (Event : nat -> gset nat) (ControlEvent : nat -> option nat).
Context (HasTile : Z -> bool) (Contains : D -> Z -> bool).

(** *** Updates *)

Definition issue (c : Command) ctx : ZukuExecuteContextImpl :=
  MkContext (next_store_id ctx) (impls ctx) (next_buffer ctx) (last_execute_events_ ctx) (last_control_events_ ctx)
    (window_markers_ ctx) (sync_all_execution_event ctx) (pending_timers_ ctx) (pending_compilation_events_ ctx)
    (commands ctx ++ [c]).
Definition with_impl (n : Z) (i : StoreHandleImpl D) (next_id : Z) ctx : ZukuExecuteContextImpl :=
  MkContext next_id (<[n := i]> (impls ctx)) (next_buffer ctx) (last_execute_events_ ctx) (last_control_events_ ctx)
    (window_markers_ ctx) (sync_all_execution_event ctx) (pending_timers_ ctx) (pending_compilation_events_ ctx)
    (commands ctx).
Definition with_events (execute : list (gset nat)) (control : list (option nat)) ctx : ZukuExecuteContextImpl :=
  MkContext (next_store_id ctx) (impls ctx) (next_buffer ctx) execute control
    (window_markers_ ctx) (sync_all_execution_event ctx) (pending_timers_ ctx) (pending_compilation_events_ ctx)
    (commands ctx).
Definition with_windows (markers : list (gset nat)) (sync : gset nat) ctx : ZukuExecuteContextImpl :=
  MkContext (next_store_id ctx) (impls ctx) (next_buffer ctx) (last_execute_events_ ctx) (last_control_events_ ctx)
    markers sync (pending_timers_ ctx) (pending_compilation_events_ ctx) (commands ctx).
Definition with_pending (timers : gmap string (gset nat)) (compilations : gset nat) ctx : ZukuExecuteContextImpl :=
  MkContext (next_store_id ctx) (impls ctx) (next_buffer ctx) (last_execute_events_ ctx) (last_control_events_ ctx)
    (window_markers_ ctx) (sync_all_execution_event ctx) timers compilations (commands ctx).

(** ** Events *)

Definition SetLastExecuteEvent (p : Z) (ev : gset nat) ctx : Result ZukuExecuteContextImpl :=
  last ← vec_at (last_execute_events_ ctx) p;
  events ← vec_set (last_execute_events_ ctx) p (last ∪ ev);
  OK (with_events events (last_control_events_ ctx) ctx).

Definition SetLastControlEvent (p : Z) (ev : option nat) ctx : Result ZukuExecuteContextImpl :=
  match ev with
  | Some e =>
      events ← vec_set (last_control_events_ ctx) p (Some e);
      OK (with_events (last_execute_events_ ctx) events ctx)
  | None => OK ctx
  end.

(** ** Windows *)

Definition kMaxOpenWindows : nat := 8.

Fixpoint open_loop (markers : list (gset nat)) ctx : ZukuExecuteContextImpl :=
  match markers with
  | wait :: rest =>
      if bool_decide (kMaxOpenWindows <= length markers)%nat
      then open_loop rest (issue (WaitCommand wait) (with_windows rest (sync_all_execution_event ctx) ctx))
      else ctx
  | [] => ctx
  end.
Definition OpenWindow ctx : ZukuExecuteContextImpl := open_loop (window_markers_ ctx) ctx.

(** The marker is not added to [window_markers_]. *)
Definition CloseWindow ctx : ZukuExecuteContextImpl :=
  let marker := ⋃ last_execute_events_ ctx in
  with_windows (window_markers_ ctx) (sync_all_execution_event ctx ∪ marker) ctx.

(** ** Stores *)

(** [handle.impl->array] *)
Definition array (handle : StoreHandle) : Result Z := of_option NullDeref (impl handle).

Definition GetStores (handles : list StoreHandle) : Result (list Z) :=
  foldM (fun stores handle => a ← array handle; OK (stores ++ [a])) [] handles.

Definition GetStores_views (handles : list StoreHandle) (output_ids : gset Z) : Result (list (Z * bool)) :=
  foldM (fun views handle =>
    a ← array handle; OK (views ++ [(a, bool_decide (unique_id handle ∈ output_ids))])) [] handles.

(** [CreateStoreImpl] without [allocate_from_cache]; the pointer is named by the id. *)
Definition CreateStore (local_device_id : Z) (shape : ShardedShape D) (config : CreateStoreConfig) ctx
    : Result (StoreHandle * ZukuExecuteContextImpl) :=
  _ ← vec_at (last_execute_events_ ctx) local_device_id;   (* one cache for each processor *)
  let next_id := next_store_id ctx in
  let array_name := default "anonymous" (config_name config) in
  OK (MkHandle (Some next_id) next_id,
      with_impl next_id (MkImpl array_name shape local_device_id) (next_id + 1) ctx).

Definition GetStoreShardedShape (handle : StoreHandle) ctx : Result (ShardedShape D) :=
  a ← array handle; i ← of_option NullDeref (impls ctx !! a); OK (array_shape i).

Definition HasLocalShard (handle : StoreHandle) : Result bool := a ← array handle; OK (HasTile a).

Definition Rename (handle : StoreHandle) (name : string) ctx : Result ZukuExecuteContextImpl :=
  a ← array handle; i ← of_option NullDeref (impls ctx !! a);
  OK (with_impl a (MkImpl name (array_shape i) (array_processor i)) (next_store_id ctx) ctx).

(** The runtime is still running. *)
Definition Destroy (store : StoreHandle) : StoreHandle := MkHandle None (unique_id store).

Definition CreateBuffer (size : Z) ctx : Z * ZukuExecuteContextImpl :=
  (next_buffer ctx,
   MkContext (next_store_id ctx) (impls ctx) (next_buffer ctx + 1) (last_execute_events_ ctx)
     (last_control_events_ ctx) (window_markers_ ctx) (sync_all_execution_event ctx) (pending_timers_ ctx)
     (pending_compilation_events_ ctx) (commands ctx)).

Definition AssembleShards (local_device_id : Z) (shape : ShardedShape D) (shard : Shard P)
    (existing_store : option StoreHandle) ctx : Result (StoreHandle * ZukuExecuteContextImpl) :=
  r ← match existing_store with
      | Some store => OK (store, ctx)
      | None => CreateStore local_device_id shape (MkConfig None) ctx
      end;
  let '(output, ctx) := (r : StoreHandle * ZukuExecuteContextImpl) in
  a ← array output;
  OK (output, issue (AssembleCommand local_device_id (ss_devices shape) shard a) ctx).

(** ** Tasks *)

Definition check_tiles (arrays : list Z) : Result unit :=
  foldM (fun _ a => if HasTile a then OK () else Fatal LogFatal) () arrays.

Definition CreateExecuteTask (run_id local_device_id global_device_id : Z) (devices : D) (compiler : Compiler)
    (scalars : list ScalarArgument) (inputs outputs : list StoreHandle) (temp_buffer : Z)
    (options : MultiMeshExecuteOptions) ctx : Result ZukuExecuteContextImpl :=
  let p := local_device_id in
  let output_ids := list_to_set (unique_id <$> outputs) in
  store_inputs ← GetStores_views inputs output_ids;
  store_outputs ← GetStores outputs;
  _ ← (if Contains devices global_device_id then
         _ ← check_tiles store_outputs; check_tiles (fst <$> store_inputs)
       else OK ());
  order_event ← (if strict_ordering options then vec_at (last_control_events_ ctx) p else OK None);
  let n := length (commands ctx) in
  let ctx := issue (ExecuteCommand run_id p devices compiler scalars store_inputs store_outputs temp_buffer
                      order_event (default 0 (priority options))) ctx in
  ctx ← SetLastExecuteEvent p (Event n) ctx;
  if strict_ordering options then SetLastControlEvent p (ControlEvent n) ctx else OK ctx.

Definition Reshard_ (local_device_id : Z) (src dst : StoreHandle) ctx : Result ZukuExecuteContextImpl :=
  s ← array src; d ← array dst; OK (issue (ReshardCommand local_device_id s d) ctx).

Definition RunAfterAllTasks (local_device_id : Z) ctx : Result ZukuExecuteContextImpl :=
  ev ← vec_at (last_execute_events_ ctx) local_device_id; OK (issue (CallbackCommand ev) ctx).

(** ** Compilations and timers *)

Definition CreateCompileTask (local_device_id : Z) (compiler : Compiler) ctx : ZukuExecuteContextImpl :=
  let n := length (commands ctx) in
  let ctx := issue (CompileCommand local_device_id compiler) ctx in
  with_pending (pending_timers_ ctx) (Event n ∪ pending_compilation_events_ ctx) ctx.

Definition FenceCompilation ctx : ZukuExecuteContextImpl :=
  issue (WaitCommand (pending_compilation_events_ ctx)) (with_pending (pending_timers_ ctx) ∅ ctx).

(** [emplace] keeps a timer that is running. *)
Definition StartTimer (name : string) ctx : Result ZukuExecuteContextImpl :=
  ev ← vec_at (last_execute_events_ ctx) 0;
  let ctx := issue (TimerCommand ev) ctx in
  OK (with_pending (match pending_timers_ ctx !! name with
                    | Some _ => pending_timers_ ctx | None => <[name := ev]> (pending_timers_ ctx) end)
        (pending_compilation_events_ ctx) ctx).

Definition StopTimer (name : string) ctx : Result ZukuExecuteContextImpl :=
  match pending_timers_ ctx !! name with
  | None => OK ctx
  | Some _ =>
      ev ← vec_at (last_execute_events_ ctx) 0;
      let ctx := issue (TimerCommand ev) ctx in
      OK (with_pending (delete name (pending_timers_ ctx)) (pending_compilation_events_ ctx) ctx)
  end.
End context.
Arguments ZukuExecuteContextImpl : clear implicits.
