(* ===== verification/PjrtExecutable.v ===== *)
(** * Running an executable (mm_pjrt_executable.h/.cc, mm_pjrt_buffer.h/.cc, allocator.h)

    [Execute] of the wrapper around an executable of the base client, and [Execute] of
    an executable with a schedule: the stores of parameters, roots and temporaries, the
    commands for the tasks and reshards, and the buffers it returns. *)
From S2P Require Import Prelude Hlo Sharding TaskScheduler ZukuContext.
Local Open Scope Z_scope.

(** [AlignTempSize] *)
Definition kTempMinAlignment : Z := 4096.
Definition AlignTempSize (size : Z) : Z :=
  Z.quot (size + kTempMinAlignment - 1) kTempMinAlignment * kTempMinAlignment.

(** The shape of a result: an array or a tuple of arrays. *)
Inductive ResultShape := ArrayShape (shape : Shape) | TupleShape (shapes : list Shape).
Definition get_shape_at_index (shape : ResultShape) (idx : Z) : Result Shape :=
  match shape with TupleShape shapes => vec_at shapes idx | ArrayShape shape => OK shape end.
Definition num_results (shape : ResultShape) : nat :=
  match shape with TupleShape shapes => length shapes | ArrayShape _ => 1 end.

(** A device: its local and its global id. *)
Definition Device : Type := Z * Z.

(** ** Buffers *)

(** [data_] is a store or a buffer [N] of the base client. *)
Record MultiMeshPjRtBuffer (HS N : Type) := MkBuffer {
  data_ : StoreHandle + N;
  sharding_ : option HS;
  global_shape_ : Shape;
  local_shape_ : Shape;
  device_ : Device;
  name_ : option string;
}.
Arguments MkBuffer {_ _} _ _ _ _ _ _. Arguments data_ {_ _} _. Arguments sharding_ {_ _} _.
Arguments global_shape_ {_ _} _. Arguments local_shape_ {_ _} _. Arguments device_ {_ _} _.
Arguments name_ {_ _} _.

(** A buffer is one of this client or one of the base client. *)
Inductive PjRtBuffer (HS N : Type) := MultiMesh (b : MultiMeshPjRtBuffer HS N) | Native (n : N).
Arguments MultiMesh {_ _} _. Arguments Native {_ _} _.

(** What the runtime needs of compiled tasks. *)
Class CompiledTask (M : Type) := {
  CompilerOutputAlias : M -> Z -> option Z;
  Concurrent : M -> bool;
  CompiledLocally : M -> bool;
  TempRequired : M -> Result Z;
  SpmdRootShape : M -> ResultShape;
}.

Section setup.
Context {C A D HS N P : Type} `{EqDecision D} `{!DeviceListApi D, !HloShardingApi HS}.
Context `{!CompiledTask (SpmdModule C A HS)}.
Abbreviation Buffer := (MultiMeshPjRtBuffer HS N).
Abbreviation Store := (Store D HS).
Abbreviation Operation := (MpmdOperation C A D HS).
Abbreviation Context_ := (ZukuExecuteContextImpl C A D HS P).
Implicit Types (ctx : Context_).

(** The base client: the memory of a buffer, its shape and its device, and running an executable. *)
Context (buffer_shard : N -> Device -> Result (Shard P)) (native_shape : N -> Shape) (native_device : N -> Device).
Context (base_execute : list (list (option N)) -> Result (list (list N))).
(** XLA's partitioned shapes; the shape of a store without data. *)
Context (MakePartitionedShape : Shape -> HS -> Shape) (default_shape : ShardedShape D).

(** ** MultiMeshPjRtBuffer *)

Definition has_store (b : Buffer) : bool := match data_ b with inl _ => true | inr _ => false end.
Definition has_native_buffer (b : Buffer) : bool := negb (has_store b).
Definition store (b : Buffer) : Result StoreHandle :=
  match data_ b with inl h => OK h | inr _ => Fatal LogFatal end.
Definition native_buffer (b : Buffer) : Result N :=
  match data_ b with inr n => OK n | inl _ => Fatal Thrown end.

Definition ToStore (b : Buffer) (mm_shape : ShardedShape D) (existing_store : option StoreHandle) ctx
    : Result (StoreHandle * Context_) :=
  if has_store b then s ← store b; OK (s, ctx)
  else
    n ← native_buffer b;
    mm_shard ← buffer_shard n (device_ b);
    AssembleShards (fst (device_ b)) mm_shape mm_shard existing_store ctx.

(** ** The wrapper *)

Section wrapper.
Context (program_shape : ResultShape).

Definition wrap_output (outputs : list Buffer) (io : Z * N) : Result (list Buffer) :=
  let '(output_index, buf) := io in
  global_shape ← get_shape_at_index program_shape output_index;
  OK (outputs ++ [MkBuffer (inr buf) None global_shape (native_shape buf) (native_device buf) (Some "wrapped")]).
Definition Wrap (outputs : list N) : Result (list Buffer) :=
  foldM wrap_output [] (zip (seqZ 0 (Zlength outputs)) outputs).

Definition unwrap (handles : list (option N)) (buf : option (PjRtBuffer HS N)) : Result (list (option N)) :=
  match buf with
  | Some (MultiMesh b) =>
      if has_native_buffer b then n ← native_buffer b; OK (handles ++ [Some n])
      else Err kInvalidArgument "received multimesh buffer not backed by native buffer"
  | Some (Native n) => OK (handles ++ [Some n])
  | None => OK (handles ++ [None])
  end.

Definition WrapperPjRtExecutable_Execute (argument_handles : list (list (option (PjRtBuffer HS N))))
    : Result (list (list Buffer)) :=
  unwrapped ← foldM (fun unwrapped handles => u ← foldM unwrap [] handles; OK (unwrapped ++ [u])) [] argument_handles;
  outputs ← base_execute unwrapped;
  foldM (fun wrapped vec => w ← Wrap vec; OK (wrapped ++ [w])) [] outputs.
End wrapper.

(** ** MultiMeshPjRtExecutable *)

Record MultiMeshPjRtExecutable := MkExecutable {
  exe_name : string;
  schedule_ : list Operation;
  temporaries_ : list Store;
  device_start : Z;               (* the first device of the assignment, and their number *)
  num_devices : Z;
  addressable_devices_ : list Device;
  result_shape_ : ResultShape;
  parameter_shardings_ : option (list OpSharding);
  output_shardings_ : option (list OpSharding);
  fast_path_exe_ : option ResultShape;     (* with its program shape *)
  cached_temporary_stores_ : list (list StoreHandle);
  temp_allocations_ : list Z;
}.
Implicit Types (exe : MultiMeshPjRtExecutable).

Definition with_caches (stores : list (list StoreHandle)) (temps : list Z) exe : MultiMeshPjRtExecutable :=
  MkExecutable (exe_name exe) (schedule_ exe) (temporaries_ exe) (device_start exe) (num_devices exe)
    (addressable_devices_ exe) (result_shape_ exe) (parameter_shardings_ exe) (output_shardings_ exe)
    (fast_path_exe_ exe) stores temps.

(** *** The fast path *)

Definition permute_argument (handles : list Buffer) (buffers : list (option (PjRtBuffer HS N))) (ii : Z * Store)
    : Result (list (option (PjRtBuffer HS N))) :=
  h ← vec_at handles ii.1; vec_set buffers (store_index ii.2) (Some (MultiMesh h)).
Definition permute_arguments (inputs : list Store) (handles : list Buffer) : Result (list (option (PjRtBuffer HS N))) :=
  foldM (permute_argument handles) (replicate (length handles) None) (zip (seqZ 0 (Zlength inputs)) inputs).

Definition permute_output (output_vec : list Buffer) (permuted : list (option Buffer)) (io : Z * Store)
    : Result (list (option Buffer)) :=
  b ← vec_at output_vec io.1; vec_set permuted (store_index io.2) (Some b).
Definition permute_outputs (outputs : list Store) (output_vec : list Buffer) : Result (list (option Buffer)) :=
  foldM (permute_output output_vec) (replicate (length output_vec) None) (zip (seqZ 0 (Zlength outputs)) outputs).

Definition ExecuteFastPath exe (program_shape : ResultShape) (argument_handles : list (list Buffer))
    : Result (list (list (option Buffer))) :=
  op ← vec_at (schedule_ exe) 0;
  match op with
  | SpmdHloModuleTask _ _ inputs outputs _ _ =>
      buffers ← foldM (fun buffers handles => b ← permute_arguments inputs handles; OK (buffers ++ [b]))
                  [] argument_handles;
      results ← WrapperPjRtExecutable_Execute program_shape buffers;
      foldM (fun permuted vec => p ← permute_outputs outputs vec; OK (permuted ++ [p])) [] results
  | _ => Fatal Thrown
  end.

(** *** The stores of the parameters *)

Definition get_sharding_devices exe (sharding : HS) : D :=
  if IsReplicated sharding then dl_create (device_start exe) (num_devices exe)
  else dl_create (ta_first sharding) (ta_num_elements sharding).

Definition no_sharding : OpSharding := MkOpSharding REPLICATED [] [] [] [] 0 false.
Definition sharding_at (shardings : option (list OpSharding)) (index : Z) : Result OpSharding :=
  match shardings with Some l => vec_at l index | None => OK no_sharding end.

Definition parameter_store exe (st : list StoreHandle * Context_) (ii : Z * Buffer)
    : Result (list StoreHandle * Context_) :=
  let '(stores, ctx) := st in
  let '(index, mm_buffer) := ii in
  if has_store mm_buffer then
    s ← store mm_buffer; _ ← GetStoreShardedShape s ctx; OK (stores ++ [s], ctx)
  else
    op_sharding ← sharding_at (parameter_shardings_ exe) index;
    global_sharding ← FromProto op_sharding;
    sharded_shape ← XlaShapeToZukuShape (local_shape_ mm_buffer) (get_sharding_devices exe global_sharding)
                      global_sharding false;
    r ← ToStore mm_buffer sharded_shape None ctx;
    OK (stores ++ [(r : StoreHandle * Context_).1], r.2).

Definition setup_parameter_stores exe (argument_handles : list (list Buffer)) ctx
    : Result (list (list StoreHandle) * Context_) :=
  foldM (fun '(all, ctx) arguments =>
      r ← foldM (parameter_store exe) ([], ctx) (zip (seqZ 0 (Zlength arguments)) arguments);
      OK (all ++ [(r : list StoreHandle * Context_).1], r.2))
    ([], ctx) argument_handles.

(** *** The stores of the roots *)

Record RootState := MkRoots {
  out_shapes : list (option (Shape * Shape));    (* global and local; unset at first *)
  output_names : list (option string);
  root_stores : list (list StoreHandle);
  root_context : Context_;
}.

(** [stores[local_device][index] = handle] *)
Definition set_store (stores : list (list StoreHandle)) (local_device index : Z) (handle : StoreHandle)
    : Result (list (list StoreHandle)) :=
  row ← vec_at stores local_device; row ← vec_set row index handle; vec_set stores local_device row.

Definition root_for_device exe (parameter_stores : list (list StoreHandle)) (output : Store)
    (parameter_number_alias : option Z) (st : list (list StoreHandle) * Context_) (local_device : Z)
    : Result (list (list StoreHandle) * Context_) :=
  let '(stores, ctx) := st in
  match parameter_number_alias with
  | Some n =>
      row ← vec_at parameter_stores local_device; h ← vec_at row n;
      stores ← set_store stores local_device (store_index output) h; OK (stores, ctx)
  | None =>
      _ ← vec_at (addressable_devices_ exe) local_device;
      r ← CreateStore local_device (default default_shape (sharded_shape output))
            (MkConfig (Some (store_name output))) ctx;
      stores ← set_store stores local_device (store_index output) (r : StoreHandle * Context_).1; OK (stores, r.2)
  end.

Definition add_root_store exe (num_local_devices : Z) (parameter_stores : list (list StoreHandle)) (output : Store)
    (shape : Shape * Shape) (parameter_number_alias : option Z) (st : RootState) : Result RootState :=
  first ← vec_at (root_stores st) 0;
  h ← vec_at first (store_index output);
  if bool_decide (is_Some (impl h)) then OK st
  else
    shapes ← vec_set (out_shapes st) (store_index output) (Some shape);
    names ← vec_set (output_names st) (store_index output) (Some (store_name output));
    r ← foldM (root_for_device exe parameter_stores output parameter_number_alias)
          (root_stores st, root_context st) (seqZ 0 num_local_devices);
    OK (MkRoots shapes names (r : list (list StoreHandle) * Context_).1 r.2).

Definition parameter_alias (m : SpmdModule C A HS) (inputs : list Store) (local_index : Z) : Result (option Z) :=
  match CompilerOutputAlias m local_index with
  | Some local_alias =>
      input ← vec_at inputs local_alias;
      OK (if bool_decide (store_type input = PARAM) then Some (store_index input) else None)
  | None => OK None
  end.

Definition setup_root exe (num_local_devices : Z) (parameter_stores : list (list StoreHandle))
    (m : SpmdModule C A HS) (inputs : list Store) (st : RootState) (io : Z * Store) : Result RootState :=
  let '(local_index, output) := io in
  if bool_decide (store_type output = ROOT) then
    parameter_number_alias ← parameter_alias m inputs local_index;
    global_shape ← get_shape_at_index (result_shape_ exe) (store_index output);
    local_shape ← get_shape_at_index (SpmdRootShape m) local_index;
    add_root_store exe num_local_devices parameter_stores output (global_shape, local_shape) parameter_number_alias st
  else OK st.

Definition setup_root_stores exe (num_local_devices : Z) (parameter_stores : list (list StoreHandle)) (st : RootState)
    (op : Operation) : Result RootState :=
  match op with
  | SpmdHloModuleTask m _ inputs outputs _ _ =>
      foldM (setup_root exe num_local_devices parameter_stores m inputs) st (zip (seqZ 0 (Zlength outputs)) outputs)
  | Reshard _ output =>
      if bool_decide (store_type output = ROOT) then
        add_root_store exe num_local_devices parameter_stores output
          (store_shape output, MakePartitionedShape (store_shape output) (mpmd_sharding output)) None st
      else OK st
  | _ => OK st
  end.

(** *** Temporaries *)

Definition create_temporary (local_device : Z) (st : list StoreHandle * Context_) (s : Store)
    : Result (list StoreHandle * Context_) :=
  r ← CreateStore local_device (default default_shape (sharded_shape s)) (MkConfig (Some (store_name s))) st.2;
  OK (st.1 ++ [(r : StoreHandle * Context_).1], r.2).

Definition setup_temporary_stores exe (num_local_devices : Z) ctx : Result (list (list StoreHandle) * Context_) :=
  match cached_temporary_stores_ exe with
  | [] =>
      foldM (fun '(all, ctx) local_device =>
          _ ← vec_at (addressable_devices_ exe) local_device;
          r ← foldM (create_temporary local_device) ([], ctx) (temporaries_ exe);
          OK (all ++ [(r : list StoreHandle * Context_).1], r.2))
        ([], ctx) (seqZ 0 num_local_devices)
  | stores => OK (stores, ctx)
  end.

(** The largest numbers of scalars and outputs and the largest temporary memory. *)
Record TempSizes := MkSizes { max_buffer_temp_required : Z; max_num_scalars : Z; max_num_outputs : Z }.

Definition add_max_temp_buffer (t : TempSizes) (op : Operation) : Result TempSizes :=
  match op with
  | SpmdHloModuleTask m _ inputs outputs _ _ =>
      let task_scalars := Zlength (filter (fun input => scalar input = true) inputs) in
      temp ← (if CompiledLocally m then
                required ← TempRequired m; OK (Z.max (max_buffer_temp_required t) required)
              else OK (max_buffer_temp_required t));
      OK (MkSizes temp (Z.max (max_num_scalars t) task_scalars) (Z.max (max_num_outputs t) (Zlength outputs)))
  | _ => OK t
  end.

Definition pointer_size : Z := 8.
Definition total_temp_required (t : TempSizes) : Z :=
  max_num_scalars t * kTempMinAlignment + AlignTempSize (max_buffer_temp_required t) +
  AlignTempSize (max_num_outputs t * pointer_size).

Definition setup_temp_allocations exe (num_local_devices : Z) ctx : Result (list Z * Context_) :=
  t ← foldM add_max_temp_buffer (MkSizes 0 0 0) (schedule_ exe);
  match temp_allocations_ exe with
  | [] =>
      foldM (fun '(temps, ctx) local_device =>
          _ ← vec_at (addressable_devices_ exe) local_device;
          let '(buffer, ctx) := CreateBuffer (total_temp_required t) ctx in
          OK (temps ++ [buffer], ctx))
        ([], ctx) (seqZ 0 num_local_devices)
  | temps => OK (temps, ctx)
  end.
End setup.
Arguments MultiMeshPjRtExecutable : clear implicits.
Arguments RootState : clear implicits.

(** The commands, the results and [Execute]: the events and tiles of the runtime and
    XLA's layouts are parameters, too. *)
Section execute.
Context {C A D HS N P : Type} `{EqDecision D} `{!DeviceListApi D, !HloShardingApi HS}.
Context `{!CompiledTask (SpmdModule C A HS)}.
Abbreviation Buffer := (MultiMeshPjRtBuffer HS N).
Abbreviation Store := (Store D HS).
Abbreviation Operation := (MpmdOperation C A D HS).
Abbreviation Context_ := (ZukuExecuteContextImpl C A D HS P).
Implicit Types (ctx : Context_) (exe : MultiMeshPjRtExecutable C A D HS).
Context (Event : nat -> gset nat) (ControlEvent : nat -> option nat).
Context (HasTile : Z -> bool) (Contains : D -> Z -> bool).
Context (buffer_shard : N -> Device -> Result (Shard P)) (native_shape : N -> Shape) (native_device : N -> Device).
Context (base_execute : list (list (option N)) -> Result (list (list N))).
Context (MakePartitionedShape : Shape -> HS -> Shape) (has_layout : Shape -> bool) (default_shape : ShardedShape D).
Abbreviation setup_parameter_stores := (setup_parameter_stores buffer_shard).
Abbreviation setup_root_stores := (setup_root_stores MakePartitionedShape default_shape).
Abbreviation setup_temporary_stores := (setup_temporary_stores default_shape).
Abbreviation ExecuteFastPath := (ExecuteFastPath native_shape native_device base_execute).

(** *** Issuing the schedule *)

Record Stores := MkStores {
  parameter_stores : list (list StoreHandle);
  all_root_stores : list (list StoreHandle);
  temporary_stores : list (list StoreHandle);
}.

Definition get_store_handle (stores : Stores) (local_device_id : Z) (s : Store) : Result StoreHandle :=
  row ← vec_at (match store_type s with
                | PARAM => parameter_stores stores
                | ROOT => all_root_stores stores
                | TEMP => temporary_stores stores
                end) local_device_id;
  vec_at row (store_index s).

Definition get_store_handles (stores : Stores) (local_device_id : Z) (l : list Store) : Result (list StoreHandle) :=
  foldM (fun handles s =>
    if negb (scalar s) then h ← get_store_handle stores local_device_id s; OK (handles ++ [h]) else OK handles) [] l.

Definition kLoopPriority : Z := 10.
Definition kZeroPriority : Z := 0.

Definition issue_operation exe (stores : Stores) (temps : list Z) (static_schedule_all_tasks : bool) (op : Operation)
    (run_id : Z) ctx (local_device : Z) : Result Context_ :=
  match op with
  | SpmdHloModuleTask m devices task_inputs task_outputs scalars is_loop =>
      inputs ← get_store_handles stores local_device task_inputs;
      outputs ← get_store_handles stores local_device task_outputs;
      dev ← vec_at (addressable_devices_ exe) local_device;
      temp ← vec_at temps local_device;
      CreateExecuteTask Event ControlEvent HasTile Contains run_id (dev : Device).1 dev.2 devices m scalars inputs outputs
        temp (MkOptions (is_loop || static_schedule_all_tasks || Concurrent m)
                (Some (if is_loop then kLoopPriority else kZeroPriority))) ctx
  | Reshard input output =>
      source ← get_store_handle stores local_device input;
      target ← get_store_handle stores local_device output;
      dev ← vec_at (addressable_devices_ exe) local_device;
      Reshard_ (dev : Device).1 source target ctx
  | _ => OK ctx
  end.

(** [next_run_id] counts the operations. *)
Definition issue_for_devices exe (stores : Stores) (temps : list Z) (static_schedule_all_tasks : bool)
    (num_local_devices : Z) (st : Context_ * Z) (op : Operation) : Result (Context_ * Z) :=
  let '(ctx, run_id) := st in
  ctx ← foldM (issue_operation exe stores temps static_schedule_all_tasks op run_id) ctx (seqZ 0 num_local_devices);
  OK (ctx, run_id + 1).

(** *** The results *)

Definition make_output exe (roots : RootState C A D HS P) (out : Z) (hlo_sharding : HS) (results : list (list Buffer)) (comp : Z)
    : Result (list (list Buffer)) :=
  row ← vec_at (root_stores roots) comp;
  handle ← vec_at row out;
  shapes ← vec_at (out_shapes roots) out;
  names ← vec_at (output_names roots) out;
  dev ← vec_at (addressable_devices_ exe) comp;
  match shapes with
  | Some (global_shape, local_shape) =>
      if negb (has_layout local_shape) then Err kInternal "output has no layout"
      else if negb (bool_decide (is_Some (impl handle))) then Err kInternal "output got a null Zuku store"
      else
        buffers ← vec_at results comp;
        vec_set results comp
          (buffers ++ [MkBuffer (inl handle) (Some hlo_sharding) global_shape local_shape dev names])
  | None => Err kInternal "output has no layout"      (* the default shape *)
  end.

Definition make_outputs exe (roots : RootState C A D HS P) (num_local_devices : Z) (results : list (list Buffer)) (out : Z)
    : Result (list (list Buffer)) :=
  op_sharding ← sharding_at (output_shardings_ exe) out;
  hlo_sharding ← FromProto op_sharding;
  foldM (make_output exe roots out hlo_sharding) results (seqZ 0 num_local_devices).

(** *** Execute

    [returned_futures]: futures are asked for; [next_run_id] is a global counter.  The
    caches of stores and temporary memory are kept in the executable. *)

Definition run_callbacks exe (returned_futures : bool) (num_local_devices : Z) ctx : Result Context_ :=
  if returned_futures then
    foldM (fun ctx local_device =>
      dev ← vec_at (addressable_devices_ exe) local_device; RunAfterAllTasks (dev : Device).1 ctx)
      ctx (seqZ 0 num_local_devices)
  else OK ctx.

Definition ExecuteSchedule exe (static_schedule_all_tasks returned_futures : bool)
    (argument_handles : list (list Buffer)) (next_run_id : Z) ctx
    : Result (list (list Buffer) * MultiMeshPjRtExecutable C A D HS * Context_) :=
  let num_local_devices := Zlength argument_handles in
  let ctx := OpenWindow ctx in
  ctx ← StartTimer (exe_name exe) ctx;
  p ← setup_parameter_stores exe argument_handles ctx;
  let '(parameter_stores, ctx) := (p : list (list StoreHandle) * Context_) in
  let n := num_results (result_shape_ exe) in
  roots ← foldM (setup_root_stores exe num_local_devices parameter_stores)
            (MkRoots (replicate n None) (replicate n None)
               (replicate (length argument_handles) (replicate n null_handle)) ctx)
            (schedule_ exe);
  t ← setup_temporary_stores exe num_local_devices (root_context roots);
  let '(temporary_stores, ctx) := (t : list (list StoreHandle) * Context_) in
  a ← setup_temp_allocations exe num_local_devices ctx;
  let '(temps, ctx) := (a : list Z * Context_) in
  let stores := MkStores parameter_stores (root_stores roots) temporary_stores in
  r ← foldM (issue_for_devices exe stores temps static_schedule_all_tasks num_local_devices)
        (ctx, next_run_id) (schedule_ exe);
  ctx ← run_callbacks exe returned_futures num_local_devices (r : Context_ * Z).1;
  results ← foldM (make_outputs exe roots num_local_devices) (replicate (length argument_handles) [])
              (seqZ 0 (Z.of_nat n));
  ctx ← StopTimer (exe_name exe) ctx;
  OK (results, with_caches temporary_stores temps exe, CloseWindow ctx).

(** A buffer of another client is refused. *)
Definition multimesh_buffer (b : option (PjRtBuffer HS N)) : Result Buffer :=
  match b with
  | Some (MultiMesh b) => OK b
  | _ => Err kInvalidArgument "buffer passed to MultiMesh executable that is not a MultiMesh buffer"
  end.

Definition Execute exe (static_schedule_all_tasks returned_futures : bool)
    (argument_handles : list (list (option (PjRtBuffer HS N)))) (next_run_id : Z) ctx
    : Result (list (list (option Buffer)) * MultiMeshPjRtExecutable C A D HS * Context_) :=
  match argument_handles with
  | [] => Err kInvalidArgument "no argument vectors passed to executable"
  | _ =>
      handles ← foldM (fun all vec =>
          row ← foldM (fun row b => b ← multimesh_buffer b; OK (row ++ [b])) [] vec; OK (all ++ [row]))
        [] argument_handles;
      let all_native_buffer_inputs := forallb (forallb has_native_buffer) handles in
      match fast_path_exe_ exe with
      | Some program_shape =>
          if all_native_buffer_inputs then
            results ← ExecuteFastPath exe program_shape handles; OK (results, exe, ctx)
          else
            r ← ExecuteSchedule exe static_schedule_all_tasks returned_futures handles next_run_id ctx;
            OK (fmap (M := list) (fmap (M := list) Some) r.1.1, r.1.2, r.2)
      | None =>
          r ← ExecuteSchedule exe static_schedule_all_tasks returned_futures handles next_run_id ctx;
          OK (fmap (M := list) (fmap (M := list) Some) r.1.1, r.1.2, r.2)
      end
  end.
End execute.
