(* ===== verification/HloExecutor.v ===== *)
(** * Running a task (hlo_executor.cc)

    The temporary memory of a task and the order of its arguments.  The memory that
    [Execute] reserves for the tasks of a schedule is enough for a task with one block
    of temporaries; it does not count the padding between several blocks. *)
From S2P Require Import Prelude Hlo Sharding TaskMemory TaskScheduler ZukuContext PjrtExecutable.
Local Open Scope Z_scope.

(** ** TempBufferAllocator *)

(** Pointers count from [base_ptr_]. *)
Record TempBufferAllocator := MkTemp { next_ptr_ : Z; temp_size_ : Z; freed_size_ : Z }.
Definition new_TempBufferAllocator (byte_size : Z) : TempBufferAllocator := MkTemp 0 byte_size 0.

Definition Allocate (size : Z) (t : TempBufferAllocator) : Result (Z * TempBufferAllocator) :=
  let next := next_ptr_ t + AlignTempSize size in
  if bool_decide (temp_size_ t < next) then Fatal LogFatal     (* abort *)
  else OK (next_ptr_ t, MkTemp next (temp_size_ t) (freed_size_ t)).

Definition Free (size : Z) (t : TempBufferAllocator) : TempBufferAllocator :=
  let freed := freed_size_ t + AlignTempSize size in
  MkTemp (if bool_decide (freed = temp_size_ t) then 0 else next_ptr_ t) (temp_size_ t) freed.

(** ** The arguments of a task *)

Definition kMaxScalarArguments : Z := 64.
Definition scalar_bytes : Z := 64.

Section run.
Context {V : Type} (scalar_sem : Z -> V).

(** The last scalar of a parameter number is kept; the buffer of the scalars holds 64. *)
Definition scalar_buffers (scalars : list ScalarArgument) : Result (gmap Z Z) :=
  foldM (fun m '(i, sc) =>
      if bool_decide (kMaxScalarArguments <= i) then Fatal OutOfBounds
      else OK (<[scalar_parameter sc := scalar_value sc]> m))
    ∅ (zip (seqZ 0 (Zlength scalars)) scalars).

Definition add_input_buffer (scalar_buffers : gmap Z Z) (inputs : list V) (st : list V * Z) (param_number : Z)
    : Result (list V * Z) :=
  match scalar_buffers !! param_number with
  | Some value => OK (st.1 ++ [scalar_sem value], st.2)
  | None => v ← vec_at inputs st.2; OK (st.1 ++ [v], st.2 + 1)
  end.

Definition input_buffers (scalars : list ScalarArgument) (inputs : list V) : Result (list V) :=
  buffers ← scalar_buffers scalars;
  r ← foldM (add_input_buffer buffers inputs) ([], 0) (seqZ 0 (Zlength scalars + Zlength inputs));
  OK (r : list V * Z).1.
End run.

(** The block of temporary memory that [RunExecutable] asks for: the scalars of a task on
    a GPU, then the block of the executable (TaskMemory.v). *)
Definition RunExecutable_memory (gpu : bool) (num_scalars block byte_size : Z) : Result TempBufferAllocator :=
  let t := new_TempBufferAllocator byte_size in
  t ← (if gpu && (0 <? num_scalars) then r ← Allocate (scalar_bytes * num_scalars) t; OK (r : Z * TempBufferAllocator).2
       else OK t);
  r ← Allocate block t; OK (r : Z * TempBufferAllocator).2.

(** [temp_required_] of a compiled task (mm_computation.cc). *)
Definition temp_required {A} `{BufferAllocation A} (allocs : list A) : Z :=
  foldl (fun temp alloc => if IsPreallocatedTempBuffer alloc then temp + TaskMemory.size alloc else temp) 0 allocs.

(** ** Enough memory *)

Lemma AlignTempSize_bounds n : 0 <= n -> n <= AlignTempSize n < n + 4096.
Proof. intros Hn. unfold AlignTempSize, kTempMinAlignment. rewrite Z.quot_div_nonneg by lia. pose proof (Z.div_mod (n + 4096 - 1) 4096). pose proof (Z.mod_pos_bound (n + 4096 - 1) 4096). lia. Qed.

Lemma AlignTempSize_mono m n : 0 <= m <= n -> AlignTempSize m <= AlignTempSize n.
Proof.
  intros Hmn. unfold AlignTempSize, kTempMinAlignment. rewrite !Z.quot_div_nonneg by lia.
  apply Z.mul_le_mono_nonneg_r; [lia|]. apply Z.div_le_mono; lia.
Qed.

Lemma AlignTempSize_multiple n : 0 <= n -> AlignTempSize (n * 4096) = n * 4096.
Proof. intros Hn. unfold AlignTempSize, kTempMinAlignment. rewrite Z.quot_div_nonneg by lia. Z.to_euclidean_division_equations; lia. Qed.

Section memory.
Context {B : Type} `{BufferAllocation B}.

Lemma temp_required_one (allocs : list B) :
  (length (filter (fun a => IsPreallocatedTempBuffer a = true) allocs) <= 1)%nat -> sizes_ok allocs ->
  0 <= temp_required allocs /\ temp_bytes allocs = AlignTempSize (temp_required allocs).
Proof.
  assert (forall l acc, foldl (fun temp (alloc : B) =>
      if IsPreallocatedTempBuffer alloc then temp + TaskMemory.size alloc else temp) acc l =
    acc + foldl (fun temp alloc => if IsPreallocatedTempBuffer alloc then temp + TaskMemory.size alloc else temp) 0 l) as Hacc.
  { intros l. induction l as [|x l IH]; intros acc; cbn; [lia|].
    destruct (IsPreallocatedTempBuffer x); [rewrite IH, (IH (0 + _)); lia|apply IH]. }
  unfold temp_required. induction allocs as [|x allocs IH]; intros Hl Hs; [done|].
  rewrite filter_cons in Hl. cbn [foldl temp_bytes foldr]. fold (temp_bytes allocs).
  assert (sizes_ok allocs) as Hs' by (intros ? ?; apply Hs; by right).
  pose proof (Hs x ltac:(left)) as Hx.
  destruct (IsPreallocatedTempBuffer x) eqn:Hp.
  - rewrite decide_True in Hl by done. cbn [length] in Hl.
    assert (Forall (fun a => IsPreallocatedTempBuffer a = false) allocs) as Hnone.
    { apply Forall_forall. intros a Ha. destruct (IsPreallocatedTempBuffer a) eqn:Hpa; [|done].
      assert (a ∈ filter (fun a => IsPreallocatedTempBuffer a = true) allocs) as Hin by (by apply list_elem_of_filter).
      destruct (filter _ allocs); [by apply elem_of_nil in Hin|cbn in Hl; lia]. }
    rewrite Hacc. clear -Hnone Hx.
    assert (foldl (fun temp (alloc : B) => if IsPreallocatedTempBuffer alloc then temp + TaskMemory.size alloc else temp) 0 allocs = 0
      /\ temp_bytes allocs = 0) as [-> ->].
    { induction Hnone as [|a allocs Ha _ [IH1 IH2]]; [done|]. cbn. rewrite Ha. done. }
    split; [lia|]. unfold padded, padding, AlignTempSize, kTempMinAlignment.
    rewrite Z.quot_div_nonneg by lia. replace (0 + TaskMemory.size x + 0 + 4096 - 1) with (TaskMemory.size x + (4096 - 1)) by lia. lia.
  - rewrite decide_False in Hl by congruence. destruct (IH Hl Hs') as [? ->]. split; [done|lia].
Qed.
End memory.

Section fits.
Context {C A D HS B : Type} `{!CompiledTask (SpmdModule C A HS)} `{BufferAllocation B}.
Abbreviation Operation := (MpmdOperation C A D HS).

Lemma add_max_temp_buffer_spec (t t' : TempSizes) (op : Operation) : add_max_temp_buffer t op = OK t' ->
  max_buffer_temp_required t <= max_buffer_temp_required t' /\ max_num_scalars t <= max_num_scalars t' /\
  max_num_outputs t <= max_num_outputs t' /\
  match op with
  | SpmdHloModuleTask m _ inputs outputs _ _ =>
      Zlength (filter (fun input => scalar input = true) inputs) <= max_num_scalars t' /\
      Zlength outputs <= max_num_outputs t' /\
      (forall n, CompiledLocally m = true -> TempRequired m = OK n -> n <= max_buffer_temp_required t')
  | _ => True
  end.
Proof.
  destruct op as [m devs inputs outputs scalars lp| | |]; cbn; [|intros [= <-]; lia..].
  intros (temp & Htemp & [= <-])%Result_bind_OK. cbn. destruct (CompiledLocally m).
  - apply Result_bind_OK in Htemp as (r & Hr & [= <-]). rewrite Hr. split_and!; try lia. intros n _ [= <-]. lia.
  - injection Htemp as <-. split_and!; try lia.
Qed.

Lemma max_temp_spec (ops : list Operation) t t' : foldM add_max_temp_buffer t ops = OK t' ->
  max_buffer_temp_required t <= max_buffer_temp_required t' /\ max_num_scalars t <= max_num_scalars t' /\
  max_num_outputs t <= max_num_outputs t' /\
  forall m devs inputs outputs scalars lp, SpmdHloModuleTask m devs inputs outputs scalars lp ∈ ops ->
    Zlength (filter (fun input => scalar input = true) inputs) <= max_num_scalars t' /\
    Zlength outputs <= max_num_outputs t' /\
    (forall n, CompiledLocally m = true -> TempRequired m = OK n -> n <= max_buffer_temp_required t').
Proof.
  revert t. induction ops as [|op ops IH]; intros t; cbn [foldM].
  - intros [= <-]. split_and!; try lia. intros m devs i o sc lp Hin. by apply elem_of_nil in Hin.
  - intros (t1 & Ht1 & Hrun)%Result_bind_OK.
    destruct (add_max_temp_buffer_spec _ _ _ Ht1) as (H1 & H2 & H3 & Hop).
    destruct (IH t1 Hrun) as (H4 & H5 & H6 & Hops). split_and!; try lia.
    intros m devs i o sc lp [<-|Hin]%elem_of_cons; [|by eapply Hops].
    destruct Hop as (? & ? & Hn). split_and!; try lia. intros n Hc Hr. specialize (Hn n Hc Hr). lia.
Qed.

(** C31: The memory that is reserved for the tasks of a schedule is enough for every task of
    the schedule whose executable has at most one block of temporaries, on a GPU and
    elsewhere. *)
Theorem temporary_memory_suffices (ops : list Operation) t m devs inputs outputs scalars lp gpu (allocs : list B)
    tupled_outputs num_inputs num_outputs :
  foldM add_max_temp_buffer (MkSizes 0 0 0) ops = OK t ->
  SpmdHloModuleTask m devs inputs outputs scalars lp ∈ ops ->
  CompiledLocally m = true -> TempRequired m = OK (temp_required allocs) -> sizes_ok allocs ->
  (length (filter (fun a => IsPreallocatedTempBuffer a = true) allocs) <= 1)%nat ->
  (length scalars <= length (filter (fun input => scalar input = true) inputs))%nat ->
  0 <= num_inputs -> 0 <= num_outputs <= Zlength outputs ->
  counted allocs false num_inputs tupled_outputs num_outputs < 2 ^ 64 ->
  is_OK (RunExecutable_memory gpu (Zlength scalars)
    (total_size allocs false num_inputs tupled_outputs num_outputs) (total_temp_required t)).
Proof.
  intros Hrun Hin Hc Hr Hs Hone Hsc Hni Hno Hcount.
  destruct (max_temp_spec _ _ _ Hrun) as (_ & _ & _ & Hops).
  destruct (Hops _ _ _ _ _ _ Hin) as (Hscalars & Houts & Htemp). specialize (Htemp _ Hc Hr).
  rewrite total_size_counted by (done || lia). destruct (temp_required_one allocs Hone Hs) as [Hpos Hbytes].
  unfold counted in *. rewrite Hbytes in *. unfold total_temp_required.
  assert (Zlength scalars <= max_num_scalars t) as Hsc' by (unfold Zlength in *; lia).
  pose proof (AlignTempSize_mono (temp_required allocs) (max_buffer_temp_required t) (conj Hpos Htemp)) as Hm1.
  pose proof (AlignTempSize_mono (num_outputs * 8) (max_num_outputs t * 8) ltac:(lia)) as Hm2.
  set (block := 0 + (if tupled_outputs then padded (num_outputs * TaskMemory.pointer_size) else 0) + AlignTempSize (temp_required allocs)).
  assert (AlignTempSize block = block /\ 0 <= block <= AlignTempSize (max_buffer_temp_required t) + AlignTempSize (max_num_outputs t * pointer_size)) as [Hab Hblock].
  { unfold block, pointer_size, TaskMemory.pointer_size, padded, padding, AlignTempSize, kTempMinAlignment in *.
    rewrite !Z.quot_div_nonneg in * by (destruct tupled_outputs; lia || (Z.to_euclidean_division_equations; lia)).
    destruct tupled_outputs; Z.to_euclidean_division_equations; lia. }
  unfold RunExecutable_memory, Allocate, new_TempBufferAllocator. cbn [next_ptr_ temp_size_ freed_size_].
  rewrite Hab. assert (0 <= Zlength scalars) by apply Zlength_nonneg.
  pose proof (AlignTempSize_bounds (scalar_bytes * Zlength scalars)) as Hb.
  pose proof (AlignTempSize_mono (scalar_bytes * Zlength scalars) (Zlength scalars * 4096)) as Hb2.
  rewrite AlignTempSize_multiple in Hb2 by lia. unfold scalar_bytes, kTempMinAlignment in *.
  destruct (gpu && (0 <? Zlength scalars)) eqn:Hg.
  - apply andb_true_iff in Hg as [_ Hpos'%Z.ltb_lt].
    rewrite bool_decide_eq_false_2 by lia. cbn. rewrite bool_decide_eq_false_2 by lia. eexists; done.
  - cbn. rewrite bool_decide_eq_false_2 by lia. eexists; done.
Qed.
End fits.

(** A schedule of one task, with one block of temporaries or two. *)
Module TempSample.
#[global] Instance compiled : CompiledTask (SpmdModule nat unit unit) := {
  CompilerOutputAlias _ _ := None;
  Concurrent _ := false;
  CompiledLocally _ := true;
  TempRequired m := OK (temp_required (match module_computation m with
    | O => [TaskMemorySample.Alloc TaskMemorySample.Temp 5000 0]
    | _ => [TaskMemorySample.Alloc TaskMemorySample.Temp 1 0; TaskMemorySample.Alloc TaskMemorySample.Temp 1 1] end));
  SpmdRootShape _ := TupleShape [];
}.
Definition module_ (n : nat) : SpmdModule nat unit unit := MkModule n false None () None 1.
Definition op (n : nat) : MpmdOperation nat unit unit unit := SpmdHloModuleTask (module_ n) () [] [] [] false.
Definition sizes (n : nat) : TempSizes :=
  match foldM add_max_temp_buffer (MkSizes 0 0 0) [op n] with OK t => t | _ => MkSizes 0 0 0 end.
End TempSample.

Lemma temporary_memory_suffices_witness :
  is_OK (RunExecutable_memory true 0
    (total_size [TaskMemorySample.Alloc TaskMemorySample.Temp 5000 0] false 0 false 0)
    (total_temp_required (TempSample.sizes 0))).
Proof.
  apply (temporary_memory_suffices [TempSample.op 0] (TempSample.sizes 0) (TempSample.module_ 0) () [] [] [] false true
    [TaskMemorySample.Alloc TaskMemorySample.Temp 5000 0] false 0 0); try reflexivity; try (vm_compute; lia).
  - by left.
  - intros a Ha. apply list_elem_of_singleton in Ha as ->. vm_compute. discriminate.
  - vm_compute. split; discriminate.
Defined.

(** An executable with two blocks of temporaries of a byte each needs two blocks of 4096
    bytes; one is reserved, and the task aborts. *)
Theorem several_temporaries_abort :
  total_temp_required (TempSample.sizes 1) = 4096 /\
  RunExecutable_memory false 0
    (total_size [TaskMemorySample.Alloc TaskMemorySample.Temp 1 0; TaskMemorySample.Alloc TaskMemorySample.Temp 1 1] false 0 false 0)
    (total_temp_required (TempSample.sizes 1)) = Fatal LogFatal.
Proof. split; reflexivity. Qed.
