(* ===== verification/PjrtRun.v ===== *)
(** * What an executable computes (mm_pjrt_executable.cc, hlo_executor.cc)

    The commands that [Execute] issues for a processor, run in the order in which they
    are issued, do to the arrays what the operations of the schedule do to its stores
    (TaskExecution.v): the buffers that are returned hold the values of the root stores.
    The values are those of the distributed arrays, which each processor holds its part of. *)
From S2P Require Import Prelude Hlo Sharding TaskScheduler TaskSchedulerFacts TaskExecution ZukuContext PjrtExecutable HloExecutor.
Local Open Scope Z_scope.

(** ** The arguments of a task *)
Section arguments.
Context {D HS V : Type} (scalar_sem : Z -> V).
Abbreviation Store := (Store D HS).
Abbreviation Memory := (gmap (StoreType * Z) V).

(** The parameter numbers of the scalars are the positions of the scalar inputs. *)
Definition scalars_match (inputs : list Store) (scalars : list ScalarArgument) : Prop :=
  scalar_parameter <$> scalars = fst <$> filter (fun input => scalar input.2 = true) (zip (seqZ 0 (Zlength inputs)) inputs).

Definition non_scalar (inputs : list Store) : list Store := filter (fun s => scalar s = false) inputs.

Lemma scalar_buffers_lookup scalars buffers k : NoDup (scalar_parameter <$> scalars) ->
  scalar_buffers scalars = OK buffers ->
  buffers !! k = scalar_value <$> head (filter (fun sc => scalar_parameter sc = k) scalars).
Proof.
  intros Hnd Hrun. unfold scalar_buffers in Hrun.
  assert (forall l i (m m' : gmap Z Z), NoDup (scalar_parameter <$> l) ->
    foldM (fun m '(i, sc) => if bool_decide (kMaxScalarArguments <= i) then Fatal OutOfBounds
             else OK (<[scalar_parameter sc := scalar_value sc]> m)) m (zip (seqZ i (Zlength l)) l) = OK m' ->
    m' !! k = match head (filter (fun sc => scalar_parameter sc = k) l) with
              | Some sc => Some (scalar_value sc) | None => m !! k end) as Hgen.
  { clear. induction l as [|sc0 l IH]; intros i m m' Hnd; [by intros [= <-]|].
    unfold Zlength. cbn [length]. rewrite seqZ_cons by lia. cbn [zip zip_with foldM].
    case_bool_decide; [done|]. rewrite fmap_cons in Hnd. apply NoDup_cons in Hnd as [Hn Hnd].
    replace (Z.pred (Z.of_nat (S (length l)))) with (Zlength l) by (unfold Zlength; lia).
    intros Hrun. rewrite (IH _ _ _ Hnd Hrun), filter_cons.
    destruct (decide (scalar_parameter sc0 = k)) as [<-|Hne].
    - cbn. replace (filter _ l) with ([] : list ScalarArgument); [apply lookup_insert_eq|].
      symmetry. destruct (filter _ l) as [|sc' l'] eqn:Hf; [done|].
      assert (sc' ∈ filter (fun sc => scalar_parameter sc = scalar_parameter sc0) l) as [Heq Hin]%list_elem_of_filter
        by (rewrite Hf; left).
      destruct Hn. rewrite <- Heq. by apply list_elem_of_fmap_2.
    - destruct (head _); [done|]. by rewrite lookup_insert_ne. }
  rewrite (Hgen scalars 0 ∅ buffers Hnd Hrun), lookup_empty. by destruct (head _).
Qed.

Lemma scalar_buffers_total scalars : (length scalars <= 64)%nat -> exists buffers, scalar_buffers scalars = OK buffers.
Proof.
  intros Hlen. unfold scalar_buffers.
  match goal with |- exists b, foldM ?f ?s ?l = _ =>
    destruct (foldM_total (fun _ (_ : gmap Z Z) => True) f s l) as (m & Hm & _); [done| |by exists m] end.
  intros done [i sc] rest m Heq _. cbn. rewrite bool_decide_eq_false_2; [by eexists|].
  assert ((i, sc) ∈ zip (seqZ 0 (Zlength scalars)) scalars) as Hin by (rewrite Heq; set_solver).
  apply elem_of_zip_l, elem_of_seqZ in Hin. unfold kMaxScalarArguments, Zlength in *. lia.
Qed.

Lemma scalars_match_spec inputs scalars n : scalars_match inputs scalars ->
  n ∈ scalar_parameter <$> scalars <->
  exists input, 0 <= n /\ inputs !! Z.to_nat n = Some input /\ scalar input = true.
Proof.
  intros ->. rewrite list_elem_of_fmap. split.
  - intros ([m input] & -> & [Hs (k & m' & input' & [= <- <-] & Hm & Hi)%elem_of_lookup_zip_with]%list_elem_of_filter). cbn in *.
    apply lookup_seqZ in Hm as [-> _]. exists input. split_and!; [lia| |done].
    by rewrite Z.add_0_l, Nat2Z.id.
  - intros (input & Hn & Hi & Hs). exists (n, input). split; [done|]. apply list_elem_of_filter. split; [done|].
    apply elem_of_lookup_zip_with. exists (Z.to_nat n), n, input. split_and!; [done| |done].
    apply lookup_lt_Some in Hi. apply lookup_seqZ. unfold Zlength. lia.
Qed.

Lemma scalars_match_NoDup inputs scalars : scalars_match inputs scalars -> NoDup (scalar_parameter <$> scalars).
Proof.
  intros ->. eapply sublist_NoDup; [apply (NoDup_seqZ 0 (Zlength inputs))|].
  rewrite <- (fst_zip (seqZ 0 (Zlength inputs)) inputs) at 2 by (rewrite length_seqZ; unfold Zlength; lia).
  apply fmap_sublist, sublist_filter.
Qed.

Lemma scalars_match_length inputs scalars : scalars_match inputs scalars ->
  (length scalars + length (non_scalar inputs) = length inputs)%nat.
Proof.
  intros Hm. rewrite <- (length_fmap scalar_parameter scalars), Hm, length_fmap. unfold non_scalar, Zlength.
  generalize 0. clear Hm. induction inputs as [|x l IH]; intros n; [done|]. cbn [length].
  rewrite seqZ_cons by lia. replace (Z.pred (Z.of_nat (S (length l)))) with (Z.of_nat (length l)) by lia.
  cbn [zip zip_with]. rewrite !filter_cons. cbn [snd]. specialize (IH (Z.succ n)).
  destruct (scalar x); [rewrite decide_True, decide_False by done|rewrite decide_False, decide_True by done]; cbn [length]; lia.
Qed.

Lemma add_input_scalar buffers (values acc : list V) k n v : buffers !! n = Some v ->
  add_input_buffer scalar_sem buffers values (acc, k) n = OK (acc ++ [scalar_sem v], k).
Proof. intros Hn. unfold add_input_buffer. by rewrite Hn. Qed.

Lemma add_input_store buffers (values acc : list V) k n v : buffers !! n = None -> vec_at values k = OK v ->
  add_input_buffer scalar_sem buffers values (acc, k) n = OK (acc ++ [v], k + 1).
Proof. intros Hn Hv. unfold add_input_buffer. rewrite Hn. cbn [fst snd]. by rewrite Hv. Qed.

(** The loop over the arguments gives them in the order of the task's inputs. *)
Lemma input_buffers_ok (mem : Memory) (inputs : list Store) scalars args values :
  scalars_match inputs scalars -> (length scalars <= 64)%nat ->
  mapM (read_input scalar_sem mem scalars) (zip (seqZ 0 (Zlength inputs)) inputs) = Some args ->
  mapM (fun s => mem !! key s) (non_scalar inputs) = Some values ->
  input_buffers scalar_sem scalars values = OK args.
Proof.
  intros Hmatch Hlen Hargs Hvals. destruct (scalar_buffers_total scalars Hlen) as [buffers Hb].
  unfold input_buffers. rewrite Hb. cbn [mbind Result_bind].
  pose proof (scalars_match_NoDup _ _ Hmatch) as Hnd.
  pose proof (fun k => scalar_buffers_lookup scalars buffers k Hnd Hb) as Hlook.
  assert (Zlength scalars + Zlength values = Zlength inputs) as ->.
  { apply length_mapM in Hvals. pose proof (scalars_match_length _ _ Hmatch). unfold Zlength. lia. }
  assert (forall l n vs acc done args, (forall j x, l !! j = Some x ->
      scalar x = false -> buffers !! (n + Z.of_nat j) = None) ->
    mapM (read_input scalar_sem mem scalars) (zip (seqZ n (Zlength l)) l) = Some args ->
    mapM (fun s => mem !! key s) (non_scalar l) = Some vs -> values = done ++ vs ->
    foldM (add_input_buffer scalar_sem buffers values) (acc, Zlength done) (seqZ n (Zlength l)) =
    OK (acc ++ args, Zlength (done ++ vs))) as Hgen.
  { clear -Hlook. unfold Zlength, non_scalar.
    induction l as [|x l IH]; intros n vs acc done args Hnone Hargs Hvals Heq.
    - injection Hargs as <-. injection Hvals as <-. cbn. by rewrite !app_nil_r.
    - cbn [length] in *. rewrite seqZ_cons in * by lia.
      replace (Z.pred (Z.of_nat (S (length l)))) with (Z.of_nat (length l)) in * by lia.
      cbn [zip zip_with foldM] in *. rewrite filter_cons in Hvals. cbn [mapM] in Hargs.
      apply bind_Some in Hargs as (a & Ha & (args' & Hargs & [= <-])%bind_Some).
      assert (forall j y, l !! j = Some y -> scalar y = false -> buffers !! (Z.succ n + Z.of_nat j) = None) as Hnone'.
      { intros j y Hy Hs. replace (Z.succ n + Z.of_nat j) with (n + Z.of_nat (S j)) by lia. by apply (Hnone (S j) y). }
      unfold read_input in Ha. cbn [fst snd] in Ha. destruct (scalar x) eqn:Hs.
      + rewrite decide_False in Hvals by congruence. specialize (Hlook n). destruct (head _) as [sc|]; [|done].
        injection Ha as <-. rewrite (add_input_scalar _ _ _ _ _ _ Hlook).
        cbn [mbind Result_bind]. rewrite (IH (Z.succ n) vs _ done args') by done.
        by rewrite <- app_assoc.
      + rewrite decide_True in Hvals by done. cbn [mapM] in Hvals.
        apply bind_Some in Hvals as (v & Hv & (vs' & Hvals & [= <-])%bind_Some).
        pose proof (Hnone 0%nat x eq_refl Hs) as Hn. rewrite Z.add_0_r in Hn.
        assert (vec_at values (Z.of_nat (length done)) = OK v) as Hat.
        { apply vec_at_nat. rewrite Heq. by apply list_lookup_middle. }
        rewrite (add_input_store _ _ _ _ _ _ Hn Hat).
        cbn [mbind Result_bind]. replace (Z.of_nat (length done) + 1) with (Z.of_nat (length (done ++ [v]))) by (rewrite length_app; cbn; lia).
        rewrite (IH (Z.succ n) vs' _ (done ++ [v]) args') by (done || by rewrite <- app_assoc).
        rewrite <- !app_assoc. by simplify_eq. }
  pose proof (Hgen inputs 0 values [] [] args) as Hrun. change (Zlength (@nil V)) with 0 in Hrun.
  rewrite Hrun; [done| |done..]. clear Hrun. intros j x Hx Hs. rewrite Hlook. destruct (head _) as [sc|] eqn:Hhead; [|done]. exfalso.
  assert (0 + Z.of_nat j ∈ scalar_parameter <$> scalars) as Hin.
  { destruct (filter _ scalars) as [|sc' l] eqn:Hf; [done|].
    assert (sc' ∈ filter (fun sc => scalar_parameter sc = 0 + Z.of_nat j) scalars) as [<- ?]%list_elem_of_filter by (rewrite Hf; left).
    by apply list_elem_of_fmap_2. }
  apply (scalars_match_spec _ _ _ Hmatch) in Hin as (y & _ & Hy & Hsy). rewrite Z.add_0_l, Nat2Z.id in Hy. congruence.
Qed.
End arguments.

(** ** Running commands *)
Section run.
Context {C A D HS P V : Type}.
Context (task_sem : C -> list V -> option (list V)) (scalar_sem : Z -> V) (shard_sem : Shard P -> V).
Abbreviation Heap := (gmap Z V).
Abbreviation Memory := (gmap (StoreType * Z) V).
Abbreviation Store := (Store D HS).
Abbreviation Operation := (MpmdOperation C A D HS).
Abbreviation Command := (Command C A D HS P).

Definition write_array (heap : Heap) (av : Z * V) : Heap := <[av.1 := av.2]> heap.

(** The commands of a processor change its arrays, the others do not. *)
Definition run_command (p : Z) (heap : Heap) (c : Command) : option Heap :=
  match c with
  | ExecuteCommand _ q _ m scalars inputs outputs _ _ _ =>
      if bool_decide (q = p) then
        values ← mapM (fun i : Z * bool => heap !! i.1) inputs;
        match input_buffers scalar_sem scalars values with
        | OK args => results ← task_sem (module_computation m) args; Some (foldl write_array heap (zip outputs results))
        | _ => None
        end
      else Some heap
  | ReshardCommand q src dst =>
      if bool_decide (q = p) then v ← heap !! src; Some (<[dst := v]> heap) else Some heap
  | AssembleCommand q _ shard a =>
      if bool_decide (q = p) then Some (<[a := shard_sem shard]> heap) else Some heap
  | _ => Some heap
  end.

Fixpoint run (p : Z) (heap : Heap) (cs : list Command) : option Heap :=
  match cs with
  | [] => Some heap
  | c :: cs => heap ← run_command p heap c; run p heap cs
  end.

Lemma run_app p heap cs1 cs2 : run p heap (cs1 ++ cs2) = heap ← run p heap cs1; run p heap cs2.
Proof. revert heap. induction cs1 as [|c cs1 IH]; intros heap; cbn; [done|]. by destruct (run_command p heap c); cbn. Qed.

(** The processor whose arrays a command changes. *)
Definition command_processor (c : Command) : option Z :=
  match c with
  | ExecuteCommand _ q _ _ _ _ _ _ _ _ | ReshardCommand q _ _ | AssembleCommand q _ _ _ => Some q
  | _ => None
  end.

Lemma run_elsewhere p heap cs : Forall (fun c => command_processor c <> Some p) cs -> run p heap cs = Some heap.
Proof.
  induction 1 as [|c cs Hc _ IH]; [done|]. cbn.
  assert (run_command p heap c = Some heap) as ->; [|done].
  destruct c; cbn in *; try done; by rewrite bool_decide_eq_false_2 by congruence.
Qed.

(** ** What an operation reads and writes *)

Definition reads (op : Operation) : list (StoreType * Z) :=
  match op with
  | SpmdHloModuleTask _ _ inputs _ _ _ => key <$> non_scalar inputs
  | Reshard input _ => [key input]
  | _ => []
  end.
Definition writes (op : Operation) : list (StoreType * Z) :=
  match op with
  | SpmdHloModuleTask _ _ _ outputs _ _ => key <$> outputs
  | Reshard _ output => [key output]
  | _ => []
  end.

(** What the scheduler makes: a scalar for every scalar input, at most 64 of them, and
    outputs with data that are no parameters. *)
Definition operation_ok (op : Operation) : Prop :=
  match op with
  | SpmdHloModuleTask _ _ inputs outputs scalars _ =>
      scalars_match inputs scalars /\ (length scalars <= 64)%nat /\
      Forall (fun s => scalar s = false /\ store_type s <> PARAM) outputs
  | Reshard _ output => store_type output <> PARAM
  | _ => True
  end.

(** Keys that later operations read, and the results. *)
Definition live (ops : list Operation) (k : StoreType * Z) : Prop :=
  k.1 = ROOT \/ exists op, op ∈ ops /\ k ∈ reads op.

Lemma live_cons op ops k : live ops k -> live (op :: ops) k.
Proof. intros [|(op' & ? & ?)]; [by left|right; exists op'; split; [by right|done]]. Qed.

(** ** Commands against operations *)

(** [arr] gives the array of a store on the processor. *)
Context (arr : StoreType * Z -> option Z) (p : Z).

Definition issued (op : Operation) (cs : list Command) : Prop :=
  match op with
  | SpmdHloModuleTask m devices inputs outputs scalars _ => exists run_id ins outs temp ev pr,
      cs = [ExecuteCommand run_id p devices m scalars ins outs temp ev pr] /\
      Forall2 (fun s (i : Z * bool) => arr (key s) = Some i.1) (non_scalar inputs) ins /\
      Forall2 (fun s a => arr (key s) = Some a) (non_scalar outputs) outs
  | Reshard input output => exists src dst,
      cs = [ReshardCommand p src dst] /\ arr (key input) = Some src /\ arr (key output) = Some dst
  | _ => cs = []
  end.

Definition agree (P_ : StoreType * Z -> Prop) (mem : Memory) (heap : Heap) : Prop :=
  forall k v, P_ k -> mem !! k = Some v -> exists a, arr k = Some a /\ heap !! a = Some v.

(** Writing a store does not write the array of another one that is live. *)
Definition apart (ops : list Operation) (mem : Memory) (w : StoreType * Z) : Prop :=
  forall k a, live ops k -> is_Some (mem !! k) -> arr w = Some a -> arr k = Some a -> w = k.

Lemma agree_write ops mem heap (s : Store) a v :
  agree (live ops) mem heap -> arr (key s) = Some a -> apart ops mem (key s) ->
  agree (live ops) (write mem (s, v)) (write_array heap (a, v)).
Proof.
  intros Hag Ha Hap k u Hk Hu. unfold write, write_array in *. cbn [fst snd] in *.
  destruct (decide (key s = k)) as [<-|Hne].
  - rewrite lookup_insert_eq in Hu. injection Hu as <-. exists a. by rewrite lookup_insert_eq.
  - rewrite lookup_insert_ne in Hu by done. destruct (Hag k u Hk Hu) as (b & Hb & Hh). exists b. split; [done|].
    rewrite lookup_insert_ne; [done|]. intros ->. destruct Hne. eapply Hap; [done|by eexists|done|done].
Qed.

Lemma write_defined (mem : Memory) (sv : Store * V) k : is_Some (mem !! k) -> is_Some (write mem sv !! k).
Proof.
  intros Hk. unfold write. destruct (decide (key sv.1 = k)) as [->|]; [rewrite lookup_insert_eq; by eexists|].
  by rewrite lookup_insert_ne.
Qed.
Lemma writes_defined (outs : list (Store * V)) (mem : Memory) k :
  is_Some (mem !! k) -> is_Some (foldl write mem outs !! k).
Proof. revert mem. induction outs as [|sv outs IH]; intros mem Hk; [done|]. cbn. by apply IH, write_defined. Qed.

Lemma agree_writes ops mem heap (outs : list Store) arrays vs :
  agree (live ops) mem heap -> Forall2 (fun s a => arr (key s) = Some a) outs arrays ->
  (forall s, s ∈ outs -> apart ops (foldl write mem (zip outs vs)) (key s)) ->
  agree (live ops) (foldl write mem (zip outs vs)) (foldl write_array heap (zip arrays vs)).
Proof.
  intros Hag Hall. revert mem heap vs Hag. induction Hall as [|s a outs arrays Ha Hall IH]; intros mem heap vs Hag Hap; [done|].
  destruct vs as [|v vs]; [done|]. cbn [zip zip_with foldl] in *. apply IH.
  - apply agree_write; [done|done|]. intros k b Hk Hdef. apply (Hap s ltac:(left) k b Hk).
    by apply writes_defined, write_defined.
  - intros s' Hs'. apply Hap. by right.
Qed.

Lemma read_values mem heap (P_ : StoreType * Z -> Prop) (l : list Store) (ins : list (Z * bool)) :
  agree P_ mem heap -> Forall2 (fun s (i : Z * bool) => arr (key s) = Some i.1) l ins ->
  (forall s, s ∈ l -> P_ (key s) /\ is_Some (mem !! key s)) ->
  exists values, mapM (fun s => mem !! key s) l = Some values /\ mapM (fun i : Z * bool => heap !! i.1) ins = Some values.
Proof.
  intros Hag. induction 1 as [|s i l ins Hi _ IH]; intros Hl; [by exists []|].
  destruct (Hl s ltac:(left)) as [Hs [v Hv]]. destruct (Hag (key s) v Hs Hv) as (a & Ha & Hh).
  destruct IH as (values & IH1 & IH2); [intros; apply Hl; by right|]. exists (v :: values).
  cbn. rewrite Hv. assert (heap !! i.1 = Some v) as -> by congruence. cbn. by rewrite IH1, IH2.
Qed.

(** The inputs of a task that can run are there. *)
Lemma inputs_there mem (inputs : list Store) scalars args :
  mapM (read_input scalar_sem mem scalars) (zip (seqZ 0 (Zlength inputs)) inputs) = Some args ->
  forall s, s ∈ non_scalar inputs -> is_Some (mem !! key s).
Proof.
  intros Hargs s [Hs Hin]%list_elem_of_filter. apply mapM_Some_1 in Hargs.
  apply list_elem_of_lookup in Hin as [j Hj].
  assert (zip (seqZ 0 (Zlength inputs)) inputs !! j = Some (Z.of_nat j, s)) as Hz.
  { apply lookup_zip_with_Some. exists (Z.of_nat j), s. split_and!; [done| |done].
    apply lookup_seqZ. apply lookup_lt_Some in Hj. unfold Zlength. lia. }
  destruct (Forall2_lookup_l _ _ _ _ _ Hargs Hz) as (v & _ & Hv). unfold read_input in Hv. cbn in Hv.
  rewrite Hs in Hv. by eexists.
Qed.

(** One operation. *)
Lemma command_simulates op ops cs mem mem' heap :
  operation_ok op -> issued op cs -> exec_op task_sem scalar_sem mem op = Some mem' ->
  agree (live (op :: ops)) mem heap -> (forall w, w ∈ writes op -> apart ops mem' w) ->
  exists heap', run p heap cs = Some heap' /\ agree (live ops) mem' heap'.
Proof.
  intros Hok Hcs Hexec Hag Hap.
  assert (agree (live ops) mem heap) as Hag' by (intros k v Hk; apply Hag; by apply live_cons).
  destruct op as [m devs inputs outputs scalars lp|input output| |]; cbn in Hcs, Hexec, Hok.
  - destruct Hcs as (rid & ins & outs & temp & ev & pr & -> & Hins & Houts). destruct Hok as (Hmatch & Hlen & Hout).
    apply bind_Some in Hexec as (args & Hargs & (results & Hres & [= <-])%bind_Some).
    destruct (read_values mem heap _ _ _ Hag Hins) as (values & Hv1 & Hv2).
    { intros s Hs. split; [|by eapply inputs_there]. right. exists (SpmdHloModuleTask m devs inputs outputs scalars lp).
      split; [left|]. cbn. by apply list_elem_of_fmap_2. }
    cbn. rewrite bool_decide_eq_true_2 by done. rewrite Hv2. cbn.
    rewrite (input_buffers_ok scalar_sem mem inputs scalars args values Hmatch Hlen Hargs Hv1), Hres. cbn.
    eexists. split; [done|]. assert (non_scalar outputs = outputs) as Hns.
    { unfold non_scalar. clear -Hout. induction Hout as [|s l [Hs _] _ IH]; [done|]. rewrite filter_cons_True by done. by f_equal. }
    rewrite Hns in Houts. apply agree_writes; [done..|]. intros s Hs. apply Hap. cbn. by apply list_elem_of_fmap_2.
  - destruct Hcs as (src & dst & -> & Hsrc & Hdst). apply bind_Some in Hexec as (v & Hv & [= <-]).
    destruct (Hag (key input) v) as (a & Ha & Hh); [|done|].
    { right. exists (Reshard input output). split; [left|]. cbn. by left. }
    cbn. rewrite bool_decide_eq_true_2 by done. assert (heap !! src = Some v) as -> by congruence. cbn.
    eexists. split; [done|]. apply (agree_write ops mem heap output dst v); [done..|].
    intros k b Hk Hdef. apply (Hap (key output)); [cbn; by left|done|].
    by apply (write_defined mem (output, v)).
  - subst cs. injection Hexec as <-. exists heap. done.
  - subst cs. injection Hexec as <-. exists heap. done.
Qed.

(** The commands of a schedule. *)
Lemma commands_simulate ops css mem mem' heap :
  Forall operation_ok ops -> Forall2 issued ops css -> exec task_sem scalar_sem mem ops = Some mem' ->
  agree (live ops) mem heap ->
  (forall l1 op l2 m w, ops = l1 ++ op :: l2 -> w ∈ writes op -> apart l2 m w) ->
  exists heap', run p heap (concat css) = Some heap' /\ agree (live []) mem' heap'.
Proof.
  intros Hok Hcs. revert mem heap Hok. induction Hcs as [|op cs ops css Hop Hcs IH]; intros mem heap Hok Hexec Hag Hap.
  - injection Hexec as <-. exists heap. done.
  - apply Forall_cons in Hok as [Hopok Hok]. cbn in Hexec. apply bind_Some in Hexec as (mem1 & H1 & Hexec).
    destruct (command_simulates op ops cs mem mem1 heap Hopok Hop H1 Hag) as (heap1 & Hrun1 & Hag1).
    { intros w Hw. by apply (Hap [] op ops mem1 w). }
    destruct (IH mem1 heap1 Hok Hexec Hag1) as (heap' & Hrun & Hag').
    { intros l1 op' l2 m w -> Hw. by apply (Hap (op :: l1) op' l2 m w). }
    exists heap'. cbn. rewrite run_app, Hrun1. done.
Qed.
End run.
