(* ===== verification/PjrtIssue.v ===== *)
(** * The commands and stores of an execution (mm_pjrt_executable.cc)

    What the loops of [Execute] issue for one device, and which arrays its stores have:
    parameters first, then new roots, then temporaries. *)
From S2P Require Import Prelude Hlo Sharding TaskScheduler TaskSchedulerFacts TaskExecution ZukuContext PjrtExecutable HloExecutor PjrtRun.
Local Open Scope Z_scope.

Section issue.
Context {C A D HS N P V : Type} `{EqDecision D} `{!DeviceListApi D, !HloShardingApi HS}.
Context `{!CompiledTask (SpmdModule C A HS)}.
Context (Event : nat -> gset nat) (ControlEvent : nat -> option nat).
Context (HasTile : Z -> bool) (Contains : D -> Z -> bool).
Abbreviation Store := (Store D HS).
Abbreviation Operation := (MpmdOperation C A D HS).
Abbreviation Context_ := (ZukuExecuteContextImpl C A D HS P).
Implicit Types (ctx : Context_) (exe : MultiMeshPjRtExecutable C A D HS).
Context (task_sem : C -> list V -> option (list V)) (scalar_sem : Z -> V) (shard_sem : Shard P -> V).
Abbreviation run := (run (A := A) (D := D) (HS := HS) task_sem scalar_sem shard_sem).

(** ** Handles by the key of the store *)

Definition handle_at (stores : Stores) (d : Z) (k : StoreType * Z) : Result StoreHandle :=
  row ← vec_at (match k.1 with
                | PARAM => parameter_stores stores
                | ROOT => all_root_stores stores
                | TEMP => temporary_stores stores
                end) d;
  vec_at row k.2.
Definition array_at (stores : Stores) (d : Z) (k : StoreType * Z) : option Z :=
  match handle_at stores d k with OK h => impl h | _ => None end.

Lemma get_store_handles_spec stores d (l : list Store) hs : get_store_handles stores d l = OK hs ->
  Forall2 (fun s h => handle_at stores d (key s) = OK h) (non_scalar l) hs.
Proof.
  unfold get_store_handles. apply (foldM_inv (fun done hs =>
    Forall2 (fun s h => handle_at stores d (key s) = OK h) (non_scalar done) hs)); [constructor|].
  intros done s rest acc acc' _ IH Hs. unfold non_scalar in *. rewrite filter_app, filter_cons.
  destruct (scalar s) eqn:Hsc; cbn in Hs.
  - injection Hs as <-. rewrite decide_False by done. by rewrite app_nil_r.
  - run_inv. rewrite decide_True by done. apply Forall2_app; [done|]. constructor; [done|constructor].
Qed.

Lemma array_OK h a : array h = OK a <-> impl h = Some a.
Proof. unfold array, of_option. destruct (impl h); split; congruence. Qed.

Lemma GetStores_views_spec hs ids views : GetStores_views hs ids = OK views ->
  Forall2 (fun h (i : Z * bool) => impl h = Some i.1) hs views.
Proof.
  unfold GetStores_views. apply (foldM_inv (fun done views =>
    Forall2 (fun h (i : Z * bool) => impl h = Some i.1) done views)); [constructor|].
  intros done h rest acc acc' _ IH Hs. run_inv. apply Forall2_app; [done|]. constructor; [by apply array_OK|constructor].
Qed.

Lemma GetStores_spec hs arrays : GetStores hs = OK arrays -> Forall2 (fun h a => impl h = Some a) hs arrays.
Proof.
  unfold GetStores. apply (foldM_inv (fun done arrays => Forall2 (fun h a => impl h = Some a) done arrays)); [constructor|].
  intros done h rest acc acc' _ IH Hs. run_inv. apply Forall2_app; [done|]. constructor; [by apply array_OK|constructor].
Qed.

Lemma handles_arrays {X} stores d (l : list Store) hs (xs : list X) (f : X -> Z) :
  Forall2 (fun s h => handle_at stores d (key s) = OK h) l hs -> Forall2 (fun h x => impl h = Some (f x)) hs xs ->
  Forall2 (fun s x => array_at stores d (key s) = Some (f x)) l xs.
Proof.
  intros H1. revert xs. induction H1 as [|s h l hs Hs _ IH]; intros xs H2; inversion H2; subst; constructor; [|by apply IH].
  unfold array_at. by rewrite Hs.
Qed.

(** ** What is issued for an operation *)

Lemma SetLastExecuteEvent_commands p ev ctx ctx' : SetLastExecuteEvent p ev ctx = OK ctx' -> commands ctx' = commands ctx.
Proof. unfold SetLastExecuteEvent. intros H. run_inv. done. Qed.
Lemma SetLastControlEvent_commands p ev ctx ctx' : SetLastControlEvent p ev ctx = OK ctx' -> commands ctx' = commands ctx.
Proof. unfold SetLastControlEvent. destruct ev; intros H; run_inv; done. Qed.

Lemma issue_operation_spec exe stores temps all op run_id ctx d p g ctx' :
  issue_operation Event ControlEvent HasTile Contains exe stores temps all op run_id ctx d = OK ctx' ->
  vec_at (addressable_devices_ exe) d = OK (p, g) ->
  exists cs, commands ctx' = commands ctx ++ cs /\ issued (array_at stores d) p op cs /\
    Forall (fun c => command_processor c = Some p) cs.
Proof.
  intros Hrun Hdev. destruct op as [m devs inputs outputs scalars lp|input output| |]; cbn in Hrun.
  - apply Result_bind_OK in Hrun as (ins & Hins & Hrun). apply Result_bind_OK in Hrun as (outs & Houts & Hrun).
    rewrite Hdev in Hrun. cbn in Hrun. apply Result_bind_OK in Hrun as (temp & _ & Hrun). unfold CreateExecuteTask in Hrun.
    apply Result_bind_OK in Hrun as (views & Hviews & Hrun). apply Result_bind_OK in Hrun as (arrays & Harr & Hrun).
    apply Result_bind_OK in Hrun as (_ & _ & Hrun). apply Result_bind_OK in Hrun as (ev & _ & Hrun).
    apply Result_bind_OK in Hrun as (ctx1 & H1%SetLastExecuteEvent_commands & Hrun).
    assert (commands ctx' = commands ctx1) as -> by
      (destruct (strict_ordering _); [by apply SetLastControlEvent_commands in Hrun|by injection Hrun as <-]).
    rewrite H1. cbn. eexists. split; [done|]. split; [|by repeat constructor].
    do 6 eexists. split; [done|].
    apply get_store_handles_spec in Hins, Houts. apply GetStores_views_spec in Hviews. apply GetStores_spec in Harr.
    split; [by eapply (handles_arrays _ _ _ _ _ fst)|by eapply (handles_arrays _ _ _ _ _ id)].
  - apply Result_bind_OK in Hrun as (src & Hsrc & Hrun). apply Result_bind_OK in Hrun as (dst & Hdst & Hrun).
    rewrite Hdev in Hrun. cbn in Hrun. unfold Reshard_ in Hrun.
    apply Result_bind_OK in Hrun as (a & Ha & Hrun). apply Result_bind_OK in Hrun as (b & Hb & [= <-]).
    cbn. eexists. split; [done|]. split; [|by repeat constructor].
    exists a, b. split; [done|]. apply array_OK in Ha, Hb.
    change (get_store_handle stores d input) with (handle_at stores d (key input)) in Hsrc.
    change (get_store_handle stores d output) with (handle_at stores d (key output)) in Hdst.
    unfold array_at. by rewrite Hsrc, Hdst.
  - injection Hrun as <-. exists []. rewrite app_nil_r. by repeat constructor.
  - injection Hrun as <-. exists []. rewrite app_nil_r. by repeat constructor.
Qed.

(** What an operation issues for a device: nothing when it is only for the allocator. *)
Lemma issue_operation_cases exe stores temps all op run_id ctx e ctx' :
  issue_operation Event ControlEvent HasTile Contains exe stores temps all op run_id ctx e = OK ctx' ->
  (exists q h, vec_at (addressable_devices_ exe) e = OK (q, h)) \/
  ctx' = ctx /\ forall d p, issued (P := P) (array_at stores d) p op [].
Proof.
  intros Hop. destruct op as [m devs inputs outputs scalars lp|input output| |]; cbn in Hop.
  - apply Result_bind_OK in Hop as (? & _ & Hop). apply Result_bind_OK in Hop as (? & _ & Hop).
    apply Result_bind_OK in Hop as ([q h] & Hq & _). left. by exists q, h.
  - apply Result_bind_OK in Hop as (? & _ & Hop). apply Result_bind_OK in Hop as (? & _ & Hop).
    apply Result_bind_OK in Hop as ([q h] & Hq & _). left. by exists q, h.
  - injection Hop as <-. by right.
  - injection Hop as <-. by right.
Qed.

(** Other devices issue commands for other processors. *)
Lemma devices_distinct exe d e p q g h : NoDup (fst <$> addressable_devices_ exe) ->
  vec_at (addressable_devices_ exe) d = OK (p, g) -> vec_at (addressable_devices_ exe) e = OK (q, h) -> e <> d -> q <> p.
Proof.
  intros Hnd [? Hd]%vec_at_lookup [? He]%vec_at_lookup Hne ->. apply Hne, (Z2Nat.inj e d); [done..|].
  unfold Device in *. apply (NoDup_lookup _ _ _ p Hnd); [by rewrite list_lookup_fmap, He|by rewrite list_lookup_fmap, Hd].
Qed.

Lemma issue_for_devices_spec exe stores temps all n d p g op ctx run_id r :
  NoDup (fst <$> addressable_devices_ exe) -> vec_at (addressable_devices_ exe) d = OK (p, g) -> 0 <= d < n ->
  issue_for_devices Event ControlEvent HasTile Contains exe stores temps all n (ctx, run_id) op = OK r ->
  exists cs c, commands r.1 = commands ctx ++ cs /\ issued (array_at stores d) p op c /\
    forall heap, run p heap cs = run p heap c.
Proof.
  intros Hnd Hdev Hd Hrun. unfold issue_for_devices in Hrun.
  apply Result_bind_OK in Hrun as (ctx1 & Hrun & [= <-]). cbn [fst].
  eapply (foldM_inv (fun done ctx1 => exists cs, commands ctx1 = commands ctx ++ cs /\
      (d ∈ done -> exists c, issued (array_at stores d) p op c /\ forall heap, run p heap cs = run p heap c) /\
      (d ∉ done -> forall heap, run p heap cs = Some heap))) in Hrun.
  - destruct Hrun as (cs & Hcs & Hc & _). destruct Hc as (c & ? & ?); [apply elem_of_seqZ; lia|]. by exists cs, c.
  - exists []. rewrite app_nil_r. split; [done|]. split; [by intros ?%elem_of_nil|done].
  - intros done e rest st st' Heq (cs & Hst & Hin & Hout) Hop.
    assert (NoDup (done ++ e :: rest)) as Hnds by (rewrite <- Heq; apply NoDup_seqZ).
    assert (e ∉ done) as He by (apply NoDup_app in Hnds as (_ & Hx & _); intros Hi; by destruct (Hx e Hi); left).
    destruct (issue_operation_cases _ _ _ _ _ _ _ _ _ Hop) as [(q & h & Hq)|[-> Hnone]].
    + destruct (issue_operation_spec _ _ _ _ _ _ _ _ _ _ _ Hop Hq) as (c & Hc & Hiss & Hp).
      exists (cs ++ c). split; [by rewrite Hc, Hst, app_assoc|]. destruct (decide (e = d)) as [->|Hne].
      * rewrite Hdev in Hq. injection Hq as <- <-. split; [|set_solver].
        intros _. exists c. split; [done|]. intros heap. by rewrite run_app, Hout.
      * assert (forall heap, run p heap c = Some heap) as Helse.
        { intros heap. apply run_elsewhere. eapply Forall_impl; [exact Hp|]. intros x Hx. cbn in Hx.
          pose proof (devices_distinct exe d e p q g h Hnd Hdev Hq Hne). congruence. }
        split.
        -- intros Hd'. destruct Hin as (c' & Hiss' & Hc'); [set_solver|]. exists c'. split; [done|].
           intros heap. rewrite run_app, Hc'. destruct (run p heap c'); [apply Helse|done].
        -- intros Hd' heap. rewrite run_app, Hout by set_solver. apply Helse.
    + exists cs. split; [done|]. split.
      * intros _. destruct (decide (d ∈ done)); [by apply Hin|]. exists []. split; [done|]. intros heap. by rewrite Hout.
      * intros Hd'. apply Hout. set_solver.
Qed.

Lemma issue_schedule exe stores temps all n d p g ops ctx run_id r :
  NoDup (fst <$> addressable_devices_ exe) -> vec_at (addressable_devices_ exe) d = OK (p, g) -> 0 <= d < n ->
  foldM (issue_for_devices Event ControlEvent HasTile Contains exe stores temps all n) (ctx, run_id) ops = OK r ->
  exists cs css, commands r.1 = commands ctx ++ cs /\ Forall2 (issued (array_at stores d) p) ops css /\
    forall heap, run p heap cs = run p heap (concat css).
Proof.
  intros Hnd Hdev Hd. apply (foldM_inv (fun done (r : Context_ * Z) => exists cs css,
    commands r.1 = commands ctx ++ cs /\ Forall2 (issued (array_at stores d) p) done css /\
    forall heap, run p heap cs = run p heap (concat css))).
  - exists [], []. by rewrite app_nil_r.
  - intros done op rest [st id] [st' id'] _ (cs & css & Hst & Hiss & Hrun) Hop.
    destruct (issue_for_devices_spec _ _ _ _ _ _ _ _ _ _ _ _ Hnd Hdev Hd Hop) as (cs' & c & Hst' & Hc & Hrun').
    exists (cs ++ cs'), (css ++ [c]). split; [cbn in *; by rewrite Hst', Hst, app_assoc|].
    split; [apply Forall2_app; [done|by repeat constructor]|]. intros heap.
    rewrite concat_app, !run_app, Hrun. destruct (run p heap (concat css)); [|done]. cbn. by rewrite app_nil_r, Hrun'.
Qed.
End issue.
