(* ===== verification/PjrtStores.v ===== *)
(** * The stores of an execution (mm_pjrt_executable.cc)

    Which arrays the parameters, the roots and the temporaries of a device have, and
    what the loops that set them up do to the arrays of its processor. *)
From S2P Require Import Prelude Hlo Sharding TaskScheduler TaskSchedulerFacts TaskExecution ZukuContext PjrtExecutable HloExecutor PjrtRun PjrtIssue.
Local Open Scope Z_scope.

Section stores.
Context {C A D HS N P V : Type} `{EqDecision D} `{!DeviceListApi D, !HloShardingApi HS}.
Context `{!CompiledTask (SpmdModule C A HS)}.
Abbreviation Buffer := (MultiMeshPjRtBuffer HS N).
Abbreviation Store := (Store D HS).
Abbreviation Operation := (MpmdOperation C A D HS).
Abbreviation Context_ := (ZukuExecuteContextImpl C A D HS P).
Implicit Types (ctx : Context_) (exe : MultiMeshPjRtExecutable C A D HS).
Context (task_sem : C -> list V -> option (list V)) (scalar_sem : Z -> V) (shard_sem : Shard P -> V).
Abbreviation run := (run (A := A) (D := D) (HS := HS) task_sem scalar_sem shard_sem).
Context (buffer_shard : N -> Device -> Result (Shard P)).
Context (MakePartitionedShape : Shape -> HS -> Shape) (default_shape : ShardedShape D).

(** ** Parameters *)

(** The handle of an argument: its own store, or a new array of its shard. *)
Definition parameter_ok (lo hi : Z) (b : Buffer) (h : StoreHandle) : Prop :=
  exists a, impl h = Some a /\
    match data_ b with
    | inl h' => h' = h
    | inr n => lo <= a < hi /\ exists shard, buffer_shard n (device_ b) = OK shard
    end.

Definition assembled (heap : gmap Z V) (b : Buffer) (h : StoreHandle) : Prop :=
  forall n a shard, data_ b = inr n -> impl h = Some a -> buffer_shard n (device_ b) = OK shard ->
    heap !! a = Some (shard_sem shard).

Definition on_processor (q : Z) (b : Buffer) : Prop := forall n, data_ b = inr n -> (device_ b).1 = q.

(** The row of handles of a device, from the context [ctx] to [ctx']. *)
Record row_ready (q : Z) ctx ctx' (bufs : list Buffer) (row : list StoreHandle) (cs : list (Command C A D HS P)) : Prop := {
  rr_commands : commands ctx' = commands ctx ++ cs;
  rr_next : next_store_id ctx <= next_store_id ctx';
  rr_handles : Forall2 (parameter_ok (next_store_id ctx) (next_store_id ctx')) bufs row;
  rr_distinct : forall i j hi hj a, row !! i = Some hi -> row !! j = Some hj -> impl hi = Some a -> impl hj = Some a ->
    (exists n b, bufs !! i = Some b /\ data_ b = inr n) -> (exists n b, bufs !! j = Some b /\ data_ b = inr n) -> i = j;
  rr_run : forall heap, exists heap', run q heap cs = Some heap' /\
    (forall a, a < next_store_id ctx -> heap' !! a = heap !! a) /\ Forall2 (assembled heap') bufs row;
}.

Lemma CreateStore_spec d shape config ctx h ctx' : CreateStore d shape config ctx = OK (h, ctx') ->
  impl h = Some (next_store_id ctx) /\ next_store_id ctx' = next_store_id ctx + 1 /\ commands ctx' = commands ctx.
Proof. unfold CreateStore. intros (? & _ & [= <- <-])%Result_bind_OK. done. Qed.

Lemma row_ready_nil q ctx : row_ready q ctx ctx [] [] [].
Proof.
  split; [by rewrite app_nil_r|lia|constructor|done|].
  intros heap. exists heap. split; [done|]. split; [done|constructor].
Qed.

Lemma parameter_ok_mono lo hi hi' b h : hi <= hi' -> parameter_ok lo hi b h -> parameter_ok lo hi' b h.
Proof. intros Hle (a & Ha & Hb). exists a. split; [done|]. destruct (data_ b); [done|]. destruct Hb as [? ?]. split; [lia|done]. Qed.

(** One more argument. *)
Lemma parameter_store_ready q exe ctx0 ctx bufs row cs index b row' ctx' :
  row_ready q ctx0 ctx bufs row cs -> Forall (fun c => command_processor c = Some q) cs -> on_processor q b ->
  parameter_store buffer_shard exe (row, ctx) (index, b) = OK (row', ctx') ->
  exists cs', row_ready q ctx0 ctx' (bufs ++ [b]) row' cs' /\ Forall (fun c => command_processor c = Some q) cs'.
Proof.
  intros [H1 H2 H4 H5 H6] H3 Hq Hrun. pose proof (Forall2_length _ _ _ H4) as Hlen.
  cbn in Hrun. unfold has_store, store, ToStore, has_store, native_buffer in Hrun.
  destruct (data_ b) as [h|n] eqn:Hb; cbn in Hrun.
  - apply Result_bind_OK in Hrun as (sh & Hsh & [= <- <-]). unfold GetStoreShardedShape in Hsh.
    apply Result_bind_OK in Hsh as (a & Ha%array_OK & _). exists cs. split; [split; try done|done].
    + apply Forall2_app; [done|]. constructor; [|constructor]. exists a. by rewrite Hb.
    + intros i j hi hj a' Hi Hj Hai Haj (ni & bi & Hbi & Hni) (nj & bj & Hbj & Hnj).
      apply lookup_app_Some in Hbi as [Hbi|[_ Hbi]]; [|apply list_lookup_singleton_Some in Hbi as [_ <-]; congruence].
      apply lookup_app_Some in Hbj as [Hbj|[_ Hbj]]; [|apply list_lookup_singleton_Some in Hbj as [_ <-]; congruence].
      rewrite lookup_app_l in Hi, Hj by (rewrite <- Hlen; by eapply lookup_lt_Some). eapply H5; [done..| |]; by eauto.
    + intros heap. destruct (H6 heap) as (heap' & ? & ? & ?). exists heap'. split_and!; [done..|].
      apply Forall2_app; [done|]. constructor; [|constructor]. intros n a' shard Hn. congruence.
  - apply Result_bind_OK in Hrun as (ops & _ & Hrun). apply Result_bind_OK in Hrun as (sh & _ & Hrun).
    apply Result_bind_OK in Hrun as (shape & _ & Hrun). apply Result_bind_OK in Hrun as ([h ctx1] & Hrun & [= <- <-]).
    cbn [fst snd] in *. apply Result_bind_OK in Hrun as (shard & Hshard & Hrun). unfold AssembleShards in Hrun.
    apply Result_bind_OK in Hrun as ([h' ctx2] & Hc & Hrun). apply CreateStore_spec in Hc as (Hh & Hnext & Hcmd).
    apply Result_bind_OK in Hrun as (a & Ha%array_OK & [= <- <-]).
    assert (a = next_store_id ctx) as -> by congruence.
    exists (cs ++ [AssembleCommand (device_ b).1 (ss_devices shape) shard (next_store_id ctx)]). split;
      [split|apply Forall_app; split; [done|]; repeat constructor; cbn; f_equal; by apply (Hq n)].
    + cbn. by rewrite Hcmd, H1, app_assoc.
    + cbn. lia.
    + apply Forall2_app.
      * eapply Forall2_impl; [exact H4|]. intros b' h''. apply parameter_ok_mono. cbn. lia.
      * constructor; [|constructor]. exists (next_store_id ctx). rewrite Hb. split; [done|]. split; [cbn; lia|by eexists].
    + assert (forall i hi bi, (row ++ [h']) !! i = Some hi -> (bufs ++ [b]) !! i = Some bi -> (exists n, data_ bi = inr n) ->
        i = length bufs /\ impl hi = Some (next_store_id ctx) \/
        i <> length bufs /\ row !! i = Some hi /\ bufs !! i = Some bi /\ exists a, impl hi = Some a /\ a < next_store_id ctx) as Hcase.
      { intros i hi bi Hi Hbi [ni Hni]. destruct (decide (i = length bufs)) as [->|Hne].
        - left. rewrite Hlen, list_lookup_middle in Hi by done. injection Hi as <-. done.
        - right. apply lookup_app_Some in Hbi as [Hbi|[? Hbi]]; [|apply list_lookup_singleton_Some in Hbi as [? _]; lia].
          rewrite lookup_app_l in Hi by (rewrite <- Hlen; by eapply lookup_lt_Some). split_and!; [done..|].
          destruct (Forall2_lookup_lr _ _ _ _ _ _ H4 Hbi Hi) as (a & Ha' & Hok). rewrite Hni in Hok. exists a. split; [done|lia]. }
      intros i j hi hj a Hi Hj Hai Haj (ni & bi & Hbi & Hni) (nj & bj & Hbj & Hnj).
      destruct (Hcase i hi bi Hi Hbi ltac:(by eexists)) as [[-> Hx]|(Hnei & Hri & Hbi' & ai & Hx & Hlt)],
        (Hcase j hj bj Hj Hbj ltac:(by eexists)) as [[-> Hy]|(Hnej & Hrj & Hbj' & aj & Hy & Hlt')]; [done|exfalso..|].
      * assert (next_store_id ctx = aj) by congruence. lia.
      * assert (next_store_id ctx = ai) by congruence. lia.
      * eapply (H5 i j hi hj a); eauto.
    + intros heap. destruct (H6 heap) as (heap' & Hr & Hold & Hall).
      exists (<[next_store_id ctx := shard_sem shard]> heap'). split_and!.
      * rewrite run_app, Hr. cbn. by rewrite bool_decide_eq_true_2 by (by apply (Hq n)).
      * intros a Hlt. rewrite lookup_insert_ne by lia. by apply Hold.
      * apply Forall2_app.
        -- assert (Forall2 (fun b' h'' => parameter_ok (next_store_id ctx0) (next_store_id ctx) b' h'' /\ assembled heap' b' h'') bufs row) as Hboth.
           { clear -H4 Hall. revert Hall. induction H4; intros Hall; inversion Hall; subst; constructor; [done|auto]. }
           eapply Forall2_impl; [exact Hboth|]. intros b' h'' [(a & Ha' & Hok) Has] n' a' shard' Hn' Ha'' Hs'.
           rewrite Hn' in Hok. rewrite lookup_insert_ne; [by eapply Has|]. assert (a = a') by congruence. lia.
        -- constructor; [|constructor]. intros n' a' shard' Hn' Ha' Hs'. rewrite Hb in Hn'. injection Hn' as <-.
           assert (a' = next_store_id ctx) as -> by congruence. rewrite lookup_insert_eq. congruence.
Qed.

Lemma parameter_row_ready q exe ctx bufs row ctx' : Forall (on_processor q) bufs ->
  foldM (parameter_store buffer_shard exe) ([], ctx) (zip (seqZ 0 (Zlength bufs)) bufs) = OK (row, ctx') ->
  exists cs, row_ready q ctx ctx' bufs row cs /\ Forall (fun c => command_processor c = Some q) cs.
Proof.
  intros Hq Hrun.
  eapply (foldM_inv (fun done (st : list StoreHandle * Context_) => exists cs,
    row_ready q ctx st.2 (snd <$> done) st.1 cs /\ Forall (fun c => command_processor c = Some q) cs)) in Hrun.
  - rewrite snd_zip in Hrun by (rewrite length_seqZ; unfold Zlength; lia). done.
  - exists []. split; [apply row_ready_nil|constructor].
  - intros done [i b] rest [st1 st2] [st1' st2'] Heq (cs & IH & Hcs) Hs. rewrite fmap_app. cbn.
    eapply parameter_store_ready; [exact IH|exact Hcs| |exact Hs]. rewrite Forall_forall in Hq. apply Hq.
    apply (elem_of_zip_r i b (seqZ 0 (Zlength bufs))). rewrite Heq. set_solver.
Qed.

(** Commands for other processors before and after. *)
Lemma row_ready_frame q ctx0 ctx1 ctx2 ctx3 bufs row cs0 cs cs3 :
  row_ready q ctx1 ctx2 bufs row cs ->
  commands ctx1 = commands ctx0 ++ cs0 -> (forall heap, run q heap cs0 = Some heap) -> next_store_id ctx0 <= next_store_id ctx1 ->
  commands ctx3 = commands ctx2 ++ cs3 -> (forall heap, run q heap cs3 = Some heap) -> next_store_id ctx2 <= next_store_id ctx3 ->
  row_ready q ctx0 ctx3 bufs row (cs0 ++ cs ++ cs3).
Proof.
  intros [H1 H2 H4 H5 H6] Hc0 Hr0 Hn0 Hc3 Hr3 Hn3. split.
  - by rewrite Hc3, H1, Hc0, !app_assoc.
  - lia.
  - eapply Forall2_impl; [exact H4|]. intros b h (a & Ha & Hb). exists a. split; [done|].
    destruct (data_ b); [done|]. destruct Hb as [? ?]. split; [lia|done].
  - done.
  - intros heap. destruct (H6 heap) as (heap' & Hr & Hold & Hall). exists heap'. split_and!; [|intros; apply Hold; lia|done].
    rewrite run_app, Hr0. cbn. rewrite run_app, Hr. cbn. apply Hr3.
Qed.

Lemma setup_parameters_ready exe args ctx all ctx' d p g bufs :
  (forall e row q h, args !! e = Some row -> vec_at (addressable_devices_ exe) (Z.of_nat e) = OK (q, h) -> Forall (on_processor q) row) ->
  (length args <= length (addressable_devices_ exe))%nat -> NoDup (fst <$> addressable_devices_ exe) ->
  args !! d = Some bufs -> vec_at (addressable_devices_ exe) (Z.of_nat d) = OK (p, g) ->
  setup_parameter_stores buffer_shard exe args ctx = OK (all, ctx') ->
  exists row cs, length all = length args /\ all !! d = Some row /\ row_ready p ctx ctx' bufs row cs.
Proof.
  intros Hdevs Hlen Hnd Hd Hp Hrun. unfold setup_parameter_stores in Hrun.
  eapply (foldM_inv (fun done (st : list (list StoreHandle) * Context_) => length st.1 = length done /\
    if bool_decide (d < length done)%nat then exists row cs, st.1 !! d = Some row /\ row_ready p ctx st.2 bufs row cs
    else exists cs, commands st.2 = commands ctx ++ cs /\ next_store_id ctx <= next_store_id st.2 /\
           forall heap, run p heap cs = Some heap)) in Hrun.
  - destruct Hrun as [Hl Hrun]. rewrite bool_decide_eq_true_2 in Hrun by (by eapply lookup_lt_Some).
    destruct Hrun as (row & cs & ? & ?). by exists row, cs.
  - split; [done|]. cbn. exists []. rewrite app_nil_r. split_and!; [done|lia|done].
  - intros done arguments rest [all1 ctx1] [all2 ctx2] Heq [Hl IH] Hs. cbn [fst snd] in *.
    apply Result_bind_OK in Hs as ([row ctx3] & Hrow & [= <- <-]). cbn [fst snd].
    assert (args !! length done = Some arguments) as Harg by (rewrite Heq; by apply list_lookup_middle).
    destruct (lookup_lt_is_Some_2 (addressable_devices_ exe) (length done)) as [[q h] Hqh].
    { apply lookup_lt_Some in Harg. lia. }
    pose proof (proj2 (vec_at_nat _ _ _) Hqh) as Hat.
    destruct (parameter_row_ready q exe ctx1 arguments row ctx3) as (cs' & Hready & Hthere); [by eapply Hdevs|exact Hrow|].
    split; [rewrite !length_app; cbn; lia|]. rewrite length_app. cbn [length].
    destruct (decide (length done = d)) as [<-|Hne].
    + rewrite bool_decide_eq_false_2 in IH by lia. rewrite bool_decide_eq_true_2 by lia.
      destruct IH as (cs & Hc & Hn & Hr). rewrite Harg in Hd. injection Hd as ->.
      rewrite Hat in Hp. injection Hp as -> ->. exists row, (cs ++ cs' ++ []). split; [rewrite <- Hl; by apply list_lookup_middle|].
      eapply row_ready_frame; [exact Hready|done..| |done|lia]. by rewrite app_nil_r.
    + pose proof (devices_distinct exe (Z.of_nat d) (Z.of_nat (length done)) p q g h Hnd Hp Hat ltac:(lia)) as Hqp.
      assert (forall heap, run p heap cs' = Some heap) as Helse.
      { intros heap. apply run_elsewhere. eapply Forall_impl; [exact Hthere|]. intros x Hx. cbn in Hx. congruence. }
      destruct (decide (d < length done)%nat) as [Hlt|Hge].
      * rewrite bool_decide_eq_true_2 in IH by done. rewrite bool_decide_eq_true_2 by lia.
        destruct IH as (row1 & cs & Hrow1 & Hready1). exists row1, ([] ++ cs ++ cs').
        split; [rewrite lookup_app_l; [done|lia]|].
        eapply row_ready_frame; [exact Hready1|by rewrite app_nil_r|done|lia|apply Hready|done|apply Hready].
      * rewrite bool_decide_eq_false_2 in IH by done. rewrite bool_decide_eq_false_2 by lia.
        destruct IH as (cs & Hc & Hn & Hr). exists (cs ++ cs'). split; [by rewrite (rr_commands _ _ _ _ _ _ Hready), Hc, app_assoc|].
        split; [pose proof (rr_next _ _ _ _ _ _ Hready); lia|]. intros heap. rewrite run_app, Hr. apply Helse.
Qed.

(** ** Roots *)

(** A root is set up with the array of a parameter when a task that writes it has that
    alias. *)
Definition may_alias (ops : list Operation) (i q : Z) : Prop :=
  exists m devs inputs outputs scalars lp (l : nat) (s : Store),
    SpmdHloModuleTask m devs inputs outputs scalars lp ∈ ops /\ outputs !! l = Some s /\
    key s = (ROOT, i) /\ parameter_alias m inputs (Z.of_nat l) = OK (Some q).

(** The roots of a device: the array of a parameter, or a new one from [lo] on. *)
Record roots_ready (ops : list Operation) (d num : nat) (prow : list StoreHandle) (lo : Z) ctx0
    (st : list (list StoreHandle) * Context_) : Prop := {
  rt_commands : commands st.2 = commands ctx0;
  rt_next : lo <= next_store_id st.2;
  rt_row : exists row, st.1 !! d = Some row /\ length row = num /\
    (forall i h a, row !! i = Some h -> impl h = Some a ->
       a < lo /\ (exists q h', may_alias ops (Z.of_nat i) q /\ vec_at prow q = OK h' /\ impl h' = Some a) \/
       lo <= a < next_store_id st.2) /\
    (forall i j hi hj a, row !! i = Some hi -> row !! j = Some hj -> impl hi = Some a -> impl hj = Some a ->
       lo <= a -> i = j);
}.

Lemma vec_set_inv {X} (l l' : list X) i x : vec_set l i x = OK l' -> 0 <= i < Zlength l /\ l' = <[Z.to_nat i := x]> l.
Proof. unfold vec_set. case_bool_decide; [|done]. intros [= <-]. unfold Zlength. done. Qed.

Lemma set_store_inv (stores stores' : list (list StoreHandle)) e i h : set_store stores e i h = OK stores' ->
  exists row, 0 <= e /\ stores !! Z.to_nat e = Some row /\ 0 <= i < Zlength row /\
    stores' = <[Z.to_nat e := <[Z.to_nat i := h]> row]> stores.
Proof.
  unfold set_store. intros (row & [He Hrow]%vec_at_lookup & Hrun)%Result_bind_OK.
  apply Result_bind_OK in Hrun as (row' & [Hi ->]%vec_set_inv & [_ ->]%vec_set_inv). by exists row.
Qed.

(** Another handle for a root, on the device [d] or on another one. *)
Lemma roots_ready_set ops d num prow lo ctx0 stores ctx stores' ctx' e i h :
  roots_ready ops d num prow lo ctx0 (stores, ctx) ->
  set_store stores e i h = OK stores' -> commands ctx' = commands ctx -> next_store_id ctx <= next_store_id ctx' ->
  (Z.to_nat e = d -> forall a, impl h = Some a ->
     a < lo /\ (exists q h', may_alias ops i q /\ vec_at prow q = OK h' /\ impl h' = Some a) \/
     next_store_id ctx <= a < next_store_id ctx') ->
  roots_ready ops d num prow lo ctx0 (stores', ctx').
Proof.
  intros [H1 H2 (row & Hrow & Hnum & H3 & H4)] (erow & He & Herow & Hi & ->)%set_store_inv Hcmd Hnext Hh. cbn in *.
  split; cbn; [congruence|lia|]. destruct (decide (Z.to_nat e = d)) as [<-|Hne].
  - rewrite Hrow in Herow. injection Herow as <-. specialize (Hh eq_refl). exists (<[Z.to_nat i := h]> row).
    split; [apply list_lookup_insert_eq; by eapply lookup_lt_Some|]. split; [by rewrite length_insert|]. split.
    + intros j hj a Hj Ha. apply list_lookup_insert_Some in Hj as [(<- & <- & _)|[Hne Hj]].
      * rewrite Z2Nat.id by lia. destruct (Hh a Ha) as [?|?]; [by left|right; lia].
      * destruct (H3 j hj a Hj Ha) as [?|?]; [by left|right; lia].
    + intros j1 j2 h1 h2 a Hj1 Hj2 Ha1 Ha2 Hlo.
      apply list_lookup_insert_Some in Hj1 as [(<- & <- & _)|[N1 Hj1]], Hj2 as [(<- & <- & _)|[N2 Hj2]]; [done|exfalso..|].
      * destruct (Hh a Ha1) as [[? _]|?]; [lia|]. destruct (H3 j2 h2 a Hj2 Ha2) as [[? _]|?]; lia.
      * destruct (Hh a Ha2) as [[? _]|?]; [lia|]. destruct (H3 j1 h1 a Hj1 Ha1) as [[? _]|?]; lia.
      * by eapply H4.
  - exists row. rewrite list_lookup_insert_ne by done. split; [done|]. split; [done|]. split; [|done].
    intros j hj a Hj Ha. destruct (H3 j hj a Hj Ha) as [?|?]; [by left|right; lia].
Qed.

Section roots.
Context (params : list (list StoreHandle)) (d num : nat) (prow : list StoreHandle) (lo : Z).
Context (Hprow : params !! d = Some prow).
Context (Hlo : forall q h a, vec_at prow q = OK h -> impl h = Some a -> a < lo).
Abbreviation setup_root_stores := (setup_root_stores MakePartitionedShape default_shape).
Abbreviation setup_root := (setup_root default_shape).
Abbreviation add_root_store := (add_root_store default_shape).

Lemma add_root_ready ops exe n ctx0 output shape alias st st' :
  (forall q, alias = Some q -> may_alias ops (store_index output) q) ->
  roots_ready ops d num prow lo ctx0 (root_stores st, root_context st) ->
  add_root_store exe n params output shape alias st = OK st' ->
  roots_ready ops d num prow lo ctx0 (root_stores st', root_context st').
Proof.
  intros Hal Hst Hrun. unfold PjrtExecutable.add_root_store in Hrun.
  apply Result_bind_OK in Hrun as (first & _ & Hrun). apply Result_bind_OK in Hrun as (h0 & _ & Hrun).
  case_bool_decide; [by injection Hrun as <-|].
  apply Result_bind_OK in Hrun as (shapes & _ & Hrun). apply Result_bind_OK in Hrun as (names & _ & Hrun).
  apply Result_bind_OK in Hrun as ([stores ctx] & Hrun & [= <-]). cbn.
  revert Hrun. apply (foldM_inv (fun _ r => roots_ready ops d num prow lo ctx0 r)); [done|].
  intros _ e _ [stores1 ctx1] [stores2 ctx2] _ IH Hs. unfold root_for_device in Hs. destruct alias as [q|].
  - apply Result_bind_OK in Hs as (row & [He Hrow]%vec_at_lookup & Hs). apply Result_bind_OK in Hs as (h & Hh & Hs).
    apply Result_bind_OK in Hs as (stores3 & Hset & [= <- <-]).
    eapply roots_ready_set; [exact IH|exact Hset|done|lia|]. intros <- a Ha. left.
    rewrite Hprow in Hrow. injection Hrow as <-. split; [by eapply Hlo|]. exists q, h. split; [by apply Hal|done].
  - apply Result_bind_OK in Hs as (dev & _ & Hs). apply Result_bind_OK in Hs as ([h ctx3] & Hc & Hs).
    apply CreateStore_spec in Hc as (Hh & Hn & Hcmd). apply Result_bind_OK in Hs as (stores3 & Hset & [= <- <-]). cbn [fst snd] in *.
    eapply roots_ready_set; [exact IH|exact Hset|done|lia|]. intros _ a Ha. right. assert (a = next_store_id ctx1) by congruence. lia.
Qed.

Lemma setup_roots_ready exe n ctx0 ops st st' :
  roots_ready ops d num prow lo ctx0 (root_stores st, root_context st) ->
  foldM (setup_root_stores exe n params) st ops = OK st' ->
  roots_ready ops d num prow lo ctx0 (root_stores st', root_context st').
Proof.
  intros H0. apply (foldM_inv (fun _ st => roots_ready ops d num prow lo ctx0 (root_stores st, root_context st))); [done|].
  intros done op rest st1 st2 Heq IH Hs. destruct op as [m devs inputs outputs scalars lp|input output| |]; cbn in Hs.
  - revert Hs. apply (foldM_inv (fun _ st => roots_ready ops d num prow lo ctx0 (root_stores st, root_context st))); [done|].
    intros done' [l output] rest' st3 st4 Heq' IH' Hs. cbn in Hs. case_bool_decide as Hroot; [|by injection Hs as <-].
    apply Result_bind_OK in Hs as (alias & Halias & Hs). apply Result_bind_OK in Hs as (gs & _ & Hs).
    apply Result_bind_OK in Hs as (ls & _ & Hs). eapply add_root_ready; [|exact IH'|exact Hs].
    intros q ->. assert (zip (seqZ 0 (Zlength outputs)) outputs !! length done' = Some (l, output)) as Hz
      by (rewrite Heq'; by apply list_lookup_middle).
    apply lookup_zip_with_Some in Hz as (l' & o' & [= <- <-] & Hl & Ho). apply lookup_seqZ in Hl as [-> _].
    exists m, devs, inputs, outputs, scalars, lp, (length done'), output. split_and!; [rewrite Heq; set_solver|done| |].
    + unfold key. by rewrite Hroot.
    + by rewrite Z.add_0_l in Halias.
  - case_bool_decide; [|by injection Hs as <-]. eapply add_root_ready; [|exact IH|exact Hs]. done.
  - by injection Hs as <-.
  - by injection Hs as <-.
Qed.

End roots.

(** ** Temporaries *)

(** The temporaries of a device: new arrays, one after the other. *)
Definition temps_new (ctx ctx' : Context_) (row : list StoreHandle) : Prop :=
  commands ctx' = commands ctx /\ next_store_id ctx' = next_store_id ctx + Zlength row /\
  forall i h, row !! i = Some h -> impl h = Some (next_store_id ctx + Z.of_nat i).

Lemma temporaries_row e (l : list Store) ctx row ctx' :
  foldM (create_temporary default_shape e) ([], ctx) l = OK (row, ctx') -> temps_new ctx ctx' row.
Proof.
  intros Hrun. eapply (foldM_inv (fun _ (st : list StoreHandle * Context_) => temps_new ctx st.2 st.1)) in Hrun; [done| |].
  - split_and!; [done|unfold Zlength; cbn [fst snd length]; lia|done].
  - intros _ s _ [row1 ctx1] [row2 ctx2] _ (H1 & H2 & H3) Hs. unfold create_temporary in Hs. cbn in Hs.
    apply Result_bind_OK in Hs as ([h ctx3] & Hc & [= <- <-]). apply CreateStore_spec in Hc as (Hh & Hn & Hcmd).
    cbn in *. split_and!; [congruence|unfold Zlength in *; rewrite length_app; cbn; lia|].
    intros i h' Hi. apply lookup_app_Some in Hi as [Hi|[Hge Hi]]; [by apply H3|].
    apply list_lookup_singleton_Some in Hi as [Hz <-]. rewrite Hh, H2. f_equal. unfold Zlength. lia.
Qed.

Lemma temporaries_ready (d : nat) exe n ctx all ctx' : 0 <= Z.of_nat d < n ->
  cached_temporary_stores_ exe = [] -> setup_temporary_stores default_shape exe n ctx = OK (all, ctx') ->
  commands ctx' = commands ctx /\ next_store_id ctx <= next_store_id ctx' /\
  exists row ctx1 ctx2, all !! d = Some row /\ temps_new ctx1 ctx2 row /\
    next_store_id ctx <= next_store_id ctx1.
Proof.
  intros Hd Hcache Hrun. unfold setup_temporary_stores in Hrun. rewrite Hcache in Hrun.
  eapply (foldM_inv (fun done (st : list (list StoreHandle) * Context_) => length st.1 = length done /\
    commands st.2 = commands ctx /\ next_store_id ctx <= next_store_id st.2 /\
    ((d < length done)%nat -> exists row ctx1 ctx2, st.1 !! d = Some row /\ temps_new ctx1 ctx2 row /\
      next_store_id ctx <= next_store_id ctx1))) in Hrun.
  - destruct Hrun as (_ & ? & ? & Hrow). split_and!; [done..|]. apply Hrow. rewrite length_seqZ. lia.
  - split_and!; [done|done|cbn; lia|cbn; lia].
  - intros done e rest [all1 ctx1] [all2 ctx2] Heq (Hl & Hc & Hn & IH) Hs. cbn [fst snd] in *.
    apply Result_bind_OK in Hs as (dev & _ & Hs). apply Result_bind_OK in Hs as ([row ctx3] & Hrow & [= <- <-]).
    apply temporaries_row in Hrow as Hnew. destruct Hnew as (Hc' & Hn' & Hall). cbn [fst snd].
    assert (0 <= Zlength row) by apply Zlength_nonneg.
    split_and!; [rewrite !length_app; cbn; lia|congruence|lia|].
    rewrite length_app. cbn. intros Hlt. destruct (decide (d = length done)) as [->|Hne].
    + exists row, ctx1, ctx3. split; [rewrite <- Hl; by apply list_lookup_middle|]. split; [done|lia].
    + destruct IH as (row' & c1 & c2 & ? & ? & ?); [lia|]. exists row', c1, c2. split; [|done].
      rewrite lookup_app_l by lia. done.
Qed.

Lemma temp_allocations_same exe n ctx temps ctx' : setup_temp_allocations exe n ctx = OK (temps, ctx') ->
  commands ctx' = commands ctx /\ next_store_id ctx' = next_store_id ctx.
Proof.
  unfold setup_temp_allocations. intros (t & _ & Hrun)%Result_bind_OK. destruct (temp_allocations_ exe); [|by injection Hrun as <- <-].
  eapply (foldM_inv (fun _ (st : list Z * Context_) => commands st.2 = commands ctx /\ next_store_id st.2 = next_store_id ctx)) in Hrun;
    [done|done|].
  intros _ e _ [a1 c1] [a2 c2] _ IH Hs. apply Result_bind_OK in Hs as (dev & _ & [= <- <-]). done.
Qed.
End stores.
Arguments rr_commands {_ _ _ _ _ _ _ _ _ _ _ _ _ _ _ _ _} _. Arguments rr_next {_ _ _ _ _ _ _ _ _ _ _ _ _ _ _ _ _} _.
Arguments rr_handles {_ _ _ _ _ _ _ _ _ _ _ _ _ _ _ _ _} _. Arguments rr_distinct {_ _ _ _ _ _ _ _ _ _ _ _ _ _ _ _ _} _.
Arguments rr_run {_ _ _ _ _ _ _ _ _ _ _ _ _ _ _ _ _} _.
Arguments rt_commands {_ _ _ _ _ _ _ _ _ _ _ _ _} _. Arguments rt_next {_ _ _ _ _ _ _ _ _ _ _ _ _} _.
Arguments rt_row {_ _ _ _ _ _ _ _ _ _ _ _ _} _.
