(* ===== verification/PjrtComputes.v ===== *)
(** * An execution computes the results of the schedule (mm_pjrt_executable.cc)

    Running the commands of an execution leaves the values of the root stores in the
    buffers that it returns, when the aliases of roots with parameters are for tasks
    after which the parameter is not read. *)
From S2P Require Import Prelude Hlo Sharding TaskScheduler TaskSchedulerFacts TaskExecution ZukuContext PjrtExecutable HloExecutor PjrtRun PjrtIssue PjrtStores.
Local Open Scope Z_scope.

Section computes.
Context {C A D HS N P V : Type} `{EqDecision D} `{!DeviceListApi D, !HloShardingApi HS}.
Context `{!CompiledTask (SpmdModule C A HS)}.
Abbreviation Buffer := (MultiMeshPjRtBuffer HS N).
Abbreviation Store := (Store D HS).
Abbreviation Operation := (MpmdOperation C A D HS).
Abbreviation Context_ := (ZukuExecuteContextImpl C A D HS P).
Implicit Types (ctx : Context_) (exe : MultiMeshPjRtExecutable C A D HS).
Context (Event : nat -> gset nat) (ControlEvent : nat -> option nat).
Context (HasTile : Z -> bool) (Contains : D -> Z -> bool).
Context (buffer_shard : N -> Device -> Result (Shard P)).
Context (MakePartitionedShape : Shape -> HS -> Shape) (has_layout : Shape -> bool) (default_shape : ShardedShape D).
Context (task_sem : C -> list V -> option (list V)) (scalar_sem : Z -> V) (shard_sem : Shard P -> V).
Abbreviation run := (run (A := A) (D := D) (HS := HS) task_sem scalar_sem shard_sem).
Abbreviation ExecuteSchedule :=
  (ExecuteSchedule Event ControlEvent HasTile Contains buffer_shard MakePartitionedShape has_layout default_shape).

(** ** The returned buffers *)

Definition returns_root (roots : RootState C A D HS P) (d : nat) (k : nat) (row : list Buffer) : Prop :=
  exists b h rrow, row !! k = Some b /\ data_ b = inl h /\ root_stores roots !! d = Some rrow /\ rrow !! k = Some h.

Lemma make_output_spec exe (roots : RootState C A D HS P) out sh (results results' : list (list Buffer)) comp :
  make_output has_layout exe roots out sh results comp = OK results' ->
  0 <= comp /\ exists row b h rrow, results !! Z.to_nat comp = Some row /\
    results' = <[Z.to_nat comp := row ++ [b]]> results /\ data_ b = inl h /\
    root_stores roots !! Z.to_nat comp = Some rrow /\ vec_at rrow out = OK h.
Proof.
  unfold make_output. intros (rrow & [Hc Hrrow]%vec_at_lookup & Hrun)%Result_bind_OK.
  apply Result_bind_OK in Hrun as (h & Hh & Hrun). apply Result_bind_OK in Hrun as (shapes & _ & Hrun).
  apply Result_bind_OK in Hrun as (names & _ & Hrun). apply Result_bind_OK in Hrun as (dev & _ & Hrun).
  destruct shapes as [[gs ls]|]; [|done]. destruct (negb (has_layout ls)); [done|]. destruct (negb _); [done|].
  apply Result_bind_OK in Hrun as (row & [_ Hrow]%vec_at_lookup & [_ ->]%vec_set_inv).
  split; [done|]. exists row. do 2 eexists. exists rrow. split_and!; [done|done|done|done|exact Hh].
Qed.

Lemma make_outputs_ready exe roots n nd d (results : list (list Buffer)) : 0 <= Z.of_nat d < nd ->
  foldM (make_outputs has_layout exe roots nd) (replicate (Z.to_nat nd) []) (seqZ 0 (Z.of_nat n)) = OK results ->
  exists row, results !! d = Some row /\ forall k, (k < n)%nat -> returns_root roots d k row.
Proof.
  intros Hd Hrun.
  eapply (foldM_inv (fun done (res : list (list Buffer)) => exists row, res !! d = Some row /\ length row = length done /\
    forall k, (k < length done)%nat -> returns_root roots d k row)) in Hrun.
  - destruct Hrun as (row & Hrow & _ & Hk). exists row. split; [done|]. rewrite length_seqZ, Nat2Z.id in Hk. done.
  - exists []. split; [apply lookup_replicate; split; [done|lia]|]. split; [done|cbn; lia].
  - intros done out rest res res' Heq (row & Hrow & Hlen & Hk) Hs. unfold make_outputs in Hs.
    apply Result_bind_OK in Hs as (sh0 & _ & Hs). apply Result_bind_OK in Hs as (sh & _ & Hs).
    assert (out = Z.of_nat (length done)) as ->.
    { assert (seqZ 0 (Z.of_nat n) !! length done = Some out) as Hl by (rewrite Heq; by apply list_lookup_middle).
      apply lookup_seqZ in Hl as [-> _]. lia. }
    eapply (foldM_inv (fun done' (res : list (list Buffer)) =>
      (Z.of_nat d ∉ done' -> res !! d = Some row) /\
      (Z.of_nat d ∈ done' -> exists b h rrow, res !! d = Some (row ++ [b]) /\ data_ b = inl h /\
         root_stores roots !! d = Some rrow /\ vec_at rrow (Z.of_nat (length done)) = OK h))) in Hs.
    + destruct Hs as [_ Hs]. destruct Hs as (b & h & rrow & Hres & Hb & Hr & Hh%vec_at_nat); [apply elem_of_seqZ; lia|].
      exists (row ++ [b]). rewrite !length_app. cbn. split; [done|]. split; [lia|]. intros k Hlt.
      destruct (decide (k = length done)) as [->|Hne].
      * exists b, h, rrow. split_and!; [|done..]. rewrite <- Hlen. by apply list_lookup_middle.
      * destruct (Hk k ltac:(lia)) as (b' & h' & rrow' & ? & ? & ? & ?). exists b', h', rrow'. split_and!; [|done..].
        rewrite lookup_app_l by lia. done.
    + split; [done|]. by intros ?%elem_of_nil.
    + intros done' comp rest' res1 res2 Heq' [Hout Hin] Hs'.
      apply make_output_spec in Hs' as (Hc & row' & b & h & rrow & Hrow' & -> & Hb & Hr & Hh).
      assert (NoDup (done' ++ comp :: rest')) as Hnd by (rewrite <- Heq'; apply NoDup_seqZ).
      assert (comp ∉ done') as Hcomp by (apply NoDup_app in Hnd as (_ & Hx & _); intros Hi; by destruct (Hx comp Hi); left).
      destruct (decide (comp = Z.of_nat d)) as [->|Hne].
      * rewrite Nat2Z.id in *. split; [set_solver|]. intros _. rewrite Hout in Hrow' by done. injection Hrow' as <-.
        exists b, h, rrow. split_and!; [|done..]. apply list_lookup_insert_eq. apply Hout in Hcomp. by eapply lookup_lt_Some.
      * split; intros Hx; rewrite list_lookup_insert_ne by lia; [apply Hout|apply Hin]; set_solver.
Qed.

(** ** Which stores share an array *)

(** The arguments of a device: stores that exist and are distinct. *)
Record arguments_ok ctx (bufs : list Buffer) : Prop := {
  ao_old : forall i b h a, bufs !! i = Some b -> data_ b = inl h -> impl h = Some a -> a < next_store_id ctx;
  ao_distinct : forall i j bi bj hi hj a, bufs !! i = Some bi -> bufs !! j = Some bj -> data_ bi = inl hi ->
    data_ bj = inl hj -> impl hi = Some a -> impl hj = Some a -> i = j;
}.

(** The temporaries of an earlier execution are kept, and are no arguments. *)
Definition cache_ok exe ctx (d : nat) (bufs : list Buffer) : Prop :=
  cached_temporary_stores_ exe = [] \/
  exists row, cached_temporary_stores_ exe !! d = Some row /\
    (forall i h a, row !! i = Some h -> impl h = Some a -> a < next_store_id ctx /\
       forall j b h', bufs !! j = Some b -> data_ b = inl h' -> impl h' <> Some a) /\
    (forall i j hi hj a, row !! i = Some hi -> row !! j = Some hj -> impl hi = Some a -> impl hj = Some a -> i = j).

(** An alias is for a task after which the parameter is not read, and for one root. *)
Record aliases_ok (ops : list Operation) : Prop := {
  al_last : forall i q l1 op l2, may_alias ops i q -> ops = l1 ++ op :: l2 -> (ROOT, i) ∈ writes op ->
    forall op', op' ∈ l2 -> (PARAM, q) ∉ reads op';
  al_once : forall i j q, may_alias ops i q -> may_alias ops j q -> i = j;
}.

Section distinct.
Context (ops : list Operation) (d num : nat) (bufs : list Buffer).
Context (ctx ctx1 ctx2 ctx3 ctx4 : Context_).
Context (p : Z) (cs : list (Command C A D HS P)) (prow trow : list StoreHandle) (stores : Stores).
Context (Hargs : arguments_ok ctx bufs) (Hready : row_ready task_sem scalar_sem shard_sem buffer_shard p ctx ctx1 bufs prow cs).
Context (Hroots : roots_ready ops d num prow (next_store_id ctx1) ctx1 (all_root_stores stores, ctx2)).
Context (Hps : parameter_stores stores !! d = Some prow) (Hts : temporary_stores stores !! d = Some trow).
Context (Htemps : (temps_new ctx3 ctx4 trow /\ next_store_id ctx2 <= next_store_id ctx3) \/
  (forall i h a, trow !! i = Some h -> impl h = Some a -> a < next_store_id ctx /\
       forall j b h', bufs !! j = Some b -> data_ b = inl h' -> impl h' <> Some a) /\
  (forall i j hi hj a, trow !! i = Some hi -> trow !! j = Some hj -> impl hi = Some a -> impl hj = Some a -> i = j)).
Abbreviation arr := (array_at stores (Z.of_nat d)).

Lemma array_at_row k a : arr k = Some a -> exists row h, (match k.1 with
    | PARAM => parameter_stores stores | ROOT => all_root_stores stores | TEMP => temporary_stores stores end) !! d = Some row /\
  vec_at row k.2 = OK h /\ impl h = Some a.
Proof.
  unfold array_at. destruct (handle_at stores (Z.of_nat d) k) as [h| |] eqn:Hh; [|done..]. intros Ha.
  unfold handle_at in Hh. apply Result_bind_OK in Hh as (row & Hrow%vec_at_nat & Hh). by exists row, h.
Qed.

(** The array of a parameter is a store of an argument, or it is new. *)
Lemma parameter_array i a : arr (PARAM, i) = Some a -> exists h b, vec_at prow i = OK h /\ impl h = Some a /\
  0 <= i /\ bufs !! Z.to_nat i = Some b /\ a < next_store_id ctx1 /\
  (data_ b = inl h /\ a < next_store_id ctx \/ (exists n, data_ b = inr n) /\ next_store_id ctx <= a).
Proof.
  intros (row & h & Hrow & Hh & Ha)%array_at_row. cbn in *. rewrite Hps in Hrow. injection Hrow as <-.
  pose proof Hh as [Hi Hh']%vec_at_lookup. pose proof (rr_next Hready) as Hn.
  destruct (Forall2_lookup_r _ _ _ _ _ (rr_handles Hready) Hh') as (b & Hb & a' & Ha' & Hok).
  assert (a' = a) as -> by congruence. exists h, b. split_and!; [done..| |].
  - destruct (data_ b) as [h'|n] eqn:Hd; [subst h'; pose proof (ao_old _ _ Hargs _ _ _ _ Hb Hd Ha); lia|lia].
  - destruct (data_ b) as [h'|n] eqn:Hd; [subst h'; left; split; [done|by eapply (ao_old _ _ Hargs)]|right; split; [by eexists|lia]].
Qed.

Lemma parameters_distinct i j a : arr (PARAM, i) = Some a -> arr (PARAM, j) = Some a -> i = j.
Proof.
  intros (hi & bi & [_ Hi]%vec_at_lookup & Hai & Hi0 & Hbi & _ & Hci)%parameter_array
    (hj & bj & [_ Hj]%vec_at_lookup & Haj & Hj0 & Hbj & _ & Hcj)%parameter_array.
  apply Z2Nat.inj; [done..|]. destruct Hci as [[Hci ?]|[[ni Hci] ?]], Hcj as [[Hcj ?]|[[nj Hcj] ?]]; try lia.
  - by eapply (ao_distinct _ _ Hargs).
  - eapply (rr_distinct Hready); [exact Hi|exact Hj|done..| |]; by eauto.
Qed.

Lemma root_array i a : arr (ROOT, i) = Some a ->
  (exists q, may_alias ops i q /\ arr (PARAM, q) = Some a) \/ next_store_id ctx1 <= a < next_store_id ctx2.
Proof.
  intros (row & h & Hrow & [Hi Hh]%vec_at_lookup & Ha)%array_at_row. cbn in *.
  destruct Hroots as [_ _ (row' & Hrow' & _ & Hr & _)]. cbn in *. rewrite Hrow in Hrow'. injection Hrow' as <-.
  destruct (Hr _ _ _ Hh Ha) as [(_ & q & h' & Hal & Hq & Hq')|?]; [left|by right].
  exists q. rewrite Z2Nat.id in Hal by done. split; [done|]. unfold array_at, handle_at. cbn.
  rewrite (proj2 (vec_at_nat _ _ _) Hps). cbn. by rewrite Hq.
Qed.

Lemma roots_distinct i j a : arr (ROOT, i) = Some a -> arr (ROOT, j) = Some a -> next_store_id ctx1 <= a -> i = j.
Proof.
  intros (row & h & Hrow & [Hi Hh]%vec_at_lookup & Ha)%array_at_row (row' & h' & Hrow' & [Hj Hh']%vec_at_lookup & Ha')%array_at_row Hlo.
  cbn in *. rewrite Hrow in Hrow'. injection Hrow' as <-. destruct Hroots as [_ _ (row' & Hrow' & _ & _ & Hr)]. cbn in *.
  rewrite Hrow in Hrow'. injection Hrow' as <-. apply Z2Nat.inj; [done..|]. by eapply Hr.
Qed.

Lemma temporary_array i a : arr (TEMP, i) = Some a -> exists h, 0 <= i /\ trow !! Z.to_nat i = Some h /\ impl h = Some a.
Proof.
  intros (row & h & Hrow & [Hi Hh]%vec_at_lookup & Ha)%array_at_row. cbn in *. rewrite Hts in Hrow. injection Hrow as <-. by exists h.
Qed.

Lemma temporary_not_parameter i q a : arr (TEMP, i) = Some a -> arr (PARAM, q) = Some a -> False.
Proof.
  intros (ht & Hi & Ht & Ha)%temporary_array (hp & b & Hq & Hap & Hq0 & Hb & Hlt & Hcase)%parameter_array.
  pose proof (rt_next Hroots) as Hn. cbn in Hn. destruct Htemps as [[(_ & _ & Hnew) Hle]|[Hold _]].
  - rewrite (Hnew _ _ Ht) in Ha. injection Ha as <-. lia.
  - destruct (Hold _ _ _ Ht Ha) as [Hlt' Hno]. destruct Hcase as [[Hd _]|[_ ?]]; [|lia]. by destruct (Hno _ _ _ Hb Hd).
Qed.

Lemma temporary_not_root i j a : arr (TEMP, i) = Some a -> arr (ROOT, j) = Some a -> False.
Proof.
  intros Ht [(q & _ & Hq)|Hnew]%root_array; [by eapply temporary_not_parameter|].
  apply temporary_array in Ht as (ht & Hi & Ht & Ha). pose proof (rr_next Hready).
  destruct Htemps as [[(_ & _ & Hn) Hle]|[Hold _]].
  - rewrite (Hn _ _ Ht) in Ha. injection Ha as <-. lia.
  - destruct (Hold _ _ _ Ht Ha) as [? _]. lia.
Qed.

Lemma temporaries_distinct i j a : arr (TEMP, i) = Some a -> arr (TEMP, j) = Some a -> i = j.
Proof.
  intros (hi & Hi & Hti & Hai)%temporary_array (hj & Hj & Htj & Haj)%temporary_array. apply Z2Nat.inj; [done..|].
  destruct Htemps as [[(_ & _ & Hn) Hle]|[_ Hd]]; [|by eapply Hd].
  rewrite (Hn _ _ Hti) in Hai. rewrite (Hn _ _ Htj) in Haj. injection Hai as <-. injection Haj as Heq. lia.
Qed.

(** Two stores with one array are a parameter and a root that is its alias, or two roots
    that are aliases of one parameter. *)
Lemma shared_array w k a : arr w = Some a -> arr k = Some a ->
  w = k \/ (exists i q, (w = (ROOT, i) /\ k = (PARAM, q) \/ w = (PARAM, q) /\ k = (ROOT, i)) /\ may_alias ops i q) \/
  (exists i j q, w = (ROOT, i) /\ k = (ROOT, j) /\ may_alias ops i q /\ may_alias ops j q).
Proof.
  destruct w as [[] i], k as [[] j]; intros Hw Hk.
  - left. f_equal. by eapply parameters_distinct.
  - right; left. exists j, i. split; [by right|].
    destruct (root_array j a Hk) as [(q & Hal & Hq)|?]; [by rewrite (parameters_distinct i q a Hw Hq)|].
    apply parameter_array in Hw as (? & ? & _ & _ & _ & _ & ? & _). lia.
  - by destruct (temporary_not_parameter j i a).
  - right; left. exists i, j. split; [by left|].
    destruct (root_array i a Hw) as [(q & Hal & Hq)|?]; [by rewrite (parameters_distinct j q a Hk Hq)|].
    apply parameter_array in Hk as (? & ? & _ & _ & _ & _ & ? & _). lia.
  - destruct (root_array i a Hw) as [(q & Hal & Hq)|?]; [|left; f_equal; eapply roots_distinct; [done..|lia]].
    destruct (root_array j a Hk) as [(q' & Hal' & Hq')|?]; [|left; f_equal; eapply roots_distinct; [done..|lia]].
    rewrite (parameters_distinct q' q a Hq' Hq) in Hal'. right; right. by exists i, j, q.
  - by destruct (temporary_not_root j i a).
  - by destruct (temporary_not_parameter i j a).
  - by destruct (temporary_not_root i j a).
  - left. f_equal. by eapply temporaries_distinct.
Qed.

Lemma writes_apart : Forall operation_ok ops -> aliases_ok ops ->
  forall l1 op l2 (m : gmap (StoreType * Z) V) w, ops = l1 ++ op :: l2 -> w ∈ writes op -> apart arr l2 m w.
Proof.
  intros Hok Hal l1 op l2 m w Heq Hw k a Hk _ Haw Hak.
  destruct (shared_array w k a Haw Hak) as [?|[(i & q & [[-> ->]|[-> ->]] & Hi)|(i & j & q & -> & -> & Hi & Hj)]]; [done|exfalso..|].
  - destruct Hk as [Hk|(op' & Hop' & Hr)]; [done|]. by destruct (al_last _ Hal i q l1 op l2 Hi Heq Hw op' Hop').
  - assert (operation_ok op) as Hop by (rewrite Forall_forall in Hok; apply Hok; rewrite Heq; set_solver).
    destruct op as [mo devs inputs outputs scalars lp|input output| |]; cbn in Hw, Hop; [| |by apply elem_of_nil in Hw..].
    + apply list_elem_of_fmap in Hw as (s & Hs & Hin). destruct Hop as (_ & _ & Hout). rewrite Forall_forall in Hout.
      destruct (Hout s Hin) as [_ Ht]. unfold key in Hs. congruence.
    + apply list_elem_of_singleton in Hw. unfold key in Hw. congruence.
  - f_equal. by eapply (al_once _ Hal).
Qed.
End distinct.

(** ** What changes no array *)

Definition quiet ctx ctx' : Prop :=
  next_store_id ctx' = next_store_id ctx /\
  exists cs, commands ctx' = commands ctx ++ cs /\ forall p heap, run p heap cs = Some heap.

Lemma quiet_refl ctx : quiet ctx ctx.
Proof. split; [done|]. exists []. by rewrite app_nil_r. Qed.
Lemma quiet_trans ctx1 ctx2 ctx3 : quiet ctx1 ctx2 -> quiet ctx2 ctx3 -> quiet ctx1 ctx3.
Proof.
  intros [H1 (cs1 & C1 & R1)] [H2 (cs2 & C2 & R2)]. split; [congruence|]. exists (cs1 ++ cs2).
  split; [by rewrite C2, C1, app_assoc|]. intros p heap. rewrite run_app, R1. apply R2.
Qed.
Lemma quiet_issue ctx ctx' c : commands ctx' = commands ctx ++ [c] -> next_store_id ctx' = next_store_id ctx ->
  command_processor c = None -> quiet ctx ctx'.
Proof.
  intros Hc Hn Hp. split; [done|]. exists [c]. split; [done|]. intros p heap.
  apply run_elsewhere. constructor; [congruence|constructor].
Qed.

Lemma OpenWindow_quiet ctx : quiet ctx (OpenWindow ctx).
Proof.
  unfold OpenWindow. generalize (window_markers_ ctx). intros l. revert ctx.
  induction l as [|wait l IH]; intros ctx; cbn [open_loop]; [apply quiet_refl|].
  case_bool_decide; [|apply quiet_refl]. eapply quiet_trans; [|apply IH]. by apply (quiet_issue _ _ (WaitCommand wait)).
Qed.
Lemma StartTimer_quiet name ctx ctx' : StartTimer name ctx = OK ctx' -> quiet ctx ctx'.
Proof. intros (ev & _ & [= <-])%Result_bind_OK. by apply (quiet_issue _ _ (TimerCommand ev)). Qed.
Lemma StopTimer_quiet name ctx ctx' : StopTimer name ctx = OK ctx' -> quiet ctx ctx'.
Proof.
  unfold StopTimer. destruct (pending_timers_ ctx !! name); [|intros [= <-]; apply quiet_refl].
  intros (ev & _ & [= <-])%Result_bind_OK. by apply (quiet_issue _ _ (TimerCommand ev)).
Qed.
Lemma run_callbacks_quiet exe futures n ctx ctx' : run_callbacks exe futures n ctx = OK ctx' -> quiet ctx ctx'.
Proof.
  unfold run_callbacks. destruct futures; [|intros [= <-]; apply quiet_refl].
  apply (foldM_inv (fun _ st => quiet ctx st)); [apply quiet_refl|].
  intros _ e _ st st' _ IH Hs. eapply quiet_trans; [exact IH|].
  apply Result_bind_OK in Hs as (dev & _ & (ev & _ & [= <-])%Result_bind_OK). by apply (quiet_issue _ _ (CallbackCommand ev)).
Qed.

(** ** Execute *)

(** A row of arguments for each of the first devices, with native buffers that are there. *)
Record devices_ok exe (args : list (list Buffer)) : Prop := {
  do_distinct : NoDup (fst <$> addressable_devices_ exe);
  do_enough : (length args <= length (addressable_devices_ exe))%nat;
  do_native : forall e row q h, args !! e = Some row ->
    vec_at (addressable_devices_ exe) (Z.of_nat e) = OK (q, h) -> Forall (on_processor q) row;
}.

(** The value of an argument. *)
Definition argument_value (heap : gmap Z V) (b : Buffer) (v : V) : Prop :=
  match data_ b with
  | inl h => exists a, impl h = Some a /\ heap !! a = Some v
  | inr n => forall shard, buffer_shard n (device_ b) = OK shard -> shard_sem shard = v
  end.

(** ** The phases of an execution *)
Section phases.
Context exe (d : nat) (bufs : list Buffer) (p g : Z).
Context (Hdev : vec_at (addressable_devices_ exe) (Z.of_nat d) = OK (p, g)).

Lemma parameters_old ctx ctx1 (cs : list (Command C A D HS P)) prow : arguments_ok ctx bufs ->
  row_ready task_sem scalar_sem shard_sem buffer_shard p ctx ctx1 bufs prow cs ->
  forall q h a, vec_at prow q = OK h -> impl h = Some a -> a < next_store_id ctx1.
Proof.
  intros Hargs Hready q h a [_ Hh]%vec_at_lookup Ha. pose proof (rr_next Hready).
  destruct (Forall2_lookup_r _ _ _ _ _ (rr_handles Hready) Hh) as (b & Hb & a' & Ha' & Hok).
  assert (a' = a) as -> by congruence. destruct (data_ b) as [h'|n] eqn:Hd; [subst h'|lia].
  pose proof (ao_old _ _ Hargs _ _ _ _ Hb Hd Ha). lia.
Qed.

Lemma roots_initial ops n k prow ctx : (d < k)%nat ->
  roots_ready ops d n prow (next_store_id ctx) ctx (replicate k (replicate n null_handle), ctx).
Proof.
  intros Hd. split; [done|apply Z.le_refl|]. exists (replicate n null_handle). split; [by apply lookup_replicate|].
  split; [apply length_replicate|].
  split; [intros i h a Hi Ha|intros i j hi hj a Hi _ Ha]; apply lookup_replicate in Hi as [-> _]; discriminate Ha.
Qed.

(** The temporaries are new, or those of an earlier execution. *)
Lemma temporaries_cases ctx n (c2 : Context_) ttemps (c3 : Context_) : 0 <= Z.of_nat d < n -> next_store_id ctx <= next_store_id c2 ->
  cache_ok exe ctx d bufs -> setup_temporary_stores default_shape exe n c2 = OK (ttemps, c3) ->
  commands c3 = commands c2 /\ next_store_id c2 <= next_store_id c3 /\ exists trow (x y : Context_), ttemps !! d = Some trow /\
    ((temps_new x y trow /\ next_store_id c2 <= next_store_id x) \/
     (forall i h a, trow !! i = Some h -> impl h = Some a -> a < next_store_id ctx /\
       forall j b h', bufs !! j = Some b -> data_ b = inl h' -> impl h' <> Some a) /\
     (forall i j hi hj a, trow !! i = Some hi -> trow !! j = Some hj -> impl hi = Some a -> impl hj = Some a -> i = j)).
Proof.
  intros Hd Hle Hcache Hrun. destruct (decide (cached_temporary_stores_ exe = [])) as [Hnil|Hne].
  - destruct (temporaries_ready _ d exe n c2 ttemps c3 Hd Hnil Hrun) as (H1 & H2 & row & x & y & Hrow & Hnew & Hx).
    split_and!; [done..|]. exists row, x, y. split; [done|]. by left.
  - destruct Hcache as [?|(row & Hrow & Hold & Hdis)]; [done|]. unfold setup_temporary_stores in Hrun.
    destruct (cached_temporary_stores_ exe) as [|r l] eqn:Hc; [done|]. injection Hrun as <- <-.
    split_and!; [done|lia|]. exists row, ctx, ctx. split; [done|]. right. done.
Qed.

(** The parameters have their values when the schedule is issued. *)
Lemma parameters_agree ops ctx ctx1 (cs : list (Command C A D HS P)) prow stores mem0 heap0 heap1 :
  arguments_ok ctx bufs -> row_ready task_sem scalar_sem shard_sem buffer_shard p ctx ctx1 bufs prow cs ->
  parameter_stores stores !! d = Some prow ->
  (forall a, a < next_store_id ctx -> heap1 !! a = heap0 !! a) -> Forall2 (assembled shard_sem buffer_shard heap1) bufs prow ->
  (forall k v, mem0 !! k = Some v -> exists i b, k = (PARAM, Z.of_nat i) /\ bufs !! i = Some b /\ argument_value heap0 b v) ->
  agree (array_at stores (Z.of_nat d)) (live (ops : list Operation)) mem0 heap1.
Proof.
  intros Hargs Hready Hps Hold Hass Hmem0 k v _ Hk. destruct (Hmem0 k v Hk) as (i & b & -> & Hb & Hv).
  destruct (Forall2_lookup_l _ _ _ _ _ (rr_handles Hready) Hb) as (h & Hh & a & Ha & Hok).
  assert (array_at stores (Z.of_nat d) (PARAM, Z.of_nat i) = Some a) as Harr.
  { unfold array_at, handle_at. cbn. rewrite (proj2 (vec_at_nat _ _ _) Hps). cbn.
    by rewrite (proj2 (vec_at_nat _ _ _) Hh). }
  exists a. split; [done|]. unfold argument_value in Hv. destruct (data_ b) as [h'|n] eqn:Hd.
  - subst h'. destruct Hv as (a' & Ha' & Hv). assert (a' = a) as -> by congruence.
    rewrite Hold; [done|]. by eapply (ao_old _ _ Hargs).
  - destruct Hok as (_ & shard & Hshard). rewrite <- (Hv shard Hshard).
    apply (Forall2_lookup_lr _ _ _ _ _ _ Hass Hb Hh n); done.
Qed.
End phases.

(** C1: After the commands of an execution the buffers it returns hold the values that
    running the operations of the schedule leaves in the root stores. *)
Theorem Execute_runs_schedule exe static futures args run_id ctx results exe' ctx' d bufs p g mem0 mem heap0 :
  ExecuteSchedule exe static futures args run_id ctx = OK (results, exe', ctx') ->
  devices_ok exe args -> args !! d = Some bufs -> vec_at (addressable_devices_ exe) (Z.of_nat d) = OK (p, g) ->
  arguments_ok ctx bufs -> cache_ok exe ctx d bufs ->
  Forall operation_ok (schedule_ exe) -> aliases_ok (schedule_ exe) ->
  (forall k v, mem0 !! k = Some v -> exists i b, k = (PARAM, Z.of_nat i) /\ bufs !! i = Some b /\ argument_value heap0 b v) ->
  exec task_sem scalar_sem mem0 (schedule_ exe) = Some mem ->
  exists new heap, commands ctx' = commands ctx ++ new /\ run p heap0 new = Some heap /\
    forall k v, mem !! (ROOT, k) = Some v -> 
      exists row b h a, results !! d = Some row /\ row !! Z.to_nat k = Some b /\ data_ b = inl h /\
        impl h = Some a /\ heap !! a = Some v.
Proof.
  intros Hrun [Hdist Henough Hnative] Hd Hdev Hargs Hcache Hok Hal Hmem0 Hexec. unfold PjrtExecutable.ExecuteSchedule in Hrun.
  apply Result_bind_OK in Hrun as (c0 & H0%StartTimer_quiet & Hrun).
  pose proof (quiet_trans _ _ _ (OpenWindow_quiet ctx) H0) as [Hn0 (cs0 & Hc0 & Hr0)]. clear H0.
  apply Result_bind_OK in Hrun as ([params c1] & Hparams & Hrun).
  apply Result_bind_OK in Hrun as (roots & Hroots & Hrun). apply Result_bind_OK in Hrun as ([ttemps c3] & Htemps & Hrun).
  apply Result_bind_OK in Hrun as ([temps c4] & [Hc4 Hn4]%temp_allocations_same & Hrun).
  apply Result_bind_OK in Hrun as ([c5 rid] & Hissue & Hrun).
  apply Result_bind_OK in Hrun as (c6 & [Hn6 (cs6 & Hc6 & Hr6)]%run_callbacks_quiet & Hrun).
  apply Result_bind_OK in Hrun as (res & Hres & Hrun).
  apply Result_bind_OK in Hrun as (c7 & [Hn7 (cs7 & Hc7 & Hr7)]%StopTimer_quiet & [= <- <- <-]). cbn [fst snd] in *.
  assert (0 <= Z.of_nat d < Zlength args) as Hlt by (apply lookup_lt_Some in Hd; unfold Zlength; lia).
  assert (arguments_ok c0 bufs) as Hargs0 by (destruct Hargs as [Hold ?]; split; [by rewrite Hn0|done]).
  destruct (setup_parameters_ready task_sem scalar_sem shard_sem buffer_shard exe args c0 params c1 d p g bufs
    Hnative Henough Hdist Hd Hdev Hparams) as (prow & cs1 & _ & Hprow & Hready).
  eapply (setup_roots_ready scalar_sem _ _ _ d _ prow (next_store_id c1))
    in Hroots; [|exact Hprow|exact (parameters_old bufs p c0 c1 cs1 prow Hargs0 Hready)|apply roots_initial; unfold Zlength in Hlt; lia]. cbn [root_stores root_context] in Hroots.
  pose proof (rt_next Hroots) as Hn2. pose proof (rr_next Hready) as Hn1. cbn in Hn2.
  destruct (temporaries_cases exe d bufs ctx (Zlength args) (root_context roots) ttemps c3 Hlt ltac:(lia) Hcache Htemps)
    as (Hc3 & Hn3 & trow & x & y & Htrow & Htcases).
  destruct (issue_schedule Event ControlEvent HasTile Contains task_sem scalar_sem shard_sem exe _ _ _ _ _ _ _ _ _ _ _ Hdist Hdev Hlt Hissue)
    as (cs5 & css & Hc5 & Hiss & Hr5). cbn in Hc5.
  destruct (rr_run Hready heap0) as (heap1 & Hr1 & Hold1 & Hass).
  set (stores := MkStores params (root_stores roots) ttemps) in *.
  assert (forall l1 op l2 m w, schedule_ exe = l1 ++ op :: l2 -> w ∈ writes op -> apart (V := V) (array_at stores (Z.of_nat d)) l2 m w) as Hap.
  { eapply (writes_apart (schedule_ exe) d _ bufs c0 c1 (root_context roots) x y p cs1 prow trow stores); try done.
    rewrite Hn0. exact Htcases. }
  destruct (commands_simulate task_sem scalar_sem shard_sem (array_at stores (Z.of_nat d)) p (schedule_ exe) css mem0 mem heap1 Hok Hiss Hexec)
    as (heap & Hr & Hag); [by eapply (parameters_agree d bufs p)|exact Hap|].
  exists (cs0 ++ cs1 ++ cs5 ++ cs6 ++ cs7), heap. split_and!.
  - cbn. rewrite Hc7, Hc6, Hc5, Hc4, Hc3. pose proof (rt_commands Hroots) as Hrc. cbn in Hrc. by rewrite Hrc, (rr_commands Hready), Hc0, <- !app_assoc.
  - rewrite run_app, Hr0. cbn. rewrite run_app, Hr1. cbn. rewrite run_app, Hr5, Hr. cbn. rewrite run_app, Hr6. apply Hr7.
  - intros k v Hk. destruct (Hag (ROOT, k) v) as (a & Ha & Hh); [by left|done|].
    pose proof Ha as Ha2. apply array_at_row in Ha2. destruct Ha2 as (rrow & h & Hrrow & [Hk0 Hh']%vec_at_lookup & Hha). cbn in Hrrow, Hh', Hk0.
    destruct (rt_row Hroots) as (rrow' & Hrrow' & Hnum & _). cbn in Hrrow'.
    assert (rrow' = rrow) as -> by (cbn in Hrrow; congruence).
    destruct (make_outputs_ready exe roots (num_results (result_shape_ exe)) (Zlength args) d res Hlt) as (row & Hrow & Hret).
    { unfold Zlength in *. by rewrite Nat2Z.id. }
    destruct (Hret (Z.to_nat k)) as (b & hb & rr & Hb & Hbd & Hrr & Hhb); [rewrite <- Hnum; by eapply lookup_lt_Some|].
    exists row, b, h, a. split_and!; [done|done| |done|done]. rewrite Hbd. f_equal. congruence.
Qed.
End computes.
