(* ===== verification/PjrtSamples.v ===== *)
(** * Executions of sample schedules (mm_pjrt_executable.cc)

    A schedule of a task and a reshard, one root of which is the alias of a parameter;
    the order of the arguments on the fast path; and stores on the processor of another
    device. *)
From S2P Require Import Prelude Hlo Sharding ShardingIndex TaskScheduler TaskSchedulerFacts TaskExecution ZukuContext PjrtExecutable HloExecutor PjrtRun PjrtIssue PjrtStores PjrtComputes.
Local Open Scope Z_scope.

Module Execution.
Definition shape : Shape := MkShape F32 [8].
Definition devices : Slice.t := Slice.mk 0 2.
Definition sharded : ShardedShape Slice.t := MkSharded Z_F32 [] devices.
Definition store_ (t : StoreType) (i : Z) (sc : bool) : Store Slice.t OpSharding :=
  MkStore t i "s" sc (if sc then None else Some sharded) no_sharding shape.

(** The second output of the task is the alias of its first input. *)
#[global] Instance compiled : CompiledTask (SpmdModule nat unit OpSharding) := {
  CompilerOutputAlias _ o := if o =? 1 then Some 0 else None;
  Concurrent _ := false;
  CompiledLocally _ := true;
  TempRequired _ := OK 100;
  SpmdRootShape _ := TupleShape [shape; shape];
}.
Definition module_ : SpmdModule nat unit OpSharding := MkModule 0%nat false None () None 2.
Definition task : MpmdOperation nat unit Slice.t OpSharding :=
  SpmdHloModuleTask module_ devices [store_ PARAM 0 false; store_ TEMP (-1) true]
    [store_ TEMP 0 false; store_ ROOT 1 false] [MkScalar 7 1] false.
Definition reshard : MpmdOperation nat unit Slice.t OpSharding := Reshard (store_ TEMP 0 false) (store_ ROOT 0 false).
Definition schedule : list (MpmdOperation nat unit Slice.t OpSharding) := [task; reshard].

Definition exe (local_devices : list Device) : MultiMeshPjRtExecutable nat unit Slice.t OpSharding :=
  MkExecutable "sample" schedule [store_ TEMP 0 false] 0 2 local_devices (TupleShape [shape; shape]) None None None [] [].
Definition argument (local : Z) (value : Z) : MultiMeshPjRtBuffer OpSharding Z :=
  MkBuffer (inr value) None shape shape (local, local) None.

(** Every command triggers its own event; all tiles are there. *)
Definition Event (n : nat) : gset nat := {[n]}.
Definition buffer_shard (value : Z) (d : Device) : Result (Shard Z) := OK (MkShard value d.1 8).
Abbreviation execute e args procs :=
  (ExecuteSchedule Event Some (fun _ => true) (fun d z => bool_decide (Slice.start d <= z < Slice.start d + Slice.size d))
    buffer_shard (fun shape _ => shape) (fun _ => true) sharded e true true args 0 (new_context procs)).
Definition two_devices : list Device := [(0, 0); (1, 1)].
Definition arguments : list (list (MultiMeshPjRtBuffer OpSharding Z)) := [[argument 0 100]; [argument 1 100]].

(** The task adds the scalar, and doubles. *)
Definition task_sem (_ : nat) (args : list Z) : option (list Z) :=
  match args with [a; b] => Some [a + b; 2 * a] | _ => None end.
Definition mem0 : gmap (StoreType * Z) Z := {[ (PARAM, 0) := 100 ]}.

Definition mem1 : gmap (StoreType * Z) Z :=
  <[(ROOT, 0) := 107]> (<[(ROOT, 1) := 200]> (<[(TEMP, 0) := 107]> mem0)).
Lemma sample_exec : exec task_sem (fun z => z) mem0 schedule = Some mem1.
Proof. by vm_compute. Qed.
Lemma sample_root : mem1 !! (ROOT, 1) = Some 200.
Proof. by vm_compute. Qed.
Lemma sample_values k v : mem0 !! k = Some v -> exists i b, k = (PARAM, Z.of_nat i) /\ [argument 1 100] !! i = Some b /\
  argument_value buffer_shard shard_data ∅ b v.
Proof.
  unfold mem0. intros [<- <-]%lookup_singleton_Some. exists 0%nat, (argument 1 100).
  split; [done|]. split; [done|]. by intros shard [= <-].
Qed.

Lemma executes : exists results exe' ctx', execute (exe two_devices) arguments 2 = OK (results, exe', ctx').
Proof.
  destruct (execute (exe two_devices) arguments 2) as [[[r e] c]| |] eqn:Hr; [by exists r, e, c|exfalso..];
    (assert (match execute (exe two_devices) arguments 2 with OK _ => true | _ => false end = true) as Hok by (by vm_compute));
    rewrite Hr in Hok; discriminate Hok.
Qed.

Lemma sample_devices : devices_ok (exe two_devices) arguments.
Proof.
  split; [apply (bool_decide_unpack _); by vm_compute|done|].
  intros [|[|e]] row q h Hrow Hdev; [| |done]; injection Hrow as <-; vm_compute in Hdev; injection Hdev as <- <-;
    (constructor; [|constructor]); by intros n [= <-].
Qed.

Lemma sample_arguments : arguments_ok (C := nat) (A := unit) (D := Slice.t) (P := Z) (new_context 2) [argument 1 100].
Proof.
  split.
  - intros [|i] b h a Hb Hd; [|done]. by injection Hb as <-.
  - intros [|i] j b bj h hj a Hb Hbj Hd; [|done]. by injection Hb as <-.
Qed.

Lemma sample_operations : Forall operation_ok schedule.
Proof.
  repeat constructor; cbn; try lia; done.
Qed.

Lemma sample_alias i q : may_alias schedule i q -> i = 1 /\ q = 0.
Proof.
  intros (m & devs & inputs & outputs & scalars & lp & l & s & Hin & Hl & Hk & Ha).
  apply elem_of_cons in Hin as [[= -> -> -> -> -> ->]|Hin]; [|by apply list_elem_of_singleton in Hin].
  destruct l as [|[|l]]; [by injection Hl as <-| |done]. injection Hl as <-. injection Hk as <-.
  vm_compute in Ha. by injection Ha as <-.
Qed.

Lemma sample_aliases : aliases_ok schedule.
Proof.
  split.
  - intros i q l1 op l2 [-> ->]%sample_alias Heq Hw op' Hop'. destruct l1 as [|x [|y l1]]; cbn in Heq.
    + injection Heq as <- <-. apply list_elem_of_singleton in Hop' as ->. cbn.
      by intros H%list_elem_of_singleton.
    + injection Heq as _ <- _. cbn in Hw. by apply list_elem_of_singleton in Hw.
    + by destruct l1.
  - by intros i j q [-> ->]%sample_alias [-> _]%sample_alias.
Qed.
End Execution.

(** The second device: the first root is 107, the second one is 200. *)
Lemma Execute_runs_schedule_witness :
  exists results exe' ctx' heap row b h a,
    Execution.execute (Execution.exe Execution.two_devices) Execution.arguments 2 = OK (results, exe', ctx') /\
    run (D := Slice.t) Execution.task_sem (fun z => z) shard_data 1 ∅ (commands ctx') = Some heap /\
    results !! 1%nat = Some row /\ row !! 1%nat = Some b /\ data_ b = inl h /\ impl h = Some a /\ heap !! a = Some 200.
Proof.
  destruct Execution.executes as (results & exe' & ctx' & Hrun).
  destruct (Execute_runs_schedule _ _ _ _ _ _ _ _ Execution.task_sem (fun z => z) shard_data
    _ _ _ _ _ _ results exe' ctx' 1 [Execution.argument 1 100] 1 1 Execution.mem0
    Execution.mem1 ∅ Hrun Execution.sample_devices eq_refl eq_refl Execution.sample_arguments (or_introl eq_refl)
    Execution.sample_operations Execution.sample_aliases Execution.sample_values Execution.sample_exec)
    as (new & heap & Hnew & Hheap & Hroots).
  destruct (Hroots 1 200 Execution.sample_root) as (row & b & h & a & H1 & H2 & H3 & H4 & H5).
  exists results, exe', ctx', heap, row, b, h, a. split; [exact Hrun|]. split; [|repeat split; assumption].
  rewrite Hnew. exact Hheap.
Defined.

(** The first argument of the fast path becomes the parameter whose number is the index
    of the task's first input, and not the other way round.  When the inputs of the task
    are the arguments 1, 2 and 0, its parameters should be the second, the third and the
    first argument; they are the third, the first and the second. *)
Theorem fast_path_permutes_backwards (h0 h1 h2 : MultiMeshPjRtBuffer OpSharding Z) :
  let inputs := [Execution.store_ PARAM 1 false; Execution.store_ PARAM 2 false; Execution.store_ PARAM 0 false] in
  permute_arguments inputs [h0; h1; h2] = OK (Some ∘ MultiMesh <$> [h2; h0; h1]) /\
  (fun input => [h0; h1; h2] !! Z.to_nat (store_index input)) <$> inputs = Some <$> [h1; h2; h0].
Proof. done. Qed.

Definition on_processor_0 (ctx : ZukuExecuteContextImpl nat unit Slice.t OpSharding Z) (h : StoreHandle) : bool :=
  match impl h with
  | Some a => match impls ctx !! a with Some i => bool_decide (array_processor i = 0) | None => false end
  | None => false
  end.

(** An execution on the last two of four devices: the new stores of the first of them, the
    root 0 and the temporary, are made on the processor 0, which is none of the two. *)
Theorem stores_on_wrong_processor :
  exists results exe' ctx' row b h,
    Execution.execute (Execution.exe [(2, 2); (3, 3)])
      [[Execution.argument 2 100]; [Execution.argument 3 100]] 4 = OK (results, exe', ctx') /\
    results !! 0%nat = Some row /\ row !! 0%nat = Some b /\ device_ b = (2, 2) /\ data_ b = inl h /\
    on_processor_0 ctx' h = true /\
    match cached_temporary_stores_ exe' with (h' :: _) :: _ => on_processor_0 ctx' h' = true | _ => False end.
Proof.
  assert (match Execution.execute (Execution.exe [(2, 2); (3, 3)])
      [[Execution.argument 2 100]; [Execution.argument 3 100]] 4 with
    | OK (results, exe', ctx') => match results !! 0%nat with
      | Some row => match row !! 0%nat with
        | Some b => match data_ b, cached_temporary_stores_ exe' with
          | inl h, (h' :: _) :: _ => bool_decide (device_ b = (2, 2)) && on_processor_0 ctx' h && on_processor_0 ctx' h'
          | _, _ => false end
        | None => false end
      | None => false end
    | _ => false end = true) as Hok by (by vm_compute).
  destruct (Execution.execute _ _ _) as [[[results exe'] ctx']| |]; [|discriminate Hok..].
  destruct (results !! 0%nat) as [row|] eqn:H1; [|discriminate Hok].
  destruct (row !! 0%nat) as [b|] eqn:H2; [|discriminate Hok]. destruct (data_ b) as [h|] eqn:H3; [|discriminate Hok].
  exists results, exe', ctx', row, b, h. split; [done|]. split; [done|]. split; [done|].
  destruct (cached_temporary_stores_ exe') as [|[|h' row'] l]; [discriminate Hok..|].
  apply andb_true_iff in Hok as [[H4%bool_decide_eq_true H5]%andb_true_iff H6]. done.
Qed.
