(* ===== verification/PjrtFutures.v ===== *)
(** * The futures of an execution (mm_pjrt_executable.cc, zuku_execute_context_impl.cc)

    The future of a device is set by a callback that waits for the last events of the
    device's processor: for every task of the execution, but for no reshard. *)
From S2P Require Import Prelude Hlo Sharding ShardingIndex TaskScheduler ZukuContext PjrtExecutable PjrtSamples.
Local Open Scope Z_scope.

Section futures.
Context {C A D HS N P : Type} `{EqDecision D} `{!DeviceListApi D, !HloShardingApi HS}.
Context `{!CompiledTask (SpmdModule C A HS)}.
Abbreviation Context_ := (ZukuExecuteContextImpl C A D HS P).
Implicit Types (ctx : Context_) (exe : MultiMeshPjRtExecutable C A D HS).
Context (Event : nat -> gset nat) (ControlEvent : nat -> option nat).
Context (HasTile : Z -> bool) (Contains : D -> Z -> bool).
Context (buffer_shard : N -> Device -> Result (Shard P)).
Context (MakePartitionedShape : Shape -> HS -> Shape) (has_layout : Shape -> bool) (default_shape : ShardedShape D).

(** The processor of a task. *)
Definition task_processor (c : Command C A D HS P) : option Z :=
  match c with ExecuteCommand _ q _ _ _ _ _ _ _ _ => Some q | _ => None end.

(** From command [n0] on, the events of the tasks are among the last events of their
    processors. *)
Definition tracked (n0 : nat) ctx : Prop :=
  forall n c p, (n0 <= n)%nat -> commands ctx !! n = Some c -> task_processor c = Some p ->
    exists ev, vec_at (last_execute_events_ ctx) p = OK ev /\ Event n ⊆ ev.

(** Operations that issue no task. *)
Lemma tracked_same n0 ctx ctx' : last_execute_events_ ctx' = last_execute_events_ ctx ->
  (exists cs, commands ctx' = commands ctx ++ cs /\ Forall (fun c => task_processor c = None) cs) ->
  tracked n0 ctx -> tracked n0 ctx'.
Proof.
  intros He (cs & Hc & Hcs) Ht n c p Hn Hl Hp. rewrite He. rewrite Hc in Hl.
  apply lookup_app_Some in Hl as [Hl|[_ Hl]]; [by eapply Ht|].
  apply list_elem_of_lookup_2 in Hl. rewrite Forall_forall in Hcs. rewrite (Hcs c Hl) in Hp. discriminate Hp.
Qed.

(** *** Steps that issue no task *)

Definition quiet ctx ctx' : Prop :=
  last_execute_events_ ctx' = last_execute_events_ ctx /\
  exists cs, commands ctx' = commands ctx ++ cs /\ Forall (fun c => task_processor c = None) cs.

Lemma quiet_unchanged ctx ctx' : last_execute_events_ ctx' = last_execute_events_ ctx -> commands ctx' = commands ctx -> quiet ctx ctx'.
Proof. intros He Hc. split; [done|]. exists []. by rewrite app_nil_r, Hc. Qed.

Lemma quiet_command ctx c : task_processor c = None -> quiet ctx (issue c ctx).
Proof. intros Hc. split; [done|]. exists [c]. by repeat constructor. Qed.

#[global] Instance quiet_preorder : PreOrder quiet.
Proof.
  split; [intros ctx; by apply quiet_unchanged|].
  intros c1 c2 c3 [He1 (cs1 & Hc1 & H1)] [He2 (cs2 & Hc2 & H2)]. split; [congruence|].
  exists (cs1 ++ cs2). split; [by rewrite Hc2, Hc1, app_assoc|by apply Forall_app].
Qed.

Lemma quiet_fold {S X} (ctx_of : S -> Context_) (f : S -> X -> Result S) l s s' :
  (forall s x s', f s x = OK s' -> quiet (ctx_of s) (ctx_of s')) -> foldM f s l = OK s' -> quiet (ctx_of s) (ctx_of s').
Proof.
  intros Hf Hrun. eapply (foldM_inv (fun _ s' => quiet (ctx_of s) (ctx_of s'))) in Hrun; [done|done|].
  intros done_ x rest st st' _ Hst Hx. etrans; [done|]. by eapply Hf.
Qed.

Lemma quiet_OpenWindow ctx : quiet ctx (OpenWindow ctx).
Proof.
  unfold OpenWindow. generalize (window_markers_ ctx). intros ms. revert ctx.
  induction ms as [|m ms IH]; intros ctx; cbn; [done|]. case_bool_decide; [|done].
  etrans; [|apply IH]. etrans; [by apply (quiet_unchanged _ (with_windows ms (sync_all_execution_event ctx) ctx))|].
  by apply quiet_command.
Qed.

Lemma quiet_CloseWindow ctx : quiet ctx (CloseWindow ctx).
Proof. by apply quiet_unchanged. Qed.

Lemma quiet_StartTimer name ctx ctx' : StartTimer name ctx = OK ctx' -> quiet ctx ctx'.
Proof. intros (ev & _ & [= <-])%Result_bind_OK. etrans; [by apply (quiet_command _ (TimerCommand ev))|]. by apply quiet_unchanged. Qed.

Lemma quiet_StopTimer name ctx ctx' : StopTimer name ctx = OK ctx' -> quiet ctx ctx'.
Proof.
  unfold StopTimer. destruct (pending_timers_ ctx !! name); [|by intros [= <-]].
  intros (ev & _ & [= <-])%Result_bind_OK. etrans; [by apply (quiet_command _ (TimerCommand ev))|]. by apply quiet_unchanged.
Qed.

Lemma quiet_CreateStore d sh cfg ctx r : CreateStore d sh cfg ctx = OK r -> quiet ctx r.2.
Proof. intros (? & _ & [= <-])%Result_bind_OK. by apply quiet_unchanged. Qed.

Lemma quiet_ToStore (b : MultiMeshPjRtBuffer HS N) sh existing ctx r : ToStore buffer_shard b sh existing ctx = OK r -> quiet ctx r.2.
Proof.
  unfold ToStore, AssembleShards. destruct (has_store b).
  - by intros (? & _ & [= <-])%Result_bind_OK.
  - intros (n & _ & (shard & _ & Hrun)%Result_bind_OK)%Result_bind_OK.
    apply Result_bind_OK in Hrun as ([h c] & Hr & Hrun). apply Result_bind_OK in Hrun as (a & _ & [= <-]). cbn.
    assert (quiet ctx c) as Hc by (destruct existing; [by injection Hr as <- <-|by apply quiet_CreateStore in Hr]).
    etrans; [exact Hc|]. by apply quiet_command.
Qed.

(** *** The phases of an execution *)

Lemma quiet_parameters exe args ctx r : setup_parameter_stores buffer_shard exe args ctx = OK r -> quiet ctx r.2.
Proof.
  unfold setup_parameter_stores. intros Hrun. apply (quiet_fold snd) in Hrun; [done|].
  intros [all c] arguments s' (y & Hx & [= <-])%Result_bind_OK. cbn.
  apply (quiet_fold snd) in Hx; [done|]. intros [hs c1] [index b] s2 Hs. unfold parameter_store in Hs.
  destruct (has_store b).
  - apply Result_bind_OK in Hs as (? & _ & Hs). by apply Result_bind_OK in Hs as (? & _ & [= <-]).
  - apply Result_bind_OK in Hs as (? & _ & Hs). apply Result_bind_OK in Hs as (? & _ & Hs).
    apply Result_bind_OK in Hs as (? & _ & Hs). apply Result_bind_OK in Hs as (? & Hs & [= <-]).
    by eapply quiet_ToStore.
Qed.

Lemma quiet_add_root exe n params output sh al st st' :
  add_root_store default_shape exe n params output sh al st = OK st' -> quiet (root_context st) (root_context (st' : RootState C A D HS P)).
Proof.
  unfold add_root_store. intros (? & _ & (h & _ & Hrun)%Result_bind_OK)%Result_bind_OK.
  case_bool_decide; [by injection Hrun as <-|].
  apply Result_bind_OK in Hrun as (? & _ & Hrun). apply Result_bind_OK in Hrun as (? & _ & Hrun).
  apply Result_bind_OK in Hrun as (r & Hrun & [= <-]). cbn. apply (quiet_fold snd) in Hrun; [done|].
  intros [stores c] d s' Hs. unfold root_for_device in Hs. destruct al as [k|].
  - apply Result_bind_OK in Hs as (? & _ & Hs). apply Result_bind_OK in Hs as (? & _ & Hs).
    by apply Result_bind_OK in Hs as (? & _ & [= <-]).
  - apply Result_bind_OK in Hs as (? & _ & Hs). apply Result_bind_OK in Hs as (r2 & Hr2 & Hs).
    apply Result_bind_OK in Hs as (? & _ & [= <-]). by eapply quiet_CreateStore.
Qed.

Lemma quiet_roots exe n params st ops st' :
  foldM (setup_root_stores MakePartitionedShape default_shape exe n params) st ops = OK st' ->
  quiet (root_context st) (root_context (st' : RootState C A D HS P)).
Proof.
  apply (quiet_fold root_context). clear st st'. intros st op st'. destruct op as [m devs ins outs sc lp|i o| |]; cbn.
  - apply (quiet_fold root_context). clear st st'. intros st [l o] st'. unfold setup_root. case_bool_decide; [|by intros [= <-]].
    intros (? & _ & Hrun)%Result_bind_OK. apply Result_bind_OK in Hrun as (? & _ & Hrun).
    apply Result_bind_OK in Hrun as (? & _ & Hrun). by eapply quiet_add_root.
  - case_bool_decide; [|by intros [= <-]]. apply quiet_add_root.
  - by intros [= <-].
  - by intros [= <-].
Qed.

Lemma quiet_temporaries exe n ctx r : setup_temporary_stores default_shape exe n ctx = OK r -> quiet ctx r.2.
Proof.
  unfold setup_temporary_stores. destruct (cached_temporary_stores_ exe); [|by intros [= <-]].
  intros Hrun. apply (quiet_fold snd) in Hrun; [done|]. intros [all c] d s' (? & _ & Hs)%Result_bind_OK.
  apply Result_bind_OK in Hs as (r' & Hr & [= <-]). cbn. apply (quiet_fold snd) in Hr; [done|].
  intros [hs c1] tmp s2 (y & Hy & [= <-])%Result_bind_OK. by eapply quiet_CreateStore.
Qed.

Lemma quiet_temp_allocations exe n ctx r : setup_temp_allocations exe n ctx = OK r -> quiet ctx r.2.
Proof.
  unfold setup_temp_allocations. intros (? & _ & Hrun)%Result_bind_OK.
  destruct (temp_allocations_ exe); [|by injection Hrun as <-]. apply (quiet_fold snd) in Hrun; [done|].
  intros [all c] d s' (? & _ & [= <-])%Result_bind_OK. by apply quiet_unchanged.
Qed.

Lemma tracked_quiet n0 ctx ctx' : quiet ctx ctx' -> tracked n0 ctx -> tracked n0 ctx'.
Proof. intros [He Hc]. by apply tracked_same. Qed.

Lemma tracked_refl_commands n0 ctx ctx' : last_execute_events_ ctx' = last_execute_events_ ctx ->
  commands ctx' = commands ctx -> tracked n0 ctx -> tracked n0 ctx'.
Proof. intros He Hc. apply tracked_same; [done|]. exists []. by rewrite app_nil_r, Hc. Qed.

Lemma tracked_task n0 run_id p g devices compiler scalars inputs outputs temp options ctx ctx' :
  CreateExecuteTask Event ControlEvent HasTile Contains run_id p g devices compiler scalars inputs outputs temp options ctx = OK ctx' ->
  tracked n0 ctx -> tracked n0 ctx'.
Proof.
  unfold CreateExecuteTask. intros Hrun Ht. apply Result_bind_OK in Hrun as (ins & _ & Hrun).
  apply Result_bind_OK in Hrun as (outs & _ & Hrun). apply Result_bind_OK in Hrun as (_ & _ & Hrun).
  apply Result_bind_OK in Hrun as (ev & _ & Hrun). apply Result_bind_OK in Hrun as (ctx1 & H1 & Hrun).
  assert (tracked n0 ctx1) as Ht1.
  { unfold SetLastExecuteEvent in H1. apply Result_bind_OK in H1 as (last & Hlast & H1).
    apply Result_bind_OK in H1 as (events & Hset & [= <-]). cbn in Hlast, Hset.
    unfold vec_set in Hset. case_bool_decide as Hb; [|done]. injection Hset as <-.
    intros n c q Hn Hl Hp. cbn in Hl. cbn [last_execute_events_ with_events].
    apply vec_at_lookup in Hlast as [H0 Hlast].
    assert (forall q ev1, vec_at (last_execute_events_ ctx) q = OK ev1 ->
      exists ev2, vec_at (<[Z.to_nat p := last ∪ Event (length (commands ctx))]> (last_execute_events_ ctx)) q = OK ev2 /\ ev1 ⊆ ev2) as Hgrow.
    { intros r ev1 [Hr Hev]%vec_at_lookup. destruct (decide (Z.to_nat p = Z.to_nat r)) as [Heq|Hne].
      - exists (last ∪ Event (length (commands ctx))). split; [|rewrite <- Heq, Hlast in Hev; injection Hev as <-; set_solver].
        apply vec_at_lookup. split; [done|]. rewrite <- Heq. apply list_lookup_insert_eq. by eapply lookup_lt_Some.
      - exists ev1. split; [|done]. apply vec_at_lookup. split; [done|]. by rewrite list_lookup_insert_ne. }
    apply lookup_app_Some in Hl as [Hl|[Hge Hl]].
    - destruct (Ht n c q Hn Hl Hp) as (ev1 & Hev1 & Hsub). destruct (Hgrow q ev1 Hev1) as (ev2 & ? & ?).
      exists ev2. split; [done|set_solver].
    - apply list_lookup_singleton_Some in Hl as [Hz <-]. cbn in Hp. injection Hp as <-.
      exists (last ∪ Event (length (commands ctx))). split; [|replace n with (length (commands ctx)) by lia; set_solver].
      apply vec_at_lookup. split; [done|]. apply list_lookup_insert_eq. by eapply lookup_lt_Some. }
  destruct (strict_ordering options); [|by injection Hrun as <-].
  unfold SetLastControlEvent in Hrun. destruct (ControlEvent _); [|by injection Hrun as <-].
  apply Result_bind_OK in Hrun as (events & _ & [= <-]). by apply (tracked_refl_commands n0 ctx1).
Qed.

(** *** The commands of the schedule *)

Lemma tracked_schedule n0 exe stores temps all n ops st st' :
  foldM (issue_for_devices Event ControlEvent HasTile Contains exe stores temps all n) st ops = OK st' ->
  tracked n0 st.1 -> tracked n0 st'.1.
Proof.
  intros Hrun Ht. eapply (foldM_inv (fun _ s => tracked n0 s.1)) in Hrun; [done|done|].
  intros _ op _ [c run_id] s' _ Hc (c' & Hs & [= <-])%Result_bind_OK. cbn in *.
  eapply (foldM_inv (fun _ s => tracked n0 s)) in Hs; [done|done|].
  intros _ d _ c1 c2 _ Hc1 Hop. destruct op as [m devs ins outs sc lp|i o| |]; cbn in Hop.
  - apply Result_bind_OK in Hop as (? & _ & Hop). apply Result_bind_OK in Hop as (? & _ & Hop).
    apply Result_bind_OK in Hop as (? & _ & Hop). apply Result_bind_OK in Hop as (? & _ & Hop).
    by eapply tracked_task.
  - apply Result_bind_OK in Hop as (? & _ & Hop). apply Result_bind_OK in Hop as (? & _ & Hop).
    apply Result_bind_OK in Hop as (? & _ & Hop). unfold Reshard_ in Hop.
    apply Result_bind_OK in Hop as (? & _ & Hop). apply Result_bind_OK in Hop as (? & _ & [= <-]).
    eapply tracked_quiet; [by apply quiet_command|done].
  - by injection Hop as <-.
  - by injection Hop as <-.
Qed.

(** *** The callbacks *)

Lemma run_callbacks_spec exe n ctx ctx' : run_callbacks exe true n ctx = OK ctx' ->
  quiet ctx ctx' /\ forall d dev, 0 <= d < n -> addressable_devices_ exe !! Z.to_nat d = Some dev ->
    exists k ev, commands ctx' !! k = Some (CallbackCommand ev) /\ vec_at (last_execute_events_ ctx) dev.1 = OK ev.
Proof.
  unfold run_callbacks. intros Hrun.
  eapply (foldM_inv (fun done_ c => quiet ctx c /\ forall d dev, d ∈ done_ -> addressable_devices_ exe !! Z.to_nat d = Some dev ->
    exists k ev, commands c !! k = Some (CallbackCommand ev) /\ vec_at (last_execute_events_ ctx) dev.1 = OK ev)) in Hrun.
  - destruct Hrun as [Hq Hd]. split; [done|]. intros d dev Hlt. apply Hd. apply elem_of_seqZ. lia.
  - split; [done|]. by intros d dev ?%elem_of_nil.
  - intros done_ x rest c c' Heq [Hq Hd] (dv & Hdv & Hc)%Result_bind_OK. unfold RunAfterAllTasks in Hc.
    apply Result_bind_OK in Hc as (ev & Hev & [= <-]). rewrite (proj1 Hq) in Hev. split.
    + etrans; [done|]. by apply quiet_command.
    + intros d dev [Hin| ->%list_elem_of_singleton]%elem_of_app Hdev.
      * destruct (Hd d dev Hin Hdev) as (k & ev' & Hk & ?). exists k, ev'. split; [|done]. cbn. by apply lookup_app_l_Some.
      * apply vec_at_lookup in Hdv as [_ Hdv]. assert (Some dv = Some dev) as [= <-] by (etrans; [symmetry; exact Hdv|exact Hdev]).
        exists (length (commands c)), ev. split; [|done]. cbn. by apply list_lookup_middle.
Qed.

End futures.

(** The task of the sample, on the processor of the second device. *)
Lemma sample_task results exe' ctx' : Execution.execute (Execution.exe Execution.two_devices) Execution.arguments 2 = OK (results, exe', ctx') ->
  commands ctx' !! 4%nat = Some (ExecuteCommand 0 1 Execution.devices Execution.module_ [MkScalar 7 1] [(1, true)] [5; 1] 1 None 0).
Proof.
  assert (match Execution.execute (Execution.exe Execution.two_devices) Execution.arguments 2 with
          | OK (_, _, c) => commands c !! 4%nat | _ => None end =
    Some (ExecuteCommand 0 1 Execution.devices Execution.module_ [MkScalar 7 1] [(1, true)] [5; 1] 1 None 0)) as Hc by (by vm_compute).
  intros Hr. rewrite Hr in Hc. exact Hc.
Qed.

