(* ===== verification/Fusion.v ===== *)
(** * Fusing tasks (mpmd_computation_fusion.h/.cc)

    [Visit] collects sets of calls that have the same color (or original color, or
    devices) and can be moved together without passing a call that depends on them,
    first forward, then backward in the color-sorted order; [FuseCalls] replaces the
    calls of a set by one call of a computation that has the bodies of all of them.
    [Visit] repeats this until nothing is found.

    XLA's edits of the graph are recorded ([FusedCall]) as in Grouper.v; the graph they
    lead to, which the next round reads, is given by the parameter [apply]. *)
From S2P Require Import Prelude Hlo Json Instruction Partition Utils ColorDfs Grouper.
Local Open Scope Z_scope.

(** The computation of an instruction and its control dependencies. *)
Class HloControl (I C : Type) := {
  parent : I -> C;
  control_predecessors : I -> list I;
  control_successors : I -> list I;
}.

Inductive FusionType := kMatchingDevices | kMatchingColor | kOriginalColor.
#[export] Instance FusionType_eq_dec : EqDecision FusionType.
Proof. solve_decision. Defined.

(** ** FuseCalls *)

(** The call that replaces [fused_calls]: its computation (a given one, or a new one with
    its instructions and the positions of its results), its operands, and the
    instructions that its elements replace.  It has the color of the first call. *)
Record FusedCall (I C : Type) := MkFused {
  fused_calls : list I;
  fused_body : C + (list (NewInstruction I) * list nat);
  fused_operands : list I;
  fused_outputs : list I;
  fused_predecessors : list I;
  fused_successors : list I;
}.
Arguments MkFused {_ _} _ _ _ _ _ _. Arguments fused_calls {_ _} _. Arguments fused_body {_ _} _.
Arguments fused_operands {_ _} _. Arguments fused_outputs {_ _} _. Arguments fused_predecessors {_ _} _.
Arguments fused_successors {_ _} _.

Section fuse.
Context {I C : Type} `{EqDecision I, !Countable I, !EqDecision C} `{!Hlo I C, !HloControl I C}.
Implicit Types (i call : I) (c : C).

(** *** Control dependencies

    The loops remove the dependencies they iterate over, which is only defined when there
    is at most one. *)
Definition outside_dependency (call_set done : gset I) (deps acc : list I) : Result (list I) :=
  match filter (fun d => d ∉ done) deps with
  | [] => OK acc
  | [d] => OK (if bool_decide (d ∈ call_set) then acc else acc ++ [d])
  | _ => Fatal OutOfBounds
  end.

Definition collect_control (call_set : gset I) (st : gset I * list I * list I) call
    : Result (gset I * list I * list I) :=
  let '(done, predecessors, successors) := st in
  predecessors ← outside_dependency call_set done (control_predecessors call) predecessors;
  successors ← outside_dependency call_set done (control_successors call) successors;
  OK ({[call]} ∪ done, predecessors, successors).

(** *** Parameters and roots that are needed *)

Record Needed := MkNeeded {
  produced_by_set : gset I;
  parameters_needed : list I;
  roots_needed : list (I * I);
  operands_added : gmap I (list I);
}.

Definition add_operand (c : C) (n : Needed) (po : Z * I) : Result Needed :=
  let '(param, o) := po in
  if bool_decide (o ∈ produced_by_set n) then OK n
  else
    p ← vec_at (parameter_instructions c) param;
    OK (MkNeeded (produced_by_set n)
          (if bool_decide (is_Some (operands_added n !! o)) then parameters_needed n else parameters_needed n ++ [o])
          (roots_needed n)
          (<[o := default [] (operands_added n !! o) ++ [p]]> (operands_added n))).

Definition is_computation_root i : bool := bool_decide (root_instruction (parent i) = i).

Definition is_root (calls_included : gset I) (gte : I) : bool :=
  is_computation_root gte ||
  existsb (fun gte_user => bool_decide (gte_user ∉ calls_included) || is_computation_root gte_user) (users gte).

Definition add_output (calls_included : gset I) (c : C) (n : Needed) (gte : I) : Result Needed :=
  let produced := {[gte]} ∪ produced_by_set n in
  if is_root calls_included gte then
    r ← operand (root_instruction c) (tuple_index gte);
    OK (MkNeeded produced (parameters_needed n) (roots_needed n ++ [(gte, r)]) (operands_added n))
  else OK (MkNeeded produced (parameters_needed n) (roots_needed n) (operands_added n)).

Definition add_call (calls_included : gset I) (n : Needed) call : Result Needed :=
  c ← called_computation call 0;
  n ← foldM (add_operand c) n (zip (seqZ 0 (Zlength (operands call))) (operands call));
  foldM (add_output calls_included c) n (users call).

(** *** The new computation *)

Record Fusing := MkFusing {
  clone_map : gmap I nat;
  cloned_operand_params : gmap I nat;
  builder : list (NewInstruction I);
}.

Definition add_parameter (added : gmap I (list I)) (f : Fusing) (no : Z * I) : Result Fusing :=
  let '(fused_param_number, o) := no in
  let params := default [] (added !! o) in
  param ← vec_at params 0;
  let pos := length (builder f) in
  OK (MkFusing (foldl (fun m p => <[p := pos]> m) (clone_map f) params)
        (<[o := pos]> (cloned_operand_params f))
        (builder f ++ [NewParameter fused_param_number param])).

Definition clone_operand (clone_map : gmap I nat) (o : I) : Result nat :=
  match clone_map !! o with
  | Some k => OK k
  | None => Err kInvalidArgument "was never added to clone map when fusing"
  end.

(** The tables give null pointers for unknown keys. *)
Definition clone_instruction call (c : C) (f : Fusing) i : Result Fusing :=
  if bool_decide (opcode i = kParameter) then
    o ← operand call (parameter_number_of i);
    k ← of_option NullDeref (cloned_operand_params f !! o);
    OK (MkFusing (<[i := k]> (clone_map f)) (cloned_operand_params f) (builder f))
  else if bool_decide (i <> root_instruction c) then
    ks ← mapM_Result (clone_operand (clone_map f)) (operands i);
    OK (MkFusing (<[i := length (builder f)]> (clone_map f)) (cloned_operand_params f) (builder f ++ [NewClone i ks]))
  else OK f.

Definition clone_result (c : C) (f : Fusing) (user : I) : Result Fusing :=
  original_root ← operand (root_instruction c) (tuple_index user);
  new_root ← of_option NullDeref (clone_map f !! original_root);
  OK (MkFusing (clone_map f) (<[user := new_root]> (cloned_operand_params f)) (builder f)).

Definition clone_call (f : Fusing) call : Result Fusing :=
  c ← called_computation call 0;
  f ← foldM (clone_instruction call c) f (MakeInstructionPostOrder c);
  foldM (clone_result c) f (users call).

Definition fused_root (f : Fusing) (root : I) : Result nat :=
  match clone_map f !! root with
  | Some k => OK k
  | None => Err kInvalidArgument "fused root is not in clone map"
  end.

Definition new_computation (calls : list I) (n : Needed) : Result (list (NewInstruction I) * list nat) :=
  f ← foldM (add_parameter (operands_added n)) (MkFusing ∅ ∅ [])
        (zip (seqZ 0 (Zlength (parameters_needed n))) (parameters_needed n));
  f ← foldM clone_call f calls;
  roots ← mapM_Result (fused_root f) (snd <$> roots_needed n);
  OK (builder f, roots).

(** *** Removing the calls

    The users of replaced elements are gone; so are the calls that have been removed. *)
Definition remove_user (replaced removed : gset I) (_ : unit) (user : I) : Result unit :=
  if bool_decide (user ∈ replaced) then OK ()
  else if negb (bool_decide (filter (fun u => u ∉ removed) (users user) = [])) then
    Err kInternal "still has active user"
  else if is_computation_root user then Err kInternal "is still the root instruction"
  else OK ().

Definition remove_call (replaced : gset I) (removed : gset I) call : Result (gset I) :=
  _ ← foldM (remove_user replaced removed) () (users call);
  OK ({[call]} ∪ removed).

Definition FuseCalls (calls : list I) (fused_computation : option C) : Result (FusedCall I C) :=
  match calls with
  | [] => Err kInvalidArgument "FuseComputations: got empty calls vector"
  | front :: _ =>
      if negb (forallb (fun call => bool_decide (parent call = parent front)) calls) then
        Err kInvalidArgument "FuseComputations: cannot fuse calls with different parent computations"
      else
        let call_set := list_to_set calls in
        control ← foldM (collect_control call_set) (∅, [], []) calls;
        n ← foldM (add_call call_set) (MkNeeded ∅ [] [] ∅) calls;
        body ← match fused_computation with
               | Some c => OK (inl c)
               | None => b ← new_computation calls n; OK (inr b)
               end;
        let outputs := fst <$> roots_needed n in
        _ ← foldM (remove_call (list_to_set outputs)) ∅ (reverse calls);
        OK (MkFused calls body (parameters_needed n) outputs (control : gset I * list I * list I).1.2 control.2)
  end.
End fuse.
Arguments Needed I {_ _}. Arguments Fusing I {_ _}.

(** ** The sets of calls that are fused *)

Section sets.
Context {I : Type} `{EqDecision I, !Countable I}.
(** [FusionMatch], and the order of dependences of [DependencyHloOrdering]. *)
Context (FusionMatch_ : I -> I -> Result bool) (ExecutesBefore : I -> I -> bool) (is_while : I -> bool).

(** [fusion_sets] maps a call to the number of its set. *)
Record FusionSets := MkSets {
  sets : list (list I);
  fusion_sets : gmap I nat;
}.
Definition no_sets : FusionSets := MkSets [] ∅.

Definition current_fusion_set (st : FusionSets) (x : I) : Result (list I) :=
  match fusion_sets st !! x with
  | Some k => of_option NullDeref (sets st !! k)
  | None => OK [x]
  end.

(** The first candidate that matches, unless one before it can not be passed. *)
Fixpoint find_match (matches : I -> Result bool) (can_reorder : I -> bool) (candidates : list I)
    : Result (option I) :=
  match candidates with
  | [] => OK None
  | x :: candidates =>
      m ← matches x;
      if (m : bool) then OK (Some x)
      else if can_reorder x then find_match matches can_reorder candidates else OK None
  end.

(** The set of [x], a new one of [x] alone if it has none. *)
Definition set_of (x : I) (st : FusionSets) : nat * FusionSets :=
  match fusion_sets st !! x with
  | Some k => (k, st)
  | None => (length (sets st), MkSets (sets st ++ [[x]]) (<[x := length (sets st)]> (fusion_sets st)))
  end.

Definition push_call (k : nat) (y : I) (st : FusionSets) : FusionSets :=
  MkSets (alter (fun l => l ++ [y]) k (sets st)) (<[y := k]> (fusion_sets st)).

Definition forward_step (need_to_visit : list I) (st : FusionSets) (l : Z) : Result FusionSets :=
  lhs ← vec_at need_to_visit l;
  if is_while lhs then OK st
  else
    current ← current_fusion_set st lhs;
    m ← find_match (FusionMatch_ lhs) (fun rhs => forallb (fun x => negb (ExecutesBefore x rhs)) (reverse current))
          (drop (Z.to_nat l + 1) need_to_visit);
    match m with
    | None => OK st
    | Some y =>
        if bool_decide (is_Some (fusion_sets st !! y)) then
          Err kInvalidArgument "was already assigned a fusion parner"
        else let '(k, st) := set_of lhs st in OK (push_call k y st)
    end.

Definition backward_step (need_to_visit : list I) (st : FusionSets) (r : Z) : Result FusionSets :=
  rhs ← vec_at need_to_visit r;
  if is_while rhs then OK st
  else
    current ← current_fusion_set st rhs;
    m ← find_match (fun lhs => FusionMatch_ lhs rhs)
          (fun lhs => forallb (fun x => negb (ExecutesBefore lhs x)) (reverse current))
          (reverse (take (Z.to_nat r) need_to_visit));
    match m with
    | None => OK st
    | Some y =>
        let '(k, st) := set_of y st in
        OK (if bool_decide (is_Some (fusion_sets st !! rhs)) then st else push_call k rhs st)
    end.

Definition forward_sets (need_to_visit : list I) : Result FusionSets :=
  foldM (forward_step need_to_visit) no_sets (seqZ 0 (Zlength need_to_visit)).

Definition find_sets (need_to_visit : list I) : Result FusionSets :=
  st ← forward_sets need_to_visit;
  foldM (backward_step need_to_visit) st (seqZ 0 (Zlength need_to_visit)).

(** [postorder_index], and the order in which the calls of a set are fused. *)
Definition postorder_index (need_to_visit : list I) : gmap I nat :=
  foldl (fun m i => <[i := size m]> m) ∅ need_to_visit.
Definition sort_set (need_to_visit : list I) (calls : list I) : list I :=
  let index := postorder_index need_to_visit in
  stable_sort (fun lhs rhs => bool_decide (default 0%nat (index !! lhs) < default 0%nat (index !! rhs))%nat) calls.
End sets.
Arguments FusionSets I {_ _}.

(** ** The pass *)

Section pass.
Context {D : Type} `{Countable D, !DeviceListApi D}.
Context {I C St G : Type} `{EqDecision I, !Countable I, !EqDecision C} `{!AttrStore I St}.
(** What a module [G] is to the code: the graph, control dependencies and attributes; the
    edits of [FuseCalls] and dead-code elimination. *)
Context (hlo : G -> Hlo I C) (control : G -> HloControl I C) (attributes : G -> St).
Context (ordering : G -> I -> I -> bool) (apply : C -> FusedCall I C -> G -> G) (dce : G -> G).
Context (partition : HloPartition D) (type_ : FusionType) (only_fuse_loop_tasks_ : bool).
Implicit Types (g : G) (c : C).

Definition FusionMatch `{!Hlo I C} (s : St) (lhs rhs : I) : Result bool :=
  if bool_decide (opcode lhs = kWhile) || bool_decide (opcode rhs = kWhile) then OK false
  else match type_ with
  | kMatchingColor =>
      match Color s lhs, Color s rhs with
      | Some lhs_color, Some rhs_color => OK (bool_decide (lhs_color = rhs_color))
      | _, _ => Fatal CheckFailed
      end
  | kOriginalColor =>
      lhs_color ← color_deref s lhs; rhs_color ← color_deref s rhs;
      OK (bool_decide (OriginalColor partition lhs_color = OriginalColor partition rhs_color))
  | kMatchingDevices => SameMesh partition s lhs rhs
  end.

Definition is_task `{!Hlo I C} (i : I) : bool := bool_decide (opcode i = kCall) || bool_decide (opcode i = kWhile).

(** The calls and loops, in color-sorted order. *)
Definition calls_of (dfs_fuel : nat) c g : Result (list I) :=
  postorder ← @ColorSortedPostorder I C St _ _ (hlo g) _ dfs_fuel (attributes g) c;
  OK (filter (fun i => @is_task (hlo g) i = true) postorder).

Definition fuse_set c (need_to_visit : list I) g (calls : list I) : Result G :=
  f ← @FuseCalls I C _ _ _ (hlo g) (control g) (sort_set need_to_visit calls) None;
  OK (apply c f g).

(** One round of the loop: whether a match was found. *)
Definition visit_round (dfs_fuel : nat) c g : Result (bool * G) :=
  need_to_visit ← calls_of dfs_fuel c g;
  st ← find_sets (@FusionMatch (hlo g) (attributes g)) (ordering g)
         (fun i => bool_decide (@opcode I C (hlo g) i = kWhile)) need_to_visit;
  if bool_decide (fusion_sets st = ∅) then OK (false, g)
  else g ← foldM (fuse_set c need_to_visit) g (sets st); OK (true, g).

Fixpoint visit_loop (fuel dfs_fuel : nat) c (changed : bool) g : Result (bool * G) :=
  match fuel with
  | O => Fatal Diverges
  | S fuel =>
      r ← visit_round dfs_fuel c g;
      if (r : bool * G).1 then visit_loop fuel dfs_fuel c true r.2 else OK (changed, r.2)
  end.
Definition Visit (fuel dfs_fuel : nat) c g : Result (bool * G) := visit_loop fuel dfs_fuel c false g.

(** The bodies of the loops of a computation are visited last in, first out. *)
Definition loop_bodies c g : Result (list C) :=
  foldM (fun bodies i =>
      if bool_decide (@opcode I C (hlo g) i = kWhile)
      then b ← @called_computation I C (hlo g) i 0; OK (bodies ++ [b]) else OK bodies)
    [] (@MakeInstructionPostOrder I C (hlo g) c).

(** The back of [to_visit] is its head. *)
Fixpoint run_loop (fuel visit_fuel dfs_fuel : nat) (entry : C) (to_visit : list C) (changed : bool) g
    : Result (bool * G) :=
  match fuel with
  | O => Fatal Diverges
  | S fuel =>
      match to_visit with
      | [] => OK (changed, g)
      | c :: to_visit =>
          bodies ← loop_bodies c g;
          r ← (if bool_decide (c <> entry) || negb only_fuse_loop_tasks_
               then Visit visit_fuel dfs_fuel c g else OK (false, g));
          run_loop fuel visit_fuel dfs_fuel entry (reverse bodies ++ to_visit)
            (changed || (r : bool * G).1) r.2
      end
  end.

(** The first loop of the entry computation with a configuration decides. *)
Context {J : Type} `{!JsonApi J} (instructions : G -> C -> list I) (raw_backend_config_string : I -> string).
Fixpoint enforce_bijective_loop g (l : list I) : Result bool :=
  match l with
  | [] => OK false
  | i :: l =>
      if bool_decide (@opcode I C (hlo g) i = kWhile) && @has_backend_config I C (hlo g) i then
        json ← GetJsonValue (J := J) (raw_backend_config_string i);
        schedule_string ← GetOptionalTaskValue (T := string) json "schedule" "";
        OK (bool_decide (schedule_string = "custom") || bool_decide (schedule_string = "zero-bubble-h2"))
      else enforce_bijective_loop g l
  end.
Definition EnforceBijectiveTasks c g : Result bool := enforce_bijective_loop g (instructions g c).

Definition Run (fuel visit_fuel dfs_fuel : nat) (entry : C) g : Result (bool * G) :=
  bijective ← EnforceBijectiveTasks entry g;
  if bool_decide (type_ = kMatchingDevices) && bijective then OK (false, g)
  else
    r ← run_loop fuel visit_fuel dfs_fuel entry [entry] false g;
    OK ((r : bool * G).1, if r.1 then dce r.2 else r.2).
End pass.
