(* ===== verification/FusionSets.v ===== *)
(** * The sets of calls that are fused (mpmd_computation_fusion.cc)

    The forward pass never fails; its sets can all be fused at once, since every
    dependence that leaves a set leads behind its last call.  The backward pass breaks
    this: the sets of both passes together can depend on each other.  The rounds of
    [Visit] end, since every round has a set of two calls. *)
From S2P Require Import Prelude Hlo Instruction Partition ColorDfs Grouper Fusion.
Local Open Scope Z_scope.

Section sets.
Context {I : Type} `{EqDecision I, !Countable I}.
Context (FusionMatch_ : I -> I -> Result bool) (ExecutesBefore : I -> I -> bool) (is_while : I -> bool).
Context (need : list I) (need_NoDup : NoDup need).
Implicit Types (x y z : I) (st : FusionSets I).

(** The position of a call in the order. *)
Definition pos x : nat := match list_find (x =.) need with Some (k, _) => k | None => 0 end.

Lemma pos_lookup k x : need !! k = Some x -> pos x = k.
Proof.
  intros Hk. unfold pos. destruct (list_find (x =.) need) as [[j y]|] eqn:Hf.
  - apply list_find_Some in Hf as (Hj & <- & _). by eapply NoDup_lookup.
  - apply list_find_None in Hf. rewrite Forall_forall in Hf. exfalso. eapply Hf; [by eapply list_elem_of_lookup_2|done].
Qed.

Lemma lookup_pos x : x ∈ need -> need !! pos x = Some x.
Proof. intros [k Hk]%list_elem_of_lookup. by rewrite (pos_lookup k x Hk). Qed.

(** *** Matching is an equivalence of the calls that match at all *)
Definition matches x y : Prop := FusionMatch_ x y = OK true.
Context (match_total : forall x y, x ∈ need -> y ∈ need -> exists b, FusionMatch_ x y = OK b).
Context (match_sym : forall x y, matches x y -> matches y x).
Context (match_trans : forall x y z, matches x y -> matches y z -> matches x z).
Context (match_while : forall x y, matches x y -> is_while y = false).

Lemma find_match_spec (m : I -> Result bool) reorder l :
  (forall x, x ∈ l -> exists b, m x = OK b) ->
  exists r, find_match m reorder l = OK r /\
    forall y, r = Some y -> exists l1 l2, l = l1 ++ y :: l2 /\ m y = OK true /\
      forall x, x ∈ l1 -> m x = OK false /\ reorder x = true.
Proof.
  induction l as [|x l IH]; intros Htot; cbn; [by exists None|].
  destruct (Htot x ltac:(left)) as [b Hb]. rewrite Hb. cbn. destruct b.
  - exists (Some x). split; [done|]. intros y [= <-]. exists [], l. split; [done|]. split; [done|]. by intros z ?%elem_of_nil.
  - destruct (reorder x) eqn:Hr; [|by exists None].
    destruct IH as (r & -> & Hspec); [intros z Hz; apply Htot; by right|]. exists r. split; [done|].
    intros y Hy. destruct (Hspec y Hy) as (l1 & l2 & -> & Hm & Hl1). exists (x :: l1), l2. split; [done|]. split; [done|].
    intros z [->|Hz]%elem_of_cons; [done|by apply Hl1].
Qed.

(** ** The table of sets *)

Record table_ok st : Prop := {
  tk_sets : forall k l x, sets st !! k = Some l -> x ∈ l -> fusion_sets st !! x = Some k;
  tk_fusion : forall x k, fusion_sets st !! x = Some k -> exists l, sets st !! k = Some l /\ x ∈ l;
  tk_NoDup : Forall (fun l => NoDup l) (sets st);
  tk_need : Forall (fun l => Forall (fun x => x ∈ need) l) (sets st);
}.

Lemma table_ok_empty : table_ok no_sets.
Proof. split; cbn; [done| |constructor|constructor]. intros x k. by rewrite lookup_empty. Qed.

Lemma set_of_spec x st k st' : table_ok st -> x ∈ need -> set_of x st = (k, st') ->
  table_ok st' /\ fusion_sets st' !! x = Some k /\
  (forall y, y <> x -> fusion_sets st' !! y = fusion_sets st !! y) /\
  (forall j l, sets st !! j = Some l -> sets st' !! j = Some l) /\
  (fusion_sets st !! x = Some k /\ st' = st \/ fusion_sets st !! x = None /\ k = length (sets st) /\ sets st' = sets st ++ [[x]]).
Proof.
  unfold set_of. intros [H1 H2 H3 H4] Hx. destruct (fusion_sets st !! x) as [j|] eqn:Hj; intros [= <- <-].
  - split; [done|]. split_and!; try done. by left.
  - assert (forall y, y <> x -> (<[x:=length (sets st)]> (fusion_sets st)) !! y = fusion_sets st !! y) as Hne
      by (intros y Hy; by apply lookup_insert_ne).
    split_and!; cbn; [|by apply lookup_insert_eq|done|by intros j l ?; apply lookup_app_l_Some|by right].
    split; cbn.
    + intros k l y [Hk|[Hk Hl]]%lookup_app_Some Hy.
      * assert (y <> x) by (intros ->; rewrite (H1 k l x Hk Hy) in Hj; done). rewrite Hne by done. by eapply H1.
      * apply list_lookup_singleton_Some in Hl as [Hk0 <-]. apply list_elem_of_singleton in Hy as ->.
        rewrite lookup_insert_eq. f_equal. lia.
    + intros y k. rewrite lookup_insert. case_decide as Hyx.
      * intros [= <-]. subst y. exists [x]. split; [by apply list_lookup_middle|by left].
      * intros (l & Hl & Hin)%H2. exists l. split; [by apply lookup_app_l_Some|done].
    + apply Forall_app. split; [done|]. constructor; [apply NoDup_singleton|constructor].
    + apply Forall_app. split; [done|]. by repeat constructor.
Qed.

Lemma push_call_ok k y st l : table_ok st -> y ∈ need -> sets st !! k = Some l -> fusion_sets st !! y = None ->
  table_ok (push_call k y st) /\ sets (push_call k y st) !! k = Some (l ++ [y]) /\
  (forall j, j <> k -> sets (push_call k y st) !! j = sets st !! j).
Proof.
  intros [H1 H2 H3 H4] Hy Hk Hfy. assert (sets (push_call k y st) !! k = Some (l ++ [y])) as Hk' by (cbn; rewrite list_lookup_alter_eq, Hk; done).
  assert (forall j, j <> k -> sets (push_call k y st) !! j = sets st !! j) as Hj by (intros j Hne; cbn; apply list_lookup_alter_ne; congruence).
  assert (forall j l', sets st !! j = Some l' -> y ∉ l') as Hny by (intros j l' Hl' Hin; rewrite (H1 j l' y Hl' Hin) in Hfy; done).
  split; [|done]. split.
  - intros j l' x Hl' Hx. cbn. destruct (decide (j = k)) as [->|Hne].
    + rewrite Hk' in Hl'. injection Hl' as <-. apply elem_of_app in Hx as [Hx| ->%list_elem_of_singleton]; [|by rewrite lookup_insert_eq].
      rewrite lookup_insert_ne by (intros ->; by eapply Hny). by eapply H1.
    + rewrite Hj in Hl' by done. rewrite lookup_insert_ne by (intros ->; by eapply Hny). by eapply H1.
  - intros x j. cbn [fusion_sets push_call]. rewrite lookup_insert. case_decide as Hxy.
    + intros [= <-]. subst x. exists (l ++ [y]). split; [done|]. apply elem_of_app. right. by left.
    + intros (l' & Hl' & Hx)%H2. destruct (decide (j = k)) as [->|Hne].
      * exists (l ++ [y]). split; [done|]. apply elem_of_app. left. congruence.
      * exists l'. by rewrite Hj.
  - apply Forall_lookup. intros j l' Hl'. destruct (decide (j = k)) as [->|Hne].
    + rewrite Hk' in Hl'. injection Hl' as <-. apply NoDup_app. split; [by eapply (Forall_lookup_1 _ _ _ _ H3)|].
      split; [|apply NoDup_singleton]. intros x Hx ?%list_elem_of_singleton; subst x. by eapply Hny.
    + rewrite Hj in Hl' by done. by eapply (Forall_lookup_1 _ _ _ _ H3).
  - apply Forall_lookup. intros j l' Hl'. destruct (decide (j = k)) as [->|Hne].
    + rewrite Hk' in Hl'. injection Hl' as <-. apply Forall_app. split; [by eapply (Forall_lookup_1 _ _ _ _ H4)|by repeat constructor].
    + rewrite Hj in Hl' by done. by eapply (Forall_lookup_1 _ _ _ _ H4).
Qed.

(** ** The forward pass *)

(** A set, with its last call [m], when the calls before position [l] have been visited. *)
Record set_ok (l : nat) (s0 : list I) (m : I) : Prop := {
  so_many : s0 <> [];
  so_before : forall x, x ∈ s0 -> (pos x < l)%nat /\ (pos x < pos m)%nat;
  so_matches : forall x, x ∈ s0 -> matches x m;
  so_runs : forall x z, x ∈ s0 -> z ∈ need -> (pos x < pos z < pos m)%nat -> matches x z -> z ∈ s0;
  so_safe : forall x z, x ∈ s0 -> z ∈ need -> (pos x < pos z < pos m)%nat -> z ∉ s0 -> ExecutesBefore x z = false;
}.

Definition forward_ok (l : nat) st : Prop :=
  table_ok st /\ Forall (fun s => exists s0 m, s = s0 ++ [m] /\ set_ok l s0 m) (sets st).

Lemma set_ok_mono l l' s0 m : (l <= l')%nat -> set_ok l s0 m -> set_ok l' s0 m.
Proof. intros Hl [H1 H2 H3 H4 H5]. split; try done. intros x Hx. destruct (H2 x Hx). split; [lia|done]. Qed.

(** A call that is visited is the last one of its set. *)
Lemma visited_last l st k s x : forward_ok l st -> sets st !! k = Some s -> x ∈ s -> (l <= pos x)%nat ->
  exists s0, s = s0 ++ [x] /\ set_ok l s0 x.
Proof.
  intros [_ Hs] Hk Hx Hl. destruct (Forall_lookup_1 _ _ _ _ Hs Hk) as (s0 & m & -> & Hok).
  apply elem_of_app in Hx as [Hx| ->%list_elem_of_singleton]; [|by exists s0].
  destruct (so_before _ _ _ Hok x Hx). lia.
Qed.

Lemma set_ok_push l s0 lhs y l1 l2 : need !! l = Some lhs -> set_ok l s0 lhs \/ s0 = [] ->
  drop (l + 1) need = l1 ++ y :: l2 -> matches lhs y ->
  (forall x, x ∈ l1 -> FusionMatch_ lhs x = OK false /\ forall c, c ∈ s0 ++ [lhs] -> ExecutesBefore c x = false) ->
  set_ok (l + 1) (s0 ++ [lhs]) y.
Proof.
  intros Hl Hok Hdrop Hm Hl1. assert (pos lhs = l) as Hpl by (by apply pos_lookup).
  assert (need !! (l + 1 + length l1)%nat = Some y) as Hy by (rewrite <- lookup_drop, Hdrop; by apply list_lookup_middle).
  assert (pos y = l + 1 + length l1)%nat as Hpy by (by apply pos_lookup).
  assert (forall z, z ∈ need -> (l < pos z < pos y)%nat -> z ∈ l1) as Hbetween.
  { intros z Hz%lookup_pos Hpz. replace (pos z) with (l + 1 + (pos z - l - 1))%nat in Hz by lia.
    rewrite <- lookup_drop, Hdrop, lookup_app_l in Hz by lia. by eapply list_elem_of_lookup_2. }
  assert (forall x, x ∈ s0 -> set_ok l s0 lhs) as Hs0 by (intros x Hx; destruct Hok as [| ->]; [done|by apply elem_of_nil in Hx]).
  split.
  - by destruct s0.
  - intros x [Hx| ->%list_elem_of_singleton]%elem_of_app; [|lia]. destruct (so_before _ _ _ (Hs0 x Hx) x Hx). lia.
  - intros x [Hx| ->%list_elem_of_singleton]%elem_of_app; [|done]. eapply match_trans; [by apply (so_matches _ _ _ (Hs0 x Hx))|done].
  - intros x z Hx Hz Hpz Hxz. assert (matches lhs z) as Hlz.
    { apply elem_of_app in Hx as [Hx| ->%list_elem_of_singleton]; [|done].
      eapply match_trans; [apply match_sym; by apply (so_matches _ _ _ (Hs0 x Hx))|done]. }
    apply elem_of_app. destruct (decide (pos z < l)%nat) as [Hlt|Hge].
    + apply elem_of_app in Hx as [Hx| ->%list_elem_of_singleton]; [|lia]. left. apply (so_runs _ _ _ (Hs0 x Hx) x z); try done. lia.
    + destruct (decide (pos z = l)) as [He|Hne].
      * right. apply lookup_pos in Hz. rewrite He, Hl in Hz. injection Hz as <-. by left.
      * destruct (Hl1 z) as [Hf _]; [apply Hbetween; [done|lia]|]. unfold matches in Hlz. congruence.
  - intros x z Hx Hz Hpz Hnz. destruct (decide (pos z < l)%nat) as [Hlt|Hge].
    + apply elem_of_app in Hx as [Hx| ->%list_elem_of_singleton]; [|lia].
      apply (so_safe _ _ _ (Hs0 x Hx) x z); try done; [lia|]. intros Hin. apply Hnz, elem_of_app. by left.
    + destruct (decide (pos z = l)) as [He|Hne].
      * exfalso. apply Hnz, elem_of_app. right. apply lookup_pos in Hz. rewrite He, Hl in Hz. injection Hz as <-. by left.
      * apply (proj2 (Hl1 z ltac:(apply Hbetween; [done|lia])) x Hx).
Qed.

Lemma forward_step_ok (l : nat) st x : forward_ok l st -> need !! l = Some x ->
  exists st', forward_step FusionMatch_ ExecutesBefore is_while need st (Z.of_nat l) = OK st' /\ forward_ok (l + 1) st'.
Proof.
  intros Hok Hl. pose proof Hok as [Htab Hsets]. assert (x ∈ need) as Hx by (by eapply list_elem_of_lookup_2).
  assert (forward_ok (l + 1) st) as Hskip.
  { split; [done|]. eapply Forall_impl; [exact Hsets|]. intros s (s0 & m & -> & Hs). exists s0, m.
    split; [done|]. eapply set_ok_mono; [|done]. lia. }
  unfold forward_step. rewrite (proj2 (vec_at_nat need l x) Hl). cbn [mbind Result_bind].
  destruct (is_while x) eqn:Hw; [by exists st|].
  assert (exists s0, current_fusion_set st x = OK (s0 ++ [x]) /\ (set_ok l s0 x /\ is_Some (fusion_sets st !! x) \/ s0 = [] /\ fusion_sets st !! x = None)) as (s0 & Hcur & Hs0).
  { unfold current_fusion_set. destruct (fusion_sets st !! x) as [k|] eqn:Hk; [|by exists []; auto].
    destruct (tk_fusion _ Htab x k Hk) as (s & Hs & Hin). rewrite Hs. cbn.
    destruct (visited_last l st k s x Hok Hs Hin) as (s0 & -> & Hso); [rewrite (pos_lookup l x Hl); lia|].
    exists s0. split; [done|]. left. split; [done|by eexists]. }
  rewrite Hcur. cbn [mbind Result_bind].
  destruct (find_match_spec (FusionMatch_ x) (fun rhs => forallb (fun c => negb (ExecutesBefore c rhs)) (reverse (s0 ++ [x])))
    (drop (Z.to_nat (Z.of_nat l) + 1) need)) as (r & -> & Hr).
  { intros y Hy. apply match_total; [done|]. apply list_elem_of_lookup in Hy as [j Hj]. rewrite lookup_drop in Hj.
    by eapply list_elem_of_lookup_2. }
  cbn [mbind Result_bind]. destruct r as [y|]; [|by exists st].
  destruct (Hr y eq_refl) as (l1 & l2 & Hdrop & Hm & Hl1). rewrite Nat2Z.id in Hdrop.
  assert (need !! (l + 1 + length l1)%nat = Some y) as Hyl by (rewrite <- lookup_drop, Hdrop; by apply list_lookup_middle).
  assert (y ∈ need) as Hy by (by eapply list_elem_of_lookup_2). pose proof (pos_lookup _ _ Hyl) as Hpy.
  pose proof (pos_lookup _ _ Hl) as Hpx.
  assert (set_ok (l + 1) (s0 ++ [x]) y) as Hpush.
  { apply (set_ok_push l s0 x y l1 l2 Hl); [destruct Hs0 as [[? _]|[? _]]; auto|done|done|].
    intros z Hz. destruct (Hl1 z Hz) as [Hz1 Hz2]. split; [done|]. intros c Hc. rewrite forallb_forall in Hz2.
    specialize (Hz2 c ltac:(apply list_elem_of_In; by apply elem_of_reverse)). by destruct (ExecutesBefore c z). }
  (* the match has no set yet *)
  assert (fusion_sets st !! y = None) as Hfy.
  { destruct (fusion_sets st !! y) as [k|] eqn:Hk; [|done]. exfalso.
    destruct (tk_fusion _ Htab y k Hk) as (s & Hs & Hin).
    destruct (visited_last l st k s y Hok Hs Hin ltac:(lia)) as (t0 & -> & Ht).
    destruct t0 as [|p t0]; [by apply (so_many _ _ _ Ht)|].
    destruct (so_before _ _ _ Ht p ltac:(by left)) as [Hp1 Hp2].
    assert (x ∈ p :: t0) as Hxt.
    { apply (so_runs _ _ _ Ht p x); [by left|done|lia|]. eapply match_trans; [apply (so_matches _ _ _ Ht p); by left|by apply match_sym]. }
    destruct (so_before _ _ _ Ht x Hxt). lia. }
  rewrite Hfy, bool_decide_eq_false_2 by (by intros []).
  destruct (set_of x st) as [k st1] eqn:Hset. destruct (set_of_spec x st k st1 Htab Hx Hset) as (Htab1 & Hk1 & Hne & Hkeep & Hcase).
  assert (y <> x) as Hyx by (intros ->; lia). assert (fusion_sets st1 !! y = None) as Hfy1 by (by rewrite Hne).
  assert (sets st1 !! k = Some (s0 ++ [x])) as Hsk.
  { destruct Hcase as [[Hfx ->]|(Hfx & -> & Hst1)].
    - unfold current_fusion_set in Hcur. rewrite Hfx in Hcur. destruct (sets st !! k) as [s|]; [|done]. by injection Hcur as ->.
    - rewrite Hst1. destruct Hs0 as [[_ [? He]]|[-> _]]; [by rewrite Hfx in He|]. by apply list_lookup_middle. }
  destruct (push_call_ok k y st1 _ Htab1 Hy Hsk Hfy1) as (Htab2 & Hk2 & Hj2).
  exists (push_call k y st1). split; [done|]. split; [done|]. apply Forall_lookup. intros j s Hjs.
  destruct (decide (j = k)) as [->|Hjk].
  - rewrite Hk2 in Hjs. injection Hjs as <-. by exists (s0 ++ [x]), y.
  - rewrite Hj2 in Hjs by done. destruct Hskip as [_ Hskip]. enough (sets st !! j = Some s) as Hj by exact (Forall_lookup_1 _ _ _ _ Hskip Hj).
    destruct Hcase as [[_ ->]|(_ & -> & Hst1)]; [done|]. rewrite Hst1 in Hjs.
    apply lookup_app_Some in Hjs as [Hjs|[Hge Hjs]]; [done|]. apply list_lookup_singleton_Some in Hjs as [? _]. lia.
Qed.

Lemma forward_sets_spec : exists st, forward_sets FusionMatch_ ExecutesBefore is_while need = OK st /\ forward_ok (length need) st.
Proof.
  unfold forward_sets. destruct (foldM_total (fun done_ st => forward_ok (length done_) st)
    (forward_step FusionMatch_ ExecutesBefore is_while need) no_sets (seqZ 0 (Zlength need))) as (st & Hrun & Hst).
  - split; [apply table_ok_empty|constructor].
  - intros done_ l rest st Heq Hok. assert (seqZ 0 (Zlength need) !! length done_ = Some l) as Hl by (rewrite Heq; by apply list_lookup_middle).
    apply lookup_seqZ in Hl as [-> Hlt]. unfold Zlength in Hlt.
    destruct (lookup_lt_is_Some_2 need (length done_)) as [x Hx]; [lia|].
    destruct (forward_step_ok (length done_) st x Hok Hx) as (st' & Hst' & Hok'). exists st'.
    rewrite Z.add_0_l. split; [exact Hst'|]. by rewrite length_app.
  - exists st. split; [done|]. rewrite length_seqZ in Hst. unfold Zlength in Hst. by rewrite Nat2Z.id in Hst.
Qed.

(** Calls of a set match; there is a rank of the calls which is the same within a set, and
    every dependence leads to the same set or to a higher rank. *)
Lemma forward_acyclic :
  (forall x y, x ∈ need -> y ∈ need -> ExecutesBefore x y = true -> (pos x < pos y)%nat) ->
  exists st, forward_sets FusionMatch_ ExecutesBefore is_while need = OK st /\
    (forall s, s ∈ sets st -> (2 <= length s)%nat /\ forall x y, x ∈ s -> y ∈ s -> x <> y -> matches x y) /\
    exists rank : I -> nat,
      (forall s x y, s ∈ sets st -> x ∈ s -> y ∈ s -> rank x = rank y) /\
      (forall x y, x ∈ need -> y ∈ need -> ExecutesBefore x y = true ->
         (exists s, s ∈ sets st /\ x ∈ s /\ y ∈ s) \/ (rank x < rank y)%nat).
Proof.
  intros Horder. destruct forward_sets_spec as (st & Hst & Htab & Hsets). exists st. split; [done|].
  assert (forall k s, sets st !! k = Some s -> exists s0 m, s = s0 ++ [m] /\ set_ok (length need) s0 m) as Hs
    by (intros k s Hk; by apply (Forall_lookup_1 _ _ _ _ Hsets Hk)).
  split.
  { intros s [k Hk]%list_elem_of_lookup. destruct (Hs k s Hk) as (s0 & m & -> & Hok). split.
    - rewrite length_app. pose proof (so_many _ _ _ Hok). destruct s0; [done|cbn; lia].
    - intros x y [Hx| ->%list_elem_of_singleton]%elem_of_app [Hy| ->%list_elem_of_singleton]%elem_of_app Hne; try done;
        [|by apply (so_matches _ _ _ Hok)|by apply match_sym, (so_matches _ _ _ Hok)].
      eapply match_trans; [by apply (so_matches _ _ _ Hok)|by apply match_sym, (so_matches _ _ _ Hok)]. }
  set (rank x := match fusion_sets st !! x with
    | Some k => match sets st !! k with Some s => pos (default x (last s)) | None => 0%nat end | None => pos x end).
  assert (forall k s0 m x, sets st !! k = Some (s0 ++ [m]) -> x ∈ s0 ++ [m] -> rank x = pos m) as Hrank.
  { intros k s0 m x Hk Hx. unfold rank. rewrite (tk_sets _ Htab k _ x Hk Hx), Hk, last_snoc. done. }
  assert (forall x, x ∈ need -> (pos x <= rank x)%nat) as Hle.
  { intros x Hx. unfold rank. destruct (fusion_sets st !! x) as [k|] eqn:Hk; [|done].
    destruct (tk_fusion _ Htab x k Hk) as (s & Hsk & Hin). destruct (Hs k s Hsk) as (s0 & m & -> & Hok).
    rewrite Hsk, last_snoc. cbn. apply elem_of_app in Hin as [Hin| ->%list_elem_of_singleton]; [|done].
    destruct (so_before _ _ _ Hok x Hin). lia. }
  exists rank. split.
  - intros s x y [k Hk]%list_elem_of_lookup Hx Hy. destruct (Hs k s Hk) as (s0 & m & -> & _).
    by rewrite (Hrank k s0 m x Hk Hx), (Hrank k s0 m y Hk Hy).
  - intros x y Hx Hy Hxy. pose proof (Horder x y Hx Hy Hxy) as Hlt. pose proof (Hle y Hy).
    destruct (fusion_sets st !! x) as [k|] eqn:Hk; [|right; unfold rank at 1; rewrite Hk; lia].
    destruct (tk_fusion _ Htab x k Hk) as (s & Hsk & Hin). destruct (Hs k s Hsk) as (s0 & m & -> & Hok).
    rewrite (Hrank k s0 m x Hsk Hin).
    destruct (decide (y ∈ s0 ++ [m])) as [Hyin|Hyn]; [left; exists (s0 ++ [m]); split; [by eapply list_elem_of_lookup_2|done]|right].
    enough (pos m < pos y)%nat by lia. destruct (decide (pos y < pos m)%nat) as [Hym|].
    + exfalso. apply elem_of_app in Hin as [Hin| ->%list_elem_of_singleton]; [|lia].
      rewrite (so_safe _ _ _ Hok x y Hin Hy) in Hxy; [done|lia|]. intros Hi. apply Hyn, elem_of_app. by left.
    + destruct (decide (pos y = pos m)) as [He|]; [|lia]. exfalso. apply Hyn, elem_of_app. right.
      assert (m ∈ need) as Hm by (pose proof (Forall_lookup_1 _ _ _ _ (tk_need _ Htab) Hsk) as Hn; rewrite Forall_forall in Hn; apply Hn, elem_of_app; right; by left).
      apply lookup_pos in Hy, Hm. rewrite He, Hm in Hy. injection Hy as <-. by left.
Qed.

(** ** Both passes: a set of at least two calls *)

(** [r]: the calls that are alone in their sets are before position [r]. *)
Record sets_ok (r : nat) st : Prop := {
  ss_table : table_ok st;
  ss_alone : forall k s, sets st !! k = Some s -> s <> [] /\ (length s = 1%nat -> forall x, x ∈ s -> (pos x < r)%nat);
  ss_pair : sets st = [] \/ exists s, s ∈ sets st /\ (2 <= length s)%nat;
}.

Lemma sets_ok_empty : sets_ok 0 no_sets.
Proof. split; [apply table_ok_empty|done|by left]. Qed.

Lemma sets_ok_mono r r' st : (r <= r')%nat -> sets_ok r st -> sets_ok r' st.
Proof.
  intros Hr [H1 H2 H3]. split; [done| |done]. intros k s Hk. destruct (H2 k s Hk) as [? Hs]. split; [done|].
  intros Hl x Hx. specialize (Hs Hl x Hx). lia.
Qed.

Lemma find_match_in (m : I -> Result bool) reorder l y : find_match m reorder l = OK (Some y) -> y ∈ l.
Proof.
  induction l as [|x l IH]; cbn; [done|]. intros (b & _ & Hrun)%Result_bind_OK. destruct b; [injection Hrun as ->; by left|].
  destruct (reorder x); [|done]. right. by apply IH.
Qed.

Lemma sets_ok_push r st x y k st1 : sets_ok r st -> x ∈ need -> y ∈ need -> x <> y -> fusion_sets st !! y = None ->
  set_of x st = (k, st1) -> sets_ok r (push_call k y st1).
Proof.
  intros [Htab Hal Hp] Hx Hy Hxy Hfy Hset. destruct (set_of_spec x st k st1 Htab Hx Hset) as (Htab1 & Hk1 & Hne & Hkeep & Hcase).
  destruct (tk_fusion _ Htab1 x k Hk1) as (s & Hs & Hin). assert (fusion_sets st1 !! y = None) as Hfy1 by (rewrite Hne by congruence; done).
  destruct (push_call_ok k y st1 s Htab1 Hy Hs Hfy1) as (Htab2 & Hk2 & Hj2).
  assert (1 <= length s)%nat as Hls by (destruct s; [by apply elem_of_nil in Hin|cbn; lia]).
  split; [done| |].
  - intros j s' Hj. destruct (decide (j = k)) as [->|Hjk].
    + rewrite Hk2 in Hj. injection Hj as <-. rewrite length_app. cbn. split; [by destruct s|lia].
    + rewrite Hj2 in Hj by done. apply (Hal j). destruct Hcase as [[_ ->]|(_ & -> & Hst1)]; [done|]. rewrite Hst1 in Hj.
      apply lookup_app_Some in Hj as [Hj|[Hge Hj]]; [done|]. apply list_lookup_singleton_Some in Hj as [? _]. lia.
  - right. exists (s ++ [y]). split; [by eapply list_elem_of_lookup_2|]. rewrite length_app. cbn. lia.
Qed.

Lemma forward_step_sets (l : Z) st st' : forward_step FusionMatch_ ExecutesBefore is_while need st l = OK st' -> sets_ok 0 st -> sets_ok 0 st'.
Proof.
  unfold forward_step. intros (x & [Hl Hx]%vec_at_lookup & Hrun)%Result_bind_OK Hok. destruct (is_while x); [by injection Hrun as <-|].
  apply Result_bind_OK in Hrun as (cur & _ & Hrun). apply Result_bind_OK in Hrun as ([y|] & Hm & Hrun); [|by injection Hrun as <-].
  case_bool_decide as Hn; [done|]. destruct (set_of x st) as [k st1] eqn:Hset. injection Hrun as <-.
  apply find_match_in, list_elem_of_lookup in Hm as [j Hj]. rewrite lookup_drop in Hj.
  eapply (sets_ok_push 0 st x y); [done|by eapply list_elem_of_lookup_2|by eapply list_elem_of_lookup_2| | |exact Hset].
  - intros ->. apply pos_lookup in Hj, Hx. lia.
  - destruct (fusion_sets st !! y); [|done]. by destruct Hn.
Qed.

Lemma backward_step_sets (r : nat) st st' : backward_step FusionMatch_ ExecutesBefore is_while need st (Z.of_nat r) = OK st' ->
  sets_ok r st -> sets_ok (r + 1) st'.
Proof.
  unfold backward_step. intros (x & Hx%vec_at_nat & Hrun)%Result_bind_OK Hok.
  assert (sets_ok (r + 1) st) as Hok' by (eapply sets_ok_mono; [|done]; lia). destruct (is_while x); [by injection Hrun as <-|].
  apply Result_bind_OK in Hrun as (cur & _ & Hrun). apply Result_bind_OK in Hrun as ([y|] & Hm & Hrun); [|by injection Hrun as <-].
  destruct (set_of y st) as [k st1] eqn:Hset. injection Hrun as <-.
  apply find_match_in in Hm. rewrite elem_of_reverse in Hm. apply list_elem_of_lookup in Hm as [j Hj].
  apply lookup_take_Some in Hj as [Hj Hjr]. rewrite Nat2Z.id in Hjr.
  assert (y ∈ need) as Hyn by (by eapply list_elem_of_lookup_2). assert (x ∈ need) as Hxn by (by eapply list_elem_of_lookup_2).
  assert (y <> x) as Hyx by (intros ->; apply pos_lookup in Hj, Hx; lia).
  destruct (set_of_spec y st k st1 (ss_table _ _ Hok) Hyn Hset) as (Htab1 & Hk1 & Hne & Hkeep & Hcase).
  case_bool_decide as Hfx.
  - (* the call has a set, of at least two calls *)
    rewrite Hne in Hfx by congruence. destruct Hfx as [kx Hkx].
    destruct (tk_fusion _ (ss_table _ _ Hok) x kx Hkx) as (s & Hs & Hin). destruct (ss_alone _ _ Hok kx s Hs) as [Hnil Hal].
    split; [done| |right; exists s; split].
    + intros j' s' Hj'. destruct Hcase as [[_ ->]|(_ & -> & Hst1)]; [exact (ss_alone _ _ Hok' _ _ Hj')|]. rewrite Hst1 in Hj'.
      apply lookup_app_Some in Hj' as [Hj'|[_ Hj']]; [exact (ss_alone _ _ Hok' _ _ Hj')|].
      apply list_lookup_singleton_Some in Hj' as [_ <-]. split; [done|]. intros _ z ->%list_elem_of_singleton. rewrite (pos_lookup _ _ Hj). lia.
    + eapply list_elem_of_lookup_2. by apply Hkeep.
    + destruct s as [|a [|b s]]; cbn; try lia; [done|]. specialize (Hal eq_refl x Hin). rewrite (pos_lookup _ _ Hx) in Hal. lia.
  - eapply (sets_ok_push (r + 1) st y x); [done|done|done|done| |exact Hset].
    rewrite Hne in Hfx by congruence. destruct (fusion_sets st !! x); [|done]. by destruct Hfx.
Qed.

Lemma find_sets_pair st : find_sets FusionMatch_ ExecutesBefore is_while need = OK st ->
  table_ok st /\ Forall (fun s => s <> []) (sets st) /\ (fusion_sets st <> ∅ -> exists s, s ∈ sets st /\ (2 <= length s)%nat).
Proof.
  unfold find_sets, forward_sets. intros (st1 & H1 & H2)%Result_bind_OK.
  apply (foldM_inv (fun _ => sets_ok 0)) in H1; [|apply sets_ok_empty|intros _ l _ s s' _ Hs Hl; by eapply forward_step_sets].
  apply (foldM_inv (fun done_ => sets_ok (length done_))) in H2; [|done|].
  - split; [by apply (ss_table _ _ H2)|]. split.
    + apply Forall_lookup. intros k s Hk. by apply (ss_alone _ _ H2) in Hk as [? _].
    + intros Hne. destruct (ss_pair _ _ H2) as [Hnil|]; [|done]. exfalso. apply Hne. apply map_empty. intros x.
      destruct (fusion_sets st !! x) as [k|] eqn:Hk; [|done]. apply (tk_fusion _ (ss_table _ _ H2)) in Hk as (s & Hs & _).
      by rewrite Hnil in Hs.
  - intros done_ l rest s s' Heq Hs Hl. assert (seqZ 0 (Zlength need) !! length done_ = Some l) as Hz by (rewrite Heq; by apply list_lookup_middle).
    apply lookup_seqZ in Hz as [-> _]. rewrite Z.add_0_l in Hl. rewrite length_app. by eapply backward_step_sets.
Qed.
End sets.
