(* ===== verification/FusionVisit.v ===== *)
(** * The rounds of the fusion pass (mpmd_computation_fusion.cc)

    [Visit] ends after at most one round more than there are calls.  A sample of four
    calls in two colors, on which the sets of the two passes depend on each other. *)
From S2P Require Import Prelude Hlo Json Instruction Partition ColorDfs Grouper Fusion FusionSets.
Local Open Scope Z_scope.

(** ** Code without loops returns *)

Lemma returns_of_option {A} k (o : option A) : k <> Diverges -> returns (of_option k o).
Proof. intros Hk. unfold returns. destruct o; cbn; congruence. Qed.

Lemma returns_mapM {A B} (f : A -> Result B) l : (forall x, returns (f x)) -> returns (mapM_Result f l).
Proof. intros Hf. apply returns_foldM. intros s x _. apply returns_bind; [apply Hf|done]. Qed.
#[export] Hint Resolve returns_of_option returns_mapM : returns.

(** Decomposes straight-line code. *)
Ltac returns_code :=
  repeat first
    [ progress intros
    | apply returns_bind
    | apply returns_foldM
    | apply returns_vec_at
    | apply returns_mapM
    | apply returns_of_option; done
    | done
    | case_match ].

Section fuse.
Context {I C : Type} `{EqDecision I, !Countable I, !EqDecision C} `{!Hlo I C, !HloControl I C}.

Lemma FuseCalls_returns (calls : list I) (comp : option C) : returns (FuseCalls calls comp).
Proof.
  unfold FuseCalls, new_computation, collect_control, outside_dependency, remove_call, remove_user, add_call, add_operand,
    add_output, add_parameter, clone_call, clone_instruction, clone_result, clone_operand, fused_root, operand, called_computation.
  returns_code.
Qed.
End fuse.

(** ** The rounds *)

Section visit.
Context {D : Type} `{Countable D, !DeviceListApi D}.
Context {I C St G : Type} `{EqDecision I, !Countable I, !EqDecision C} `{!AttrStore I St}.
Context (hlo : G -> Hlo I C) (control : G -> HloControl I C) (attributes : G -> St).
Context (ordering : G -> I -> I -> bool) (apply_ : C -> FusedCall I C -> G -> G).
Context (partition : HloPartition D) (type_ : FusionType).
Implicit Types (g : G) (c : C).
Abbreviation visit_round := (visit_round hlo control attributes ordering apply_ partition type_).
Abbreviation Visit := (Visit hlo control attributes ordering apply_ partition type_).

Lemma FuseCalls_calls `{!Hlo I C, !HloControl I C} (calls : list I) comp f : FuseCalls calls comp = OK f -> fused_calls f = calls.
Proof.
  unfold FuseCalls. destruct calls as [|x calls]; [done|]. destruct (negb _); [done|].
  intros (ctl & _ & Hrun)%Result_bind_OK. apply Result_bind_OK in Hrun as (n & _ & Hrun).
  apply Result_bind_OK in Hrun as (b & _ & Hrun). by apply Result_bind_OK in Hrun as (? & _ & [= <-]).
Qed.

(** The graphs are HLO graphs; the fuel is enough for their color-sorted orders. *)
Context (postorder_laws : forall g, @PostOrderLaws I C (hlo g)) (acyclic_laws : forall g, @AcyclicLaws I C (hlo g)).
Context (users_laws : forall g, @UsersLaws I C (hlo g)).
Context (wf : forall g, @well_formed I C (hlo g)) (elements : forall g, @elements_only I C (hlo g)).
Context (c : C) (dfs_fuel : nat) (dfs_fuel_enough : forall g, (@enough_fuel I C (hlo g) c <= dfs_fuel)%nat).

Lemma calls_of_OK g : exists l, calls_of hlo attributes dfs_fuel c g = OK l /\ NoDup l.
Proof.
  destruct (@ColorSortedPostorder_order I C St _ _ (hlo g) _ (postorder_laws g) (acyclic_laws g) (users_laws g)
    (attributes g) c dfs_fuel (wf g) (elements g) (dfs_fuel_enough g)) as (l & Hl & Hord).
  unfold calls_of. rewrite Hl. cbn. eexists. split; [done|]. apply NoDup_filter, Hord.
Qed.

(** The calls and loops that are listed.  Applying the edits of [FuseCalls] replaces the
    fused calls by one call. *)
Definition tasks g : gset I :=
  match calls_of hlo attributes dfs_fuel c g with OK l => list_to_set l | _ => ∅ end.
Context (apply_fuses : forall f g, list_to_set (fused_calls f) ⊆ tasks g ->
  exists new, tasks (apply_ c f g) = {[new]} ∪ (tasks g ∖ list_to_set (fused_calls f))).

Lemma fuse_set_tasks need g calls g' : fuse_set hlo control apply_ c need g calls = OK g' ->
  NoDup calls -> list_to_set calls ⊆ tasks g ->
  (size (tasks g') + length calls <= size (tasks g) + 1)%nat /\ tasks g ∖ list_to_set calls ⊆ tasks g'.
Proof.
  intros (f & Hf & [= <-])%Result_bind_OK Hnd Hin. apply FuseCalls_calls in Hf.
  assert (list_to_set (C := gset I) (fused_calls f) = list_to_set calls) as Hset.
  { rewrite Hf. unfold sort_set. apply list_to_set_perm_L, stable_sort_Permutation. }
  destruct (apply_fuses f g) as [new Hnew]; [by rewrite Hset|]. rewrite Hset in Hnew. rewrite Hnew. split; [|set_solver].
  assert (size (list_to_set (C := gset I) calls) = length calls) as Hsize by (by apply size_list_to_set).
  pose proof (size_difference (tasks g) (list_to_set calls) Hin) as Hd. pose proof (subseteq_size _ _ Hin).
  pose proof (size_union_alt {[new]} (tasks g ∖ list_to_set (C := gset I) calls)) as Hu. rewrite size_singleton in Hu.
  pose proof (subseteq_size (tasks g ∖ list_to_set (C := gset I) calls ∖ {[new]}) (tasks g ∖ list_to_set (C := gset I) calls) ltac:(set_solver)). lia.
Qed.

Lemma fuse_sets_tasks need (l : list (list I)) g g' : foldM (fuse_set hlo control apply_ c need) g l = OK g' ->
  Forall (fun s => s <> []) l -> NoDup (concat l) -> list_to_set (concat l) ⊆ tasks g ->
  (size (tasks g') <= size (tasks g))%nat /\
  ((exists s, s ∈ l /\ (2 <= length s)%nat) -> (size (tasks g') < size (tasks g))%nat).
Proof.
  revert g. induction l as [|s l IH]; intros g; cbn [foldM concat].
  - intros [= <-] _ _ _. split; [done|]. intros (s & Hs & _). by apply elem_of_nil in Hs.
  - intros (g1 & H1 & Hrun)%Result_bind_OK [Hs Hl]%Forall_cons (Hnd1 & Hdis & Hnd2)%NoDup_app Hin.
    destruct (fuse_set_tasks need g s g1 H1 Hnd1) as [Hsize Hkeep]; [set_solver|].
    destruct (IH g1 Hrun Hl Hnd2) as [Hle Hlt].
    { intros x Hx. apply Hkeep, elem_of_difference. split; [set_solver|]. rewrite elem_of_list_to_set in Hx |- *.
      intros Hxs. by eapply Hdis. }
    assert (1 <= length s)%nat by (destruct s; [done|cbn; lia]). split; [lia|].
    intros (s' & [->|Hin']%elem_of_cons & H2); [lia|]. enough (size (tasks g') < size (tasks g1))%nat by lia. by apply Hlt; exists s'.
Qed.

Lemma elem_of_concat {X} (x : X) ls : x ∈ concat ls <-> exists l, x ∈ l /\ l ∈ ls.
Proof.
  rewrite list_elem_of_In, in_concat. split.
  - intros (l & Hl & Hx). exists l. by rewrite !list_elem_of_In.
  - intros (l & Hx & Hl). exists l. by rewrite !list_elem_of_In in *.
Qed.

Lemma table_concat need (st : FusionSets I) : table_ok need st -> NoDup (concat (sets st)) /\ forall x, x ∈ concat (sets st) -> x ∈ need.
Proof.
  intros [H1 _ H3 H4]. split.
  - assert (forall k0 l, (forall k s x, l !! k = Some s -> x ∈ s -> fusion_sets st !! x = Some (k0 + k)%nat) -> Forall (fun l => NoDup l) l -> NoDup (concat l)) as Hgen.
    { intros k0 l. revert k0. induction l as [|s l IH]; intros k0 Hl Hnd; cbn; [constructor|]. apply Forall_cons in Hnd as [Hs Hnd].
      apply NoDup_app. split; [done|]. split.
      - intros x Hx [s' [Hs' [k Hk]%list_elem_of_lookup]]%elem_of_concat. pose proof (Hl 0%nat s x eq_refl Hx).
        pose proof (Hl (S k) s' x Hk Hs'). congruence || (simplify_eq; lia).
      - apply (IH (S k0)); [|done]. intros k s' x Hk Hx. rewrite (Hl (S k) s' x Hk Hx). f_equal. lia. }
    by apply (Hgen 0%nat).
  - intros x [s [Hx [k Hk]%list_elem_of_lookup]]%elem_of_concat. pose proof (Forall_lookup_1 _ _ _ _ H4 Hk) as Hn.
    rewrite Forall_forall in Hn. by apply Hn.
Qed.

Lemma visit_round_tasks g g' : visit_round dfs_fuel c g = OK (true, g') -> (size (tasks g') < size (tasks g))%nat.
Proof.
  unfold Fusion.visit_round. destruct (calls_of_OK g) as (need & Hneed & Hnd). rewrite Hneed. cbn [mbind Result_bind].
  intros (st & Hst & Hrun)%Result_bind_OK.
  case_bool_decide as He; [done|]. apply Result_bind_OK in Hrun as (g1 & Hg & [= <-]).
  destruct (find_sets_pair _ _ _ need Hnd st Hst) as (Htab & Hnil & Hpair). destruct (table_concat need st Htab) as [Hcnd Hcin].
  destruct (fuse_sets_tasks _ _ _ _ Hg Hnil Hcnd) as [_ Hlt]; [|by apply Hlt, Hpair].
  intros x Hx%elem_of_list_to_set%Hcin. unfold tasks. rewrite Hneed. by apply elem_of_list_to_set.
Qed.

Lemma find_match_returns (m : I -> Result bool) reorder l : (forall x, returns (m x)) -> returns (find_match m reorder l).
Proof.
  intros Hm. induction l as [|x l IH]; cbn; [done|]. apply returns_bind; [apply Hm|]. intros b _.
  destruct b; [done|]. by destruct (reorder x).
Qed.

Lemma visit_round_returns g : returns (visit_round dfs_fuel c g).
Proof.
  unfold Fusion.visit_round. destruct (calls_of_OK g) as (need & -> & _). cbn [mbind Result_bind]. apply returns_bind.
  - assert (forall s lhs rhs, returns (@FusionMatch _ _ _ I C St _ partition type_ (hlo g) s lhs rhs)) as Hm.
    { intros s lhs rhs. unfold FusionMatch, SameMesh, color_deref, ConfigForColor. returns_code. }
    unfold find_sets, forward_sets, forward_step, backward_step, current_fusion_set.
    repeat first [apply find_match_returns; intros; apply Hm | progress returns_code].
  - intros st _. case_bool_decide; [done|]. apply returns_bind; [|done]. apply returns_foldM. intros s x _.
    apply returns_bind; [|done]. apply FuseCalls_returns.
Qed.

Lemma visit_loop_returns fuel changed g : (size (tasks g) < fuel)%nat ->
  returns (visit_loop hlo control attributes ordering apply_ partition type_ fuel dfs_fuel c changed g).
Proof.
  revert changed g. induction fuel as [|fuel IH]; intros changed g Hf; [lia|]. cbn [visit_loop].
  apply returns_bind; [apply visit_round_returns|]. intros [found g'] Hr. cbn. destruct found; [|done].
  apply IH. apply visit_round_tasks in Hr. lia.
Qed.

End visit.

(** ** The forward pass *)

Section forward.
Context {D : Type} `{Countable D, !DeviceListApi D}.
Context {I C St : Type} `{EqDecision I, !Countable I} `{!AttrStore I St, !Hlo I C}.
Context (partition : HloPartition D) (type_ : FusionType) (s : St).
Abbreviation match_ := (FusionMatch (I := I) (C := C) partition type_ s).

Lemma FusionMatch_true x y : match_ x y = OK true ->
  opcode x <> kWhile /\ opcode y <> kWhile /\
  exists cx cy, Color s x = Some cx /\ Color s y = Some cy /\
    match type_ with
    | kMatchingColor => cx = cy
    | kOriginalColor => OriginalColor partition cx = OriginalColor partition cy
    | kMatchingDevices => exists l r, ConfigForColor partition cx = OK l /\ ConfigForColor partition cy = OK r /\
        cc_devices l = cc_devices r /\ to_loop_dependent_devices (cc_task_options l) = None /\
        to_loop_dependent_devices (cc_task_options r) = None
    end.
Proof.
  unfold FusionMatch, SameMesh, color_deref. intros Hm. destruct (bool_decide (opcode x = kWhile)) eqn:Hx; [done|].
  destruct (bool_decide (opcode y = kWhile)) eqn:Hy; [done|].
  apply bool_decide_eq_false in Hx, Hy. split; [done|]. split; [done|]. cbn in Hm.
  destruct type_, (Color s x) as [cx|], (Color s y) as [cy|]; cbn in Hm; try done; exists cx, cy; split_and!; try done.
  - apply Result_bind_OK in Hm as (l & Hl & Hm). apply Result_bind_OK in Hm as (r & Hr & Hm). exists l, r.
    case_bool_decide as Hd; [done|]. destruct (to_loop_dependent_devices (cc_task_options l)); [by destruct (to_loop_dependent_devices (cc_task_options r))|].
    destruct (to_loop_dependent_devices (cc_task_options r)); [done|]. by split_and!.
  - injection Hm as Hm. by apply bool_decide_eq_true in Hm.
  - injection Hm as Hm. by apply bool_decide_eq_true in Hm.
Qed.

Lemma FusionMatch_sym x y : match_ x y = OK true -> match_ y x = OK true.
Proof.
  intros (Hx & Hy & cx & cy & Hcx & Hcy & Hm)%FusionMatch_true. unfold FusionMatch, SameMesh, color_deref.
  rewrite !bool_decide_eq_false_2, Hcx, Hcy by done. cbn. destruct type_.
  - destruct Hm as (l & r & -> & -> & Hd & Hl & Hr). cbn. rewrite bool_decide_eq_false_2 by (intros Hn; by apply Hn). by rewrite Hl, Hr.
  - by rewrite bool_decide_eq_true_2.
  - by rewrite bool_decide_eq_true_2.
Qed.

Lemma FusionMatch_trans x y z : match_ x y = OK true -> match_ y z = OK true -> match_ x z = OK true.
Proof.
  intros (Hx & Hy & cx & cy & Hcx & Hcy & Hm)%FusionMatch_true (_ & Hz & cy' & cz & Hcy' & Hcz & Hm')%FusionMatch_true.
  rewrite Hcy in Hcy'. injection Hcy' as <-. unfold FusionMatch, SameMesh, color_deref.
  rewrite !bool_decide_eq_false_2, Hcx, Hcz by done. cbn. destruct type_.
  - destruct Hm as (l & r & -> & Hcr & Hd & Hl & Hr). destruct Hm' as (l' & r' & Hl' & -> & Hd' & Hll & Hrr). cbn.
    rewrite Hcr in Hl'. injection Hl' as <-. rewrite bool_decide_eq_false_2 by (intros Hn; apply Hn; congruence). by rewrite Hl, Hrr.
  - rewrite bool_decide_eq_true_2; congruence.
  - rewrite bool_decide_eq_true_2; congruence.
Qed.

(** C29: The forward pass always finds sets, without the error it checks for.  Calls of a set
    match.  All sets can be fused at once: there is a rank of the calls which is the same
    within a set, and every dependence leads to the same set or to a higher rank. *)
Theorem forward_sets_acyclic (ExecutesBefore : I -> I -> bool) (need : list I) :
  NoDup need ->
  (forall x y, x ∈ need -> y ∈ need -> exists b, match_ x y = OK b) ->
  (forall i j x y, need !! i = Some x -> need !! j = Some y -> ExecutesBefore x y = true -> (i < j)%nat) ->
  exists st, forward_sets match_ ExecutesBefore (fun i => bool_decide (opcode i = kWhile)) need = OK st /\
    (forall l, l ∈ sets st -> (2 <= length l)%nat /\ forall x y, x ∈ l -> y ∈ l -> x <> y -> match_ x y = OK true) /\
    exists rank : I -> nat,
      (forall l x y, l ∈ sets st -> x ∈ l -> y ∈ l -> rank x = rank y) /\
      (forall x y, x ∈ need -> y ∈ need -> ExecutesBefore x y = true ->
         (exists l, l ∈ sets st /\ x ∈ l /\ y ∈ l) \/ (rank x < rank y)%nat).
Proof.
  intros Hnd Htot Hord. apply forward_acyclic; [done|done|apply FusionMatch_sym|apply FusionMatch_trans|].
  intros x y Hx%lookup_pos Hy%lookup_pos Hxy; [|done..]. by eapply Hord.
Qed.
End forward.

(** ** A sample

    The calls 13 and 17 have the color [a], 15 and 19 the color [b]; 17 uses the result 16
    of 15, and 19 the result 14 of 13. *)
Module FusionSample.
Definition call (o c : nat) : Graph.node := Graph.Node kCall [o] 0 [c] "" "" true 1 false.
Definition gte (o : nat) : Graph.node := Graph.op kGetTupleElement [o].
Definition param : Graph.node := Graph.op kParameter [].
Definition body (p : nat) : list Graph.node := [param; Graph.op kNegate [p]; Graph.op kTuple [p + 1]]%nat.
Definition nodes : list Graph.node :=
  (param :: body 1 ++ body 4 ++ body 7 ++ body 10 ++
  [call 0 0; gte 13; call 0 1; gte 15; call 16 2; gte 17; call 14 3; gte 19; Graph.op kTuple [20; 18; 14]])%nat.
Definition comps : list Graph.comp :=
  [Graph.Comp 3 [1] [1; 2; 3]; Graph.Comp 6 [4] [4; 5; 6]; Graph.Comp 9 [7] [7; 8; 9]; Graph.Comp 12 [10] [10; 11; 12];
   Graph.Comp 21 [0] [0; 13; 14; 15; 16; 17; 18; 19; 20; 21]]%nat.
#[global] Instance hlo : Hlo nat nat := Graph.hlo nodes comps.
#[global] Instance control : HloControl nat nat := {
  parent i := (if decide (i ∈ [1; 2; 3]) then 0 else if decide (i ∈ [4; 5; 6]) then 1 else if decide (i ∈ [7; 8; 9]) then 2
    else if decide (i ∈ [10; 11; 12]) then 3 else 4)%nat;
  control_predecessors _ := [];
  control_successors _ := [];
}.
Definition colors : AttrMap.t :=
  AssignColor 13%nat "a" (AssignColor 17%nat "a" (AssignColor 15%nat "b" (AssignColor 19%nat "b" ∅))).
Definition partition : HloPartition Slice.t := Create (Slice.mk 0 8).

(** [x] is among the operands of [y], or of their operands. *)
Fixpoint depends (fuel : nat) (y x : nat) : bool :=
  match fuel with
  | O => false
  | S fuel => existsb (fun o => bool_decide (o = x) || depends fuel o x) (operands y)
  end.
Definition ordering (x y : nat) : bool := depends 22 y x.
Definition match_ : nat -> nat -> Result bool := FusionMatch (C := nat) partition kMatchingColor colors.
Definition calls : list nat := [13; 15; 17; 19]%nat.
Definition is_while (i : nat) : bool := bool_decide (opcode i = kWhile).
End FusionSample.

(** The sets of the two passes together can depend on each other: each takes a result of
    the other, and when both are fused the graph has a cycle. *)
Theorem fused_sets_depend_on_each_other :
  calls_of (fun _ : unit => FusionSample.hlo) (fun _ => FusionSample.colors) 200 4%nat () = OK FusionSample.calls /\
  exists st f1 f2, find_sets FusionSample.match_ FusionSample.ordering FusionSample.is_while FusionSample.calls = OK st /\
    sets st = [[13; 17]; [15; 19]]%nat /\
    FuseCalls (C := nat) [13; 17]%nat None = OK f1 /\ FuseCalls (C := nat) [15; 19]%nat None = OK f2 /\
    16%nat ∈ fused_operands f1 /\ 16%nat ∈ fused_outputs f2 /\
    14%nat ∈ fused_operands f2 /\ 14%nat ∈ fused_outputs f1.
Proof.
  split; [by vm_compute|].
  destruct (find_sets FusionSample.match_ FusionSample.ordering FusionSample.is_while FusionSample.calls) as [st| |] eqn:Hst;
    [|vm_compute in Hst; discriminate Hst..].
  vm_compute in Hst. injection Hst as <-.
  destruct (FuseCalls [13; 17]%nat None) as [f1| |] eqn:H1; [|vm_compute in H1; discriminate H1..].
  destruct (FuseCalls [15; 19]%nat None) as [f2| |] eqn:H2; [|vm_compute in H2; discriminate H2..].
  vm_compute in H1, H2. injection H1 as <-. injection H2 as <-.
  do 3 eexists. split_and!; try done; cbn; set_solver.
Qed.

(** The calls of the sample, on the forward pass. *)
Lemma forward_sets_acyclic_witness :
  exists st, forward_sets (FusionMatch (C := nat) FusionSample.partition kMatchingColor FusionSample.colors)
      FusionSample.ordering (fun i => bool_decide (opcode i = kWhile)) FusionSample.calls = OK st /\
    exists rank : nat -> nat, (exists l, l ∈ sets st /\ 13%nat ∈ l /\ 19%nat ∈ l) \/ (rank 13 < rank 19)%nat.
Proof.
  destruct (forward_sets_acyclic FusionSample.partition kMatchingColor FusionSample.colors FusionSample.ordering FusionSample.calls)
    as (st & Hst & _ & rank & _ & Hrank).
  - apply (bool_decide_unpack _). by vm_compute.
  - intros x y Hx Hy. unfold FusionSample.calls in *. 
    repeat (apply elem_of_cons in Hx as [->|Hx]; [|]); try (by apply elem_of_nil in Hx);
    repeat (apply elem_of_cons in Hy as [->|Hy]; [|]); try (by apply elem_of_nil in Hy); eexists; by vm_compute.
  - intros i j x y Hi Hj. do 4 (destruct i as [|i]; [injection Hi as <-; do 4 (destruct j as [|j]; [injection Hj as <-; vm_compute; lia || (intros; lia) |]); done|]). done.
  - exists st. split; [exact Hst|]. exists rank. apply Hrank; [by left| |by vm_compute]. do 3 right. by left.
Defined.

(** Two modules: one with two calls of one color, and one with a single call in their
    place, which is what fusing both of them leads to. *)
Module VisitSample.
Definition two : list Graph.node :=
  (FusionSample.param :: FusionSample.body 1 ++ [FusionSample.call 0 0; FusionSample.call 0 0; Graph.op kTuple [4; 5]])%nat.
Definition one : list Graph.node :=
  (FusionSample.param :: FusionSample.body 1 ++ [FusionSample.call 0 0; FusionSample.param; Graph.op kTuple [4; 4]])%nat.
Definition nodes (g : bool) : list Graph.node := if g then two else one.
Definition comps (g : bool) : list Graph.comp :=
  [Graph.Comp 3 [1] [1; 2; 3]; Graph.Comp 6 [0] (if g then [0; 4; 5; 6] else [0; 4; 6])]%nat.
Definition hlo (g : bool) : Hlo nat nat := Graph.hlo (nodes g) (comps g).
Definition colors (_ : bool) : AttrMap.t := AssignColor 4%nat "a" (AssignColor 5%nat "a" ∅).
Definition ordering (g : bool) (x y : nat) : bool := false.
Definition apply_ (_ : nat) (f : FusedCall nat nat) (g : bool) : bool :=
  if bool_decide (4%nat ∈ fused_calls f /\ 5%nat ∈ fused_calls f) then false else g.
Abbreviation tasks := (tasks hlo colors 1%nat 200).

Lemma no_elements g (i : nat) : @opcode nat nat (hlo g) i <> kGetTupleElement.
Proof. destruct g; cbn; do 7 (destruct i as [|i]; [done|]); by destruct i. Qed.
Lemma graph_ok g : Graph.graph_ok (nodes g) (comps g) = true.
Proof. by destruct g; vm_compute. Qed.
Lemma tasks_two : tasks true = {[4; 5]}%nat.
Proof. by vm_compute. Qed.
Lemma tasks_one : tasks false = {[4]}%nat.
Proof. by vm_compute. Qed.
Lemma apply_fuses f g : list_to_set (fused_calls f) ⊆ tasks g ->
  exists new, tasks (apply_ 1%nat f g) = {[new]} ∪ (tasks g ∖ list_to_set (fused_calls f)).
Proof.
  intros Hf. unfold apply_. case_bool_decide as Hb.
  - destruct Hb as [H4 H5]. destruct g.
    + rewrite tasks_two in *. rewrite tasks_one. exists 4%nat. set_solver.
    + rewrite tasks_one in *. exfalso. set_solver.
  - destruct g.
    + rewrite tasks_two in *. destruct (decide (4%nat ∈ fused_calls f)) as [H4|H4]; [exists 4%nat|exists 5%nat].
      * assert (5%nat ∉ fused_calls f) by tauto. set_solver.
      * set_solver.
    + rewrite tasks_one in *. exists 4%nat. set_solver.
Qed.
End VisitSample.

