(* ===== verification/FusionSemantics.v ===== *)
(** * A fused computation computes the results of its calls (mpmd_computation_fusion.cc)

    The instructions of the called computations mean functions of the values of their
    operands, as in GrouperSemantics.v.  The computation that [FuseCalls] builds, called
    on the operands it collects, returns the values of the elements that are replaced. *)
From S2P Require Import Prelude Hlo Instruction ColorDfs Grouper GrouperSemantics GrouperBuild Fusion FusionSets FusionVisit.
Local Open Scope Z_scope.

Section semantics.
Context {I C V : Type} `{EqDecision I, !Countable I, !EqDecision C} `{!Hlo I C, !HloControl I C}.
Context `{!PostOrderLaws I C, !UsersLaws I C}.
(** The meaning of instructions, the values in the computation of the calls, and the
    values in the computation of a call. *)
Context (sem : I -> list V -> V) (val : I -> V) (body : I -> I -> V).
Implicit Types (i o u call : I) (c : C).

(** A computation that is called: its parameters have the values of the operands, its
    instructions compute on the values of theirs, and its root tuple, which is no operand,
    has the values of the users of the call. *)
Record computation_ok call c : Prop := {
  ck_called : called_computations call !! 0%nat = Some c;
  ck_parameters : forall n o, operands call !! n = Some o -> is_Some (parameter_instructions c !! n);
  ck_parameter : forall i, i ∈ MakeInstructionPostOrder c -> opcode i = kParameter ->
    exists o, operand call (parameter_number_of i) = OK o /\ body call i = val o;
  ck_instruction : forall i, i ∈ MakeInstructionPostOrder c -> opcode i <> kParameter -> i <> root_instruction c ->
    body call i = sem i (body call <$> operands i);
  ck_root : opcode (root_instruction c) <> kParameter;
  ck_root_unused : forall i, i ∈ MakeInstructionPostOrder c -> root_instruction c ∉ operands i;
  ck_result : forall u, u ∈ users call ->
    exists r, operand (root_instruction c) (tuple_index u) = OK r /\ val u = body call r;
}.

(** Calls that can be fused: of different computations, in the order of their
    dependences. *)
Record fusable (calls : list I) : Prop := {
  fu_some : calls <> [];
  fu_NoDup : NoDup calls;
  fu_parent : forall x y, x ∈ calls -> y ∈ calls -> parent x = parent y;
  fu_control : forall x, x ∈ calls -> (length (control_predecessors x) <= 1)%nat /\ (length (control_successors x) <= 1)%nat;
  fu_computation : forall call, call ∈ calls -> exists c, computation_ok call c;
  fu_distinct : forall x y c d i, x ∈ calls -> y ∈ calls -> x <> y -> computation_ok x c -> computation_ok y d ->
    i ∈ MakeInstructionPostOrder c -> i ∉ MakeInstructionPostOrder d;
  fu_order : forall j k x y o, calls !! j = Some x -> calls !! k = Some y -> o ∈ users x -> o ∈ operands y -> (j < k)%nat;
}.

Lemma called_OK call c : computation_ok call c -> called_computation call 0 = OK c.
Proof. intros Hc. unfold called_computation. apply vec_at_lookup. split; [done|]. apply (ck_called _ _ Hc). Qed.

(** ** What is needed *)

Record needed_ok (calls : list I) (done : list I) (n : Needed I) : Prop := {
  nd_produced : forall x, x ∈ produced_by_set n <-> exists call, call ∈ done /\ x ∈ users call;
  nd_operands : forall l1 call l2 o, done = l1 ++ call :: l2 -> o ∈ operands call ->
    o ∈ parameters_needed n \/ exists call', call' ∈ l1 /\ o ∈ users call';
  nd_parameters : forall o, o ∈ parameters_needed n -> exists l1 call l2, done = l1 ++ call :: l2 /\ o ∈ operands call /\
    forall call', call' ∈ l1 -> o ∉ users call';
  nd_added : forall o, is_Some (operands_added n !! o) <-> o ∈ parameters_needed n;
  nd_added_some : forall o ps, operands_added n !! o = Some ps -> ps <> [];
  nd_roots : forall g r, (g, r) ∈ roots_needed n -> exists call c, call ∈ done /\ computation_ok call c /\ g ∈ users call /\
    operand (root_instruction c) (tuple_index g) = OK r /\ is_root (list_to_set calls) g = true;
  nd_outputs : forall call u, call ∈ done -> u ∈ users call ->
    is_root (list_to_set calls) u = true -> u ∈ (roots_needed n).*1;
}.

Lemma needed_ok_empty calls : needed_ok calls [] (MkNeeded ∅ [] [] ∅).
Proof.
  split; cbn.
  - intros x. split; [set_solver|]. intros (call & Hc & _). by apply elem_of_nil in Hc.
  - by intros [] call l2 o.
  - by intros o ?%elem_of_nil.
  - intros o. rewrite lookup_empty. split; [by intros []|by intros ?%elem_of_nil].
  - intros o ps. by rewrite lookup_empty.
  - by intros g r ?%elem_of_nil.
  - by intros call u ?%elem_of_nil.
Qed.

(** The operands of a call, [seen] of them so far. *)
Record operands_ok (calls done : list I) (call : I) (n0 : Needed I) (seen : list I) (n : Needed I) : Prop := {
  op_produced : produced_by_set n = produced_by_set n0;
  op_roots : roots_needed n = roots_needed n0;
  op_keep : forall o, o ∈ parameters_needed n0 -> o ∈ parameters_needed n;
  op_new : forall o, o ∈ parameters_needed n -> o ∈ parameters_needed n0 \/ o ∈ operands call /\ o ∉ produced_by_set n0;
  op_seen : forall o, o ∈ seen -> o ∈ parameters_needed n \/ o ∈ produced_by_set n0;
  op_added : forall o, is_Some (operands_added n !! o) <-> o ∈ parameters_needed n;
  op_added_some : forall o ps, operands_added n !! o = Some ps -> ps <> [];
}.

Lemma add_operands_ok calls done call c n0 : needed_ok calls done n0 -> computation_ok call c ->
  exists n, foldM (add_operand c) n0 (zip (seqZ 0 (Zlength (operands call))) (operands call)) = OK n /\
    operands_ok calls done call n0 (operands call) n.
Proof.
  intros Hn Hc. destruct (foldM_total (fun (d : list (Z * I)) n => operands_ok calls done call n0 d.*2 n) (add_operand c) n0
    (zip (seqZ 0 (Zlength (operands call))) (operands call))) as (n & Hrun & Hok).
  - split; cbn; try done; [by intros o Ho; left|by intros o ?%elem_of_nil|apply (nd_added _ _ _ Hn)|apply (nd_added_some _ _ _ Hn)].
  - intros d [p o] rest n Heq [H1 H2 H3 H4 H5 H6 H7].
    assert (zip (seqZ 0 (Zlength (operands call))) (operands call) !! length d = Some (p, o)) as Hl
      by (rewrite Heq; by apply list_lookup_middle).
    apply lookup_zip_Some in Hl as [[-> Hp]%lookup_seqZ Ho]. rewrite Z.add_0_l in *.
    assert (o ∈ operands call) as Hin by (by eapply list_elem_of_lookup_2).
    unfold add_operand. rewrite H1. case_bool_decide as Hprod.
    + exists n. split; [done|]. split; try done. intros x. rewrite fmap_app. intros [Hx| ->%list_elem_of_singleton]%elem_of_app; auto.
    + destruct (ck_parameters _ _ Hc _ _ Ho) as [q Hq]. rewrite (proj2 (vec_at_nat _ _ _) Hq). cbn [mbind Result_bind].
      eexists. split; [done|]. rewrite fmap_app. split; cbn; try done.
      * intros x Hx. case_bool_decide; [by apply H3|apply elem_of_app; left; by apply H3].
      * intros x Hx. case_bool_decide; [by apply H4|]. apply elem_of_app in Hx as [Hx| ->%list_elem_of_singleton]; [by apply H4|auto].
      * intros x [Hx| ->%list_elem_of_singleton]%elem_of_app.
        -- destruct (H5 x Hx) as [|]; [left|by right]. case_bool_decide; [done|]. apply elem_of_app. by left.
        -- left. case_bool_decide as Hb; [by apply H6|]. apply elem_of_app. right. by left.
      * intros x. rewrite lookup_insert. case_decide as Hx.
        -- subst x. split; [intros _|by eexists]. case_bool_decide as Hb; [by apply H6|]. apply elem_of_app. right. by left.
        -- case_bool_decide; [apply H6|]. rewrite H6, elem_of_app, list_elem_of_singleton. naive_solver.
      * intros x ps. rewrite lookup_insert. case_decide; [|apply H7]. intros [= <-]. by destruct (default [] _).
  - exists n. split; [done|]. rewrite snd_zip in Hok; [done|]. rewrite length_seqZ. unfold Zlength. lia.
Qed.

Record outputs_ok (calls : list I) (call : I) (c : C) (n0 : Needed I) (seen : list I) (n : Needed I) : Prop := {
  ou_produced : forall x, x ∈ produced_by_set n <-> x ∈ seen \/ x ∈ produced_by_set n0;
  ou_parameters : parameters_needed n = parameters_needed n0;
  ou_added : operands_added n = operands_added n0;
  ou_keep : forall q, q ∈ roots_needed n0 -> q ∈ roots_needed n;
  ou_roots : forall g r, (g, r) ∈ roots_needed n -> (g, r) ∈ roots_needed n0 \/
    g ∈ users call /\ operand (root_instruction c) (tuple_index g) = OK r /\ is_root (list_to_set calls) g = true;
  ou_outputs : forall u, u ∈ seen -> is_root (list_to_set calls) u = true -> u ∈ (roots_needed n).*1;
}.

Lemma add_outputs_ok calls call c n0 : computation_ok call c ->
  exists n, foldM (add_output (list_to_set calls) c) n0 (users call) = OK n /\ outputs_ok calls call c n0 (users call) n.
Proof.
  intros Hc. apply foldM_total.
  - split; try done; [set_solver|by intros g r ?; left|by intros u ?%elem_of_nil].
  - intros d u rest n Heq [H1 H2 H3 H4 H5 H6]. assert (u ∈ users call) as Hu by (rewrite Heq; apply elem_of_app; right; by left).
    unfold add_output. destruct (is_root (list_to_set calls) u) eqn:Hroot.
    + destruct (ck_result _ _ Hc u Hu) as (r & Hr & _). rewrite Hr. cbn [mbind Result_bind]. eexists. split; [done|]. split; cbn; try done.
      * intros x. rewrite elem_of_union, elem_of_singleton, H1, elem_of_app, list_elem_of_singleton. tauto.
      * intros q Hq. apply elem_of_app. left. by apply H4.
      * intros g r' [Hg|[= -> ->]%list_elem_of_singleton]%elem_of_app; [by apply H5|by right].
      * intros x [Hx| ->%list_elem_of_singleton]%elem_of_app Hxr; rewrite fmap_app; apply elem_of_app; [left; by apply H6|right; by left].
    + eexists. split; [done|]. split; cbn; try done.
      * intros x. rewrite elem_of_union, elem_of_singleton, H1, elem_of_app, list_elem_of_singleton. tauto.
      * intros x [Hx| ->%list_elem_of_singleton]%elem_of_app Hxr; [by apply H6|congruence].
Qed.

Lemma add_call_ok calls done call c n0 : computation_ok call c -> needed_ok calls done n0 ->
  exists n, add_call (list_to_set calls) n0 call = OK n /\ needed_ok calls (done ++ [call]) n.
Proof.
  intros Hc Hn. unfold add_call. rewrite (called_OK _ _ Hc). cbn [mbind Result_bind].
  destruct (add_operands_ok calls done call c n0 Hn Hc) as (n1 & -> & Hop). cbn [mbind Result_bind].
  destruct (add_outputs_ok calls call c n1 Hc) as (n & -> & Hou). exists n. split; [done|].
  assert (forall l1 x l2, done ++ [call] = l1 ++ x :: l2 -> l1 = done /\ x = call /\ l2 = [] \/ exists l2', l2 = l2' ++ [call] /\ done = l1 ++ x :: l2') as Hsplit.
  { intros l1 x l2 Heq. destruct l2 as [|y l2 _] using rev_ind.
    - left. apply app_inj_tail in Heq as [-> ->]. done.
    - right. exists l2. rewrite app_comm_cons, app_assoc in Heq. apply app_inj_tail in Heq as [-> ->]. done. }
  split.
  - intros x. rewrite (ou_produced _ _ _ _ _ _ Hou), (op_produced _ _ _ _ _ _ Hop), (nd_produced _ _ _ Hn). split.
    + intros [Hx|(y & Hy & Hx)]; [exists call|exists y]; (split; [apply elem_of_app|done]); [right; by left|by left].
    + intros (y & [Hy| ->%list_elem_of_singleton]%elem_of_app & Hx); [right; by exists y|by left].
  - intros l1 x l2 o Heq Ho. rewrite (ou_parameters _ _ _ _ _ _ Hou). destruct (Hsplit l1 x l2 Heq) as [(-> & -> & ->)|(l2' & -> & Hd)].
    + destruct (op_seen _ _ _ _ _ _ Hop o Ho) as [|Hp]; [by left|right]. by apply (nd_produced _ _ _ Hn).
    + destruct (nd_operands _ _ _ Hn l1 x l2' o Hd Ho) as [Hp|]; [left; by apply (op_keep _ _ _ _ _ _ Hop)|by right].
  - intros o. rewrite (ou_parameters _ _ _ _ _ _ Hou). intros [Ho|[Ho Hnp]]%(op_new _ _ _ _ _ _ Hop).
    + destruct (nd_parameters _ _ _ Hn o Ho) as (l1 & x & l2 & -> & Hx). exists l1, x, (l2 ++ [call]). by rewrite <- app_assoc.
    + exists done, call, []. split; [done|]. split; [done|]. intros y Hy Hoy. apply Hnp, (nd_produced _ _ _ Hn). by exists y.
  - intros o. rewrite (ou_parameters _ _ _ _ _ _ Hou), (ou_added _ _ _ _ _ _ Hou). apply (op_added _ _ _ _ _ _ Hop).
  - intros o ps. rewrite (ou_added _ _ _ _ _ _ Hou). apply (op_added_some _ _ _ _ _ _ Hop).
  - intros g r [Hg|(Hg & Hr & Hroot)]%(ou_roots _ _ _ _ _ _ Hou).
    + rewrite (op_roots _ _ _ _ _ _ Hop) in Hg. destruct (nd_roots _ _ _ Hn g r Hg) as (x & d & Hx & ?). exists x, d.
      split; [apply elem_of_app; by left|done].
    + exists call, c. split; [apply elem_of_app; right; by left|done].
  - intros x u [Hx| ->%list_elem_of_singleton]%elem_of_app Hu Hroot.
    + apply (nd_outputs _ _ _ Hn x u Hx Hu) in Hroot. rewrite <- (op_roots _ _ _ _ _ _ Hop) in Hroot.
      apply list_elem_of_fmap in Hroot as (q & -> & Hq). apply list_elem_of_fmap. exists q. split; [done|]. by apply (ou_keep _ _ _ _ _ _ Hou).
    + by apply (ou_outputs _ _ _ _ _ _ Hou).
Qed.

Lemma needed_total calls : fusable calls ->
  exists n, foldM (add_call (list_to_set calls)) (MkNeeded ∅ [] [] ∅) calls = OK n /\ needed_ok calls calls n.
Proof.
  intros Hf. apply (foldM_total (needed_ok calls)); [apply needed_ok_empty|].
  intros done call rest n Heq Hn. assert (call ∈ calls) as Hin by (rewrite Heq; apply elem_of_app; right; by left).
  destruct (fu_computation _ Hf call Hin) as [c Hc]. by eapply add_call_ok.
Qed.

(** No parameter is a result of one of the calls. *)
Lemma parameters_outside calls n o call : fusable calls -> needed_ok calls calls n -> o ∈ parameters_needed n ->
  call ∈ calls -> o ∉ users call.
Proof.
  intros Hf Hn Ho Hcall Hu. destruct (nd_parameters _ _ _ Hn o Ho) as (l1 & x & l2 & Heq & Hx & Hnot).
  apply list_elem_of_lookup in Hcall as [j Hj]. destruct (split_lookup _ _ _ _ Heq) as [Hxl Htake].
  pose proof (fu_order _ Hf j (length l1) call x o Hj Hxl Hu Hx) as Hlt.
  apply (Hnot call); [|done]. rewrite <- Htake. apply list_elem_of_lookup. exists j. by rewrite lookup_take_lt.
Qed.

(** ** The new computation *)

(** The values [vals] of the instructions of the builder. *)
Record fusing_ok (args : list V) (params done : list I) (f : Fusing I) (vals : list V) : Prop := {
  fs_log : eval_log sem args (builder f) = Some vals;
  fs_length : length vals = length (builder f);
  fs_values : forall o k, cloned_operand_params f !! o = Some k -> vals !! k = Some (val o);
  fs_params : forall o, o ∈ params -> is_Some (cloned_operand_params f !! o);
  fs_results : forall call u, call ∈ done -> u ∈ users call -> is_Some (cloned_operand_params f !! u);
  fs_clones : forall call c i, call ∈ done -> computation_ok call c -> i ∈ MakeInstructionPostOrder c -> i <> root_instruction c ->
    exists k, clone_map f !! i = Some k /\ vals !! k = Some (body call i);
}.

Lemma parameters_phase (added : gmap I (list I)) (params : list I) :
  (forall o, o ∈ params -> exists p ps, added !! o = Some (p :: ps)) ->
  exists f, foldM (add_parameter added) (MkFusing ∅ ∅ []) (zip (seqZ 0 (Zlength params)) params) = OK f /\
    fusing_ok (val <$> params) params [] f (val <$> params).
Proof.
  intros Hadded.
  destruct (foldM_total (fun (d : list (Z * I)) f => fusing_ok (val <$> params) d.*2 [] f (val <$> d.*2)) (add_parameter added) (MkFusing ∅ ∅ [])
    (zip (seqZ 0 (Zlength params)) params)) as (f & Hrun & Hok).
  - split; cbn; try done; [by intros o ?%elem_of_nil|by intros call u ?%elem_of_nil|by intros call c i ?%elem_of_nil].
  - intros d [p o] rest f Heq [H1 H2 H3 H4 _ _].
    assert (zip (seqZ 0 (Zlength params)) params !! length d = Some (p, o)) as Hl by (rewrite Heq; by apply list_lookup_middle).
    apply lookup_zip_Some in Hl as [[-> Hp]%lookup_seqZ Ho]. rewrite Z.add_0_l in *.
    destruct (Hadded o) as (q & ps & Hq); [by eapply list_elem_of_lookup_2|]. unfold add_parameter. rewrite Hq. cbn [default from_option].
    change (vec_at (id (q :: ps)) 0) with (OK (A := I) q). cbn [mbind Result_bind]. eexists. split; [done|].
    rewrite length_fmap, length_fmap in H2. rewrite fmap_app.
    split; cbn [clone_map cloned_operand_params builder].
    + rewrite eval_log_snoc, H1. cbn. rewrite Nat2Z.id, list_lookup_fmap, Ho. cbn. by rewrite fmap_app.
    + rewrite length_fmap, !length_app, length_fmap, H2. done.
    + intros x k. rewrite lookup_insert, fmap_app. case_decide as Hx.
      * intros [= <-]. subst x. rewrite <- H2. apply list_lookup_middle. by rewrite !length_fmap.
      * intros Hk. apply lookup_app_l_Some. by apply H3.
    + intros x [Hx| ->%list_elem_of_singleton]%elem_of_app; [|by rewrite lookup_insert_eq].
      rewrite lookup_insert. case_decide; [done|by apply H4].
    + by intros call u ?%elem_of_nil.
    + by intros call c i ?%elem_of_nil.
  - exists f. split; [done|]. rewrite snd_zip in Hok; [done|]. rewrite length_seqZ. unfold Zlength. lia.
Qed.

(** The instructions of the call [call], [seen] of them so far. *)
Record cloning_ok (args : list V) (params done : list I) (call : I) (c : C) (seen : list I) (f : Fusing I) (vals : list V) : Prop := {
  cl_fusing : fusing_ok args params done f vals;
  cl_seen : forall i, i ∈ seen -> i <> root_instruction c -> exists k, clone_map f !! i = Some k /\ vals !! k = Some (body call i);
}.

(** Growing the values and changing the clones of one computation. *)
Lemma fusing_grow args params done f vals f' vals' (U : list I) : fusing_ok args params done f vals ->
  eval_log sem args (builder f') = Some vals' -> length vals' = length (builder f') ->
  (exists more, vals' = vals ++ more) -> cloned_operand_params f' = cloned_operand_params f ->
  (forall i, i ∉ U -> clone_map f' !! i = clone_map f !! i) ->
  (forall call c i, call ∈ done -> computation_ok call c -> i ∈ MakeInstructionPostOrder c -> i ∉ U) ->
  fusing_ok args params done f' vals'.
Proof.
  intros [H1 H2 H3 H4 H5 H6] Hlog Hlen [more ->] Hcl Hmap Hdis. split; try done.
  - intros o k. rewrite Hcl. intros Hk. by apply lookup_app_l_Some, H3.
  - intros o. rewrite Hcl. apply H4.
  - intros call u. rewrite Hcl. apply H5.
  - intros call c i Hc Hok Hi Hr. rewrite Hmap by (by eapply Hdis). destruct (H6 call c i Hc Hok Hi Hr) as (k & ? & ?).
    exists k. split; [done|]. by apply lookup_app_l_Some.
Qed.

Lemma clone_instructions args params done call c f vals :
  computation_ok call c -> fusing_ok args params done f vals ->
  (forall o, o ∈ operands call -> is_Some (cloned_operand_params f !! o)) ->
  (forall x d i, x ∈ done -> computation_ok x d -> i ∈ MakeInstructionPostOrder d -> i ∉ MakeInstructionPostOrder c) ->
  exists f' vals', foldM (clone_instruction call c) f (MakeInstructionPostOrder c) = OK f' /\
    cloning_ok args params done call c (MakeInstructionPostOrder c) f' vals' /\
    cloned_operand_params f' = cloned_operand_params f.
Proof.
  intros Hc Hf Hops Hdis. destruct (foldM_total (fun seen f' => exists vals', cloning_ok args params done call c seen f' vals' /\
    cloned_operand_params f' = cloned_operand_params f) (clone_instruction call c) f (MakeInstructionPostOrder c)) as (f' & Hrun & vals' & Hok & Hcl).
  - exists vals. split; [|done]. split; [done|]. by intros i ?%elem_of_nil.
  - intros seen i rest g Heq (vs & [Hg Hseen] & Hcl).
    assert (i ∈ MakeInstructionPostOrder c) as Hi by (rewrite Heq; apply elem_of_app; right; by left).
    pose proof (fs_length _ _ _ _ _ Hg) as Hlen. pose proof (fs_log _ _ _ _ _ Hg) as Hlog.
    assert (i ∉ seen) as Hnew.
    { pose proof (postorder_NoDup c) as Hnd. rewrite Heq in Hnd. apply NoDup_app in Hnd as (_ & Hx & _). intros Hin.
      apply (Hx i Hin). by left. }
    unfold clone_instruction. case_bool_decide as Hp.
    + destruct (ck_parameter _ _ Hc i Hi Hp) as (o & Ho & Hval). rewrite Ho. cbn [mbind Result_bind].
      assert (o ∈ operands call) as Hin by (apply vec_at_lookup in Ho as [_ Ho]; by eapply list_elem_of_lookup_2).
      rewrite Hcl. destruct (Hops o Hin) as [k Hk]. rewrite Hk. cbn. eexists. split; [done|]. exists vs. split; [|done]. split.
      * apply (fusing_grow args params done g vs _ vs (MakeInstructionPostOrder c)); cbn; try done.
        -- exists []. by rewrite app_nil_r.
        -- intros j Hj. rewrite lookup_insert_ne; [done|]. by intros ->.
      * intros j [Hj| ->%list_elem_of_singleton]%elem_of_app Hr; cbn.
        -- rewrite lookup_insert_ne by (by intros ->). by apply Hseen.
        -- exists k. rewrite lookup_insert_eq. split; [done|]. rewrite Hval. apply (fs_values _ _ _ _ _ Hg). by rewrite Hcl.
    + case_bool_decide as Hr.
      * assert (forall o, o ∈ operands i -> exists k, clone_operand (clone_map g) o = OK k /\ vs !! k = Some (body call o)) as Hks.
        { intros o Ho. assert (MakeInstructionPostOrder c !! length seen = Some i) as Hl by (rewrite Heq; by apply list_lookup_middle).
          destruct (postorder_operands c _ i o Hl Ho) as (m & Hm & Hmo). rewrite Heq in Hmo.
          rewrite lookup_app_l in Hmo by (unfold Zlength in *; lia). destruct (Hseen o) as (k & Hk & Hv); [by eapply list_elem_of_lookup_2| |].
          - intros ->. by apply (ck_root_unused _ _ Hc i Hi).
          - exists k. unfold clone_operand. by rewrite Hk. }
        destruct (mapM_Result_total (clone_operand (clone_map g)) (operands i)) as [ks Hrun].
        { intros o Ho. destruct (Hks o Ho) as (k & Hk & _). by exists k. }
        rewrite Hrun. cbn [mbind Result_bind]. apply mapM_Result_Forall2 in Hrun.
        assert (mapM (vs !!.) ks = Some (body call <$> operands i)) as Hargs.
        { apply mapM_Some. clear -Hrun Hks. induction Hrun as [|o k os ks Hk _ IH]; constructor.
          - destruct (Hks o ltac:(by left)) as (k' & Hk' & Hv). congruence.
          - apply IH. intros x Hx. apply Hks. by right. }
        eexists. split; [done|]. exists (vs ++ [body call i]). split; [|done]. split.
        -- apply (fusing_grow args params done g vs _ _ (MakeInstructionPostOrder c)); cbn [builder clone_map cloned_operand_params]; try done.
           ++ rewrite eval_log_snoc, Hlog. cbn. rewrite Hargs. cbn. by rewrite <- (ck_instruction _ _ Hc i Hi Hp Hr).
           ++ rewrite !length_app. by rewrite Hlen.
           ++ by eexists.
           ++ intros j Hj. rewrite lookup_insert_ne; [done|]. by intros ->.
        -- intros j [Hj| ->%list_elem_of_singleton]%elem_of_app Hjr; cbn.
           ++ rewrite lookup_insert_ne by (by intros ->). destruct (Hseen j Hj Hjr) as (k & ? & ?). exists k. split; [done|].
              by apply lookup_app_l_Some.
           ++ exists (length (builder g)). rewrite lookup_insert_eq. split; [done|]. rewrite <- Hlen. by apply list_lookup_middle.
      * eexists. split; [done|]. exists vs. split; [|done]. split; [done|].
        intros j [Hj| ->%list_elem_of_singleton]%elem_of_app Hjr; [by apply Hseen|]. exfalso. by apply Hjr.
  - by exists f', vals'.
Qed.

Lemma operand_in_postorder c i k r : i ∈ MakeInstructionPostOrder c -> operand i k = OK r -> r ∈ operands i /\ r ∈ MakeInstructionPostOrder c.
Proof.
  intros Hi [_ Hr]%vec_at_lookup. apply list_elem_of_lookup_2 in Hr. split; [done|]. by eapply postorder_closed.
Qed.

(** A result of a call is a clone. *)
Lemma result_cloned call c u r : computation_ok call c -> operand (root_instruction c) (tuple_index u) = OK r ->
  r ∈ MakeInstructionPostOrder c /\ r <> root_instruction c.
Proof.
  intros Hc Hr. destruct (operand_in_postorder c _ _ _ (postorder_root c) Hr) as [Hin Hpo]. split; [done|].
  intros ->. by apply (ck_root_unused _ _ Hc _ (postorder_root c)).
Qed.

Lemma clone_results args params done call c f vals :
  computation_ok call c -> cloning_ok args params done call c (MakeInstructionPostOrder c) f vals ->
  exists f', foldM (clone_result c) f (users call) = OK f' /\
    cloning_ok args params done call c (MakeInstructionPostOrder c) f' vals /\
    (forall u, u ∈ users call -> is_Some (cloned_operand_params f' !! u)).
Proof.
  intros Hc Hf. destruct (foldM_total (fun seen f' => cloning_ok args params done call c (MakeInstructionPostOrder c) f' vals /\
    (forall u, u ∈ seen -> is_Some (cloned_operand_params f' !! u))) (clone_result c) f (users call)) as (f' & Hrun & Hok).
  - split; [done|]. by intros u ?%elem_of_nil.
  - intros seen u rest g Heq [[[H1 H2 H3 H4 H5 H6] Hcl] Hseen].
    assert (u ∈ users call) as Hu by (rewrite Heq; apply elem_of_app; right; by left).
    destruct (ck_result _ _ Hc u Hu) as (r & Hr & Hval). destruct (result_cloned call c u r Hc Hr) as [Hpo Hne].
    destruct (Hcl r Hpo Hne) as (k & Hk & Hv). unfold clone_result. rewrite Hr. cbn [mbind Result_bind]. rewrite Hk. cbn.
    eexists. split; [done|]. split; [split; [split|]|]; cbn; try done.
    + intros o j. rewrite lookup_insert. case_decide; [intros [= <-]; subst; by rewrite Hv, Hval|apply H3].
    + intros o Ho. rewrite lookup_insert. case_decide; [done|by apply H4].
    + intros x o Hx Ho. rewrite lookup_insert. case_decide; [done|by eapply H5].
    + intros o [Ho| ->%list_elem_of_singleton]%elem_of_app; [|by rewrite lookup_insert_eq]. rewrite lookup_insert.
      case_decide; [done|by apply Hseen].
  - by exists f'.
Qed.

Lemma clone_call_ok calls n args l1 call l2 f vals : fusable calls -> needed_ok calls calls n -> calls = l1 ++ call :: l2 ->
  fusing_ok args (parameters_needed n) l1 f vals ->
  exists f' vals', clone_call f call = OK f' /\ fusing_ok args (parameters_needed n) (l1 ++ [call]) f' vals'.
Proof.
  intros Hf Hn Heq Hok. assert (call ∈ calls) as Hin by (rewrite Heq; apply elem_of_app; right; by left).
  destruct (fu_computation _ Hf call Hin) as [c Hc]. unfold clone_call. rewrite (called_OK _ _ Hc). cbn [mbind Result_bind].
  destruct (clone_instructions args (parameters_needed n) l1 call c f vals Hc Hok) as (f1 & vals1 & -> & Hcl & Hsame).
  { intros o Ho. destruct (nd_operands _ _ _ Hn l1 call l2 o Heq Ho) as [Hp|(x & Hx & Hu)].
    - by apply (fs_params _ _ _ _ _ Hok).
    - by apply (fs_results _ _ _ _ _ Hok x). }
  { intros x d i Hx Hd Hi. pose proof (fu_NoDup _ Hf) as Hnd. rewrite Heq in Hnd. apply NoDup_app in Hnd as (_ & Hdis & _).
    apply (fu_distinct _ Hf x call d c); try done; [rewrite Heq; apply elem_of_app; by left|].
    intros ->. apply (Hdis call Hx). by left. }
  cbn [mbind Result_bind].
  destruct (clone_results args (parameters_needed n) l1 call c f1 vals1 Hc Hcl) as (f2 & -> & [[H1 H2 H3 H4 H5 H6] Hseen] & Hus).
  exists f2, vals1. split; [done|]. split; try done.
  - intros x u [Hx| ->%list_elem_of_singleton]%elem_of_app Hu; [by eapply H5|by apply Hus].
  - intros x d i [Hx| ->%list_elem_of_singleton]%elem_of_app Hd Hi Hr; [by eapply H6|].
    assert (d = c) as -> by (pose proof (ck_called _ _ Hd) as Hd1; pose proof (ck_called _ _ Hc) as Hc1; congruence).
    by apply Hseen.
Qed.

Lemma new_computation_total calls n : fusable calls -> needed_ok calls calls n ->
  exists log roots vals, new_computation calls n = OK (log, roots) /\
    eval_log sem (val <$> parameters_needed n) log = Some vals /\
    Forall2 (fun k g => vals !! k = Some (val g)) roots (roots_needed n).*1.
Proof.
  intros Hf Hn. unfold new_computation.
  destruct (parameters_phase (operands_added n) (parameters_needed n)) as (f0 & -> & Hok0).
  { intros o Ho. apply (nd_added _ _ _ Hn) in Ho as [ps Hps]. pose proof (nd_added_some _ _ _ Hn o ps Hps). destruct ps as [|p ps]; [done|by exists p, ps]. }
  cbn [mbind Result_bind].
  destruct (foldM_total (fun done f => exists vals, fusing_ok (val <$> parameters_needed n) (parameters_needed n) done f vals)
    clone_call f0 calls) as (f & -> & vals & Hok); [by eexists| |].
  { intros done call rest g Heq [vs Hg]. destruct (clone_call_ok calls n _ done call rest g vs Hf Hn Heq Hg) as (g' & vs' & ? & ?).
    exists g'. split; [done|by exists vs']. }
  cbn [mbind Result_bind].
  assert (forall g r, (g, r) ∈ roots_needed n -> exists k, fused_root f r = OK k /\ vals !! k = Some (val g)) as Hroot.
  { intros g r Hg. destruct (nd_roots _ _ _ Hn g r Hg) as (call & c & Hcall & Hc & Hu & Hr & _).
    destruct (result_cloned call c g r Hc Hr) as [Hpo Hne].
    destruct (fs_clones _ _ _ _ _ Hok call c r Hcall Hc Hpo Hne) as (k & Hk & Hv). exists k. unfold fused_root. rewrite Hk. split; [done|].
    destruct (ck_result _ _ Hc g Hu) as (r' & Hr' & Hval). rewrite Hr in Hr'. injection Hr' as <-. by rewrite Hval. }
  destruct (mapM_Result_total (fused_root f) (roots_needed n).*2) as [ks Hks].
  { intros r Hr. apply list_elem_of_fmap in Hr as ([g r'] & -> & Hin). destruct (Hroot g r' Hin) as (k & Hk & _). by exists k. }
  rewrite Hks. cbn. exists (builder f), ks, vals. split; [done|]. split; [apply (fs_log _ _ _ _ _ Hok)|].
  apply mapM_Result_Forall2 in Hks. clear -Hks Hroot. revert ks Hks Hroot. induction (roots_needed n) as [|[g r] l IH]; intros ks Hks Hroot; cbn in *.
  - inversion Hks. constructor.
  - apply Forall2_cons_inv_l in Hks as (k & ks' & Hk & Hks & ->). constructor.
    + destruct (Hroot g r ltac:(by left)) as (k' & Hk' & Hv). congruence.
    + apply IH; [done|]. intros g' r' Hin. apply Hroot. by right.
Qed.

(** ** Control dependencies and the removal of the calls *)

Lemma collect_control_total calls : fusable calls ->
  exists r, foldM (collect_control (list_to_set calls)) (∅, [], []) calls = OK r.
Proof.
  intros Hf. destruct (foldM_total (fun _ _ => True) (collect_control (list_to_set calls)) (∅, [], []) calls) as (r & Hr & _); [done| |by exists r].
  intros done call rest [[d p] q] Heq _. destruct (fu_control _ Hf call) as [Hp Hs]; [rewrite Heq; apply elem_of_app; right; by left|].
  assert (forall (cs : gset I) (d : gset I) deps acc, (length deps <= 1)%nat -> exists r, outside_dependency cs d deps acc = OK r) as Hout.
  { intros cs d' deps acc Hl. unfold outside_dependency. pose proof (length_filter (fun x => x ∉ d') deps) as Hfl.
    destruct (filter _ deps) as [|x [|y l]]; [by eexists|by eexists|]. cbn in Hfl. lia. }
  unfold collect_control. destruct (Hout (list_to_set calls) d (control_predecessors call) p Hp) as [p' ->]. cbn [mbind Result_bind].
  destruct (Hout (list_to_set calls) d (control_successors call) q Hs) as [q' ->]. cbn. by eexists.
Qed.

Lemma removals calls n : fusable calls -> needed_ok calls calls n ->
  exists r, foldM (remove_call (list_to_set (roots_needed n).*1)) ∅ (reverse calls) = OK r.
Proof.
  intros Hf Hn. destruct (foldM_total (fun done removed => forall x, x ∈ done -> x ∈ removed)
    (remove_call (list_to_set (roots_needed n).*1)) ∅ (reverse calls)) as (r & Hr & _); [by intros x ?%elem_of_nil| |by exists r].
  intros done call rest removed Heq Hrem. unfold remove_call.
  assert (calls = reverse rest ++ call :: reverse done) as Hcalls.
  { apply (f_equal reverse) in Heq. rewrite reverse_involutive, reverse_app, reverse_cons, <- app_assoc in Heq. exact Heq. }
  assert (call ∈ calls) as Hin by (rewrite Hcalls; apply elem_of_app; right; by left).
  assert (foldM (remove_user (list_to_set (roots_needed n).*1) removed) () (users call) = OK ()) as ->.
  { assert (forall u, u ∈ users call -> remove_user (list_to_set (roots_needed n).*1) removed () u = OK ()) as Hu.
    { intros u Hu. unfold remove_user. case_bool_decide as Hout; [done|].
      destruct (is_root (list_to_set calls) u) eqn:Hroot.
      { exfalso. apply Hout, elem_of_list_to_set. by apply (nd_outputs _ _ _ Hn call). }
      unfold is_root in Hroot. apply orb_false_iff in Hroot as [Hr1 Hr2]. rewrite Hr1.
      assert (forall w, w ∈ users u -> w ∈ removed) as Hw.
      { intros w Hw. assert (w ∈ calls) as Hwc.
        { destruct (decide (w ∈ calls)) as [|Hn']; [done|exfalso]. apply (Bool.not_true_iff_false _) in Hr2. apply Hr2.
          apply existsb_exists. exists w. split; [by apply list_elem_of_In|]. rewrite bool_decide_eq_true_2; [done|].
          by rewrite elem_of_list_to_set. }
        apply users_spec in Hw. rewrite Hcalls in Hwc. apply Hrem. apply elem_of_app in Hwc as [Hwc|[->|Hwc]%elem_of_cons].
        - exfalso. apply list_elem_of_lookup in Hwc as [j Hj].
          pose proof (fu_order _ Hf (length (reverse rest)) j call w u) as Ho.
          assert (j < length (reverse rest))%nat by (by eapply lookup_lt_Some).
          specialize (Ho ltac:(rewrite Hcalls; by apply list_lookup_middle) ltac:(rewrite Hcalls; by apply lookup_app_l_Some) Hu Hw). lia.
        - exfalso. pose proof (fu_order _ Hf (length (reverse rest)) (length (reverse rest)) call call u) as Ho.
          specialize (Ho ltac:(rewrite Hcalls; by apply list_lookup_middle) ltac:(rewrite Hcalls; by apply list_lookup_middle) Hu Hw). lia.
        - by rewrite elem_of_reverse in Hwc. }
      rewrite bool_decide_eq_true_2; [done|].
      destruct (filter (fun w => w ∉ removed) (users u)) as [|w l] eqn:Hfil; [done|exfalso].
      assert (w ∈ filter (fun w => w ∉ removed) (users u)) as Hin' by (rewrite Hfil; by left).
      apply list_elem_of_filter in Hin' as [Hnr Hwu]. by apply Hnr, Hw. }
    clear -Hu. induction (users call) as [|u l IH]; [done|]. cbn [foldM]. rewrite (Hu u) by (by left). cbn. apply IH. intros x Hx. apply Hu. by right. }
  cbn. eexists. split; [done|]. intros x [Hx| ->%list_elem_of_singleton]%elem_of_app; [|set_solver]. apply elem_of_union. right. by apply Hrem.
Qed.

(** C4: [FuseCalls] fuses calls of different computations that are given in the order of
    their dependences.  Its operands are results of none of them; every result that is
    used elsewhere is replaced; and the new computation, on the values of the operands,
    returns the values of the replaced results. *)
Theorem FuseCalls_computes calls : fusable calls ->
  exists f log roots vals, FuseCalls (C := C) calls None = OK f /\ fused_body f = inr (log, roots) /\
    (forall o call, o ∈ fused_operands f -> call ∈ calls -> o ∉ users call) /\
    (forall call u, call ∈ calls -> u ∈ users call ->
       (root_instruction (parent u) = u \/ exists w, w ∈ users u /\ w ∉ calls) -> u ∈ fused_outputs f) /\
    eval_log sem (val <$> fused_operands f) log = Some vals /\
    Forall2 (fun k u => vals !! k = Some (val u)) roots (fused_outputs f).
Proof.
  intros Hf. destruct (needed_total calls Hf) as (n & Hneed & Hn).
  destruct (new_computation_total calls n Hf Hn) as (log & roots & vals & Hnew & Hlog & Hroots).
  destruct (collect_control_total calls Hf) as [ctl Hctl]. destruct (removals calls n Hf Hn) as [rm Hrm].
  assert (exists front rest, calls = front :: rest) as (front & rest & Hcalls) by (pose proof (fu_some _ Hf); destruct calls as [|x l]; [done|by exists x, l]).
  unfold FuseCalls. rewrite Hcalls. rewrite <- Hcalls.
  assert (forallb (fun call => bool_decide (parent call = parent front)) calls = true) as ->.
  { apply forallb_forall. intros x Hx%list_elem_of_In. apply bool_decide_eq_true_2. apply (fu_parent _ Hf); [done|]. rewrite Hcalls. by left. }
  cbn [negb]. rewrite Hctl. cbn [mbind Result_bind]. rewrite Hneed. cbn [mbind Result_bind]. rewrite Hnew. cbn [mbind Result_bind].
  rewrite Hrm. cbn [mbind Result_bind]. do 4 eexists. split; [done|]. cbn. split; [done|]. split_and!; [| |done|done].
  - intros o call Ho Hc. by eapply parameters_outside.
  - intros call u Hc Hu Hroot. apply (nd_outputs _ _ _ Hn call u Hc Hu). unfold is_root, is_computation_root. apply orb_true_iff.
    destruct Hroot as [Hr|(w & Hw & Hnw)]; [left; by apply bool_decide_eq_true_2|right]. apply existsb_exists. exists w.
    split; [by apply list_elem_of_In|]. rewrite bool_decide_eq_true_2; [done|]. by rewrite elem_of_list_to_set.
Qed.
End semantics.

(** The sample of FusionVisit.v: the call 19 uses the result 14 of the call 13; both
    computations negate, and the parameter is 5. *)
Module FusedValues.
#[global] Instance postorder : PostOrderLaws nat nat := Graph.postorder_laws FusionSample.nodes FusionSample.comps eq_refl.
#[global] Instance users : UsersLaws nat nat := Graph.users_laws FusionSample.nodes FusionSample.comps.
Definition sem (_ : nat) (vs : list Z) : Z := match vs with [x] => - x | _ => 0 end.
Definition val (i : nat) : Z := match i with 14%nat => -5 | 0%nat | 20%nat => 5 | _ => 0 end.
Definition body (_ i : nat) : Z := match i with 1%nat | 11%nat => 5 | 2%nat | 10%nat => -5 | _ => 0 end.

Lemma first_ok : computation_ok (C := nat) sem val body 13%nat 0%nat.
Proof.
  split; try done.
  - intros [|n] o; [by eexists|done].
  - intros i Hi Hp. exists 0%nat. repeat (apply elem_of_cons in Hi as [->|Hi]; [by vm_compute in Hp |- *|]). by apply elem_of_nil in Hi.
  - intros i Hi Hp Hr. repeat (apply elem_of_cons in Hi as [->|Hi]; [by vm_compute in Hp, Hr |- *|]). by apply elem_of_nil in Hi.
  - intros i Hi. repeat (apply elem_of_cons in Hi as [->|Hi]; [vm_compute; set_solver|]). by apply elem_of_nil in Hi.
  - intros u Hu. change (u ∈ [14%nat]) in Hu. apply list_elem_of_singleton in Hu as ->. exists 2%nat. by vm_compute.
Qed.

Lemma second_ok : computation_ok (C := nat) sem val body 19%nat 3%nat.
Proof.
  split; try done.
  - intros [|n] o; [by eexists|done].
  - intros i Hi Hp. exists 14%nat. repeat (apply elem_of_cons in Hi as [->|Hi]; [by vm_compute in Hp |- *|]). by apply elem_of_nil in Hi.
  - intros i Hi Hp Hr. repeat (apply elem_of_cons in Hi as [->|Hi]; [by vm_compute in Hp, Hr |- *|]). by apply elem_of_nil in Hi.
  - intros i Hi. repeat (apply elem_of_cons in Hi as [->|Hi]; [vm_compute; set_solver|]). by apply elem_of_nil in Hi.
  - intros u Hu. change (u ∈ [20%nat]) in Hu. apply list_elem_of_singleton in Hu as ->. exists 11%nat. by vm_compute.
Qed.

Lemma calls_fusable : fusable (C := nat) sem val body [13; 19]%nat.
Proof.
  split; try done.
  - apply (bool_decide_unpack _). by vm_compute.
  - intros x y Hx Hy. repeat (apply elem_of_cons in Hx as [->|Hx]; [|]); try (by apply elem_of_nil in Hx);
    repeat (apply elem_of_cons in Hy as [->|Hy]; [|]); try (by apply elem_of_nil in Hy); by vm_compute.
  - intros x Hx. split; cbn; lia.
  - intros x [->|[->|Hx]%elem_of_cons]%elem_of_cons; [exists 0%nat; apply first_ok|exists 3%nat; apply second_ok|by apply elem_of_nil in Hx].
  - intros x y c d i Hx Hy Hne Hc Hd Hi. apply ck_called in Hc, Hd. cbn in Hx, Hy.
    apply elem_of_cons in Hx as [->|Hx]; [|apply elem_of_cons in Hx as [->|Hx]; [|by apply elem_of_nil in Hx]];
    (apply elem_of_cons in Hy as [->|Hy]; [|apply elem_of_cons in Hy as [->|Hy]; [|by apply elem_of_nil in Hy]]);
    try done; injection Hc as <-; injection Hd as <-; cbn in Hi |- *; set_solver.
  - intros j k x y o Hj Hk. do 2 (destruct j as [|j]; [injection Hj as <-; do 2 (destruct k as [|k]; [injection Hk as <-; vm_compute; set_solver|]); done|]). done.
Qed.
End FusedValues.

Lemma FuseCalls_computes_witness :
  exists f log roots vals, FuseCalls (C := nat) [13; 19]%nat None = OK f /\ fused_body f = inr (log, roots) /\
    eval_log FusedValues.sem (FusedValues.val <$> fused_operands f) log = Some vals /\
    Forall2 (fun k u => vals !! k = Some (FusedValues.val u)) roots (fused_outputs f).
Proof.
  destruct (FuseCalls_computes FusedValues.sem FusedValues.val FusedValues.body [13; 19]%nat FusedValues.calls_fusable)
    as (f & log & roots & vals & H1 & H2 & _ & _ & H3 & H4).
  exists f, log, roots, vals. split; [exact H1|]. split; [exact H2|]. split; [exact H3|exact H4].
Defined.
