(* ===== verification/Unroll.v ===== *)
(** * Unrolling microbatch loops (mpmd_loop_unroll.h/.cc)

    [Unroll] clones the body of a loop once per iteration into the computation of the
    loop, each iteration reading the loop-carried values of the one before, gives
    loop-dependent tasks the color of the submesh of their iteration, and adds control
    dependencies along the rows of the schedule of LoopScheduler.v.

    XLA's edits are recorded: an instruction is one of the module, [inl i], or a new one,
    [inr n], at a position of the list [added]; both have attributes. *)
From S2P Require Import Prelude Hlo Json Instruction Partition LoopConfig LoopScheduler Utils InstructionProperties Grouper.
Local Open Scope Z_scope.

Section unroll.
Context {I C St D J : Type} `{EqDecision I, !Countable I} `{!Hlo I C, !AttrStore (I + nat) St}.
Context `{EqDecision D, !Countable D, !DeviceListApi D} `{!HashOrder, !HeapOrder} `{!JsonApi J}.
Abbreviation Value := (I + nat)%type.
Context (name : Value -> string) (raw_backend_config_string : I -> string).
(** The properties of the instructions of the module. *)
Context (es : gmap I (Entry I)).
Implicit Types (i : I) (c : C) (v : Value).

(** A new instruction; it has the shape and the sharding of its source. *)
Inductive Added :=
  | AddedElement (source : I) (operand : Value) (index : Z)
  | AddedCall (source : I) (operands : list Value) (to_apply : C)
  | AddedTuple (source : I) (operands : list Value)
  | AddedOffset (source : I) (offset : Z)
  | AddedDummy (source : I).

Definition added_source (a : Added) : I :=
  match a with
  | AddedElement i _ _ | AddedCall i _ _ | AddedTuple i _ | AddedOffset i _ | AddedDummy i => i
  end.
Definition added_operands (a : Added) : list Value :=
  match a with
  | AddedElement _ v _ => [v]
  | AddedCall _ l _ | AddedTuple _ l => l
  | AddedOffset i _ | AddedDummy i => inl <$> operands i
  end.

(** [cloned_colors] and the partition are kept from loop to loop; [replaced] are the
    elements of loops that have been unrolled. *)
Record Unrolling := MkUnrolling {
  added : list Added;
  attributes : St;
  scheduling_names : gmap Value string;
  clone_map : gmap (I * Z) Value;
  was_loop_dependent : gset Value;
  prev_loop_output_tuple : Value;
  dummy_tuples : list Value;
  tasks : list (list Value);
  partition_ : HloPartition D;
  cloned_colors : gmap string (gmap D string);
  replaced : gmap I Value;
}.
Implicit Types (st : Unrolling).

(** *** Updates *)

Definition add_instruction (a : Added) (attrs : St) st : Unrolling :=
  MkUnrolling (added st ++ [a]) attrs (scheduling_names st) (clone_map st) (was_loop_dependent st)
    (prev_loop_output_tuple st) (dummy_tuples st) (tasks st) (partition_ st) (cloned_colors st) (replaced st).
Definition set_clone (key : I * Z) v st : Unrolling :=
  MkUnrolling (added st) (attributes st) (scheduling_names st) (<[key := v]> (clone_map st)) (was_loop_dependent st)
    (prev_loop_output_tuple st) (dummy_tuples st) (tasks st) (partition_ st) (cloned_colors st) (replaced st).
Definition set_scheduling_name v (n : string) st : Unrolling :=
  MkUnrolling (added st) (attributes st) (<[v := n]> (scheduling_names st)) (clone_map st) (was_loop_dependent st)
    (prev_loop_output_tuple st) (dummy_tuples st) (tasks st) (partition_ st) (cloned_colors st) (replaced st).
Definition set_output_tuple v st : Unrolling :=
  MkUnrolling (added st) (attributes st) (scheduling_names st) (clone_map st) (was_loop_dependent st)
    v (dummy_tuples st ++ [v]) (tasks st) (partition_ st) (cloned_colors st) (replaced st).
Definition set_tasks (ts : list (list Value)) st : Unrolling :=
  MkUnrolling (added st) (attributes st) (scheduling_names st) (clone_map st) (was_loop_dependent st)
    (prev_loop_output_tuple st) (dummy_tuples st) ts (partition_ st) (cloned_colors st) (replaced st).
Definition set_colors (attrs : St) (was : gset Value) (p : HloPartition D) (colors : gmap string (gmap D string)) st : Unrolling :=
  MkUnrolling (added st) attrs (scheduling_names st) (clone_map st) was
    (prev_loop_output_tuple st) (dummy_tuples st) (tasks st) p colors (replaced st).
Definition set_replaced (r : gmap I Value) st : Unrolling :=
  MkUnrolling (added st) (attributes st) (scheduling_names st) (clone_map st) (was_loop_dependent st)
    (prev_loop_output_tuple st) (dummy_tuples st) (tasks st) (partition_ st) (cloned_colors st) r.

(** ** Colors of iterations *)

Definition IsLoopDependent st v : Result bool :=
  match Color (attributes st) v with
  | None => OK false
  | Some color =>
      config ← ConfigForColor (partition_ st) color;
      OK (bool_decide (is_Some (to_loop_dependent_devices (cc_task_options config))))
  end.

Definition without_callback (o : TaskOptions) : TaskOptions :=
  Build_TaskOptions (to_name o) (to_devices o) (to_dims o) (to_axes o) (to_logical_axes o) (to_split_backprop o) None.

Definition submesh_name (color : string) (start num_devices : Z) : string :=
  color +:+ "_submesh_[" +:+ StrCatZ start +:+ "," +:+ StrCatZ (start + num_devices) +:+ ")".

Definition ApplyLoopDependentColor (iter : Z) v st : Result Unrolling :=
  match Color (attributes st) v with
  | None => Err kInvalidArgument "expected to have color"
  | Some color =>
      config ← ConfigForColor (partition_ st) color;
      match to_loop_dependent_devices (cc_task_options config) with
      | None => Err kInvalidArgument "expected to have non-null loop_dependent_devices"
      | Some device_callback =>
          let device_list := device_callback iter in
          start ← vec_at device_list 0;
          let num_devices := Zlength device_list in
          let zuku_devices := dl_create start num_devices in
          if bool_decide (num_devices <> dl_size (cc_devices config)) then Fatal LogFatal
          else
            let clones := default ∅ (cloned_colors st !! color) in
            r ← match clones !! zuku_devices with
                | Some iter_color => OK (iter_color, partition_ st, cloned_colors st)
                | None =>
                    q ← CloneColor (partition_ st) color (submesh_name color start num_devices) (Some zuku_devices)
                          (Some (without_callback (cc_task_options config)));
                    OK (q.1, q.2, <[color := <[zuku_devices := q.1]> clones]> (cloned_colors st))
                end;
            let '(iter_color, p, colors) := (r : string * HloPartition D * gmap string (gmap D string)) in
            OK (set_colors (AssignColor v iter_color (attributes st)) (was_loop_dependent st) p colors st)
      end
  end.

(** ** One instruction of the body *)

Definition get_clone st i (iteration : Z) : Result Value :=
  match clone_map st !! (i, iteration) with
  | Some v => OK v
  | None => Err kInvalidArgument "has no clone"
  end.

Definition never_loop_dependent st v : Result bool :=
  if bool_decide (v ∈ was_loop_dependent st) then OK false else b ← IsLoopDependent st v; OK (negb b).

(** An operand of an instruction of the module or of a new tuple. *)
Definition resolve st i : Value := default (inl i) (replaced st !! i).
Definition tuple_operand st v (index : Z) : Result Value :=
  match v with
  | inl i => vec_at (resolve st <$> operands i) index
  | inr n => a ← of_option NullDeref (added st !! n); vec_at (added_operands a) index
  end.

(** [properties.Get]: there are none of new instructions. *)
Definition Get_value v : Result (Entry I) :=
  match v with inl i => Get es i | inr _ => Fatal LogFatal end.

(** Every operation returns whether the clone is an operand of the input tuple. *)
Definition unroll_element (input_tuple parameter_tuple : I) (iter : Z) st i : Result (Unrolling * bool) :=
  input ← tuple_operand st (inl input_tuple) (tuple_index i);
  input_properties ← Get_value input;
  o ← operand i 0;
  if bool_decide (o = parameter_tuple) then
    if bool_decide (is_Some (loop_carried_index input_properties)) then
      alias ← tuple_operand st (prev_loop_output_tuple st) (tuple_index i);
      never ← never_loop_dependent st alias;
      let st := if (never : bool) then set_scheduling_name alias (name input) st else st in
      OK (set_clone (i, iter) alias st, bool_decide (prev_loop_output_tuple st = inl input_tuple))
    else
      alias ← tuple_operand st (inl input_tuple) (tuple_index i);
      OK (set_clone (i, iter) alias st, true)
  else
    new_operand ← get_clone st o iter;
    let n := inr (length (added st)) in
    let st := add_instruction (AddedElement i new_operand (tuple_index i)) (attributes st) st in
    let st := set_clone (i, iter) n st in
    let attrs := (PropagateColor (inl i) n (attributes st)).2 in
    OK (set_colors attrs (was_loop_dependent st) (partition_ st) (cloned_colors st) st, false).

(** The heuristic for tasks that are not on the critical path; [root] is the root of the
    body. *)
Definition is_non_critical (root : I) i : bool :=
  forallb (fun user => bool_decide (length (users user) = 1%nat) && forallb (fun u => bool_decide (u = root)) (users user))
    (users i).

Definition unroll_call (root : I) (iter : Z) st i : Result (Unrolling * bool) :=
  if IsNonCritical_instruction (partition_ st) (attributes st) (inl i : Value) && negb (is_non_critical root i) then
    Err kInvalidArgument "tagged as non-critical, but does not satisfy condition"
  else
    new_operands ← mapM_Result (fun o => get_clone st o iter) (operands i);
    to_apply ← called_computation i 0;
    let n := inr (length (added st)) in
    let attrs := (PropagateColor (inl i) n (attributes st)).2 in
    let st := set_clone (i, iter) n (add_instruction (AddedCall i new_operands to_apply) attrs st) in
    ts ← push_row (tasks st) iter n;
    OK (set_tasks ts st, false).

Definition unroll_tuple_operand (input_tuple : I) (iter : Z) (acc : Unrolling * list Value) (io : Z * I)
    : Result (Unrolling * list Value) :=
  let '(st, new_operands) := acc in
  new_operand ← get_clone st io.2 iter;
  operand_properties ← Get es io.2;
  st ← (if bool_decide (is_Some (loop_carried_index operand_properties)) then
          never ← never_loop_dependent st new_operand;
          if (never : bool) then
            input ← tuple_operand st (inl input_tuple) io.1; OK (set_scheduling_name new_operand (name input) st)
          else OK st
        else OK st);
  OK (st, new_operands ++ [new_operand]).

Definition unroll_tuple (input_tuple root : I) (iter : Z) st i : Result (Unrolling * bool) :=
  if bool_decide (i <> root) then Err kInvalidArgument "has tuple instruction that is not a root tuple"
  else
    r ← foldM (unroll_tuple_operand input_tuple iter) (st, []) (zip (seqZ 0 (Zlength (operands i))) (operands i));
    let '(st, new_operands) := (r : Unrolling * list Value) in
    let n := inr (length (added st)) in
    OK (set_output_tuple n (add_instruction (AddedTuple i new_operands) (attributes st) st), false).

(** [Clone] copies the attributes; the new instruction is not in [clone_map] yet. *)
Definition clone_instruction (a : Added) (iter : Z) st i : Unrolling :=
  let n := inr (length (added st)) in
  let attrs := set_frontend_attributes n (frontend_attributes (attributes st) (inl i : Value)) (attributes st) in
  set_clone (i, iter) n (add_instruction a attrs st).

Definition unroll_custom_call (microbatch_size iter : Z) st i : Result (Unrolling * bool) :=
  if IsCustomCall i kCustomCallSliceOffset then
    if bool_decide (is_Some (clone_map st !! (i, iter))) then OK (st, false)
    else
      let offset := to_int32 (iter * microbatch_size) in
      let n := inr (length (added st)) in
      let st := clone_instruction (AddedOffset i offset) iter st i in
      OK (set_colors (AddAttribute n "offset" (StrCatZ offset) (attributes st)) (was_loop_dependent st) (partition_ st)
            (cloned_colors st) st, false)
  else if IsCustomCall i kCustomCallDummyOperation then OK (clone_instruction (AddedDummy i) iter st i, false)
  else Err kInvalidArgument "has unsupported instruction when unrolling loops".

Definition apply_color (iter : Z) st i (clone_is_input_operand : bool) : Result Unrolling :=
  match clone_map st !! (i, iter) with
  | None => OK st
  | Some v =>
      dependent ← IsLoopDependent st v;
      if (dependent : bool) && negb clone_is_input_operand then
        ApplyLoopDependentColor iter v
          (set_colors (attributes st) ({[v]} ∪ was_loop_dependent st) (partition_ st) (cloned_colors st) st)
      else OK st
  end.

Definition unroll_instruction (input_tuple : I) (body : C) (parameter_tuple : I) (microbatch_size iter : Z) st i
    : Result Unrolling :=
  r ← match opcode i with
      | kParameter => OK (st, false)
      | kGetTupleElement => unroll_element input_tuple parameter_tuple iter st i
      | kCall => unroll_call (root_instruction body) iter st i
      | kTuple => unroll_tuple input_tuple (root_instruction body) iter st i
      | kCustomCall => unroll_custom_call microbatch_size iter st i
      | _ => Err kInvalidArgument "has unsupported instruction when unrolling loops"
      end;
  apply_color iter (r : Unrolling * bool).1 i r.2.

Definition unroll_iteration (input_tuple : I) (body : C) (parameter_tuple : I) (microbatch_size : Z) st (iter : Z)
    : Result Unrolling :=
  foldM (unroll_instruction input_tuple body parameter_tuple microbatch_size iter) st (MakeInstructionPostOrder body).

(** ** The loop *)

(** The module with the new instructions. *)
Definition added_uses st v (n : nat) : bool :=
  match added st !! n with Some a => bool_decide (v ∈ added_operands a) | None => false end.
Definition unrolled_hlo st : Hlo Value C := {|
  opcode v := match v with
              | inl i => opcode i
              | inr n => match added st !! n with Some a => opcode (added_source a) | None => kOtherOpcode 0 end
              end;
  operands v := match v with
                | inl i => resolve st <$> operands i
                | inr n => match added st !! n with Some a => added_operands a | None => [] end
                end;
  users v := match v with inl i => inl <$> users i | inr _ => [] end ++
    (inr <$> filter (fun n => added_uses st v n = true) (seq 0 (length (added st))));
  tuple_index v := match v with
                   | inl i => tuple_index i
                   | inr n => match added st !! n with Some (AddedElement _ _ k) => k | _ => 0 end
                   end;
  parameter_number_of v := match v with inl i => parameter_number_of i | inr _ => 0 end;
  called_computations v := match v with
                           | inl i => called_computations i
                           | inr n => match added st !! n with Some (AddedCall _ _ c) => [c] | _ => [] end
                           end;
  has_backend_config v := match v with inl i => has_backend_config i | inr _ => false end;
  custom_call_target v := match v with
                          | inl i => custom_call_target i
                          | inr n => match added st !! n with Some a => custom_call_target (added_source a) | None => "" end
                          end;
  op_name v := match v with inl i => op_name i | inr _ => "" end;
  shape_IsTuple v := match v with
                     | inl i => shape_IsTuple i
                     | inr n => match added st !! n with Some a => shape_IsTuple (added_source a) | None => false end
                     end;
  IsElementwise v := match v with inl i => IsElementwise i | inr _ => false end;
  ElementsIn v := match v with
                  | inl i => ElementsIn i
                  | inr n => match added st !! n with Some a => ElementsIn (added_source a) | None => 0 end
                  end;
  ByteSizeOf v := match v with
                  | inl i => ByteSizeOf i
                  | inr n => match added st !! n with Some a => ByteSizeOf (added_source a) | None => 0 end
                  end;
  root_instruction c := inl (root_instruction c);
  parameter_instructions c := inl <$> parameter_instructions c;
  MakeInstructionPostOrder c := inl <$> MakeInstructionPostOrder c;
|}.

(** A task is followed by the next task of its row on the same devices. *)
Fixpoint next_on_devices (devices : Value -> Result D) (lhs_devices : D) (rest : list Value) : Result (option Value) :=
  match rest with
  | [] => OK None
  | rhs :: rest =>
      rhs_devices ← devices rhs;
      if bool_decide (lhs_devices = rhs_devices) then OK (Some rhs) else next_on_devices devices lhs_devices rest
  end.
Fixpoint row_dependencies (devices : Value -> Result D) (row : list Value) : Result (list (Value * Value)) :=
  match row with
  | [] => OK []
  | lhs :: rest =>
      lhs_devices ← devices lhs;
      next ← next_on_devices devices lhs_devices rest;
      deps ← row_dependencies devices rest;
      OK (match next with Some rhs => (lhs, rhs) :: deps | None => deps end)
  end.
Definition control_dependencies (devices : Value -> Result D) (schedule : list (list Value)) : Result (list (Value * Value)) :=
  foldM (fun deps row => d ← row_dependencies devices row; OK (deps ++ d)) [] schedule.

Definition start_unrolling (input_tuple : I) (num_iterations : Z) st : Unrolling :=
  MkUnrolling (added st) (attributes st) (scheduling_names st) ∅ ∅ (inl input_tuple) []
    (replicate (Z.to_nat num_iterations) []) (partition_ st) (cloned_colors st) (replaced st).

Definition replace_user st (r : gmap I Value) (user : I) : Result (gmap I Value) :=
  v ← tuple_operand st (prev_loop_output_tuple st) (tuple_index user); OK (<[user := v]> r).

(** The new instructions and the control dependencies.  The vector of tasks can not have a
    negative size. *)
Definition Unroll st (while_loop : I) : Result (Unrolling * list (Value * Value)) :=
  body ← called_computation while_loop 0;
  input_tuple ← operand while_loop 0;
  config ← GetMicrobatchConfig (J := J) (raw_backend_config_string while_loop);
  if bool_decide (num_iterations config < 0) then Fatal Thrown
  else
    parameter_tuple ← vec_at (parameter_instructions body) 0;
    st ← foldM (unroll_iteration input_tuple body parameter_tuple (microbatch_size config))
           (start_unrolling input_tuple (num_iterations config) st) (seqZ 0 (num_iterations config));
    r ← foldM (replace_user st) (replaced st) (users while_loop);
    let st := set_replaced r st in
    let _ := unrolled_hlo st in
    schedule ← ScheduleLoops (partition_ st) (attributes st) config (tasks st);
    deps ← control_dependencies (DevicesForInstruction (partition_ st) (attributes st)) schedule;
    OK (st, deps).

(** ** The pass *)

Definition run_instruction (acc : Unrolling * list (Value * Value) * bool) i : Result (Unrolling * list (Value * Value) * bool) :=
  let '(st, deps, changed) := acc in
  if bool_decide (opcode i = kWhile) && has_backend_config i then
    r ← Unroll st i; OK ((r : Unrolling * list (Value * Value)).1, deps ++ r.2, true)
  else OK acc.
Definition Run (entry : C) (attrs : St) (p : HloPartition D) : Result (Unrolling * list (Value * Value) * bool) :=
  foldM run_instruction (MkUnrolling [] attrs ∅ ∅ ∅ (inl (root_instruction entry)) [] [] p ∅ ∅, [], false)
    (MakeInstructionPostOrder entry).
End unroll.
Arguments Unrolling I C St D {_ _ _ _}. Arguments Added I C : clear implicits.
