(* ===== verification/UnrollSemantics.v ===== *)
(** * An unrolled loop computes what the loop computes (mpmd_loop_unroll.cc)

    Instructions mean functions of the values of their operands.  The instructions of the
    body have a value in every iteration, the input of an iteration is the root tuple of
    the one before.  The new instructions, evaluated in order, have the values of the
    instructions they are clones of; every element of the loop is replaced by an
    instruction with its value. *)
From S2P Require Import Prelude Hlo Json Instruction Partition LoopConfig LoopScheduler Utils InstructionProperties Grouper GrouperSemantics GrouperBuild Unroll.
Local Open Scope Z_scope.

Section evaluation.
Context {I C V : Type} `{!Hlo I C}.
(** The values of the instructions of the module, and the meaning of instructions. *)
Context (val : I -> V) (element : V -> Z -> V) (tuple_sem : list V -> V) (call_sem : C -> list V -> V).
Context (offset_sem : I -> Z -> V) (dummy_sem : I -> V).
Implicit Types (vals : list V) (v : I + nat).

Definition value vals v : option V := match v with inl i => Some (val i) | inr n => vals !! n end.

Definition eval_added vals (a : Added I C) : option V :=
  match a with
  | AddedElement _ v k => x ← value vals v; Some (element x k)
  | AddedCall _ vs c => xs ← mapM (value vals) vs; Some (call_sem c xs)
  | AddedTuple _ vs => xs ← mapM (value vals) vs; Some (tuple_sem xs)
  | AddedOffset i offset => Some (offset_sem i offset)
  | AddedDummy i => Some (dummy_sem i)
  end.

Definition eval_all (l : list (Added I C)) : option (list V) :=
  foldl (fun acc a => vals ← acc; x ← eval_added vals a; Some (vals ++ [x])) (Some []) l.

Lemma eval_all_snoc l a : eval_all (l ++ [a]) = (vals ← eval_all l; x ← eval_added vals a; Some (vals ++ [x])).
Proof. unfold eval_all. by rewrite foldl_app. Qed.

Lemma eval_all_length l vals : eval_all l = Some vals -> length vals = length l.
Proof.
  revert vals. induction l as [|a l IH] using rev_ind; intros vals; [by intros [= <-]|]. rewrite eval_all_snoc.
  destruct (eval_all l) as [vs|]; [|done]. cbn. destruct (eval_added vs a) as [x|]; [|done]. intros [= <-].
  rewrite !length_app. by rewrite (IH vs).
Qed.

Lemma value_more vals more v x : value vals v = Some x -> value (vals ++ more) v = Some x.
Proof. destruct v; cbn; [done|]. apply lookup_app_l_Some. Qed.

Lemma values_mapM vals (vs : list (I + nat)) xs : Forall2 (fun v x => value vals v = Some x) vs xs -> mapM (value vals) vs = Some xs.
Proof. intros Hf. by apply mapM_Some. Qed.
End evaluation.

Section semantics.
Context {I C St D J V : Type} `{EqDecision I, !Countable I} `{!Hlo I C, !AttrStore (I + nat) St}.
Context `{EqDecision D, !Countable D, !DeviceListApi D} `{!HashOrder, !HeapOrder} `{!JsonApi J}.
Context (name : I + nat -> string) (raw_backend_config_string : I -> string) (es : gmap I (Entry I)).
Context (val : I -> V) (element : V -> Z -> V) (tuple_sem : list V -> V) (call_sem : C -> list V -> V).
Context (offset_sem : I -> Z -> V) (dummy_sem : I -> V).
Abbreviation Unrolling := (Unrolling I C St D).
Abbreviation eval_all := (eval_all val element tuple_sem call_sem offset_sem dummy_sem).
Abbreviation eval_added := (eval_added val element tuple_sem call_sem offset_sem dummy_sem).
Abbreviation value := (value val).
Implicit Types (st : Unrolling) (i o : I).

(** ** The loop *)

Section loop.
Context (input_tuple : I) (body : C) (parameter_tuple : I) (mb n : Z).
(** The values of the body in every iteration. *)
Context (ev : Z -> I -> V).
Abbreviation root := (root_instruction body).

(** The input [j] of iteration [k]. *)
Definition loop_input (k j : Z) (x : V) : Prop :=
  if bool_decide (k = 0) then exists o, operand input_tuple j = OK o /\ x = val o
  else exists o, operand root j = OK o /\ x = ev (k - 1) o.

(** [r0] are the elements that have been replaced before. *)
Record body_ok (r0 : gmap I (I + nat)) : Prop := {
  bo_root_last : exists l, MakeInstructionPostOrder body = l ++ [root] /\ root ∉ l;
  bo_root : opcode root = kTuple;
  bo_input : forall k i j, 0 <= k < n -> i ∈ MakeInstructionPostOrder body -> opcode i = kGetTupleElement ->
    operand i 0 = OK parameter_tuple -> j = tuple_index i -> loop_input k j (ev k i);
  bo_element : forall k i o, 0 <= k < n -> i ∈ MakeInstructionPostOrder body -> opcode i = kGetTupleElement ->
    operand i 0 = OK o -> o <> parameter_tuple -> ev k i = element (ev k o) (tuple_index i);
  bo_call : forall k i c, 0 <= k < n -> i ∈ MakeInstructionPostOrder body -> opcode i = kCall ->
    called_computation i 0 = OK c -> ev k i = call_sem c (ev k <$> operands i);
  bo_offset : forall k i, 0 <= k < n -> i ∈ MakeInstructionPostOrder body ->
    IsCustomCall i kCustomCallSliceOffset = true -> ev k i = offset_sem i (to_int32 (k * mb));
  bo_dummy : forall k i, 0 <= k < n -> i ∈ MakeInstructionPostOrder body ->
    IsCustomCall i kCustomCallDummyOperation = true -> ev k i = dummy_sem i;
  (** An input that the properties do not mark as carried is passed through. *)
  bo_passed : forall i o e, i ∈ MakeInstructionPostOrder body -> opcode i = kGetTupleElement -> operand i 0 = OK parameter_tuple ->
    operand input_tuple (tuple_index i) = OK o -> Get_value es (default (inl o) (r0 !! o)) = OK e ->
    loop_carried_index e = None -> operand root (tuple_index i) = OK i;
}.

Context (r0 : gmap I (I + nat)) (Hbody : body_ok r0).

(** A passed-through input has its first value in every iteration. *)
Lemma passed_through i o e k : 0 <= k < n -> i ∈ MakeInstructionPostOrder body -> opcode i = kGetTupleElement ->
  operand i 0 = OK parameter_tuple -> operand input_tuple (tuple_index i) = OK o ->
  Get_value es (default (inl o) (r0 !! o)) = OK e -> loop_carried_index e = None -> ev k i = val o.
Proof.
  intros [Hk Hn] Hi Hop Hpar Ho He Hc. revert Hn. pattern k. apply natlike_ind; [| |done].
  - intros Hn. pose proof (bo_input _ Hbody 0 i _ ltac:(lia) Hi Hop Hpar eq_refl) as (o' & Ho' & ->).
    rewrite Ho in Ho'. by injection Ho' as <-.
  - intros k' Hk' IH Hn. pose proof (bo_input _ Hbody (Z.succ k') i _ ltac:(lia) Hi Hop Hpar eq_refl) as Hin.
    unfold loop_input in Hin. rewrite bool_decide_eq_false_2 in Hin by lia. destruct Hin as (o' & Ho' & ->).
    rewrite (bo_passed _ Hbody i o e Hi Hop Hpar Ho He Hc) in Ho'. injection Ho' as <-.
    replace (Z.succ k' - 1) with k' by lia. apply IH. lia.
Qed.

(** ** The invariant

    [vals] are the values of the new instructions; [vals0] those from before the loop. *)
Record clones_ok (vals0 : list V) st (vals : list V) : Prop := {
  cs_eval : eval_all (added st) = Some vals;
  cs_prefix : exists more, vals = vals0 ++ more;
  cs_replaced : replaced st = r0;
  cs_values : forall i k v, clone_map st !! (i, k) = Some v -> value vals v = Some (ev k i);
}.

(** The tuple that the iteration [k] reads. *)
Definition prev_ok st vals (k : Z) : Prop :=
  if bool_decide (k = 0) then prev_loop_output_tuple st = inl input_tuple
  else exists m src ops, prev_loop_output_tuple st = inr m /\ added st !! m = Some (AddedTuple src ops) /\
    Forall2 (fun v o => value vals v = Some (ev (k - 1) o)) ops (operands root).

Definition outside_ok vals : Prop := forall i v, r0 !! i = Some v -> value vals v = Some (val i).

Lemma outside_more vals more : outside_ok vals -> outside_ok (vals ++ more).
Proof. intros Ho i v Hv. by apply value_more, Ho. Qed.

(** Steps that only change attributes, names and colors. *)
Definition same_graph st st' : Prop :=
  added st' = added st /\ clone_map st' = clone_map st /\ prev_loop_output_tuple st' = prev_loop_output_tuple st /\
  replaced st' = replaced st.

#[global] Instance same_graph_preorder : PreOrder same_graph.
Proof. split; [by intros ?|]. intros s1 s2 s3 (? & ? & ? & ?) (? & ? & ? & ?). split_and!; congruence. Qed.

Lemma clones_same vals0 st st' vals : same_graph st st' -> clones_ok vals0 st vals -> clones_ok vals0 st' vals.
Proof. intros (Ha & Hc & _ & Hr) [H1 H2 H3 H4]. split; rewrite ?Ha, ?Hc, ?Hr; done. Qed.

Lemma prev_same st st' vals k : same_graph st st' -> prev_ok st vals k -> prev_ok st' vals k.
Proof. intros (Ha & _ & Hp & _). unfold prev_ok. by rewrite Ha, Hp. Qed.

Lemma apply_color_same iter st i b st' : apply_color iter st i b = OK st' -> same_graph st st'.
Proof.
  unfold apply_color. destruct (clone_map st !! (i, iter)) as [v|]; [|by intros [= <-]].
  intros (d & _ & Hrun)%Result_bind_OK. destruct (d && negb b); [|by injection Hrun as <-].
  unfold ApplyLoopDependentColor in Hrun. cbn in Hrun. destruct (Color (attributes st) v); [|done].
  apply Result_bind_OK in Hrun as (cfg & _ & Hrun). destruct (to_loop_dependent_devices _); [|done].
  apply Result_bind_OK in Hrun as (s0 & _ & Hrun). destruct (bool_decide _); [done|].
  by apply Result_bind_OK in Hrun as ([[c p] m] & _ & [= <-]).
Qed.

(** The value of an operand of the input tuple. *)
Lemma input_operand vals0 st vals j v : clones_ok vals0 st vals -> outside_ok vals -> tuple_operand st (inl input_tuple) j = OK v ->
  exists o, operand input_tuple j = OK o /\ v = default (inl o) (r0 !! o) /\ value vals v = Some (val o).
Proof.
  intros Hc Hout Hv. cbn in Hv. apply vec_at_lookup in Hv as [Hj Hv]. rewrite list_lookup_fmap in Hv.
  destruct (operands input_tuple !! Z.to_nat j) as [o|] eqn:Ho; [|done]. injection Hv as <-. exists o.
  split; [by apply vec_at_lookup|]. unfold resolve. rewrite (cs_replaced _ _ _ Hc). split; [done|].
  destruct (r0 !! o) as [w|] eqn:Hw; cbn; [by apply Hout|done].
Qed.

(** The value of an operand of the tuple that an iteration reads. *)
Lemma prev_operand vals0 st vals k j v : 0 <= k -> clones_ok vals0 st vals -> outside_ok vals -> prev_ok st vals k ->
  tuple_operand st (prev_loop_output_tuple st) j = OK v -> exists x, loop_input k j x /\ value vals v = Some x.
Proof.
  intros Hk Hc Hout Hp Hv. unfold prev_ok in Hp. unfold loop_input. case_bool_decide.
  - rewrite Hp in Hv. destruct (input_operand vals0 st vals j v Hc Hout Hv) as (o & Ho & _ & Hval). exists (val o). eauto.
  - destruct Hp as (m & src & ops & Hp & Ha & Hops). rewrite Hp in Hv. cbn in Hv. rewrite Ha in Hv. cbn in Hv.
    apply vec_at_lookup in Hv as [Hj Hv]. destruct (Forall2_lookup_l _ _ _ _ _ Hops Hv) as (o & Ho & Hval).
    exists (ev (k - 1) o). split; [|done]. exists o. split; [|done]. by apply vec_at_lookup.
Qed.

(** ** One instruction *)

(** More instructions and values; the tuple that is read stays. *)
Definition grows st (vals : list V) st' (vals' : list V) : Prop :=
  (exists more, added st' = added st ++ more) /\ (exists more, vals' = vals ++ more) /\
  prev_loop_output_tuple st' = prev_loop_output_tuple st.

Lemma grows_same st st' vals : same_graph st st' -> grows st vals st' vals.
Proof. intros (Ha & _ & Hp & _). split; [exists []; by rewrite app_nil_r|]. split; [exists []; by rewrite app_nil_r|done]. Qed.

Lemma prev_grows st vals st' vals' k : grows st vals st' vals' -> prev_ok st vals k -> prev_ok st' vals' k.
Proof.
  intros ([ma Ha] & [mv ->] & Hp). unfold prev_ok. rewrite Hp. case_bool_decide; [done|].
  intros (m & src & ops & Hm & Hops & Hvals). exists m, src, ops. split; [done|]. rewrite Ha. split; [by apply lookup_app_l_Some|].
  eapply Forall2_impl; [exact Hvals|]. intros v o. apply value_more.
Qed.

Lemma clones_set vals0 st vals i k v : clones_ok vals0 st vals -> value vals v = Some (ev k i) -> clones_ok vals0 (set_clone (i, k) v st) vals.
Proof.
  intros [H1 H2 H3 H4] Hv. split; cbn; try done. intros j k' w. rewrite lookup_insert. case_decide as Hd; [|apply H4].
  injection Hd as <- <-. by intros [= <-].
Qed.

Lemma clones_add vals0 st vals a attrs x : clones_ok vals0 st vals -> eval_added vals a = Some x ->
  clones_ok vals0 (add_instruction a attrs st) (vals ++ [x]) /\ value (vals ++ [x]) (inr (length (added st))) = Some x.
Proof.
  intros [H1 [more ->] H3 H4] Hx. pose proof (eval_all_length _ _ _ _ _ _ _ _ H1) as Hlen. split.
  - split.
    + cbn [added add_instruction]. rewrite eval_all_snoc, H1. cbn [mbind option_bind]. by rewrite Hx.
    + exists (more ++ [x]). by rewrite app_assoc.
    + done.
    + intros j k v Hv. by apply value_more, (H4 j).
  - cbn. rewrite <- Hlen. by apply list_lookup_middle.
Qed.

(** The clone of an instruction that is added. *)
Lemma clones_clone vals0 st vals a attrs i k : clones_ok vals0 st vals -> eval_added vals a = Some (ev k i) ->
  clones_ok vals0 (set_clone (i, k) (inr (length (added st))) (add_instruction a attrs st)) (vals ++ [ev k i]) /\
  grows st vals (set_clone (i, k) (inr (length (added st))) (add_instruction a attrs st)) (vals ++ [ev k i]).
Proof.
  intros Hc Hx. destruct (clones_add vals0 st vals a attrs _ Hc Hx) as [Hok Hv]. split; [by apply clones_set|].
  split; [by eexists|]. split; [by eexists|done].
Qed.

Lemma clone_value vals0 st vals i k v : clones_ok vals0 st vals -> get_clone st i k = OK v -> value vals v = Some (ev k i).
Proof.
  unfold get_clone. intros Hc. destruct (clone_map st !! (i, k)) as [w|] eqn:Hw; [|done]. intros [= <-]. by apply (cs_values _ _ _ Hc).
Qed.

Implicit Types (k : Z).

Lemma unroll_element_ok vals0 st vals k i st' b : 0 <= k < n -> clones_ok vals0 st vals -> outside_ok vals -> prev_ok st vals k ->
  i ∈ MakeInstructionPostOrder body -> opcode i = kGetTupleElement ->
  unroll_element name es input_tuple parameter_tuple k st i = OK (st', b) ->
  exists vals', clones_ok vals0 st' vals' /\ grows st vals st' vals'.
Proof.
  intros Hk Hc Hout Hp Hi Hop. unfold unroll_element. intros (input & Hinput & Hrun)%Result_bind_OK.
  apply Result_bind_OK in Hrun as (e & He & Hrun). apply Result_bind_OK in Hrun as (o & Ho & Hrun).
  case_bool_decide as Hpar.
  - subst o. case_bool_decide as Hcar.
    + apply Result_bind_OK in Hrun as (alias & Halias & Hrun). apply Result_bind_OK in Hrun as (never & _ & [= <- _]).
      destruct (prev_operand vals0 st vals k _ _ ltac:(lia) Hc Hout Hp Halias) as (x & Hx & Hval).
      assert (x = ev k i) as ->.
      { pose proof (bo_input _ Hbody k i _ Hk Hi Hop Ho eq_refl) as Hin. unfold loop_input in Hx, Hin.
        case_bool_decide; destruct Hx as (o1 & Ho1 & ->), Hin as (o2 & Ho2 & ->); congruence. }
      exists vals. assert (same_graph st (if never then set_scheduling_name alias (name input) st else st)) as Hsame by (by destruct never).
      split; [|destruct (grows_same _ _ vals Hsame) as (? & ? & ?); done].
      apply clones_set; [|done]. by eapply clones_same.
    + apply Result_bind_OK in Hrun as (alias & Halias & [= <- _]).
      destruct (input_operand vals0 st vals _ _ Hc Hout Halias) as (o & Hoin & Hdef & Hval).
      rewrite Halias in Hinput. injection Hinput as <-.
      exists vals. split; [|by apply (grows_same st st)]. apply clones_set; [done|]. rewrite Hval. f_equal. symmetry.
      apply (passed_through i o e k Hk Hi Hop Ho Hoin); [by rewrite <- Hdef|]. destruct (loop_carried_index e); [by destruct Hcar|done].
  - apply Result_bind_OK in Hrun as (w & Hw & [= <- _]). pose proof (clone_value vals0 st vals o k w Hc Hw) as Hval.
    destruct (clones_clone vals0 st vals (AddedElement i w (tuple_index i)) (attributes st) i k Hc) as [Hok Hg].
    { cbn. rewrite Hval. cbn. by rewrite (bo_element _ Hbody k i o Hk Hi Hop Ho Hpar). }
    exists (vals ++ [ev k i]). split; [eapply clones_same; [|exact Hok]; done|]. destruct Hg as (? & ? & ?). done.
Qed.

Lemma unroll_call_ok vals0 st vals k i st' b : 0 <= k < n -> clones_ok vals0 st vals ->
  i ∈ MakeInstructionPostOrder body -> opcode i = kCall -> unroll_call root k st i = OK (st', b) ->
  exists vals', clones_ok vals0 st' vals' /\ grows st vals st' vals'.
Proof.
  intros Hk Hc Hi Hop. unfold unroll_call. destruct (_ && _); [done|]. intros (vs & Hvs & Hrun)%Result_bind_OK.
  apply Result_bind_OK in Hrun as (c & Hcall & Hrun). apply Result_bind_OK in Hrun as (ts & _ & [= <- _]).
  apply mapM_Result_Forall2 in Hvs.
  destruct (clones_clone vals0 st vals (AddedCall i vs c) (PropagateColor (inl i) (inr (length (added st))) (attributes st)).2 i k Hc) as [Hok Hg].
  { cbn. rewrite (values_mapM val vals vs (ev k <$> operands i)).
    - cbn. by rewrite (bo_call _ Hbody k i c Hk Hi Hop Hcall).
    - clear -Hvs Hc. induction Hvs as [|o v os vs Ho _ IH]; constructor; [by eapply clone_value|done]. }
  exists (vals ++ [ev k i]). split; [eapply clones_same; [|exact Hok]; done|]. destruct Hg as (? & ? & ?). done.
Qed.

Lemma unroll_custom_ok vals0 st vals k i st' b : 0 <= k < n -> clones_ok vals0 st vals ->
  i ∈ MakeInstructionPostOrder body -> unroll_custom_call mb k st i = OK (st', b) ->
  exists vals', clones_ok vals0 st' vals' /\ grows st vals st' vals'.
Proof.
  intros Hk Hc Hi. unfold unroll_custom_call, clone_instruction. destruct (IsCustomCall i kCustomCallSliceOffset) eqn:Ho.
  - case_bool_decide; [intros [= <- _]; exists vals; split; [done|by apply (grows_same st st)]|]. intros [= <- _].
    destruct (clones_clone vals0 st vals (AddedOffset i (to_int32 (k * mb)))
      (set_frontend_attributes (inr (length (added st))) (frontend_attributes (attributes st) (inl i)) (attributes st)) i k Hc) as [Hok Hg].
    { cbn. by rewrite (bo_offset _ Hbody k i Hk Hi Ho). }
    exists (vals ++ [ev k i]). split; [eapply clones_same; [|exact Hok]; done|]. destruct Hg as (? & ? & ?). done.
  - destruct (IsCustomCall i kCustomCallDummyOperation) eqn:Hd; [|done]. intros [= <- _].
    destruct (clones_clone vals0 st vals (AddedDummy i)
      (set_frontend_attributes (inr (length (added st))) (frontend_attributes (attributes st) (inl i)) (attributes st)) i k Hc) as [Hok Hg].
    { cbn. by rewrite (bo_dummy _ Hbody k i Hk Hi Hd). }
    exists (vals ++ [ev k i]). by split.
Qed.

(** The root tuple: the next iteration reads the new tuple. *)
Lemma unroll_tuple_ok vals0 st vals k i st' b : 0 <= k < n -> clones_ok vals0 st vals ->
  unroll_tuple name es input_tuple root k st i = OK (st', b) ->
  i = root /\ exists vals', clones_ok vals0 st' vals' /\ prev_ok st' vals' (k + 1) /\
    (exists more, added st' = added st ++ more) /\ (exists more, vals' = vals ++ more).
Proof.
  intros Hk Hc. unfold unroll_tuple. case_bool_decide as Hr; [done|]. subst i.
  intros ([st1 ops] & Hrun & [= <- _])%Result_bind_OK. split; [done|].
  apply (foldM_inv (fun done_ (acc : Unrolling * list (I + nat)) => same_graph st acc.1 /\
    Forall2 (fun v (io : Z * I) => value vals v = Some (ev k io.2)) acc.2 done_)) in Hrun.
  - destruct Hrun as [Hsame Hops]. cbn in Hsame, Hops. pose proof (clones_same vals0 _ _ vals Hsame Hc) as Hc1.
    assert (Forall2 (fun v o => value vals v = Some (ev k o)) ops (operands root)) as Hops2.
    { rewrite <- (snd_zip (seqZ 0 (Zlength (operands root))) (operands root)) by (rewrite length_seqZ; unfold Zlength; lia).
      apply Forall2_fmap_r. exact Hops. }
    destruct (clones_add vals0 st1 vals (AddedTuple root ops) (attributes st1) (tuple_sem (ev k <$> operands root)) Hc1) as [Hok Hval].
    { cbn. rewrite (values_mapM val vals ops (ev k <$> operands root)); [done|]. by apply Forall2_fmap_r. }
    eexists. split; [by destruct Hok; split|]. split; [|split].
    + unfold prev_ok. rewrite bool_decide_eq_false_2 by lia. exists (length (added st1)), root, ops. cbn. split; [done|].
      split; [by apply list_lookup_middle|]. replace (k + 1 - 1) with k by lia. eapply Forall2_impl; [exact Hops2|].
      intros v o. apply value_more.
    + cbn. rewrite (proj1 Hsame). by eexists.
    + by eexists.
  - split; [done|constructor].
  - intros done_ [j o] rest [s1 l1] [s2 l2] _ [Hsame Hl] Hs. cbn in *. apply Result_bind_OK in Hs as (v & Hv & Hs).
    apply Result_bind_OK in Hs as (e & _ & Hs). apply Result_bind_OK in Hs as (s3 & Hs3 & [= <- <-]).
    assert (same_graph s1 s3) as Hsame3.
    { case_bool_decide; [|by injection Hs3 as <-]. apply Result_bind_OK in Hs3 as (never & _ & Hs3). destruct never; [|by injection Hs3 as <-].
      by apply Result_bind_OK in Hs3 as (input & _ & [= <-]). }
    split; [by etrans|]. apply Forall2_app; [done|]. constructor; [|done]. cbn.
    eapply clone_value; [|exact Hv]. by eapply clones_same.
Qed.

(** ** An iteration and the loop *)

Lemma unroll_instruction_ok vals0 st vals k i st' : 0 <= k < n -> clones_ok vals0 st vals -> outside_ok vals -> prev_ok st vals k ->
  i ∈ MakeInstructionPostOrder body ->
  unroll_instruction name es input_tuple body parameter_tuple mb k st i = OK st' ->
  exists vals', clones_ok vals0 st' vals' /\ (exists more, vals' = vals ++ more) /\
    (if bool_decide (i = root) then prev_ok st' vals' (k + 1) else prev_ok st' vals' k).
Proof.
  intros Hk Hc Hout Hp Hi. unfold unroll_instruction. intros ([st1 b] & Hrun & Hcol)%Result_bind_OK. cbn in Hcol.
  apply apply_color_same in Hcol.
  assert (forall vals', clones_ok vals0 st1 vals' -> grows st vals st1 vals' -> opcode i <> kTuple ->
    exists vals', clones_ok vals0 st' vals' /\ (exists more, vals' = vals ++ more) /\
    (if bool_decide (i = root) then prev_ok st' vals' (k + 1) else prev_ok st' vals' k)) as Hgrow.
  { intros vals' Hok Hg Hop. exists vals'. split; [by eapply clones_same|]. split; [by destruct Hg as (_ & ? & _)|].
    rewrite bool_decide_eq_false_2; [eapply prev_same; [exact Hcol|]; by eapply prev_grows|].
    intros ->. by rewrite (bo_root _ Hbody) in Hop. }
  destruct (opcode i) eqn:Hop; try done.
  - destruct (unroll_call_ok vals0 st vals k i st1 b Hk Hc Hi Hop Hrun) as (vals' & ? & ?). by eapply Hgrow.
  - destruct (unroll_custom_ok vals0 st vals k i st1 b Hk Hc Hi Hrun) as (vals' & ? & ?). by eapply Hgrow.
  - destruct (unroll_element_ok vals0 st vals k i st1 b Hk Hc Hout Hp Hi Hop Hrun) as (vals' & ? & ?). by eapply Hgrow.
  - injection Hrun as <- _. apply (Hgrow vals); [done|by apply grows_same|done].
  - destruct (unroll_tuple_ok vals0 st vals k i st1 b Hk Hc Hrun) as (-> & vals' & Hok & Hp' & _ & Hmore).
    exists vals'. split; [by eapply clones_same|]. split; [done|]. rewrite bool_decide_eq_true_2 by done. by eapply prev_same.
Qed.

Lemma unroll_iteration_ok vals0 st vals k st' : 0 <= k < n -> clones_ok vals0 st vals -> outside_ok vals -> prev_ok st vals k ->
  unroll_iteration name es input_tuple body parameter_tuple mb st k = OK st' ->
  exists vals', clones_ok vals0 st' vals' /\ (exists more, vals' = vals ++ more) /\ prev_ok st' vals' (k + 1).
Proof.
  intros Hk Hc Hout Hp Hrun. unfold unroll_iteration in Hrun. destruct (bo_root_last _ Hbody) as (l & Hl & Hnot).
  apply (foldM_inv (fun done_ s => exists vals', clones_ok vals0 s vals' /\ (exists more, vals' = vals ++ more) /\
    (if decide (root ∈ done_) then prev_ok s vals' (k + 1) else prev_ok s vals' k))) in Hrun.
  - destruct Hrun as (vals' & ? & ? & Hlast). exists vals'. split; [done|]. split; [done|].
    rewrite decide_True in Hlast; [done|]. rewrite Hl. apply elem_of_app. right. by left.
  - exists vals. split; [done|]. split; [exists []; by rewrite app_nil_r|]. rewrite decide_False by apply not_elem_of_nil. done.
  - intros done_ i rest s s' Heq (vs & Hs & [more ->] & Hps) Hi.
    assert (root ∉ done_) as Hnr.
    { intros Hin. rewrite Hl in Heq. destruct rest as [|y rest _] using rev_ind.
      - apply app_inj_tail in Heq as [-> _]. done.
      - rewrite app_comm_cons, app_assoc in Heq. apply app_inj_tail in Heq as [-> _]. apply Hnot, elem_of_app. by left. }
    rewrite decide_False in Hps by done.
    destruct (unroll_instruction_ok vals0 s _ k i s' Hk Hs (outside_more _ _ Hout) Hps) as (vs' & Hs' & [more' ->] & Hps'); [|done|].
    { rewrite Heq. apply elem_of_app. right. by left. }
    exists ((vals ++ more) ++ more'). split; [done|]. split; [exists (more ++ more'); by rewrite app_assoc|].
    case_bool_decide as Hr.
    + subst i. rewrite decide_True; [done|]. apply elem_of_app. right. by left.
    + rewrite decide_False; [done|]. intros [?|?%list_elem_of_singleton]%elem_of_app; [done|congruence].
Qed.

Lemma unroll_iterations_ok vals0 st st' : clones_ok vals0 st vals0 -> outside_ok vals0 -> prev_ok st vals0 0 -> 0 <= n ->
  foldM (unroll_iteration name es input_tuple body parameter_tuple mb) st (seqZ 0 n) = OK st' ->
  exists vals', clones_ok vals0 st' vals' /\ prev_ok st' vals' n.
Proof.
  intros Hc Hout Hp Hn Hrun.
  apply (foldM_inv (fun done_ s => exists vals', clones_ok vals0 s vals' /\ prev_ok s vals' (Zlength done_))) in Hrun.
  - destruct Hrun as (vals' & ? & Hp'). exists vals'. split; [done|]. unfold Zlength in Hp'. rewrite length_seqZ in Hp'.
    by rewrite Z2Nat.id in Hp'.
  - by exists vals0.
  - intros done_ k rest s s' Heq (vs & Hs & Hps) Hk.
    assert (seqZ 0 n !! length done_ = Some k) as Hl by (rewrite Heq; by apply list_lookup_middle).
    apply lookup_seqZ in Hl as [-> Hlt]. rewrite Z.add_0_l in Hk. fold (Zlength done_) in Hlt, Hk.
    destruct (cs_prefix _ _ _ Hs) as [more Hm].
    assert (outside_ok vs) as Hov by (rewrite Hm; by apply outside_more).
    destruct (unroll_iteration_ok vals0 s vs (Zlength done_) s' (conj (Zlength_nonneg _) Hlt) Hs Hov Hps Hk) as (vs' & ? & _ & ?).
    exists vs'. split; [done|]. unfold Zlength in *. rewrite length_app. cbn. by replace (Z.of_nat (length done_ + 1)) with (Z.of_nat (length done_) + 1) by lia.
Qed.

(** The element of the last tuple has the value of the loop. *)
Lemma tuple_operand_ok st vals j v x : 0 <= n -> clones_ok vals st vals -> outside_ok vals -> prev_ok st vals n -> loop_input n j x ->
  tuple_operand st (prev_loop_output_tuple st) j = OK v -> value vals v = Some x.
Proof.
  intros Hn Hc Hout Hp Hx Hv. unfold prev_ok in Hp. unfold loop_input in Hx. case_bool_decide as Hz.
  - rewrite Hp in Hv. destruct Hx as (o & Ho & ->). cbn in Hv. unfold operand in Ho.
    apply vec_at_lookup in Hv as [Hj Hv], Ho as [_ Ho]. rewrite list_lookup_fmap, Ho in Hv. injection Hv as <-.
    unfold resolve. rewrite (cs_replaced _ _ _ Hc). destruct (r0 !! o) as [w|] eqn:Hw; [by apply (Hout o)|done].
  - destruct Hx as (o & Ho & ->). destruct Hp as (m & src & ops & Hm & Ha & Hops). rewrite Hm in Hv. cbn in Hv. rewrite Ha in Hv.
    cbn in Hv. apply vec_at_lookup in Hv as [_ Hv]. unfold operand in Ho. apply vec_at_lookup in Ho as [_ Ho].
    exact (Forall2_lookup_lr _ _ _ _ _ _ Hops Hv Ho).
Qed.

Lemma replace_users_ok st vals us r : 0 <= n -> clones_ok vals st vals -> outside_ok vals -> prev_ok st vals n ->
  (forall u, u ∈ us -> loop_input n (tuple_index u) (val u)) -> foldM (replace_user st) r0 us = OK r ->
  (forall i v, r !! i = Some v -> value vals v = Some (val i)) /\ (forall u, u ∈ us -> is_Some (r !! u)).
Proof.
  intros Hn Hc Hout Hp Hus Hrun.
  apply (foldM_inv (fun (done_ : list I) (r : gmap I (I + nat)) => (forall i v, r !! i = Some v -> value vals v = Some (val i)) /\
    (forall u, u ∈ done_ -> is_Some (r !! u)))) in Hrun; [done| |].
  - split; [done|]. intros u Hu. by apply not_elem_of_nil in Hu.
  - intros done_ u rest r1 r2 Heq [Hok Hdom] (v & Hv & [= <-])%Result_bind_OK. split.
    + intros i w. rewrite lookup_insert_Some. intros [[<- <-]|[_ Hw]]; [|by apply Hok].
      eapply tuple_operand_ok; try done. apply Hus. rewrite Heq. set_solver.
    + intros w [Hw|Hw%list_elem_of_singleton]%elem_of_app; [|subst; rewrite lookup_insert_eq; by eexists].
      destruct (decide (u = w)) as [->|]; [rewrite lookup_insert_eq; by eexists|]. rewrite lookup_insert_ne by done. by apply Hdom.
Qed.
End loop.

(** C5: The unrolled loop computes what the loop does: when the instructions of its body have the
    values [ev] in every iteration, the new instructions can be evaluated, their values
    extend the ones of the instructions that were there, and every element of the loop is
    replaced by an instruction that has its value. *)
Theorem Unroll_computes st while_loop st' deps vals0 ev input_tuple body parameter_tuple config :
  Unroll (J := J) name raw_backend_config_string es st while_loop = OK (st', deps) ->
  called_computation while_loop 0 = OK body -> operand while_loop 0 = OK input_tuple ->
  vec_at (parameter_instructions body) 0 = OK parameter_tuple ->
  GetMicrobatchConfig (J := J) (raw_backend_config_string while_loop) = OK config ->
  body_ok input_tuple body parameter_tuple (microbatch_size config) (num_iterations config) ev (replaced st) ->
  eval_all (added st) = Some vals0 -> outside_ok (replaced st) vals0 ->
  (forall u, u ∈ users while_loop -> loop_input input_tuple body ev (num_iterations config) (tuple_index u) (val u)) ->
  exists vals, eval_all (added st') = Some (vals0 ++ vals) /\
    (forall i v, replaced st' !! i = Some v -> value (vals0 ++ vals) v = Some (val i)) /\
    (forall u, u ∈ users while_loop -> is_Some (replaced st' !! u)).
Proof.
  intros Hrun Hb Hi Hp Hc Hbody Heval Hout Hus. unfold Unroll in Hrun. rewrite Hb, Hi in Hrun. cbn [Result_bind] in Hrun.
  rewrite Hc in Hrun. cbn [mbind Result_bind] in Hrun. case_bool_decide as Hn; [done|]. cbn [Result_bind] in Hrun.
  rewrite Hp in Hrun. cbn [mbind Result_bind] in Hrun.
  apply Result_bind_OK in Hrun as (st1 & Hit & Hrun). apply Result_bind_OK in Hrun as (r & Hr & Hrun).
  apply Result_bind_OK in Hrun as (schedule & _ & Hrun). apply Result_bind_OK in Hrun as (deps' & _ & [= <- <-]).
  destruct (unroll_iterations_ok _ _ _ _ _ _ _ Hbody vals0 (start_unrolling input_tuple (num_iterations config) st) st1)
    as (vals & Hok & Hprev); try done; [|lia|].
  { split; [done|exists []; by rewrite app_nil_r|done|by intros ???]. }
  destruct (cs_prefix _ _ _ _ _ Hok) as [more ->]. rewrite (cs_replaced _ _ _ _ _ Hok) in Hr.
  destruct (replace_users_ok _ _ _ _ _ _ _ Hbody st1 (vals0 ++ more) (users while_loop) r) as [H1 H2]; try done.
  - lia.
  - destruct Hok. split; [done|exists []; by rewrite app_nil_r|done|done].
  - by apply outside_more.
  - exists more. split; [exact (cs_eval _ _ _ _ _ Hok)|]. done.
Qed.
End semantics.
