(* ===== verification/UnrollSamples.v ===== *)
(** * The order of unrolled tasks, and an unrolled loop (mpmd_loop_unroll.cc)

    The control dependencies order the tasks of every row of the schedule that run on the
    same devices, and nothing else; a loop of three iterations over two submeshes. *)
From S2P Require Import Prelude Hlo Json Instruction Partition LoopConfig LoopScheduler Utils InstructionProperties Unroll UnrollSemantics.
Local Open Scope Z_scope.

Section dependencies.
Context {I D : Type} `{EqDecision D}.
Context (devices : I + nat -> Result D).
Implicit Types (row : list (I + nat)) (deps : list ((I + nat) * (I + nat))).

(** A dependency from a task to a later one of the row on the same devices. *)
Definition ordered_in row (x y : I + nat) : Prop :=
  exists i j d, (i < j)%nat /\ row !! i = Some x /\ row !! j = Some y /\ devices x = OK d /\ devices y = OK d.

Lemma ordered_in_cons lhs row x y : ordered_in row x y -> ordered_in (lhs :: row) x y.
Proof. intros (i & j & d & ? & ? & ? & ? & ?). exists (S i), (S j), d. split_and!; try done. lia. Qed.

Lemma next_on_devices_spec d rest o : next_on_devices devices d rest = OK o ->
  match o with
  | Some y => exists before after, rest = before ++ y :: after /\ devices y = OK d /\ Forall (fun x => devices x <> OK d) before
  | None => Forall (fun x => devices x <> OK d) rest
  end.
Proof.
  induction rest as [|x rest IH]; cbn; [by intros [= <-]|]. intros (d' & Hd & Hrun)%Result_bind_OK.
  case_bool_decide as Heq; [injection Hrun as <-; subst d'; by exists [], rest|].
  apply IH in Hrun. destruct o as [y|]; [|constructor; [congruence|done]].
  destruct Hrun as (before & after & -> & Hy & Hb). exists (x :: before), after. split; [done|]. split; [done|].
  constructor; [congruence|done].
Qed.

Lemma row_dependencies_sound row deps x y : row_dependencies devices row = OK deps -> (x, y) ∈ deps -> ordered_in row x y.
Proof.
  revert deps. induction row as [|lhs row IH]; cbn; intros deps; [intros [= <-] Hin; by apply not_elem_of_nil in Hin|].
  intros (d & Hd & Hrun)%Result_bind_OK. apply Result_bind_OK in Hrun as (next & Hn & Hrun).
  apply Result_bind_OK in Hrun as (deps' & Hdeps & [= <-]). apply next_on_devices_spec in Hn.
  destruct next as [z|]; [|intros; by eapply ordered_in_cons, IH].
  intros [[= -> ->]|Hin]%elem_of_cons; [|by eapply ordered_in_cons, IH].
  destruct Hn as (before & after & -> & Hz & _). exists 0%nat, (S (length before)), d. cbn.
  split_and!; try done; [lia|]. by apply list_lookup_middle.
Qed.

Lemma row_dependencies_total row deps x y : row_dependencies devices row = OK deps -> ordered_in row x y ->
  tc (fun a b => (a, b) ∈ deps) x y.
Proof.
  revert deps x y. induction row as [|lhs row IH]; cbn; intros deps x y; [intros _ (i & j & d & _ & Hi & _); by destruct i|].
  intros (d & Hd & Hrun)%Result_bind_OK. apply Result_bind_OK in Hrun as (next & Hn & Hrun).
  apply Result_bind_OK in Hrun as (deps' & Hdeps & [= <-]). apply next_on_devices_spec in Hn.
  assert (forall a b, tc (fun a b => (a, b) ∈ deps') a b ->
    tc (fun a b => (a, b) ∈ match next with Some rhs => (lhs, rhs) :: deps' | None => deps' end) a b) as Hmono.
  { intros a b. induction 1 as [? ? ?|? ? ? ?]; [apply tc_once|eapply tc_l; [|done]]; (destruct next; [by right|done]). }
  intros (i & j & d' & Hij & Hi & Hj & Hdx & Hdy). destruct j as [|j]; [lia|]. change (row !! j = Some y) in Hj.
  destruct i as [|i]; [cbn in Hi|change (row !! i = Some x) in Hi].
  - injection Hi as <-. assert (d' = d) as -> by congruence. destruct next as [z|].
    + destruct Hn as (before & after & -> & Hz & Hbefore). destruct (decide (length before < j)%nat) as [Hlt|].
      * eapply tc_l; [by left|]. apply Hmono. apply IH; [done|]. exists (length before), j, d. split_and!; try done.
        by apply list_lookup_middle.
      * destruct (decide (j = length before)) as [->|].
        -- rewrite list_lookup_middle in Hj by done. injection Hj as <-.
           apply tc_once. by left.
        -- rewrite lookup_app_l in Hj by lia.
           rewrite Forall_lookup in Hbefore. by apply Hbefore in Hj.
    + rewrite Forall_lookup in Hn. by apply Hn in Hj.
  - apply Hmono, IH; [done|]. exists i, j, d'. split_and!; try done. lia.
Qed.

Lemma control_dependencies_rows schedule deps : control_dependencies devices schedule = OK deps ->
  (forall x y, (x, y) ∈ deps -> exists row d, row ∈ schedule /\ row_dependencies devices row = OK d /\ (x, y) ∈ d) /\
  (forall row, row ∈ schedule -> exists d, row_dependencies devices row = OK d /\ d ⊆ deps).
Proof.
  unfold control_dependencies. intros Hrun.
  apply (foldM_inv (fun done_ (deps : list ((I + nat) * (I + nat))) =>
    (forall x y, (x, y) ∈ deps -> exists row d, row ∈ done_ /\ row_dependencies devices row = OK d /\ (x, y) ∈ d) /\
    (forall row, row ∈ done_ -> exists d, row_dependencies devices row = OK d /\ d ⊆ deps))) in Hrun; [done| |].
  - split; [intros x y Hin|intros row Hin]; by apply not_elem_of_nil in Hin.
  - intros done_ row rest l l' _ [H1 H2] (d & Hd & [= <-])%Result_bind_OK. split.
    + intros x y [Hin|Hin]%elem_of_app.
      * destruct (H1 x y Hin) as (row' & d' & ? & ? & ?). exists row', d'. split; [set_solver|done].
      * exists row, d. split; [set_solver|done].
    + intros row' [Hin|Hin%list_elem_of_singleton]%elem_of_app.
      * destruct (H2 row' Hin) as (d' & ? & ?). exists d'. split; [done|set_solver].
      * subst. exists d. split; [done|set_solver].
Qed.

End dependencies.

(** A loop that adds [w] to a sum three times; the body calls a task with a tuple result.
    The task runs on the two submeshes of the color "a" in turn. *)
Module UnrollSample.
Definition element (o : nat) (k : Z) : Graph.node := Graph.Node kGetTupleElement [o] k [] "" "" false 1 false.
Definition call (args : list nat) (c : nat) : Graph.node := Graph.Node kCall args 0 [c] "" "" true 1 false.
Definition nodes : list Graph.node :=
  [Graph.op kParameter []; Graph.op kParameter []; Graph.op kTuple [0; 1];
   Graph.op kParameter []; element 3 0; element 3 1; call [4; 5] 0; element 6 0; Graph.op kTuple [7; 5];
   Graph.Node kWhile [2] 0 [1; 1] "" "" true 1 false; element 9 0]%nat.
Definition comps : list Graph.comp := [Graph.dummy_comp; Graph.Comp 8 [3] [3; 4; 5; 6; 7; 8]]%nat.
#[export] Instance hlo0 : Hlo nat nat := Graph.hlo nodes comps.
#[export] Instance order0 : HashOrder := insertion_order.
#[export] Instance heap0 : HeapOrder := merge_heap.

Abbreviation Attrs := (gmap (nat + nat) (gmap string string)).
#[export] Instance store : AttrStore (nat + nat) Attrs := {
  frontend_attributes s i := default ∅ (s !! i);
  set_frontend_attributes i m s := <[i := m]> s;
  add_frontend_attributes i m s := <[i := default ∅ (s !! i) ∪ m]> s;
}.

Definition json : string := JsonTree.print (JsonTree.JObject
  [("num_microbatches", JsonTree.JInt 3); ("size", JsonTree.JInt 2); ("slice_dim", JsonTree.JInt 0)]).
Definition config : LoopConfig := Build_LoopConfig 3 0 2 0 0 None kFillDrain None None None None.
Definition submesh (iter : Z) : list Z := if bool_decide (iter = 1) then [2; 3] else [0; 1].
Definition partition : HloPartition Slice.t :=
  (AllocateColor_named (Create (Slice.mk 0 4)) "a" (Slice.mk 0 2)
    (Build_TaskOptions None [] [] [] [] None (Some submesh))).2.
Definition attrs : Attrs := AssignColor (inl 6%nat) "a" ∅.
Definition es : gmap nat (Entry nat) :=
  let e := default_entry in
  let carried := MkEntry (derived_constant e) (derived_parameter e) (allow_recomputation e) (parameter_copy e)
    (forward_alias e) (backward_alias e) (parameter_number e) (Some 0) (loop_parameter_index e)
    (elementwise_connected_to_entry_output e) (equivalent_to_while_output e) (additive_to_while_input e)
    (loop_carried_initializer e) in
  {[0 := carried; 1 := e; 5 := e; 7 := carried]}%nat.
Definition start : Unrolling nat nat Attrs Slice.t :=
  MkUnrolling [] attrs ∅ ∅ ∅ (inl 0%nat) [] [] partition ∅ ∅.
Definition run : Result (Unrolling nat nat Attrs Slice.t * list ((nat + nat) * (nat + nat))) :=
  Unroll (J := JsonTree.t) (fun _ => "") (fun _ => json) es start 9%nat.

(** Values are numbers; a tuple result is its only element. *)
Definition val (i : nat) : Z := nth i [3; 10; 0; 0; 0; 0; 0; 0; 0; 0; 33] 0.
Definition ev (k : Z) (i : nat) : Z :=
  nth i [0; 0; 0; 0; 3 + 10 * k; 10; 3 + 10 * (k + 1); 3 + 10 * (k + 1)] 0.
Abbreviation element_sem := (fun (x : Z) (_ : Z) => x).
Abbreviation tuple_sem := (fun _ : list Z => 0).
Abbreviation call_sem := (fun (_ : nat) (l : list Z) => foldr Z.add 0 l).
Abbreviation offset_sem := (fun (_ : nat) (o : Z) => o).
Abbreviation dummy_sem := (fun _ : nat => 0).
End UnrollSample.
Import UnrollSample.

Lemma sample_body : body_ok es val element_sem call_sem offset_sem dummy_sem 2%nat 1%nat 3%nat 2 3 ev ∅.
Proof.
  split.
  - exists [3; 4; 5; 6; 7]%nat. split; [done|]. set_solver.
  - done.
  - intros k i j Hk Hi Hop Ho ->. cbn in Hi. unfold loop_input.
    repeat (apply elem_of_cons in Hi as [->|Hi]); try (by apply elem_of_nil in Hi); try discriminate.
    + case_bool_decide; [exists 0%nat; subst k; done|exists 7%nat; split; [done|cbn; lia]].
    + case_bool_decide; [exists 1%nat; done|exists 5%nat; done].
  - intros k i o Hk Hi Hop Ho Hne. cbn in Hi.
    repeat (apply elem_of_cons in Hi as [->|Hi]); try (by apply elem_of_nil in Hi); try discriminate; injection Ho as <-; done.
  - intros k i c Hk Hi Hop Hc. cbn in Hi.
    repeat (apply elem_of_cons in Hi as [->|Hi]); try (by apply elem_of_nil in Hi); try discriminate. cbn. lia.
  - intros k i Hk Hi Hc. cbn in Hi. repeat (apply elem_of_cons in Hi as [->|Hi]); try (by apply elem_of_nil in Hi); discriminate.
  - intros k i Hk Hi Hc. cbn in Hi. repeat (apply elem_of_cons in Hi as [->|Hi]); try (by apply elem_of_nil in Hi); discriminate.
  - intros i o e Hi Hop Ho Hin He Hcar. cbn in Hi.
    repeat (apply elem_of_cons in Hi as [->|Hi]); try (by apply elem_of_nil in Hi); try discriminate;
    injection Hin as <-; [|done]. rewrite lookup_empty in He. injection He as <-. discriminate.
Qed.

Lemma elem_of_users_9 (u : nat) : u ∈ users 9%nat <-> u = 10%nat.
Proof. change (users 9%nat) with [10%nat]. apply list_elem_of_singleton. Qed.

Lemma Unroll_computes_witness :
  exists st deps vals v, run = OK (st, deps) /\ deps = [(inr 0%nat, inr 6%nat)] /\
    eval_all val element_sem tuple_sem call_sem offset_sem dummy_sem (added st) = Some ([] ++ vals) /\
    replaced st !! 10%nat = Some v /\ value val vals v = Some 33.
Proof.
  destruct run as [[st deps]| |] eqn:Hrun; [|vm_compute in Hrun; discriminate..].
  assert (deps = [(inr 0%nat, inr 6%nat)]) as Hdeps by (vm_compute in Hrun; by injection Hrun as _ <-).
  destruct (Unroll_computes (J := JsonTree.t) (fun _ => "") (fun _ => json) es val element_sem tuple_sem call_sem offset_sem dummy_sem
    start 9%nat st deps [] ev 2%nat 1%nat 3%nat config) as (vals & Hvals & Hok & Hdom).
  - exact Hrun.
  - done.
  - done.
  - done.
  - by vm_compute.
  - exact sample_body.
  - done.
  - intros i v Hv. change (replaced start) with (∅ : gmap nat (nat + nat)) in Hv. by rewrite lookup_empty in Hv.
  - intros u Hu. apply elem_of_users_9 in Hu as ->. exists 7%nat. by split.
  - destruct (Hdom 10%nat) as [v Hv]; [by apply elem_of_users_9|]. exists st, deps, vals, v. split; [done|]. split; [done|].
    split; [exact Hvals|]. split; [exact Hv|]. by apply (Hok 10%nat).
Defined.

