(* ===== verification/InsertReshard.v ===== *)
(** * Inserting reshards (mpmd_insert_reshard.h/.cc)

    An operand of a task that is not on the devices of the task, or not laid out as the
    task takes it, goes through a custom call "Reshard" on the devices of the task; scalar
    outputs go to all devices.

    The edits of the entry computation are part of the state: an operand is an instruction
    of the module, [inl i], or a new reshard, [inr n], at a position of the list
    [reshards]; [uses] has the operands of the instructions of the entry computation. *)
From S2P Require Import Prelude Hlo Instruction Partition Sharding Utils BufferScheduling.
Local Open Scope Z_scope.

Section insert_reshard.
Context {I C St D HS : Type} `{EqDecision I, !Countable I} `{!Hlo I C, !AttrStore (I + nat) St}.
Context `{EqDecision D, !Countable D, !DeviceListApi D} `{!HloShardingApi HS}.
Abbreviation Value := (I + nat)%type.
(** [DeviceList::Contains]; the sharding and the shape of an instruction. *)
Context (Contains : D -> D -> bool) (sharding_ptr : I -> option HS) (shape : I -> Shape).
Implicit Types (i o : I) (v : Value) (s : HS) (devices : D).

Record ReshardCall := MkReshardCall {
  rs_operand : Value;
  rs_shape : Shape;
  rs_sharding : option HS;
}.

Record Resharding := MkResharding {
  reshards : list ReshardCall;
  uses : gmap I (list Value);
  attributes : St;
  reshard_map : list ((ShardedShape D * Value) * Value);
  partition_ : HloPartition D;
  changed : bool;
}.
Implicit Types (st : Resharding).

(** *** The module as it is now *)

Definition operands_of st i : list Value := default [] (uses st !! i).
Definition sharding_of st v : option HS :=
  match v with inl i => sharding_ptr i | inr n => r ← reshards st !! n; rs_sharding r end.
Definition shape_of st v : option Shape :=
  match v with inl i => Some (shape i) | inr n => rs_shape <$> reshards st !! n end.
Definition sharding_or_default (s : option HS) : HS := default Replicate s.

Definition is_custom_call v (target : string) : bool :=
  match v with inl i => IsCustomCall i target | inr _ => bool_decide (target = kCustomCallReshard) end.

(** The number of different users. *)
Definition num_users st v : nat :=
  (size (filter (fun io : I * list Value => v ∈ io.2) (uses st)) +
   length (filter (fun r => rs_operand r = v) (reshards st)))%nat.

Definition set_uses st i (l : list Value) : Resharding :=
  MkResharding (reshards st) (<[i := l]> (uses st)) (attributes st) (reshard_map st) (partition_ st) true.

(** A user that is the new producer itself keeps its operands. *)
Definition replace_use (old new v : Value) : Value := if bool_decide (v = old) then new else v.
Definition ReplaceAllUsesWith (old new : Value) st : Resharding :=
  MkResharding
    (imap (fun n r => if bool_decide (inr n = new) then r
                      else MkReshardCall (replace_use old new (rs_operand r)) (rs_shape r) (rs_sharding r)) (reshards st))
    (map_imap (fun i l => Some (if bool_decide (inl i = new) then l else map (replace_use old new) l)) (uses st))
    (attributes st) (reshard_map st) (partition_ st) true.

Definition RemoveInstruction i st : Resharding :=
  MkResharding (reshards st) (delete i (uses st)) (attributes st) (reshard_map st) (partition_ st) true.

(** ** Which operands need a reshard *)

Definition NeedsReshard operand_devices devices (operand_sharding s : HS) : bool :=
  if IsReplicated operand_sharding && IsReplicated s && Contains operand_devices devices then false
  else bool_decide (operand_devices <> devices) || negb (MeshEquivalentSharding operand_sharding s).

Definition get_instruction_devices st v : Result D :=
  match Color (attributes st) v with
  | Some color => DevicesForColor (partition_ st) color
  | None =>
      match v with
      | inl i =>
          if bool_decide (opcode i <> kParameter) then Fatal LogFatal
          else match sharding_ptr i with
               | None => OK (devices_ (partition_ st))
               | Some s => OK (GetDevices s (devices_ (partition_ st)))
               end
      | inr _ => Fatal LogFatal
      end
  end.

(** A new reshard of the color. *)
Definition add_reshard (r : ReshardCall) (color : string) (p : HloPartition D) st : Value * Resharding :=
  let n := inr (length (reshards st)) in
  (n, MkResharding (reshards st ++ [r]) (uses st) (AssignColor n color (attributes st)) (reshard_map st) p (changed st)).
Definition remember_reshard (key : ShardedShape D * Value) (n : Value) st : Resharding :=
  MkResharding (reshards st) (uses st) (attributes st) ((key, n) :: reshard_map st) (partition_ st) (changed st).

Definition find_reshard st (key : ShardedShape D * Value) : option Value :=
  snd <$> find (fun e => bool_decide (e.1 = key)) (reshard_map st).

(** The shape of the user is converted without a check: an error is fatal. *)
Definition make_reshard_if_needed (user_color : string) operand_devices devices (operand : Value) (user : I) st
    : Result (option Value * Resharding) :=
  let s := sharding_or_default (sharding_ptr user) in
  if NeedsReshard operand_devices devices (sharding_or_default (sharding_of st operand)) s then
    match XlaShapeToZukuShape (shape user) devices s true with
    | OK parameter_shape =>
        match find_reshard st (parameter_shape, operand) with
        | Some reshard => OK (Some reshard, st)
        | None =>
            let q := add_reshard (MkReshardCall operand (shape user) (sharding_ptr user)) user_color (partition_ st) st in
            OK (Some q.1, remember_reshard (parameter_shape, operand) q.1 q.2)
        end
    | Err _ _ => Fatal LogFatal
    | Fatal f => Fatal f
    end
  else OK (None, st).

(** ** The operands of tasks *)

Definition skips_operand v : bool :=
  is_custom_call v kCustomCallDummyOperation || is_custom_call v kCustomCallSliceOffset.

Definition reshard_operand i (color : string) devices (computation : C) st (index : Z) : Result Resharding :=
  operand ← vec_at (operands_of st i) index;
  if skips_operand operand then OK st
  else
    parameter ← vec_at (parameter_instructions computation) index;
    operand_devices ← get_instruction_devices st operand;
    r ← make_reshard_if_needed color operand_devices devices operand parameter st;
    match (r : option Value * Resharding) with
    | (Some reshard, st) => l ← vec_set (operands_of st i) index reshard; OK (set_uses st i l)
    | (None, st) => OK st
    end.

Definition reshard_call st i : Result Resharding :=
  if bool_decide (opcode i = kCall) then
    computation ← called_computation i 0;
    match Color (attributes st) (inl i) with
    | None => Err kInvalidArgument "has not been assigned a color"
    | Some color =>
        devices ← DevicesForColor (partition_ st) color;
        foldM (reshard_operand i color devices computation) st (seqZ 0 (Zlength (operands_of st i)))
    end
  else OK st.

(** ** The outputs *)

Definition reshard_recolored st (operand : Value) : Result Resharding :=
  match Color (attributes st) operand with
  | None => Err kInvalidArgument "has not been assigned a color"
  | Some color =>
      devices ← DevicesForColor (partition_ st) color;
      match operand with
      | inr _ => OK st      (* not reached: a reshard is no such custom call *)
      | inl rtr =>
          if bool_decide (length (operands_of st rtr) <> 1%nat) then Fatal LogFatal
          else if bool_decide (num_users st operand <> 1%nat) then Err kInternal "should have a single user"
          else
            rtr_operand ← vec_at (operands_of st rtr) 0;
            if skips_operand rtr_operand then Err kInternal "cannot be a root tuple operand"
            else
              operand_devices ← get_instruction_devices st rtr_operand;
              r ← make_reshard_if_needed color operand_devices devices rtr_operand rtr st;
              let '(reshard, st) := (r : option Value * Resharding) in
              OK (RemoveInstruction rtr (ReplaceAllUsesWith operand (default rtr_operand reshard) st))
      end
  end.

Definition reshard_scalar st (operand : Value) (s : Shape) : Result Resharding :=
  match Color (attributes st) operand with
  | None => Err kInvalidArgument "has no assigned color"
  | Some color =>
      devices ← DevicesForColor (partition_ st) color;
      if bool_decide (dl_size devices < TotalDevices (partition_ st)) then
        q ← FindOrAllocateGlobalColor (partition_ st);
        let '(global_color, p) := (q : string * HloPartition D) in
        let '(reshard, st) := add_reshard (MkReshardCall operand s (Some Replicate)) global_color p st in
        OK (ReplaceAllUsesWith operand reshard st)
      else OK st
  end.

Definition reshard_output (root : I) st (index : Z) : Result Resharding :=
  operand ← vec_at (operands_of st root) index;
  if is_custom_call operand kCustomCallRootTupleRecolor then reshard_recolored st operand
  else
    s ← of_option NullDeref (shape_of st operand);
    if bool_decide (dimensions s = []) then reshard_scalar st operand s else OK st.

(** ** The pass *)

Definition start_resharding (entry : C) (attrs : St) (p : HloPartition D) : Resharding :=
  MkResharding [] (list_to_map ((fun i => (i, inl <$> operands i)) <$> MakeInstructionPostOrder entry)) attrs [] p false.

Definition Run (entry : C) (attrs : St) (p : HloPartition D) : Result Resharding :=
  st ← foldM reshard_call (start_resharding entry attrs p) (MakeInstructionPostOrder entry);
  let root := root_instruction entry in
  if bool_decide (opcode root = kTuple) then
    foldM (reshard_output root) st (seqZ 0 (Zlength (operands_of st root)))
  else OK st.
End insert_reshard.
Arguments Resharding I St D HS {_ _ _ _}. Arguments ReshardCall I HS : clear implicits.
