(* ===== verification/InsertReshardFacts.v ===== *)
(** * Inserted reshards deliver the operands of tasks (mpmd_insert_reshard.cc)

    After the pass every operand of a task is on devices and in a layout that the task can
    take, and every operand has the value it had: a reshard only moves its operand. *)
From S2P Require Import Prelude Hlo Instruction Partition Sharding Utils BufferScheduling InsertReshard.
Local Open Scope Z_scope.

Section registry.
Context {D : Type} `{Countable D, !DeviceListApi D}.
Implicit Types (p : HloPartition D).

(** The color of the whole mesh can be found or allocated. *)
Definition has_global_color p : Prop :=
  wf p /\ (is_Some (device_list_to_colors_ p !! devices_ p) \/ fresh_name p (default_color_name (devices_ p))).

Lemma DevicesForColor_extends p p' c d : extends p p' -> DevicesForColor p c = OK d -> DevicesForColor p' c = OK d.
Proof.
  intros Hext. unfold DevicesForColor, ConfigForColor. destruct (colors_ p !! c) as [cfg|] eqn:Hc; [|done]. cbn. intros [= <-].
  destruct (Hext _ _ Hc) as (cfg' & -> & <-). done.
Qed.

Lemma FindOrAllocateGlobalColor_ok p c p' : has_global_color p -> FindOrAllocateGlobalColor p = OK (c, p') ->
  has_global_color p' /\ extends p p' /\ devices_ p' = devices_ p /\ DevicesForColor p' c = OK (devices_ p).
Proof.
  intros [Hwf Hg]. unfold FindOrAllocateGlobalColor, FindOrAllocateDefaultColor.
  destruct (device_list_to_colors_ p !! devices_ p) as [[|c0 cs]|] eqn:Hd; [done| |].
  - intros [= <- <-]. split; [split; [done|left; by rewrite Hd]|]. split; [done|]. split; [done|].
    destruct (wf_listed _ Hwf _ _ c0 Hd ltac:(by left)) as (cfg & Hc & Hcd). unfold DevicesForColor, ConfigForColor.
    rewrite Hc. cbn. by rewrite Hcd.
  - destruct Hg as [[? Hg]|Hg]; [congruence|]. intros Hrun. unfold AllocateColor_named in Hrun.
    set (cfg := MkConfig _ _ _ _ _) in Hrun. assert (cc_name cfg = default_color_name (devices_ p)) as Hname by done.
    assert (AllocateColor p cfg = (c, p')) as Ha by congruence.
    assert (p' = (AllocateColor p cfg).2) as -> by (by rewrite Ha).
    assert (c = uniquify_name p (cc_name cfg)) as -> by (unfold AllocateColor in Ha; congruence).
    split; [split; [by apply wf_AllocateColor|]|split; [by apply extends_AllocateColor|split; [done|]]].
    + left. cbn. rewrite lookup_insert_eq. by eexists.
    + unfold DevicesForColor, ConfigForColor. cbn. rewrite lookup_insert_eq. done.
Qed.
End registry.

Section facts.
Context {I C St D HS : Type} `{EqDecision I, !Countable I} `{!Hlo I C, !AttrStore (I + nat) St, !AttrStoreLaws (I + nat) St}.
Context `{EqDecision D, !Countable D, !DeviceListApi D} `{!HloShardingApi HS}.
Context (Contains : D -> D -> bool) (sharding_ptr : I -> option HS) (shape : I -> Shape).
Abbreviation Resharding := (Resharding I St D HS).
Abbreviation sharding_of := (sharding_of sharding_ptr).
Abbreviation shape_of := (shape_of shape).
Abbreviation get_devices := (get_instruction_devices sharding_ptr).
Implicit Types (st : Resharding) (i o pm : I) (v : I + nat).

(** ** What later steps keep *)

Definition valid st v : Prop := match v with inl _ => True | inr n => (n < length (reshards st))%nat end.

Record keeps st st' : Prop := {
  kp_valid : forall v, valid st v -> valid st' v;
  kp_devices : forall v d, valid st v -> get_devices st v = OK d -> get_devices st' v = OK d;
  kp_sharding : forall v, valid st v -> sharding_of st' v = sharding_of st v;
  kp_shape : forall v, valid st v -> shape_of st' v = shape_of st v;
  kp_color : forall v, valid st v -> Color (attributes st') v = Color (attributes st) v;
  kp_registry : extends (partition_ st) (partition_ st') /\ devices_ (partition_ st') = devices_ (partition_ st);
}.

#[global] Instance keeps_preorder : PreOrder keeps.
Proof.
  split; [by intros st; split|]. intros s1 s2 s3 H12 H23. split; intros.
  - by apply H23, H12.
  - by apply H23, H12; [apply H12|..].
  - rewrite (kp_sharding _ _ H23) by (by apply H12). by apply H12.
  - rewrite (kp_shape _ _ H23) by (by apply H12). by apply H12.
  - rewrite (kp_color _ _ H23) by (by apply H12). by apply H12.
  - destruct (kp_registry _ _ H12) as [? Hd], (kp_registry _ _ H23) as [? Hd']. split; [by etrans|congruence].
Qed.

Lemma keeps_same st st' : reshards st' = reshards st -> attributes st' = attributes st -> partition_ st' = partition_ st -> keeps st st'.
Proof.
  intros Hr Ha Hp. split; intros; unfold valid, get_instruction_devices, InsertReshard.sharding_of, InsertReshard.shape_of in *;
    by rewrite ?Hr, ?Ha, ?Hp in *.
Qed.

Lemma keeps_grow st st' r c :
  reshards st' = reshards st ++ [r] -> attributes st' = AssignColor (inr (length (reshards st))) c (attributes st) ->
  extends (partition_ st) (partition_ st') -> devices_ (partition_ st') = devices_ (partition_ st) -> keeps st st'.
Proof.
  intros Hr Ha Hp Hd.
  assert (forall v, valid st v -> Color (attributes st') v = Color (attributes st) v) as Hcol.
  { intros v Hv. rewrite Ha. apply Color_AssignColor_ne. intros <-. cbn in Hv. lia. }
  assert (forall n, (n < length (reshards st))%nat -> reshards st' !! n = reshards st !! n) as Hl.
  { intros n Hn. rewrite Hr. by apply lookup_app_l. }
  split; [| | | |done|done].
  - intros [i|n]; cbn; [done|]. rewrite Hr, length_app. lia.
  - intros v d Hv. unfold get_instruction_devices. rewrite Hcol by done. destruct (Color (attributes st) v) as [c'|].
    + by apply DevicesForColor_extends.
    + destruct v; [|done]. case_bool_decide; [done|]. by rewrite Hd.
  - intros [i|n] Hv; cbn; [done|]. by rewrite Hl.
  - intros [i|n] Hv; cbn; [done|]. by rewrite Hl.
Qed.

Lemma ReplaceAllUsesWith_reshard old new st n :
  reshards (ReplaceAllUsesWith old new st) !! n =
    (fun r => if bool_decide (inr n = new) then r
              else MkReshardCall (replace_use old new (rs_operand r)) (rs_shape r) (rs_sharding r)) <$> reshards st !! n.
Proof. cbn. by rewrite list_lookup_imap. Qed.

Lemma keeps_ReplaceAllUsesWith old new st : keeps st (ReplaceAllUsesWith old new st).
Proof.
  split; [| | | |done|done].
  - intros [i|n]; cbn; [done|]. by rewrite length_imap.
  - intros v d _. unfold get_instruction_devices. done.
  - intros [i|n] _; [done|]. unfold InsertReshard.sharding_of. rewrite ReplaceAllUsesWith_reshard.
    destruct (reshards st !! n); [|done]. cbn. by case_bool_decide.
  - intros [i|n] _; [done|]. unfold InsertReshard.shape_of. rewrite ReplaceAllUsesWith_reshard.
    destruct (reshards st !! n); [|done]. cbn. by case_bool_decide.
Qed.

(** ** Delivered operands *)

(** [v] is where and how the parameter [pm] of a task on [d] takes it: nothing needs to be
    moved, or it is on the devices [d] in the layout of the parameter. *)
Definition delivered st (d : D) v pm : Prop :=
  (exists dv, get_devices st v = OK dv /\
    NeedsReshard Contains dv d (sharding_or_default (sharding_of st v)) (sharding_or_default (sharding_ptr pm)) = false) \/
  (get_devices st v = OK d /\ exists s sh, shape_of st v = Some s /\
    XlaShapeToZukuShape s d (sharding_or_default (sharding_of st v)) true = OK sh /\
    XlaShapeToZukuShape (shape pm) d (sharding_or_default (sharding_ptr pm)) true = OK sh).

Lemma delivered_keeps st st' d v pm : keeps st st' -> valid st v -> delivered st d v pm -> delivered st' d v pm.
Proof.
  intros Hk Hv [(dv & Hd & Hn)|(Hd & s & sh & Hs & H1 & H2)].
  - left. exists dv. split; [by apply Hk|]. by rewrite (kp_sharding _ _ Hk).
  - right. split; [by apply Hk|]. exists s, sh. rewrite (kp_shape _ _ Hk), (kp_sharding _ _ Hk) by done. done.
Qed.

Definition same_rank st v (s : Shape) : Prop := forall s', shape_of st v = Some s' -> dimensions s' = dimensions s.

Lemma same_rank_keeps st st' v s : keeps st st' -> valid st v -> same_rank st v s -> same_rank st' v s.
Proof. intros Hk Hv Hs s'. rewrite (kp_shape _ _ Hk) by done. apply Hs. Qed.

Lemma valid_shape st v : valid st v -> exists s, shape_of st v = Some s.
Proof.
  destruct v as [i|n]; cbn; [by eexists|]. intros [r Hr]%lookup_lt_is_Some. rewrite Hr. by eexists.
Qed.

(** The reshards that are remembered have the layout of their key. *)
Definition map_ok st : Prop := forall (sh : ShardedShape D) (x n : I + nat), ((sh, x), n) ∈ reshard_map st ->
  valid st n /\ valid st x /\ get_devices st n = OK (ss_devices sh) /\
  exists s, shape_of st n = Some s /\ same_rank st x s /\
    XlaShapeToZukuShape s (ss_devices sh) (sharding_or_default (sharding_of st n)) true = OK sh.

Lemma map_ok_keeps st st' : keeps st st' -> reshard_map st' = reshard_map st -> map_ok st -> map_ok st'.
Proof.
  intros Hk Hm Hok sh o n. rewrite Hm. intros (Hn & Ho & Hd & s & Hs & Hr & Hx)%Hok.
  split; [by apply Hk|]. split; [by apply Hk|]. split; [by apply Hk|]. exists s.
  rewrite (kp_shape _ _ Hk), (kp_sharding _ _ Hk) by done. split; [done|]. split; [by eapply same_rank_keeps|done].
Qed.

Lemma find_reshard_Some st key n : find_reshard st key = Some n -> (key, n) ∈ reshard_map st.
Proof.
  unfold find_reshard. intros (e & He & ->)%fmap_Some. apply find_some in He as [Hin Heq]. apply bool_decide_eq_true in Heq.
  subst key. rewrite <- surjective_pairing. by apply list_elem_of_In.
Qed.

Lemma XlaShapeToZukuShape_on s d hs b sh : XlaShapeToZukuShape s d hs b = OK sh -> ss_devices sh = d.
Proof.
  unfold XlaShapeToZukuShape. intros (t & _ & Hrun)%Result_bind_OK. destruct (IsReplicated hs || IsTileMaximal hs); [by injection Hrun as <-|].
  apply Result_bind_OK in Hrun as (sh0 & _ & Hrun). case_bool_decide as Hd; [case_bool_decide; [done|]; by injection Hrun as <-|].
  injection Hrun as <-. destruct (decide (d = ss_devices sh0)); naive_solver.
Qed.

Lemma make_reshard_ok st color od d v user (o : option (I + nat)) st' :
  map_ok st -> valid st v -> get_devices st v = OK od -> DevicesForColor (partition_ st) color = OK d ->
  same_rank st v (shape user) ->
  make_reshard_if_needed Contains sharding_ptr shape color od d v user st = OK (o, st') ->
  keeps st st' /\ map_ok st' /\ valid st' (default v o) /\ delivered st' d (default v o) user /\
  same_rank st' (default v o) (shape user) /\ uses st' = uses st /\ partition_ st' = partition_ st.
Proof.
  intros Hm Hv Hod Hd Hrank. unfold make_reshard_if_needed. destruct (NeedsReshard _ _ _ _) eqn:Hneed.
  2: { intros [= <- <-]. split; [done|]. split; [done|]. split; [done|]. split; [|done]. left. by exists od. }
  destruct (XlaShapeToZukuShape _ _ _ _) as [sh| |] eqn:Hx; [|done..]. pose proof (XlaShapeToZukuShape_on _ _ _ _ _ Hx) as Hsd.
  destruct (find_reshard st (sh, v)) as [n|] eqn:Hf.
  - intros [= <- <-]. cbn. apply find_reshard_Some, Hm in Hf as (Hn & _ & Hnd & s & Hs & Hr & Hxs). rewrite Hsd in Hnd, Hxs.
    split; [done|]. split; [done|]. split; [done|]. split; [right; split; [done|]; by exists s, sh|]. split; [|done].
    intros s'. rewrite Hs. intros [= <-]. destruct (valid_shape _ _ Hv) as [sv Hsv]. by rewrite <- (Hr sv Hsv), (Hrank sv Hsv).
  - intros [= <- <-]. cbn [fst snd]. set (r := MkReshardCall v (shape user) (sharding_ptr user)).
    set (st2 := remember_reshard (sh, v) (add_reshard r color (partition_ st) st).1 (add_reshard r color (partition_ st) st).2).
    assert (keeps st st2) as Hk by by eapply (keeps_grow _ _ r color).
    assert (reshards st2 !! length (reshards st) = Some r) as Hl by by apply list_lookup_middle.
    assert (get_devices st2 (inr (length (reshards st))) = OK d) as Hnd.
    { unfold get_instruction_devices. cbn. by rewrite Color_AssignColor_eq. }
    assert (valid st2 (inr (length (reshards st)))) as Hvn by (cbn; rewrite length_app; cbn; lia).
    assert (shape_of st2 (inr (length (reshards st))) = Some (shape user)) as Hsn.
    { unfold InsertReshard.shape_of. by rewrite Hl. }
    assert (sharding_of st2 (inr (length (reshards st))) = sharding_ptr user) as Hhn.
    { unfold InsertReshard.sharding_of. by rewrite Hl. }
    change (keeps st st2 /\ map_ok st2 /\ valid st2 (inr (length (reshards st))) /\ delivered st2 d (inr (length (reshards st))) user /\
      same_rank st2 (inr (length (reshards st))) (shape user) /\ uses st2 = uses st /\ partition_ st2 = partition_ st).
    split; [done|]. split; [|split; [done|split; [|split; [|done]]]].
    + intros sh' o' n' [Heq|Hin]%elem_of_cons.
      * assert (sh' = sh /\ o' = v /\ n' = inr (length (reshards st))) as (-> & -> & ->) by (by injection Heq as -> -> ->).
        split; [done|]. split; [by apply Hk|]. split; [by rewrite Hsd|]. exists (shape user). split; [done|]. 
        split; [by eapply same_rank_keeps|]. by rewrite Hhn, Hsd.
      * apply Hm in Hin as (Hn & Ho & Hnd' & s & Hs & Hr & Hxs). split; [by apply Hk|]. split; [by apply Hk|].
        split; [by apply Hk|]. exists s. rewrite (kp_shape _ _ Hk), (kp_sharding _ _ Hk) by done.
        split; [done|]. split; [by eapply same_rank_keeps|done].
    + right. split; [done|]. exists (shape user), sh. by rewrite Hhn.
    + intros s'. rewrite Hsn. by intros [= <-].
Qed.

(** ** The operands of tasks *)

Section tasks.
Context (entry : C) (attrs : St) (p : HloPartition D).
Abbreviation order := (MakeInstructionPostOrder entry).
Abbreviation start := (start_resharding (HS := HS) entry attrs p).

(** The operands of a task have the dimensions of its parameters. *)
Definition well_shaped : Prop := forall i c j o pm, i ∈ order -> opcode i = kCall -> called_computation i 0 = OK c ->
  operands i !! j = Some o -> parameter_instructions c !! j = Some pm -> dimensions (shape o) = dimensions (shape pm).

Definition call_on i (d : D) : Prop := exists color, Color attrs (inl i) = Some color /\ DevicesForColor p color = OK d.

(** The first [k] operands of the call are delivered. *)
Definition args_ok st i (d : D) (k : nat) : Prop := forall c j v pm, called_computation i 0 = OK c ->
  operands_of st i !! j = Some v -> parameter_instructions c !! j = Some pm ->
  valid st v /\ same_rank st v (shape pm) /\ ((j < k)%nat -> skips_operand v = false -> delivered st d v pm).

Lemma args_ok_keeps st st' i d k : keeps st st' -> operands_of st' i = operands_of st i -> args_ok st i d k -> args_ok st' i d k.
Proof.
  intros Hk Ho Ha c j v pm Hc Hv Hpm. rewrite Ho in Hv. destruct (Ha c j v pm Hc Hv Hpm) as (Hval & Hr & Hd).
  split; [by apply Hk|]. split; [by eapply same_rank_keeps|]. intros ??. eapply delivered_keeps; [done..|]. by apply Hd.
Qed.

(** What the loop over the tasks keeps. *)
Record tasks_inv st : Prop := {
  ti_keeps : keeps start st;
  ti_partition : partition_ st = p;
  ti_map : map_ok st;
  ti_uses : dom (uses st) = dom (uses start);
}.

Lemma reshard_operand_ok st i color d c j st' :
  tasks_inv st -> called_computation i 0 = OK c -> i ∈ dom (uses start) -> DevicesForColor p color = OK d -> args_ok st i d j ->
  reshard_operand Contains sharding_ptr shape i color d c st (Z.of_nat j) = OK st' ->
  tasks_inv st' /\ args_ok st' i d (S j) /\ length (operands_of st' i) = length (operands_of st i) /\ keeps st st' /\
  (forall i', i' <> i -> uses st' !! i' = uses st !! i').
Proof.
  intros [Hks Hp Hm Hu] Hc Hi Hd Ha. unfold reshard_operand. intros (v & Hv%vec_at_nat & Hrun)%Result_bind_OK.
  destruct (skips_operand v) eqn:Hskip.
  { injection Hrun as <-. split; [done|]. split; [|done]. intros c' j' v' pm Hc' Hv' Hpm.
    destruct (Ha c' j' v' pm Hc' Hv' Hpm) as (? & ? & Hdel). split; [done|]. split; [done|]. intros Hj Hns.
    destruct (decide (j' = j)) as [->|]; [congruence|]. apply Hdel; [lia|done]. }
  apply Result_bind_OK in Hrun as (pm & Hpm%vec_at_nat & Hrun). apply Result_bind_OK in Hrun as (od & Hod & Hrun).
  apply Result_bind_OK in Hrun as ([o st1] & Hmake & Hrun). destruct (Ha c j v pm Hc Hv Hpm) as (Hval & Hr & _).
  rewrite <- Hp in Hd. destruct (make_reshard_ok _ _ _ _ _ _ _ _ Hm Hval Hod Hd Hr Hmake) as (Hk & Hm1 & Hval1 & Hdel1 & Hr1 & Hu1 & Hp1).
  assert (forall j' v' pm', operands_of st i !! j' = Some v' -> parameter_instructions c !! j' = Some pm' -> j' <> j ->
    valid st1 v' /\ same_rank st1 v' (shape pm') /\ ((j' < S j)%nat -> skips_operand v' = false -> delivered st1 d v' pm')) as Hothers.
  { intros j' v' pm' Hv' Hpm' Hne. destruct (Ha c j' v' pm' Hc Hv' Hpm') as (? & ? & Hdel). split; [by apply Hk|].
    split; [by eapply same_rank_keeps|]. intros ??. eapply delivered_keeps; [done..|]. apply Hdel; [lia|done]. }
  destruct o as [reshard|].
  - apply Result_bind_OK in Hrun as (l & Hl & [= <-]). unfold vec_set in Hl. unfold operands_of in Hl. rewrite Hu1 in Hl.
    fold (operands_of st i) in Hl. case_bool_decide as Hlt; [|done]. injection Hl as <-. rewrite Nat2Z.id.
    assert (keeps st1 (set_uses st1 i (<[j:=reshard]> (operands_of st i)))) as Hk2 by by apply keeps_same.
    assert (operands_of (set_uses st1 i (<[j:=reshard]> (operands_of st i))) i = <[j:=reshard]> (operands_of st i)) as Hops.
    { unfold operands_of at 1. cbn. by rewrite lookup_insert_eq. }
    split; [split|split; [|split; [|split]]].
    + by do 2 (etrans; [|done]).
    + cbn. congruence.
    + eapply map_ok_keeps; [done|done|done].
    + cbn. rewrite dom_insert_L, Hu1, Hu. set_solver.
    + intros c' j' v' pm' Hc' Hv' Hpm'. assert (c' = c) as -> by congruence. rewrite Hops in Hv'.
      destruct (decide (j' = j)) as [->|Hne].
      * rewrite list_lookup_insert_eq in Hv' by (by eapply lookup_lt_Some). injection Hv' as <-. assert (pm' = pm) as -> by congruence.
        split; [by apply Hk2|]. split; [by eapply same_rank_keeps|]. intros _ _. by eapply delivered_keeps.
      * rewrite list_lookup_insert_ne in Hv' by done. destruct (Hothers j' v' pm' Hv' Hpm' Hne) as (? & ? & Hdel).
        split; [by apply Hk2|]. split; [by eapply same_rank_keeps|]. intros ??. eapply delivered_keeps; [done..|]. by apply Hdel.
    + by rewrite Hops, length_insert.
    + by etrans.
    + intros i' Hne. cbn. rewrite lookup_insert_ne by done. by rewrite Hu1.
  - injection Hrun as <-. assert (operands_of st1 i = operands_of st i) as Hops by (unfold operands_of; by rewrite Hu1).
    split; [split; [by etrans|congruence|done|by rewrite Hu1]|]. split; [|split; [by rewrite Hops|split; [done|intros; by rewrite Hu1]]].
    intros c' j' v' pm' Hc' Hv' Hpm'. assert (c' = c) as -> by congruence. rewrite Hops in Hv'.
    destruct (decide (j' = j)) as [->|Hne]; [|by apply Hothers]. assert (v' = v) as -> by congruence. assert (pm' = pm) as -> by congruence.
    split; [done|]. split; [done|]. intros _ _. exact Hdel1.
Qed.

Lemma reshard_operands_ok st i color d c st' :
  tasks_inv st -> called_computation i 0 = OK c -> i ∈ dom (uses start) -> DevicesForColor p color = OK d -> args_ok st i d 0 ->
  foldM (reshard_operand Contains sharding_ptr shape i color d c) st (seqZ 0 (Zlength (operands_of st i))) = OK st' ->
  tasks_inv st' /\ args_ok st' i d (length (operands_of st' i)) /\ keeps st st' /\
  (forall i', i' <> i -> uses st' !! i' = uses st !! i').
Proof.
  intros Hinv Hc Hi Hd Ha Hrun.
  apply (foldM_inv (fun done_ s => tasks_inv s /\ args_ok s i d (length done_) /\
    length (operands_of s i) = length (operands_of st i) /\ keeps st s /\ (forall i', i' <> i -> uses s !! i' = uses st !! i'))) in Hrun.
  - destruct Hrun as (? & Ha' & Hl & ? & ?). split; [done|]. split; [|done]. rewrite length_seqZ in Ha'. unfold Zlength in Ha'.
    by rewrite Nat2Z.id, <- Hl in Ha'.
  - done.
  - intros done_ z rest s s' Heq (Hs & Has & Hl & Hk & Hu) Hstep.
    assert (seqZ 0 (Zlength (operands_of st i)) !! length done_ = Some z) as Hz by (rewrite Heq; by apply list_lookup_middle).
    apply lookup_seqZ in Hz as [-> _]. rewrite Z.add_0_l in Hstep.
    destruct (reshard_operand_ok _ _ _ _ _ _ _ Hs Hc Hi Hd Has Hstep) as (? & ? & ? & ? & Hu').
    rewrite length_app, Nat.add_1_r. split; [done|]. split; [done|]. split; [congruence|]. split; [by etrans|].
    intros i' Hne. by rewrite Hu', Hu.
Qed.

Lemma start_uses i : NoDup order -> i ∈ order -> uses start !! i = Some (inl <$> operands i).
Proof.
  intros Hnd Hi. cbn. apply elem_of_list_to_map_1; [by rewrite <- list_fmap_compose, list_fmap_id|].
  apply list_elem_of_fmap. by exists i.
Qed.

Lemma start_args_ok i d : NoDup order -> well_shaped -> i ∈ order -> opcode i = kCall -> args_ok start i d 0.
Proof.
  intros Hnd Hw Hi Hop c j v pm Hc Hv Hpm. unfold operands_of in Hv. rewrite start_uses in Hv by done.
  apply list_lookup_fmap_Some in Hv as (o & -> & Ho). split; [done|]. split; [|lia].
  intros s. cbn. intros [= <-]. by eapply Hw.
Qed.

Lemma reshard_call_ok st i st' : NoDup order -> tasks_inv st -> i ∈ order ->
  (forall d, opcode i = kCall -> call_on i d -> args_ok st i d 0) ->
  reshard_call Contains sharding_ptr shape st i = OK st' ->
  tasks_inv st' /\ (forall d, opcode i = kCall -> call_on i d -> args_ok st' i d (length (operands_of st' i))) /\ keeps st st' /\
  (forall i', i' <> i -> uses st' !! i' = uses st !! i').
Proof.
  intros Hnd Hinv Hi Ha. unfold reshard_call. case_bool_decide as Hop; [|intros [= <-]; split; [done|]; by split].
  intros (c & Hc & Hrun)%Result_bind_OK. destruct Hinv as [Hks Hp Hm Hu].
  destruct (Color (attributes st) (inl i)) as [color|] eqn:Hcol; [|done]. apply Result_bind_OK in Hrun as (d & Hd & Hrun).
  rewrite Hp in Hd. pose proof (kp_color _ _ Hks (inl i) Logic.I) as Hsame.
  cbn [attributes start_resharding] in Hsame. assert (call_on i d) as Hon by (exists color; by rewrite <- Hsame).
  destruct (reshard_operands_ok st i color d c st') as (? & ? & ? & ?); try done; [|by apply Ha|].
  - apply elem_of_dom. rewrite start_uses by done. by eexists.
  - split; [done|]. split; [|done]. intros d' _ (color' & Hcol' & Hd'). destruct Hon as (color2 & Hcol2 & Hd2).
    by assert (d' = d) as -> by congruence.
Qed.

Lemma reshard_calls_ok st' : NoDup order -> well_shaped -> foldM (reshard_call Contains sharding_ptr shape) start order = OK st' ->
  tasks_inv st' /\ (forall i d, i ∈ order -> opcode i = kCall -> call_on i d -> args_ok st' i d (length (operands_of st' i))).
Proof.
  intros Hnd Hw Hrun.
  apply (foldM_inv (fun done_ s => tasks_inv s /\ forall i d, i ∈ order -> opcode i = kCall -> call_on i d ->
    args_ok s i d (if decide (i ∈ done_) then length (operands_of s i) else 0))) in Hrun.
  - destruct Hrun as [? Ha]. split; [done|]. intros i d Hi Hop Hon. specialize (Ha i d Hi Hop Hon). by rewrite decide_True in Ha.
  - split; [split; [done|done| |done]|].
    + intros sh x n Hin. by apply not_elem_of_nil in Hin.
    + intros i d Hi Hop _. rewrite decide_False by apply not_elem_of_nil. by apply start_args_ok.
  - intros done_ i rest s s' Heq [Hs Has] Hstep. assert (i ∈ order) as Hi by (rewrite Heq; set_solver).
    assert (i ∉ done_) as Hni by (rewrite Heq in Hnd; apply NoDup_app in Hnd as (_ & Hnd & _); set_solver).
    destruct (reshard_call_ok s i s' Hnd Hs Hi) as (Hs' & Hai & Hk & Hu); [|done|].
    { intros d Hop Hon. specialize (Has i d Hi Hop Hon). by rewrite decide_False in Has. }
    split; [done|]. intros i' d Hi' Hop Hon. destruct (decide (i' = i)) as [->|Hne].
    + rewrite decide_True by set_solver. by apply Hai.
    + specialize (Has i' d Hi' Hop Hon). assert (operands_of s' i' = operands_of s i') as Ho by (unfold operands_of; by rewrite Hu).
      rewrite Ho. rewrite (decide_ext _ (i' ∈ done_)) by set_solver. eapply args_ok_keeps; done.
Qed.

(** ** The outputs *)

(** Scalar parameters are replicated, and every task is inside the mesh. *)
Record scalars_ok : Prop := {
  so_replicate : IsReplicated (Replicate : HS) = true;
  so_parameters : forall i c pm, i ∈ order -> opcode i = kCall -> called_computation i 0 = OK c ->
    pm ∈ parameter_instructions c -> dimensions (shape pm) = [] -> IsReplicated (sharding_or_default (sharding_ptr pm)) = true;
  so_contains : forall i d, i ∈ order -> opcode i = kCall -> call_on i d -> Contains (devices_ p) d = true;
}.

Record outputs_inv st : Prop := {
  oi_keeps : keeps start st;
  oi_global : has_global_color (partition_ st);
  oi_args : forall i d, i ∈ order -> opcode i = kCall -> call_on i d -> args_ok st i d (length (operands_of st i));
}.

Lemma make_reshard_keeps st color od d v user (o : option (I + nat)) st' :
  make_reshard_if_needed Contains sharding_ptr shape color od d v user st = OK (o, st') ->
  keeps st st' /\ uses st' = uses st /\ partition_ st' = partition_ st.
Proof.
  unfold make_reshard_if_needed. destruct (NeedsReshard _ _ _ _); [|by intros [= <- <-]].
  destruct (XlaShapeToZukuShape _ _ _ _) as [sh| |]; [|done..]. destruct (find_reshard st (sh, v)); [by intros [= <- <-]|].
  intros [= <- <-]. split; [|done]. by eapply (keeps_grow _ _ (MkReshardCall v (shape user) (sharding_ptr user)) color).
Qed.

Lemma num_users_one st v i l : num_users st v = 1%nat -> uses st !! i = Some l -> v ∈ l ->
  forall i' l', uses st !! i' = Some l' -> v ∈ l' -> i' = i.
Proof.
  unfold num_users. set (m := filter _ (uses st)). intros Hn Hi Hv i' l' Hi' Hv'.
  assert (m !! i = Some l) as Hm by (by apply map_lookup_filter_Some_2).
  assert (m !! i' = Some l') as Hm' by (by apply map_lookup_filter_Some_2).
  assert (size m <> 0%nat) as Hs by (intros He%map_size_empty_iff; rewrite He in Hm; by apply lookup_empty_Some in Hm).
  assert (size m = 1%nat) as Hs1 by lia. destruct (decide (i' = i)) as [|Hne]; [done|]. exfalso.
  rewrite <- (insert_delete_id m i l Hm), map_size_insert_None in Hs1 by apply lookup_delete_eq.
  assert (delete i m !! i' = Some l') as Hd by (by rewrite lookup_delete_ne).
  assert (size (delete i m) = 0%nat) as Hz%map_size_empty_iff by lia. rewrite Hz in Hd. by apply lookup_empty_Some in Hd.
Qed.

Lemma ReplaceAllUsesWith_uses old new st i : inl i <> new ->
  operands_of (ReplaceAllUsesWith old new st) i = map (replace_use old new) (operands_of st i).
Proof.
  intros Hne. unfold operands_of. cbn. rewrite map_lookup_imap. destruct (uses st !! i); [|done]. cbn.
  by rewrite bool_decide_eq_false_2.
Qed.

Lemma replace_uses_id old new (l : list (I + nat)) : old ∉ l -> map (replace_use old new) l = l.
Proof.
  intros Hn. induction l as [|x l IH]; [done|]. cbn. rewrite IH by set_solver. f_equal. unfold replace_use.
  rewrite bool_decide_eq_false_2; [done|set_solver].
Qed.

Lemma outputs_keep st st' : outputs_inv st -> keeps st st' -> has_global_color (partition_ st') ->
  (forall i, i ∈ order -> opcode i = kCall -> operands_of st' i = operands_of st i) -> outputs_inv st'.
Proof.
  intros [Hk Hg Ha] Hks Hg' Ho. split; [by etrans|done|]. intros i d Hi Hop Hon. rewrite Ho by done.
  eapply args_ok_keeps; [done|by apply Ho|]. by apply Ha.
Qed.

Lemma reshard_recolored_ok st v (root : I) st' : outputs_inv st -> opcode root <> kCall ->
  v ∈ operands_of st root -> is_custom_call v kCustomCallRootTupleRecolor = true ->
  reshard_recolored Contains sharding_ptr shape st v = OK st' -> outputs_inv st'.
Proof.
  intros Hinv Hroot Hv Hcc. unfold reshard_recolored. destruct (Color (attributes st) v) as [color|]; [|done].
  intros (d & Hd & Hrun)%Result_bind_OK. destruct v as [rtr|n]; [|by injection Hrun as <-].
  case_bool_decide; [done|]. case_bool_decide as Hn; [done|].
  apply Result_bind_OK in Hrun as (v & Hv0 & Hrun). destruct (skips_operand v); [done|].
  apply Result_bind_OK in Hrun as (od & Hod & Hrun). apply Result_bind_OK in Hrun as ([o st1] & Hmake & [= <-]).
  destruct (make_reshard_keeps _ _ _ _ _ _ _ _ Hmake) as (Hk & Hu & Hp).
  assert (forall i, i ∈ order -> opcode i = kCall -> inl rtr ∉ operands_of st i) as Hnone.
  { intros i Hi Hop Hin. unfold operands_of in *. destruct (uses st !! i) as [l|] eqn:Hl; [|by apply not_elem_of_nil in Hin].
    destruct (uses st !! root) as [lr|] eqn:Hr; [|by apply not_elem_of_nil in Hv].
    assert (num_users st (inl rtr) = 1%nat) as H1 by (destruct (decide (num_users st (inl rtr) = 1%nat)); [done|congruence]).
    assert (i = root) as -> by (by eapply (num_users_one st (inl rtr))). done. }
  eapply (outputs_keep st); [done| |cbn; rewrite Hp; apply Hinv|].
  - etrans; [exact Hk|]. etrans; [apply (keeps_ReplaceAllUsesWith (inl rtr) (default v o))|]. by apply keeps_same.
  - intros i Hi Hop. unfold operands_of. cbn [uses RemoveInstruction]. rewrite lookup_delete_ne; [|].
    2: { intros ->. unfold is_custom_call, IsCustomCall in Hcc. apply andb_true_iff in Hcc as [Hcc _].
         apply bool_decide_eq_true in Hcc. congruence. }
    cbn [uses ReplaceAllUsesWith]. rewrite map_lookup_imap, Hu. specialize (Hnone i Hi Hop). unfold operands_of in Hnone.
    destruct (uses st !! i) as [l|]; [|done]. cbn. case_bool_decide; [done|]. by apply replace_uses_id.
Qed.

Lemma reshard_scalar_ok st v s st' : scalars_ok -> outputs_inv st -> valid st v -> shape_of st v = Some s -> dimensions s = [] ->
  reshard_scalar st v s = OK st' -> outputs_inv st'.
Proof.
  intros Hso Hinv Hval Hs Hdims. unfold reshard_scalar. destruct (Color (attributes st) v) as [color|]; [|done].
  intros (d & Hd & Hrun)%Result_bind_OK. case_bool_decide; [|by injection Hrun as <-].
  apply Result_bind_OK in Hrun as ([gc p'] & Hg & Hrun). destruct Hinv as [Hk0 Hgc Ha].
  destruct (FindOrAllocateGlobalColor_ok _ _ _ Hgc Hg) as (Hg' & Hext & Hdev & Hgcd).
  set (r := MkReshardCall v s (Some Replicate)) in Hrun. set (n := length (reshards st)).
  set (st1 := (add_reshard r gc p' st).2). assert (st' = ReplaceAllUsesWith v (inr n) st1) as -> by (by injection Hrun).
  assert (keeps st st1) as Hk1 by (by eapply (keeps_grow _ _ r gc)).
  pose proof (keeps_ReplaceAllUsesWith v (inr n) st1) as Hk2. assert (keeps st (ReplaceAllUsesWith v (inr n) st1)) as Hk by by etrans.
  destruct (kp_registry _ _ Hk0) as [_ Hdp]. cbn in Hdp.
  assert (valid st1 (inr n)) as Hvn by (cbn; rewrite length_app; cbn; lia).
  assert (reshards st1 !! n = Some r) as Hl by by apply list_lookup_middle.
  split; [by etrans|done|]. intros i da Hi Hop Hon c j w pm Hc Hw Hpm.
  rewrite ReplaceAllUsesWith_uses in Hw by done. apply list_lookup_fmap_Some in Hw as (w0 & -> & Hw).
  change (operands_of st1 i) with (operands_of st i) in *. destruct (Ha i da Hi Hop Hon c j w0 pm Hc Hw Hpm) as (Hv0 & Hr0 & Hd0).
  unfold replace_use. case_bool_decide as Heq.
  - subst w0. pose proof (Hr0 s Hs) as Hsp. rewrite Hdims in Hsp.
    assert (shape_of (ReplaceAllUsesWith v (inr n) st1) (inr n) = Some s) as Hsn.
    { rewrite (kp_shape _ _ Hk2) by done. unfold InsertReshard.shape_of. by rewrite Hl. }
    split; [by apply Hk2|]. split; [intros s'; rewrite Hsn; intros [= <-]; congruence|]. intros _ _. left. exists (devices_ p).
    split.
    + apply Hk2; [done|]. unfold get_instruction_devices. cbn. rewrite Color_AssignColor_eq, Hgcd. by rewrite Hdp.
    + rewrite (kp_sharding _ _ Hk2) by done. unfold InsertReshard.sharding_of. rewrite Hl. unfold NeedsReshard. cbn.
      rewrite (so_replicate Hso), (so_parameters Hso i c pm), (so_contains Hso i da); try done. by eapply list_elem_of_lookup_2.
  - split; [by apply Hk|]. split; [by eapply same_rank_keeps|]. intros _ Hns. eapply delivered_keeps; [done..|].
    apply Hd0; [by eapply lookup_lt_Some|done].
Qed.

Lemma shape_valid st v s : shape_of st v = Some s -> valid st v.
Proof.
  destruct v as [i|n]; cbn; [done|]. intros (r & Hr & _)%fmap_Some. by eapply lookup_lt_Some.
Qed.

Lemma reshard_output_ok st (root : I) index st' : scalars_ok -> outputs_inv st -> opcode root <> kCall ->
  reshard_output Contains sharding_ptr shape root st index = OK st' -> outputs_inv st'.
Proof.
  intros Hso Hinv Hroot. unfold reshard_output. intros (v & Hv & Hrun)%Result_bind_OK.
  apply vec_at_lookup in Hv as [_ Hv%list_elem_of_lookup_2].
  destruct (is_custom_call v kCustomCallRootTupleRecolor) eqn:Hcc; [by eapply reshard_recolored_ok|].
  apply Result_bind_OK in Hrun as (s & Hs & Hrun). unfold of_option in Hs.
  destruct (shape_of st v) as [s0|] eqn:Hs0; [|done]. injection Hs as ->. case_bool_decide as Hd; [|by injection Hrun as <-].
  eapply reshard_scalar_ok; [done..| |done|done|done]. by eapply shape_valid.
Qed.

End tasks.
End facts.
