(* ===== verification/InsertReshardValues.v ===== *)
(** * Inserted reshards keep values (mpmd_insert_reshard.cc)

    A reshard has the value of its operand.  The values of the instructions of the module
    extend to the new reshards, the chains of reshards have no cycle, and every operand in
    the module has the value it had before the pass.  The last section runs the pass on a
    module of two tasks on different devices. *)
From S2P Require Import Prelude Hlo Instruction Partition Sharding ShardingIndex Utils BufferScheduling InsertReshard InsertReshardFacts.
Local Open Scope Z_scope.

Section values.
Context {I C St D HS V : Type} `{EqDecision I, !Countable I} `{!Hlo I C, !AttrStore (I + nat) St}.
Context `{EqDecision D, !Countable D, !DeviceListApi D} `{!HloShardingApi HS}.
Context (Contains : D -> D -> bool) (sharding_ptr : I -> option HS) (shape : I -> Shape).
Abbreviation Resharding := (Resharding I St D HS).
Context (val : I -> V).
Implicit Types (st : Resharding) (i : I) (v : I + nat) (rv : list V).

Definition value_in rv v : option V := match v with inl i => Some (val i) | inr n => rv !! n end.

Lemma value_in_app rv more v x : value_in rv v = Some x -> value_in (rv ++ more) v = Some x.
Proof. destruct v; cbn; [done|]. apply lookup_app_l_Some. Qed.

(** [rv] are the values of the new reshards. *)
Record consistent st rv : Prop := {
  cn_length : length rv = length (reshards st);
  cn_reshard : forall n r, reshards st !! n = Some r -> value_in rv (rs_operand r) = rv !! n;
  cn_map : forall (key : ShardedShape D * (I + nat)) v, (key, v) ∈ reshard_map st -> exists x, value_in rv key.2 = Some x /\ value_in rv v = Some x;
  cn_uses : forall i l, uses st !! i = Some l -> Forall2 (fun v o => value_in rv v = Some (val o)) l (operands i);
  cn_rank : exists rank : I + nat -> nat, forall n r, reshards st !! n = Some r -> (rank (rs_operand r) < rank (inr n))%nat;
}.

Lemma consistent_same st st' rv : reshards st' = reshards st -> reshard_map st' = reshard_map st -> uses st' = uses st ->
  consistent st rv -> consistent st' rv.
Proof. intros Hr Hm Hu [H1 H2 H3 H4 H5]. split; rewrite ?Hr, ?Hm, ?Hu; done. Qed.

Lemma rank_snoc (rs : list (ReshardCall I HS)) (rank : I + nat -> nat) r :
  (forall n r, rs !! n = Some r -> (rank (rs_operand r) < rank (inr n))%nat) ->
  (forall n r, rs !! n = Some r -> rs_operand r <> inr (length rs)) -> rs_operand r <> inr (length rs) ->
  exists rank' : I + nat -> nat, forall n r', (rs ++ [r]) !! n = Some r' -> (rank' (rs_operand r') < rank' (inr n))%nat.
Proof.
  intros Hrank Hfresh Hr. exists (fun v => if bool_decide (v = inr (length rs)) then S (rank (rs_operand r)) else rank v).
  intros n r' [Hn|[Hn Hr']]%lookup_app_Some.
  - rewrite bool_decide_eq_false_2 by (by eapply Hfresh). rewrite bool_decide_eq_false_2; [by apply Hrank|].
    intros [= ->]. apply lookup_lt_Some in Hn. lia.
  - apply list_lookup_singleton_Some in Hr' as [Hz ->]. rewrite bool_decide_eq_false_2 by done.
    rewrite bool_decide_eq_true_2 by (f_equal; lia). lia.
Qed.

(** A new reshard has the value of its operand. *)
Lemma consistent_add st rv v x s hs color p : consistent st rv -> value_in rv v = Some x ->
  let q := add_reshard (MkReshardCall v s hs) color p st in
  consistent q.2 (rv ++ [x]) /\ value_in (rv ++ [x]) q.1 = Some x.
Proof.
  intros [Hl Hr Hm Hu [rank Hrank]] Hv. cbn [fst snd add_reshard].
  assert (forall v x, value_in rv v = Some x -> v <> inr (length (reshards st))) as Hold.
  { intros w y Hw ->. cbn in Hw. apply lookup_lt_Some in Hw. lia. }
  assert (value_in (rv ++ [x]) (inr (length (reshards st))) = Some x) as Hnew by (by apply list_lookup_middle).
  split; [|done]. split; cbn.
  - by rewrite !length_app, Hl.
  - intros n r [Hn|[Hn Hr']]%lookup_app_Some.
    + specialize (Hr n r Hn). assert (n < length rv)%nat as [y Hy]%lookup_lt_is_Some by (rewrite Hl; by eapply lookup_lt_Some).
      rewrite Hy in Hr. rewrite (value_in_app _ _ _ _ Hr). symmetry. by apply lookup_app_l_Some.
    + apply list_lookup_singleton_Some in Hr' as [Hz <-]. cbn [rs_operand]. rewrite (value_in_app _ _ _ _ Hv).
      replace n with (length (reshards st)) by lia. by rewrite <- Hnew.
  - intros key w Hin. destruct (Hm key w Hin) as (y & ? & ?). exists y. split; by apply value_in_app.
  - intros i l Hl'. eapply Forall2_impl; [by apply Hu|]. intros w o. apply value_in_app.
  - apply (rank_snoc _ rank); [done| |by eapply Hold]. intros n r Hn.
    assert (n < length rv)%nat as [y Hy]%lookup_lt_is_Some by (rewrite Hl; by eapply lookup_lt_Some).
    apply (Hold _ y). by rewrite (Hr n r Hn).
Qed.

Lemma make_reshard_consistent st rv color od d v user (o : option (I + nat)) st' x : consistent st rv -> value_in rv v = Some x ->
  make_reshard_if_needed Contains sharding_ptr shape color od d v user st = OK (o, st') ->
  exists more, consistent st' (rv ++ more) /\ value_in (rv ++ more) (default v o) = Some x /\ uses st' = uses st.
Proof.
  intros Hc Hv. unfold make_reshard_if_needed.
  destruct (NeedsReshard _ _ _ _); [|intros [= <- <-]; exists []; by rewrite app_nil_r].
  destruct (XlaShapeToZukuShape _ _ _ _) as [sh| |]; [|done..]. destruct (find_reshard st (sh, v)) as [n|] eqn:Hf.
  - intros [= <- <-]. exists []. rewrite app_nil_r. apply find_reshard_Some in Hf. destruct (cn_map _ _ Hc _ _ Hf) as (y & Hy & Hn).
    cbn in Hy. rewrite Hv in Hy. injection Hy as <-. done.
  - intros [= <- <-]. exists [x]. destruct (consistent_add st rv v x (shape user) (sharding_ptr user) color (partition_ st) Hc Hv) as [H1 H2].
    split; [|done]. destruct H1 as [? ? Hm ? ?]. split; [done|done| |done|done].
    intros key w [Heq|Hin]%elem_of_cons; [|by apply Hm].
    assert (key = (sh, v) /\ w = inr (length (reshards st))) as [-> ->] by (by injection Heq).
    exists x. split; [by apply value_in_app|done].
Qed.

(** A value can be replaced by an equal one that is a reshard of it, or that no reshard takes. *)
Lemma consistent_replace st rv old new x : consistent st rv -> value_in rv old = Some x -> value_in rv new = Some x ->
  (forall n r, reshards st !! n = Some r -> rs_operand r <> old) \/
  (exists m r, new = inr m /\ reshards st !! m = Some r /\ rs_operand r = old) ->
  consistent (ReplaceAllUsesWith old new st) rv.
Proof.
  intros [Hl Hr Hm Hu [rank Hrank]] Hold Hnew Hcycle.
  assert (forall v, value_in rv (replace_use old new v) = value_in rv v) as Hrep.
  { intros v. unfold replace_use. case_bool_decide; [by subst; congruence|done]. }
  split.
  - cbn. by rewrite length_imap.
  - intros n r. rewrite ReplaceAllUsesWith_reshard. intros (r0 & Hr0 & ->)%fmap_Some. case_bool_decide; [by apply Hr|]. cbn.
    rewrite Hrep. by apply Hr.
  - done.
  - intros i l. cbn. rewrite map_lookup_imap. intros (l0 & Hl0 & [= <-])%bind_Some. case_bool_decide; [by apply Hu|].
    apply Forall2_fmap_l. eapply Forall2_impl; [by apply Hu|]. intros v o Hv. cbn. by rewrite Hrep.
  - destruct Hcycle as [Hnone|(m & rm & Hm' & Hrm & Ho)].
    + exists rank. intros n r. rewrite ReplaceAllUsesWith_reshard. intros (r0 & Hr0 & ->)%fmap_Some. case_bool_decide; [by apply Hrank|].
      cbn. unfold replace_use. rewrite bool_decide_eq_false_2 by (by eapply Hnone). by apply Hrank.
    + exists (fun v => if bool_decide (v = new) then S (2 * rank old) else 2 * rank v)%nat.
      assert (rank old < rank new)%nat as Hlt by (rewrite Hm', <- Ho; by apply Hrank).
      intros n r. rewrite ReplaceAllUsesWith_reshard. intros (r0 & Hr0 & ->)%fmap_Some. pose proof (Hrank n r0 Hr0) as Hn.
      destruct (decide (inr n = new)) as [Hnn|Hnn].
      * rewrite (bool_decide_eq_true_2 (inr n = new)) by done. assert (n = m) as -> by congruence. assert (r0 = rm) as -> by congruence. rewrite Ho. rewrite bool_decide_eq_false_2 by (intros Heq; rewrite Heq in Hlt; lia). lia.
      * rewrite (bool_decide_eq_false_2 (inr n = new)) by done. cbn. unfold replace_use.
        destruct (decide (rs_operand r0 = old)) as [Hro|Hro].
        -- rewrite (bool_decide_eq_true_2 (rs_operand r0 = old)) by done. rewrite bool_decide_eq_true_2 by done. rewrite Hro in Hn. lia.
        -- rewrite (bool_decide_eq_false_2 (rs_operand r0 = old)) by done. case_bool_decide as Hw; [rewrite Hw in Hn; lia|lia].
Qed.

Abbreviation is_consistent st := (exists rv, consistent st rv).

Lemma consistent_set_uses st rv i l : consistent st rv -> Forall2 (fun v o => value_in rv v = Some (val o)) l (operands i) ->
  consistent (set_uses st i l) rv.
Proof.
  intros [H1 H2 H3 H4 H5] Hl. split; try done. intros i' l'. cbn.
  intros [[<- <-]|[_ ?]]%lookup_insert_Some; [done|by apply H4].
Qed.

Lemma use_value st rv i j v : consistent st rv -> operands_of st i !! j = Some v ->
  exists l o, uses st !! i = Some l /\ l !! j = Some v /\ operands i !! j = Some o /\ value_in rv v = Some (val o).
Proof.
  intros Hc Hv. unfold operands_of in Hv. destruct (uses st !! i) as [l|] eqn:Hl; [|done]. cbn in Hv.
  destruct (Forall2_lookup_l _ _ _ _ _ (cn_uses _ _ Hc i l Hl) Hv) as (o & Ho & Hval). by exists l, o.
Qed.

Lemma uses_more st rv more i l : consistent st rv -> uses st !! i = Some l ->
  Forall2 (fun v o => value_in (rv ++ more) v = Some (val o)) l (operands i).
Proof. intros Hc Hl. eapply Forall2_impl; [by apply (cn_uses _ _ Hc)|]. intros v o. apply value_in_app. Qed.

Lemma reshard_operand_consistent st i color d c j st' : is_consistent st ->
  reshard_operand Contains sharding_ptr shape i color d c st j = OK st' -> is_consistent st'.
Proof.
  intros [rv Hc]. unfold reshard_operand. intros (v & Hv & Hrun)%Result_bind_OK. apply vec_at_lookup in Hv as [Hj Hv].
  destruct (skips_operand v); [injection Hrun as <-; by exists rv|].
  apply Result_bind_OK in Hrun as (pm & _ & Hrun). apply Result_bind_OK in Hrun as (od & _ & Hrun).
  apply Result_bind_OK in Hrun as ([o st1] & Hmake & Hrun). destruct (use_value _ _ _ _ _ Hc Hv) as (l & op & Hl & Hlj & Hop & Hval).
  destruct (make_reshard_consistent _ _ _ _ _ _ _ _ _ _ Hc Hval Hmake) as (more & Hc1 & Hnew & Hu).
  destruct o as [reshard|]; [|injection Hrun as <-; by exists (rv ++ more)].
  apply Result_bind_OK in Hrun as (l' & Hl' & [= <-]). exists (rv ++ more). apply consistent_set_uses; [done|].
  unfold vec_set in Hl'. case_bool_decide; [|done]. injection Hl' as <-. unfold operands_of. rewrite Hu, Hl. cbn [default].
  rewrite <- (list_insert_id (operands i) (Z.to_nat j) op) by done. apply Forall2_insert; [by eapply uses_more|done].
Qed.

Lemma reshard_call_consistent st i st' : is_consistent st ->
  reshard_call Contains sharding_ptr shape st i = OK st' -> is_consistent st'.
Proof.
  intros Hc. unfold reshard_call. case_bool_decide; [|by intros [= <-]]. intros (c & _ & Hrun)%Result_bind_OK.
  destruct (Color (attributes st) (inl i)); [|done]. apply Result_bind_OK in Hrun as (d & _ & Hrun).
  apply (foldM_inv (fun (_ : list Z) s => is_consistent s)) in Hrun; [done|done|].
  intros done_ j rest s1 s2 _ Hs Hstep. by eapply reshard_operand_consistent.
Qed.

Lemma reshard_scalar_consistent st v s st' : is_consistent st -> (exists rv x, consistent st rv /\ value_in rv v = Some x) ->
  reshard_scalar st v s = OK st' -> is_consistent st'.
Proof.
  intros Hc (rv & x & Hrv & Hx). unfold reshard_scalar. destruct (Color (attributes st) v); [|done].
  intros (d & _ & Hrun)%Result_bind_OK. case_bool_decide; [|by injection Hrun as <-].
  apply Result_bind_OK in Hrun as ([gc p'] & _ & Hrun).
  destruct (consistent_add st rv v x s (Some Replicate) gc p' Hrv Hx) as [H1 H2].
  set (q := add_reshard (MkReshardCall v s (Some Replicate)) gc p' st) in *.
  assert (st' = ReplaceAllUsesWith v q.1 q.2) as -> by (by injection Hrun). exists (rv ++ [x]).
  apply (consistent_replace _ _ _ _ x H1); [by apply value_in_app|done|].
  right. exists (length (reshards st)), (MkReshardCall v s (Some Replicate)). split; [done|]. split; [|done].
  by apply list_lookup_middle.
Qed.

(** Recoloring an output does not change its value. *)
Hypothesis val_recolor : forall i o, IsCustomCall i kCustomCallRootTupleRecolor = true -> operands i = [o] -> val i = val o.

Lemma num_users_no_reshard st v i l : num_users st v = 1%nat -> uses st !! i = Some l -> v ∈ l ->
  forall n r, reshards st !! n = Some r -> rs_operand r <> v.
Proof.
  unfold num_users. set (m := filter _ (uses st)). set (f := filter _ (reshards st)). intros Hn Hi Hv n r Hr Ho.
  assert (m !! i = Some l) as Hm by (by apply map_lookup_filter_Some_2).
  assert (size m <> 0%nat) as Hs by (intros He%map_size_empty_iff; rewrite He in Hm; by apply lookup_empty_Some in Hm).
  assert (r ∈ f) as Hin by (apply list_elem_of_filter; split; [done|by eapply list_elem_of_lookup_2]).
  destruct f; [by apply not_elem_of_nil in Hin|]. cbn in Hn. lia.
Qed.

Lemma reshard_recolored_consistent st v (root : I) st' : is_consistent st -> opcode root = kTuple -> v ∈ operands_of st root ->
  is_custom_call v kCustomCallRootTupleRecolor = true ->
  reshard_recolored Contains sharding_ptr shape st v = OK st' -> is_consistent st'.
Proof.
  intros [rv Hc] Hroot Hv Hcc. unfold reshard_recolored. destruct (Color (attributes st) v) as [color|]; [|done].
  intros (d & _ & Hrun)%Result_bind_OK. destruct v as [rtr|n]; [|injection Hrun as <-; by exists rv].
  case_bool_decide as Hone; [done|]. case_bool_decide as Hn; [done|].
  apply Result_bind_OK in Hrun as (w & Hw & Hrun). destruct (skips_operand w); [done|].
  apply Result_bind_OK in Hrun as (od & _ & Hrun). apply Result_bind_OK in Hrun as ([o st1] & Hmake & [= <-]).
  apply vec_at_lookup in Hw as [_ Hw]. destruct (use_value _ _ _ _ _ Hc Hw) as (l & op & Hl & Hlw & Hop & Hval).
  assert (num_users st (inl rtr) = 1%nat) as H1 by (destruct (decide (num_users st (inl rtr) = 1%nat)); [done|congruence]).
  unfold operands_of in Hv. destruct (uses st !! root) as [lr|] eqn:Hlr; [|by apply not_elem_of_nil in Hv]. cbn in Hv.
  assert (w <> inl rtr) as Hwr.
  { intros ->. pose proof (num_users_one _ _ _ _ H1 Hlr Hv _ _ Hl ltac:(by eapply list_elem_of_lookup_2)) as ->.
    unfold is_custom_call, IsCustomCall in Hcc. rewrite Hroot in Hcc. done. }
  assert (operands rtr = [op]) as Hops.
  { pose proof (Forall2_length _ _ _ (cn_uses _ _ Hc rtr l Hl)) as Hlen. unfold operands_of in Hone. rewrite Hl in Hone. cbn in Hone.
    destruct (operands rtr) as [|a [|b ops]]; cbn in *; [lia| |lia]. by injection Hop as ->. }
  destruct (make_reshard_consistent _ _ _ _ _ _ _ _ _ _ Hc Hval Hmake) as (more & Hc1 & Hnew & Hu).
  exists (rv ++ more).
  assert (consistent (ReplaceAllUsesWith (inl rtr) (default w o) st1) (rv ++ more)) as [? ? ? Hus ?].
  { apply (consistent_replace _ _ _ _ (val op) Hc1); [cbn; f_equal; by apply val_recolor|done|]. left.
    unfold make_reshard_if_needed in Hmake. pose proof (num_users_no_reshard _ _ _ _ H1 Hlr Hv) as Hnone.
    destruct (NeedsReshard _ _ _ _); [|by injection Hmake as _ <-]. destruct (XlaShapeToZukuShape _ _ _ _); [|done..].
    destruct (find_reshard _ _); [by injection Hmake as _ <-|]. injection Hmake as _ <-. cbn.
    intros n r [Hr|[_ Hr]]%lookup_app_Some; [by eapply Hnone|]. by apply list_lookup_singleton_Some in Hr as [_ <-]. }
  split; try done. intros i l'. cbn. intros [_ Hl']%lookup_delete_Some. by apply Hus.
Qed.

Lemma reshard_output_consistent st (root : I) index st' : is_consistent st -> opcode root = kTuple ->
  reshard_output Contains sharding_ptr shape root st index = OK st' -> is_consistent st'.
Proof.
  intros Hc Hroot. unfold reshard_output. intros (v & Hv & Hrun)%Result_bind_OK. apply vec_at_lookup in Hv as [_ Hv].
  destruct (is_custom_call v kCustomCallRootTupleRecolor) eqn:Hcc.
  - eapply reshard_recolored_consistent; [done|done| |done|done]. by eapply list_elem_of_lookup_2.
  - apply Result_bind_OK in Hrun as (s & _ & Hrun). case_bool_decide; [|by injection Hrun as <-].
    destruct Hc as [rv Hc]. destruct (use_value _ _ _ _ _ Hc Hv) as (_ & op & _ & _ & _ & Hval).
    eapply reshard_scalar_consistent; [by exists rv|by exists rv, (val op)|done].
Qed.

(** C8: The pass keeps the values of the module: the new reshards can be given values so that each
    one has the value of its operand, their chains end, and every operand in the module has
    the value of the operand it replaces. *)
Theorem Run_keeps_values entry attrs p st : NoDup (MakeInstructionPostOrder entry) ->
  Run Contains sharding_ptr shape entry attrs p = OK st -> exists rv, consistent st rv.
Proof.
  intros Hnd Hrun. apply Result_bind_OK in Hrun as (st1 & H1 & Hrun). cbv zeta in Hrun.
  assert (is_consistent st1) as Hc1.
  { apply (foldM_inv (fun (_ : list I) s => is_consistent s)) in H1; [done| |].
    - exists []. split; try done; [intros ?? Hin; by apply not_elem_of_nil in Hin| |by exists (fun _ => 0%nat)].
      intros i l Hl. apply elem_of_list_to_map_2 in Hl. apply list_elem_of_fmap in Hl as (i' & [= -> ->] & _).
      apply Forall2_fmap_l, Forall_Forall2_diag, Forall_forall. done.
    - intros done_ i rest s1 s2 _ Hs Hstep. by eapply reshard_call_consistent. }
  case_bool_decide as Hroot; [|by injection Hrun as <-].
  apply (foldM_inv (fun (_ : list Z) s => is_consistent s)) in Hrun; [done|done|].
  intros done_ index rest s1 s2 _ Hs Hstep. by eapply reshard_output_consistent.
Qed.
End values.

(** ** A module with reshards

    Two colors of four devices each; a task on the first one computes a tensor and a scalar
    that two tasks on the second one take.  The tensor is moved once for both, and the
    scalar, which is an output as well, is spread over all devices. *)
Module ReshardSample.
Definition call (args : list nat) (c : nat) : Graph.node := Graph.Node kCall args 0 [c] "" "" true 1 false.
Definition element (o : nat) (k : Z) : Graph.node := Graph.Node kGetTupleElement [o] k [] "" "" false 1 false.
Definition nodes : list Graph.node :=
  [Graph.op kParameter []; call [0] 0; element 1 0; element 1 1; call [2; 3] 1; element 4 0; call [2] 2; element 6 0;
   Graph.op kTuple [5; 7; 3]; Graph.op kParameter []; Graph.op kParameter []; Graph.op kParameter []; Graph.op kParameter []]%nat.
Definition comps : list Graph.comp :=
  [Graph.Comp 9 [9] [9]; Graph.Comp 10 [10; 11] [10; 11]; Graph.Comp 12 [12] [12]; Graph.Comp 8 [0] [0; 1; 2; 3; 4; 5; 6; 7; 8]]%nat.
#[export] Instance hlo0 : Hlo nat nat := Graph.hlo nodes comps.

Abbreviation Attrs := (gmap (nat + nat) (gmap string string)).
#[export] Instance store : AttrStore (nat + nat) Attrs := {
  frontend_attributes s i := default ∅ (s !! i);
  set_frontend_attributes i m s := <[i := m]> s;
  add_frontend_attributes i m s := <[i := default ∅ (s !! i) ∪ m]> s;
}.
#[export] Instance store_laws : AttrStoreLaws (nat + nat) Attrs.
Proof. split; intros i j m s; cbn; rewrite lookup_insert; by repeat case_decide; subst. Qed.

Definition Contains (a b : Slice.t) : bool :=
  bool_decide (Slice.start a <= Slice.start b) && bool_decide (Slice.start b + Slice.size b <= Slice.start a + Slice.size a).
Definition partition : HloPartition Slice.t :=
  (AllocateColor_named
    (AllocateColor_named (Create (Slice.mk 0 8)) "a" (Slice.mk 0 4) default_TaskOptions).2
    "b" (Slice.mk 4 4) default_TaskOptions).2.
Definition attrs : Attrs :=
  foldr (fun q s => AssignColor (inl q.1) q.2 s) ∅ [(1, "a"); (2, "a"); (3, "a"); (4, "b"); (5, "b"); (6, "b"); (7, "b")]%nat.
(** The parameter of the first task and its first result are split in four. *)
Definition sharding_ptr (i : nat) : option OpSharding :=
  if bool_decide (i ∈ [2; 9]%nat) then Some (Tiles.iota_tile [4]) else None.
Definition shape (i : nat) : Shape := MkShape F32 (if bool_decide (i ∈ [3; 11]%nat) then [] else [8]).
Definition run : Result (Resharding nat Attrs Slice.t OpSharding) := Run Contains sharding_ptr shape 3%nat attrs partition.
End ReshardSample.
Import ReshardSample.

Abbreviation order := (MakeInstructionPostOrder 3%nat).

Lemma order_nodup : NoDup order.
Proof. apply (bool_decide_unpack _). by vm_compute. Qed.

(** A property of every call of the module, by cases. *)
Lemma sample_calls (P : nat -> nat -> Prop) : P 1%nat 0%nat -> P 4%nat 1%nat -> P 6%nat 2%nat ->
  forall i c, i ∈ order -> opcode i = kCall -> called_computation i 0 = OK c -> P i c.
Proof.
  intros H1 H4 H6 i c Hi Hop Hc. change order with [0; 1; 2; 3; 4; 5; 6; 7; 8]%nat in Hi.
  repeat (apply elem_of_cons in Hi as [->|Hi]; [try discriminate; by injection Hc as <-|]). by apply elem_of_nil in Hi.
Qed.

Lemma sample_well_shaped : well_shaped shape 3%nat.
Proof.
  intros i c j o pm Hi Hop Hc. revert i c Hi Hop Hc j o pm.
  apply (sample_calls (fun i c => forall j o pm, operands i !! j = Some o -> parameter_instructions c !! j = Some pm ->
    dimensions (shape o) = dimensions (shape pm)));
  intros [|[|j]] o pm; cbn; try done; by intros [= <-] [= <-].
Qed.

Lemma sample_scalars : scalars_ok Contains sharding_ptr shape 3%nat attrs partition.
Proof.
  split; [done| |].
  - intros i c pm Hi Hop Hc. revert i c Hi Hop Hc pm.
    apply (sample_calls (fun i c => forall pm, pm ∈ parameter_instructions c -> dimensions (shape pm) = [] ->
      IsReplicated (sharding_or_default (sharding_ptr pm)) = true)); intros pm Hin; cbn in Hin;
    repeat (apply elem_of_cons in Hin as [->|Hin]; [by vm_compute|]); by apply elem_of_nil in Hin.
  - intros i d Hi Hop (color & Hcol & Hd). change order with [0; 1; 2; 3; 4; 5; 6; 7; 8]%nat in Hi.
    repeat (apply elem_of_cons in Hi as [->|Hi]; [try discriminate; vm_compute in Hcol; injection Hcol as <-; vm_compute in Hd;
      injection Hd as <-; by vm_compute|]). by apply elem_of_nil in Hi.
Qed.

Lemma sample_global : has_global_color partition.
Proof.
  split; [|right; by vm_compute]. apply wf_AllocateColor; [|by vm_compute]. apply wf_AllocateColor; [|by vm_compute]. apply wf_Create.
Qed.


Lemma Run_keeps_values_witness :
  exists st rv, run = OK st /\ consistent (fun i : nat => i) st rv.
Proof.
  destruct run as [st| |] eqn:Hrun; [|vm_compute in Hrun; discriminate..].
  destruct (Run_keeps_values Contains sharding_ptr shape (fun i : nat => i)) with (entry := 3%nat) (attrs := attrs) (p := partition) (st := st)
    as [rv Hrv].
  - intros i o Hi. unfold IsCustomCall in Hi. exfalso. cbn in Hi.
    do 13 (destruct i as [|i]; [discriminate|]). by destruct i.
  - exact order_nodup.
  - exact Hrun.
  - by exists st, rv.
Defined.
