(* ===== verification/ColorPasses.v ===== *)
(** * The passes on colors (mpmd_compute_assigned_colors.cc, mpmd_uniquify_colors.cc,
    mpmd_cut_size_minimizer.cc)

    [ComputeAssignedColors] gives colors to instructions with a name of a task or an
    explicit sharding, [Uniquify] gives every task a color of its own, and [Minimize] moves
    single instructions to the color of their users when this makes less data cross. *)
From S2P Require Import Prelude Hlo Instruction Partition Sharding Utils InstructionProperties.
Local Open Scope Z_scope.

(** The loop over a stack of computations; the top of the stack is the head. *)
Section worklist.
Context {X C : Type} (visit : X -> C -> Result (X * list C)).
Fixpoint visit_all (fuel : nat) (st : X) (to_visit : list C) : Result X :=
  match to_visit with
  | [] => OK st
  | c :: rest =>
      match fuel with
      | O => Fatal Diverges
      | S fuel => r ← visit st c; visit_all fuel (r : X * list C).1 (reverse r.2 ++ rest)
      end
  end.
End worklist.

Section color_passes.
Context {I C St D HS : Type} `{EqDecision I, !Countable I} `{!Hlo I C, !AttrStore I St}.
Context `{EqDecision D, !Countable D, !DeviceListApi D} `{!HloShardingApi HS} `{!HashOrder}.
Context (sharding_ptr : I -> option HS).
Implicit Types (i : I) (c : C) (s : St) (p : HloPartition D) (color : string).

(** ** Assigned colors *)

Section assigned.
(** The configuration of the module and of the named tasks. *)
Context (allow_to_parameters : list bool) (enable_metadata_name_tasks : bool) (contexts : NamedTaskContextStack.t).
Context (es : gmap I (Entry I)).

Definition ShardingHasTileAssignment i : bool :=
  match sharding_ptr i with
  | Some hs => negb (IsReplicated hs || IsManual hs || IsTuple hs || IsTileMaximal hs)
  | None => false
  end.

(** The device list is dereferenced without a check. *)
Definition explicit_devices p (hs : HS) : Result D :=
  if IsReplicated hs then OK (devices_ p)
  else match CreateDeviceList_tiles hs with
       | OK d => OK d
       | Err _ _ => Fatal LogFatal
       | Fatal f => Fatal f
       end.

(** A replicated sharding only counts on a parameter whose sharding can not be changed. *)
Definition is_explicit (hs : HS) i : Result bool :=
  if IsReplicated hs then
    parameter_number ← ParameterNumber es i;
    match parameter_number with
    | Some n => override ← AllowOverride n allow_to_parameters; OK (negb override)
    | None => OK false
    end
  else OK true.

Definition CheckForExplicitShardingColor p i : Result (option string * HloPartition D) :=
  match sharding_ptr i with
  | None => OK (None, p)
  | Some hs =>
      explicit ← is_explicit hs i;
      if (explicit : bool) then
        devices ← explicit_devices p hs;
        devices_color ← FindColor p devices;
        match devices_color with
        | Some color => OK (Some color, p)
        | None =>
            let q := AllocateColor_named p "sharding" devices default_TaskOptions in
            OK (Some q.1, q.2)
        end
      else OK (None, p)
  end.

Definition check_num_devices p color i : Result unit :=
  if ShardingHasTileAssignment i then
    devices ← DevicesForColor p color;
    match sharding_ptr i with
    | Some hs =>
        if bool_decide (dl_size devices <> ta_num_elements hs) then Err kInvalidArgument "sharded over other devices"
        else OK ()
    | None => OK ()
    end
  else OK ().

(** The color of an instruction that is not a tuple without color. *)
Definition assigned_color p (existing : option string) i : Result (option string * HloPartition D) :=
  q ← match existing with
      | Some color => OK (Some color, p)
      | None => ComputeMetadataNameColor enable_metadata_name_tasks contexts p (op_name i)
      end;
  match (q : option string * HloPartition D) with
  | (None, p) => CheckForExplicitShardingColor p i
  | (Some color, p) => _ ← check_num_devices p color i; OK (Some color, p)
  end.

Definition color_alias color s i : St := if bool_decide (is_Some (Color s i)) then s else AssignColor i color s.

Definition assign_instruction (st : St * HloPartition D) i : Result (St * HloPartition D) :=
  let '(s, p) := st in
  match Color s i with
  | Some color =>
      if HasColor p color then
        q ← assigned_color p (Some color) i;
        aliases ← ForEachAlias es i; OK (foldl (color_alias color) (AssignColor i color s) aliases, q.2)
      else Err kInvalidArgument "has not been assigned a device mesh"
  | None =>
      q ← assigned_color p None i;
      match (q : option string * HloPartition D) with
      | (Some color, p) => aliases ← ForEachAlias es i; OK (foldl (color_alias color) (AssignColor i color s) aliases, p)
      | (None, p) => OK (s, p)
      end
  end.

Definition is_root_tuple c i : bool := bool_decide (i = root_instruction c) && bool_decide (opcode i = kTuple).

(** The fuel bounds the nesting of the loops. *)
Fixpoint ComputeAssignedColors (fuel : nat) c (st : St * HloPartition D) : Result (St * HloPartition D) :=
  match fuel with
  | O => Fatal Diverges
  | S fuel =>
      foldM (fun (st : St * HloPartition D) i =>
          if is_root_tuple c i then OK st
          else if bool_decide (Color st.1 i = None) && bool_decide (opcode i = kTuple) then OK (ColorTuple i st.1, st.2)
          else
            st ← assign_instruction st i;
            if bool_decide (opcode i = kWhile) then body ← called_computation i 0; ComputeAssignedColors fuel body st
            else OK st)
        st (MakeInstructionPostOrder c)
  end.
End assigned.

(** ** Unique colors *)

(** The first of [color], [0.color], [1.color], ... that is not in the map. *)
Fixpoint unused_color (color_map : gmap string string) color (fuel : nat) (next_color : Z) (new_color : string) : Result string :=
  if bool_decide (is_Some (color_map !! new_color)) then
    match fuel with
    | O => Fatal Diverges
    | S fuel => unused_color color_map color fuel (next_color + 1) (StrCatZ next_color +:+ "." +:+ color)
    end
  else OK new_color.

Record Uniquifying := MkUniquifying {
  color_map : gmap string string;
  attributes : St;
  changed : bool;
}.

Definition uniquify_call (st : Uniquifying) i : Result Uniquifying :=
  match Color (attributes st) i with
  | None => Err kInvalidArgument "without color assigned"
  | Some color =>
      new_color ← unused_color (color_map st) color (size (color_map st)) 0 color;
      let m := <[new_color := color]> (color_map st) in
      called_comp ← called_computation i 0;
      if bool_decide (new_color <> color) then
        let s := foldl (fun s sub => AssignColor sub new_color s) (attributes st) (MakeInstructionPostOrder called_comp) in
        let s := foldl (fun s user => AssignColor user new_color s) s (users i) in
        OK (MkUniquifying m (AssignColor i new_color s) true)
      else OK (MkUniquifying m (attributes st) (changed st))
  end.

Definition uniquify_instruction (acc : Uniquifying * list C) i : Result (Uniquifying * list C) :=
  let '(st, bodies) := acc in
  if bool_decide (opcode i = kWhile) then body ← called_computation i 0; OK (st, bodies ++ [body])
  else if bool_decide (opcode i = kCall) then st ← uniquify_call st i; OK (st, bodies)
  else OK (st, bodies).

Definition keep_parameter (st : Uniquifying) i : Uniquifying :=
  if bool_decide (opcode i = kParameter) then
    match Color (attributes st) i with
    | Some color =>
        if bool_decide (is_Some (color_map st !! color)) then st
        else MkUniquifying (<[color := color]> (color_map st)) (attributes st) (changed st)
    | None => st
    end
  else st.

Definition uniquify_computation (st : Uniquifying) c : Result (Uniquifying * list C) :=
  r ← foldM uniquify_instruction (st, []) (MakeInstructionPostOrder c);
  let '(st, bodies) := (r : Uniquifying * list C) in
  OK (foldl keep_parameter st (MakeInstructionPostOrder c), bodies).

Definition Uniquify (fuel : nat) (entry : C) s p : Result (St * HloPartition D * bool) :=
  st ← visit_all uniquify_computation fuel (MkUniquifying ∅ s false) [entry];
  let '(p, status) := Recolor p (hash_order (map_to_list (color_map st))) in
  _ ← status;
  OK (attributes st, p, changed st).

(** ** Smaller cuts *)

Section cut_size.
(** The elements of the shard of an instruction with a sharding. *)
Context (partitioned_elements : I -> Z) (p : HloPartition D).

Definition Weight i : Z :=
  match sharding_ptr i with Some _ => partitioned_elements i | None => ElementsIn i end.

Definition user_colors s i : gset string :=
  list_to_set (omap (Color s) (users i)).

Definition SingleUserDifferentColor s c i : option string :=
  if bool_decide (opcode i = kParameter) || bool_decide (i = root_instruction c) then None
  else match Color s i with
       | None => None
       | Some color =>
           match elements (user_colors s i) with
           | [user_color] => if bool_decide (user_color <> color) then Some user_color else None
           | _ => None
           end
       end.

Definition is_unary i : bool :=
  match opcode i with
  | kTranspose | kConvert | kReshape | kBitcast | kNegate | kSqrt | kCos | kExp | kSin | kNot => true
  | _ => false
  end.

(** The tree is a chain; the fuel bounds its length. *)
Fixpoint GetSingleUserUnaryTree (fuel : nat) i : Result (list I) :=
  match fuel with
  | O => Fatal Diverges
  | S fuel =>
      if bool_decide (1 < length (users i))%nat then OK [i]
      else if is_unary i then o ← operand i 0; tree ← GetSingleUserUnaryTree fuel o; OK (i :: tree)
      else OK [i]
  end.

Definition IsLargerThanOperands i : bool :=
  bool_decide (foldl (fun w o => w + Weight o) 0 (operands i) < Weight i).

Definition is_skipped i : bool :=
  match opcode i with kCustomCall | kGetTupleElement | kCopy => true | _ => false end.

(** Every element of the tree assigns the color of the instruction itself. *)
Definition minimize_instruction (fuel : nat) c (acc : St * bool * list C) i : Result (St * bool * list C) :=
  let '(s, changed, bodies) := acc in
  if bool_decide (opcode i = kWhile) then body ← called_computation i 0; OK (s, changed, bodies ++ [body])
  else if is_skipped i then OK acc
  else
    match Color s i, SingleUserDifferentColor s c i with
    | Some color, Some user_color =>
        same ← EquivalentMesh p user_color color;
        if (same : bool) then
          unary_tree ← GetSingleUserUnaryTree fuel i;
          last ← of_option NullDeref (last unary_tree);
          if IsLargerThanOperands last then
            OK (foldl (fun s _ => AssignColor i user_color s) s unary_tree, true, bodies)
          else OK acc
        else OK acc
    | _, _ => OK acc
    end.

Definition minimize_computation (fuel : nat) (st : St * bool) c : Result (St * bool * list C) :=
  foldM (minimize_instruction fuel c) (st, []) (reverse (MakeInstructionPostOrder c)).

Definition Minimize (fuel visits : nat) (entry : C) s : Result (St * bool) :=
  visit_all (minimize_computation fuel) visits (s, false) [entry].
End cut_size.
End color_passes.
Arguments Uniquifying St : clear implicits.
