(* ===== verification/ColorPassesFacts.v ===== *)
(** * Loops and unique colors (mpmd_uniquify_colors.cc)

    The stack of computations visits the computation and the bodies of its loops; every
    task that is visited gets a color of its own, with the devices of its old color. *)
From S2P Require Import Prelude Hlo Instruction Partition Sharding Utils InstructionProperties ColorPasses.
Local Open Scope Z_scope.

(** ** The order of the visits *)

Section traversal.
Context {I C X : Type} `{!Hlo I C, !AcyclicLaws I C}.
Implicit Types (i : I) (c : C).

Definition loop_body i : option C :=
  if bool_decide (opcode i = kWhile) then
    match called_computation i 0 with OK b => Some b | _ => None end
  else None.
Definition loop_bodies c : list C := omap loop_body (MakeInstructionPostOrder c).

Lemma loop_bodies_rank c b : b ∈ loop_bodies c -> (call_rank b < call_rank c)%nat.
Proof.
  intros (i & Hi & Hb)%list_elem_of_omap. unfold loop_body in Hb. case_bool_decide; [|done].
  destruct (called_computation i 0) as [b'| |] eqn:Hc; [|done..]. injection Hb as ->. apply (call_rank_lt c i); [done|].
  unfold called_computation in Hc. apply vec_at_lookup in Hc as [_ Hc]. by eapply list_elem_of_lookup_2.
Qed.

Lemma visit_all_inv (visit : X -> C -> Result (X * list C)) (P : X -> Prop) (Q : C -> Prop) fuel st to_visit st' :
  (forall st c st' bodies, P st -> Q c -> visit st c = OK (st', bodies) -> P st' /\ Forall Q bodies) ->
  P st -> Forall Q to_visit -> visit_all visit fuel st to_visit = OK st' -> P st'.
Proof.
  intros Hstep. revert st to_visit. induction fuel as [|fuel IH]; intros st [|c rest] Hp Hq Hrun; try done.
  - by injection Hrun as <-.
  - by injection Hrun as <-.
  - apply Forall_cons in Hq as [Hc Hrest]. apply Result_bind_OK in Hrun as ([s bodies] & Hs & Hrun).
    destruct (Hstep _ _ _ _ Hp Hc Hs) as [Hp' Hq']. apply IH in Hrun; [done|done|]. apply Forall_app. split; [|done].
    by apply Forall_reverse.
Qed.

(** The number of visits that a computation causes, if each visit pushes computations it calls. *)
Section pushed.
Context (pushed : C -> list C) (pushed_rank : forall c b, b ∈ pushed c -> (call_rank b < call_rank c)%nat).

Fixpoint visits_within (fuel : nat) c : nat :=
  match fuel with O => 1%nat | S fuel => S (sum_list (visits_within fuel <$> pushed c)) end.
Definition visits_of c : nat := visits_within (S (call_rank c)) c.

Lemma visits_within_enough k k' c : (call_rank c < k)%nat -> (k <= k')%nat -> visits_within k' c = visits_within k c.
Proof.
  revert k' c. induction k as [|k IH]; intros k' c Hc Hk; [lia|]. destruct k' as [|k']; [lia|]. cbn. f_equal. f_equal.
  apply list_fmap_ext. intros n b Hb%list_elem_of_lookup_2. pose proof (pushed_rank _ _ Hb). apply IH; lia.
Qed.

Lemma visits_of_unfold c : visits_of c = S (sum_list (visits_of <$> pushed c)).
Proof.
  unfold visits_of at 1. cbn. f_equal. f_equal. apply list_fmap_ext. intros n b Hb%list_elem_of_lookup_2.
  pose proof (pushed_rank _ _ Hb). unfold visits_of. apply visits_within_enough; lia.
Qed.

Lemma sum_list_app (l1 l2 : list nat) : sum_list (l1 ++ l2) = (sum_list l1 + sum_list l2)%nat.
Proof. induction l1; cbn; lia. Qed.

Lemma visit_pushed_returns (visit : X -> C -> Result (X * list C)) (Q : C -> Prop) fuel st to_visit :
  (forall st c, Q c -> returns (visit st c)) -> (forall c b, Q c -> b ∈ pushed c -> Q b) -> Forall Q to_visit ->
  (forall st c st' bodies, visit st c = OK (st', bodies) -> bodies ≡ₚ pushed c) ->
  (sum_list (visits_of <$> to_visit) <= fuel)%nat -> returns (visit_all visit fuel st to_visit).
Proof.
  intros Hret Hbody Hq Hv. revert st to_visit Hq. induction fuel as [|fuel IH]; intros st [|c rest] Hq Hf; try done.
  - change (visits_of c + sum_list (visits_of <$> rest) <= 0)%nat in Hf. rewrite visits_of_unfold in Hf. lia.
  - change (visits_of c + sum_list (visits_of <$> rest) <= S fuel)%nat in Hf. rewrite visits_of_unfold in Hf.
    apply Forall_cons in Hq as [Hc0 Hq]. cbn [visit_all]. apply returns_bind; [by apply Hret|]. intros [st' bodies] Hc. apply Hv in Hc.
    apply IH; cbn [fst snd].
    { apply Forall_app. split; [|done]. apply Forall_reverse. rewrite Hc. apply Forall_forall. intros b. by apply Hbody. }
    rewrite fmap_app, fmap_reverse, sum_list_app, reverse_Permutation, Hc. lia.
Qed.
(** What holds after the visit of a computation, and stays, holds in the end for all that are reached. *)
Lemma visit_pushed_covers (visit : X -> C -> Result (X * list C)) (R : C -> X -> Prop) fuel st to_visit st' :
  (forall st c st' bodies, visit st c = OK (st', bodies) -> bodies ≡ₚ pushed c /\ R c st' /\ forall c', R c' st -> R c' st') ->
  visit_all visit fuel st to_visit = OK st' ->
  forall c0 c, c0 ∈ to_visit -> rtc (fun c b => b ∈ pushed c) c0 c -> R c st'.
Proof.
  intros Hv. revert st to_visit. induction fuel as [|fuel IH]; intros st [|c rest] Hrun c0 c1; [by intros ?%elem_of_nil|done|by intros ?%elem_of_nil|].
  cbn [visit_all] in Hrun. apply Result_bind_OK in Hrun as ([s bodies] & Hs & Hrun). cbn [fst snd] in Hrun.
  destruct (Hv _ _ _ _ Hs) as (Hb & HR & _). intros [->|Hin]%elem_of_cons Hrtc; [|apply (IH _ _ Hrun c0); [set_solver|done]].
  apply rtc_inv in Hrtc as [<-|(b & Hcb & Hrtc)].
  - eapply (visit_all_inv visit (R c) (fun _ => True)); [|exact HR|by apply Forall_forall|exact Hrun].
    intros s1 c2 s2 bs H1 _ H2. split; [|by apply Forall_forall]. by apply (Hv _ _ _ _ H2).
  - apply (IH _ _ Hrun b); [|done]. apply elem_of_app. left. by rewrite elem_of_reverse, Hb.
Qed.
End pushed.

(** Most passes push the bodies of loops. *)
Definition visits c : nat := visits_of loop_bodies c.

Lemma visits_unfold c : visits c = S (sum_list (visits <$> loop_bodies c)).
Proof. apply visits_of_unfold, loop_bodies_rank. Qed.

Fixpoint traversal (fuel : nat) (to_visit : list C) : list C :=
  match fuel, to_visit with
  | S fuel, c :: rest => c :: traversal fuel (reverse (loop_bodies c) ++ rest)
  | _, _ => []
  end.

(** With enough fuel the stack is a loop over the computations of the traversal. *)
Lemma visit_all_traversal (visit : X -> C -> Result (X * list C)) fuel st to_visit :
  (forall st c st' bodies, visit st c = OK (st', bodies) -> bodies = loop_bodies c) ->
  (sum_list (visits <$> to_visit) <= fuel)%nat ->
  visit_all visit fuel st to_visit = foldM (fun st c => r ← visit st c; OK (r : X * list C).1) st (traversal fuel to_visit).
Proof.
  intros Hv. revert st to_visit. induction fuel as [|fuel IH]; intros st [|c rest] Hf; try done.
  - change (visits c + sum_list (visits <$> rest) <= 0)%nat in Hf. rewrite visits_unfold in Hf. lia.
  - change (visits c + sum_list (visits <$> rest) <= S fuel)%nat in Hf. rewrite visits_unfold in Hf.
    cbn [visit_all traversal foldM]. destruct (visit st c) as [[st' bodies]| |] eqn:Hc; [|done..]. cbn.
    apply Hv in Hc as ->. apply IH. rewrite fmap_app, fmap_reverse.
    rewrite sum_list_app, reverse_Permutation. lia.
Qed.

Lemma visit_all_returns (visit : X -> C -> Result (X * list C)) (Q : C -> Prop) fuel st to_visit :
  (forall st c, Q c -> returns (visit st c)) -> (forall c b, Q c -> b ∈ loop_bodies c -> Q b) -> Forall Q to_visit ->
  (forall st c st' bodies, visit st c = OK (st', bodies) -> bodies ≡ₚ loop_bodies c) ->
  (sum_list (visits <$> to_visit) <= fuel)%nat -> returns (visit_all visit fuel st to_visit).
Proof. apply visit_pushed_returns, loop_bodies_rank. Qed.

End traversal.

(** ** Names that are not used *)

Lemma string_length_app (a b : string) : String.length (a +:+ b) = (String.length a + String.length b)%nat.
Proof. induction a as [|x a IH]; [done|]. change (S (String.length (a +:+ b)) = S (String.length a + String.length b)). by rewrite IH. Qed.

Lemma string_app_inj_r (a b t : string) : a +:+ t = b +:+ t -> a = b.
Proof.
  revert b. induction a as [|x a IH]; intros [|y b] Heq; [done| | |].
  - exfalso. apply (f_equal String.length) in Heq. rewrite !string_length_app in Heq. cbn in Heq. lia.
  - exfalso. apply (f_equal String.length) in Heq. rewrite !string_length_app in Heq. cbn in Heq. lia.
  - change (String x (a +:+ t) = String y (b +:+ t)) in Heq. injection Heq as -> Heq. by rewrite (IH b).
Qed.

Definition candidate (color : string) (k : Z) : string := StrCatZ k +:+ "." +:+ color.

Lemma candidate_inj color k k' : candidate color k = candidate color k' -> k = k'.
Proof. intros Heq%string_app_inj_r. by apply (inj pretty). Qed.

Lemma candidate_ne color k : candidate color k <> color.
Proof.
  intros Heq. apply (f_equal String.length) in Heq. unfold candidate in Heq. rewrite !string_length_app in Heq. cbn in Heq. lia.
Qed.

Section unused.
Context (m : gmap string string) (color : string).

Lemma unused_color_fresh fuel next new c : unused_color m color fuel next new = OK c -> m !! c = None.
Proof.
  revert next new. induction fuel as [|fuel IH]; intros next new; cbn; case_bool_decide as Hb; try done; [|by apply IH|];
    intros [= <-]; by apply eq_None_not_Some.
Qed.

Lemma unused_color_tried fuel next new : ~ returns (unused_color m color fuel next new) \/ (exists c, unused_color m color fuel next new = OK c).
Proof.
  unfold returns. revert next new. induction fuel as [|fuel IH]; intros next new; cbn; case_bool_decide; eauto.
Qed.

Lemma unused_color_diverges fuel next new : unused_color m color fuel next new = Fatal Diverges ->
  is_Some (m !! new) /\ forall k, (k < fuel)%nat -> is_Some (m !! candidate color (next + Z.of_nat k)).
Proof.
  revert next new. induction fuel as [|fuel IH]; intros next new; cbn; case_bool_decide as Hb; try done; intros Hd.
  - split; [done|lia].
  - apply IH in Hd as [Hn Hk]. split; [done|]. intros [|k] Hlt; [by rewrite Z.add_0_r|].
    replace (next + Z.of_nat (S k)) with (next + 1 + Z.of_nat k) by lia. apply Hk. lia.
Qed.

(** One more name than there are entries is tried. *)
Lemma unused_color_returns : exists c, unused_color m color (size m) 0 color = OK c.
Proof.
  destruct (unused_color_tried (size m) 0 color) as [Hd|]; [|done]. exfalso. unfold returns in Hd.
  destruct (decide (unused_color m color (size m) 0 color = Fatal Diverges)) as [Hdiv|]; [|done]. clear Hd.
  apply unused_color_diverges in Hdiv as [Hc Hk].
  assert (NoDup (color :: (candidate color <$> seqZ 0 (Z.of_nat (size m))))) as Hnd.
  { constructor.
    - intros (k & Heq & _)%list_elem_of_fmap. by apply (candidate_ne color k).
    - apply NoDup_fmap_2_strong; [|apply NoDup_seqZ]. intros k k' _ _. apply candidate_inj. }
  assert (color :: (candidate color <$> seqZ 0 (Z.of_nat (size m))) ⊆ elements (dom m)) as Hsub.
  { intros x [->|(k & -> & Hin)%list_elem_of_fmap]%elem_of_cons; apply elem_of_elements, elem_of_dom; [done|].
    apply elem_of_seqZ in Hin. specialize (Hk (Z.to_nat k)). rewrite Z2Nat.id in Hk by lia. apply Hk. lia. }
  apply NoDup_submseteq, submseteq_length in Hsub; [|done]. cbn in Hsub. rewrite length_fmap, length_seqZ in Hsub.
  change (length (elements (dom m))) with (size (dom m)) in Hsub. rewrite size_dom in Hsub. lia.
Qed.
End unused.

(** ** Unique colors *)

Section unique.
Context {I C St D HS : Type} `{EqDecision I, !Countable I} `{!Hlo I C, !AttrStore I St, !AttrStoreLaws I St, !AcyclicLaws I C}.
Context `{EqDecision D, !Countable D, !DeviceListApi D} `{!HashOrder}.
Implicit Types (i x : I) (c : C) (s : St) (p : HloPartition D) (st : Uniquifying St).

(** A task has no tasks among its instructions and the users of its result. *)
Definition task_apart i : Prop := forall c x, called_computation i 0 = OK c ->
  x ∈ MakeInstructionPostOrder c \/ x ∈ users i -> opcode x <> kCall.

Definition visited (fuel : nat) (entry : C) : list I := concat (MakeInstructionPostOrder <$> traversal fuel [entry]).

Lemma Color_assign_all (l : list I) color s i : i ∉ l -> Color (foldl (fun s x => AssignColor x color s) s l) i = Color s i.
Proof.
  revert s. induction l as [|x l IH]; intros s Hi; cbn; [done|]. rewrite IH by set_solver. apply Color_AssignColor_ne. set_solver.
Qed.

(** After the visits of [done_]: the colors of its tasks, and the rest as it was in [s0]. *)
Record unique s0 (done_ : list I) st : Prop := {
  un_new : forall i, i ∈ done_ -> opcode i = kCall -> exists new old, Color (attributes st) i = Some new /\ Color s0 i = Some old /\
    color_map st !! new = Some old;
  un_distinct : forall i j, i ∈ done_ -> j ∈ done_ -> opcode i = kCall -> opcode j = kCall ->
    Color (attributes st) i = Color (attributes st) j -> i = j;
  un_rest : forall i, i ∉ done_ -> opcode i = kCall -> Color (attributes st) i = Color s0 i;
}.

Lemma unique_other s0 done_ st i : opcode i <> kCall -> unique s0 done_ st -> unique s0 (done_ ++ [i]) st.
Proof.
  intros Hi [H1 H2 H3]. assert (forall j, opcode j = kCall -> j ∈ done_ ++ [i] -> j ∈ done_) as Hin.
  { intros j Hj [?| ->%list_elem_of_singleton]%elem_of_app; congruence. }
  split; [by eauto|by eauto|]. intros j Hj. apply H3. set_solver.
Qed.

Lemma uniquify_call_unique s0 done_ st i st' : unique s0 done_ st -> i ∉ done_ -> opcode i = kCall -> task_apart i ->
  uniquify_call st i = OK st' -> unique s0 (done_ ++ [i]) st'.
Proof.
  intros [H1 H2 H3] Hi Hop Hap. unfold uniquify_call. destruct (Color (attributes st) i) as [color|] eqn:Hcol; [|done].
  intros (new & Hnew & Hrun)%Result_bind_OK. apply Result_bind_OK in Hrun as (c & Hc & Hrun).
  apply unused_color_fresh in Hnew.
  assert (Color (attributes st') i = Some new /\ (forall j, opcode j = kCall -> j <> i -> Color (attributes st') j = Color (attributes st) j) /\
    color_map st' = <[new := color]> (color_map st)) as (Hi' & Hrest & Hm).
  { case_bool_decide as Hne; injection Hrun as <-; cbn.
    - split; [by rewrite Color_AssignColor_eq|]. split; [|done]. intros j Hj Hji. rewrite Color_AssignColor_ne by done.
      rewrite !Color_assign_all; [done|..]; intros Hin; apply (Hap c j Hc); auto.
    - split; [|done]. destruct (decide (new = color)); [congruence|done]. }
  assert (forall j, j ∈ done_ -> opcode j = kCall -> Color (attributes st') j = Color (attributes st) j) as Hd.
  { intros j Hj Hjop. apply Hrest; [done|]. by intros ->. }
  assert (forall j, j ∈ done_ -> opcode j = kCall -> Color (attributes st') j <> Some new) as Hnn.
  { intros j Hj Hjop. rewrite Hd by done. destruct (H1 j Hj Hjop) as (n & o & Hn & _ & Hmn). rewrite Hn. intros [= ->]. congruence. }
  split.
  - intros j [Hj| ->%list_elem_of_singleton]%elem_of_app Hjop.
    + destruct (H1 j Hj Hjop) as (n & o & Hn & Ho & Hmn). exists n, o. rewrite Hd, Hm by done. split; [done|]. split; [done|].
      rewrite lookup_insert_ne; [done|]. intros ->. congruence.
    + exists new, color. rewrite Hm, lookup_insert_eq. split; [done|]. split; [|done]. by rewrite <- Hcol, H3.
  - intros j k [Hj| ->%list_elem_of_singleton]%elem_of_app [Hk| ->%list_elem_of_singleton]%elem_of_app Hjop Hkop Heq.
    + rewrite !Hd in Heq by done. by apply H2.
    + rewrite Hi' in Heq. by apply Hnn in Heq.
    + rewrite Hi' in Heq. symmetry in Heq. by apply Hnn in Heq.
    + done.
  - intros j Hj Hjop. rewrite Hrest; [|done|set_solver]. apply H3; [set_solver|done].
Qed.

Lemma keep_parameter_unique s0 done_ st i : unique s0 done_ st -> unique s0 done_ (keep_parameter st i).
Proof.
  intros [H1 H2 H3]. unfold keep_parameter. case_bool_decide; [|done]. destruct (Color (attributes st) i) as [color|]; [|done].
  case_bool_decide as Hm; [done|]. split; [|done|done]. intros j Hj Hop. destruct (H1 j Hj Hop) as (n & o & Hn & Ho & Hmn).
  exists n, o. split; [done|]. split; [done|]. cbn. rewrite lookup_insert_ne; [done|]. intros ->. apply Hm. by eexists.
Qed.

Lemma uniquify_computation_bodies st c st' bodies : uniquify_computation st c = OK (st', bodies) -> bodies = loop_bodies c.
Proof.
  unfold uniquify_computation. intros ([st1 b] & Hrun & [= _ <-])%Result_bind_OK.
  apply (foldM_inv (fun done_ (acc : Uniquifying St * list C) => acc.2 = omap loop_body done_)) in Hrun; [done|done|].
  intros done_ i rest [s1 b1] [s2 b2] _ Hb Hstep. cbn in *. subst b1. rewrite omap_app. cbn [omap list_omap]. unfold loop_body at 2.
  case_bool_decide as Hw.
  - apply Result_bind_OK in Hstep as (b' & -> & [= _ <-]). done.
  - rewrite app_nil_r. case_bool_decide; [|by injection Hstep as _ <-]. by apply Result_bind_OK in Hstep as (? & _ & [= _ <-]).
Qed.

Lemma uniquify_computation_unique s0 done_ st c st' bodies : unique s0 done_ st -> NoDup (done_ ++ MakeInstructionPostOrder c) ->
  (forall i, i ∈ MakeInstructionPostOrder c -> opcode i = kCall -> task_apart i) ->
  uniquify_computation st c = OK (st', bodies) -> unique s0 (done_ ++ MakeInstructionPostOrder c) st'.
Proof.
  intros Hu Hnd Hap. unfold uniquify_computation. intros ([st1 b] & Hrun & [= <- _])%Result_bind_OK.
  apply (foldM_inv (fun l (acc : Uniquifying St * list C) => unique s0 (done_ ++ l) acc.1)) in Hrun.
  - cbn in Hrun. generalize (MakeInstructionPostOrder c) at 2. intros l. revert st1 Hrun. induction l as [|x l IH]; intros st1 Hrun; [done|].
    cbn. apply IH. by apply keep_parameter_unique.
  - by rewrite app_nil_r.
  - intros l i rest [s1 b1] [s2 b2] Heq Hs Hstep. cbn in *. rewrite app_assoc.
    assert (i ∈ MakeInstructionPostOrder c) as Hi by (rewrite Heq; set_solver).
    assert (i ∉ done_ ++ l) as Hni.
    { rewrite Heq, app_assoc in Hnd. apply NoDup_app in Hnd as (_ & Hnd & _). intros Hin. apply (Hnd i Hin). by left. }
    case_bool_decide as Hw.
    + apply Result_bind_OK in Hstep as (b' & _ & [= <- _]). apply unique_other; [congruence|done].
    + case_bool_decide as Hc; [|injection Hstep as <- _; by apply unique_other].
      apply Result_bind_OK in Hstep as (s3 & Hs3 & [= <- _]). eapply uniquify_call_unique; [done..| |done]. by apply Hap.
Qed.

Lemma uniquify_computation_returns st c : returns (uniquify_computation st c).
Proof.
  unfold uniquify_computation. apply returns_bind.
  - apply returns_foldM. intros [s b] i _. cbn. case_bool_decide; [apply returns_bind; [apply returns_vec_at|done]|].
    case_bool_decide; [|done]. apply returns_bind; [|done]. unfold uniquify_call. destruct (Color (attributes s) i) as [color|]; [|done].
    destruct (unused_color_returns (color_map s) color) as [new ->]. cbn. apply returns_bind; [apply returns_vec_at|].
    intros c' _. by case_bool_decide.
  - by intros [s b] _.
Qed.

Lemma foldM_uniquify s0 l st st' : unique s0 [] st -> NoDup (concat (MakeInstructionPostOrder <$> l)) ->
  (forall i, i ∈ concat (MakeInstructionPostOrder <$> l) -> opcode i = kCall -> task_apart i) ->
  foldM (fun st c => r ← uniquify_computation st c; OK (r : Uniquifying St * list C).1) st l = OK st' ->
  unique s0 (concat (MakeInstructionPostOrder <$> l)) st'.
Proof.
  intros H0 Hnd Hap Hrun.
  apply (foldM_inv (fun done_ st => unique s0 (concat (MakeInstructionPostOrder <$> done_)) st)) in Hrun; [done|done|].
  intros done_ c rest s s' -> Hs Hstep. apply Result_bind_OK in Hstep as ([s1 b] & Hstep & [= <-]).
  rewrite fmap_app, concat_app in *. cbn in *. rewrite app_nil_r. rewrite app_assoc in Hnd. apply NoDup_app in Hnd as (Hnd & _ & _).
  eapply uniquify_computation_unique; [done|done| |done]. intros i Hi. apply Hap. set_solver.
Qed.

Lemma Recolor_new p m p' new old : Recolor p (hash_order (map_to_list m)) = (p', OK ()) -> m !! new = Some old ->
  exists d, DevicesForColor p old = OK d /\ DevicesForColor p' new = OK d.
Proof.
  intros Hrun Hm. pose proof (Recolor_spec p (hash_order (map_to_list m))) as Hspec. rewrite Hrun in Hspec.
  destruct Hspec as ([Hsome _] & Hcolors & _).
  { rewrite (fmap_Permutation fst _ _ (hash_order_perm (map_to_list m))). apply NoDup_fst_map_to_list. }
  specialize (Hsome eq_refl). destruct (Hcolors eq_refl) as [Heq _].
  assert ((new, old) ∈ hash_order (map_to_list m)) as Hin.
  { rewrite (hash_order_perm (map_to_list m)). by apply elem_of_map_to_list. }
  rewrite Forall_forall in Hsome. destruct (Hsome _ Hin) as [cfg Hcfg]. cbn in Hcfg. exists (cc_devices cfg).
  unfold DevicesForColor, ConfigForColor. rewrite (Heq _ _ Hin), Hcfg. done.
Qed.

(** C13: Making colors unique ends, and when it succeeds every task of the computation and of the
    loops in it has a color that no other task has, registered with the devices that its
    color had before. *)
Theorem Uniquify_unique fuel entry s p : (visits entry <= fuel)%nat -> NoDup (visited fuel entry) ->
  (forall i, i ∈ visited fuel entry -> opcode i = kCall -> task_apart i) ->
  returns (Uniquify fuel entry s p) /\
  forall s' p' changed, Uniquify fuel entry s p = OK (s', p', changed) ->
    (forall i, i ∈ visited fuel entry -> opcode i = kCall -> exists new old d, Color s' i = Some new /\ Color s i = Some old /\
      DevicesForColor p old = OK d /\ DevicesForColor p' new = OK d) /\
    (forall i j, i ∈ visited fuel entry -> j ∈ visited fuel entry -> opcode i = kCall -> opcode j = kCall ->
      Color s' i = Color s' j -> i = j).
Proof.
  intros Hf Hnd Hap. unfold Uniquify.
  rewrite (visit_all_traversal _ _ _ _ uniquify_computation_bodies) by (cbn [fmap list_fmap]; change (visits entry + 0 <= fuel)%nat; lia).
  split.
  - apply returns_bind; [apply returns_foldM; intros st c _; apply returns_bind; [apply uniquify_computation_returns|done]|].
    intros st _. destruct (Recolor p _) as [p' status] eqn:Hr.
    assert (returns status) as Hs.
    { unfold Recolor in Hr. destruct (Recolor_loop _ _ _ _) as [orig st2] eqn:Hl. 
      assert (returns st2) as Hst2.
      { revert Hl. generalize (colors_ p) at 1. generalize (∅ : gmap string (ColorConfig D)). generalize (original_color_ p).
        induction (hash_order (map_to_list (color_map st))) as [|[a b] l IH]; intros o e cs; cbn; [by intros [= _ <-]|].
        destruct (cs !! b); [apply IH|by intros [= _ <-]]. }
      destruct st2; injection Hr as _ <-; [done|done|]. intros [= ->]. by apply Hst2. }
    apply returns_bind; [done|]. by intros [] _.
  - intros s' p' changed (st & Hrun & Hrest)%Result_bind_OK.
    destruct (Recolor p _) as [p1 status] eqn:Hr. apply Result_bind_OK in Hrest as ([] & -> & [= <- <- _]).
    apply (foldM_uniquify s) in Hrun as [H1 H2 H3]; [|split; [by intros ? ?%not_elem_of_nil|by intros ?? ?%not_elem_of_nil|done]|done|done].
    split; [|done]. intros i Hi Hop. destruct (H1 i Hi Hop) as (new & old & Hn & Ho & Hm).
    destruct (Recolor_new _ _ _ _ _ Hr Hm) as (d & ? & ?). by exists new, old, d.
Qed.
End unique.
