(* ===== verification/AssignedColors.v ===== *)
(** * Assigned colors are registered (mpmd_compute_assigned_colors.cc)

    After the pass every color of an instruction of the module, in loops as well, is in the
    registry: the passes that follow can ask for its devices. *)
From S2P Require Import Prelude Hlo Instruction Partition Sharding Utils InstructionProperties ColoringFacts ColorPasses ColorPassesFacts.
Local Open Scope Z_scope.

Section registered.
Context {D : Type} `{EqDecision D, !Countable D, !DeviceListApi D}.
Implicit Types (p : HloPartition D) (color : string).

(** The colors that are offered for devices or names are registered. *)
Record registered p : Prop := {
  rg_listed : forall d cs c, device_list_to_colors_ p !! d = Some cs -> c ∈ cs -> HasColor p c = true;
  rg_matched : forall k c, matched_colors_ p !! k = Some c -> HasColor p c = true;
}.

Definition more_colors p p' : Prop := forall c, HasColor p c = true -> HasColor p' c = true.

#[global] Instance more_colors_preorder : PreOrder more_colors.
Proof. split; [by intros p c|]. intros p1 p2 p3 H12 H23 c Hc. auto. Qed.

Lemma HasColor_true p c : HasColor p c = true <-> is_Some (colors_ p !! c).
Proof. apply bool_decide_eq_true. Qed.

Lemma more_colors_colors p p' : colors_ p ⊆ colors_ p' -> more_colors p p'.
Proof. intros Hsub c. rewrite !HasColor_true. intros [cfg Hc]. exists cfg. by eapply lookup_weaken. Qed.

Lemma AllocateColor_registered p cfg : registered p ->
  registered (AllocateColor p cfg).2 /\ more_colors p (AllocateColor p cfg).2 /\ HasColor (AllocateColor p cfg).2 (AllocateColor p cfg).1 = true.
Proof.
  intros [Hl Hm]. assert (more_colors p (AllocateColor p cfg).2) as Hmore.
  { intros c. rewrite !HasColor_true. cbn. intros [cfg' Hc]. destruct (decide (uniquify_name p (cc_name cfg) = c)) as [<-|].
    - rewrite lookup_insert_eq. by eexists.
    - rewrite lookup_insert_ne by done. by eexists. }
  assert (HasColor (AllocateColor p cfg).2 (AllocateColor p cfg).1 = true) as Hnew.
  { rewrite HasColor_true. cbn. rewrite lookup_insert_eq. by eexists. }
  split; [|done]. split.
  - intros d cs c. cbn [AllocateColor snd device_list_to_colors_]. intros [[<- <-]|[_ Hd]]%lookup_insert_Some Hc.
    + apply elem_of_app in Hc as [Hc| ->%list_elem_of_singleton]; [|done]. apply Hmore. cbn [cc_devices] in Hc.
      destruct (device_list_to_colors_ p !! cc_devices cfg) as [l|] eqn:Hd; [exact (Hl _ _ _ Hd Hc)|by apply not_elem_of_nil in Hc].
    + apply Hmore. by eapply Hl.
  - intros k c Hk. apply Hmore. by eapply (Hm k).
Qed.

Lemma ComputeMetadataNameColor_registered en ctx p op oc p' : registered p -> ComputeMetadataNameColor en ctx p op = OK (oc, p') ->
  registered p' /\ more_colors p p' /\ forall c, oc = Some c -> HasColor p' c = true.
Proof.
  intros Hreg. unfold ComputeMetadataNameColor. destruct (negb en); [by intros [= <- <-]|]. case_bool_decide; [by intros [= <- <-]|].
  destruct (first_match _ _) as [[task m]|]; [|by intros [= <- <-]].
  intros (c' & Hoc & [[Hp Hc]|(Hnone & dl & opts & Hp)])%color_of_match_OK; cbn in Hoc, Hp; subst oc p'.
  - split; [done|]. split; [done|]. intros c [= <-]. destruct Hc as [Hc|Hc]; [by eapply rg_matched|by apply HasColor_true].
  - set (b := StrContains op kJvpTransposeMetadata). set (p1 := (AllocateColor_named p c' dl opts).2).
    destruct (AllocateColor_registered p (MkConfig c' dl false false opts) Hreg) as (Hreg1 & Hmore1 & _). fold p1 in Hreg1, Hmore1.
    assert (forall c, HasColor p1 c = true -> HasColor (set_backprop p1 c' b) c = true) as Hmore2.
    { intros c. rewrite !HasColor_true. cbn. intros [cfg Hc]. destruct (decide (c' = c)) as [->|].
      - rewrite lookup_insert_eq. by eexists.
      - rewrite lookup_insert_ne by done. by eexists. }
    assert (HasColor (set_backprop p1 c' b) c' = true) as Hc' by (rewrite HasColor_true; cbn; rewrite lookup_insert_eq; by eexists).
    assert (more_colors p (remember_match (set_backprop p1 c' b) m b c')) as Hmore by (intros c Hc; by apply Hmore2, Hmore1).
    split; [|split; [done|by intros c [= <-]]]. destruct Hreg1 as [Hl Hm]. split.
    + intros d cs c Hd Hc. apply Hmore2. by eapply Hl.
    + intros k c. cbn [matched_colors_ remember_match]. intros [[_ <-]|[_ Hk]]%lookup_insert_Some; [done|]. apply Hmore2. by eapply Hm.
Qed.

Lemma FindColor_registered p d c : registered p -> FindColor p d = OK (Some c) -> HasColor p c = true.
Proof.
  intros Hreg. unfold FindColor. destruct (device_list_to_colors_ p !! d) as [cs|] eqn:Hd; [|done].
  intros (c' & Hc & [= <-])%Result_bind_OK. apply vec_at_lookup in Hc as [_ Hc%list_elem_of_lookup_2]. by eapply rg_listed.
Qed.
End registered.

Section assigned.
Context {I C St D HS : Type} `{EqDecision I, !Countable I} `{!Hlo I C, !AttrStore I St, !AttrStoreLaws I St, !AcyclicLaws I C, !PostOrderLaws I C}.
Context `{EqDecision D, !Countable D, !DeviceListApi D} `{!HloShardingApi HS}.
Context (sharding_ptr : I -> option HS).
Context (allow_to_parameters : list bool) (enable_metadata_name_tasks : bool) (contexts : NamedTaskContextStack.t).
Context (es : gmap I (Entry I)).
Abbreviation compute := (ComputeAssignedColors sharding_ptr allow_to_parameters enable_metadata_name_tasks contexts es).
Abbreviation assigned_color_ := (assigned_color sharding_ptr allow_to_parameters enable_metadata_name_tasks contexts es).
Implicit Types (i j o : I) (s : St) (p : HloPartition D).

Lemma assigned_color_registered p existing i oc p' : registered p -> (forall c, existing = Some c -> HasColor p c = true) ->
  assigned_color_ p existing i = OK (oc, p') ->
  registered p' /\ more_colors p p' /\ forall c, oc = Some c -> HasColor p' c = true.
Proof.
  intros Hreg Hex. unfold assigned_color. intros ([oc1 p1] & H1 & Hrun)%Result_bind_OK.
  assert (registered p1 /\ more_colors p p1 /\ forall c, oc1 = Some c -> HasColor p1 c = true) as (Hreg1 & Hm1 & Hc1).
  { destruct existing as [c0|]; [injection H1 as <- <-; split; [done|by split]|by eapply ComputeMetadataNameColor_registered]. }
  destruct oc1 as [color|].
  - apply Result_bind_OK in Hrun as ([] & _ & [= <- <-]). split; [done|by split].
  - unfold CheckForExplicitShardingColor in Hrun. destruct (sharding_ptr i) as [hs|]; [|injection Hrun as <- <-; by split].
    apply Result_bind_OK in Hrun as (explicit & _ & Hrun). destruct explicit; [|injection Hrun as <- <-; by split].
    apply Result_bind_OK in Hrun as (d & _ & Hrun). apply Result_bind_OK in Hrun as (fc & Hfc & Hrun).
    destruct fc as [color|].
    + injection Hrun as <- <-. split; [done|]. split; [done|]. intros c [= <-]. by eapply FindColor_registered.
    + destruct (AllocateColor_registered p1 (MkConfig "sharding" d false false default_TaskOptions) Hreg1) as (Hr & Hm & Hn).
      injection Hrun as <- <-. split; [done|]. split; [by etrans|]. intros c [= <-]. done.
Qed.

(** The color of an instruction, if it has one, is registered. *)
Definition good (st : St * HloPartition D) i : Prop := forall c, Color st.1 i = Some c -> HasColor st.2 c = true.

Record progress (st st' : St * HloPartition D) : Prop := {
  pg_registered : registered st.2 -> registered st'.2;
  pg_good : forall i, registered st.2 -> good st i -> good st' i;
}.

#[global] Instance progress_preorder : PreOrder progress.
Proof. split; [by intros st; split|]. intros s1 s2 s3 [A1 A2] [B1 B2]. split; [auto|]. intros i Hr Hg. apply B2; auto. Qed.

Lemma assign_instruction_good st i st' : registered st.2 ->
  assign_instruction sharding_ptr allow_to_parameters enable_metadata_name_tasks contexts es st i = OK st' ->
  registered st'.2 /\ (forall j, good st j -> good st' j) /\ good st' i.
Proof.
  destruct st as [s p]. cbn. intros Hreg Hrun.
  assert (forall color (p' : HloPartition D) aliases, HasColor p' color = true -> more_colors p p' ->
    (forall j, good (s, p) j -> good (foldl (color_alias color) (AssignColor i color s) aliases, p') j) /\
    good (foldl (color_alias color) (AssignColor i color s) aliases, p') i) as Hassign.
  { intros color p' aliases Hc Hmore.
    assert (forall l s1 j, (forall c, Color s1 j = Some c -> HasColor p' c = true) ->
      forall c, Color (foldl (color_alias color) s1 l) j = Some c -> HasColor p' c = true) as Hal.
    { induction l as [|a l IH]; intros s1 j Hj; cbn; [done|]. apply IH. intros c. unfold color_alias. case_bool_decide; [apply Hj|].
      rewrite Color_AssignColor. case_decide; [by intros [= <-]|apply Hj]. }
    split; [intros j Hj c|intros c]; apply Hal; cbn; intros c'; rewrite Color_AssignColor.
    - case_decide; [by intros [= <-]|]. intros Hc'. by apply Hmore, Hj.
    - rewrite decide_True by done. by intros [= <-]. }
  destruct (Color s i) as [color|] eqn:Hcol.
  - destruct (HasColor p color) eqn:Hhas; [|done]. apply Result_bind_OK in Hrun as ([oc p'] & Hq & Hrun).
    apply Result_bind_OK in Hrun as (aliases & _ & [= <-]).
    destruct (assigned_color_registered p (Some color) i oc p' Hreg ltac:(by intros c [= <-]) Hq) as (Hreg' & Hm & _). cbn [fst snd]. split; [done|].
    apply Hassign; [by apply Hm|done].
  - apply Result_bind_OK in Hrun as ([oc p'] & Hq & Hrun).
    destruct (assigned_color_registered p None i oc p' Hreg ltac:(done) Hq) as (Hreg' & Hm & Hoc). destruct oc as [color|].
    + apply Result_bind_OK in Hrun as (aliases & _ & [= <-]). split; [done|]. apply Hassign; [by apply Hoc|done].
    + injection Hrun as <-. split; [done|]. split; [intros j Hj c Hc; by apply Hm, Hj|]. intros c Hc. cbn in Hc. congruence.
Qed.

Lemma ColorTuple_good s p i : (forall o, o ∈ operands i -> good (s, p) o) -> Color s i = None ->
  (forall j, good (s, p) j -> good (ColorTuple i s, p) j) /\ good (ColorTuple i s, p) i.
Proof.
  intros Hops Hi. assert (good (ColorTuple i s, p) i) as Hgi.
  { intros c. cbn. unfold ColorTuple. destruct (uniform_color s (operands i) None) as [color|] eqn:Hu; [|congruence].
    rewrite Color_AssignColor_eq. intros [= <-]. apply uniform_color_None in Hu as [Hne Hall].
    destruct (operands i) as [|o ops]; [done|]. apply Forall_cons in Hall as [Ho _]. by apply (Hops o); [left|]. }
  split; [|done]. intros j Hj. destruct (decide (j = i)) as [->|Hne]; [done|]. intros c. cbn.
  destruct (Color_ColorTuple i s j) as [->|[-> _]]; [apply Hj|done].
Qed.

Definition loop_of (c b : C) : Prop := b ∈ loop_bodies c.
(** No instruction of a computation uses its root. *)
Hypothesis root_unused : forall (c : C) i, i ∈ MakeInstructionPostOrder c -> root_instruction c ∉ operands i.


Lemma assigned_color_returns p existing i : returns (assigned_color_ p existing i).
Proof.
  unfold assigned_color. apply returns_bind.
  - destruct existing; [done|]. unfold ComputeMetadataNameColor. destruct (negb _); [done|]. case_bool_decide; [done|].
    destruct (first_match _ _) as [[task m]|]; [|done]. unfold color_of_match. case_bool_decide; [done|]. cbn zeta.
    destruct (matched_colors_ p !! _); [done|]. destruct (to_name _); [|done]. case_bool_decide; [done|].
    apply returns_bind; [apply returns_bind; [apply returns_vec_at|done]|]. intros d _. destruct (colors_ p !! _); [by case_bool_decide|].
    destruct (AllocateColor_named _ _ _ _). by case_bool_decide.
  - intros [[color|] p1] _.
    + apply returns_bind; [|done]. unfold check_num_devices. destruct (ShardingHasTileAssignment _ _); [|done].
      apply returns_bind; [|intros d _; destruct (sharding_ptr i); [by case_bool_decide|done]].
      unfold DevicesForColor, ConfigForColor. by destruct (colors_ p1 !! color).
    + unfold CheckForExplicitShardingColor. destruct (sharding_ptr i) as [hs|]; [|done]. apply returns_bind.
      * unfold is_explicit. destruct (IsReplicated hs); [|done]. apply returns_bind.
        -- unfold ParameterNumber, Get, of_option. by destruct (es !! i).
        -- intros [n|] _; [|done]. apply returns_bind; [|done]. unfold AllowOverride. case_bool_decide; [apply returns_vec_at|].
           case_bool_decide; [done|apply returns_vec_at].
      * intros [|] _; [|done]. apply returns_bind.
        -- unfold explicit_devices. destruct (IsReplicated hs); [done|]. unfold CreateDeviceList_tiles. destruct (ta_iota hs); [done|].
           by destruct (consecutive _ _).
        -- intros d _. apply returns_bind; [|by intros []].
           unfold FindColor. destruct (device_list_to_colors_ p1 !! d); [|done]. apply returns_bind; [apply returns_vec_at|done].
Qed.

Lemma while_rank (c b : C) i : i ∈ MakeInstructionPostOrder c -> called_computation i 0 = OK b -> (call_rank b < call_rank c)%nat.
Proof.
  intros Hi Hb. apply (call_rank_lt c i); [done|]. unfold called_computation in Hb. apply vec_at_lookup in Hb as [_ Hb].
  by eapply list_elem_of_lookup_2.
Qed.

Lemma compute_returns fuel (c : C) st : (call_rank c < fuel)%nat -> (forall i, returns (ForEachAlias es i)) -> returns (compute fuel c st).
Proof.
  intros Hfuel Hal. revert c st Hfuel. induction fuel as [|fuel IH]; intros c st Hfuel; [lia|]. cbn. apply returns_foldM.
  intros [s p] i Hi. destruct (is_root_tuple c i); [done|]. destruct (_ && _); [done|]. apply returns_bind.
  - unfold assign_instruction. destruct (Color s i) as [color|].
    + destruct (HasColor p color); [|done]. apply returns_bind; [apply assigned_color_returns|]. intros q _. by apply returns_bind.
    + apply returns_bind; [apply assigned_color_returns|]. intros [[color|] p'] _; [by apply returns_bind|done].
  - intros st' _. case_bool_decide; [|done]. apply returns_bind; [apply returns_vec_at|]. intros b Hb. apply IH.
    pose proof (while_rank _ _ _ Hi Hb). lia.
Qed.

(** C12: The pass ends, with fuel above the nesting of the loops, and when it succeeds every
    instruction of the computation and of the loops in it, root tuples apart, has a
    registered color or none. *)
Theorem ComputeAssignedColors_registered fuel (c : C) st : registered st.2 -> (call_rank c < fuel)%nat ->
  (forall i, returns (ForEachAlias es i)) ->
  returns (compute fuel c st) /\
  forall st', compute fuel c st = OK st' ->
    registered st'.2 /\ (forall i, good st i -> good st' i) /\
    forall b i, rtc loop_of c b -> i ∈ MakeInstructionPostOrder b -> is_root_tuple b i = false -> good st' i.
Proof.
  intros Hreg Hfuel Hal. split; [by apply compute_returns|]. clear Hfuel. revert c st Hreg.
  induction fuel as [|fuel IH]; intros c st Hreg st' Hrun; [done|]. cbn [ComputeAssignedColors] in Hrun.
  apply (foldM_inv (fun (done_ : list I) (s : St * HloPartition D) => registered s.2 /\ (forall i, good st i -> good s i) /\
    (forall i, i ∈ done_ -> is_root_tuple c i = false -> good s i) /\
    (forall w (b b' : C) i, w ∈ done_ -> loop_body w = Some b -> rtc loop_of b b' -> i ∈ MakeInstructionPostOrder b' ->
      is_root_tuple b' i = false -> good s i))) in Hrun.
  - destruct Hrun as (H1 & H2 & H3 & H4). split; [done|]. split; [done|]. intros b i [->|(b1 & Hb1 & Hrest)]%rtc_inv Hi Hr; [by apply H3|].
    apply list_elem_of_omap in Hb1 as (w & Hw & Hb1). by eapply H4.
  - split; [done|]. split; [done|]. split; [by intros i ?%not_elem_of_nil|by intros w b b' i ?%not_elem_of_nil].
  - intros done_ i rest s s' Heq (H1 & H2 & H3 & H4) Hstep.
    assert (MakeInstructionPostOrder c !! length done_ = Some i) as Hi by (rewrite Heq; by apply list_lookup_middle).
    assert (forall o, o ∈ operands i -> good s o) as Hops.
    { intros o Ho. destruct (postorder_operands c _ i o Hi Ho) as (m & Hm & Hmo). apply H3.
      - rewrite Heq, lookup_app_l in Hmo by done. by eapply list_elem_of_lookup_2.
      - unfold is_root_tuple. rewrite bool_decide_eq_false_2; [done|]. intros ->. apply (root_unused c i); [by eapply list_elem_of_lookup_2|done]. }
    assert (forall (b : C), loop_body i = Some b -> opcode i = kWhile /\ called_computation i 0 = OK b) as Hloop.
    { intros b. unfold loop_body. destruct (decide (opcode i = kWhile)) as [Hop|Hop].
      - rewrite bool_decide_eq_true_2 by done. destruct (called_computation i 0); [|done..]. by intros [= ->].
      - by rewrite bool_decide_eq_false_2. }
    (** What the step must establish. *)
    assert (registered s'.2 /\ (forall j, good s j -> good s' j) /\ (is_root_tuple c i = false -> good s' i) /\
      (forall (b b' : C) j, loop_body i = Some b -> rtc loop_of b b' -> j ∈ MakeInstructionPostOrder b' -> is_root_tuple b' j = false -> good s' j))
      as (Hr' & Hmono & Hi' & Hb').
    { destruct (is_root_tuple c i) eqn:Hroot.
      { injection Hstep as <-. split; [done|]. split; [done|]. split; [done|]. intros b b' j [Hop _]%Hloop.
        unfold is_root_tuple in Hroot. rewrite Hop in Hroot. by rewrite andb_false_r in Hroot. }
      destruct (_ && _) eqn:Htuple.
      { apply andb_true_iff in Htuple as [Hn%bool_decide_eq_true Ht%bool_decide_eq_true]. destruct s as [sa p]. injection Hstep as <-.
        destruct (ColorTuple_good sa p i Hops Hn) as [Hm Hg]. split; [done|]. split; [done|]. split; [done|].
        intros b b' j [Hop _]%Hloop. congruence. }
      apply Result_bind_OK in Hstep as (s1 & Hs1 & Hstep). destruct (assign_instruction_good _ _ _ H1 Hs1) as (Hr1 & Hm1 & Hg1).
      case_bool_decide as Hw.
      - apply Result_bind_OK in Hstep as (b & Hb & Hstep). destruct (IH b s1 Hr1 s' Hstep) as (Hr2 & Hm2 & Hg2).
        split; [done|]. split; [auto|]. split; [auto|]. intros b0 b' j [_ Hb0]%Hloop Hrtc. assert (b0 = b) as -> by congruence. by apply Hg2.
      - injection Hstep as <-. split; [done|]. split; [done|]. split; [done|]. intros b b' j [Hop _]%Hloop. congruence. }
    split; [done|]. split; [auto|]. split.
    + intros j [Hj| ->%list_elem_of_singleton]%elem_of_app Hr; [by apply Hmono, H3|by apply Hi'].
    + intros w b b' j [Hw| ->%list_elem_of_singleton]%elem_of_app Hb Hrtc Hj Hr; [by eapply Hmono, H4|by eapply Hb'].
Qed.
End assigned.
