(* ===== verification/CutSize.v ===== *)
(** * Less data crosses (mpmd_cut_size_minimizer.cc)

    The weight that crosses colors, every instruction counted once for every other color
    among its users, never grows. *)
From S2P Require Import Prelude Hlo Instruction Partition Sharding Utils InstructionProperties ColorPasses ColorPassesFacts.
Local Open Scope Z_scope.

Section sums.
Context {A : Type} `{EqDecision A}.
Definition sum_over (f : A -> Z) (l : list A) : Z := foldr (fun x acc => f x + acc) 0 l.

Lemma sum_over_cons f x (l : list A) : sum_over f (x :: l) = f x + sum_over f l.
Proof. done. Qed.

Lemma sum_over_le f g (l : list A) : (forall x, x ∈ l -> f x <= g x) -> sum_over f l <= sum_over g l.
Proof.
  induction l as [|x l IH]; intros Hle; rewrite ?sum_over_cons; [done|]. pose proof (Hle x ltac:(by left)).
  assert (sum_over f l <= sum_over g l) by (apply IH; intros; apply Hle; by right). lia.
Qed.

Lemma sum_over_plus f g (l : list A) : sum_over (fun x => f x + g x) l = sum_over f l + sum_over g l.
Proof. induction l as [|x l IH]; rewrite ?sum_over_cons; [done|]. lia. Qed.

Lemma sum_over_submseteq f (l k : list A) : (forall x, 0 <= f x) -> l ⊆+ k -> sum_over f l <= sum_over f k.
Proof. intros Hf. induction 1 as [|x l k _ IH|x y l|x l k _ IH|l1 l2 l3 _ IH1 _ IH2]; rewrite ?sum_over_cons; try specialize (Hf x); lia. Qed.

Lemma sum_over_filter f (P : A -> Prop) `{!forall x, Decision (P x)} (l : list A) :
  sum_over (fun x => if decide (P x) then f x else 0) l = sum_over f (filter P l).
Proof.
  induction l as [|x l IH]; [done|]. rewrite sum_over_cons, filter_cons, IH. case_decide; [by rewrite sum_over_cons|lia].
Qed.

Lemma sum_over_one (l : list A) i w : NoDup l -> i ∈ l -> sum_over (fun x => if decide (x = i) then w else 0) l = w.
Proof.
  induction l as [|x l IH]; intros Hnd Hi; [by apply not_elem_of_nil in Hi|]. apply NoDup_cons in Hnd as [Hx Hnd]. rewrite sum_over_cons.
  apply elem_of_cons in Hi as [->|Hi].
  - rewrite decide_True by done. assert (sum_over (fun y => if decide (y = x) then w else 0) l = 0); [|lia].
    clear IH Hnd. induction l as [|y l IH]; [done|]. rewrite sum_over_cons, decide_False by set_solver. rewrite IH by set_solver. lia.
  - rewrite decide_False by (intros ->; done). rewrite IH by done. lia.
Qed.

Lemma foldl_sum f (l : list A) acc : foldl (fun w o => w + f o) acc l = acc + sum_over f l.
Proof. revert acc. induction l as [|x l IH]; intros acc; cbn [foldl]; [unfold sum_over; cbn; lia|]. rewrite IH, sum_over_cons. lia. Qed.
End sums.

Section cut.
Context {I C St D HS : Type} `{EqDecision I, !Countable I} `{!Hlo I C, !AttrStore I St, !AttrStoreLaws I St, !AcyclicLaws I C, !UsersLaws I C}.
Context `{EqDecision D, !Countable D, !DeviceListApi D}.
Context (sharding_ptr : I -> option HS) (partitioned_elements : I -> Z) (p : HloPartition D).
Abbreviation weight := (Weight sharding_ptr partitioned_elements).
Implicit Types (i o x : I) (c : C) (s : St).

(** The weight of an instruction for every color of a user that is not its own. *)
Definition cut_of s x : Z :=
  match Color s x with
  | None => 0
  | Some color => weight x * Z.of_nat (size (user_colors s x ∖ {[color]}))
  end.
Definition cut (all : list I) s : Z := sum_over (cut_of s) all.

Hypothesis weight_nonneg : forall x, 0 <= weight x.
(** Unary operations have one operand, of the same size. *)
Hypothesis unary_weight : forall x, is_unary x = true -> exists o, operands x = [o] /\ weight o = weight x.

Lemma user_colors_same s s' x : (forall u, u ∈ users x -> Color s' u = Color s u) -> user_colors s' x = user_colors s x.
Proof.
  intros Hu. unfold user_colors. f_equal. induction (users x) as [|u l IH]; [done|]. cbn. rewrite (Hu u) by (by left).
  rewrite IH; [done|]. intros. apply Hu. by right.
Qed.

Lemma user_colors_recolor s s' x i b : (forall u, u <> i -> Color s' u = Color s u) -> Color s' i = Some b ->
  user_colors s' x ⊆ user_colors s x ∪ {[b]}.
Proof.
  intros Hrest Hi color. unfold user_colors. rewrite elem_of_list_to_set. intros (u & Hu & Hc)%list_elem_of_omap.
  destruct (decide (u = i)) as [->|Hne]; [set_solver|]. rewrite Hrest in Hc by done. apply elem_of_union. left.
  apply elem_of_list_to_set, list_elem_of_omap. by exists u.
Qed.

(** Moving an instruction to the only color of its users, when it weighs as much as its
    operands. *)
Lemma recolor_cut all s s' i a b : NoDup all -> i ∈ all -> Color s i = Some a -> user_colors s i = {[b]} -> b <> a ->
  sum_over weight (operands i) <= weight i ->
  Color s' i = Some b -> (forall u, u <> i -> Color s' u = Color s u) -> cut all s' <= cut all s.
Proof.
  intros Hnd Hi Ha Hb Hne Hle Hi' Hrest.
  assert (i ∉ users i) as Hself by (rewrite users_spec; intros Hin; pose proof (operand_rank_lt i i Hin); lia).
  set (extra := fun x => if decide (x ∈ operands i) then weight x else 0).
  set (less := fun x => if decide (x = i) then weight i else 0).
  assert (forall x, x ∈ all -> cut_of s' x + less x <= cut_of s x + extra x) as Hpoint.
  { intros x _. unfold less, extra. case_decide as Hx.
    - subst x. rewrite decide_False by (by rewrite <- users_spec). unfold cut_of. rewrite Ha, Hi'.
      rewrite (user_colors_same s s' i) by (intros u Hu; apply Hrest; by intros ->). rewrite Hb.
      assert ({[b]} ∖ {[b]} = (∅ : gset string)) as -> by set_solver. assert ({[b]} ∖ {[a]} = ({[b]} : gset string)) as -> by set_solver.
      rewrite size_empty, size_singleton. lia.
    - unfold cut_of. rewrite Hrest by done. pose proof (weight_nonneg x). destruct (Color s x) as [color|]; [|case_decide; lia].
      case_decide as Hop.
      + assert (size (user_colors s' x ∖ {[color]}) <= size (user_colors s x ∖ {[color]}) + 1)%nat as Hsize; [|nia].
        pose proof (user_colors_recolor s s' x i b Hrest Hi') as Hsub.
        assert (user_colors s' x ∖ {[color]} ⊆ user_colors s x ∖ {[color]} ∪ {[b]}) as Hsub2 by set_solver.
        apply subseteq_size in Hsub2. rewrite Hsub2. pose proof (size_union_alt (user_colors s x ∖ {[color]}) {[b]}) as ->.
        assert (size ({[b]} ∖ (user_colors s x ∖ {[color]})) <= size ({[b]} : gset string))%nat as Hs1 by (apply subseteq_size; set_solver).
        rewrite size_singleton in Hs1. lia.
      + rewrite (user_colors_same s s' x); [lia|]. intros u Hu. apply Hrest. intros ->. by apply Hop, users_spec. }
  apply sum_over_le in Hpoint. rewrite !sum_over_plus in Hpoint. unfold less in Hpoint. rewrite sum_over_one in Hpoint by done.
  unfold extra in Hpoint. rewrite sum_over_filter in Hpoint.
  assert (sum_over weight (filter (fun x => x ∈ operands i) all) <= sum_over weight (operands i)) as Hops.
  { apply sum_over_submseteq; [done|]. apply NoDup_submseteq; [by apply NoDup_filter|]. intros x [Hx _]%list_elem_of_filter. done. }
  unfold cut. lia.
Qed.

(** ** The pass *)

Lemma Color_repeated s i b (l : list I) : l <> [] ->
  Color (foldl (fun s (_ : I) => AssignColor i b s) s l) i = Some b /\
  forall u, u <> i -> Color (foldl (fun s (_ : I) => AssignColor i b s) s l) u = Color s u.
Proof.
  intros Hl. split.
  - destruct l as [|x l _] using rev_ind; [done|]. rewrite foldl_app. cbn. by rewrite Color_AssignColor_eq.
  - intros u Hu. clear Hl. induction l as [|x l IH] using rev_ind; [done|]. rewrite foldl_app. cbn.
    by rewrite Color_AssignColor_ne.
Qed.

Lemma tree_head fuel i tree : GetSingleUserUnaryTree fuel i = OK tree -> tree = [i] \/ (tree <> [] /\ is_unary i = true).
Proof.
  destruct fuel as [|fuel]; [done|]. cbn. case_bool_decide; [intros [= <-]; by left|].
  destruct (is_unary i) eqn:Hu; [|intros [= <-]; by left]. intros (o & _ & Hrun)%Result_bind_OK.
  apply Result_bind_OK in Hrun as (t & _ & [= <-]). by right.
Qed.

Lemma tree_returns fuel i : (operand_rank i < fuel)%nat -> returns (GetSingleUserUnaryTree fuel i).
Proof.
  revert i. induction fuel as [|fuel IH]; intros i Hf; [lia|]. cbn. case_bool_decide; [done|]. destruct (is_unary i); [|done].
  apply returns_bind; [apply returns_vec_at|]. intros o Ho. apply returns_bind; [|done]. apply IH.
  unfold operand in Ho. apply vec_at_lookup in Ho as [_ Ho%list_elem_of_lookup_2]. pose proof (operand_rank_lt i o Ho). lia.
Qed.

Lemma SingleUserDifferentColor_Some s c i b : SingleUserDifferentColor s c i = Some b ->
  exists a, Color s i = Some a /\ user_colors s i = {[b]} /\ b <> a.
Proof.
  unfold SingleUserDifferentColor. destruct (_ || _); [done|]. destruct (Color s i) as [a|]; [|done].
  destruct (elements (user_colors s i)) as [|x [|y l]] eqn:He; [done| |done]. case_bool_decide; [|done]. intros [= <-].
  exists a. split; [done|]. split; [|done]. rewrite <- (list_to_set_elements_L (user_colors s i)), He. cbn. set_solver.
Qed.

Abbreviation minimize := (minimize_instruction sharding_ptr partitioned_elements p).

Lemma minimize_instruction_cut all fuel c s ch bodies i s' ch' bodies' : NoDup all -> i ∈ all ->
  minimize fuel c (s, ch, bodies) i = OK (s', ch', bodies') -> cut all s' <= cut all s.
Proof.
  intros Hnd Hi. unfold minimize_instruction. case_bool_decide; [intros (b & _ & [= <- _ _])%Result_bind_OK; lia|].
  destruct (is_skipped i); [intros [= <- _ _]; lia|]. destruct (Color s i) as [a|] eqn:Ha; [|intros [= <- _ _]; lia].
  destruct (SingleUserDifferentColor s c i) as [b|] eqn:Hb; [|intros [= <- _ _]; lia].
  intros (same & _ & Hrun)%Result_bind_OK. destruct same; [|injection Hrun as <- _ _; lia].
  apply Result_bind_OK in Hrun as (tree & Ht & Hrun). apply Result_bind_OK in Hrun as (t & Hlast & Hrun).
  destruct (IsLargerThanOperands _ _ t) eqn:Hl; [|injection Hrun as <- _ _; lia]. injection Hrun as <- _ _.
  destruct (SingleUserDifferentColor_Some _ _ _ _ Hb) as (a' & Ha' & Hu & Hne).
  assert (tree <> []) as Hnil by (destruct (tree_head _ _ _ Ht) as [->|[? _]]; done).
  destruct (Color_repeated s i b tree Hnil) as [H1 H2]. eapply recolor_cut; try done.
  destruct (tree_head _ _ _ Ht) as [->|[_ Hun]].
  - unfold of_option in Hlast. cbn in Hlast. injection Hlast as <-. unfold IsLargerThanOperands in Hl.
    apply bool_decide_eq_true in Hl. rewrite foldl_sum in Hl. lia.
  - destruct (unary_weight i Hun) as (o & -> & Ho). rewrite sum_over_cons. unfold sum_over. cbn. lia.
Qed.

(** The bodies are pushed in the order of the visits. *)
Lemma minimize_bodies fuel c st st' bodies : minimize_computation sharding_ptr partitioned_elements p fuel st c = OK (st', bodies) ->
  bodies = omap loop_body (reverse (MakeInstructionPostOrder c)).
Proof.
  unfold minimize_computation. intros Hrun.
  apply (foldM_inv (fun done_ (acc : St * bool * list C) => acc.2 = omap loop_body done_)) in Hrun; [done|done|].
  intros done_ i rest [[s1 ch1] b1] [[s2 ch2] b2] _ Hb Hstep. cbn in Hb |- *. subst b1. rewrite omap_app. cbn [omap list_omap]. unfold loop_body at 2.
  unfold minimize_instruction in Hstep. destruct (decide (opcode i = kWhile)) as [Hw|Hw].
  - rewrite bool_decide_eq_true_2 in Hstep by done. apply Result_bind_OK in Hstep as (b & Hb & [= _ _ <-]).
    rewrite bool_decide_eq_true_2 by done. by rewrite Hb.
  - rewrite bool_decide_eq_false_2 in Hstep by done. rewrite bool_decide_eq_false_2 by done. rewrite app_nil_r.
    destruct (is_skipped i); [by injection Hstep as _ _ <-|]. destruct (Color s1 i); [|by injection Hstep as _ _ <-].
    destruct (SingleUserDifferentColor s1 c i); [|by injection Hstep as _ _ <-].
    apply Result_bind_OK in Hstep as ([|] & _ & Hstep); [|by injection Hstep as _ _ <-].
    apply Result_bind_OK in Hstep as (t & _ & Hstep). apply Result_bind_OK in Hstep as (x & _ & Hstep).
    destruct (IsLargerThanOperands _ _ x); by injection Hstep as _ _ <-.
Qed.

End cut.
