(* ===== verification/ColorSamples.v ===== *)
(** * The passes on colors on concrete modules

    A module with two tasks of one color and a loop with a third, a broadcast that is
    converted for another color, and a sharded parameter. *)
From S2P Require Import Prelude Hlo Instruction Partition Sharding ShardingIndex Utils InstructionProperties ColorPasses ColorPassesFacts AssignedColors CutSize.
Local Open Scope Z_scope.

(** A run that succeeds, by evaluation of a test of its result. *)
Lemma run_checked {A} (r : Result A) (test : A -> bool) :
  match r with OK a => test a | _ => false end = true -> exists a, r = OK a /\ test a = true.
Proof. destruct r as [a| |]; [|done..]. by exists a. Qed.

Module TaskColors.
Definition call (args : list nat) (c : nat) : Graph.node := Graph.Node kCall args 0 [c] "" "" true 1 false.
Definition element (o : nat) (k : Z) : Graph.node := Graph.Node kGetTupleElement [o] k [] "" "" false 1 false.
Definition nodes : list Graph.node :=
  [Graph.op kParameter []; call [0] 0; element 1 0; call [2] 1; element 3 0;
   Graph.Node kWhile [4] 0 [3; 3] "" "" true 1 false;
   Graph.Node kCustomCall [5] 0 [] kCustomCallRootTupleRecolor "" false 1 false; Graph.op kTuple [6];
   Graph.op kParameter []; call [8] 2; element 9 0; Graph.op kParameter []; Graph.op kParameter []; Graph.op kParameter []]%nat.
Definition comps : list Graph.comp :=
  [Graph.Comp 11 [11] [11]; Graph.Comp 12 [12] [12]; Graph.Comp 13 [13] [13]; Graph.Comp 10 [8] [8; 9; 10];
   Graph.Comp 7 [0] [0; 1; 2; 3; 4; 5; 6; 7]]%nat.
#[export] Instance hlo0 : Hlo nat nat := Graph.hlo nodes comps.
#[export] Instance order0 : HashOrder := insertion_order.
Lemma nodes_ok : Graph.graph_ok nodes comps = true.
Proof. by vm_compute. Qed.
#[export] Instance acyclic0 : AcyclicLaws nat nat := Graph.acyclic_laws _ _ nodes_ok.
#[export] Instance postorder0 : PostOrderLaws nat nat := Graph.postorder_laws _ _ nodes_ok.
#[export] Instance users0 : UsersLaws nat nat := Graph.users_laws _ _.

Definition partition : HloPartition Slice.t :=
  (AllocateColor_named
    (AllocateColor_named
      (AllocateColor_named (Create (Slice.mk 0 8)) "p" (Slice.mk 0 8) default_TaskOptions).2
      "a" (Slice.mk 0 4) default_TaskOptions).2
    "out" (Slice.mk 4 4) default_TaskOptions).2.
Definition colors : AttrMap.t :=
  foldr (fun q s => AssignColor q.1 q.2 s) ∅ [(0, "p"); (1, "a"); (2, "a"); (3, "a"); (4, "a"); (6, "out"); (9, "a"); (10, "a")]%nat.
Definition unique_run := Uniquify 2 4%nat colors partition.

Definition apart (i : nat) : bool :=
  match called_computation i 0 with
  | OK c => forallb (fun x => negb (bool_decide (opcode x = kCall))) (MakeInstructionPostOrder c ++ users i)
  | _ => true
  end.

Lemma apart_task_apart i : apart i = true -> task_apart (C := nat) i.
Proof.
  unfold apart. intros Hi c x Hc Hx. rewrite Hc in Hi. rewrite forallb_forall in Hi.
  assert (x ∈ MakeInstructionPostOrder c ++ users i) as Hin by (by apply elem_of_app).
  apply list_elem_of_In, Hi, negb_true_iff, bool_decide_eq_false in Hin. done.
Qed.

Lemma tasks_apart i : i ∈ visited 2 4%nat -> opcode i = kCall -> task_apart (C := nat) i.
Proof.
  intros Hi Hop. apply apart_task_apart. revert i Hi Hop.
  apply (proj1 (Forall_forall (fun i => opcode i = kCall -> apart i = true) _)).
  apply (bool_decide_unpack _). by vm_compute.
Qed.

Lemma Uniquify_unique_witness :
  exists s p, unique_run = OK (s, p, true) /\ Color s 1%nat <> Color s 3%nat /\
    exists new d, Color s 9%nat = Some new /\ DevicesForColor partition "a" = OK d /\ DevicesForColor p new = OK d.
Proof.
  destruct (run_checked unique_run (fun r => r.2)) as ([[s p] ch] & Hrun & Hch); [by vm_compute|]. cbn in Hch. subst ch.
  exists s, p. split; [exact Hrun|].
  destruct (Uniquify_unique 2 4%nat colors partition) as [_ Hu].
  - vm_compute. lia.
  - apply (bool_decide_unpack _). by vm_compute.
  - exact tasks_apart.
  - destruct (Hu s p true Hrun) as [Hnew Hdistinct].
    assert (1 ∈ visited 2 4 /\ 3 ∈ visited 2 4 /\ 9 ∈ visited 2 4)%nat as (H1 & H3 & H9).
    { split_and!; [apply (list_elem_of_lookup_2 _ 1)|apply (list_elem_of_lookup_2 _ 3)|apply (list_elem_of_lookup_2 _ 9)]; by vm_compute. }
    split.
    + intros Heq. assert (1 = 3)%nat; [|discriminate]. apply Hdistinct; [exact H1|exact H3|by vm_compute|by vm_compute|exact Heq].
    + destruct (Hnew 9%nat) as (new & old & d & Hn & Ho & Hd & Hd'); [exact H9|by vm_compute|].
      exists new, d. assert (old = "a") as -> by (vm_compute in Ho; by injection Ho as <-). split; [exact Hn|]. split; [exact Hd|exact Hd'].
Defined.

(** The color of an output that is moved by a custom call is not one of a task or a
    parameter: it is not registered any more. *)
Lemma Uniquify_drops_color :
  HasColor partition "out" = true /\ Color colors 6%nat = Some "out" /\
  exists s p, unique_run = OK (s, p, true) /\ Color s 6%nat = Some "out" /\ DevicesForColor p "out" = Fatal LogFatal.
Proof.
  split; [by vm_compute|]. split; [by vm_compute|].
  assert (match unique_run with
          | OK (s, p, true) => Color s 6%nat = Some "out" /\ DevicesForColor p "out" = Fatal LogFatal
          | _ => False
          end) as Hrun by (vm_compute; by split).
  destruct unique_run as [[[s p] [|]]| |]; [|done..]. by exists s, p.
Qed.

Definition entries : gmap nat (Entry nat) := list_to_map ((fun i => (i, default_entry)) <$> seq 0 14).

Lemma entries_returns i : returns (ForEachAlias entries i).
Proof.
  assert (forall i e, entries !! i = Some e -> e = default_entry) as He.
  { intros j e Hj. unfold entries in Hj. apply elem_of_list_to_map_2 in Hj. apply list_elem_of_fmap in Hj as (k & [= _ ->] & _). done. }
  assert (forall m (link : Entry nat -> option nat), m <> Diverges -> link default_entry = None -> returns (alias_chain m link (S (size entries)) entries i)) as Hc.
  { intros m link Hm Hl. cbn [alias_chain]. destruct (entries !! i) as [e|] eqn:Hi; cbn [of_option mbind Result_bind]; [|intros [= ->]; by apply Hm].
    apply He in Hi as ->. by rewrite Hl. }
  unfold ForEachAlias, ForEachBackwardAlias, ForEachForwardAlias.
  apply returns_bind; [by apply Hc|]. intros b _. apply returns_bind; [by apply Hc|done].
Qed.

(** The parameter of the loop is sharded over the second half of the mesh. *)
Definition sharding_ptr (i : nat) : option OpSharding :=
  if bool_decide (i = 8%nat) then Some (MkOpSharding OTHER [4] [] [4] [0] 4 false) else None.
Abbreviation compute := (ComputeAssignedColors sharding_ptr [] false [] entries).

Lemma root_unused (c i : nat) : i ∈ MakeInstructionPostOrder c -> root_instruction c ∉ operands i.
Proof.
  assert (forall c, (c < 5)%nat -> Forall (fun i => root_instruction c ∉ operands i) (MakeInstructionPostOrder c)) as Hall.
  { intros c' Hc. do 5 (destruct c' as [|c']; [apply (bool_decide_unpack _); by vm_compute|]). lia. }
  intros Hi. destruct (decide (c < 5)%nat) as [Hc|Hc]; [by apply (proj1 (Forall_forall _ _) (Hall c Hc))|].
  do 5 (destruct c as [|c]; [lia|]). destruct c; cbn in Hi; by apply list_elem_of_singleton in Hi as ->; apply not_elem_of_nil.
Qed.

Lemma partition_registered : registered partition.
Proof.
  do 3 apply AllocateColor_registered. split; [intros d cs c Hd _|intros k c Hd]; cbn in Hd; by apply lookup_empty_Some in Hd.
Qed.

Lemma ComputeAssignedColors_registered_witness :
  exists st, compute 5 4%nat (colors, partition) = OK st /\ is_Some (Color st.1 8%nat) /\
    forall color, Color st.1 8%nat = Some color -> HasColor st.2 color = true.
Proof.
  destruct (ComputeAssignedColors_registered sharding_ptr [] false [] entries root_unused 5 4%nat (colors, partition)) as [_ Hreg].
  - exact partition_registered.
  - vm_compute. lia.
  - exact entries_returns.
  - destruct (run_checked (compute 5 4%nat (colors, partition)) (fun st => bool_decide (is_Some (Color st.1 8%nat))))
      as (st & Hrun & Hcol%bool_decide_eq_true); [by vm_compute|].
    exists st. split; [exact Hrun|]. split; [exact Hcol|]. destruct (Hreg st Hrun) as (_ & _ & Hgood).
    apply (Hgood 3%nat 8%nat); [|by left|done]. apply rtc_once. change (loop_bodies 4%nat) with [3%nat]. by left.
Defined.
End TaskColors.

Module CutSample.
Definition nodes : list Graph.node :=
  [Graph.Node kParameter [] 0 [] "" "" false 4 true; Graph.Node kBroadcast [0] 0 [] "" "" false 16 true;
   Graph.Node kConvert [1] 0 [] "" "" false 16 true; Graph.Node kAdd [2] 0 [] "" "" false 16 true]%nat.
Definition comps : list Graph.comp := [Graph.Comp 3 [0] [0; 1; 2; 3]]%nat.
#[export] Instance hlo0 : Hlo nat nat := Graph.hlo nodes comps.
Lemma cut_nodes_ok : Graph.graph_ok nodes comps = true.
Proof. by vm_compute. Qed.
#[export] Instance acyclic0 : AcyclicLaws nat nat := Graph.acyclic_laws _ _ cut_nodes_ok.
#[export] Instance users0 : UsersLaws nat nat := Graph.users_laws _ _.
Definition partition : HloPartition Slice.t :=
  (AllocateColor_named
    (AllocateColor_named (Create (Slice.mk 0 8)) "a" (Slice.mk 0 4) default_TaskOptions).2
    "b" (Slice.mk 4 4) default_TaskOptions).2.
Definition colors : AttrMap.t := foldr (fun q s => AssignColor q.1 q.2 s) ∅ [(0, "a"); (1, "a"); (2, "a"); (3, "b")]%nat.
Definition unsharded (_ : nat) : option OpSharding := None.
Abbreviation minimize := (Minimize unsharded (fun _ => 0) partition 20 1 0%nat colors).
Abbreviation cut_ := (cut unsharded (fun _ => 0) [0; 1; 2; 3]%nat).

End CutSample.
