(* ===== verification/ArgumentRecompute.v ===== *)
(** * Recomputing operands from arguments (mpmd_argument_recompute.h/.cc)

    An operand that another task computes cheaply from the arguments of the computation is
    computed again: its operand tree is cloned with the color of the user.

    The edits are part of the state: a value is an instruction of the module, [inl i], or a
    clone, [inr n], at a position of [clones]; [uses] has the operands of the instructions of
    the computations that are visited; a loop has a body of its own, so each computation is
    visited once.  The instructions to remove and the computations to prune are recorded for
    the clean-up, which the code leaves to [HloPassCleanup]. *)
From S2P Require Import Prelude Hlo Instruction Partition Sharding InstructionProperties ColorPasses Utils.
Local Open Scope Z_scope.

Definition kLargeBufferSize : Z := 1024 * 1024 * 8.
Definition kCrossMeshCommComputeRatio : Z := 1000.
Definition kGlobalMemToComputeRatio : Z := 100.

(** The properties of the instructions, as properties of values. *)
Definition lift_entry {I : Type} (e : Entry I) : Entry (I + nat) :=
  MkEntry (derived_constant e) (derived_parameter e) (allow_recomputation e) (parameter_copy e)
    (inl <$> forward_alias e) (inl <$> backward_alias e) (parameter_number e) (loop_carried_index e) (loop_parameter_index e)
    (inl <$> elementwise_connected_to_entry_output e) (inl <$> equivalent_to_while_output e)
    (inl <$> additive_to_while_input e) (inl <$> loop_carried_initializer e).
Definition lift_entries {I : Type} `{Countable I} (es : gmap I (Entry I)) : gmap (I + nat) (Entry (I + nat)) :=
  kmap inl (lift_entry <$> es).

Section recompute.
Context {I C St D HS : Type} `{EqDecision I, !Countable I} `{!Hlo I C, !AttrStore (I + nat) St}.
Context `{EqDecision D, !Countable D, !DeviceListApi D} `{!HloShardingApi HS}.
Abbreviation Value := (I + nat)%type.
(** The sharding of an instruction, and the elements and bytes of its shape partitioned by a
    sharding, those of the elements of a tuple summed up. *)
Context (sharding_ptr : I -> option HS) (spmd_elements spmd_bytes : I -> option HS -> Z).
Context (partition_ : HloPartition D) (max_recompute_cost_allowed_ global_mem_to_compute_ratio_ : Z).
Implicit Types (i : I) (c : C) (v o : Value) (color : string).

Record CloneOf := MkClone {
  cl_of : I;                  (* whose operation it has *)
  cl_operands : list Value;
  cl_sharding : option HS;
}.

Record Recomputing := MkRecomputing {
  clones : list CloneOf;
  uses : gmap I (list Value);
  attributes : St;
  properties : gmap Value (Entry Value);
  clone_map : gmap string (gmap Value Value);     (* clones_per_color *)
  to_remove : list I;
  to_prune : list C;
}.
Implicit Types (st : Recomputing).

Definition operands_of st v : list Value :=
  match v with
  | inl i => default (inl <$> operands i) (uses st !! i)
  | inr n => match clones st !! n with Some cl => cl_operands cl | None => [] end
  end.
Definition origin st v : Result I :=
  match v with inl i => OK i | inr n => cl ← of_option NullDeref (clones st !! n); OK (cl_of cl) end.
Definition sharding_of st v : option HS :=
  match v with inl i => sharding_ptr i | inr n => cl ← clones st !! n; cl_sharding cl end.
Definition clones_of_color st color : gmap Value Value := default ∅ (clone_map st !! color).

(** ** Which operands are recomputed *)

Definition input_or_replicated_input_copy st v : Result bool :=
  i ← origin st v;
  if bool_decide (opcode i = kParameter) && negb (shape_IsTuple i) then OK true
  else
    alias ← ParameterAlias (properties st) v;
    if (alias : bool) then OK true
    else if IsReplicatedOrNotSharded (sharding_of st v) then ParameterCopy (properties st) v else OK false.

Definition cross_mesh_cost st color i v : Result Z :=
  let byte_size := spmd_bytes i (sharding_ptr i) in
  if bool_decide (kLargeBufferSize < byte_size) then
    devices ← DevicesForColor partition_ color;
    match Color (attributes st) v with
    | Some operand_color =>
        operand_devices ← DevicesForColor partition_ operand_color;
        OK (if bool_decide (operand_devices <> devices) then byte_size * kCrossMeshCommComputeRatio else 0)
    | None => OK 0
    end
  else OK 0.

Definition cost_cutoff (cross_mesh_cost : Z) i : Z :=
  Z.max (spmd_bytes i (sharding_ptr i) * global_mem_to_compute_ratio_) (Z.max cross_mesh_cost max_recompute_cost_allowed_).

(** ** The operand tree *)

(** The top of the stack is the head. *)
Record Search := MkSearch {
  to_visit : list Value;
  visiting : gmap Value bool;
  dfs_tree : list Value;
  total_recompute_cost : Z;
}.
Implicit Types (s : Search).

(** An operand that is neither cloned nor an input is pushed. *)
Definition push_operand st (cm : gmap Value Value) (to_visit : list Value) o : Result (list Value) :=
  if bool_decide (is_Some (cm !! o)) then OK to_visit
  else input ← input_or_replicated_input_copy st o; OK (if (input : bool) then to_visit else o :: to_visit).

Definition add_cost (cost : Z) (pushed : list Value) s : Search :=
  MkSearch pushed (visiting s) (dfs_tree s) (total_recompute_cost s + cost).

Definition mismatched_sharding st instruction next : bool :=
  ShardingHasTileAssignment (sharding_of st next) && ShardingHasTileAssignment (sharding_ptr instruction) &&
  match sharding_of st next, sharding_ptr instruction with
  | Some a, Some b => negb (bool_decide (ta_num_elements a = ta_num_elements b))
  | _, _ => false
  end.

(** The switch over the opcode: [None] gives the recomputation up. *)
Definition visit_opcode st (cm : gmap Value Value) (next : Value) i s : Result (option Search) :=
  match opcode i with
  | kDot | kCustomCall =>
      if IsCustomCall i kCustomCallArgumentRecolor || IsCustomCall i kCustomCallSharding then
        operand ← vec_at (operands_of st next) 0;
        pushed ← push_operand st cm (to_visit s) operand;
        OK (Some (add_cost 0 pushed s))
      else OK None
  | kParameter => input ← input_or_replicated_input_copy st next; OK (if (input : bool) then Some s else None)
  | kCall | kWhile => OK None
  | kIota | kConstant | kBroadcast | kReshape => OK (Some s)
  | kReduce =>
      operand ← vec_at (operands_of st next) 0;
      j ← origin st operand;
      OK (Some (add_cost (spmd_elements j (sharding_of st operand)) (to_visit s) s))
  | _ => OK (Some (if shape_IsTuple i then s else add_cost (spmd_elements i (sharding_of st next)) (to_visit s) s))
  end.

Definition visit_new st (cm : gmap Value Value) (cutoff : Z) instruction (next : Value) s : Result (option Search) :=
  i ← origin st next;
  if mismatched_sharding st instruction next then OK None
  else
    let mark done := MkSearch (to_visit s) (<[next := done]> (visiting s)) (dfs_tree s) (total_recompute_cost s) in
    if IsCustomCall i kCustomCallSliceOffset then OK (Some (mark true))
    else
      r ← visit_opcode st cm next i (mark false);
      match r with
      | None => OK None
      | Some s =>
          if bool_decide (cutoff < total_recompute_cost s) then OK None
          else
            pushed ← foldM (push_operand st cm) (to_visit s) (operands_of st next);
            OK (Some (add_cost 0 pushed s))
      end.

(** An entry that is met again leaves the stack, and joins the tree unless it is done. *)
Definition visit_again (next : Value) (rest : list Value) (done : bool) s : Search :=
  if done then MkSearch rest (visiting s) (dfs_tree s) (total_recompute_cost s)
  else MkSearch rest (<[next := true]> (visiting s)) (dfs_tree s ++ [next]) (total_recompute_cost s).

Fixpoint search_loop (fuel : nat) st (cm : gmap Value Value) (cutoff : Z) instruction s : Result (option (list Value)) :=
  match fuel with
  | O => Fatal Diverges
  | S fuel =>
      match to_visit s with
      | [] => OK (Some (dfs_tree s))
      | next :: rest =>
          match visiting s !! next with
          | Some done => search_loop fuel st cm cutoff instruction (visit_again next rest done s)
          | None =>
              r ← visit_new st cm cutoff instruction next s;
              match r with None => OK None | Some s => search_loop fuel st cm cutoff instruction s end
          end
      end
  end.

(** ** Cloning *)

Definition with_uses (u : gmap I (list Value)) st : Recomputing :=
  MkRecomputing (clones st) u (attributes st) (properties st) (clone_map st) (to_remove st) (to_prune st).

Definition clone_value color (num_devices : Z) st (v : Value) : Result Recomputing :=
  let cm := clones_of_color st color in
  if bool_decide (is_Some (cm !! v)) then OK st
  else
    i ← origin st v;
    let new_operands := (fun o => default o (cm !! o)) <$> operands_of st v in
    let sharding := match sharding_of st v with
                    | Some hs => if ShardingHasTileAssignment (Some hs) && negb (bool_decide (ta_num_elements hs = num_devices))
                                 then None else Some hs
                    | None => None
                    end in
    let n := inr (length (clones st)) in
    OK (MkRecomputing (clones st ++ [MkClone i new_operands sharding]) (uses st)
          (AssignColor n color (set_frontend_attributes n (frontend_attributes (attributes st) v) (attributes st)))
          (Clone (properties st) v n) (<[color := <[v := n]> cm]> (clone_map st)) (to_remove st) (to_prune st)).

(** [operand_index]: the first operand that is the value. *)
Definition operand_index st instruction (v : Value) : Result Z :=
  match list_find (fun o => o = v) (operands_of st (inl instruction)) with
  | Some (n, _) => OK (Z.of_nat n)
  | None => Fatal LogFatal
  end.
Definition ReplaceOperandWith instruction (index : Z) (v : Value) st : Result Recomputing :=
  l ← vec_set (operands_of st (inl instruction)) index v; OK (with_uses (<[instruction := l]> (uses st)) st).

Definition MaybeRecomputeOperandFromArguments (fuel : nat) color instruction (operand : Value) st : Result (bool * Recomputing) :=
  cross ← cross_mesh_cost st color instruction operand;
  num_devices ← match Color (attributes st) (inl instruction) with
                | Some c => devices ← DevicesForColor partition_ c; OK (dl_size devices)
                | None => OK (dl_size (devices_ partition_))
                end;
  let cm := clones_of_color st color in
  input ← (if bool_decide (is_Some (cm !! operand)) then OK true else input_or_replicated_input_copy st operand);
  if (input : bool) then OK (false, st)
  else
    r ← search_loop fuel st cm (cost_cutoff cross instruction) instruction (MkSearch [operand] ∅ [] 0);
    match r with
    | None => OK (false, st)
    | Some tree =>
        st ← foldM (clone_value color num_devices) st tree;
        index ← operand_index st instruction operand;
        match clones_of_color st color !! operand with
        | None => Err kInvalidArgument "was not found in clone map"
        | Some clone => st ← ReplaceOperandWith instruction index clone st; OK (true, st)
        end
    end.

(** ** Run *)

(** A user that is the new producer itself keeps its operands. *)
Definition replace_use (old new v : Value) : Value := if bool_decide (v = old) then new else v.
Definition ReplaceAllUsesWith (old new : Value) st : Recomputing :=
  MkRecomputing
    (imap (fun n cl => if bool_decide (inr n = new) then cl
                       else MkClone (cl_of cl) (map (replace_use old new) (cl_operands cl)) (cl_sharding cl)) (clones st))
    (map_imap (fun i l => Some (if bool_decide (inl i = new) then l else map (replace_use old new) l)) (uses st))
    (attributes st) (properties st) (clone_map st) (to_remove st) (to_prune st).

Definition remove_recolor instruction st : Result Recomputing :=
  if IsCustomCall instruction kCustomCallArgumentRecolor then
    v ← vec_at (operands_of st (inl instruction)) 0;
    let st := ReplaceAllUsesWith (inl instruction) v st in
    OK (MkRecomputing (clones st) (uses st) (attributes st) (properties st) (clone_map st) (to_remove st ++ [instruction]) (to_prune st))
  else OK st.

Definition is_slice_offset st v : Result bool := i ← origin st v; OK (IsCustomCall i kCustomCallSliceOffset).

Definition visit_operand (fuel : nat) color instruction (acc : bool * Recomputing) (index : Z) : Result (bool * Recomputing) :=
  let '(computation_changed, st) := acc in
  operand ← vec_at (operands_of st (inl instruction)) index;
  slice_offset ← is_slice_offset st operand;
  match Color (attributes st) operand with
  | Some operand_color =>
      if bool_decide (color <> operand_color) && negb slice_offset then
        r ← MaybeRecomputeOperandFromArguments fuel color instruction operand st;
        let '(cloned_operand, st) := (r : bool * Recomputing) in
        st ← (if cloned_operand then remove_recolor instruction st else OK st);
        OK (computation_changed || cloned_operand, st)
      else OK (computation_changed, st)
  | None => OK (computation_changed, st)
  end.

Definition visit_instruction (fuel : nat) (acc : bool * Recomputing * list C) i : Result (bool * Recomputing * list C) :=
  let '(computation_changed, st, bodies) := acc in
  if bool_decide (opcode i = kWhile) then body ← called_computation i 0; OK (computation_changed, st, bodies ++ [body])
  else if bool_decide (opcode i = kTuple) then OK acc
  else
    derived ← DerivedInput (properties st) (inl i);
    if (derived : bool) then OK acc
    else
      match Color (attributes st) (inl i) with
      | None => OK acc
      | Some color =>
          r ← foldM (visit_operand fuel color i) (computation_changed, st) (seqZ 0 (Zlength (operands i)));
          OK (r, bodies)
      end.

(** [clones_per_color] is a variable of the visit of a computation. *)
Definition start_computation c st : Recomputing :=
  MkRecomputing (clones st) (uses st ∪ list_to_map ((fun i => (i, inl <$> operands i)) <$> MakeInstructionPostOrder c))
    (attributes st) (properties st) ∅ (to_remove st) (to_prune st).

Definition visit_computation (fuel : nat) (acc : bool * Recomputing) c : Result (bool * Recomputing * list C) :=
  let '(changed, st) := acc in
  r ← foldM (visit_instruction fuel) (false, start_computation c st, []) (MakeInstructionPostOrder c);
  let '(computation_changed, st, bodies) := (r : bool * Recomputing * list C) in
  let st := if computation_changed
            then MkRecomputing (clones st) (uses st) (attributes st) (properties st) (clone_map st) (to_remove st) (to_prune st ++ [c])
            else st in
  OK (changed || computation_changed, st, bodies).

(** The visits of the computations, given the properties of their instructions. *)
Definition initial (s : St) (es : gmap Value (Entry Value)) : Recomputing := MkRecomputing [] ∅ s es ∅ [] [].
Definition VisitComputations (visits searches : nat) (entry : C) st : Result (bool * Recomputing) :=
  visit_all (visit_computation searches) visits (false, st) [entry].

(** The fuel is for the properties, for the computations and for each search. *)
Definition Run (dealias_fuel fuel visits searches : nat) (entry : C) (s : St) : Result (bool * Recomputing) :=
  es ← CreateProperties dealias_fuel fuel entry;
  VisitComputations visits searches entry (initial s (lift_entries es)).
End recompute.
