(* ===== verification/RecomputeSearch.v ===== *)
(** * The operand tree that is recomputed (mpmd_argument_recompute.cc)

    What a clone stands for, and what the search of [MaybeRecomputeOperandFromArguments]
    finds: it ends, the tree has every operand that is needed and no other task's, operands
    first, and its cost is below the limit. *)
From S2P Require Import Prelude Hlo Instruction Partition Sharding InstructionProperties ColorPasses Utils Dfs ArgumentRecompute.
Local Open Scope Z_scope.

Section search.
Context {I C St D HS : Type} `{EqDecision I, !Countable I} `{!Hlo I C, !AttrStore (I + nat) St, !AcyclicLaws I C}.
Context `{EqDecision D, !Countable D, !DeviceListApi D} `{!HloShardingApi HS}.
Abbreviation Value := (I + nat)%type.
Context (sharding_ptr : I -> option HS) (spmd_elements : I -> option HS -> Z).
Abbreviation Recomputing := (@Recomputing I C St HS _ _).
Abbreviation input := (input_or_replicated_input_copy sharding_ptr).
Abbreviation visit_opcode := (visit_opcode sharding_ptr spmd_elements).
Abbreviation visit_new := (visit_new sharding_ptr spmd_elements).
Abbreviation search_loop := (search_loop sharding_ptr spmd_elements).
Abbreviation push_operand := (push_operand sharding_ptr).
Implicit Types (i o : I) (v w : Value) (st : Recomputing) (cm : gmap Value Value) (s : Search (I := I)).

(** ** What a value stands for *)

(** A recolored argument is passed on. *)
Definition passes o o' : Prop := IsCustomCall o kCustomCallArgumentRecolor = true /\ operands o !! 0%nat = Some o'.
Definition stands_for st v o : Prop := exists o', origin st v = OK o' /\ rtc passes o o'.

Record traced st : Prop := {
  tr_uses : forall i l, uses st !! i = Some l -> Forall2 (stands_for st) l (operands i);
  tr_clones : forall n cl, clones st !! n = Some cl -> Forall2 (stands_for st) (cl_operands cl) (operands (cl_of cl));
}.

Lemma stands_for_self st i : stands_for st (inl i) i.
Proof. exists i. split; [done|apply rtc_refl]. Qed.

Lemma origin_clone st n i : origin st (inr n) = OK i -> exists cl, clones st !! n = Some cl /\ cl_of cl = i.
Proof. cbn. destruct (clones st !! n) as [cl|]; [|done]. intros [= <-]. by exists cl. Qed.

Lemma operands_traced st v i : traced st -> origin st v = OK i -> Forall2 (stands_for st) (operands_of st v) (operands i).
Proof.
  intros [H1 H2]. destruct v as [j|n].
  - intros [= <-]. cbn. destruct (uses st !! j) as [l|] eqn:Hl; [by apply H1|]. cbn. apply Forall2_fmap_l.
    apply Forall_Forall2_diag, Forall_forall. intros o _. apply stands_for_self.
  - intros (cl & Hcl & <-)%origin_clone. cbn. rewrite Hcl. by eapply H2.
Qed.

Lemma operands_invalid st v : (forall i, origin st v <> OK i) -> operands_of st v = [].
Proof. intros Hv. destruct v as [j|n]; [by destruct (Hv j)|]. cbn in *. destruct (clones st !! n) as [cl|]; [by destruct (Hv (cl_of cl))|done]. Qed.

Definition rank st v : nat := match origin st v with OK i => operand_rank i | _ => 0%nat end.

Lemma passes_rank o o' : rtc passes o o' -> (operand_rank o' <= operand_rank o)%nat.
Proof.
  induction 1 as [|x y z [_ Hy] _ IH]; [done|]. pose proof (operand_rank_lt x y (list_elem_of_lookup_2 _ 0%nat _ Hy)). lia.
Qed.

Lemma operand_origin st v w : traced st -> w ∈ operands_of st v ->
  exists i o o', origin st v = OK i /\ o ∈ operands i /\ origin st w = OK o' /\ rtc passes o o'.
Proof.
  intros Ht Hw. destruct (origin st v) as [i| |] eqn:Hv.
  2,3: rewrite operands_invalid in Hw by (intros i Hi; congruence); by apply elem_of_nil in Hw.
  apply list_elem_of_lookup in Hw as [n Hn]. destruct (Forall2_lookup_l _ _ _ _ _ (operands_traced st v i Ht Hv) Hn) as (o & Ho & o' & Hw & Hp).
  exists i, o, o'. split_and!; [done|by eapply list_elem_of_lookup_2|done..].
Qed.

Lemma rank_lt st v w : traced st -> w ∈ operands_of st v -> (rank st w < rank st v)%nat.
Proof.
  intros Ht Hw. destruct (operand_origin st v w Ht Hw) as (i & o & o' & Hv & Ho & Hw' & Hp). unfold rank. rewrite Hv, Hw'.
  apply passes_rank in Hp. apply operand_rank_lt in Ho. lia.
Qed.

(** The values that are reached are finitely many. *)
Lemma reached_values st v : traced st -> exists U : list Value, v ∈ U /\ forall x w, x ∈ U -> w ∈ operands_of st x -> w ∈ U.
Proof.
  clear sharding_ptr spmd_elements. intros Ht. remember (rank st v) as n eqn:Hn. revert v Hn. induction (lt_wf n) as [n _ IH]. intros v ->.
  assert (forall l : list Value, (forall w, w ∈ l -> w ∈ operands_of st v) ->
    exists U : list Value, (forall w, w ∈ l -> w ∈ U) /\ forall x w, x ∈ U -> w ∈ operands_of st x -> w ∈ U) as Hl.
  { induction l as [|w l IHl]; intros Hsub; [exists []; split; [done|]; by intros x w ?%elem_of_nil|].
    destruct IHl as (U1 & H1 & C1); [intros; apply Hsub; by right|].
    destruct (IH (rank st w)) with (v := w) as (U2 & H2 & C2); [apply rank_lt; [done|apply Hsub; left]|done|].
    exists (U1 ++ U2). split; [intros x [->|Hx]%elem_of_cons; set_solver|]. intros x y [Hx|Hx]%elem_of_app Hy; set_solver. }
  destruct (Hl (operands_of st v) (fun w Hw => Hw)) as (U & H1 & C1). exists (v :: U). split; [left|].
  intros x w [->|Hx]%elem_of_cons Hw; right; [by apply H1|by eapply C1].
Qed.

(** ** The search *)
Section one_search.
Context (st : Recomputing) (Ht : traced st) (cm : gmap Value Value) (cutoff : Z) (instruction : I).

Definition slice v : bool := match origin st v with OK i => IsCustomCall i kCustomCallSliceOffset | _ => false end.
Definition wanted v : bool := negb (bool_decide (is_Some (cm !! v))) && negb (bool_decide (input st v = OK true)).

(** The operands that are pushed; a recolored operand is pushed twice. *)
Definition pushed_twice v : list Value :=
  match origin st v with
  | OK i => if IsCustomCall i kCustomCallArgumentRecolor || IsCustomCall i kCustomCallSharding then take 1 (operands_of st v) else []
  | _ => []
  end.
Definition deps v : list Value :=
  if slice v then [] else filter (fun w => wanted w = true) (pushed_twice v ++ operands_of st v).

Lemma deps_operand v w : w ∈ deps v -> w ∈ operands_of st v /\ wanted w = true.
Proof.
  unfold deps. destruct (slice v); [by intros ?%elem_of_nil|]. intros [Hw [Hin|Hin]%elem_of_app]%list_elem_of_filter; [|done].
  split; [|done]. unfold pushed_twice in Hin. destruct (origin st v); [|by apply elem_of_nil in Hin..].
  destruct (_ || _); [by eapply subseteq_take|by apply elem_of_nil in Hin].
Qed.

Lemma push_operands ops stack stack' : foldM (push_operand st cm) stack ops = OK stack' ->
  stack' = reverse (filter (fun w => wanted w = true) ops) ++ stack /\
  (forall w, w ∈ ops -> wanted w = false -> is_Some (cm !! w) \/ input st w = OK true).
Proof.
  revert stack. induction ops as [|w ops IH]; intros stack; cbn [foldM].
  - intros [= <-]. split; [done|]. by intros w ?%elem_of_nil.
  - intros (stack1 & H1 & [-> H2]%IH)%Result_bind_OK. unfold ArgumentRecompute.push_operand in H1. split.
    + assert (stack1 = if wanted w then w :: stack else stack) as ->.
      { unfold wanted. case_bool_decide; cbn [negb andb] in *; [by injection H1|].
        destruct (input st w) as [[]| |]; [| |done..]; injection H1 as <-.
        - by rewrite bool_decide_eq_true_2.
        - by rewrite bool_decide_eq_false_2. }
      rewrite filter_cons. destruct (wanted w); [|done]. rewrite decide_True by done. by rewrite reverse_cons, <- app_assoc.
    + intros x [->|Hx]%elem_of_cons Hwx; [|by apply H2]. unfold wanted in Hwx. apply andb_false_iff in Hwx as [Hc|Hi].
      * left. by apply negb_false_iff, bool_decide_eq_true in Hc.
      * right. by apply negb_false_iff, bool_decide_eq_true in Hi.
Qed.

(** The cost that a value adds to the search. *)
Definition value_cost v : Z :=
  match origin st v with
  | OK i =>
      match opcode i with
      | kDot | kCustomCall | kParameter | kCall | kWhile | kIota | kConstant | kBroadcast | kReshape => 0
      | kReduce =>
          match vec_at (operands_of st v) 0 with
          | OK o => match origin st o with OK j => spmd_elements j (sharding_of sharding_ptr st o) | _ => 0 end
          | _ => 0
          end
      | _ => if shape_IsTuple i then 0 else spmd_elements i (sharding_of sharding_ptr st v)
      end
  | _ => 0
  end.

Lemma visit_opcode_spec v i s s' : origin st v = OK i -> visit_opcode st cm v i s = OK (Some s') ->
  exists pushes, to_visit s' = pushes ++ to_visit s /\ visiting s' = visiting s /\ dfs_tree s' = dfs_tree s /\
    pushes = reverse (filter (fun w => wanted w = true) (pushed_twice v)) /\
    total_recompute_cost s' = total_recompute_cost s + value_cost v.
Proof.
  intros Hv. unfold ArgumentRecompute.visit_opcode, value_cost, pushed_twice. rewrite Hv.
  assert (forall t, (bool_decide (opcode i = kCustomCall)) = false -> IsCustomCall i t = false) as Hncc
    by (intros t Hf; unfold IsCustomCall; by rewrite Hf).
  destruct (opcode i) eqn:Hop; try rewrite (Hncc kCustomCallArgumentRecolor eq_refl), (Hncc kCustomCallSharding eq_refl); cbn [orb].
  all: rewrite ?filter_nil, ?reverse_nil.
  all: try (intros [= <-]; exists []; cbn; split_and!; [done..|lia]).
  all: try (intros [= <-]; exists []; destruct (shape_IsTuple i); cbn; (split_and!; [done..|lia])).
  all: try done.
  - destruct (_ || _); [|done]. intros (o & [_ Ho]%vec_at_lookup & Hrun)%Result_bind_OK.
    apply Result_bind_OK in Hrun as (pushed & Hp & [= <-]). eexists. cbn. split_and!; [|done|done|done|lia].
    destruct (operands_of st v) as [|x l]; [done|]. injection Ho as ->. cbn [take].
    assert (foldM (push_operand st cm) (to_visit s) [o] = OK pushed) as Hf by (cbn; by rewrite Hp).
    by apply push_operands in Hf as [-> _].
  - intros (b & _ & Hrun)%Result_bind_OK. destruct b; [|done]. injection Hrun as <-. exists []. cbn. split_and!; [done..|lia].
  - intros (o & Ho & Hrun)%Result_bind_OK. apply Result_bind_OK in Hrun as (j & Hj & [= <-]). exists []. cbn.
    rewrite Ho, Hj. done.
Qed.

(** *** The search as a depth-first search *)

Definition total (l : list Value) : Z := foldr (fun v n => value_cost v + n) 0 l.

(** [entered] are the values that have been met and are not offsets of slices. *)
Record search_ok s (a : Dfs.state (I := Value)) (entered : list Value) : Prop := {
  so_stack : stack a = to_visit s;
  so_visited : visited a = visiting s;
  so_tree : dfs_tree s = filter (fun v => slice v = false) (out a);
  so_unfinished : forall v, visiting s !! v = Some false -> slice v = false;
  so_entered : forall v, v ∈ entered <-> is_Some (visiting s !! v) /\ slice v = false;
  so_cost : total_recompute_cost s = total entered;
  so_cutoff : entered = [] \/ total_recompute_cost s <= cutoff;
  so_operands : forall v w, v ∈ entered -> w ∈ operands_of st v -> wanted w = false -> is_Some (cm !! w) \/ input st w = OK true;
  so_origin : forall v, v ∈ entered -> exists i, origin st v = OK i;
}.

Lemma visit_again_ok s a entered next rest done : to_visit s = next :: rest -> visiting s !! next = Some done ->
  search_ok s a entered -> exists a', step deps a a' /\ search_ok (visit_again next rest done s) a' entered.
Proof.
  intros Hs Hn [H1 H2 H3 H4 H5 H6 H7 H8 H9]. destruct a as [sa va oa]. cbn in H1, H2, H3. subst sa va. rewrite Hs.
  destruct done; cbn [visit_again].
  - exists (State rest (visiting s) oa). split; [by apply step_skip|]. by split.
  - exists (State rest (finish_all [next] (visiting s)) (oa ++ [next])). split.
    + apply (step_finish _ next rest [next]); [done|set_solver|apply NoDup_singleton| |].
      * intros y ->%list_elem_of_singleton. unfold finished. congruence.
      * by intros y d ->%list_elem_of_singleton.
    + split; cbn; [done|done| | | |done|done|done|done].
      * rewrite filter_app, H3. f_equal. rewrite filter_cons, decide_True by (by apply H4). done.
      * intros v. rewrite lookup_insert. case_decide; [done|apply H4].
      * intros v. rewrite H5, lookup_insert. case_decide as Hv; [subst|done]. rewrite Hn. naive_solver.
Qed.

Lemma visit_new_ok s a entered next rest s' : to_visit s = next :: rest -> visiting s !! next = None ->
  search_ok s a entered -> visit_new st cm cutoff instruction next s = OK (Some s') ->
  exists a' entered', step deps a a' /\ search_ok s' a' entered'.
Proof.
  intros Hs Hn [H1 H2 H3 H4 H5 H6 H7 H8 H9] Hrun. destruct a as [sa va oa]. cbn in H1, H2, H3. subst sa va. rewrite Hs.
  unfold ArgumentRecompute.visit_new in Hrun. apply Result_bind_OK in Hrun as (i & Hi & Hrun). destruct (mismatched_sharding _ _ _ _); [done|].
  assert (next ∉ entered) as Hne by (intros [[b Hb] _]%H5; congruence).
  destruct (IsCustomCall i kCustomCallSliceOffset) eqn:Hslice.
  - injection Hrun as <-. assert (slice next = true) as Hsl by (unfold slice; by rewrite Hi).
    exists (State (next :: rest) (<[next := true]> (visiting s)) (oa ++ [next])), entered. split.
    + apply step_mark; [done|]. intros y. unfold deps. rewrite Hsl. by intros ?%elem_of_nil.
    + split; cbn; [done|done| | | |done|done|done|done].
      * rewrite filter_app, H3, filter_cons, decide_False by congruence. by rewrite filter_nil, app_nil_r.
      * intros v. rewrite lookup_insert. case_decide; [done|apply H4].
      * intros v. rewrite H5, lookup_insert. case_decide as Hv; [subst|done]. rewrite Hn, Hsl. naive_solver.
  - assert (slice next = false) as Hsl by (unfold slice; by rewrite Hi).
    apply Result_bind_OK in Hrun as ([s1|] & H10 & Hrun); [|done]. case_bool_decide as Hcut; [done|].
    destruct (visit_opcode_spec _ _ _ _ Hi H10) as (pushes & E1 & E2 & E3 & Hpushes & E4). cbn in E1, E2, E3, E4.
    apply Result_bind_OK in Hrun as (pushed & [-> Hops]%push_operands & [= <-]).
    set (all := reverse (filter (fun w => wanted w = true) (operands_of st next)) ++ pushes).
    assert (reverse (deps next) = all) as Hall.
    { unfold deps, all. by rewrite Hsl, filter_app, reverse_app, Hpushes. }
    exists (State (all ++ next :: rest) (<[next := false]> (visiting s)) oa), (next :: entered). split.
    + apply step_enter; [done| | |].
      * by rewrite <- Hall, length_reverse.
      * intros y. by rewrite <- Hall, elem_of_reverse.
      * intros y Hy. left. by rewrite <- Hall, elem_of_reverse.
    + split; cbn.
      * unfold all. by rewrite E1, Hs, <- app_assoc.
      * by rewrite E2.
      * by rewrite E3.
      * intros v. rewrite E2, lookup_insert. case_decide; [by subst|apply H4].
      * intros v. rewrite elem_of_cons, H5, E2, lookup_insert. case_decide as Hv; [subst; split; [eauto|by left]|naive_solver].
      * rewrite E4, H6. unfold total. cbn. lia.
      * right. lia.
      * intros v w [->|Hv]%elem_of_cons; [by apply Hops|by apply H8].
      * intros v [->|Hv]%elem_of_cons; [by exists i|by apply H9].
Qed.

Lemma search_loop_ok fuel s a entered tree : search_ok s a entered -> search_loop fuel st cm cutoff instruction s = OK (Some tree) ->
  exists s' a' entered', rtc (step deps) a a' /\ search_ok s' a' entered' /\ to_visit s' = [] /\ tree = dfs_tree s'.
Proof.
  revert s a entered. induction fuel as [|fuel IH]; intros s a entered Hok; cbn [ArgumentRecompute.search_loop]; [done|].
  destruct (to_visit s) as [|next rest] eqn:Hs; [intros [= <-]; exists s, a, entered; split_and!; [apply rtc_refl|done..]|].
  destruct (visiting s !! next) as [done|] eqn:Hn.
  - destruct (visit_again_ok _ _ _ _ _ _ Hs Hn Hok) as (a1 & Hstep & H1). intros (s' & a' & e' & ? & ?)%(IH _ _ _ H1).
    exists s', a', e'. split; [by eapply rtc_l|done].
  - intros ([s1|] & Hv & Hrun)%Result_bind_OK; [|done].
    destruct (visit_new_ok _ _ _ _ _ _ Hs Hn Hok Hv) as (a1 & e1 & Hstep & H1). destruct (IH _ _ _ H1 Hrun) as (s' & a' & e' & ? & ?).
    exists s', a', e'. split; [by eapply rtc_l|done].
Qed.

(** *** What is found *)

Lemma deps_rank v w : w ∈ deps v -> (rank st w < rank st v)%nat.
Proof. intros [Hw _]%deps_operand. by apply rank_lt. Qed.

Lemma filter_split {X} (P : X -> bool) (l t1 t2 : list X) x : filter (fun y => P y = false) l = t1 ++ x :: t2 ->
  exists l1 l2, l = l1 ++ x :: l2 /\ filter (fun y => P y = false) l1 = t1.
Proof.
  revert t1. induction l as [|y l IH]; intros t1; [by destruct t1|]. rewrite filter_cons. destruct (decide (P y = false)) as [Hy|Hy].
  - destruct t1 as [|z t1]; cbn; [intros [= <- _]; by exists [], l|]. intros [= <- (l1 & l2 & -> & Hl)%IH]. exists (y :: l1), l2.
    split; [done|]. by rewrite filter_cons, decide_True, Hl.
  - intros (l1 & l2 & -> & Hl)%IH. exists (y :: l1), l2. split; [done|]. by rewrite filter_cons, decide_False.
Qed.

Lemma total_mono l l' : (forall v, 0 <= value_cost v) -> l ⊆+ l' -> total l <= total l'.
Proof.
  intros Hpos [k Hk]%submseteq_Permutation. assert (forall l l', l ≡ₚ l' -> total l = total l') as Hperm.
  { unfold total. induction 1; cbn in *; lia. }
  assert (total (l ++ k) = total l + total k) as Heq by (unfold total; clear - l k; induction l; cbn in *; lia).
  assert (0 <= total k) by (clear - Hpos; induction k as [|v k IH]; [done|]; unfold total in *; cbn; pose proof (Hpos v); lia).
  rewrite (Hperm _ _ Hk). lia.
Qed.

Record tree_ok (operand : Value) (tree : list Value) : Prop := {
  to_operand : operand ∈ tree;
  to_NoDup : NoDup tree;
  to_needed : forall t1 v t2 w, tree = t1 ++ v :: t2 -> w ∈ operands_of st v ->
    w ∈ t1 \/ slice w = true \/ is_Some (cm !! w) \/ input st w = OK true;
  to_origin : forall v, v ∈ tree -> exists i, origin st v = OK i;
}.

Lemma search_initial operand : search_ok (MkSearch [operand] ∅ [] 0) (State [operand] ∅ []) [].
Proof.
  split; cbn; try done; [|by left| |].
  - intros v. split; [by intros ?%elem_of_nil|]. by intros [[b Hb] _].
  - by intros v w ?%elem_of_nil.
  - by intros v ?%elem_of_nil.
Qed.

Lemma search_finds fuel operand tree : slice operand = false ->
  search_loop fuel st cm cutoff instruction (MkSearch [operand] ∅ [] 0) = OK (Some tree) ->
  tree_ok operand tree /\ ((forall v, 0 <= value_cost v) -> total tree <= cutoff).
Proof.
  intros Hop Hrun.
  destruct (search_loop_ok _ _ _ _ _ (search_initial operand) Hrun) as (s' & a' & entered & Hsteps & [H1 H2 H3 H4 H5 H6 H7 H8 H9] & Hnil & ->).
  destruct (search_done deps (rank st) deps_rank ∅ _ a' Hsteps) as (Hnd & Htop & _ & Hin & Hfin).
  { by rewrite H1, Hnil. }
  { apply (dfs_ok_initial deps (rank st) deps_rank); cbn; [done| |by intros x].
    intros x. unfold finished. split; [done|]. intros Hx. by apply elem_of_empty in Hx. }
  { done. }
  assert (forall v, v ∈ dfs_tree s' <-> v ∈ out a' /\ slice v = false) as Htree.
  { intros v. rewrite H3, list_elem_of_filter. tauto. }
  assert (forall v, v ∈ dfs_tree s' -> v ∈ entered) as Hent.
  { intros v [Hv Hs]%Htree. apply H5. split; [|done]. assert (finished (visited a') v) as Hf by (apply Hfin; by right).
    unfold finished in Hf. rewrite H2 in Hf. by exists true. }
  assert (NoDup (dfs_tree s')) as Hndt by (rewrite H3; by apply NoDup_filter).
  assert (operand ∈ dfs_tree s') as Hopin.
  { apply Htree. split; [|done]. destruct (Hin operand) as [Hx|Hx]; [left|by apply elem_of_empty in Hx|done]. }
  split; [split; [done|done| |by intros v Hv; apply H9, Hent]|].
  - intros t1 v t2 w Heq Hw. assert (v ∈ dfs_tree s') as Hv by (rewrite Heq; set_solver).
    destruct (wanted w) eqn:Hwant; [|right; right; by apply (H8 v w (Hent v Hv))].
    rewrite H3 in Heq. apply filter_split in Heq as (l1 & l2 & Hl & <-).
    assert (slice v = false) as Hsv by (by apply Htree).
    assert (w ∈ deps v) as Hdep.
    { unfold deps. rewrite Hsv. apply list_elem_of_filter. split; [done|]. apply elem_of_app. by right. }
    destruct (Htop l1 v l2 Hl w Hdep) as [Hx|Hx]; [by apply elem_of_empty in Hx|].
    destruct (slice w) eqn:Hsw; [by right; left|]. left. by apply list_elem_of_filter.
  - intros Hpos. destruct H7 as [->|Hle]; [apply Hent in Hopin; by apply elem_of_nil in Hopin|].
    rewrite H6 in Hle. etrans; [|exact Hle]. apply total_mono; [done|]. apply NoDup_submseteq; [done|]. intros v. apply Hent.
Qed.

(** *** The search ends *)

Lemma returns_origin v : returns (origin st v).
Proof. destruct v as [i|n]; [done|]. cbn. by destruct (clones st !! n). Qed.

Lemma returns_input v : returns (input st v).
Proof.
  unfold input_or_replicated_input_copy. apply returns_bind; [apply returns_origin|]. intros i _.
  destruct (_ && _); [done|]. unfold ParameterAlias, ParameterCopy, Get.
  destruct (properties st !! v); cbn; [|done]. case_bool_decide; [done|]. by destruct (IsReplicatedOrNotSharded _).
Qed.

Lemma returns_push_operand stack w : returns (push_operand st cm stack w).
Proof. unfold ArgumentRecompute.push_operand. case_bool_decide; [done|]. apply returns_bind; [apply returns_input|done]. Qed.

Lemma returns_visit_new v s : returns (visit_new st cm cutoff instruction v s).
Proof.
  unfold ArgumentRecompute.visit_new. apply returns_bind; [apply returns_origin|]. intros i _.
  destruct (mismatched_sharding _ _ _ _); [done|]. destruct (IsCustomCall i kCustomCallSliceOffset); [done|].
  apply returns_bind.
  - unfold ArgumentRecompute.visit_opcode.
    assert (forall X (f : Value -> Result X), (forall w, returns (f w)) -> returns (o ← vec_at (operands_of st v) 0; f o)) as Hop.
    { intros X f Hf. apply returns_bind; [apply returns_vec_at|]. intros w _. apply Hf. }
    destruct (opcode i); try done; try (by destruct (shape_IsTuple i)).
    + destruct (_ || _); [|done]. apply Hop. intros w. apply returns_bind; [apply returns_push_operand|done].
    + destruct (_ || _); [|done]. apply Hop. intros w. apply returns_bind; [apply returns_push_operand|done].
    + apply returns_bind; [apply returns_input|]. by intros [].
    + apply Hop. intros w. apply returns_bind; [apply returns_origin|done].
  - intros [s1|] _; [|done]. case_bool_decide; [done|]. apply returns_bind; [|done]. apply returns_foldM. intros l w _.
    apply returns_push_operand.
Qed.

Lemma search_loop_settles (U : list Value) fuel fuel' s a entered : (forall x w, x ∈ U -> w ∈ deps x -> w ∈ U) -> Forall (.∈ U) (stack a) ->
  search_ok s a entered -> (measure deps U a < fuel)%nat -> (fuel <= fuel')%nat ->
  returns (search_loop fuel st cm cutoff instruction s) /\
  search_loop fuel' st cm cutoff instruction s = search_loop fuel st cm cutoff instruction s.
Proof.
  intros HU. revert s a entered fuel'. induction fuel as [|fuel IH]; intros s a entered fuel' Hin Hok Hm Hle; [lia|].
  destruct fuel' as [|fuel']; [lia|]. cbn [ArgumentRecompute.search_loop].
  destruct (to_visit s) as [|next rest] eqn:Hs; [done|].
  assert (forall a', step deps a a' -> Forall (.∈ U) (stack a') /\ (measure deps U a' < fuel)%nat) as Hstep.
  { intros a' Ha. split; [by eapply step_within|]. pose proof (measure_decreases deps U a a' Ha Hin). lia. }
  destruct (visiting s !! next) as [done|] eqn:Hn.
  - destruct (visit_again_ok _ _ _ _ _ _ Hs Hn Hok) as (a1 & [Hin1 Hm1]%Hstep & H1). apply (IH _ a1 entered); [done..|lia].
  - destruct (visit_new st cm cutoff instruction next s) as [[s1|]| |f] eqn:Hv; cbn; [|done|done|].
    + destruct (visit_new_ok _ _ _ _ _ _ Hs Hn Hok Hv) as (a1 & e1 & [Hin1 Hm1]%Hstep & H1). apply (IH _ a1 e1); [done..|lia].
    + split; [|done]. pose proof (returns_visit_new next s) as Hr. rewrite Hv in Hr. intros [= ->]. by apply Hr.
Qed.
End one_search.
End search.
