(* ===== verification/RecomputeClones.v ===== *)
(** * Clones of operand trees keep what they stand for (mpmd_argument_recompute.cc)

    Every edit of the pass, cloning a value, replacing an operand and replacing a recolored
    argument, keeps the operands of all values standing for the operands that they had in the
    program, and the operands of a clone available to the tasks of its color. *)
From S2P Require Import Prelude Hlo Instruction Partition Sharding InstructionProperties ColorPasses Utils Dfs ArgumentRecompute RecomputeSearch.
Local Open Scope Z_scope.

Section clones.
Context {I C St D HS : Type} `{EqDecision I, !Countable I} `{!Hlo I C, !AttrStore (I + nat) St, !AcyclicLaws I C}.
Context `{!AttrStoreLaws (I + nat) St}.
Context `{EqDecision D, !Countable D, !DeviceListApi D} `{!HloShardingApi HS}.
Abbreviation Value := (I + nat)%type.
Context (sharding_ptr : I -> option HS).
Abbreviation Recomputing := (@Recomputing I C St HS _ _).
Abbreviation input := (input_or_replicated_input_copy sharding_ptr).
Abbreviation sharding_of := (sharding_of sharding_ptr).
Implicit Types (i o : I) (v w : Value) (st : Recomputing) (color : string).

(** ** States that grow *)

Definition valid st v : Prop := exists i, origin st v = OK i.

Record grows st st' : Prop := {
  gr_origin : forall v i, origin st v = OK i -> origin st' v = OK i;
  gr_sharding : forall v, valid st v -> sharding_of st' v = sharding_of st v;
  gr_color : forall v, valid st v -> Color (attributes st') v = Color (attributes st) v;
  gr_input : forall v, input st v = OK true -> input st' v = OK true;
  gr_removed : forall i, i ∈ to_remove st -> i ∈ to_remove st';
}.

Lemma grows_refl st : grows st st.
Proof. by split. Qed.

Lemma valid_grows st st' v : grows st st' -> valid st v -> valid st' v.
Proof. intros Hg [i Hi]. exists i. by apply (gr_origin _ _ Hg). Qed.

Lemma grows_trans st1 st2 st3 : grows st1 st2 -> grows st2 st3 -> grows st1 st3.
Proof.
  intros H12 H23. assert (forall v, valid st1 v -> valid st2 v) as Hv by (intros v; by apply valid_grows).
  destruct H12 as [A1 A2 A3 A4 A5], H23 as [B1 B2 B3 B4 B5]. split; [by auto| | |by auto..].
  - intros v Hin. rewrite B2, A2; [done..|]. by apply Hv.
  - intros v Hin. rewrite B3, A3; [done..|]. by apply Hv.
Qed.

Lemma input_valid st v b : input st v = OK b -> valid st v.
Proof. intros (i & Hi & _)%Result_bind_OK. by exists i. Qed.

(** [ParameterAlias] and [ParameterCopy] of what is there do not change. *)
Lemma input_same st st' v : (forall i, origin st v = OK i -> origin st' v = OK i) -> (valid st v -> sharding_of st' v = sharding_of st v) ->
  (forall e, properties st !! v = Some e -> properties st' !! v = Some e) -> input st v = OK true -> input st' v = OK true.
Proof.
  intros Ho Hs Hp Hin. pose proof (input_valid _ _ _ Hin) as Hv. unfold input_or_replicated_input_copy in *.
  apply Result_bind_OK in Hin as (i & Hi & Hin). rewrite (Ho _ Hi), (Hs Hv). cbn.
  destruct (_ && _); [done|]. unfold ParameterAlias, ParameterCopy, Get in *.
  destruct (properties st !! v) as [e|] eqn:He; [|done]. by rewrite (Hp e eq_refl).
Qed.

Lemma stands_for_grows st st' v o : grows st st' -> stands_for st v o -> stands_for st' v o.
Proof. intros Hg (o' & Ho & Hp). exists o'. split; [by apply (gr_origin _ _ Hg)|done]. Qed.

Lemma stands_for_origin st v w o i : origin st v = OK i -> origin st w = OK i -> stands_for st v o -> stands_for st w o.
Proof. intros Hv Hw (o' & Ho & Hp). exists o'. split; [congruence|done]. Qed.

(** ** What the operands of a clone are *)

(** A clone of the color, the offset of a slice, an input, or what a recolored input that was
    removed passed on. *)
Definition available st color w : Prop :=
  (exists n, w = inr n /\ valid st w /\ Color (attributes st) w = Some color) \/
  slice st w = true \/ input st w = OK true \/
  exists r, r ∈ to_remove st /\ input st (inl r) = OK true /\ stands_for st w r.

Lemma slice_grows st st' v : grows st st' -> slice st v = true -> slice st' v = true.
Proof. intros Hg. unfold slice. destruct (origin st v) as [i| |] eqn:Hi; [|done..]. by rewrite (gr_origin _ _ Hg _ _ Hi). Qed.

Lemma available_grows st st' color w : grows st st' -> available st color w -> available st' color w.
Proof.
  intros Hg [(n & -> & Hv & Hc)|[Hs|[Hi|(r & Hr & Hi & Hw)]]].
  - left. exists n. split_and!; [done|by eapply valid_grows|]. by rewrite (gr_color _ _ Hg).
  - right; left. by eapply slice_grows.
  - do 2 right; left. by apply (gr_input _ _ Hg).
  - do 3 right. exists r. split_and!; [by apply (gr_removed _ _ Hg)|by apply (gr_input _ _ Hg)|by eapply stands_for_grows].
Qed.

Record rec_ok st : Prop := {
  ro_traced : traced st;
  ro_map : forall color v w, clones_of_color st color !! v = Some w ->
    exists n i, w = inr n /\ origin st v = OK i /\ origin st w = OK i /\ Color (attributes st) w = Some color;
  ro_clones : forall n cl, clones st !! n = Some cl ->
    exists color, Color (attributes st) (inr n) = Some color /\ Forall (available st color) (cl_operands cl);
}.

Lemma clones_operands st n cl : clones st !! n = Some cl -> operands_of st (inr n) = cl_operands cl.
Proof. intros Hn. cbn. by rewrite Hn. Qed.

(** ** Cloning *)

Lemma clone_of_valid st v : valid st v -> v <> inr (length (clones st)).
Proof. intros [i Hi] ->. cbn in Hi. by rewrite lookup_ge_None_2 in Hi. Qed.

Section clone.
Context (st : Recomputing) (color : string) (cl : CloneOf (I := I) (HS := HS)) (v : Value).
Abbreviation n := (length (clones st)).
Abbreviation st' := (MkRecomputing (clones st ++ [cl]) (uses st)
  (AssignColor (inr n : Value) color (set_frontend_attributes (inr n : Value) (frontend_attributes (attributes st) v) (attributes st)))
  (Clone (properties st) v (inr n)) (<[color := <[v := inr n]> (clones_of_color st color)]> (clone_map st)) (to_remove st) (to_prune st)).

Lemma origin_clone_old x i : origin st x = OK i -> origin st' x = OK i.
Proof. destruct x as [j|m]; [done|]. cbn. destruct (clones st !! m) as [c0|] eqn:Hm; [|done]. by rewrite (lookup_app_l_Some _ _ _ _ Hm). Qed.

Lemma origin_clone_new : origin st' (inr n) = OK (cl_of cl).
Proof. cbn. by rewrite lookup_app_r, Nat.sub_diag by lia. Qed.

Lemma operands_clone_old x : valid st x -> operands_of st' x = operands_of st x.
Proof.
  intros [i Hi]. destruct x as [j|m]; [done|]. cbn in *. destruct (clones st !! m) as [c0|] eqn:Hm; [|done].
  by rewrite (lookup_app_l_Some _ _ _ _ Hm).
Qed.

Lemma clone_grows : grows st st'.
Proof.
  assert (forall x, valid st x -> sharding_of st' x = sharding_of st x) as Hsh.
  { intros x [i Hi]. destruct x as [j|m]; [done|]. cbn in *. destruct (clones st !! m) as [c0|] eqn:Hm; [|done].
    by rewrite (lookup_app_l_Some _ _ _ _ Hm). }
  split; [apply origin_clone_old|done| | |done].
  - intros x Hx%clone_of_valid. cbn. rewrite Color_AssignColor_ne by done. rewrite !Color_lookup, attrs_set.
    by rewrite decide_False.
  - intros x Hin. pose proof (clone_of_valid _ _ (input_valid _ _ _ Hin)) as Hne.
    apply (input_same st); [apply origin_clone_old|apply Hsh| |done].
    intros e He. cbn. unfold Clone. rewrite lookup_insert_ne by done. unfold touch.
    rewrite lookup_insert. case_decide as Hx; [subst x|done]. unfold entry_of. by rewrite He.
Qed.

Lemma clone_ok : rec_ok st -> origin st v = OK (cl_of cl) -> Forall2 (stands_for st) (cl_operands cl) (operands (cl_of cl)) ->
  Forall (available st color) (cl_operands cl) -> rec_ok st'.
Proof.
  intros [[Hu Hc] Hm Ha] Hv Htr Hav. pose proof clone_grows as Hg.
  assert (forall l l', Forall2 (stands_for st) l l' -> Forall2 (stands_for st') l l') as Hmono.
  { intros l l' Hl. eapply Forall2_impl; [exact Hl|]. intros x y. by apply stands_for_grows. }
  assert (Color (attributes st') (inr n : Value) = Some color) as Hcol by apply Color_AssignColor_eq.
  assert (forall m c0, clones st' !! m = Some c0 -> clones st !! m = Some c0 \/ m = n /\ c0 = cl) as Hsplit.
  { intros m c0. cbn. rewrite lookup_app_Some. intros [|[Hge [Hm' <-]%list_lookup_singleton_Some]]; [by left|]. right. split; [lia|done]. }
  split; [split|..].
  - intros i l Hl. by apply Hmono, Hu.
  - intros m c0 [Hl|[-> ->]]%Hsplit; apply Hmono; [by eapply Hc|done].
  - intros color' x w. unfold clones_of_color. cbn. destruct (decide (color' = color)) as [->|Hne].
    + rewrite lookup_insert_eq. cbn. rewrite lookup_insert_Some. intros [[<- <-]|[Hx Hw]].
      * exists n, (cl_of cl). split_and!; [done|by apply origin_clone_old|apply origin_clone_new|done].
      * destruct (Hm color x w Hw) as (m & i & -> & Hx' & Hm' & Hcx). exists m, i.
        split_and!; [done|by apply origin_clone_old..|]. rewrite (gr_color _ _ Hg); [done|by exists i].
    + rewrite lookup_insert_ne by done. intros Hw.
      destruct (Hm color' x w Hw) as (m & i & -> & Hx' & Hm' & Hcx). exists m, i.
      split_and!; [done|by apply origin_clone_old..|]. rewrite (gr_color _ _ Hg); [done|by exists i].
  - intros m c0 [Hl|[-> ->]]%Hsplit.
    + destruct (Ha m c0 Hl) as (color' & Hc' & Hav'). exists color'. split.
      * rewrite (gr_color _ _ Hg); [done|]. exists (cl_of c0). cbn. by rewrite Hl.
      * eapply Forall_impl; [exact Hav'|]. intros x. by apply available_grows.
    + exists color. split; [done|]. eapply Forall_impl; [exact Hav|]. intros x. by apply available_grows.
Qed.
End clone.

(** ** Cloning a tree *)

Definition cloned st color v : Prop := is_Some (clones_of_color st color !! v).

Lemma clone_value_ok color num_devices st v st' : rec_ok st ->
  Forall (fun w => cloned st color w \/ slice st w = true \/ input st w = OK true) (operands_of st v) ->
  clone_value sharding_ptr color num_devices st v = OK st' ->
  rec_ok st' /\ grows st st' /\ (forall x, valid st x -> operands_of st' x = operands_of st x) /\
  cloned st' color v /\ (forall x, cloned st color x -> cloned st' color x).
Proof.
  intros Hok Hops. unfold clone_value. case_bool_decide as Hc; [intros [= <-]; split_and!; [done|apply grows_refl|done..]|].
  intros (i & Hi & [= <-])%Result_bind_OK. set (cl := MkClone i _ _). split_and!.
  - apply (clone_ok st color cl v Hok Hi).
    + cbn. apply Forall2_fmap_l. eapply Forall2_impl; [exact (operands_traced st v i (ro_traced _ Hok) Hi)|]. intros w o Hw. unfold compose.
      destruct (clones_of_color st color !! w) as [w'|] eqn:Hw'; [|done].
      destruct (ro_map _ Hok _ _ _ Hw') as (n & j & -> & H1 & H2 & _). exact (stands_for_origin st w (inr n) o j H1 H2 Hw).
    + cbn. apply Forall_fmap. eapply Forall_impl; [exact Hops|]. intros w Hw. cbn.
      destruct (clones_of_color st color !! w) as [w'|] eqn:Hw'.
      * destruct (ro_map _ Hok _ _ _ Hw') as (n & j & -> & H1 & H2 & H3). left. exists n. split_and!; [done|by exists j|done].
      * destruct Hw as [[x Hx]|[Hs|Hin]]; [congruence|by right; left|by do 2 right; left].
  - apply clone_grows.
  - apply operands_clone_old.
  - unfold cloned, clones_of_color. cbn. rewrite lookup_insert_eq. cbn. by rewrite lookup_insert_eq.
  - intros x. unfold cloned, clones_of_color. cbn. rewrite lookup_insert_eq. intros Hx. cbn. apply lookup_insert_is_Some'. by right.
Qed.

Lemma clone_tree_ok color num_devices st operand tree st' : rec_ok st ->
  tree_ok sharding_ptr st (clones_of_color st color) operand tree ->
  foldM (clone_value sharding_ptr color num_devices) st tree = OK st' ->
  rec_ok st' /\ grows st st' /\ (forall x, valid st x -> operands_of st' x = operands_of st x) /\ cloned st' color operand.
Proof.
  intros Hok [Hin _ Hneed Hvalid] Hrun.
  apply (foldM_inv (fun done st1 => rec_ok st1 /\ grows st st1 /\ (forall x, valid st x -> operands_of st1 x = operands_of st x) /\
    (forall x, x ∈ done -> cloned st1 color x) /\ (forall x, cloned st color x -> cloned st1 color x))) in Hrun.
  - destruct Hrun as (H1 & H2 & H3 & H4 & _). split_and!; [done..|by apply H4].
  - split_and!; [done|apply grows_refl|done| |done]. by intros x ?%elem_of_nil.
  - intros t1 v t2 st1 st2 Heq (H1 & H2 & H3 & H4 & H5) Hstep.
    assert (valid st v) as Hv by (apply Hvalid; rewrite Heq; set_solver).
    destruct (clone_value_ok color num_devices st1 v st2 H1) as (G1 & G2 & G3 & G4 & G5); [|done|].
    + rewrite H3 by done. apply Forall_forall. intros w Hw.
      destruct (Hneed t1 v t2 w Heq Hw) as [Ht|[Hs|[Hc|Hi]]]; [by left; apply H4|right; left; by eapply slice_grows|by left; apply H5|].
      do 2 right. by apply (gr_input _ _ H2).
    + split_and!; [done|by eapply grows_trans| | |by auto].
      * intros x Hx. rewrite G3, H3; [done..|]. by eapply valid_grows.
      * intros x [Hx|Hx]%elem_of_app; [by apply G5, H4|]. by apply list_elem_of_singleton in Hx as ->.
Qed.

(** ** Replacing operands *)

Lemma with_uses_ok st u : rec_ok st -> (forall i l, u !! i = Some l -> Forall2 (stands_for st) l (operands i)) ->
  rec_ok (with_uses u st) /\ grows st (with_uses u st).
Proof. intros [[H1 H2] H3 H4] Hu. split; [by repeat split|by split]. Qed.

Lemma operands_with_uses st i l u : operands_of (with_uses (<[i := l]> u) st) (inl i) = l.
Proof. cbn. by rewrite lookup_insert_eq. Qed.

Lemma ReplaceOperandWith_ok st instruction index old new st' : rec_ok st -> vec_at (operands_of st (inl instruction)) index = OK old ->
  (forall o, stands_for st old o -> stands_for st new o) -> ReplaceOperandWith instruction index new st = OK st' ->
  rec_ok st' /\ grows st st' /\ vec_at (operands_of st' (inl instruction)) index = OK new.
Proof.
  intros Hok Hold Hnew. unfold ReplaceOperandWith, vec_set. case_bool_decide as Hidx; [|done]. intros [= <-].
  apply vec_at_lookup in Hold as [_ Hold].
  destruct (with_uses_ok st (<[instruction := <[Z.to_nat index := new]> (operands_of st (inl instruction))]> (uses st)) Hok) as [H1 H2].
  - intros i l. rewrite lookup_insert_Some. intros [[<- <-]|[_ Hl]]; [|by apply (tr_uses _ (ro_traced _ Hok))].
    pose proof (operands_traced st (inl instruction) instruction (ro_traced _ Hok) eq_refl) as Htr.
    destruct (Forall2_lookup_l _ _ _ _ _ Htr Hold) as (o & Ho & Hst).
    rewrite <- (list_insert_id (operands instruction) (Z.to_nat index) o Ho). apply Forall2_insert; [done|by apply Hnew].
  - split_and!; [done..|]. rewrite operands_with_uses. unfold vec_at. rewrite bool_decide_eq_false_2 by lia.
    rewrite list_lookup_insert_eq; [done|]. cbn in Hidx |- *. lia.
Qed.

(** ** Replacing a recolored argument *)
Section replace.
Context (st : Recomputing) (instruction : I) (new : Value).
Abbreviation old := (inl instruction : Value).
Abbreviation st' := (MkRecomputing (clones (ReplaceAllUsesWith old new st)) (uses (ReplaceAllUsesWith old new st)) (attributes st) (properties st)
  (clone_map st) (to_remove st ++ [instruction]) (to_prune st)).

Lemma replaced_clone n : clones st' !! n = (fun cl => if bool_decide (inr n = new) then cl
  else MkClone (cl_of cl) (map (replace_use old new) (cl_operands cl)) (cl_sharding cl)) <$> clones st !! n.
Proof. apply list_lookup_imap. Qed.

Lemma replace_grows : grows st st'.
Proof.
  assert (forall v i, origin st v = OK i -> origin st' v = OK i) as Ho.
  { intros [j|n] i; [done|]. intros (c0 & Hc0 & <-)%origin_clone. unfold origin. rewrite replaced_clone, Hc0. cbn. by case_bool_decide. }
  assert (forall v, valid st v -> sharding_of st' v = sharding_of st v) as Hsh.
  { intros [j|n] [i Hi]; [done|]. unfold ArgumentRecompute.sharding_of. rewrite replaced_clone. destruct (clones st !! n); [|done]. cbn.
    by case_bool_decide. }
  split; [done|done|done| |].
  - intros v Hv. apply (input_same st); [by apply Ho|apply Hsh|done|done].
  - intros i Hi. apply elem_of_app. by left.
Qed.

Context (Hr : IsCustomCall instruction kCustomCallArgumentRecolor = true) (Hst : stands_for st new instruction).

Lemma replace_stands o : stands_for st old o -> stands_for st new o.
Proof. intros (o1 & [= <-] & Hp). destruct Hst as (o2 & Ho2 & Hp2). exists o2. split; [done|by etrans]. Qed.

Lemma replace_use_stands v o : stands_for st v o -> stands_for st (replace_use old new v) o.
Proof. unfold replace_use. case_bool_decide; [subst; apply replace_stands|done]. Qed.

Lemma replaced_operands (b : bool) l l' : Forall2 (stands_for st) l l' ->
  Forall2 (stands_for st') (if b then l else map (replace_use old new) l) l'.
Proof.
  pose proof replace_grows as Hg. intros Hl. destruct b.
  - eapply Forall2_impl; [exact Hl|]. intros v o. by apply stands_for_grows.
  - apply Forall2_fmap_l. eapply Forall2_impl; [exact Hl|]. intros v o Hv.
    apply (stands_for_grows st); [done|by apply replace_use_stands].
Qed.

(** A recolored argument can only have been an input. *)
Lemma replaced_available color w : available st color w -> available st' color (replace_use old new w).
Proof.
  pose proof replace_grows as Hg. unfold replace_use. case_bool_decide as Heq; [subst w|by apply available_grows]. intros Hav. do 3 right.
  destruct Hav as [(m & [=] & _)|[Hs|[Hi|(r & Hrm & Hi & Hs)]]].
  - unfold slice, IsCustomCall in Hs. cbn in Hs. unfold IsCustomCall in Hr. apply andb_true_iff in Hr as [_ Ht], Hs as [_ Hs].
    apply bool_decide_eq_true in Ht, Hs. rewrite Ht in Hs. done.
  - exists instruction. split_and!; [apply elem_of_app; right; by apply list_elem_of_singleton|by apply (gr_input _ _ Hg)|].
    by apply (stands_for_grows st).
  - exists r. split_and!; [by apply (gr_removed _ _ Hg)|by apply (gr_input _ _ Hg)|]. apply (stands_for_grows st); [done|by apply replace_stands].
Qed.

Lemma replace_ok : rec_ok st -> rec_ok st'.
Proof.
  pose proof replace_grows as Hg. intros [[Hu Hc] Hm Ha]. split; [split|..].
  - intros i l. cbn [uses ReplaceAllUsesWith]. rewrite map_lookup_imap. destruct (uses st !! i) as [l0|] eqn:Hl0; [|done]. cbn.
    intros [= <-]. by apply replaced_operands, Hu.
  - intros n cl. rewrite replaced_clone. intros (c0 & Hc0 & ->)%fmap_Some. pose proof (replaced_operands (bool_decide (inr n = new)) _ _ (Hc n c0 Hc0)).
    by case_bool_decide.
  - intros color v w (n & i & -> & H1 & H2 & H3)%Hm. exists n, i. split_and!; [done|by apply (gr_origin _ _ Hg)..|done].
  - intros n cl. rewrite replaced_clone. intros (c0 & Hc0 & ->)%fmap_Some. destruct (Ha n c0 Hc0) as (color & Hcol & Hav). exists color. split; [done|].
    case_bool_decide; cbn; [|apply Forall_fmap]; (eapply Forall_impl; [exact Hav|]); intros w.
    + by apply available_grows.
    + apply replaced_available.
Qed.
End replace.

(** A recolored argument is replaced by its operand. *)
Lemma remove_recolor_ok st instruction st' : rec_ok st -> remove_recolor instruction st = OK st' -> rec_ok st' /\ grows st st'.
Proof.
  intros Hok. unfold remove_recolor. destruct (IsCustomCall instruction kCustomCallArgumentRecolor) eqn:Hr;
    [|intros [= <-]; split; [done|apply grows_refl]].
  intros (new & [_ Hnew]%vec_at_lookup & [= <-])%Result_bind_OK. split; [|apply replace_grows]. apply replace_ok; [done| |done].
  pose proof (operands_traced st (inl instruction) instruction (ro_traced _ Hok) eq_refl) as Htr.
  destruct (Forall2_lookup_l _ _ _ _ _ Htr Hnew) as (o & Ho & o' & Ho' & Hp). exists o'. split; [done|]. by eapply rtc_l; [split|].
Qed.
End clones.
