(* ===== verification/RecomputeFacts.v ===== *)
(** * Operands are recomputed without changing what is computed (mpmd_argument_recompute.cc)

    The pass ends, the graph that it leaves has no cycles and computes the same values, and
    a clone has what it needs within the tasks of its color. *)
From S2P Require Import Prelude Hlo Instruction Partition Sharding ShardingIndex InstructionProperties ColorPasses Utils Dfs ArgumentRecompute RecomputeSearch RecomputeClones ColorPassesFacts.
Local Open Scope Z_scope.

Section facts.
Context {I C St D HS : Type} `{EqDecision I, !Countable I} `{!Hlo I C, !AttrStore (I + nat) St, !AcyclicLaws I C}.
Context `{!AttrStoreLaws (I + nat) St}.
Context `{EqDecision D, !Countable D, !DeviceListApi D} `{!HloShardingApi HS}.
Abbreviation Value := (I + nat)%type.
Context (sharding_ptr : I -> option HS) (spmd_elements spmd_bytes : I -> option HS -> Z).
Context (partition_ : HloPartition D) (max_recompute_cost_allowed_ global_mem_to_compute_ratio_ : Z).
Abbreviation Recomputing := (@Recomputing I C St HS _ _).
Abbreviation input := (input_or_replicated_input_copy sharding_ptr).
Abbreviation MaybeRecompute := (MaybeRecomputeOperandFromArguments sharding_ptr spmd_elements spmd_bytes partition_
  max_recompute_cost_allowed_ global_mem_to_compute_ratio_).
Abbreviation visit_operand := (visit_operand sharding_ptr spmd_elements spmd_bytes partition_ max_recompute_cost_allowed_ global_mem_to_compute_ratio_).
Abbreviation visit_instruction := (visit_instruction sharding_ptr spmd_elements spmd_bytes partition_ max_recompute_cost_allowed_ global_mem_to_compute_ratio_).
Abbreviation visit_computation := (visit_computation sharding_ptr spmd_elements spmd_bytes partition_ max_recompute_cost_allowed_ global_mem_to_compute_ratio_).
Abbreviation VisitComputations := (VisitComputations sharding_ptr spmd_elements spmd_bytes partition_ max_recompute_cost_allowed_ global_mem_to_compute_ratio_).
Abbreviation Run := (Run sharding_ptr spmd_elements spmd_bytes partition_ max_recompute_cost_allowed_ global_mem_to_compute_ratio_).
Implicit Types (i o : I) (v w : Value) (st : Recomputing) (color : string).

(** ** One operand *)

Lemma operand_index_spec st instruction v index : operand_index st instruction v = OK index ->
  vec_at (operands_of st (inl instruction)) index = OK v.
Proof.
  unfold operand_index. destruct (list_find _ _) as [[n x]|] eqn:Hf; [|done]. intros [= <-].
  apply list_find_Some in Hf as (Hn & -> & _). unfold vec_at. rewrite bool_decide_eq_false_2 by lia. by rewrite Nat2Z.id, Hn.
Qed.

Lemma MaybeRecompute_ok fuel color instruction operand st b st' : rec_ok sharding_ptr st -> slice st operand = false ->
  MaybeRecompute fuel color instruction operand st = OK (b, st') ->
  rec_ok sharding_ptr st' /\ grows sharding_ptr st st' /\ (b = false -> st' = st).
Proof.
  intros Hok Hs. unfold MaybeRecomputeOperandFromArguments.
  assert (rec_ok sharding_ptr st /\ grows sharding_ptr st st /\ (b = false -> st = st)) as Hsame by (split_and!; [done|apply grows_refl|done]).
  intros (cross & _ & Hrun)%Result_bind_OK. apply Result_bind_OK in Hrun as (num_devices & _ & Hrun).
  apply Result_bind_OK in Hrun as (is_input & _ & Hrun). destruct is_input; [by injection Hrun as _ <-|].
  apply Result_bind_OK in Hrun as ([tree|] & Htree & Hrun); [|by injection Hrun as _ <-].
  apply Result_bind_OK in Hrun as (st1 & Hclone & Hrun). apply Result_bind_OK in Hrun as (index & Hindex & Hrun).
  destruct (clones_of_color st1 color !! operand) as [clone|] eqn:Hcl; [|done].
  apply Result_bind_OK in Hrun as (st2 & Hrep & [= <- <-]).
  destruct (search_finds _ _ st (ro_traced _ _ Hok) _ _ _ _ _ _ Hs Htree) as [Hfound _].
  destruct (clone_tree_ok sharding_ptr color num_devices st operand tree st1 Hok Hfound Hclone) as (Hok1 & Hg1 & _ & _).
  destruct (ro_map _ _ Hok1 _ _ _ Hcl) as (n & i & -> & H1 & H2 & _).
  destruct (ReplaceOperandWith_ok sharding_ptr st1 instruction index operand (inr n) st2 Hok1) as (Hok2 & Hg2 & _);
    [by apply operand_index_spec| |done|].
  - intros o Ho. exact (stands_for_origin st1 operand (inr n) o i H1 H2 Ho).
  - split_and!; [done|by eapply grows_trans|done].
Qed.

Lemma returns_DevicesForColor color : returns (DevicesForColor partition_ color).
Proof. unfold DevicesForColor, ConfigForColor. by destruct (colors_ partition_ !! color). Qed.

Lemma returns_Get {A} (f : Entry Value -> A) (es : gmap Value (Entry Value)) v : returns (e ← Get es v; OK (f e)).
Proof. unfold Get. by destruct (es !! v). Qed.

Lemma returns_ReplaceOperandWith instruction index v st : returns (ReplaceOperandWith instruction index v st).
Proof. unfold ReplaceOperandWith, vec_set. by case_bool_decide. Qed.

Lemma MaybeRecompute_settles color instruction operand st : rec_ok sharding_ptr st ->
  settles (fun fuel => MaybeRecompute fuel color instruction operand st).
Proof.
  intros Hok. unfold MaybeRecomputeOperandFromArguments. apply settles_bind.
  { apply settles_const. unfold cross_mesh_cost. case_bool_decide; [|done]. apply returns_bind; [apply returns_DevicesForColor|].
    intros d _. destruct (Color _ _); [|done]. apply returns_bind; [apply returns_DevicesForColor|done]. }
  intros cross _. apply settles_bind.
  { apply settles_const. destruct (Color _ _); [|done]. apply returns_bind; [apply returns_DevicesForColor|done]. }
  intros num_devices _. apply settles_bind; [apply settles_const; case_bool_decide; [done|apply returns_input]|].
  intros [|] _; [by apply settles_const|]. apply settles_bind.
  { destruct (reached_values st operand (ro_traced _ _ Hok)) as (U & HU & Hclosed).
    set (cm := clones_of_color st color). set (a := Dfs.State [operand] ∅ []).
    set (m := S (Dfs.measure (deps sharding_ptr st cm) U a)).
    set (cutoff := cost_cutoff _ _ _ _ _ _). assert (forall m', (m <= m')%nat -> returns (ArgumentRecompute.search_loop sharding_ptr spmd_elements m st cm cutoff instruction (MkSearch [operand] ∅ [] 0)) /\
      ArgumentRecompute.search_loop sharding_ptr spmd_elements m' st cm cutoff instruction (MkSearch [operand] ∅ [] 0) = ArgumentRecompute.search_loop sharding_ptr spmd_elements m st cm cutoff instruction (MkSearch [operand] ∅ [] 0)) as Hm.
    { intros m'. apply (search_loop_settles _ _ _ (ro_traced _ _ Hok) _ _ _ U _ _ _ a []).
      - intros x w Hx [Hw _]%deps_operand. by eapply Hclosed.
      - by repeat constructor.
      - apply search_initial.
      - apply Nat.lt_succ_diag_r. }
    exists m. eexists. split; [exact (proj1 (Hm m (le_n m)))|]. intros m' Hm'. by apply Hm. }
  intros [tree|] _; apply settles_const; [|done]. apply returns_bind.
  { apply returns_foldM. intros st1 v _. unfold clone_value. case_bool_decide; [done|]. apply returns_bind; [apply returns_origin|done]. }
  intros st1 _. apply returns_bind; [unfold operand_index; by destruct (list_find _ _) as [[]|]|].
  intros index _. destruct (clones_of_color st1 color !! operand); [|done].
  apply returns_bind; [apply returns_ReplaceOperandWith|done].
Qed.

(** ** The visits *)

Abbreviation rec_ok := (rec_ok sharding_ptr).

(** A part of a visit keeps the invariant, and reports every change. *)
Definition kept (a a' : bool * Recomputing) : Prop := (rec_ok a.2 -> rec_ok a'.2 /\ grows sharding_ptr a.2 a'.2) /\ (a'.1 = false -> a' = a).

Lemma kept_refl a : kept a a.
Proof. split; [|done]. intros Hok. split; [done|apply grows_refl]. Qed.

Lemma kept_trans a1 a2 a3 : kept a1 a2 -> kept a2 a3 -> kept a1 a3.
Proof.
  intros [H1 H2] [H3 H4]. split; [|intros Hf; specialize (H4 Hf) as ->; by apply H2].
  intros [Ha Hga]%H1. destruct (H3 Ha) as [Hb Hgb]. split; [done|by eapply grows_trans].
Qed.

Lemma foldM_kept {A} (f : bool * Recomputing -> A -> Result (bool * Recomputing)) l a a' :
  (forall a x a', rec_ok a.2 -> f a x = OK a' -> kept a a') -> rec_ok a.2 -> foldM f a l = OK a' -> kept a a'.
Proof.
  intros Hf Hok Hrun. apply (foldM_inv (fun _ a1 => kept a a1)) in Hrun; [done|apply kept_refl|].
  intros done_ x rest a1 a2 _ H1 H2. eapply kept_trans; [exact H1|]. eapply Hf; [|exact H2]. by apply H1.
Qed.

Lemma visit_operand_kept fuel color i a index a' : rec_ok a.2 -> visit_operand fuel color i a index = OK a' -> kept a a'.
Proof.
  destruct a as [b st], a' as [b' st']. cbn [snd]. intros Hok. unfold ArgumentRecompute.visit_operand.
  intros (operand & _ & Hrun)%Result_bind_OK. apply Result_bind_OK in Hrun as (so & (j & Hj & [= <-])%Result_bind_OK & Hrun).
  destruct (Color _ operand) as [oc|]; [|injection Hrun as <- <-; apply kept_refl].
  destruct (bool_decide (color <> oc) && _) eqn:Hg; [|injection Hrun as <- <-; apply kept_refl].
  apply andb_true_iff in Hg as [_ Hs%negb_true_iff].
  apply Result_bind_OK in Hrun as ([b1 st1] & Hm & Hrun). apply MaybeRecompute_ok in Hm as (Hok1 & Hg1 & Hb1); [|done|by unfold slice; rewrite Hj].
  apply Result_bind_OK in Hrun as (st2 & Hr & [= <- <-]). split; cbn.
  - intros _. destruct b1; [|by injection Hr as <-]. apply (remove_recolor_ok sharding_ptr) in Hr as [Hok2 Hg2]; [|done].
    split; [done|by eapply grows_trans].
  - intros [-> ->]%orb_false_iff. injection Hr as <-. by rewrite Hb1.
Qed.

Lemma visit_instruction_kept fuel a bodies i a' bodies' : rec_ok a.2 -> visit_instruction fuel (a, bodies) i = OK (a', bodies') ->
  kept a a' /\ bodies' = bodies ++ omap loop_body [i].
Proof.
  intros Hok. destruct a as [b st]. unfold ArgumentRecompute.visit_instruction. cbn [omap list_omap]. unfold loop_body.
  case_bool_decide as Hw.
  { intros (body & Hb & [= <- <-])%Result_bind_OK. rewrite Hb. split; [apply kept_refl|done]. }
  rewrite app_nil_r. case_bool_decide; [intros [= <- <-]; split; [apply kept_refl|done]|].
  intros ([] & _ & Hrun)%Result_bind_OK; [injection Hrun as <- <-; split; [apply kept_refl|done]|].
  destruct (Color _ _) as [color|]; [|injection Hrun as <- <-; split; [apply kept_refl|done]].
  apply Result_bind_OK in Hrun as (a1 & Hrun & [= <- <-]). split; [|done].
  eapply foldM_kept; [|exact Hok|exact Hrun]. intros a x a2. apply visit_operand_kept.
Qed.

Lemma start_computation_ok c st : rec_ok st -> rec_ok (start_computation c st) /\ grows sharding_ptr st (start_computation c st).
Proof.
  intros [[Hu Hc] Hm Ha]. split; [split; [split|..]|by split].
  - intros i l. cbn. rewrite lookup_union_Some_raw. intros [Hl|[_ Hl]]; [by apply Hu|].
    apply elem_of_list_to_map_2, list_elem_of_fmap in Hl as (j & [= -> ->] & _). apply Forall2_fmap_l, Forall_Forall2_diag, Forall_forall.
    intros o _. apply stands_for_self.
  - exact Hc.
  - intros color v w. unfold clones_of_color. cbn. by rewrite lookup_empty.
  - exact Ha.
Qed.

(** Nothing has been changed. *)
Definition untouched (s : St) st : Prop :=
  clones st = [] /\ attributes st = s /\ to_remove st = [] /\ to_prune st = [] /\ forall i, operands_of st (inl i) = inl <$> operands i.

Lemma start_computation_untouched s c st : untouched s st -> untouched s (start_computation c st).
Proof.
  intros (H1 & H2 & H3 & H4 & H5). split_and!; [done..|]. intros i. cbn. specialize (H5 i). cbn in H5. rewrite lookup_union.
  destruct (uses st !! i) as [l|]; [by destruct (list_to_map _ !! i)|].
  destruct (list_to_map _ !! i) as [l|] eqn:Hl; [|done].
  by apply elem_of_list_to_map_2, list_elem_of_fmap in Hl as (j & [= -> ->] & _).
Qed.

Definition visited_ok (s : St) (es : gmap Value (Entry Value)) (a : bool * Recomputing) : Prop :=
  rec_ok a.2 /\ grows sharding_ptr (initial s es) a.2 /\ (a.1 = false -> untouched s a.2).

Lemma visit_computation_ok fuel s es a c a' bodies : visited_ok s es a -> visit_computation fuel a c = OK (a', bodies) ->
  visited_ok s es a' /\ bodies = loop_bodies c.
Proof.
  destruct a as [changed st]. intros (Hok & Hg & Hun). cbn in Hok, Hg, Hun. unfold ArgumentRecompute.visit_computation.
  intros ([[computation_changed st1] bodies1] & Hrun & [= <- <-])%Result_bind_OK. destruct (start_computation_ok c st Hok) as [Hok0 Hg0].
  apply (foldM_inv (fun done_ a1 => kept (false, start_computation c st) a1.1 /\ a1.2 = omap loop_body done_)) in Hrun.
  - destruct Hrun as [[H1 H2] Hb]. cbn in H1, H2, Hb. destruct (H1 Hok0) as [Hok1 Hg1]. split; [|done]. split_and!; cbn.
    + destruct computation_changed; [|done]. destruct Hok1 as [[] ? ?]. by repeat split.
    + eapply grows_trans; [exact Hg|]. eapply grows_trans; [exact Hg0|]. eapply grows_trans; [exact Hg1|]. by destruct computation_changed.
    + intros [-> ->]%orb_false_iff. injection (H2 eq_refl) as ->. apply start_computation_untouched, Hun. done.
  - split; [apply kept_refl|done].
  - intros done_ i rest [a1 b1] [a2 b2] _ [H1 Hb] Hi. cbn in H1, Hb |- *. subst b1. apply visit_instruction_kept in Hi as [H2 ->]; [|by apply H1].
    rewrite omap_app. split; [by eapply kept_trans|done].
Qed.

Lemma initial_ok s es : visited_ok s es (false, initial s es).
Proof.
  split_and!; [|apply grows_refl|done]. split; [split|..]; cbn.
  - intros i l. by rewrite lookup_empty.
  - done.
  - intros color v w. unfold clones_of_color. cbn. by rewrite !lookup_empty.
  - done.
Qed.

Lemma VisitComputations_ok n fuel entry s es a : VisitComputations n fuel entry (initial s es) = OK a -> visited_ok s es a.
Proof.
  intros Hrun. eapply (visit_all_inv _ (visited_ok s es) (fun _ => True)) in Hrun; [exact Hrun| |apply initial_ok|by repeat constructor].
  intros a1 c a2 bodies H1 _ [H2 ->]%(visit_computation_ok _ s es); [|done]. split; [done|]. by apply Forall_forall.
Qed.

(** ** The pass ends *)

Lemma visit_operand_settles color i a index : rec_ok a.2 -> settles (fun fuel => visit_operand fuel color i a index).
Proof.
  destruct a as [b st]. cbn [snd]. intros Hok. unfold ArgumentRecompute.visit_operand. apply settles_bind; [apply settles_const, returns_vec_at|].
  intros operand _. apply settles_bind; [apply settles_const, returns_bind; [apply returns_origin|done]|].
  intros so _. destruct (Color _ operand) as [oc|]; [|by apply settles_const]. destruct (bool_decide (color <> oc) && _); [|by apply settles_const].
  apply settles_bind; [by apply MaybeRecompute_settles|]. intros [b1 st1] _. apply settles_const. apply returns_bind; [|done].
  destruct b1; [|done]. unfold remove_recolor. destruct (IsCustomCall i _); [|done]. apply returns_bind; [apply returns_vec_at|done].
Qed.

Lemma visit_instruction_settles a i : rec_ok a.1.2 -> settles (fun fuel => visit_instruction fuel a i).
Proof.
  destruct a as [[b st] bodies]. cbn [fst snd]. intros Hok. unfold ArgumentRecompute.visit_instruction.
  case_bool_decide; [apply settles_const, returns_bind; [apply returns_vec_at|done]|]. case_bool_decide; [by apply settles_const|].
  apply settles_bind; [apply settles_const, returns_Get|]. intros [] _; [by apply settles_const|].
  destruct (Color _ _) as [color|]; [|by apply settles_const]. apply settles_bind; [|intros r _; by apply settles_const].
  apply (settles_foldM (fun a => rec_ok a.2)); [|intros fuel a x a' Ha _ Hx; by apply (visit_operand_kept fuel color i a x a' Ha Hx)|done].
  intros a x Ha _. by apply visit_operand_settles.
Qed.

Lemma visit_computation_settles a c : rec_ok a.2 -> settles (fun fuel => visit_computation fuel a c).
Proof.
  destruct a as [changed st]. cbn [snd]. intros Hok. unfold ArgumentRecompute.visit_computation.
  apply settles_bind; [|intros [[] ?] _; by apply settles_const].
  apply (settles_foldM (fun a => rec_ok a.1.2)); [|intros fuel [a b] x [a' b'] Ha _ Hx|by apply start_computation_ok].
  - intros a x Ha _. by apply visit_instruction_settles.
  - cbn in Ha |- *. apply visit_instruction_kept in Hx as [[Hx _] _]; [|done]. by apply Hx.
Qed.

(** C38: The pass ends: there is an amount of fuel for the searches of operand trees, one step for every
    entry of a stack, beyond which the pass has one result, whatever the module looks like. *)
Theorem VisitComputations_returns n entry s es : (visits entry <= n)%nat ->
  exists searches r, returns r /\ forall searches', (searches <= searches')%nat -> VisitComputations n searches' entry (initial s es) = r.
Proof.
  intros Hn. change (settles (fun searches => VisitComputations n searches entry (initial s es))). unfold ArgumentRecompute.VisitComputations.
  assert (sum_list (visits <$> [entry]) <= n)%nat as Hle by (change (visits entry + 0 <= n)%nat; lia). clear Hn.
  pose proof (initial_ok s es) as Hok. revert Hle Hok. generalize (false, initial (C := C) (HS := HS) s es) [entry]. clear entry.
  induction n as [|n IH]; intros a [|c rest] Hle Hok.
  1,3: by apply (settles_const (OK a)).
  { change (visits c + sum_list (visits <$> rest) <= 0)%nat in Hle. rewrite visits_unfold in Hle. lia. }
  change (visits c + sum_list (visits <$> rest) <= S n)%nat in Hle. rewrite visits_unfold in Hle. cbn [visit_all].
  apply (settles_bind (fun searches => visit_computation searches a c)); [apply visit_computation_settles, Hok|].
  intros [a1 bodies] [fuel Ha1]. destruct (visit_computation_ok _ s es _ _ _ _ Hok Ha1) as [Hok1 ->]. apply IH; [|done].
  rewrite fmap_app, fmap_reverse, sum_list_app, reverse_Permutation. cbn [snd]. lia.
Qed.

(** ** What is computed *)
Section values.
Context {X : Type} `{!Inhabited X} (sem : I -> list X -> X).
(** A recolored argument is the argument. *)
Context (sem_recolor : forall i x xs, IsCustomCall i kCustomCallArgumentRecolor = true -> sem i (x :: xs) = x).

Definition program_values (f : I -> X) : Prop := forall i, f i = sem i (f <$> operands i).
Definition edited_values st (g : Value -> X) : Prop := forall v i, origin st v = OK i -> g v = sem i (g <$> operands_of st v).

Lemma passes_value f i o : program_values f -> rtc passes i o -> f i = f o.
Proof.
  intros Hf. induction 1 as [|x y z [Hr Hy] _ IH]; [done|]. rewrite <- IH, (Hf x). destruct (operands x) as [|w l]; [done|].
  injection Hy as ->. cbn [fmap list_fmap]. by apply sem_recolor.
Qed.

Lemma operands_values st f g v i : traced st -> program_values f -> origin st v = OK i ->
  (forall w o, w ∈ operands_of st v -> origin st w = OK o -> g w = f o) -> g <$> operands_of st v = f <$> operands i.
Proof.
  intros Ht Hf Hv Hg. pose proof (operands_traced st v i Ht Hv) as Htr. apply list_eq_Forall2, Forall2_fmap.
  apply Forall2_same_length_lookup_2; [by eapply Forall2_length|]. intros n w o Hw Ho.
  pose proof (Forall2_lookup_lr _ _ _ _ _ _ Htr Hw Ho) as (o' & Ho' & Hp). rewrite (passes_value f o o' Hf Hp).
  apply Hg; [by eapply list_elem_of_lookup_2|done].
Qed.

Lemma traced_values st f : traced st -> program_values f ->
  (exists g, edited_values st g) /\ forall g v i, edited_values st g -> origin st v = OK i -> g v = f i.
Proof.
  intros Ht Hf. split.
  - exists (fun v => match origin st v with OK i => f i | _ => inhabitant end). intros v i Hv. rewrite Hv, (Hf i). f_equal.
    symmetry. apply operands_values; [done..|]. intros w o _ Ho. by rewrite Ho.
  - intros g v. remember (rank st v) as k eqn:Hk. revert v Hk. induction (lt_wf k) as [k _ IH]. intros v -> i Hg Hv.
    rewrite (Hg v i Hv), (Hf i). f_equal. apply operands_values; [done..|]. intros w o Hw Ho.
    apply (IH (rank st w)); [by apply rank_lt|done..].
Qed.

(** C9: Recomputing operands does not change what the program computes: in the graph that the pass leaves,
    operands are below their users, so it has no cycles; it has values whenever the program has, and in
    every assignment of values each instruction has the value of the program, and each clone that of the
    instruction it was cloned from, if recoloring an argument passes it on.  If the pass reports no change there is none. *)
Theorem Run_recomputes_values dealias_fuel fuel n searches entry s changed st : Run dealias_fuel fuel n searches entry s = OK (changed, st) ->
  (forall v w, w ∈ operands_of st v -> (rank st w < rank st v)%nat) /\
  (forall f, program_values f -> (exists g, edited_values st g) /\
    forall g v i, edited_values st g -> origin st v = OK i -> g v = f i) /\
  (changed = false -> untouched s st).
Proof.
  intros (es & _ & ([Ht _ _] & _ & Hun)%VisitComputations_ok)%Result_bind_OK. cbn in Ht, Hun. split_and!; [|by intros f; apply traced_values|done].
  intros v w. by apply rank_lt.
Qed.
End values.

(** C37: A clone belongs to the tasks of one color, and has what it needs there: each of its operands is a clone
    of that color, the offset of a slice, an input of the program, or what a recolored input that is
    removed passed on.  The instructions keep their colors. *)
Theorem Run_clones_self_contained dealias_fuel fuel n searches entry s changed st : Run dealias_fuel fuel n searches entry s = OK (changed, st) ->
  (forall k cl, clones st !! k = Some cl ->
    exists color, Color (attributes st) (inr k) = Some color /\ forall w, w ∈ cl_operands cl -> available sharding_ptr st color w) /\
  (forall i, Color (attributes st) (inl i) = Color s (inl i)).
Proof.
  intros (es & _ & ([_ _ Ha] & Hg & _)%VisitComputations_ok)%Result_bind_OK. cbn in Ha, Hg. split.
  - intros k cl Hk. destruct (Ha k cl Hk) as (color & Hc & Hav). exists color. split; [done|]. by apply Forall_forall.
  - intros i. apply (gr_color _ _ _ Hg). by exists i.
Qed.
End facts.

(** ** A concrete module

    A task "a" computes two small values from the parameter of the program; a recolored
    argument and a sum of the task "b" take the second one.  Both values are cloned for the
    recolored argument, which is removed; the sum stays with the operand of the task "a". *)
Module RecomputeSample.
Definition nodes : list Graph.node :=
  [Graph.op kParameter []; Graph.op kExp [0]; Graph.op kNegate [1];
   Graph.Node kCustomCall [2] 0 [] kCustomCallArgumentRecolor "" false 1 false;
   Graph.op kAdd [2; 2]; Graph.op kMultiply [3; 4]; Graph.Node kTuple [2; 5] 0 [] "" "" true 2 false]%nat.
Definition comps : list Graph.comp := [Graph.dummy_comp; Graph.Comp 6 [0] [0; 1; 2; 3; 4; 5; 6]]%nat.
#[export] Instance hlo0 : Hlo nat nat := Graph.hlo nodes comps.
#[export] Instance acyclic0 : AcyclicLaws nat nat := Graph.acyclic_laws nodes comps eq_refl.

Abbreviation Attrs := (gmap (nat + nat) (gmap string string)).
#[export] Instance store : AttrStore (nat + nat) Attrs := {
  frontend_attributes s i := default ∅ (s !! i);
  set_frontend_attributes i m s := <[i := m]> s;
  add_frontend_attributes i m s := <[i := default ∅ (s !! i) ∪ m]> s;
}.
#[export] Instance store_laws : AttrStoreLaws (nat + nat) Attrs.
Proof. split; intros i j m s; cbn; rewrite lookup_insert; by repeat case_decide; subst. Qed.

Definition partition : HloPartition Slice.t :=
  (AllocateColor_named
    (AllocateColor_named (Create (Slice.mk 0 8)) "a" (Slice.mk 0 4) default_TaskOptions).2
    "b" (Slice.mk 4 4) default_TaskOptions).2.
Definition attrs : Attrs :=
  foldr (fun q s => AssignColor (inl q.1) q.2 s) ∅ [(1, "a"); (2, "a"); (3, "b"); (4, "b"); (5, "b")]%nat.
Definition sharding_ptr (i : nat) : option OpSharding := None.
Definition elements (i : nat) (_ : option OpSharding) : Z := ElementsIn i.
Definition bytes (i : nat) (_ : option OpSharding) : Z := ByteSizeOf i.
Abbreviation run := (Run sharding_ptr elements bytes partition 0 kGlobalMemToComputeRatio 20 3 3 20 1%nat attrs).

(** The values: an instruction adds one to the sum of its operands. *)
Definition sem (i : nat) (xs : list Z) : Z :=
  if IsCustomCall i kCustomCallArgumentRecolor then default 0 (head xs) else 1 + foldr Z.add 0 xs.
Definition program (i : nat) : Z := nth i [1; 2; 3; 3; 7; 11; 15] 1.
End RecomputeSample.
Import RecomputeSample.

Lemma run_result : exists st, run = OK (true, st) /\
  (operands_of st (inl 5%nat) = [inr 1; inl 4]%nat /\ operands_of st (inl 4%nat) = [inl 2; inl 2]%nat /\
   operands_of st (inr 1%nat) = [inr 0%nat] /\ operands_of st (inr 0%nat) = [inl 0%nat] /\
   origin st (inr 1%nat) = OK 2%nat /\ to_remove st = [3%nat]) /\
  (Color (attributes st) (inl 2%nat) = Some "a" /\ Color (attributes st) (inl 4%nat) = Some "b" /\ Color (attributes st) (inr 1%nat) = Some "b").
Proof.
  assert (match run with
    | OK (true, st) => bool_decide (
        (operands_of st (inl 5%nat) = [inr 1; inl 4]%nat /\ operands_of st (inl 4%nat) = [inl 2; inl 2]%nat /\
         operands_of st (inr 1%nat) = [inr 0%nat] /\ operands_of st (inr 0%nat) = [inl 0%nat] /\
         origin st (inr 1%nat) = OK 2%nat /\ to_remove st = [3%nat]) /\
        (Color (attributes st) (inl 2%nat) = Some "a" /\ Color (attributes st) (inl 4%nat) = Some "b" /\ Color (attributes st) (inr 1%nat) = Some "b"))
    | _ => false end = true) as Hrun by by vm_compute.
  destruct run as [[[] st]| |]; [|done..]. apply bool_decide_eq_true in Hrun. by exists st.
Qed.

Lemma program_has_values : program_values sem program.
Proof. intros i. do 7 (destruct i as [|i]; [done|]). by destruct i. Qed.

(** The clone computes the value of what it was cloned from. *)
Lemma Run_recomputes_values_witness : exists st, run = OK (true, st) /\
  (forall v w, w ∈ operands_of st v -> (rank st w < rank st v)%nat) /\
  (exists g, edited_values sem st g) /\ forall g, edited_values sem st g -> g (inr 1%nat) = 3 /\ g (inl 5%nat) = 11.
Proof.
  destruct run_result as (st & Hrun & (_ & _ & _ & _ & Ho & _) & _). exists st. split; [exact Hrun|].
  assert (forall i x xs, IsCustomCall i kCustomCallArgumentRecolor = true -> sem i (x :: xs) = x) as Hsem
    by (intros i x xs Hi; unfold sem; by rewrite Hi).
  destruct (Run_recomputes_values _ _ _ _ _ _ sem Hsem _ _ _ _ _ _ _ _ Hrun) as (H1 & H2 & _).
  split; [exact H1|]. destruct (H2 program program_has_values) as [H3 H4]. split; [exact H3|].
  intros g Hg. split; [exact (H4 g (inr 1%nat) 2%nat Hg Ho)|exact (H4 g (inl 5%nat) 5%nat Hg eq_refl)].
Defined.

Lemma Run_clones_self_contained_witness : exists st, run = OK (true, st) /\
  (forall k cl, clones st !! k = Some cl ->
    exists color, Color (attributes st) (inr k) = Some color /\ forall w, w ∈ cl_operands cl -> available sharding_ptr st color w) /\
  Color (attributes st) (inl 2%nat) = Some "a".
Proof.
  destruct run_result as (st & Hrun & _). exists st. split; [exact Hrun|].
  destruct (Run_clones_self_contained _ _ _ _ _ _ _ _ _ _ _ _ _ _ Hrun) as [H1 H2]. split; [exact H1|].
  rewrite (H2 2%nat). by vm_compute.
Defined.

Lemma VisitComputations_returns_witness : exists searches r, returns r /\
  forall searches', (searches <= searches')%nat ->
    VisitComputations sharding_ptr elements bytes partition 0 kGlobalMemToComputeRatio 1 searches' 1%nat (initial attrs ∅) = r.
Proof. apply (VisitComputations_returns sharding_ptr elements bytes partition 0 kGlobalMemToComputeRatio 1 1%nat attrs ∅). by vm_compute. Defined.

(** A value that has been cloned for a task is still moved to it: the sum of the task "b" takes the
    operand of the task "a", of which the task "b" has a clone. *)
Lemma cloned_operand_still_moved : exists st, run = OK (true, st) /\
  origin st (inr 1%nat) = OK 2%nat /\ Color (attributes st) (inr 1%nat) = Some "b" /\
  operands_of st (inl 4%nat) = [inl 2; inl 2]%nat /\ Color (attributes st) (inl 4%nat) = Some "b" /\ Color (attributes st) (inl 2%nat) = Some "a".
Proof. destruct run_result as (st & Hrun & H1 & H2). exists st. tauto. Qed.
