(* ===== verification/LogicalSharding.v ===== *)
(** * From logical axes to GSPMD shardings (mpmd_logical_to_gspmd_sharding.h/.cc)

    An instruction has names of logical axes for its dimensions, and the task options of its
    color map logical axes to axes of the device mesh.  The pass gives the instruction the
    sharding that this mapping describes, and shares it with what the instruction is an alias of.
    The shardings of the instructions are a map, in which an instruction without one is missing.

    The theorems: the device axes that are chosen for the dimensions of an instruction are used
    once and are the ones that the task options name; the sharding divides the shape, and puts on
    every device the tile of its position in the mesh.  The pass ends and only adds shardings. *)
From S2P Require Import Prelude Hlo Json Instruction Partition Sharding ShardingIndex ShardingProperties InstructionProperties ColorPasses ColorPassesFacts.
Local Open Scope Z_scope.

Section logical_sharding.
Context {I C St D HS J : Type} `{EqDecision I, !Countable I, EqDecision C} `{!Hlo I C, !AttrStore I St, !JsonApi J}.
Context `{EqDecision D, !Countable D, !DeviceListApi D} `{!HloShardingApi HS}.
(** The dimensions of the shape of an instruction. *)
Context (shape : I -> list Z) (partition_ : HloPartition D).
Implicit Types (i : I) (c : C) (context : TaskOptions) (names : LogicalShardingAxes).

(** ** Choosing device axes *)

Record Mapping := MkMapping {
  logical_to_device_axes : list (list Z);
  device_axes_used : list Z;
  sharding_on_axis : list Z;
}.
Implicit Types (m : Mapping).

(** The loop over the axes of the mesh. *)
Definition find_device_axis context (device_ax : string) : Result Z :=
  match list_find (fun ax => ax = device_ax) (to_axes context) with
  | Some (device_axis_index, _) => OK (Z.of_nat device_axis_index)
  | None => Err kInvalidArgument "unknown device axis in autosharding"
  end.

(** The size on an axis is an [int]. *)
Definition map_axis context i (device_ax : string) (logical_axis_index : Z) m : Result Mapping :=
  device_axis_index ← find_device_axis context device_ax;
  sharding ← vec_at (sharding_on_axis m) logical_axis_index;
  size ← vec_at (to_dims context) device_axis_index;
  let total_sharding_on_axis := to_int32 (sharding * size) in
  dimension ← vec_at (shape i) logical_axis_index;
  if bool_decide (total_sharding_on_axis <= dimension) && negb (bool_decide (device_axis_index ∈ device_axes_used m)) then
    axes ← vec_at (logical_to_device_axes m) logical_axis_index;
    logical ← vec_set (logical_to_device_axes m) logical_axis_index (axes ++ [device_axis_index]);
    sizes ← vec_set (sharding_on_axis m) logical_axis_index total_sharding_on_axis;
    OK (MkMapping logical (device_axis_index :: device_axes_used m) sizes)
  else OK m.

(** The loop over the names of an axis ends at the first that matches. *)
Definition visit_axis context i (logical_ax device_ax : string) m (axis : Z * list string) : Result Mapping :=
  if bool_decide (logical_ax ∈ axis.2) then map_axis context i device_ax axis.1 m else OK m.

Definition visit_logical_axis context i names m (entry : string * string) : Result Mapping :=
  foldM (visit_axis context i entry.1 entry.2) m (zip (seqZ 0 (Zlength names)) names).

Definition no_mapping names : Mapping := MkMapping (replicate (length names) []) [] (replicate (length names) 1).
Definition map_axes context i names : Result Mapping :=
  foldM (visit_logical_axis context i names) (no_mapping names) (to_logical_axes context).

(** ** The sharding *)

Definition dim_product (dims : list Z) : Z := foldl Z.mul 1 dims.

Definition check_dimension (os : OpSharding) i (_ : unit) (dim : Z) : Result unit :=
  size ← vec_at (shape i) dim;
  tiles ← vec_at (os_tile_assignment_dimensions os) dim;
  rest ← cmod size tiles;
  if bool_decide (rest <> 0) then
    _ ← (FromProto os : Result HS);
    Err kInvalidArgument "does not evenly divide shape"
  else OK tt.

Definition LogicalShardingToOpSharding i (sharding_devices : D) context names : Result OpSharding :=
  m ← map_axes context i names;
  let list_all_devices := bool_decide (Zlength (to_devices context) < dl_size (devices_ partition_)) in
  op_sharding ← LogicalToPhysicalSharding (logical_to_device_axes m) sharding_devices (to_dims context) list_all_devices;
  if bool_decide (os_tile_assignment_devices op_sharding <> []) &&
     bool_decide (Zlength (os_tile_assignment_devices op_sharding) <> dim_product (to_dims context))
  then Err kInvalidArgument "devices in sharding, but dim product is"
  else if bool_decide (os_type op_sharding = OTHER) then
    _ ← foldM (check_dimension op_sharding i) tt (seqZ 0 (Zlength (shape i)));
    OK op_sharding
  else OK op_sharding.

(** ** The pass *)

Definition num_devices_of (s : St) i : Result Z :=
  d ← DevicesForInstruction partition_ s i; OK (dl_size d).

Definition share_sharding (s : St) (hs : HS) (shardings : gmap I HS) i : Result (gmap I HS) :=
  if bool_decide (is_Some (shardings !! i)) then OK shardings
  else
    num_devices ← num_devices_of s i;
    OK (if bool_decide (num_devices = ta_num_elements hs) then <[i := hs]> shardings else shardings).

Definition ApplySharding (es : gmap I (Entry I)) (s : St) i (shardings : gmap I HS) : Result (bool * gmap I HS) :=
  if bool_decide (is_Some (shardings !! i)) then OK (false, shardings)
  else
    axes ← GetAxes (J := J) s i;
    match axes, Color s i with
    | Some names, Some color =>
        context ← GetTaskOptions partition_ color;
        if bool_decide (to_logical_axes context <> []) then
          devices ← DevicesForColor partition_ color;
          op_sharding ← LogicalShardingToOpSharding i devices context names;
          hlo_sharding ← FromProto op_sharding;
          aliases ← ForEachBackwardAlias es i;
          shardings ← foldM (share_sharding s hlo_sharding) (<[i := hlo_sharding]> shardings) aliases;
          OK (true, shardings)
        else OK (false, shardings)
    | _, _ => OK (false, shardings)
    end.

Definition is_mapped (entry c : C) i : bool :=
  match opcode i with
  | kGetTupleElement | kTuple | kConstant | kWhile | kCall => false
  | kParameter => negb (bool_decide (c = entry))
  | _ => true
  end.

Definition visit_instruction (es : gmap I (Entry I)) (s : St) (entry c : C)
    (acc : bool * gmap I HS * list C) i : Result (bool * gmap I HS * list C) :=
  let '(changed, shardings, bodies) := acc in
  match opcode i with
  | kWhile | kCall => body ← called_computation i 0; OK (changed, shardings, bodies ++ [body])
  | _ =>
      if is_mapped entry c i then
        r ← ApplySharding es s i shardings;
        OK (changed || r.1, r.2, bodies)
      else OK acc
  end.

Definition visit_computation (es : gmap I (Entry I)) (s : St) (entry : C) (acc : bool * gmap I HS) (c : C)
    : Result (bool * gmap I HS * list C) :=
  foldM (visit_instruction es s entry c) (acc, []) (MakeInstructionPostOrder c).

(** The visits of the computations, given the properties of their instructions. *)
Definition MapShardings (visits : nat) (es : gmap I (Entry I)) (s : St) (entry : C) (shardings : gmap I HS) : Result (bool * gmap I HS) :=
  visit_all (visit_computation es s entry) visits (false, shardings) [entry].

(** The fuel is for the properties and for the computations. *)
Definition Run (dealias_fuel fuel visits : nat) (entry : C) (s : St) (shardings : gmap I HS) : Result (bool * gmap I HS) :=
  es ← CreateProperties dealias_fuel fuel entry;
  MapShardings visits es s entry shardings.
End logical_sharding.

(** ** Products of axes *)

Lemma axes_fit axes dims : positive dims -> NoDup axes -> Forall (fun a => 0 <= a < Zlength dims) axes ->
  0 < prod (gather axes dims) <= prod dims.
Proof.
  intros Hpos Hnd Hr. assert (valid_axes [axes] (Zlength dims)) as Hv by (split; cbn; by rewrite app_nil_r).
  pose proof (axes_permutation _ _ Hv) as Hperm. unfold sorted_axes, is_perm in Hperm. cbn in Hperm. rewrite app_nil_r, merge_sort_Permutation in Hperm.
  set (rest := unused_axes [axes] (Zlength dims)) in Hperm.
  pose proof (gather_perm (axes ++ rest) (Zlength dims) dims Hperm eq_refl) as Hg. rewrite gather_app in Hg.
  assert (forall l : list Z, l ⊆ axes ++ rest -> positive (gather l dims)) as Hposg.
  { intros l Hl. unfold gather. apply Forall_fmap, Forall_forall. intros a Ha. cbn. rewrite Forall_forall in Hpos. apply Hpos.
    assert (a ∈ seqZ 0 (Zlength dims)) as Hin%elem_of_seqZ by (rewrite <- Hperm; by apply Hl).
    destruct (lookup_lt_is_Some_2 dims (Z.to_nat a)) as [x Hx]; [unfold Zlength in Hin; lia|].
    erewrite nth_lookup_Some by exact Hx. by eapply list_elem_of_lookup_2. }
  rewrite <- (prod_Permutation _ _ Hg), prod_app.
  assert (0 < prod (gather axes dims)) by (apply prod_pos, Hposg; set_solver).
  assert (0 < prod (gather rest dims)) by (apply prod_pos, Hposg; set_solver). nia.
Qed.

Lemma valid_axes_lookup l n k x : valid_axes l n -> l !! k = Some x -> NoDup x /\ Forall (fun a => 0 <= a < n) x.
Proof.
  intros [Hnd Hr] Hk. split.
  - revert k Hk. induction l as [|y l IH]; intros [|k]; cbn in *; [done|done|..]; apply NoDup_app in Hnd as (H1 & _ & H2); [by intros [= ->]|].
    apply Forall_app in Hr as [_ Hr]. by apply IH.
  - rewrite Forall_forall in Hr |- *. intros a Ha. apply Hr. by eapply concat_lookup.
Qed.

Lemma valid_axes_insert l n k x a : valid_axes l n -> l !! k = Some x -> a ∉ concat l -> 0 <= a < n -> valid_axes (<[k := x ++ [a]]> l) n.
Proof. intros [Hnd Hr] Hk Ha Hn. split; rewrite (concat_insert _ _ _ _ Hk); by constructor. Qed.

Section facts.
Context {I C St D HS J : Type} `{EqDecision I, !Countable I, EqDecision C} `{!Hlo I C, !AttrStore I St, !JsonApi J, !AcyclicLaws I C}.
Context `{EqDecision D, !Countable D, !DeviceListApi D} `{!HloShardingApi HS}.
Context (shape : I -> list Z) (partition_ : HloPartition D).
Implicit Types (i : I) (c : C) (context : TaskOptions) (names : LogicalShardingAxes) (m : Mapping).

(** ** The chosen axes *)
Section mapping.
Context (context : TaskOptions) (i : I) (names : LogicalShardingAxes).
Abbreviation dims := (to_dims context).
Abbreviation chosen := logical_to_device_axes.

(** The axis [a] of the mesh has the name that an entry gives to the axis [k] of the shape. *)
Definition names_axis (entry : string * string) (k : nat) : Prop :=
  entry ∈ to_logical_axes context /\ exists ns, names !! k = Some ns /\ entry.1 ∈ ns.

Record mapping_ok m : Prop := {
  mp_length : length (chosen m) = length names /\ length (sharding_on_axis m) = length names;
  mp_used : forall a, a ∈ device_axes_used m <-> a ∈ concat (chosen m);
  mp_valid : valid_axes (chosen m) (Zlength dims);
  mp_named : forall k axes a, chosen m !! k = Some axes -> a ∈ axes ->
    exists entry, names_axis entry k /\ to_axes context !! Z.to_nat a = Some entry.2;
  mp_sizes : positive dims -> prod dims < 2 ^ 31 -> forall k axes, chosen m !! k = Some axes ->
    sharding_on_axis m !! k = Some (prod (gather axes dims));
}.

(** The first axis of the mesh with the name of the entry is used, or does not fit on the dimension. *)
Definition placed (entry : string * string) (k : nat) m : Prop :=
  exists a, to_axes context !! Z.to_nat a = Some entry.2 /\ 0 <= a < Zlength dims /\
    (a ∈ concat (chosen m) \/
     exists axes n, chosen m !! k = Some axes /\ shape i !! k = Some n /\ n < prod (gather (axes ++ [a]) dims)).

Definition extends m m' : Prop := forall k axes, chosen m !! k = Some axes ->
  exists more, chosen m' !! k = Some (axes ++ more).

Lemma no_mapping_ok : mapping_ok (no_mapping names).
Proof.
  assert (concat (replicate (length names) []) = ([] : list Z)) as Hnil by (generalize (length names); intros n; by induction n).
  split; unfold no_mapping; cbn.
  - by rewrite !length_replicate.
  - intros a. by rewrite Hnil.
  - split; rewrite Hnil; constructor.
  - intros k axes a [-> _]%lookup_replicate. by intros ?%elem_of_nil.
  - intros _ _ k axes [-> Hk]%lookup_replicate. apply lookup_replicate. done.
Qed.

Lemma extends_refl m : extends m m.
Proof. intros k axes Hk. exists []. by rewrite app_nil_r. Qed.

Lemma extends_trans m1 m2 m3 : extends m1 m2 -> extends m2 m3 -> extends m1 m3.
Proof. intros H1 H2 k axes (more & Hk)%H1. apply H2 in Hk as (more' & Hk). exists (more ++ more'). by rewrite app_assoc. Qed.

(** An axis that does not fit does not fit later. *)
Lemma placed_extends entry k m m' : positive dims -> mapping_ok m' -> extends m m' -> placed entry k m -> placed entry k m'.
Proof.
  intros Hpos Hok Hg (a & Ha & [Hr0 Hr1] & Hp). exists a. split_and!; [done..|]. destruct Hp as [Hin|(axes & n & Hk & Hn & Hlt)].
  - left. apply list_elem_of_In, in_concat in Hin as (x & Hx & Hax). apply list_elem_of_In, list_elem_of_lookup in Hx as [k' Hk'].
    apply Hg in Hk' as (more & Hk'). eapply concat_lookup; [exact Hk'|]. apply elem_of_app. left. by apply list_elem_of_In.
  - right. apply Hg in Hk as (more & Hk). exists (axes ++ more), n. split_and!; [done..|].
    destruct (valid_axes_lookup _ _ _ _ (mp_valid _ Hok) Hk) as [Hnd Hrange]. apply NoDup_app in Hnd as (Hnd1 & _ & Hnd2).
    apply Forall_app in Hrange as [Hrange1 Hrange2]. pose proof (axes_fit axes dims Hpos Hnd1 Hrange1). pose proof (axes_fit more dims Hpos Hnd2 Hrange2).
    assert (0 < prod (gather [a] dims)) by (apply axes_fit; [done|apply NoDup_singleton|constructor; [lia|constructor]]).
    rewrite !gather_app, !prod_app in *. nia.
Qed.

(** The axis joins the ones of the dimension, if it is not used and fits. *)
Lemma add_axis_ok entry k m axes a size : mapping_ok m -> names_axis entry k -> chosen m !! k = Some axes -> a ∉ concat (chosen m) ->
  0 <= a < Zlength dims -> to_axes context !! Z.to_nat a = Some entry.2 ->
  (positive dims -> prod dims < 2 ^ 31 -> size = prod (gather (axes ++ [a]) dims)) ->
  mapping_ok (MkMapping (<[k := axes ++ [a]]> (chosen m)) (a :: device_axes_used m) (<[k := size]> (sharding_on_axis m))).
Proof.
  intros [[Hl1 Hl2] Hu Hv Hn Hs] Hentry Hk Ha Hr Hax Hsize. split; cbn.
  - by rewrite !length_insert.
  - intros b. rewrite elem_of_cons, Hu, (concat_insert _ _ _ _ Hk), elem_of_cons. done.
  - by apply valid_axes_insert.
  - intros k' x b. rewrite list_lookup_insert_Some. intros [(<- & <- & _)|[_ Hx]]; [|by apply Hn].
    intros [Hb|Hb]%elem_of_app; [by eapply Hn|]. apply list_elem_of_singleton in Hb as ->. by exists entry.
  - intros Hpos Hlt k' x. rewrite list_lookup_insert_Some. intros [(<- & <- & Hlen)|[Hne Hx]].
    + rewrite list_lookup_insert_eq by lia. by rewrite Hsize.
    + rewrite list_lookup_insert_ne by done. by apply Hs.
Qed.

Lemma map_axis_ok entry k m m' : mapping_ok m -> names_axis entry k ->
  map_axis shape context i entry.2 (Z.of_nat k) m = OK m' ->
  mapping_ok m' /\ extends m m' /\ (positive dims -> prod dims < 2 ^ 31 -> placed entry k m').
Proof.
  intros Hok Hentry. pose proof Hok as [[Hl1 Hl2] Hu Hv Hn Hs]. unfold map_axis, find_device_axis.
  destruct (list_find _ _) as [[a x]|] eqn:Hfind; [|done]. apply list_find_Some in Hfind as (Hax & -> & _). cbn [mbind Result_bind].
  intros (size & [_ Hsize]%vec_at_lookup & Hrun)%Result_bind_OK. apply Result_bind_OK in Hrun as (dsize & [_ Hdsize]%vec_at_lookup & Hrun).
  apply Result_bind_OK in Hrun as (n & [_ Hdim]%vec_at_lookup & Hrun). rewrite !Nat2Z.id in *.
  assert (0 <= Z.of_nat a < Zlength dims) as Har by (apply lookup_lt_Some in Hdsize; unfold Zlength; lia).
  assert (is_Some (chosen m !! k)) as [axes Hk] by (apply lookup_lt_is_Some; apply lookup_lt_Some in Hsize; lia).
  rewrite <- (Nat2Z.id a) in Hax. set (z := Z.of_nat a) in *.
  assert (z ∉ concat (chosen m) -> positive dims -> prod dims < 2 ^ 31 -> to_int32 (size * dsize) = prod (gather (axes ++ [z]) dims)) as Htotal.
  { intros Hna Hpos Hlt. destruct (valid_axes_lookup _ _ k (axes ++ [z]) (valid_axes_insert _ _ _ _ _ Hv Hk Hna Har)) as [H1 H2].
    { apply list_lookup_insert_eq. by eapply lookup_lt_Some. }
    pose proof (axes_fit _ _ Hpos H1 H2) as Hfit. assert (size = prod (gather axes dims)) as -> by (specialize (Hs Hpos Hlt k axes Hk); congruence).
    assert (prod (gather (axes ++ [z]) dims) = prod (gather axes dims) * dsize) as Heq.
    { rewrite gather_app, prod_app. cbn. unfold z. rewrite Nat2Z.id, (nth_lookup_Some _ _ _ _ Hdsize). lia. }
    rewrite Heq in Hfit |- *. apply to_int32_id. lia. }
  destruct (bool_decide (z ∈ device_axes_used m)) eqn:Hused.
  - apply bool_decide_eq_true in Hused. rewrite andb_false_r in Hrun. injection Hrun as <-. split_and!; [done|apply extends_refl|].
    intros _ _. exists z. split_and!; [done|lia|lia|]. left. by apply Hu.
  - apply bool_decide_eq_false in Hused. assert (z ∉ concat (chosen m)) as Hna by (by rewrite <- Hu). rewrite andb_true_r in Hrun.
    case_bool_decide as Hfits.
    + apply Result_bind_OK in Hrun as (axes' & [_ Hk']%vec_at_lookup & Hrun). rewrite Nat2Z.id, Hk in Hk'. injection Hk' as <-.
      unfold vec_set in Hrun. rewrite !bool_decide_eq_true_2, !Nat2Z.id in Hrun by (apply lookup_lt_Some in Hk; lia). injection Hrun as <-.
      split_and!.
      * apply (add_axis_ok entry); [done..|]. by apply Htotal.
      * intros k' x Hx. cbn. destruct (decide (k = k')) as [<-|Hne]; [|exists []; by rewrite list_lookup_insert_ne, app_nil_r].
        exists [z]. rewrite list_lookup_insert_eq by (by eapply lookup_lt_Some). congruence.
      * intros _ _. exists z. split_and!; [done|lia|lia|]. left. cbn. rewrite (concat_insert _ _ _ _ Hk). by left.
    + injection Hrun as <-. split_and!; [done|apply extends_refl|]. intros Hpos Hlt. exists z. split_and!; [done|lia|lia|]. right.
      exists axes, n. split_and!; [done..|]. rewrite <- Htotal by done. lia.
Qed.
Lemma axis_index axis : axis ∈ zip (seqZ 0 (Zlength names)) names -> exists k, axis.1 = Z.of_nat k /\ names !! k = Some axis.2.
Proof.
  intros [k Hk]%list_elem_of_lookup. apply lookup_zip_with_Some in Hk as (z & ns & -> & Hz & Hns). exists k. split; [|done].
  apply lookup_seqZ in Hz as [-> _]. cbn. lia.
Qed.

Lemma index_axis k ns : names !! k = Some ns -> (Z.of_nat k, ns) ∈ zip (seqZ 0 (Zlength names)) names.
Proof.
  intros Hk. apply (list_elem_of_lookup_2 _ k), lookup_zip_with_Some. exists (Z.of_nat k), ns. split_and!; [done| |done].
  rewrite lookup_seqZ_lt; [done|]. apply lookup_lt_Some in Hk. unfold Zlength. lia.
Qed.

(** A result of a part of the loop for some entries and axes. *)
Definition mapped m (ps : list (string * string * (Z * list string))) m' : Prop :=
  mapping_ok m' /\ extends m m' /\
  (positive dims -> prod dims < 2 ^ 31 -> forall entry k ns, (entry, (Z.of_nat k, ns)) ∈ ps -> entry.1 ∈ ns -> placed entry k m').

Lemma mapped_step m ps m1 entry axis m2 : entry ∈ to_logical_axes context -> axis ∈ zip (seqZ 0 (Zlength names)) names ->
  mapped m ps m1 -> visit_axis shape context i entry.1 entry.2 m1 axis = OK m2 -> mapped m (ps ++ [(entry, axis)]) m2.
Proof.
  intros Hentry (k & Hk & Hns)%axis_index (Hok & Hg & Hp) Hrun. destruct axis as [z ns]. cbn in Hk, Hns. subst z.
  assert (mapping_ok m2 /\ extends m1 m2 /\ (positive dims -> prod dims < 2 ^ 31 -> entry.1 ∈ ns -> placed entry k m2)) as (Hok2 & Hg2 & Hp2).
  { unfold visit_axis in Hrun. cbn in Hrun. case_bool_decide as Hin.
    - apply map_axis_ok in Hrun as (H1 & H2 & H3); [by auto|done|]. split; [done|by exists ns].
    - injection Hrun as <-. split_and!; [done|apply extends_refl|done]. }
  split_and!; [done|by eapply extends_trans|]. intros Hpos Hlt entry' k' ns' [Hin|Hin]%elem_of_app Hname.
  - apply (placed_extends _ _ m1); [done..|]. by apply (Hp Hpos Hlt entry' k' ns').
  - apply list_elem_of_singleton in Hin. injection Hin as -> Hkk ->. apply Nat2Z.inj in Hkk as ->. by apply Hp2.
Qed.

Lemma map_axes_ok m : map_axes shape context i names = OK m ->
  mapping_ok m /\ (positive dims -> prod dims < 2 ^ 31 -> forall entry k, names_axis entry k -> placed entry k m).
Proof.
  set (axes := zip (seqZ 0 (Zlength names)) names). intros Hrun.
  apply (foldM_inv (fun entries m => mapped (no_mapping names) (entries ≫= (fun e => (fun a => (e, a)) <$> axes)) m)) in Hrun.
  - destruct Hrun as (Hok & _ & Hp). split; [done|]. intros Hpos Hlt entry k [Hentry (ns & Hns & Hname)]. apply (Hp Hpos Hlt entry k ns); [|done].
    apply list_elem_of_bind. exists entry. split; [|done]. apply list_elem_of_fmap. exists (Z.of_nat k, ns). split; [done|]. by apply index_axis.
  - split_and!; [apply no_mapping_ok|apply extends_refl|]. intros _ _ entry k ns []%elem_of_nil.
  - intros done_ entry rest m1 m2 Heq Hm1 Hrun2. rewrite bind_app. cbn. rewrite app_nil_r.
    apply (foldM_inv (fun seen m => mapped (no_mapping names) ((done_ ≫= (fun e => (fun a => (e, a)) <$> axes)) ++ ((fun a => (entry, a)) <$> seen)) m)) in Hrun2.
    + done.
    + cbn. by rewrite app_nil_r.
    + intros seen axis more m3 m4 Heq2 Hm3 Hstep. rewrite fmap_app, app_assoc. eapply mapped_step; [| |exact Hm3|exact Hstep].
      * rewrite Heq. set_solver.
      * rewrite Heq2. set_solver.
Qed.
End mapping.

(** ** The sharding of an instruction *)

Lemma check_dimensions_divide (os : OpSharding) i n : foldM (check_dimension (HS := HS) shape os i) tt (seqZ 0 (Zlength (shape i))) = OK n ->
  forall k size, shape i !! k = Some size -> exists t, os_tile_assignment_dimensions os !! k = Some t /\ (t | size).
Proof.
  intros Hrun. assert (forall z, z ∈ seqZ 0 (Zlength (shape i)) ->
    exists x t, shape i !! Z.to_nat z = Some x /\ os_tile_assignment_dimensions os !! Z.to_nat z = Some t /\ (t | x)) as Hall.
  { revert Hrun. apply (foldM_inv (fun done_ _ => forall z, z ∈ done_ ->
      exists x t, shape i !! Z.to_nat z = Some x /\ os_tile_assignment_dimensions os !! Z.to_nat z = Some t /\ (t | x))); [by intros z ?%elem_of_nil|].
    intros done_ z rest [] [] _ IH Hz z' [Hin|Hin]%elem_of_app; [by apply IH|]. apply list_elem_of_singleton in Hin as ->.
    unfold check_dimension in Hz. apply Result_bind_OK in Hz as (x & [_ Hx]%vec_at_lookup & Hz).
    apply Result_bind_OK in Hz as (t & [_ Ht]%vec_at_lookup & Hz). apply Result_bind_OK in Hz as (r & [Hne ->]%cmod_OK & Hz).
    case_bool_decide as Hr; [by apply Result_bind_OK in Hz as (? & _ & Hz)|]. exists x, t. split_and!; [done..|].
    apply Z.rem_divide; [done|]. by destruct (decide (Z.rem x t = 0)). }
  intros k size Hk. destruct (Hall (Z.of_nat k)) as (x & t & Hx & Ht & Hd).
  - apply elem_of_seqZ. apply lookup_lt_Some in Hk. unfold Zlength. lia.
  - rewrite Nat2Z.id in Hx, Ht. exists t. split; [done|]. congruence.
Qed.

(** C17: The sharding that an instruction gets for the names of its axes: the device axes of each dimension are
    ones that the task options name for it, and no device axis is used twice; an axis that is named is used,
    unless the dimension is too small for one more axis.  If the instruction is not replicated, its tiles divide its shape, and the
    device at each position of the mesh holds the tile of that position. *)
Theorem LogicalShardingToOpSharding_describes `{tiles : !IotaTiles} i devices context names os : positive (to_dims context) ->
  LogicalShardingToOpSharding (HS := HS) shape partition_ i devices context names = OK os ->
  exists chosen, length chosen = length names /\ valid_axes chosen (Zlength (to_dims context)) /\
    (forall k axes a, chosen !! k = Some axes -> a ∈ axes ->
      exists entry, names_axis context names entry k /\ to_axes context !! Z.to_nat a = Some entry.2) /\
    (prod (to_dims context) < 2 ^ 31 -> forall entry k, names_axis context names entry k ->
      exists a, to_axes context !! Z.to_nat a = Some entry.2 /\ 0 <= a < Zlength (to_dims context) /\
        (a ∈ concat chosen \/ exists axes n, chosen !! k = Some axes /\ shape i !! k = Some n /\ n < prod (gather (axes ++ [a]) (to_dims context)))) /\
    (os_type os <> REPLICATED ->
      os_tile_assignment_dimensions os = logical_tile_dims chosen (to_dims context) /\
      (forall k n, shape i !! k = Some n -> exists t, os_tile_assignment_dimensions os !! k = Some t /\ (t | n)) /\
      forall d, in_bounds (to_dims context) d ->
        in_bounds (os_tile_assignment_dimensions os) (logical_tile chosen (to_dims context) d) /\
        device_of os (logical_tile chosen (to_dims context) d) = dl_at devices 0 + lin (to_dims context) d).
Proof.
  intros Hpos. unfold LogicalShardingToOpSharding. intros (m & [Hok Hplaced]%map_axes_ok & Hrun)%Result_bind_OK.
  pose proof Hok as [[Hlen _] _ Hv Hnamed _]. apply Result_bind_OK in Hrun as (os' & Hos & Hrun).
  exists (logical_to_device_axes m). split; [done|]. split; [done|]. split; [done|]. split; [by apply Hplaced|].
  intros Hrep. rewrite LogicalToPhysicalSharding_eq in Hos by done.
  revert Hrun. destruct (bool_decide (_ <> []) && _); [done|]. destruct (bool_decide (os_type _ = OTHER)) eqn:Hother; intros Hrun.
  - apply Result_bind_OK in Hrun as (n & Hn & [= <-]). destruct (_ || _); injection Hos as <-; [done|].
    split; [done|]. split; [by apply (check_dimensions_divide _ i n)|]. intros d Hd. by apply logical_proto_places.
  - injection Hrun as <-. destruct (_ || _); injection Hos as <-; done.
Qed.

(** ** The pass *)

Definition called_body i : option C :=
  match opcode i with
  | kWhile | kCall => match called_computation i 0 with OK b => Some b | _ => None end
  | _ => None
  end.
Definition called_bodies c : list C := omap called_body (MakeInstructionPostOrder c).
Definition calls c b : Prop := b ∈ called_bodies c.

Lemma called_bodies_rank c b : b ∈ called_bodies c -> (call_rank b < call_rank c)%nat.
Proof.
  intros (i & Hi & Hb)%list_elem_of_omap. apply (call_rank_lt c i); [done|]. unfold called_body in Hb.
  assert (called_computation i 0 = OK b) as Hc by (destruct (opcode i); try done; destruct (called_computation i 0); try done; by injection Hb as ->).
  apply vec_at_lookup in Hc as [_ Hc]. by eapply list_elem_of_lookup_2.
Qed.

Context (es : gmap I (Entry I)) (s : St).
Abbreviation apply_ := (ApplySharding (HS := HS) (J := J) shape partition_ es s).
Abbreviation visit_instr := (visit_instruction (HS := HS) (J := J) shape partition_ es s).
Abbreviation visit_comp := (visit_computation (HS := HS) (J := J) shape partition_ es s).
Implicit Types (sh : gmap I HS) (hs : HS).

(** The axes of an instruction and the task options of its color. *)
Definition axes_in_context i names color context : Prop :=
  GetAxes (J := J) s i = OK (Some names) /\ Color s i = Some color /\ GetTaskOptions partition_ color = OK context /\ to_logical_axes context <> [].

(** The sharding of an instruction is the one of its axes, or that of an instruction it is a backward alias of. *)
Definition own i hs : Prop := exists names color context devices os, axes_in_context i names color context /\
  DevicesForColor partition_ color = OK devices /\
  LogicalShardingToOpSharding (HS := HS) shape partition_ i devices context names = OK os /\ FromProto os = OK hs.
Definition shared i hs : Prop := exists j aliases, own j hs /\ ForEachBackwardAlias es j = OK aliases /\ i ∈ aliases /\
  num_devices_of partition_ s i = OK (ta_num_elements hs).

Record adds sh sh' : Prop := {
  ad_keeps : sh ⊆ sh';
  ad_new : forall i hs, sh' !! i = Some hs -> sh !! i = Some hs \/ own i hs \/ shared i hs;
}.

Lemma adds_refl sh : adds sh sh.
Proof. split; [done|]. by left. Qed.

Lemma adds_trans sh1 sh2 sh3 : adds sh1 sh2 -> adds sh2 sh3 -> adds sh1 sh3.
Proof. intros [H1 H2] [H3 H4]. split; [by etrans|]. intros i hs [Hi|Hi]%H4; [by apply H2|by right]. Qed.

Lemma adds_insert sh i hs : sh !! i = None -> own i hs \/ shared i hs -> adds sh (<[i := hs]> sh).
Proof.
  intros Hi Hown. split; [by apply insert_subseteq|]. intros j hs'. rewrite lookup_insert_Some. intros [[<- <-]|[_ Hj]]; [by right|by left].
Qed.

(** What is done for an instruction. *)
Definition handled i sh : Prop := (exists names color context, axes_in_context i names color context) -> is_Some (sh !! i).

Lemma handled_adds i sh sh' : adds sh sh' -> handled i sh -> handled i sh'.
Proof. intros [Hsub _] Hh H1. apply Hh in H1 as [hs Hhs]. exists hs. by eapply lookup_weaken. Qed.

Lemma ApplySharding_ok i sh changed sh' : apply_ i sh = OK (changed, sh') ->
  adds sh sh' /\ handled i sh' /\ (changed = false -> sh' = sh).
Proof.
  unfold ApplySharding. case_bool_decide as Hhas; [intros [= <- <-]; split_and!; [apply adds_refl|by intros _|done]|].
  assert ((forall names color context, ~ axes_in_context i names color context) -> adds sh sh /\ handled i sh /\ (changed = false -> sh = sh)) as Hno.
  { intros Hno. split_and!; [apply adds_refl| |done]. intros (names & color & context & Hctx). by apply Hno in Hctx. }
  intros (axes & Haxes & Hrun)%Result_bind_OK.
  destruct axes as [names|]; [|injection Hrun as <- <-; apply Hno; intros ? ? ? (H1 & _); congruence].
  destruct (Color s i) as [color|] eqn:Hcolor; [|injection Hrun as <- <-; apply Hno; intros ? ? ? (_ & H1 & _); congruence].
  apply Result_bind_OK in Hrun as (context & Hcontext & Hrun).
  case_bool_decide as Hlog; [|injection Hrun as <- <-; apply Hno; intros ? ? ? (_ & H1 & H2 & H3); congruence].
  apply Result_bind_OK in Hrun as (devices & Hdev & Hrun). apply Result_bind_OK in Hrun as (os & Hos & Hrun).
  apply Result_bind_OK in Hrun as (hs & Hhs & Hrun). apply Result_bind_OK in Hrun as (aliases & Hal & Hrun).
  apply Result_bind_OK in Hrun as (sh1 & Hfold & [= <- <-]).
  assert (own i hs) as Hown by (exists names, color, context, devices, os; by split_and!).
  assert (adds sh sh1) as Hadds.
  { eapply adds_trans; [apply (adds_insert sh i hs); [by apply eq_None_not_Some|by left]|].
    revert Hfold. apply (foldM_inv (fun _ sh1 => adds (<[i := hs]> sh) sh1)); [apply adds_refl|].
    intros done_ j rest sh2 sh3 Heq H2. unfold share_sharding. case_bool_decide as Hj; [by intros [= <-]|].
    intros (n & Hn & [= <-])%Result_bind_OK. case_bool_decide as Hnum; [|done]. eapply adds_trans; [exact H2|].
    apply adds_insert; [by apply eq_None_not_Some|]. right. exists i, aliases. split_and!; [done..|rewrite Heq; set_solver|by subst]. }
  split_and!; [done| |done]. intros _. exists hs. eapply lookup_weaken; [apply lookup_insert_eq|].
  revert Hfold. apply (foldM_inv (fun _ sh1 => <[i := hs]> sh ⊆ sh1)); [done|].
  intros done_ j rest sh2 sh3 _ H2. unfold share_sharding. case_bool_decide as Hj; [by intros [= <-]|].
  intros (n & _ & [= <-])%Result_bind_OK. case_bool_decide; [|done]. etrans; [exact H2|]. apply insert_subseteq. by apply eq_None_not_Some.
Qed.

(** A part of a pass: shardings are added, and a change is reported. *)
Definition part (a a' : bool * gmap I HS) : Prop := adds a.2 a'.2 /\ (a'.1 = false -> a' = a).

Lemma part_refl a : part a a.
Proof. split; [apply adds_refl|done]. Qed.

Lemma part_trans a1 a2 a3 : part a1 a2 -> part a2 a3 -> part a1 a3.
Proof. intros [H1 H2] [H3 H4]. split; [by eapply adds_trans|]. intros Hf. specialize (H4 Hf) as ->. by apply H2. Qed.

Lemma map_instruction_ok entry c a bodies i a' bodies' : visit_instr entry c (a, bodies) i = OK (a', bodies') ->
  part a a' /\ bodies' = bodies ++ omap called_body [i] /\ (is_mapped entry c i = true -> handled i a'.2).
Proof.
  destruct a as [changed sh]. unfold visit_instruction. cbn [omap list_omap].
  destruct (decide (opcode i = kWhile \/ opcode i = kCall)) as [Hcall|Hno].
  - assert (forall X (x y : X), match opcode i with kWhile | kCall => x | _ => y end = x) as -> by (intros; by destruct Hcall as [-> | ->]).
    intros (b & Hb & [= <- <-])%Result_bind_OK. split_and!; [apply part_refl| |].
    + unfold called_body. rewrite Hb. by destruct Hcall as [-> | ->].
    + unfold is_mapped. by destruct Hcall as [-> | ->].
  - assert (forall X (x y : X), match opcode i with kWhile | kCall => x | _ => y end = y) as -> by (intros; destruct (opcode i); try done; naive_solver).
    assert (called_body i = None) as -> by (unfold called_body; destruct (opcode i); try done; naive_solver). rewrite app_nil_r.
    destruct (is_mapped entry c i); [|intros [= <- <-]; split_and!; [apply part_refl|done|done]].
    intros ([ch sh'] & (H1 & H2 & H3)%ApplySharding_ok & [= <- <-])%Result_bind_OK. split_and!; [|done|done].
    split; [done|]. cbn. intros [-> ->]%orb_false_iff. by rewrite H3.
Qed.

Lemma map_computation_ok entry a c a' bodies : visit_comp entry a c = OK (a', bodies) ->
  part a a' /\ bodies = called_bodies c /\ forall i, i ∈ MakeInstructionPostOrder c -> is_mapped entry c i = true -> handled i a'.2.
Proof.
  unfold visit_computation. intros Hrun.
  apply (foldM_inv (fun done_ (acc : bool * gmap I HS * list C) => part a acc.1 /\ acc.2 = omap called_body done_ /\
    forall i, i ∈ done_ -> is_mapped entry c i = true -> handled i acc.1.2)) in Hrun; [done| |].
  - split_and!; [apply part_refl|done|]. by intros i ?%elem_of_nil.
  - intros done_ i rest [a1 b1] [a2 b2] _ (H1 & Hb & H2) (H3 & H4 & H5)%map_instruction_ok. cbn in *. subst b1 b2. split_and!.
    + by eapply part_trans.
    + by rewrite omap_app.
    + intros j [Hj|Hj]%elem_of_app Hm.
      * eapply handled_adds; [apply H3|]. by apply H2.
      * apply list_elem_of_singleton in Hj as ->. by apply H5.
Qed.

Hypothesis (aliases_return : forall i, returns (ForEachBackwardAlias es i)) (from_proto_returns : forall os, returns (FromProto (HS := HS) os)).

Lemma returns_map_axes context i names : returns (map_axes shape context i names).
Proof.
  apply returns_foldM. intros m entry _. apply returns_foldM. intros m1 axis _. unfold visit_axis, map_axis, find_device_axis.
  case_bool_decide; [|done]. destruct (list_find _ _) as [[]|]; [|done]. cbn [mbind Result_bind].
  repeat (apply returns_bind; [apply returns_vec_at|intros ? _]). destruct (_ && _); [|done].
  apply returns_bind; [apply returns_vec_at|intros ? _]. repeat (apply returns_bind; [apply returns_vec_set|intros ? _]). done.
Qed.

Lemma returns_LogicalToPhysicalSharding logical devices dims b : returns (LogicalToPhysicalSharding (D := D) logical devices dims b).
Proof.
  unfold LogicalToPhysicalSharding. apply returns_bind.
  - apply returns_foldM. intros st axes _. apply returns_foldM. intros [used fr] dim _. apply returns_bind; [apply returns_vec_set|intros ? _].
    by apply returns_bind; [apply returns_vec_at|].
  - intros [used fr] _. destruct (_ || _); [done|]. apply returns_bind.
    + apply returns_foldM. intros [axes size] dim _. by repeat (apply returns_bind; [apply returns_vec_at|intros ? _]).
    + intros [axes size] _. apply returns_bind; [|done]. apply returns_foldM. intros l x _. apply returns_bind; [|done].
      apply returns_foldM. intros t ax _. by apply returns_bind; [apply returns_vec_at|].
Qed.

Lemma returns_LogicalShardingToOpSharding i devices context names :
  returns (LogicalShardingToOpSharding (HS := HS) shape partition_ i devices context names).
Proof.
  unfold LogicalShardingToOpSharding. apply returns_bind; [apply returns_map_axes|intros m _].
  apply returns_bind; [apply returns_LogicalToPhysicalSharding|intros os _]. destruct (_ && _); [done|]. case_bool_decide; [|done].
  apply returns_bind; [|done]. apply returns_foldM. intros u dim _. unfold check_dimension.
  repeat (apply returns_bind; [apply returns_vec_at|intros ? _]). apply returns_bind; [apply returns_cmod|intros r _].
  case_bool_decide; [|done]. by apply returns_bind.
Qed.

Lemma returns_ConfigForColor color : returns (ConfigForColor partition_ color).
Proof. unfold ConfigForColor. by destruct (colors_ partition_ !! color). Qed.

Lemma returns_ApplySharding i sh : returns (apply_ i sh).
Proof.
  unfold ApplySharding. case_bool_decide; [done|]. apply returns_bind.
  { apply returns_GetAxes. }
  intros [names|] _; [|done]. destruct (Color s i) as [color|]; [|done].
  apply returns_bind; [by apply returns_bind; [apply returns_ConfigForColor|]|intros context _]. case_bool_decide; [|done].
  apply returns_bind; [by apply returns_bind; [apply returns_ConfigForColor|]|intros devices _].
  apply returns_bind; [apply returns_LogicalShardingToOpSharding|intros os _]. apply returns_bind; [done|intros hs _].
  apply returns_bind; [done|intros aliases _]. apply returns_bind; [|done]. apply returns_foldM. intros sh1 j _.
  unfold share_sharding. case_bool_decide; [done|]. apply returns_bind; [|done]. unfold num_devices_of, DevicesForInstruction.
  apply returns_bind; [|done]. destruct (Color s j); [|done]. by apply returns_bind; [apply returns_ConfigForColor|].
Qed.

(** C18: The pass ends, and a sharding that it adds is the one of the instruction's own axes, or that of an instruction on
    the same number of devices that it is an alias of; no sharding is replaced.  In the end every instruction of the
    computations that are called has a sharding, if it is mapped and has axes and a color with logical axes.
    If the pass reports no change there is none. *)
Theorem MapShardings_maps n entry sh : (visits_of called_bodies entry <= n)%nat ->
  returns (MapShardings (J := J) shape partition_ n es s entry sh) /\
  forall changed sh', MapShardings (J := J) shape partition_ n es s entry sh = OK (changed, sh') ->
    adds sh sh' /\ (changed = false -> sh' = sh) /\
    forall c i, rtc calls entry c -> i ∈ MakeInstructionPostOrder c -> is_mapped entry c i = true ->
      (exists names color context, axes_in_context i names color context) -> is_Some (sh' !! i).
Proof.
  intros Hn. unfold MapShardings. split.
  - apply (visit_pushed_returns called_bodies called_bodies_rank _ (fun _ => True)).
    + intros a c _. apply returns_foldM. intros [[changed sh1] bodies] i _. unfold visit_instruction.
      assert (returns (body ← called_computation i 0; OK (changed, sh1, bodies ++ [body]))) by (by apply returns_bind; [apply returns_vec_at|]).
      destruct (opcode i); try done; (destruct (is_mapped entry c i); [|done]); (apply returns_bind; [apply returns_ApplySharding|done]).
    + done.
    + by repeat constructor.
    + intros a c a' bodies (_ & -> & _)%map_computation_ok. done.
    + change (visits_of called_bodies entry + 0 <= n)%nat. lia.
  - intros changed sh' Hrun. split_and!.
    + eapply (visit_all_inv _ (part (false, sh)) (fun _ => True)) in Hrun; [by apply Hrun| |apply part_refl|by repeat constructor].
      intros a c a' bodies H1 _ (H2 & _)%map_computation_ok. split; [by eapply part_trans|]. by apply Forall_forall.
    + eapply (visit_all_inv _ (part (false, sh)) (fun _ => True)) in Hrun; [| |apply part_refl|by repeat constructor].
      * intros ->. destruct Hrun as [_ Heq]. by injection (Heq eq_refl).
      * intros a c a' bodies H1 _ (H2 & _)%map_computation_ok. split; [by eapply part_trans|]. by apply Forall_forall.
    + intros c i Hc Hi Hm Hctx.
      refine (visit_pushed_covers called_bodies called_bodies_rank _ (fun c (a : bool * gmap I HS) =>
        forall i, i ∈ MakeInstructionPostOrder c -> is_mapped entry c i = true -> handled i a.2) _ _ _ _ _ Hrun entry c _ Hc i Hi Hm Hctx); [|by left].
      intros a c1 a' bodies (H1 & -> & H2)%map_computation_ok. split_and!; [done|done|]. intros c' H3 j Hj Hmj.
      eapply handled_adds; [apply H1|]. by apply H3.
Qed.
End facts.

(** ** A concrete module

    A copy of a negation has the axes "batch" and "model", which the color of the task maps to
    the axes of a mesh of 2 x 2 devices. *)
Module AxesSample.
Definition nodes : list Graph.node := [Graph.op kParameter []; Graph.op kNegate [0]; Graph.op kCopy [1]]%nat.
Definition comps : list Graph.comp := [Graph.dummy_comp; Graph.Comp 2 [0] [0; 1; 2]]%nat.
#[export] Instance hlo0 : Hlo nat nat := Graph.hlo nodes comps.
#[export] Instance acyclic0 : AcyclicLaws nat nat := Graph.acyclic_laws nodes comps eq_refl.

Definition options : TaskOptions :=
  Build_TaskOptions (Some "a") [0; 1; 2; 3] [2; 2] ["x"; "y"] [("model", "y"); ("batch", "x"); ("batch", "y")] None None.
Definition partition : HloPartition Slice.t := (AllocateColor_named (Create (Slice.mk 0 8)) "a" (Slice.mk 0 4) options).2.
Definition names : LogicalShardingAxes := [["batch"]; ["model"]].
Definition attrs : AttrMap.t := AssignAxes_axes (J := JsonTree.t) 2%nat names (AssignColor 1%nat "a" (AssignColor 2%nat "a" ∅)).
Definition shape (i : nat) : list Z := [8; 6].
(** The copy is an alias of the negation. *)
Definition entries : gmap nat (Entry nat) :=
  list_to_map [(0, default_entry); (1, default_entry); (2, set_backward_alias (Some 1) default_entry)]%nat.

Lemma entries_aliases i : returns (ForEachBackwardAlias entries i).
Proof.
  destruct (decide (i < 3)%nat) as [Hi|Hi]; [do 3 (destruct i as [|i]; [by vm_compute|]); lia|].
  assert (entries !! i = None) as Hnone by (apply not_elem_of_list_to_map_1; cbn; rewrite !not_elem_of_cons; split_and!; [lia..|apply not_elem_of_nil]).
  unfold ForEachBackwardAlias. cbn [alias_chain]. by rewrite Hnone.
Qed.
Lemma from_proto (os : OpSharding) : returns (FromProto os).
Proof.
  change (returns (if bool_decide (os_type os = REPLICATED) ||
      bool_decide (prod (os_tile_assignment_dimensions os) = Zlength (Tiles.message_devices os))
    then OK os else Err kInvalidArgument "the devices do not match the tile dimensions")).
  by case_match.
Qed.
Abbreviation sharding_of_copy := (LogicalShardingToOpSharding (HS := OpSharding) shape partition 2%nat (Slice.mk 0 4) options names).
Abbreviation mapped_shardings := (MapShardings (HS := OpSharding) (J := JsonTree.t) shape partition 1 entries attrs 1%nat ∅).
End AxesSample.
Import AxesSample.

Lemma LogicalShardingToOpSharding_describes_witness : exists os, sharding_of_copy = OK os /\ os_type os = OTHER /\
  exists chosen, length chosen = 2%nat /\ valid_axes chosen 2 /\
    (forall k n, shape 2%nat !! k = Some n -> exists t, os_tile_assignment_dimensions os !! k = Some t /\ (t | n)) /\
    forall d, in_bounds [2; 2] d -> device_of (tiles := inverse_tiles) os (logical_tile chosen [2; 2] d) = 0 + lin [2; 2] d.
Proof.
  eexists. split; [by vm_compute|]. split; [done|].
  destruct (LogicalShardingToOpSharding_describes (HS := OpSharding) shape partition (tiles := inverse_tiles) 2%nat (Slice.mk 0 4) options names
    (MkOpSharding OTHER [2; 2] [] [4] [0] 0 false)) as (chosen & H1 & H2 & _ & _ & H3).
  - by repeat constructor.
  - by vm_compute.
  - exists chosen. destruct (H3 ltac:(discriminate)) as (_ & H4 & H5).
    split; [exact H1|]. split; [exact H2|]. split; [exact H4|]. intros d Hd. exact (proj2 (H5 d Hd)).
Defined.

Lemma MapShardings_maps_witness : exists sh, mapped_shardings = OK (true, sh) /\ is_Some (sh !! 2%nat) /\ sh !! 1%nat = sh !! 2%nat.
Proof.
  assert (match mapped_shardings with OK (true, sh) => sh !! 1%nat = sh !! 2%nat | _ => False end) as Hrun by by vm_compute.
  destruct (MapShardings_maps (HS := OpSharding) (J := JsonTree.t) shape partition entries attrs entries_aliases
    from_proto 1 1%nat ∅) as [_ Hmap]; [by vm_compute|].
  destruct mapped_shardings as [[[|] sh]| |]; [|done..]. exists sh. split; [done|]. split; [|exact Hrun].
  destruct (Hmap true sh eq_refl) as (_ & _ & Hin). apply (Hin 1%nat 2%nat).
  - apply rtc_refl.
  - apply (list_elem_of_lookup_2 _ 2). by vm_compute.
  - by vm_compute.
  - exists names, "a", options. unfold axes_in_context. split; [by vm_compute|]. split; [by vm_compute|]. split; [by vm_compute|discriminate].
Defined.
