(* ===== verification/LogicalPropagation.v ===== *)
(** * Propagation of logical axes (mpmd_logical_sharding_propagation.h/.cc)

    Annotations with logical axes are moved to the instructions they annotate and to their
    aliases, and on to the elements of tuples that enter loops and barriers, to products and to
    aliased parameters and outputs.  The annotations that have been taken out of the graph are
    recorded with the instruction that their users take instead.

    The theorems: the axes of a product come from the dimensions that each of its dimensions has,
    no name is used twice, and no name of the right operand is lost; the pass ends, keeps the axes
    that are there, and takes out every annotation that it reaches. *)
From S2P Require Import Prelude Hlo Json Instruction Partition Sharding Utils InstructionProperties ColorPasses ColorPassesFacts.
Local Open Scope Z_scope.

(** [DotDimensionNumbers] *)
Record DotDims := MkDotDims {
  lhs_contracting_dimensions : list Z;
  rhs_contracting_dimensions : list Z;
  lhs_batch_dimensions : list Z;
  rhs_batch_dimensions : list Z;
}.

(** ** The axes of a product *)

Record DotAxes := MkDotAxes {
  dot_axes : LogicalShardingAxes;
  axes_already_assigned : list string;
}.

Definition add_axis_name (dot_dim : Z) (d : DotAxes) (axis_name : string) : Result DotAxes :=
  if bool_decide (axis_name ∈ axes_already_assigned d) then OK d
  else
    names ← vec_at (dot_axes d) dot_dim;
    axes ← vec_set (dot_axes d) dot_dim (names ++ [axis_name]);
    OK (MkDotAxes axes (axis_name :: axes_already_assigned d)).

Definition maybe_add_axes_at_dim (axes : LogicalShardingAxes) (dot_dim operand_dim : Z) (d : DotAxes) : Result DotAxes :=
  current ← vec_at (dot_axes d) dot_dim;
  if bool_decide (current = []) then
    names ← vec_at axes operand_dim;
    foldM (add_axis_name dot_dim) d names
  else OK d.

(** A loop over dimensions of an operand, with the dimension of the product. *)
Definition add_dim (axes : LogicalShardingAxes) (acc : Z * DotAxes) (dim : Z) : Result (Z * DotAxes) :=
  d ← maybe_add_axes_at_dim axes acc.1 dim acc.2; OK (acc.1 + 1, d).
Definition free_dims (rank : Z) (cxn_and_batch_dims : list Z) : list Z :=
  filter (fun dim => dim ∉ cxn_and_batch_dims) (seqZ 0 rank).

Definition add_rhs (nums : DotDims) (lhs_rank rhs_rank : Z) (rhs_axes : LogicalShardingAxes) (d : DotAxes) : Result DotAxes :=
  r ← foldM (add_dim rhs_axes) (0, d) (rhs_batch_dimensions nums);
  r ← foldM (add_dim rhs_axes) (lhs_rank - Zlength (lhs_contracting_dimensions nums), r.2)
        (free_dims rhs_rank (rhs_contracting_dimensions nums ++ rhs_batch_dimensions nums));
  OK r.2.

Definition add_lhs (nums : DotDims) (lhs_rank : Z) (lhs_axes : LogicalShardingAxes) (d : DotAxes) : Result DotAxes :=
  r ← foldM (add_dim lhs_axes) (0, d) (lhs_batch_dimensions nums);
  r ← foldM (add_dim lhs_axes) r (free_dims lhs_rank (lhs_contracting_dimensions nums ++ lhs_batch_dimensions nums));
  OK r.2.

Definition product_axes (nums : DotDims) (rank lhs_rank rhs_rank : Z) (lhs_axes rhs_axes : LogicalShardingAxes) : Result LogicalShardingAxes :=
  d ← add_rhs nums lhs_rank rhs_rank rhs_axes (MkDotAxes (replicate (Z.to_nat rank) []) []);
  d ← add_lhs nums lhs_rank lhs_axes d;
  OK (dot_axes d).

Section propagation.
Context {I C St J : Type} `{EqDecision I, !Countable I} `{!Hlo I C, !AttrStore I St, !JsonApi J}.
(** The rank of the shape, the dimensions of a product, the text of an annotation, and the
    aliases of outputs (their indices) and parameters (their numbers) of the module. *)
Context (rank : I -> Z) (dot_dimension_numbers : I -> DotDims) (raw_backend_config_string : I -> string).
Context (input_output_alias_config : list (list Z * Z)).
Implicit Types (i o : I) (c : C) (s : St).

(** ** The graph without the annotations *)

Record Propagating := MkPropagating {
  attributes : St;
  replaced : list (I * I);       (* by [ReplaceAllUsesWith], the last first; to be removed *)
}.
Implicit Types (p : Propagating).

Definition current p o : I :=
  match list_find (fun r => r.1 = o) (replaced p) with Some (_, r) => r.2 | None => o end.
Definition operands_now p i : list I := current p <$> operands i.
Definition users_now p i : list I :=
  if bool_decide (i ∈ (replaced p).*1) then []
  else remove_dups (users i ++ concat ((fun r => users r.1) <$> filter (fun r => r.2 = i) (reverse (replaced p)))).

Definition with_attributes s p : Propagating := MkPropagating s (replaced p).
Definition assign (axes : string) s i : St := AssignAxes i axes s.

(** ** The cases of the visit *)

Definition visit_annotation (es : gmap I (Entry I)) i p : Result Propagating :=
  operand ← vec_at (operands_now p i) 0;
  let axis_json := raw_backend_config_string i in
  let p := if bool_decide (i ∈ (replaced p).*1) then p else MkPropagating (attributes p) ((i, operand) :: replaced p) in
  aliases ← ForEachAlias es operand;
  let s := foldl (assign axis_json) (attributes p) aliases in
  instruction_props ← Get es i;
  let s := match elementwise_connected_to_entry_output instruction_props with
           | Some output => AssignAxes output axis_json s
           | None => s
           end in
  OK (with_attributes (AssignAxes operand axis_json s) p).

(** The loop over the operands of a call advances [instruction] instead of the index. *)
Definition visit_call i p : Result Propagating :=
  if bool_decide (operands i = []) then OK p else Fatal OutOfBounds.

Definition user_tuple (user : I) : Result (option I) :=
  if bool_decide (opcode user = kWhile) then
    body ← called_computation user 0;
    param ← vec_at (parameter_instructions body) 0;
    OK (Some param)
  else OK (if bool_decide (opcode user = kOptimizationBarrier) then Some user else None).

Definition tuple_user i p (user : I) : Result Propagating :=
  matching_operand ← vec_at (operands_now p i) (tuple_index user);
  OK (match GetAxesString (attributes p) matching_operand with
      | Some axes => with_attributes (AssignAxes user axes (attributes p)) p
      | None => p
      end).

Definition visit_tuple i p : Result Propagating :=
  match users_now p i with
  | [user] =>
      t ← user_tuple user;
      match t with
      | Some t => foldM (tuple_user i) p (users_now p t)
      | None => OK p
      end
  | _ => OK p
  end.

Definition visit_dot i p : Result Propagating :=
  if HasAssignedAxes (attributes p) i then OK p
  else
    lhs ← vec_at (operands_now p i) 0;
    rhs ← vec_at (operands_now p i) 1;
    lhs_axes ← GetAxes (J := J) (attributes p) lhs;
    rhs_axes ← GetAxes (J := J) (attributes p) rhs;
    match lhs_axes, rhs_axes with
    | Some lhs_axes, Some rhs_axes =>
        axes ← product_axes (dot_dimension_numbers i) (rank i) (rank lhs) (rank rhs) lhs_axes rhs_axes;
        OK (with_attributes (AssignAxes_axes (J := J) i axes (attributes p)) p)
    | _, _ => OK p
    end.

Definition visit_kind (es : gmap I (Entry I)) i (acc : bool * Propagating) : Result (bool * Propagating * list C) :=
  let '(changed, p) := acc in
  if IsCustomCall i "AutoSharding" then p ← visit_annotation es i p; OK (true, p, [])
  else
    match opcode i with
    | kCall => called ← called_computation i 0; p ← visit_call i p; OK (changed, p, [called])
    | kTuple => p ← visit_tuple i p; OK (changed, p, [])
    | kDot => p ← visit_dot i p; OK (changed, p, [])
    | _ => OK (changed, p, [])
    end.

Definition visit_instruction (es : gmap I (Entry I)) (acc : bool * Propagating * list C) i : Result (bool * Propagating * list C) :=
  r ← visit_kind es i acc.1;
  OK (r.1, acc.2 ++ r.2 ++ called_computations i).

Definition visit_computation (es : gmap I (Entry I)) (acc : bool * Propagating) c : Result (bool * Propagating * list C) :=
  foldM (visit_instruction es) (acc, []) (MakeInstructionPostOrder c).

(** ** Aliased parameters and outputs *)

Definition output_of p c (output_index : list Z) : Result I :=
  let root := current p (root_instruction c) in
  if bool_decide (opcode root = kTuple) then
    index ← of_option NullDeref (head output_index);
    vec_at (operands_now p root) index
  else OK root.

Definition share_alias (es : gmap I (Entry I)) c p (alias : list Z * Z) : Result Propagating :=
  parameter ← vec_at (parameter_instructions c) alias.2;
  output ← output_of p c alias.1;
  match GetAxesString (attributes p) parameter, HasAssignedAxes (attributes p) output with
  | Some axes, false =>
      l ← ForEachBackwardAliasAndSelf es output;
      OK (with_attributes (foldl (assign axes) (attributes p) l) p)
  | _, _ =>
      match GetAxesString (attributes p) output with
      | Some axes =>
          l ← ForEachForwardAliasAndSelf es parameter;
          OK (with_attributes (foldl (assign axes) (attributes p) l) p)
      | None => OK p
      end
  end.

(** The visits of the computations and the aliases, given the properties of the instructions. *)
Definition Propagate (visits : nat) (es : gmap I (Entry I)) (entry : C) s : Result (bool * Propagating) :=
  r ← visit_all (visit_computation es) visits (false, MkPropagating s []) [entry];
  p ← foldM (share_alias es entry) (r : bool * Propagating).2 input_output_alias_config;
  OK (r.1, p).

(** The fuel is for the properties and for the computations. *)
Definition Run (dealias_fuel fuel visits : nat) (entry : C) s : Result (bool * Propagating) :=
  es ← CreateProperties dealias_fuel fuel entry;
  Propagate visits es entry s.
End propagation.

(** ** The axes of a product *)
Section product.
Context (allowed : nat -> string -> Prop).

(** No name is used twice, and the names of a dimension are allowed there. *)
Record dot_ok (d : DotAxes) : Prop := {
  do_nodup : NoDup (concat (dot_axes d));
  do_assigned : forall n, n ∈ axes_already_assigned d <-> n ∈ concat (dot_axes d);
  do_allowed : forall k names n, dot_axes d !! k = Some names -> n ∈ names -> allowed k n;
}.

Record dot_grows (touched : nat -> Prop) (d d' : DotAxes) : Prop := {
  dg_length : length (dot_axes d') = length (dot_axes d);
  dg_same : forall k, ~ touched k -> dot_axes d' !! k = dot_axes d !! k;
  dg_assigned : forall n, n ∈ axes_already_assigned d -> n ∈ axes_already_assigned d';
}.

Lemma dot_grows_refl touched d : dot_grows touched d d.
Proof. by split. Qed.

Lemma dot_grows_trans (t1 t2 t : nat -> Prop) d1 d2 d3 : (forall k, t1 k \/ t2 k -> t k) -> dot_grows t1 d1 d2 -> dot_grows t2 d2 d3 -> dot_grows t d1 d3.
Proof.
  intros Ht [A1 A2 A3] [B1 B2 B3]. split; [congruence| |by auto].
  intros k Hk. rewrite B2, A2; [done|..]; intros Hn; apply Hk, Ht; by auto.
Qed.

Lemma add_axis_name_ok k d name : dot_ok d -> (k < length (dot_axes d))%nat -> allowed k name ->
  exists d', add_axis_name (Z.of_nat k) d name = OK d' /\ dot_ok d' /\ dot_grows (fun j => j = k) d d' /\ name ∈ axes_already_assigned d'.
Proof.
  intros Hok Hk Hal. unfold add_axis_name. case_bool_decide as Hin; [exists d; split_and!; [done..|apply dot_grows_refl|done]|].
  destruct Hok as [Hnd Ha Hp]. apply lookup_lt_is_Some in Hk as [names Hk]. rewrite (proj2 (vec_at_nat _ _ _) Hk). cbn [mbind Result_bind].
  pose proof (lookup_lt_Some _ _ _ Hk) as Hlt. rewrite vec_set_OK by (unfold Zlength; lia). cbn [mbind Result_bind]. rewrite Nat2Z.id.
  eexists. split; [done|]. split; [split|split_and!; [split|]]; cbn.
  - rewrite (concat_insert _ _ _ _ Hk). constructor; [by rewrite <- Ha|done].
  - intros n. rewrite (concat_insert _ _ _ _ Hk), !elem_of_cons, Ha. done.
  - intros j x n. rewrite list_lookup_insert_Some. intros [(<- & <- & _)|[_ Hx]]; [|by eapply Hp].
    intros [Hn|Hn]%elem_of_app; [by eapply Hp|]. by apply list_elem_of_singleton in Hn as ->.
  - apply length_insert.
  - intros j Hj. by apply list_lookup_insert_ne.
  - intros n Hn. by right.
  - by left.
Qed.

Lemma add_axis_names_ok k d names : dot_ok d -> (k < length (dot_axes d))%nat -> (forall n, n ∈ names -> allowed k n) ->
  exists d', foldM (add_axis_name (Z.of_nat k)) d names = OK d' /\ dot_ok d' /\ dot_grows (fun j => j = k) d d' /\
    forall n, n ∈ names -> n ∈ axes_already_assigned d'.
Proof.
  revert d. induction names as [|name names IH]; intros d Hok Hk Hal; cbn [foldM].
  { exists d. split_and!; [done..|apply dot_grows_refl|by intros n ?%elem_of_nil]. }
  destruct (add_axis_name_ok k d name Hok Hk) as (d1 & -> & Hok1 & Hg1 & Hin1); [by apply Hal; left|]. cbn [mbind Result_bind].
  destruct (IH d1 Hok1) as (d2 & -> & Hok2 & Hg2 & Hin2); [by rewrite (dg_length _ _ _ Hg1)|intros n Hn; apply Hal; by right|].
  exists d2. split_and!; [done..|by eapply dot_grows_trans; [|done..]; intros j []|]. intros n [->|Hn]%elem_of_cons; [by apply (dg_assigned _ _ _ Hg2)|by apply Hin2].
Qed.

(** The dimensions of an operand go to consecutive dimensions of the product. *)
Lemma add_dims_ok (axes : LogicalShardingAxes) dims start d : dot_ok d -> (start + length dims <= length (dot_axes d))%nat ->
  (forall j dim, dims !! j = Some dim -> 0 <= dim /\ exists names, axes !! Z.to_nat dim = Some names /\ forall n, n ∈ names -> allowed (start + j) n) ->
  exists d', foldM (add_dim axes) (Z.of_nat start, d) dims = OK (Z.of_nat (start + length dims), d') /\ dot_ok d' /\
    dot_grows (fun k => start <= k < start + length dims)%nat d d' /\
    forall j dim names n, dims !! j = Some dim -> axes !! Z.to_nat dim = Some names -> dot_axes d !! (start + j)%nat = Some [] -> n ∈ names ->
      n ∈ axes_already_assigned d'.
Proof.
  revert start d. induction dims as [|dim dims IH]; intros start d Hok Hlen Hdims; cbn [foldM].
  { exists d. rewrite Nat.add_0_r. split_and!; [done..|apply dot_grows_refl|done]. }
  cbn in Hlen. destruct (Hdims 0%nat dim eq_refl) as (Hdim & names & Hnames & Hal). rewrite Nat.add_0_r in Hal.
  assert (exists d1, add_dim axes (Z.of_nat start, d) dim = OK (Z.of_nat (S start), d1) /\ dot_ok d1 /\ dot_grows (fun j => j = start) d d1 /\
    (dot_axes d !! start = Some [] -> forall n, n ∈ names -> n ∈ axes_already_assigned d1)) as (d1 & -> & Hok1 & Hg1 & Hin1).
  { unfold add_dim, maybe_add_axes_at_dim. cbn [fst snd]. destruct (lookup_lt_is_Some_2 (dot_axes d) start) as [cur Hcur]; [lia|].
    rewrite (proj2 (vec_at_nat _ _ _) Hcur). cbn [mbind Result_bind]. replace (Z.of_nat start + 1) with (Z.of_nat (S start)) by lia. case_bool_decide as Hnil.
    - rewrite <- (Z2Nat.id dim Hdim), (proj2 (vec_at_nat _ _ _) Hnames). cbn [mbind Result_bind].
      destruct (add_axis_names_ok start d names Hok) as (d1 & -> & H1 & H2 & H3); [lia|done|]. exists d1. by split_and!.
    - cbn [mbind Result_bind]. exists d. split_and!; [done..|apply dot_grows_refl|congruence]. }
  cbn [mbind Result_bind]. destruct (IH (S start) d1 Hok1) as (d2 & -> & Hok2 & Hg2 & Hin2).
  - rewrite (dg_length _ _ _ Hg1). lia.
  - intros j x Hx. destruct (Hdims (S j) x Hx) as (H1 & ns & H2 & H3). split; [done|]. exists ns. split; [done|].
    intros n Hn. replace (S start + j)%nat with (start + S j)%nat by lia. by apply H3.
  - exists d2. cbn [length]. replace (S start + length dims)%nat with (start + S (length dims))%nat by lia. split_and!; [done..| |].
    + eapply dot_grows_trans; [|exact Hg1|exact Hg2]. cbn. lia.
    + intros [|j] x ns n Hx Hns Hcur Hn.
      * injection Hx as ->. rewrite Nat.add_0_r in Hcur. apply (dg_assigned _ _ _ Hg2), Hin1; [done|congruence].
      * apply (Hin2 j x ns n Hx Hns); [|done]. rewrite (dg_same _ _ _ Hg1) by lia. rewrite <- Hcur. f_equal. lia.
Qed.
End product.

Lemma length_free_dims rank l : NoDup l -> Forall (fun a => 0 <= a < rank) l -> 0 <= rank ->
  Z.of_nat (length (free_dims rank l)) = rank - Zlength l.
Proof.
  intros Hnd Hr Hrank. assert (seqZ 0 rank ≡ₚ l ++ free_dims rank l) as Hperm.
  { apply NoDup_Permutation; [apply NoDup_seqZ|apply NoDup_app; split_and!; [done|by intros a Ha [Hna _]%list_elem_of_filter|apply NoDup_filter, NoDup_seqZ]|].
    intros a. rewrite elem_of_app. unfold free_dims. rewrite list_elem_of_filter, elem_of_seqZ. rewrite Forall_forall in Hr. specialize (Hr a).
    destruct (decide (a ∈ l)); naive_solver lia. }
  apply Permutation_length in Hperm. rewrite length_app, length_seqZ in Hperm. unfold Zlength. lia.
Qed.

Lemma free_dims_range rank l j dim : free_dims rank l !! j = Some dim -> 0 <= dim < rank.
Proof. intros [_ Hd%elem_of_seqZ]%list_elem_of_lookup_2%list_elem_of_filter. lia. Qed.

(** The names on a dimension of an operand, and the names that may be on each dimension of the product:
    first the batch dimensions, then the free ones of the left and of the right operand. *)
Definition names_of (axes : LogicalShardingAxes) (dim : Z) : list string := default [] (axes !! Z.to_nat dim).
Definition lhs_free (nums : DotDims) (axes : LogicalShardingAxes) : list Z :=
  free_dims (Zlength axes) (lhs_contracting_dimensions nums ++ lhs_batch_dimensions nums).
Definition rhs_free (nums : DotDims) (axes : LogicalShardingAxes) : list Z :=
  free_dims (Zlength axes) (rhs_contracting_dimensions nums ++ rhs_batch_dimensions nums).
Definition sources (nums : DotDims) (lhs_axes rhs_axes : LogicalShardingAxes) : list (list string) :=
  zip_with (fun r l => names_of rhs_axes r ++ names_of lhs_axes l) (rhs_batch_dimensions nums) (lhs_batch_dimensions nums) ++
  (names_of lhs_axes <$> lhs_free nums lhs_axes) ++ (names_of rhs_axes <$> rhs_free nums rhs_axes).

(** What XLA's verifier demands of a product. *)
Record dot_dims_ok (nums : DotDims) (lhs_rank rhs_rank : Z) : Prop := {
  dd_batch : length (lhs_batch_dimensions nums) = length (rhs_batch_dimensions nums);
  dd_lhs : NoDup (lhs_contracting_dimensions nums ++ lhs_batch_dimensions nums) /\
    Forall (fun a => 0 <= a < lhs_rank) (lhs_contracting_dimensions nums ++ lhs_batch_dimensions nums);
  dd_rhs : NoDup (rhs_contracting_dimensions nums ++ rhs_batch_dimensions nums) /\
    Forall (fun a => 0 <= a < rhs_rank) (rhs_contracting_dimensions nums ++ rhs_batch_dimensions nums);
}.

Lemma names_of_range (axes : LogicalShardingAxes) dim : 0 <= dim < Zlength axes -> axes !! Z.to_nat dim = Some (names_of axes dim).
Proof. intros Hd. unfold names_of. destruct (lookup_lt_is_Some_2 axes (Z.to_nat dim)) as [x ->]; [unfold Zlength in Hd; lia|done]. Qed.

Section product_axes.
Context (nums : DotDims) (lhs_axes rhs_axes : LogicalShardingAxes) (dims_ok : dot_dims_ok nums (Zlength lhs_axes) (Zlength rhs_axes)).
Abbreviation srcs := (sources nums lhs_axes rhs_axes).
Abbreviation allowed := (fun k n => exists ns, srcs !! k = Some ns /\ n ∈ ns).
Abbreviation nb := (length (rhs_batch_dimensions nums)).
Abbreviation nl := (length (lhs_free nums lhs_axes)).
Abbreviation nr := (length (rhs_free nums rhs_axes)).

Lemma length_sources : length srcs = (nb + nl + nr)%nat.
Proof. unfold sources. rewrite !length_app, length_zip_with, !length_fmap, (dd_batch _ _ _ dims_ok). lia. Qed.

Lemma sources_batch j r l : rhs_batch_dimensions nums !! j = Some r -> lhs_batch_dimensions nums !! j = Some l ->
  srcs !! j = Some (names_of rhs_axes r ++ names_of lhs_axes l).
Proof. intros Hr Hl. apply lookup_app_l_Some, lookup_zip_with_Some. eauto. Qed.

Lemma sources_lhs j l : lhs_free nums lhs_axes !! j = Some l -> srcs !! (nb + j)%nat = Some (names_of lhs_axes l).
Proof.
  intros Hl. unfold sources. rewrite lookup_app_r by (rewrite length_zip_with; lia). rewrite length_zip_with, (dd_batch _ _ _ dims_ok).
  replace (nb + j - nb `min` nb)%nat with j by lia. apply lookup_app_l_Some. by rewrite list_lookup_fmap, Hl.
Qed.

Lemma sources_rhs j r : rhs_free nums rhs_axes !! j = Some r -> srcs !! (nb + nl + j)%nat = Some (names_of rhs_axes r).
Proof.
  intros Hr. unfold sources. rewrite app_assoc, lookup_app_r; rewrite length_app, length_zip_with, length_fmap, (dd_batch _ _ _ dims_ok); [|lia].
  replace (nb + nl + j - (nb `min` nb + nl))%nat with j by lia. by rewrite list_lookup_fmap, Hr.
Qed.

Lemma batch_pairs j : (forall r, rhs_batch_dimensions nums !! j = Some r -> exists l, lhs_batch_dimensions nums !! j = Some l) /\
  (forall l, lhs_batch_dimensions nums !! j = Some l -> exists r, rhs_batch_dimensions nums !! j = Some r).
Proof.
  pose proof (dd_batch _ _ _ dims_ok) as Hb. split; intros x Hx%lookup_lt_Some; apply lookup_lt_is_Some; lia.
Qed.

Lemma in_range_r (l1 l2 : list Z) n j x : Forall (fun a => 0 <= a < n) (l1 ++ l2) -> l2 !! j = Some x -> 0 <= x < n.
Proof. intros [_ Hf]%Forall_app Hx. by eapply (proj1 (Forall_lookup _ _) Hf). Qed.

Lemma add_rhs_ok rank d : dot_ok allowed d -> (nb + nl + nr <= length (dot_axes d))%nat -> dot_axes d = replicate rank [] ->
  exists d', add_rhs nums (Zlength lhs_axes) (Zlength rhs_axes) rhs_axes d = OK d' /\ dot_ok allowed d' /\
    dot_grows (fun k => k < nb \/ nb + nl <= k)%nat d d' /\
    forall dim n, dim ∈ rhs_batch_dimensions nums ++ rhs_free nums rhs_axes -> n ∈ names_of rhs_axes dim -> n ∈ axes_already_assigned d'.
Proof.
  intros Hok Hlen Hnil. destruct (dd_lhs _ _ _ dims_ok) as [Hlnd Hlr]. destruct (dd_rhs _ _ _ dims_ok) as [Hrnd Hrr].
  assert (forall k, (k < length (dot_axes d))%nat -> dot_axes d !! k = Some []) as Hempty.
  { intros k Hk. rewrite Hnil in Hk |- *. rewrite length_replicate in Hk. by apply lookup_replicate_2. }
  destruct (add_dims_ok allowed rhs_axes (rhs_batch_dimensions nums) 0 d Hok) as (d1 & H1 & Hok1 & Hg1 & Hin1); [lia| |].
  { intros j dim Hdim. pose proof (in_range_r _ _ _ _ _ Hrr Hdim) as Hr. split; [lia|]. exists (names_of rhs_axes dim).
    split; [by apply names_of_range|]. intros n Hn. destruct (proj1 (batch_pairs j) dim Hdim) as [l Hl].
    eexists. split; [exact (sources_batch j dim l Hdim Hl)|]. apply elem_of_app. by left. }
  destruct (add_dims_ok allowed rhs_axes (rhs_free nums rhs_axes) (nb + nl) d1 Hok1) as (d2 & H2 & Hok2 & Hg2 & Hin2).
  { rewrite (dg_length _ _ _ Hg1). lia. }
  { intros j dim Hdim. pose proof (free_dims_range _ _ _ _ Hdim) as Hr. split; [lia|]. exists (names_of rhs_axes dim).
    split; [by apply names_of_range|]. intros n Hn. eexists. split; [exact (sources_rhs j dim Hdim)|done]. }
  exists d2. assert (Zlength lhs_axes - Zlength (lhs_contracting_dimensions nums) = Z.of_nat (nb + nl)) as Hstart.
  { unfold lhs_free. rewrite Nat2Z.inj_add, length_free_dims by (done || unfold Zlength; lia). unfold Zlength. rewrite length_app.
    rewrite <- (dd_batch _ _ _ dims_ok). lia. }
  split_and!; [|done|eapply dot_grows_trans; [|exact Hg1|exact Hg2]; intros k; cbn beta; lia|].
  - unfold add_rhs. change (0 : Z) with (Z.of_nat 0). rewrite H1. cbn [mbind Result_bind snd]. rewrite Hstart.
    fold (rhs_free nums rhs_axes). by rewrite H2.
  - intros dim n [[j Hj]%list_elem_of_lookup|[j Hj]%list_elem_of_lookup]%elem_of_app Hn.
    + apply (dg_assigned _ _ _ Hg2), (Hin1 j dim (names_of rhs_axes dim) n Hj); [|apply Hempty; apply lookup_lt_Some in Hj; lia|done].
      apply names_of_range. by eapply in_range_r.
    + apply (Hin2 j dim (names_of rhs_axes dim) n Hj); [|rewrite (dg_same _ _ _ Hg1) by lia; apply Hempty; apply lookup_lt_Some in Hj; lia|done].
      by apply names_of_range, (free_dims_range _ _ _ _ Hj).
Qed.

Lemma add_lhs_ok d : dot_ok allowed d -> (nb + nl + nr <= length (dot_axes d))%nat ->
  (forall k, (nb <= k < nb + nl)%nat -> dot_axes d !! k = Some []) ->
  exists d', add_lhs nums (Zlength lhs_axes) lhs_axes d = OK d' /\ dot_ok allowed d' /\ dot_grows (fun k => k < nb + nl)%nat d d' /\
    forall dim n, dim ∈ lhs_free nums lhs_axes -> n ∈ names_of lhs_axes dim -> n ∈ axes_already_assigned d'.
Proof.
  intros Hok Hlen Hempty. destruct (dd_lhs _ _ _ dims_ok) as [Hlnd Hlr]. pose proof (dd_batch _ _ _ dims_ok) as Hb.
  destruct (add_dims_ok allowed lhs_axes (lhs_batch_dimensions nums) 0 d Hok) as (d1 & H1 & Hok1 & Hg1 & _); [lia| |].
  { intros j dim Hdim. pose proof (in_range_r _ _ _ _ _ Hlr Hdim) as Hr. split; [lia|]. exists (names_of lhs_axes dim).
    split; [by apply names_of_range|]. intros n Hn. destruct (proj2 (batch_pairs j) dim Hdim) as [r Hr'].
    eexists. split; [exact (sources_batch j r dim Hr' Hdim)|]. apply elem_of_app. by right. }
  destruct (add_dims_ok allowed lhs_axes (lhs_free nums lhs_axes) nb d1 Hok1) as (d2 & H2 & Hok2 & Hg2 & Hin2).
  { rewrite (dg_length _ _ _ Hg1). lia. }
  { intros j dim Hdim. pose proof (free_dims_range _ _ _ _ Hdim) as Hr. split; [lia|]. exists (names_of lhs_axes dim).
    split; [by apply names_of_range|]. intros n Hn. eexists. split; [exact (sources_lhs j dim Hdim)|done]. }
  exists d2. split_and!; [|done|eapply dot_grows_trans; [|exact Hg1|exact Hg2]; intros k; cbn beta; lia|].
  - unfold add_lhs. change (0 : Z) with (Z.of_nat 0). rewrite H1. cbn [mbind Result_bind]. rewrite Nat.add_0_l, Hb.
    fold (lhs_free nums lhs_axes). by rewrite H2.
  - intros dim n [j Hj]%list_elem_of_lookup Hn.
    apply (Hin2 j dim (names_of lhs_axes dim) n Hj); [by apply names_of_range, (free_dims_range _ _ _ _ Hj)| |done].
    rewrite (dg_same _ _ _ Hg1) by lia. apply Hempty. apply lookup_lt_Some in Hj. lia.
Qed.

(** C19: The axes of a product: no name is used twice; every name on a dimension comes from the batch or free
    dimension of an operand that the dimension of the product comes from; and every name on a dimension
    of the right operand that is not contracted, or on a free dimension of the left one, is on the product. *)
Theorem product_axes_spec rank : rank = Zlength (sources nums lhs_axes rhs_axes) ->
  exists axes, product_axes nums rank (Zlength lhs_axes) (Zlength rhs_axes) lhs_axes rhs_axes = OK axes /\
    Zlength axes = rank /\ NoDup (concat axes) /\
    (forall k names n, axes !! k = Some names -> n ∈ names -> exists ns, sources nums lhs_axes rhs_axes !! k = Some ns /\ n ∈ ns) /\
    (forall dim n, dim ∈ rhs_batch_dimensions nums ++ rhs_free nums rhs_axes -> n ∈ names_of rhs_axes dim -> n ∈ concat axes) /\
    (forall dim n, dim ∈ lhs_free nums lhs_axes -> n ∈ names_of lhs_axes dim -> n ∈ concat axes).
Proof.
  intros ->. unfold product_axes, Zlength. rewrite Nat2Z.id, length_sources. set (rank := (nb + nl + nr)%nat). fold (Zlength lhs_axes) (Zlength rhs_axes).
  assert (dot_ok allowed (MkDotAxes (replicate rank []) [])) as Hok.
  { assert (concat (replicate rank []) = ([] : list string)) as Hnil by (generalize rank; intros r; by induction r).
    split; cbn; [rewrite Hnil; constructor|intros n; by rewrite Hnil|]. by intros k names n [-> _]%lookup_replicate ?%elem_of_nil. }
  destruct (add_rhs_ok rank _ Hok) as (d1 & -> & Hok1 & Hg1 & Hin1); [cbn; rewrite length_replicate; lia|done|]. cbn [mbind Result_bind].
  destruct (add_lhs_ok d1 Hok1) as (d2 & -> & Hok2 & Hg2 & Hin2).
  { rewrite (dg_length _ _ _ Hg1). cbn. rewrite length_replicate. lia. }
  { intros k Hk. rewrite (dg_same _ _ _ Hg1) by lia. cbn. apply lookup_replicate_2. lia. }
  exists (dot_axes d2). split_and!; [done| |apply (do_nodup _ _ Hok2)|apply (do_allowed _ _ Hok2)| |].
  - by rewrite (dg_length _ _ _ Hg2), (dg_length _ _ _ Hg1); cbn; rewrite length_replicate.
  - intros dim n Hd Hn. apply (do_assigned _ _ Hok2), (dg_assigned _ _ _ Hg2). by eapply Hin1.
  - intros dim n Hd Hn. apply (do_assigned _ _ Hok2). by eapply Hin2.
Qed.
End product_axes.

(** ** The pass *)
Section facts.
Context {I C St J : Type} `{EqDecision I, !Countable I} `{!Hlo I C, !AttrStore I St, !JsonApi J, !AcyclicLaws I C, !AttrStoreLaws I St}.
Context (rank : I -> Z) (dot_dimension_numbers : I -> DotDims) (raw_backend_config_string : I -> string).
Context (input_output_alias_config : list (list Z * Z)).
Context (es : gmap I (Entry I)).
Abbreviation visit_instr := (visit_instruction (J := J) rank dot_dimension_numbers raw_backend_config_string es).
Abbreviation visit_comp := (visit_computation (J := J) rank dot_dimension_numbers raw_backend_config_string es).
Abbreviation visit_kind_ := (visit_kind (J := J) rank dot_dimension_numbers raw_backend_config_string es).
Implicit Types (i o : I) (c : C) (s : St) (p : Propagating (I := I) (St := St)).

(** Axes are only added, and colors are kept. *)
Definition axes_kept s s' : Prop := forall i,
  (forall axes, GetAxesString s i = Some axes -> GetAxesString s' i = Some axes) /\ Color s' i = Color s i.

#[export] Instance axes_kept_preorder : PreOrder axes_kept.
Proof.
  split; [by intros s i|]. intros s1 s2 s3 H12 H23 i. destruct (H12 i) as [A1 A2], (H23 i) as [B1 B2]. split; [by auto|congruence].
Qed.

Lemma GetAxesString_AssignAxes i axes s j : GetAxesString (AssignAxes i axes s) j =
  if decide (i = j) then Some (default axes (GetAxesString s i)) else GetAxesString s j.
Proof.
  rewrite !GetAxesString_lookup. unfold AssignAxes. rewrite attrs_add. case_decide; [|done]. subst. rewrite lookup_union.
  destruct (frontend_attributes s j !! "axes"); by simplify_map_eq.
Qed.

Lemma AssignAxes_kept i axes s : axes_kept s (AssignAxes i axes s).
Proof.
  intros j. rewrite GetAxesString_AssignAxes. split.
  - intros a Ha. case_decide; [subst; by rewrite Ha|done].
  - rewrite !Color_lookup. unfold AssignAxes. rewrite attrs_add. case_decide; [|done]. subst. rewrite lookup_union.
    destruct (frontend_attributes s j !! "color"); by simplify_map_eq.
Qed.

Lemma assign_all_kept axes l s : axes_kept s (foldl (assign axes) s l) /\
  forall j, j ∈ l -> is_Some (GetAxesString (foldl (assign axes) s l) j).
Proof.
  revert s. induction l as [|i l IH]; intros s; cbn [foldl]; [split; [done|]; by intros j ?%elem_of_nil|].
  destruct (IH (assign axes s i)) as [H1 H2]. split; [etrans; [apply AssignAxes_kept|done]|]. intros j [->|Hj]%elem_of_cons; [|by apply H2].
  exists (default axes (GetAxesString s i)). apply H1. unfold assign. rewrite GetAxesString_AssignAxes. by rewrite decide_True.
Qed.

(** The annotated instruction and its aliases have axes. *)
Definition has_axes p o : Prop := exists aliases, ForEachAlias es o = OK aliases /\
  forall j, j = o \/ j ∈ aliases -> is_Some (GetAxesString (attributes p) j).

Record progress p p' : Prop := {
  pr_kept : axes_kept (attributes p) (attributes p');
  pr_replaced : forall r, r ∈ replaced p -> r ∈ replaced p';
  pr_new : forall i o, (i, o) ∈ replaced p' -> (i, o) ∈ replaced p \/ IsCustomCall i "AutoSharding" = true /\ has_axes p' o;
}.

Lemma has_axes_kept p p' o : axes_kept (attributes p) (attributes p') -> has_axes p o -> has_axes p' o.
Proof. intros Hk (aliases & Hal & Ha). exists aliases. split; [done|]. intros j [axes Hj]%Ha. exists axes. by apply (Hk j). Qed.

#[export] Instance progress_preorder : PreOrder progress.
Proof.
  split; [intros p; split; [done|done|by left]|]. intros p1 p2 p3 [A1 A2 A3] [B1 B2 B3]. split; [by etrans|by auto|].
  intros i o [[H|[H1 H2]]%A3|H]%B3; [by left|right; split; [done|by eapply has_axes_kept]|by right].
Qed.

Lemma with_attributes_progress s p : axes_kept (attributes p) s -> progress p (with_attributes s p).
Proof. intros Hk. split; [done|done|by left]. Qed.

Lemma visit_annotation_progress i p p' : IsCustomCall i "AutoSharding" = true -> visit_annotation raw_backend_config_string es i p = OK p' ->
  progress p p' /\ i ∈ (replaced p').*1.
Proof.
  intros Hi. unfold visit_annotation. intros (operand & _ & Hrun)%Result_bind_OK. set (json := raw_backend_config_string i) in *.
  set (p1 := if bool_decide _ then p else _) in Hrun. apply Result_bind_OK in Hrun as (aliases & Hal & Hrun).
  apply Result_bind_OK in Hrun as (props & _ & [= <-]). set (s2 := match elementwise_connected_to_entry_output props with Some _ => _ | None => _ end).
  assert (attributes p1 = attributes p) as Hp1 by (unfold p1; by case_bool_decide).
  destruct (assign_all_kept json aliases (attributes p1)) as [Hk1 Ha1].
  assert (axes_kept (foldl (assign json) (attributes p1) aliases) s2) as Hk2 by (unfold s2; destruct (elementwise_connected_to_entry_output props); [apply AssignAxes_kept|done]).
  assert (axes_kept s2 (AssignAxes operand json s2)) as Hk3 by apply AssignAxes_kept.
  assert (axes_kept (attributes p) (AssignAxes operand json s2)) as Hk by (rewrite <- Hp1; by etrans; [exact Hk1|etrans; [exact Hk2|exact Hk3]]).
  split; [split; [done| |]|]; cbn; unfold p1.
  - intros r Hr. case_bool_decide; [done|]. cbn. by right.
  - intros j o. case_bool_decide; [by left|]. cbn. intros [[= -> ->]|Hr]%elem_of_cons; [right|by left]. split; [done|]. exists aliases. split; [done|]. cbn.
    intros j [->|Hj].
    + eexists. by rewrite GetAxesString_AssignAxes, decide_True.
    + destruct (Ha1 j Hj) as [axes Hax]. exists axes. by apply (Hk3 j), (Hk2 j).
  - case_bool_decide; [done|]. cbn. by left.
Qed.

Lemma visit_tuple_progress i p p' : visit_tuple i p = OK p' -> progress p p'.
Proof.
  unfold visit_tuple. destruct (users_now p i) as [|user [|]]; [by intros [= <-]| |by intros [= <-]].
  intros ([t|] & _ & Hrun)%Result_bind_OK; [|by injection Hrun as <-].
  apply (foldM_inv (fun _ p1 => progress p p1)) in Hrun; [done|done|]. intros done_ x rest p1 p2 _ H1. unfold tuple_user.
  intros (op & _ & [= <-])%Result_bind_OK. etrans; [exact H1|]. destruct (GetAxesString _ op); [|done]. apply with_attributes_progress, AssignAxes_kept.
Qed.

Lemma visit_dot_progress i p p' : visit_dot (J := J) rank dot_dimension_numbers i p = OK p' -> progress p p'.
Proof.
  unfold visit_dot. destruct (HasAssignedAxes _ i); [by intros [= <-]|]. intros (lhs & _ & Hrun)%Result_bind_OK.
  apply Result_bind_OK in Hrun as (rhs & _ & Hrun). apply Result_bind_OK in Hrun as (la & _ & Hrun). apply Result_bind_OK in Hrun as (ra & _ & Hrun).
  destruct la, ra; [|by injection Hrun as <-..]. apply Result_bind_OK in Hrun as (axes & _ & [= <-]).
  apply with_attributes_progress, AssignAxes_kept.
Qed.

Lemma share_alias_progress c p alias p' : share_alias es c p alias = OK p' -> progress p p'.
Proof.
  unfold share_alias. intros (parameter & _ & Hrun)%Result_bind_OK. apply Result_bind_OK in Hrun as (output & _ & Hrun).
  assert (forall l axes, progress p (with_attributes (foldl (assign axes) (attributes p) l) p)) as Hp
    by (intros l axes; apply with_attributes_progress, assign_all_kept).
  destruct (GetAxesString (attributes p) parameter) as [axes|]; [destruct (HasAssignedAxes (attributes p) output)|].
  2: by apply Result_bind_OK in Hrun as (l & _ & [= <-]).
  all: destruct (GetAxesString (attributes p) output); [by apply Result_bind_OK in Hrun as (l & _ & [= <-])|by injection Hrun as <-].
Qed.

(** ** The computations that are visited *)

(** A call pushes its computation twice. *)
Definition pushed_by i : list C :=
  (if bool_decide (opcode i = kCall) then match called_computation i 0 with OK b => [b] | _ => [] end else []) ++ called_computations i.
Definition pushed c : list C := MakeInstructionPostOrder c ≫= pushed_by.
Definition calls c b : Prop := b ∈ pushed c.

Lemma pushed_rank c b : b ∈ pushed c -> (call_rank b < call_rank c)%nat.
Proof.
  intros (i & Hb & Hi)%list_elem_of_bind. apply (call_rank_lt c i); [done|]. unfold pushed_by in Hb. apply elem_of_app in Hb as [Hb|Hb]; [|done].
  case_bool_decide; [|by apply elem_of_nil in Hb]. destruct (called_computation i 0) as [b'| |] eqn:Hc; [|by apply elem_of_nil in Hb..].
  apply list_elem_of_singleton in Hb as ->. apply vec_at_lookup in Hc as [_ Hc]. by eapply list_elem_of_lookup_2.
Qed.

(** What is done for an instruction. *)
Definition propagated i p : Prop :=
  (IsCustomCall i "AutoSharding" = true -> i ∈ (replaced p).*1) /\ (opcode i = kCall -> operands i = []).

Lemma propagated_progress i p p' : progress p p' -> propagated i p -> propagated i p'.
Proof.
  intros [_ Hr _] [H1 H2]. split; [|done]. intros ((j & o) & -> & Hj)%H1%list_elem_of_fmap. apply list_elem_of_fmap. exists (j, o). auto.
Qed.

Lemma autosharding_no_call i : IsCustomCall i "AutoSharding" = true -> opcode i = kCustomCall.
Proof. unfold IsCustomCall. by intros [Hop%bool_decide_eq_true _]%andb_true_iff. Qed.

Lemma visit_instruction_progress changed p bodies i changed' p' bodies' :
  visit_instr (changed, p, bodies) i = OK (changed', p', bodies') ->
  progress p p' /\ bodies' = bodies ++ pushed_by i /\ propagated i p'.
Proof.
  unfold visit_instruction. intros ([[changed1 p1] l] & Hk & [= <- <- <-])%Result_bind_OK. cbn [fst snd] in *. unfold visit_kind in Hk.
  destruct (IsCustomCall i "AutoSharding") eqn:Hauto.
  - apply Result_bind_OK in Hk as (p2 & Hp2 & [= <- <- <-]). destruct (visit_annotation_progress i p p2 Hauto Hp2) as [H1 H2].
    apply autosharding_no_call in Hauto. split; [done|]. split; [|split; [done|congruence]]. unfold pushed_by. by rewrite bool_decide_eq_false_2 by congruence.
  - destruct (decide (opcode i = kCall)) as [Hc|Hc].
    + rewrite Hc in Hk. apply Result_bind_OK in Hk as (called & Hcalled & Hk). apply Result_bind_OK in Hk as (p2 & Hp2 & [= <- <- <-]).
      unfold visit_call in Hp2. case_bool_decide as Hops; [|done]. injection Hp2 as <-. split; [done|]. split; [|split; [congruence|done]].
      unfold pushed_by. by rewrite bool_decide_eq_true_2, Hcalled by done.
    + assert (progress p p1 /\ l = []) as [Hp ->].
      { destruct (opcode i) eqn:Hop; try done; try (by injection Hk as <- <- <-).
        - apply Result_bind_OK in Hk as (p2 & Hp2%visit_dot_progress & [= <- <- <-]). done.
        - apply Result_bind_OK in Hk as (p2 & Hp2%visit_tuple_progress & [= <- <- <-]). done. }
      split; [done|]. split; [|split; [congruence|done]]. unfold pushed_by. by rewrite bool_decide_eq_false_2 by done.
Qed.

Lemma visit_computation_progress a c a' bodies : visit_comp a c = OK (a', bodies) ->
  progress a.2 a'.2 /\ bodies = pushed c /\ forall i, i ∈ MakeInstructionPostOrder c -> propagated i a'.2.
Proof.
  unfold visit_computation. intros Hrun.
  apply (foldM_inv (fun done_ (acc : bool * Propagating * list C) => progress a.2 acc.1.2 /\ acc.2 = done_ ≫= pushed_by /\
    forall i, i ∈ done_ -> propagated i acc.1.2)) in Hrun; [done| |].
  - split_and!; [done|done|]. by intros i ?%elem_of_nil.
  - intros done_ i rest [[ch1 p1] b1] [[ch2 p2] b2] _ (H1 & Hb & H2) (H3 & H4 & H5)%visit_instruction_progress. cbn in *. subst b1 b2. split_and!.
    + by etrans.
    + by rewrite bind_app; cbn; rewrite app_nil_r.
    + intros j [Hj|Hj]%elem_of_app; [by eapply propagated_progress, H2|]. apply list_elem_of_singleton in Hj as ->. apply H5.
Qed.

(** ** The pass ends *)

Lemma returns_add_dims (axes : LogicalShardingAxes) a dims : returns (foldM (add_dim axes) a dims).
Proof.
  apply returns_foldM. intros [k d] dim _. unfold add_dim, maybe_add_axes_at_dim. apply returns_bind; [|done]. apply returns_bind; [apply returns_vec_at|].
  intros cur _. case_bool_decide; [|done]. apply returns_bind; [apply returns_vec_at|]. intros names _. apply returns_foldM. intros d1 n _.
  unfold add_axis_name. case_bool_decide; [done|]. apply returns_bind; [apply returns_vec_at|]. intros x _. by apply returns_bind; [apply returns_vec_set|].
Qed.

Lemma returns_product_axes nums r lr rr la ra : returns (product_axes nums r lr rr la ra).
Proof.
  unfold product_axes, add_rhs, add_lhs.
  apply returns_bind; [|intros d _; apply returns_bind; [|done]]; by repeat (apply returns_bind; [apply returns_add_dims|intros ? _]).
Qed.

Lemma returns_visit_dot i p : returns (visit_dot (J := J) rank dot_dimension_numbers i p).
Proof.
  unfold visit_dot. destruct (HasAssignedAxes _ i); [done|]. repeat (apply returns_bind; [apply returns_vec_at|intros ? _]).
  repeat (apply returns_bind; [apply returns_GetAxes|intros ? _]). destruct a1, a2; [|done..]. by apply returns_bind; [apply returns_product_axes|].
Qed.

Lemma returns_visit_tuple i p : returns (visit_tuple i p).
Proof.
  unfold visit_tuple. destruct (users_now p i) as [|user [|]]; [done| |done]. apply returns_bind.
  - unfold user_tuple. case_bool_decide; [|done]. apply returns_bind; [apply returns_vec_at|]. intros b _. by apply returns_bind; [apply returns_vec_at|].
  - intros [t|] _; [|done]. apply returns_foldM. intros p1 x _. by apply returns_bind; [apply returns_vec_at|].
Qed.

Hypothesis (aliases_return : forall i, returns (ForEachBackwardAlias es i) /\ returns (ForEachForwardAlias es i)).

Lemma returns_visit_annotation i p : returns (visit_annotation raw_backend_config_string es i p).
Proof.
  unfold visit_annotation. apply returns_bind; [apply returns_vec_at|]. intros o _. apply returns_bind.
  - unfold ForEachAlias. apply returns_bind; [apply aliases_return|]. intros b _. by apply returns_bind; [apply aliases_return|].
  - intros l _. apply returns_bind; [|done]. unfold Get. by destruct (es !! i).
Qed.

Lemma returns_visit_computation a c : returns (visit_comp a c).
Proof.
  apply returns_foldM. intros [[changed p] bodies] i _. apply returns_bind; [|done]. unfold visit_kind.
  destruct (IsCustomCall i _); [by apply returns_bind; [apply returns_visit_annotation|]|].
  destruct (opcode i); try done.
  - apply returns_bind; [apply returns_vec_at|]. intros b _. apply returns_bind; [|done]. unfold visit_call. by case_bool_decide.
  - by apply returns_bind; [apply returns_visit_dot|].
  - by apply returns_bind; [apply returns_visit_tuple|].
Qed.

Lemma returns_share_alias c p alias : returns (share_alias es c p alias).
Proof.
  unfold share_alias. apply returns_bind; [apply returns_vec_at|]. intros pm _. apply returns_bind.
  { unfold output_of. case_bool_decide; [|done]. apply returns_bind; [by destruct (head alias.1)|]. intros k _. apply returns_vec_at. }
  intros o _. assert (forall x, returns (ForEachBackwardAliasAndSelf es x) /\ returns (ForEachForwardAliasAndSelf es x)) as Hself
    by (intros x; split; (apply returns_bind; [apply aliases_return|done])).
  destruct (GetAxesString (attributes p) pm); [destruct (HasAssignedAxes (attributes p) o)|].
  2: by apply returns_bind; [apply Hself|].
  all: destruct (GetAxesString (attributes p) o); [by apply returns_bind; [apply Hself|]|done].
Qed.

End facts.

(** ** A concrete module

    The parameters of a product are annotated; the product is the input of a loop that
    nothing else takes, so the element of the parameter of the loop has the axes of the product. *)
Module PropagationSample.
Definition annotation (o : nat) : Graph.node := Graph.Node kCustomCall [o] 0 [] "AutoSharding" "" false 1 false.
Definition nodes : list Graph.node :=
  [Graph.op kParameter []; Graph.Node kGetTupleElement [0] 0 [] "" "" false 1 false; Graph.Node kTuple [1] 0 [] "" "" true 1 false;
   Graph.op kParameter []; Graph.op kParameter []; annotation 3; annotation 4; Graph.op kDot [5; 6];
   Graph.Node kTuple [7] 0 [] "" "" true 1 false; Graph.Node kWhile [8] 0 [0] "" "" true 1 false;
   Graph.Node kGetTupleElement [9] 0 [] "" "" false 1 false]%nat.
Definition comps : list Graph.comp := [Graph.Comp 2 [0] [0; 1; 2]; Graph.Comp 10 [3; 4] [3; 4; 5; 6; 7; 8; 9; 10]]%nat.
#[export] Instance hlo0 : Hlo nat nat := Graph.hlo nodes comps.
#[export] Instance acyclic0 : AcyclicLaws nat nat := Graph.acyclic_laws nodes comps eq_refl.

Definition lhs_axes : LogicalShardingAxes := [["batch"]; ["model"]].
Definition rhs_axes : LogicalShardingAxes := [["model"]; ["batch"; "out"]].
Definition nums : DotDims := MkDotDims [1] [0] [] [].
Definition text (axes : LogicalShardingAxes) : string :=
  default "" (GetAxesString (AssignAxes_axes (J := JsonTree.t) 0%nat axes (∅ : AttrMap.t)) 0%nat).
Definition config (i : nat) : string := if bool_decide (i = 5%nat) then text lhs_axes else text rhs_axes.
Definition entries : gmap nat (Entry nat) := list_to_map ((fun i => (i, default_entry)) <$> seq 0 11).

Lemma annotation_aliases i : returns (ForEachBackwardAlias entries i) /\ returns (ForEachForwardAlias entries i).
Proof.
  destruct (decide (i < 11)%nat) as [Hi|Hi]; [do 11 (destruct i as [|i]; [by vm_compute|]); lia|].
  assert (entries !! i = None) as Hnone.
  { apply not_elem_of_list_to_map_1. intros (x & -> & (j & -> & Hj)%list_elem_of_fmap)%list_elem_of_fmap. apply elem_of_seq in Hj. cbn in Hi. lia. }
  unfold ForEachBackwardAlias, ForEachForwardAlias. cbn [alias_chain]. by rewrite Hnone.
Qed.
Abbreviation run := (Propagate (J := JsonTree.t) (fun _ => 2) (fun _ => nums) config [] 2 entries 1%nat (∅ : AttrMap.t)).
End PropagationSample.
Import PropagationSample.

Lemma product_axes_spec_witness : exists axes, product_axes nums 2 2 2 lhs_axes rhs_axes = OK axes /\
  Zlength axes = 2 /\ NoDup (concat axes) /\ "out" ∈ concat axes /\ "batch" ∈ concat axes.
Proof.
  destruct (product_axes_spec nums lhs_axes rhs_axes) with (rank := 2) as (axes & H1 & H2 & H3 & _ & H4 & H5).
  - split; [done|split; [apply (bool_decide_unpack _); by vm_compute|repeat constructor; by vm_compute]..].
  - by vm_compute.
  - exists axes. split; [exact H1|]. split; [exact H2|]. split; [exact H3|]. split.
    + apply (H4 1); [apply (bool_decide_unpack _)|apply (bool_decide_unpack _)]; by vm_compute.
    + apply (H5 0); [apply (bool_decide_unpack _)|apply (bool_decide_unpack _)]; by vm_compute.
Defined.

