(* ===== verification/SplitTask.v ===== *)
(** * Splitting tasks along the critical path (critical_path_finder.cc, task_splitter.cc,
    mpmd_split_critical_path.h/.cc)

    A task of a microbatch loop whose color asks for it is split in two: the instructions
    that the result needed first depends on, and the others.  [CriticalRootTupleIndex]
    finds that result, [SplitTask] replaces a call by one call for each given group of its
    instructions.

    The new calls are recorded as [Subtask]s, numbered over the whole pass; [Element n k]
    is the element [k] of the call number [n]. *)
From S2P Require Import Prelude Hlo Json Instruction Partition Utils Grouper Fusion.
Local Open Scope Z_scope.

(** A call and its computation: the instructions with the positions of the results.  The
    call, its elements and all instructions have the color of the subtask. *)
Record Subtask (I : Type) := MkSubtask {
  subtask_color : string;
  subtask_operands : list (Value I);
  subtask_log : list (NewInstruction I);
  subtask_roots : list nat;
}.
Arguments MkSubtask {_} _ _ _ _. Arguments subtask_color {_} _. Arguments subtask_operands {_} _.
Arguments subtask_log {_} _. Arguments subtask_roots {_} _.

(** [shardings] maps an element to the instruction whose sharding it has. *)
Record Splitting (I D : Type) `{Countable I, Countable D} := MkSplitting {
  subtasks : list (Subtask I);
  replaced : gmap I (Value I);
  shardings : gmap (nat * Z) I;
  partition_ : HloPartition D;
}.
Arguments MkSplitting {_ _ _ _ _ _} _ _ _ _. Arguments subtasks {_ _ _ _ _ _} _.
Arguments replaced {_ _ _ _ _ _} _. Arguments shardings {_ _ _ _ _ _} _. Arguments partition_ {_ _ _ _ _ _} _.

Section split.
Context {I C St D : Type} `{EqDecision I, !Countable I, !EqDecision C} `{!Hlo I C, !HloControl I C}.
Context `{EqDecision D, !Countable D, !DeviceListApi D} `{!AttrStore I St}.
Implicit Types (i o user task : I) (c : C).
Abbreviation Splitting := (Splitting I D).

(** ** The result that is needed first *)

(** The breadth-first search keeps no record of what it has visited. *)
Fixpoint FirstCallDepth_loop (fuel : nat) (depth_map : gmap I Z) (queue : list I) : Result Z :=
  match fuel with
  | O => Fatal Diverges
  | S fuel =>
      match queue with
      | [] => Err kInvalidArgument "No call or root found"
      | current :: queue =>
          if bool_decide (opcode current = kCall) || is_computation_root current then
            of_option Thrown (depth_map !! current)
          else FirstCallDepth_loop fuel depth_map (queue ++ users current)
      end
  end.

Definition FirstCallDepth (fuel : nat) (depth_map : gmap I Z) i : Result Z :=
  FirstCallDepth_loop fuel depth_map [i].

Definition kMaxUint64 : Z := 2 ^ 64 - 1.

(** The least depth so far and the element it belongs to; [c] is the computation that the
    call is in. *)
Definition critical_step (fuel : nat) (c : C) (depth_map : gmap I Z) (acc : Z * Z) user : Result (Z * Z) :=
  if bool_decide (opcode user <> kGetTupleElement) then Err kInvalidArgument "Call has a user that is not a GTE: "
  else if bool_decide (Zlength (operands (root_instruction c)) <= tuple_index user) then
    Err kOutOfRange "has tuple index out of bounds"
  else
    call_depth ← FirstCallDepth fuel depth_map user;
    let '(min_call_depth, min_call_depth_root_id) := acc in
    if bool_decide (call_depth <= min_call_depth) then
      if bool_decide (call_depth = min_call_depth) && bool_decide (min_call_depth_root_id < tuple_index user) then OK acc
      else OK (call_depth, tuple_index user)
    else OK acc.

Definition CriticalRootTupleIndex (fuel : nat) call (c : C) (depth_map : gmap I Z) : Result Z :=
  r ← foldM (critical_step fuel c depth_map) (kMaxUint64, 0) (users call); OK (r : Z * Z).2.

(** ** SplitTask *)

Record TaskConfig := MkTaskConfig {
  external_parameters : list I;
  internal_parameters : list I;
  external_roots : list I;
  internal_roots : list I;
}.

Definition visit_operand (included : gset I) (acc : TaskConfig * gset I) o : TaskConfig * gset I :=
  let '(cfg, operands_visited) := acc in
  if bool_decide (o ∈ operands_visited) then acc
  else
    (if bool_decide (opcode o = kParameter) then
       MkTaskConfig (external_parameters cfg ++ [o]) (internal_parameters cfg) (external_roots cfg) (internal_roots cfg)
     else if bool_decide (o ∉ included) then
       MkTaskConfig (external_parameters cfg) (internal_parameters cfg ++ [o]) (external_roots cfg) (internal_roots cfg)
     else cfg, {[o]} ∪ operands_visited).

(** The loop over the users ends at the first one that makes the instruction a result. *)
Fixpoint visit_users (root : I) (included : gset I) i (us : list I) (cfg : TaskConfig) : TaskConfig :=
  match us with
  | [] => cfg
  | user :: us =>
      if bool_decide (user = root) then
        MkTaskConfig (external_parameters cfg) (internal_parameters cfg) (external_roots cfg ++ [i]) (internal_roots cfg)
      else if bool_decide (user ∉ included) then
        MkTaskConfig (external_parameters cfg) (internal_parameters cfg) (external_roots cfg) (internal_roots cfg ++ [i])
      else visit_users root included i us cfg
  end.

Definition visit_instruction (root : I) (included : gset I) (acc : TaskConfig * gset I) i : TaskConfig * gset I :=
  if bool_decide (opcode i = kParameter) then acc
  else
    let '(cfg, operands_visited) := foldl (visit_operand included) acc (operands i) in
    (visit_users root included i (users i) cfg, operands_visited).

Definition task_config (root : I) (task_instruction_set : list I) : TaskConfig :=
  (foldl (visit_instruction root (list_to_set task_instruction_set)) (MkTaskConfig [] [] [] [], ∅) task_instruction_set).1.

(** *** One new computation *)

Record Building := MkBuilding {
  clone_map : gmap I nat;
  builder : list (NewInstruction I);
  new_call_operands : list (Value I);
}.

Definition clone_param (get : I -> Result (Value I)) (b : Building) (param : I) : Result Building :=
  v ← get param;
  OK (MkBuilding (<[param := length (builder b)]> (clone_map b))
        (builder b ++ [NewParameter (Zlength (new_call_operands b)) param]) (new_call_operands b ++ [v])).

(** [clone_map.at] throws. *)
Definition clone_of (b : Building) i : Result nat := of_option Thrown (clone_map b !! i).

Definition clone_instruction (b : Building) i : Result Building :=
  if bool_decide (opcode i = kParameter) || is_computation_root i then OK b
  else
    ks ← mapM_Result (clone_of b) (operands i);
    OK (MkBuilding (<[i := length (builder b)]> (clone_map b)) (builder b ++ [NewClone i ks]) (new_call_operands b)).

(** The operand of a call, after the results of calls that were split have been replaced. *)
Definition task_operand (replaced_ : gmap I (Value I)) task (param : I) : Result (Value I) :=
  o ← operand task (parameter_number_of param); OK (default (Original o) (replaced_ !! o)).

Definition build_subtask (replaced_ : gmap I (Value I)) (external_replacements : gmap I (Value I)) task (cfg : TaskConfig)
    (task_instructions : list I) : Result (Building * list nat) :=
  b ← foldM (clone_param (task_operand replaced_ task)) (MkBuilding ∅ [] []) (external_parameters cfg);
  b ← foldM (clone_param (fun p => of_option Thrown (external_replacements !! p))) b (internal_parameters cfg);
  b ← foldM clone_instruction b task_instructions;
  roots ← mapM_Result (clone_of b) (external_roots cfg ++ internal_roots cfg);
  OK (b, roots).

(** *** The groups of instructions *)

(** The new colors, and the elements that stand for instructions of the task. *)
Definition split_group task (color : string) (acc : list string * gmap I (Value I) * Splitting)
    (group : TaskConfig * list I * string) : Result (list string * gmap I (Value I) * Splitting) :=
  let '(new_colors, external_replacements, st) := acc in
  let '(cfg, task_instructions, suffix) := group in
  q ← CloneColor (partition_ st) color (color +:+ suffix) None None;
  let '(new_color, p) := (q : string * HloPartition D) in
  r ← build_subtask (replaced st) external_replacements task cfg task_instructions;
  let '(b, roots) := (r : Building * list nat) in
  let n := length (subtasks st) in
  let results := zip (seqZ 0 (Zlength roots)) (external_roots cfg ++ internal_roots cfg) in
  OK (new_colors ++ [new_color],
      foldl (fun m ki => <[ki.2 := Element n ki.1]> m) external_replacements results,
      MkSplitting (subtasks st ++ [MkSubtask new_color (new_call_operands b) (builder b) roots]) (replaced st)
        (foldl (fun m ki => <[(n, ki.1) := ki.2]> m) (shardings st) results) p).

(** The users are those that the task has before the loop. *)
Definition replace_user (root : I) (external_replacements : gmap I (Value I)) (st : Splitting) user : Result Splitting :=
  o ← operand root (tuple_index user);
  clone ← of_option Thrown (external_replacements !! o);
  OK (MkSplitting (subtasks st) (<[user := clone]> (replaced st))
        (match clone with Element n k => <[(n, k) := user]> (shardings st) | Original _ => shardings st end)
        (partition_ st)).

Definition SplitTask (attrs : St) (st : Splitting) task (instructions : list (list I)) (suffixes : list string)
    : Result (list string * Splitting) :=
  computation ← called_computation task 0;
  let root := root_instruction computation in
  color ← color_deref attrs task;
  if bool_decide (length suffixes < length instructions)%nat then Fatal OutOfBounds
  else
    r ← foldM (split_group task color) ([], ∅, st)
          (zip (zip (task_config root <$> instructions) instructions) suffixes);
    let '(new_colors, external_replacements, st) := (r : list string * gmap I (Value I) * Splitting) in
    st ← foldM (replace_user root external_replacements) st (users task);
    OK (new_colors, st).

(** ** The pass *)

(** [DependencyHloOrdering::ExecutesBefore]. *)
Context (ExecutesBefore : I -> I -> bool).

Definition is_critical (critical_root i : I) : bool := ExecutesBefore i critical_root || bool_decide (i = critical_root).

Definition SplitComputation (attrs : St) (st : Splitting) call_to_split (critical_root_id : Z) : Result Splitting :=
  computation ← called_computation call_to_split 0;
  let root := root_instruction computation in
  if bool_decide (opcode root <> kTuple) then Err kInvalidArgument "Root instruction to split along is not a tuple"
  else if bool_decide (Zlength (operands root) <= critical_root_id) then
    Err kInvalidArgument "Critical root id is out of bounds"
  else
    original_color ← color_deref attrs call_to_split;
    options ← GetTaskOptions (partition_ st) original_color;
    match to_split_backprop options with
    | None => Err kInvalidArgument "is not configured for split backprop"
    | Some (critical_suffix, non_critical_suffix) =>
        critical_root ← operand root critical_root_id;
        let instructions := filter (fun i => is_computation_root i = false) (MakeInstructionPostOrder computation) in
        r ← SplitTask attrs st call_to_split
              [filter (fun i => is_critical critical_root i = true) instructions;
               filter (fun i => is_critical critical_root i = false) instructions]
              [critical_suffix; non_critical_suffix];
        let '(new_colors, st) := (r : list string * Splitting) in
        non_critical ← vec_at new_colors 1;
        OK (MkSplitting (subtasks st) (replaced st) (shardings st) (SetColorAsNonCritical (partition_ st) non_critical))
    end.

Definition IsMicrobatchLoop i : bool := bool_decide (opcode i = kWhile) && has_backend_config i.

Definition run_instruction (fuel : nat) (attrs : St) (while_computation : C) (depth_map : gmap I Z) (st : Splitting) i
    : Result Splitting :=
  if bool_decide (opcode i = kCall) then
    match Color attrs i with
    | None => Err kInvalidArgument "Call has no color: "
    | Some color =>
        options ← GetTaskOptions (partition_ st) color;
        if bool_decide (is_Some (to_split_backprop options)) then
          critical_root_id ← CriticalRootTupleIndex fuel i while_computation depth_map;
          SplitComputation attrs st i critical_root_id
        else OK st
    end
  else OK st.

(** Only the first loop is visited. *)
Definition Run (fuel : nat) (attrs : St) (p : HloPartition D) (entry : C) : Result (Splitting * bool) :=
  let st := MkSplitting [] ∅ ∅ p in
  match find IsMicrobatchLoop (MakeInstructionPostOrder entry) with
  | None => OK (st, false)
  | Some while_instruction =>
      while_computation ← called_computation while_instruction 0;
      st ← foldM (run_instruction fuel attrs while_computation (ComputeDepthMap while_computation)) st
             (MakeInstructionPostOrder while_computation);
      OK (st, true)
  end.
End split.
Arguments TaskConfig I : clear implicits. Arguments Building I {_ _}.
