(* ===== verification/SplitTaskFacts.v ===== *)
(** * The groups that [SplitTask] is given and the configuration of a group

    What [task_config] collects: the parameters and the instructions of other groups that
    a group uses, and the instructions of a group that others or the root use.  The
    results are in SplitTaskSemantics.v. *)
From S2P Require Import Prelude Hlo Instruction Partition Grouper Fusion SplitTask.
Local Open Scope Z_scope.

Section config.
Context {I C : Type} `{EqDecision I, !Countable I, !EqDecision C} `{!Hlo I C, !HloControl I C}.
Implicit Types (i o user : I) (l : list I) (cfg : TaskConfig I).

(** An instruction of a group that has to be a result of its new computation. *)
Definition is_result (root : I) (l : list I) i : Prop := exists user, user ∈ users i /\ (user = root \/ (user ∉ l)).

(** [seen] are the instructions of the group that have been visited. *)
Record config_ok (root : I) (l seen : list I) cfg : Prop := {
  cf_external : forall p, p ∈ external_parameters cfg -> opcode p = kParameter /\
    exists i, i ∈ seen /\ opcode i <> kParameter /\ p ∈ operands i;
  cf_internal : forall o, o ∈ internal_parameters cfg -> opcode o <> kParameter /\ (o ∉ l) /\
    exists i, i ∈ seen /\ opcode i <> kParameter /\ o ∈ operands i;
  cf_operands : forall i o, i ∈ seen -> opcode i <> kParameter -> o ∈ operands i ->
    (opcode o = kParameter /\ o ∈ external_parameters cfg) \/ (opcode o <> kParameter /\ (o ∈ l \/ o ∈ internal_parameters cfg));
  cf_roots : forall i, i ∈ external_roots cfg ++ internal_roots cfg <->
    i ∈ seen /\ opcode i <> kParameter /\ is_result root l i;
}.

(** The operands of an instruction, [ops] of them so far. *)
Record visiting_ok l (cfg0 : TaskConfig I) (visited0 : gset I) (ops : list I) (acc : TaskConfig I * gset I) : Prop := {
  vi_visited : forall o, o ∈ acc.2 <-> o ∈ visited0 \/ o ∈ ops;
  vi_external : forall p, p ∈ external_parameters acc.1 <->
    p ∈ external_parameters cfg0 \/ ((p ∉ visited0) /\ p ∈ ops /\ opcode p = kParameter);
  vi_internal : forall o, o ∈ internal_parameters acc.1 <->
    o ∈ internal_parameters cfg0 \/ ((o ∉ visited0) /\ o ∈ ops /\ opcode o <> kParameter /\ o ∉ l);
  vi_roots : external_roots acc.1 = external_roots cfg0 /\ internal_roots acc.1 = internal_roots cfg0;
}.

Lemma not_in_included l o : bool_decide (o ∉ (list_to_set l : gset I)) = bool_decide (o ∉ l).
Proof. apply bool_decide_ext. by rewrite elem_of_list_to_set. Qed.

Lemma visit_operands_ok l cfg0 visited0 ops :
  visiting_ok l cfg0 visited0 ops (foldl (visit_operand (list_to_set l)) (cfg0, visited0) ops).
Proof.
  induction ops as [|o ops IH] using rev_ind.
  - split; cbn; try done; set_solver.
  - rewrite foldl_app. cbn [foldl]. destruct (foldl _ _ ops) as [cfg visited]. destruct IH as [H1 H2 H3 H4].
    unfold visit_operand. cbn [fst snd] in *. case_bool_decide as Hv.
    + apply H1 in Hv. split; cbn [fst snd]; [set_solver|set_solver| |done].
      intros x. rewrite H3, elem_of_app, list_elem_of_singleton. naive_solver.
    + assert ((o ∉ visited0) /\ o ∉ ops) as [Hv0 Hvo] by (split; intros ?; apply Hv, H1; auto).
      split; cbn [fst snd]; [set_solver| | |].
      * intros p. case_bool_decide; cbn; [set_solver|]. case_bool_decide; cbn; rewrite H2, elem_of_app, list_elem_of_singleton; naive_solver.
      * intros p. case_bool_decide as Hp; cbn; [rewrite H3, elem_of_app, list_elem_of_singleton; naive_solver|].
        rewrite not_in_included. case_bool_decide; cbn; rewrite ?elem_of_app, H3, ?list_elem_of_singleton; naive_solver.
      * case_bool_decide; [done|]. by case_bool_decide.
Qed.

Lemma visit_users_ok root l i us cfg : let cfg' := visit_users root (list_to_set l) i us cfg in
  external_parameters cfg' = external_parameters cfg /\ internal_parameters cfg' = internal_parameters cfg /\
  (forall x, x ∈ external_roots cfg' ++ internal_roots cfg' <->
    x ∈ external_roots cfg ++ internal_roots cfg \/ x = i /\ exists user, user ∈ us /\ (user = root \/ (user ∉ l))).
Proof.
  cbn. induction us as [|user us IH]; cbn [visit_users].
  - split_and!; [done..|]. set_solver.
  - rewrite not_in_included. case_bool_decide as Hr; [|case_bool_decide as Hl].
    + cbn. split_and!; [done..|]. intros x. rewrite !elem_of_app, list_elem_of_singleton. set_solver.
    + cbn. split_and!; [done..|]. intros x. rewrite !elem_of_app, list_elem_of_singleton. set_solver.
    + destruct IH as (-> & -> & IH). split_and!; [done..|]. intros x. rewrite IH.
      assert (user ∈ l) by (by destruct (decide (user ∈ l))). set_solver.
Qed.

Lemma visit_instructions_ok root l seen :
  let acc := foldl (visit_instruction root (list_to_set l)) (MkTaskConfig [] [] [] [], ∅) seen in
  config_ok root l seen acc.1 /\
  (forall o, o ∈ acc.2 <-> exists i, i ∈ seen /\ opcode i <> kParameter /\ o ∈ operands i).
Proof.
  cbn. induction seen as [|i seen [IH Hvis]] using rev_ind.
  - split; [split; cbn; set_solver|]. set_solver.
  - rewrite foldl_app. cbn [foldl]. destruct (foldl _ _ seen) as [cfg visited]. cbn [fst snd] in *.
    unfold visit_instruction. case_bool_decide as Hp.
    + split.
      * destruct IH as [H1 H2 H3 H4]. split; cbn [fst].
        -- intros p Hx. destruct (H1 p Hx) as (? & j & ? & ? & ?). split; [done|]. exists j. set_solver.
        -- intros p Hx. destruct (H2 p Hx) as (? & ? & j & ? & ? & ?). split_and!; [done..|]. exists j. set_solver.
        -- intros j o [Hj| ->%list_elem_of_singleton]%elem_of_app; [by apply H3|done].
        -- intros j. rewrite H4, elem_of_app, list_elem_of_singleton. naive_solver.
      * intros o. cbn [snd]. rewrite Hvis. setoid_rewrite elem_of_app. setoid_rewrite list_elem_of_singleton. naive_solver.
    + pose proof (visit_operands_ok l cfg visited (operands i)) as [V1 V2 V3 V4].
      destruct (foldl (visit_operand _) _ _) as [cfg' visited']. cbn [fst snd] in *.
      destruct (visit_users_ok root l i (users i) cfg') as (U1 & U2 & U3). destruct IH as [H1 H2 H3 H4]. split.
      * split; cbn [fst]; rewrite ?U1, ?U2.
        -- intros p [Hx|(_ & Hx & ?)]%V2; [|split; [done|exists i; set_solver]].
           destruct (H1 p Hx) as (? & j & ? & ? & ?). split; [done|]. exists j. set_solver.
        -- intros p [Hx|(_ & Hx & ? & ?)]%V3; [|split_and!; [done..|exists i; set_solver]].
           destruct (H2 p Hx) as (? & ? & j & ? & ? & ?). split_and!; [done..|]. exists j. set_solver.
        -- intros j o [Hj| ->%list_elem_of_singleton]%elem_of_app Hjp Ho.
           ++ destruct (H3 j o Hj Hjp Ho) as [[? ?]|(? & [?|?])]; [left; split; [done|]; apply V2; by left|right; auto|].
              right. split; [done|]. right. apply V3. by left.
           ++ destruct (decide (o ∈ visited)) as [Hov|Hov].
              { apply Hvis in Hov as (j' & Hj' & Hjp' & Ho'). destruct (H3 j' o Hj' Hjp' Ho') as [[? ?]|(? & [?|?])];
                  [left; split; [done|]; apply V2; by left|right; auto|]. right. split; [done|]. right. apply V3. by left. }
              destruct (decide (opcode o = kParameter)); [left; split; [done|]; apply V2; by right|right; split; [done|]].
              destruct (decide (o ∈ l)); [by left|right]. apply V3. by right.
        -- intros j. rewrite U3. destruct V4 as [-> ->]. rewrite H4, elem_of_app, list_elem_of_singleton. unfold is_result. naive_solver.
      * intros o. cbn [snd]. rewrite V1, Hvis. setoid_rewrite elem_of_app. setoid_rewrite list_elem_of_singleton. naive_solver.
Qed.

Lemma task_config_ok root l : config_ok root l l (task_config root l).
Proof. apply visit_instructions_ok. Qed.
End config.
