(* ===== verification/SplitTaskSemantics.v ===== *)
(** * The calls of a split task compute its results (task_splitter.cc)

    The instructions of a task mean functions of the values of their operands, as in
    FusionSemantics.v.  The new calls, evaluated in order, have results, and every element
    of the task is replaced by an element with its value. *)
From S2P Require Import Prelude Hlo Instruction Partition Grouper GrouperSemantics GrouperBuild Fusion FusionSemantics SplitTask SplitTaskFacts.
Local Open Scope Z_scope.

(** ** Evaluation *)
Section evaluation.
Context {I V : Type} `{EqDecision I, !Countable I} (sem : I -> list V -> V) (val : I -> V).
Implicit Types (outs : list (list V)) (v : Value I) (s : Subtask I).

Definition value outs v : option V :=
  match v with Original i => Some (val i) | Element n k => l ← outs !! n; l !! Z.to_nat k end.

(** The results of a call, after those of the calls before it. *)
Definition eval_subtask outs s : option (list (list V)) :=
  args ← mapM (value outs) (subtask_operands s);
  vals ← eval_log sem args (subtask_log s);
  rs ← mapM (vals !!.) (subtask_roots s);
  Some (outs ++ [rs]).

Definition eval_subtasks (l : list (Subtask I)) : option (list (list V)) :=
  foldl (fun acc s => outs ← acc; eval_subtask outs s) (Some []) l.

Lemma eval_subtasks_snoc l s : eval_subtasks (l ++ [s]) = (outs ← eval_subtasks l; eval_subtask outs s).
Proof. unfold eval_subtasks. by rewrite foldl_app. Qed.

Lemma eval_subtasks_length l outs : eval_subtasks l = Some outs -> length outs = length l.
Proof.
  revert outs. induction l as [|s l IH] using rev_ind; intros outs; [by intros [= <-]|]. rewrite eval_subtasks_snoc.
  destruct (eval_subtasks l) as [outs0|]; [|done]. cbn. unfold eval_subtask. destruct (mapM _ _); [|done]. cbn.
  destruct (eval_log _ _ _) as [vals|]; [|done]. cbn. destruct (mapM (vals !!.) (subtask_roots s)); [|done]. intros [= <-].
  rewrite !length_app. by rewrite (IH outs0).
Qed.

Lemma subtask_value_more outs more v x : value outs v = Some x -> value (outs ++ more) v = Some x.
Proof.
  destruct v as [i|n k]; cbn; [done|]. destruct (outs !! n) as [l|] eqn:Hl; [|done].
  by rewrite (lookup_app_l_Some _ _ _ _ Hl).
Qed.
End evaluation.

Section semantics.
Context {I C St D V : Type} `{EqDecision I, !Countable I, !EqDecision C} `{!Hlo I C, !HloControl I C}.
Context `{EqDecision D, !Countable D, !DeviceListApi D} `{!AttrStore I St}.
Context (sem : I -> list V -> V) (val : I -> V) (body : I -> I -> V).
Implicit Types (i o user task : I) (c : C) (l : list I).
Abbreviation value := (value val).
Abbreviation eval_subtasks := (eval_subtasks sem val).
Abbreviation computation_ok := (computation_ok sem val body).

(** Groups that every instruction but the parameters and the root is in exactly one of;
    the operands of an instruction are in an earlier group, or before it in its own. *)
Record grouping (c : C) (groups : list (list I)) : Prop := {
  gr_members : forall l i, l ∈ groups -> i ∈ l -> i ∈ MakeInstructionPostOrder c /\ i <> root_instruction c;
  gr_cover : forall i, i ∈ MakeInstructionPostOrder c -> i <> root_instruction c -> opcode i <> kParameter ->
    exists l, l ∈ groups /\ i ∈ l;
  gr_disjoint : forall j k l l' i, groups !! j = Some l -> groups !! k = Some l' -> opcode i <> kParameter -> i ∈ l -> i ∈ l' -> j = k;
  gr_order : forall j l l1 i l2 o, groups !! j = Some l -> l = l1 ++ i :: l2 -> opcode i <> kParameter -> o ∈ operands i ->
    opcode o <> kParameter -> o ∈ l1 \/ exists k l', (k < j)%nat /\ groups !! k = Some l' /\ o ∈ l';
  gr_parent : forall i, i ∈ MakeInstructionPostOrder c -> parent i = c;
}.

Context `{!PostOrderLaws I C, !UsersLaws I C}.

Lemma operand_in_order c i o : i ∈ MakeInstructionPostOrder c -> o ∈ operands i -> o ∈ MakeInstructionPostOrder c.
Proof.
  intros [n Hn]%list_elem_of_lookup Ho. destruct (postorder_operands c n i o Hn Ho) as (m & _ & Hm). by eapply list_elem_of_lookup_2.
Qed.

Lemma member_not_root c groups l i : grouping c groups -> l ∈ groups -> i ∈ l -> is_computation_root i = false.
Proof.
  intros Hg Hl Hi. destruct (gr_members _ _ Hg l i Hl Hi) as [Hio Hne]. unfold is_computation_root.
  rewrite (gr_parent _ _ Hg i Hio). apply bool_decide_eq_false. by intros <-.
Qed.

(** ** One new computation *)

Section build.
Context (task : I) (c : C) (Hc : computation_ok task c) (outs : list (list V)).

(** [args] are the values of the operands of the new call so far. *)
Record building_ok (b : Building I) (args vals : list V) : Prop := {
  bd_operands : Forall2 (fun v x => value outs v = Some x) (new_call_operands b) args;
  bd_log : eval_log sem args (builder b) = Some vals;
  bd_length : length vals = length (builder b);
  bd_clones : forall i k, clone_map b !! i = Some k -> vals !! k = Some (body task i);
}.

Definition keeps_clones (b b' : Building I) : Prop := forall i, is_Some (clone_map b !! i) -> is_Some (clone_map b' !! i).

Lemma building_add b args more vals v n i : building_ok b args vals ->
  Forall2 (fun v x => value outs v = Some x) v more ->
  (eval_new sem (args ++ more) vals n = Some (body task i)) ->
  building_ok (MkBuilding (<[i := length (builder b)]> (clone_map b)) (builder b ++ [n]) (new_call_operands b ++ v))
    (args ++ more) (vals ++ [body task i]).
Proof.
  intros [H1 H2 H3 H4] Hv Hn. split; cbn [clone_map builder new_call_operands].
  - by apply Forall2_app.
  - rewrite eval_log_snoc, (eval_log_more _ _ _ _ _ H2). cbn. by rewrite Hn.
  - rewrite !length_app. by rewrite H3.
  - intros j k. rewrite lookup_insert, <- H3. case_decide as Hj.
    + intros [= <-]. subst j. by apply list_lookup_middle.
    + intros Hk. apply lookup_app_l_Some. by apply H4.
Qed.

Lemma clone_params_ok get ps b args vals : building_ok b args vals ->
  (forall p, p ∈ ps -> exists v, get p = OK v /\ value outs v = Some (body task p)) ->
  exists b' args' vals', foldM (clone_param get) b ps = OK b' /\ building_ok b' args' vals' /\
    keeps_clones b b' /\ (forall p, p ∈ ps -> is_Some (clone_map b' !! p)) /\
    (forall i ks, NewClone i ks ∈ builder b' -> NewClone i ks ∈ builder b).
Proof.
  intros Hb Hps. destruct (foldM_total (fun done b' => exists args' vals', building_ok b' args' vals' /\ keeps_clones b b' /\
    (forall p, p ∈ done -> is_Some (clone_map b' !! p)) /\ (forall i ks, NewClone i ks ∈ builder b' -> NewClone i ks ∈ builder b))
    (clone_param get) b ps) as (b' & Hrun & args' & vals' & H).
  - exists args, vals. split_and!; [done|by intros i|by intros p ?%elem_of_nil|done].
  - intros done p rest b1 Heq (args1 & vals1 & Hb1 & Hk & Hd & Hcl). destruct (Hps p) as (v & Hv & Hval).
    { rewrite Heq. apply elem_of_app. right. by left. }
    unfold clone_param. rewrite Hv. cbn [mbind Result_bind]. eexists. split; [done|].
    exists (args1 ++ [body task p]), (vals1 ++ [body task p]). split_and!.
    + apply building_add; [done|by repeat constructor|]. cbn. unfold Zlength. rewrite Nat2Z.id.
      rewrite (Forall2_length _ _ _ (bd_operands _ _ _ Hb1)). by apply list_lookup_middle.
    + intros i Hi. cbn. rewrite lookup_insert. case_decide; [by eexists|]. by apply Hk.
    + intros q Hq. cbn. rewrite lookup_insert. case_decide as Hpq; [by eexists|]. apply Hd.
      apply elem_of_app in Hq as [Hq| ->%list_elem_of_singleton]; done.
    + intros i ks. cbn. intros [?%Hcl|?%list_elem_of_singleton]%elem_of_app; done.
  - by exists b', args', vals'.
Qed.

Lemma clone_instructions_ok l b args vals : building_ok b args vals ->
  (forall i, i ∈ l -> i ∈ MakeInstructionPostOrder c /\ i <> root_instruction c /\ is_computation_root i = false) ->
  (forall l1 i l2 o, l = l1 ++ i :: l2 -> opcode i <> kParameter -> o ∈ operands i ->
     is_Some (clone_map b !! o) \/ (o ∈ l1 /\ opcode o <> kParameter)) ->
  exists b' vals', foldM clone_instruction b l = OK b' /\ building_ok b' args vals' /\
    keeps_clones b b' /\ (forall i, i ∈ l -> opcode i <> kParameter -> is_Some (clone_map b' !! i)) /\
    (forall i ks, NewClone i ks ∈ builder b' -> NewClone i ks ∈ builder b \/ i ∈ l) /\
    new_call_operands b' = new_call_operands b.
Proof.
  intros Hb Hl Hops. destruct (foldM_total (fun done b' => exists vals', building_ok b' args vals' /\ keeps_clones b b' /\
    (forall i, i ∈ done -> opcode i <> kParameter -> is_Some (clone_map b' !! i)) /\
    (forall i ks, NewClone i ks ∈ builder b' -> NewClone i ks ∈ builder b \/ i ∈ done) /\
    new_call_operands b' = new_call_operands b) clone_instruction b l) as (b' & Hrun & vals' & H).
  - exists vals. split_and!; [done|by intros i|by intros p ?%elem_of_nil|by left|done].
  - intros done i rest b1 Heq (vals1 & Hb1 & Hk & Hd & Hcl & Hno).
    destruct (Hl i) as (Hio & Hne & Hroot); [rewrite Heq; apply elem_of_app; right; by left|].
    unfold clone_instruction. rewrite Hroot, orb_false_r. case_bool_decide as Hp.
    { exists b1. split; [done|]. exists vals1. split_and!; [done..| | |done].
      - intros j [Hj| ->%list_elem_of_singleton]%elem_of_app Hjp; [by apply Hd|done].
      - intros j ks [?|?]%Hcl; [by left|right]. apply elem_of_app. by left. }
    assert (forall o, o ∈ operands i -> exists k, clone_map b1 !! o = Some k) as Hclone.
    { intros o Ho. destruct (Hops done i rest o Heq Hp Ho) as [Hs|[Hs Hop]]; [by apply Hk|by apply Hd]. }
    destruct (mapM_Result_total (clone_of b1) (operands i)) as [ks Hks].
    { intros o Ho. destruct (Hclone o Ho) as [k Hk']. exists k. unfold clone_of. by rewrite Hk'. }
    rewrite Hks. cbn [mbind Result_bind]. eexists. split; [done|]. exists (vals1 ++ [body task i]).
    assert (Forall2 (fun o k => clone_map b1 !! o = Some k) (operands i) ks) as Hf.
    { apply mapM_Result_Forall2 in Hks. eapply Forall2_impl; [exact Hks|]. intros o k. unfold clone_of.
      destruct (clone_map b1 !! o); [by intros [= <-]|done]. }
    split_and!.
    + pose proof (building_add b1 args [] vals1 [] (NewClone i ks) i Hb1) as Hadd. rewrite !app_nil_r in Hadd.
      apply Hadd; [done|]. cbn.
      assert (mapM (vals1 !!.) ks = Some (body task <$> operands i)) as ->.
      { apply mapM_Some. clear -Hf Hb1. induction Hf as [|o k os ks Ho Hf IH]; constructor; [|done]. by apply (bd_clones _ _ _ Hb1). }
      cbn. f_equal. symmetry. by apply (ck_instruction _ _ _ _ _ Hc).
    + intros j Hj. cbn. rewrite lookup_insert. case_decide; [by eexists|]. by apply Hk.
    + intros j Hj Hjp. cbn. rewrite lookup_insert. case_decide as Hij; [by eexists|]. apply Hd; [|done].
      apply elem_of_app in Hj as [Hj| ->%list_elem_of_singleton]; done.
    + intros j js. cbn. intros [[?|?]%Hcl|[= -> ->]%list_elem_of_singleton]%elem_of_app; [by left|right..];
        apply elem_of_app; [by left|right; by left].
    + cbn. done.
  - by exists b', vals'.
Qed.

(** The values of what has been replaced before, and of the results of earlier groups. *)
Context (r0 : gmap I (Value I)) (Hr0 : forall i v, r0 !! i = Some v -> value outs v = Some (val i)).
Context (ext : gmap I (Value I)) (Hext : forall i v, ext !! i = Some v -> value outs v = Some (body task i)).

Lemma build_subtask_ok groups j l : grouping c groups -> groups !! j = Some l ->
  (forall o, o ∈ internal_parameters (task_config (root_instruction c) l) -> is_Some (ext !! o)) ->
  exists b roots args vals, build_subtask r0 ext task (task_config (root_instruction c) l) l = OK (b, roots) /\
    mapM (value outs) (new_call_operands b) = Some args /\ eval_log sem args (builder b) = Some vals /\
    Forall2 (fun k i => vals !! k = Some (body task i)) roots
      (external_roots (task_config (root_instruction c) l) ++ internal_roots (task_config (root_instruction c) l)) /\
    (forall i ks, NewClone i ks ∈ builder b -> i ∈ l).
Proof.
  intros Hg Hj Hint. pose proof (task_config_ok (root_instruction c) l) as [H1 H2 H3 H4]. set (cfg := task_config _ l) in *.
  assert (l ∈ groups) as Hl by (by eapply list_elem_of_lookup_2). unfold build_subtask.
  destruct (clone_params_ok (task_operand r0 task) (external_parameters cfg) (MkBuilding ∅ [] []) [] [])
    as (b1 & args1 & vals1 & -> & Hb1 & Hk1 & Hp1 & Hn1).
  { by split. }
  { intros p Hp. destruct (H1 p Hp) as (Hop & i & Hi & _ & Hpi). destruct (gr_members _ _ Hg l i Hl Hi) as [Hio _].
    destruct (ck_parameter _ _ _ _ _ Hc p (operand_in_order c i p Hio Hpi) Hop) as (o & Ho & Hval).
    unfold task_operand. rewrite Ho. cbn. eexists. split; [done|]. rewrite Hval. destruct (r0 !! o) as [v|] eqn:Hv; cbn; [by apply Hr0|done]. }
  cbn [mbind Result_bind].
  destruct (clone_params_ok (fun p => of_option Thrown (ext !! p)) (internal_parameters cfg) b1 args1 vals1 Hb1)
    as (b2 & args2 & vals2 & -> & Hb2 & Hk2 & Hp2 & Hn2).
  { intros p Hp. destruct (Hint p Hp) as [v Hv]. exists v. rewrite Hv. split; [done|]. by apply Hext. }
  cbn [mbind Result_bind].
  destruct (clone_instructions_ok l b2 args2 vals2 Hb2) as (b & vals & -> & Hb & Hk & Hcl & Hn & Hops).
  { intros i Hi. destruct (gr_members _ _ Hg l i Hl Hi). split_and!; [done..|]. by eapply member_not_root. }
  { intros l1 i l2 o Heq Hop Ho. assert (i ∈ l) as Hi by (rewrite Heq; apply elem_of_app; right; by left).
    destruct (H3 i o Hi Hop Ho) as [[_ Hoe]|[Hoo [Hol|Hoi]]]; [left; by apply Hk2, Hp1| |left; by apply Hp2].
    destruct (gr_order _ _ Hg j l l1 i l2 o Hj Heq Hop Ho Hoo) as [Hl1|(k & l' & Hlt & Hl' & Hol')]; [by right|].
    pose proof (gr_disjoint _ _ Hg j k l l' o Hj Hl' Hoo Hol Hol'). lia. }
  cbn [mbind Result_bind].
  destruct (mapM_Result_total (clone_of b) (external_roots cfg ++ internal_roots cfg)) as [roots Hroots].
  { intros i Hi. apply H4 in Hi as (Hi & Hop & _). destruct (Hcl i Hi Hop) as [k Hk']. exists k. unfold clone_of. by rewrite Hk'. }
  rewrite Hroots. cbn. exists b, roots, args2, vals. split; [done|]. split; [apply mapM_Some; apply (bd_operands _ _ _ Hb)|].
  split; [apply (bd_log _ _ _ Hb)|]. split.
  - apply mapM_Result_Forall2 in Hroots. apply Forall2_flip. eapply Forall2_impl; [exact Hroots|]. intros i k. unfold clone_of.
    destruct (clone_map b !! i) as [k'|] eqn:Hk'; [|done]. intros [= <-]. by apply (bd_clones _ _ _ Hb).
  - intros i ks [Hi|Hi]%Hn; [|done]. by apply Hn2, Hn1, elem_of_nil in Hi.
Qed.
End build.

(** ** The groups of a task *)

Lemma insert_results_lookup (f : Z -> Value I) (results : list (Z * I)) (m : gmap I (Value I)) :
  let m' := foldl (fun (m : gmap I (Value I)) ki => <[ki.2 := f ki.1]> m) m results in
  (forall i v, m' !! i = Some v -> m !! i = Some v \/ exists k, (k, i) ∈ results /\ v = f k) /\
  (forall i, is_Some (m !! i) \/ (exists k, (k, i) ∈ results) -> is_Some (m' !! i)).
Proof.
  cbn. induction results as [|[k i] results [IH1 IH2]] using rev_ind; cbn [foldl].
  - split; [by left|]. intros i [?|[k Hk]]; [done|]. by apply elem_of_nil in Hk.
  - rewrite foldl_app. cbn [foldl fst snd]. split; intros j; rewrite lookup_insert.
    + intros v. case_decide as Hij.
      * subst j. intros [= <-]. right. exists k. split; [|done]. apply elem_of_app. right. by left.
      * intros [?|(k' & ? & ?)]%IH1; [by left|right]. exists k'. split; [|done]. apply elem_of_app. by left.
    + intros Hj. case_decide as Hij; [by eexists|]. apply IH2. destruct Hj as [?|[k' [?|[= -> ->]%list_elem_of_singleton]%elem_of_app]];
        [by left|right; by exists k'|done].
Qed.

Lemma in_results (roots : list nat) (is_ : list I) k i : length roots = length is_ ->
  (k, i) ∈ zip (seqZ 0 (Zlength roots)) is_ -> (0 <= k) /\ is_ !! Z.to_nat k = Some i.
Proof.
  intros Hlen [n Hn]%list_elem_of_lookup. apply lookup_zip_Some in Hn as [Hk Hi]. apply lookup_seqZ in Hk as [-> Hn].
  rewrite Z.add_0_l, Nat2Z.id. split; [lia|done].
Qed.

Lemma results_cover (roots : list nat) (is_ : list I) i : length roots = length is_ -> i ∈ is_ ->
  exists k, (k, i) ∈ zip (seqZ 0 (Zlength roots)) is_.
Proof.
  intros Hlen [n Hn]%list_elem_of_lookup. exists (Z.of_nat n). apply list_elem_of_lookup. exists n. apply lookup_zip_Some.
  split; [|done]. apply lookup_seqZ. apply lookup_lt_Some in Hn. unfold Zlength. lia.
Qed.

Lemma CloneColor_fresh (p : HloPartition D) color new_color cfg : colors_ p !! color = Some cfg -> colors_ p !! new_color = None ->
  exists p', CloneColor p color new_color None None = OK (new_color, p') /\ colors_ p' = <[new_color := cfg]> (colors_ p).
Proof.
  intros Hc Hn. unfold CloneColor. rewrite Hc, bool_decide_eq_false_2 by (rewrite Hn; by intros []).
  eexists. split; [done|]. cbn. by destruct cfg.
Qed.

(** What is known of the splits so far: the calls have results, and what has been replaced
    keeps its value. *)
Definition splitting_ok (st : Splitting I D) (outs : list (list V)) : Prop :=
  eval_subtasks (subtasks st) = Some outs /\ forall i v, replaced st !! i = Some v -> value outs v = Some (val i).

Definition clones_in (s : Subtask I) l : Prop := forall i ks, NewClone i ks ∈ subtask_log s -> i ∈ l.

Section groups.
Context (task : I) (c : C) (Hc : computation_ok task c) (groups : list (list I)) (Hg : grouping c groups).
Context (color : string) (cfg : ColorConfig D) (st0 : Splitting I D) (outs0 : list (list V)) (H0 : splitting_ok st0 outs0).
Implicit Types (done : list (TaskConfig I * list I * string)) (g : TaskConfig I * list I * string) (suffixes : list string).
Abbreviation root := (root_instruction c).

(** The groups [done] have calls; [ext] are the elements that stand for instructions. *)
Record split_ok done (new_colors : list string) (ext : gmap I (Value I)) (st : Splitting I D) (outs : list (list V)) : Prop := {
  sp_eval : eval_subtasks (subtasks st) = Some outs;
  sp_outs : exists more, outs = outs0 ++ more;
  sp_replaced : replaced st = replaced st0;
  sp_values : forall i v, ext !! i = Some v -> value outs v = Some (body task i);
  sp_results : forall g i, g ∈ done -> i ∈ g.1.2 -> opcode i <> kParameter -> is_result root g.1.2 i -> is_Some (ext !! i);
  sp_elements : forall i v, ext !! i = Some v -> exists j g k, done !! j = Some g /\ i ∈ g.1.2 /\ opcode i <> kParameter /\
    v = Element (length (subtasks st0) + j) k;
  sp_subtasks : exists new, subtasks st = subtasks st0 ++ new /\
    Forall2 (fun g s => subtask_color s = color +:+ g.2 /\ clones_in s g.1.2) done new;
  sp_new_colors : new_colors = (fun g => color +:+ g.2) <$> done;
  sp_colors : forall x, colors_ (partition_ st) !! x =
    if bool_decide (x ∈ new_colors) then Some cfg else colors_ (partition_ st0) !! x;
}.

Abbreviation grouped suffixes := (zip (zip (task_config root <$> groups) groups) suffixes).

Lemma lookup_grouped suffixes j g : grouped suffixes !! j = Some g <->
  g.1.1 = task_config root g.1.2 /\ groups !! j = Some g.1.2 /\ suffixes !! j = Some g.2.
Proof.
  destruct g as [[k l] s]. cbn. rewrite lookup_zip_Some, lookup_zip_Some, list_lookup_fmap. cbn. split.
  - intros [[Hk Hl] Hs]. rewrite Hl in Hk. by injection Hk as <-.
  - intros (-> & -> & ->). done.
Qed.

(** An operand in another group is a result of an earlier one. *)
Lemma internal_available suffixes done g rest new_colors ext st outs : grouped suffixes = done ++ g :: rest ->
  split_ok done new_colors ext st outs -> forall o, o ∈ internal_parameters g.1.1 -> is_Some (ext !! o).
Proof.
  intros Heq Hok o Ho. assert (grouped suffixes !! length done = Some g) as Hl by (rewrite Heq; by apply list_lookup_middle).
  apply lookup_grouped in Hl as (Hcfg & Hgr & _). rewrite Hcfg in Ho.
  pose proof (task_config_ok root g.1.2) as [_ H2 _ _]. destruct (H2 o Ho) as (Hop & Hol & i & Hi & Hip & Hoi).
  apply list_elem_of_split in Hi as (l1 & l2 & Heq').
  destruct (gr_order _ _ Hg (length done) g.1.2 l1 i l2 o Hgr Heq' Hip Hoi Hop) as [Hl1|(k & l' & Hk & Hl' & Hol')].
  { exfalso. apply Hol. rewrite Heq'. apply elem_of_app. by left. }
  destruct (lookup_lt_is_Some_2 done k Hk) as [g' Hg']. assert (grouped suffixes !! k = Some g') as Hg2
    by (rewrite Heq; by apply lookup_app_l_Some).
  apply lookup_grouped in Hg2 as (_ & Hgr' & _). rewrite Hl' in Hgr'. injection Hgr' as ->.
  apply (sp_results _ _ _ _ _ Hok g'); [by eapply list_elem_of_lookup_2|done|done|].
  exists i. split; [by apply users_spec|]. right. intros Hin.
  assert (i ∈ g.1.2) as Hig by (rewrite Heq'; apply elem_of_app; right; by left).
  pose proof (gr_disjoint _ _ Hg _ _ _ _ i Hgr Hl' Hip Hig Hin). lia.
Qed.

Lemma split_group_ok suffixes done g rest new_colors ext st outs : grouped suffixes = done ++ g :: rest -> NoDup suffixes ->
  colors_ (partition_ st0) !! color = Some cfg ->
  (forall s, s ∈ suffixes -> colors_ (partition_ st0) !! (color +:+ s) = None) ->
  split_ok done new_colors ext st outs ->
  exists new_colors' ext' st' outs', split_group task color (new_colors, ext, st) g = OK (new_colors', ext', st') /\
    split_ok (done ++ [g]) new_colors' ext' st' outs'.
Proof.
  intros Heq Hnd Hcol Hfresh Hok. pose proof (internal_available _ _ _ _ _ _ _ _ Heq Hok) as Hint.
  assert (grouped suffixes !! length done = Some g) as Hl by (rewrite Heq; by apply list_lookup_middle).
  apply lookup_grouped in Hl as (Hcfg & Hgr & Hsuf). destruct g as [[gcfg l] suffix]. cbn [fst snd] in *. subst gcfg.
  destruct Hok as [E1 [more E2] E3 E4 E5 E6 (new & E7 & E8) E9 E10].
  assert (Hused : (color +:+ suffix) ∉ new_colors).
  { rewrite E9. intros ([[k' l'] s'] & Hs & Hin)%list_elem_of_fmap. cbn in Hs. apply (inj (String.append color)) in Hs as <-.
    apply list_elem_of_lookup in Hin as [n Hn]. assert (grouped suffixes !! n = Some (k', l', suffix)) as Hn2
      by (rewrite Heq; by apply lookup_app_l_Some).
    apply lookup_grouped in Hn2 as (_ & _ & Hn2). pose proof (NoDup_lookup _ _ _ _ Hnd Hn2 Hsuf). apply lookup_lt_Some in Hn. cbn in *. lia. }
  unfold split_group. cbn [fst snd].
  destruct (CloneColor_fresh (partition_ st) color (color +:+ suffix) cfg) as (p' & -> & Hp').
  { rewrite E10. by case_bool_decide. }
  { rewrite E10, bool_decide_eq_false_2 by done. apply Hfresh. by eapply list_elem_of_lookup_2. }
  cbn [mbind Result_bind]. rewrite E3.
  destruct (build_subtask_ok task c Hc outs (replaced st0)) with (ext := ext) (groups := groups) (j := length done) (l := l)
    as (b & roots & args & vals & -> & Hargs & Hlog & Hroots & Hclones); [|done..|].
  { intros i v Hv. rewrite E2. apply subtask_value_more. by apply H0. }
  cbn [mbind Result_bind]. set (is_ := external_roots (task_config root l) ++ internal_roots (task_config root l)) in *.
  pose proof (Forall2_length _ _ _ Hroots) as Hlen. pose proof (task_config_ok root l) as [_ _ _ Hroot].
  pose proof (eval_subtasks_length _ _ _ _ E1) as Houts.
  assert (mapM (vals !!.) roots = Some (body task <$> is_)) as Hrs.
  { apply mapM_Some. clear -Hroots. induction Hroots; constructor; done. }
  destruct (insert_results_lookup (Element (length (subtasks st))) (zip (seqZ 0 (Zlength roots)) is_) ext) as [Hext1 Hext2].
  do 4 eexists. split; [done|]. split; cbn [subtasks replaced partition_].
  - rewrite eval_subtasks_snoc, E1. cbn [mbind option_bind]. unfold eval_subtask. cbn [subtask_operands subtask_log subtask_roots].
    rewrite Hargs. cbn [mbind option_bind]. rewrite Hlog. cbn [mbind option_bind]. by rewrite Hrs.
  - exists (more ++ [body task <$> is_]). by rewrite E2, app_assoc.
  - done.
  - intros i v [Hv|(k & Hk & ->)]%Hext1; [by apply subtask_value_more, E4|]. destruct (in_results roots is_ k i Hlen Hk) as [_ Hi].
    cbn. rewrite <- Houts, list_lookup_middle by done. cbn. rewrite list_lookup_fmap, Hi. done.
  - intros g i Hgin Hig Hip Hres. apply Hext2. apply elem_of_app in Hgin as [Hgin| ->%list_elem_of_singleton]; [left; by apply (E5 g)|right].
    apply results_cover; [done|]. apply Hroot. done.
  - intros i v [Hv|(k & Hk & ->)]%Hext1.
    + destruct (E6 i v Hv) as (j & g & k & Hj & Hi & Hip & ->). exists j, g, k. split; [by apply lookup_app_l_Some|done].
    + destruct (in_results roots is_ k i Hlen Hk) as [_ Hi]. apply list_elem_of_lookup_2, Hroot in Hi as (Hi & Hip & _).
      exists (length done), (task_config root l, l, suffix), k. split; [by apply list_lookup_middle|]. split; [done|]. split; [done|].
      f_equal. rewrite E7, length_app. by rewrite (Forall2_length _ _ _ E8).
  - exists (new ++ [MkSubtask (color +:+ suffix) (new_call_operands b) (builder b) roots]). rewrite E7, app_assoc. split; [done|].
    apply Forall2_app; [done|]. constructor; [|done]. split; [done|]. intros i ks Hi. by eapply Hclones.
  - rewrite fmap_app. by rewrite E9.
  - intros x. rewrite Hp', lookup_insert, E10. case_decide as Hx.
    + subst x. rewrite bool_decide_eq_true_2; [done|]. apply elem_of_app. right. by left.
    + erewrite (bool_decide_ext (x ∈ new_colors ++ _)); [done|]. rewrite elem_of_app, list_elem_of_singleton. naive_solver.
Qed.

Lemma split_groups_ok suffixes : NoDup suffixes -> colors_ (partition_ st0) !! color = Some cfg ->
  (forall s, s ∈ suffixes -> colors_ (partition_ st0) !! (color +:+ s) = None) ->
  exists new_colors ext st outs, foldM (split_group task color) ([], ∅, st0) (grouped suffixes) = OK (new_colors, ext, st) /\
    split_ok (grouped suffixes) new_colors ext st outs.
Proof.
  intros Hnd Hcol Hfresh.
  destruct (foldM_total (fun done (acc : list string * gmap I (Value I) * Splitting I D) =>
      exists outs, split_ok done acc.1.1 acc.1.2 acc.2 outs) (split_group task color) ([], ∅, st0) (grouped suffixes))
    as ([[new_colors ext] st] & Hrun & outs & Hok).
  - exists outs0. split; cbn; try done; try (intros; by simplify_map_eq).
    + apply H0.
    + exists []. by rewrite app_nil_r.
    + intros g i Hg'. by apply elem_of_nil in Hg'.
    + exists []. rewrite app_nil_r. done.
  - intros done g rest [[new_colors ext] st] Heq [outs Hok].
    destruct (split_group_ok _ _ _ _ _ _ _ _ Heq Hnd Hcol Hfresh Hok) as (nc & e & s & o & Hrun & Hok'). exists (nc, e, s).
    split; [done|]. by exists o.
  - by exists new_colors, ext, st, outs.
Qed.

(** *** The users of the task *)

(** Every result of the task is computed: it is in a group. *)
Hypothesis no_parameter_results : forall u r, u ∈ users task -> operand root (tuple_index u) = OK r -> opcode r <> kParameter.

Lemma result_available suffixes new_colors ext st outs u r : length suffixes = length groups ->
  split_ok (grouped suffixes) new_colors ext st outs -> u ∈ users task -> operand root (tuple_index u) = OK r -> is_Some (ext !! r).
Proof.
  intros Hlen Hok Hu Hr. pose proof (no_parameter_results u r Hu Hr) as Hip.
  assert (r ∈ operands root) as Hro by (unfold operand in Hr; apply vec_at_lookup in Hr as [_ Hr]; by eapply list_elem_of_lookup_2).
  pose proof (operand_in_order c root r (postorder_root c) Hro) as Hin.
  assert (r <> root) as Hne by (intros ->; by apply (ck_root_unused _ _ _ _ _ Hc root (postorder_root c))).
  destruct (gr_cover _ _ Hg r Hin Hne Hip) as (l & [j Hj]%list_elem_of_lookup & Hrl).
  destruct (lookup_lt_is_Some_2 suffixes j) as [s Hs]; [rewrite Hlen; by eapply lookup_lt_Some|].
  apply (sp_results _ _ _ _ _ Hok (task_config root l, l, s)); [|done|done|].
  - apply list_elem_of_lookup. exists j. by apply lookup_grouped.
  - exists root. split; [by apply users_spec|by left].
Qed.

Lemma split_users_ok suffixes new_colors ext st outs : length suffixes = length groups ->
  split_ok (grouped suffixes) new_colors ext st outs ->
  exists st', foldM (replace_user root ext) st (users task) = OK st' /\
    subtasks st' = subtasks st /\ partition_ st' = partition_ st /\
    (forall i, i ∉ users task -> replaced st' !! i = replaced st !! i) /\
    (forall u r, u ∈ users task -> operand root (tuple_index u) = OK r -> exists v, ext !! r = Some v /\ replaced st' !! u = Some v).
Proof.
  intros Hlen Hok. destruct (foldM_total (fun (done : list I) st' => subtasks st' = subtasks st /\ partition_ st' = partition_ st /\
    (forall i, i ∉ done -> replaced st' !! i = replaced st !! i) /\
    (forall u r, u ∈ done -> operand root (tuple_index u) = OK r -> exists v, ext !! r = Some v /\ replaced st' !! u = Some v))
    (replace_user root ext) st (users task)) as (st' & Hrun & H).
  - split_and!; [done..|]. by intros u r ?%elem_of_nil.
  - intros done u rest s Heq (H1 & H2 & H3 & H4). assert (u ∈ users task) as Hu by (rewrite Heq; apply elem_of_app; right; by left).
    destruct (ck_result _ _ _ _ _ Hc u Hu) as (r & Hr & _). destruct (result_available suffixes _ _ _ _ u r Hlen Hok Hu Hr) as [v Hv].
    unfold replace_user. rewrite Hr. cbn [mbind Result_bind]. rewrite Hv. cbn. eexists. split; [done|]. cbn. split_and!; [done..| |].
    + intros i Hi. rewrite lookup_insert_ne; [apply H3|]; set_solver.
    + intros u' r' Hu' Hr'. rewrite lookup_insert. case_decide as Huu.
      * subst u'. rewrite Hr in Hr'. injection Hr' as <-. by exists v.
      * apply H4; [|done]. apply elem_of_app in Hu' as [?| ->%list_elem_of_singleton]; done.
  - by exists st'.
Qed.

(** *** The whole operation *)

Record split_result (suffixes : list string) (st : Splitting I D) (outs : list (list V)) (new : list (Subtask I)) : Prop := {
  sr_values : splitting_ok st outs;
  sr_outs : exists more, outs = outs0 ++ more;
  sr_subtasks : subtasks st = subtasks st0 ++ new;
  sr_clones : Forall2 (fun l s => clones_in s l) groups new;
  sr_colors : subtask_color <$> new = (String.append color) <$> suffixes;
  sr_users : forall u r, u ∈ users task -> operand root (tuple_index u) = OK r ->
    exists j l k, groups !! j = Some l /\ r ∈ l /\ replaced st !! u = Some (Element (length (subtasks st0) + j) k);
  sr_others : forall i, i ∉ users task -> replaced st !! i = replaced st0 !! i;
  sr_registry : forall x, colors_ (partition_ st) !! x =
    if bool_decide (x ∈ String.append color <$> suffixes) then Some cfg else colors_ (partition_ st0) !! x;
}.

Lemma grouped_suffixes suffixes : length suffixes = length groups ->
  (fun g : TaskConfig I * list I * string => color +:+ g.2) <$> grouped suffixes = String.append color <$> suffixes.
Proof.
  intros Hlen. trans (String.append color <$> (grouped suffixes).*2); [by rewrite <- list_fmap_compose|].
  f_equal. apply snd_zip. rewrite length_zip_with, length_fmap. lia.
Qed.

Lemma SplitTask_ok attrs suffixes : length suffixes = length groups -> NoDup suffixes ->
  Color (I := I) attrs task = Some color -> colors_ (partition_ st0) !! color = Some cfg ->
  (forall s, s ∈ suffixes -> colors_ (partition_ st0) !! (color +:+ s) = None) ->
  exists st outs new, SplitTask attrs st0 task groups suffixes = OK (String.append color <$> suffixes, st) /\
    split_result suffixes st outs new.
Proof.
  intros Hlen Hnd Hcol Hcfg Hfresh. unfold SplitTask, color_deref. rewrite (called_OK _ _ _ _ _ Hc). cbn [mbind Result_bind].
  rewrite Hcol. cbn [of_option mbind Result_bind]. rewrite bool_decide_eq_false_2 by lia.
  destruct (split_groups_ok suffixes Hnd Hcfg Hfresh) as (nc & ext & st1 & outs & -> & Hok). cbn [mbind Result_bind].
  destruct (split_users_ok suffixes nc ext st1 outs Hlen Hok) as (st & -> & U1 & U2 & U3 & U4). cbn [mbind Result_bind].
  destruct Hok as [E1 [more E2] E3 E4 E5 E6 (new & E7 & E8) E9 E10]. rewrite (grouped_suffixes suffixes Hlen) in E9.
  exists st, outs, new. rewrite E9. split; [done|]. split.
  - split; [by rewrite U1|]. intros i v Hv. destruct (decide (i ∈ users task)) as [Hi|Hi].
    + destruct (ck_result _ _ _ _ _ Hc i Hi) as (r & Hr & ->). destruct (U4 i r Hi Hr) as (w & Hw & Hrep).
      rewrite Hv in Hrep. injection Hrep as <-. by apply E4.
    + rewrite U3, E3 in Hv by done. rewrite E2. apply subtask_value_more. by apply H0.
  - by exists more.
  - by rewrite U1.
  - clear -E8 Hlen. assert (Forall2 (fun (l : list I) s => clones_in s l) ((fun g => g.1.2) <$> grouped suffixes) new) as Hf.
    { apply Forall2_fmap_l. eapply Forall2_impl; [exact E8|]. by intros g s [_ ?]. }
    rewrite (list_fmap_compose fst snd (grouped suffixes)), fst_zip in Hf by (rewrite length_zip_with, length_fmap; lia).
    by rewrite snd_zip in Hf by (rewrite length_fmap; lia).
  - rewrite <- (grouped_suffixes suffixes Hlen). clear -E8. induction E8 as [|g s gs ss [Hs _] Hf IH]; [done|]. cbn. by rewrite Hs, IH.
  - intros u r Hu Hr. destruct (U4 u r Hu Hr) as (v & Hv & Hrep). destruct (E6 r v Hv) as (j & g & k & Hj & Hrg & _ & ->).
    apply lookup_grouped in Hj as (_ & Hj & _). by exists j, g.1.2, k.
  - intros i Hi. by rewrite U3, E3.
  - intros x. by rewrite U2, E10, E9.
Qed.
End groups.
End semantics.
