(* ===== verification/CriticalPath.v ===== *)
(** * The result of a task that is needed first (critical_path_finder.cc)

    The breadth-first search of [FirstCallDepth] ends, although it keeps no record of what
    it has visited, and finds a call or the root at the least distance;
    [CriticalRootTupleIndex] chooses the element whose search finds the least depth. *)
From S2P Require Import Prelude Hlo Instruction Partition Utils Grouper Fusion SplitTask.
Local Open Scope Z_scope.

Section search.
Context {I C : Type} `{EqDecision I, !Countable I, !EqDecision C} `{!Hlo I C, !HloControl I C}.
Implicit Types (i u x y : I) (c : C) (depth_map : gmap I Z) (queue : list I).

Definition ends_search i : bool := bool_decide (opcode i = kCall) || is_computation_root i.

(** [x] is reached from [i] over [n] uses. *)
Definition uses (n : nat) i x : Prop := nsteps (fun a b => b ∈ users a) n i x.

(** ** What the search finds *)

(** [l1] are the instructions at distance [n] that are still to be visited, [l2] those at
    the next distance that have been found. *)
Record searching i (n : nat) (l1 l2 : list I) : Prop := {
  se_level : forall y, y ∈ l1 -> uses n i y;
  se_next : forall y, y ∈ l2 -> uses (S n) i y;
  se_rest : forall y, uses n i y -> y ∈ l1 \/ ends_search y = false;
  se_found : forall y, uses (S n) i y -> y ∈ l2 \/ exists x, x ∈ l1 /\ y ∈ users x;
  se_before : forall m y, (m < n)%nat -> uses m i y -> ends_search y = false;
}.

Definition nearest depth_map i (d : Z) : Prop := exists n x, uses n i x /\ ends_search x = true /\
  depth_map !! x = Some d /\ forall m y, (m < n)%nat -> uses m i y -> ends_search y = false.

Lemma searching_start i : searching i 0 [i] [].
Proof.
  split.
  - intros y ->%list_elem_of_singleton. constructor.
  - by intros y ?%elem_of_nil.
  - intros y Hy. inversion Hy; subst. left. by left.
  - intros y Hy. right. inversion Hy as [|? ? z ? Hz H1]; subst. inversion H1; subst. exists i. split; [by left|done].
  - intros m y. lia.
Qed.

Lemma searching_level i n l2 : searching i n [] l2 -> searching i (S n) l2 [].
Proof.
  intros [H1 H2 H3 H4 H5]. split.
  - exact H2.
  - by intros y ?%elem_of_nil.
  - intros y [Hy|(x & Hx & _)]%H4; [by left|by apply elem_of_nil in Hx].
  - intros y Hy. right. apply nsteps_inv_r in Hy as (x & Hx & Hu). exists x. split; [|done].
    destruct (H4 x Hx) as [|(z & Hz & _)]; [done|by apply elem_of_nil in Hz].
  - intros m y Hm Hy. destruct (decide (m = n)) as [->|]; [|apply (H5 m); [lia|done]].
    destruct (H3 y Hy) as [Hn|]; [by apply elem_of_nil in Hn|done].
Qed.

Lemma searching_step i n x l1 l2 : ends_search x = false -> searching i n (x :: l1) l2 -> searching i n l1 (l2 ++ users x).
Proof.
  intros Hx [H1 H2 H3 H4 H5]. split.
  - intros y Hy. apply H1. by right.
  - intros y [Hy|Hy]%elem_of_app; [by apply H2|]. eapply nsteps_r; [apply (H1 x); by left|done].
  - intros y [[->|?]%elem_of_cons|?]%H3; auto.
  - intros y [Hy|(z & [->|Hz]%elem_of_cons & Hu)]%H4; [left; apply elem_of_app; by left|left; apply elem_of_app; by right|].
    right. by exists z.
  - done.
Qed.

Lemma search_nearest depth_map i fuel n l1 l2 d : searching i n l1 l2 ->
  FirstCallDepth_loop fuel depth_map (l1 ++ l2) = OK d -> nearest depth_map i d.
Proof.
  revert n l1 l2. induction fuel as [|fuel IH]; intros n l1 l2 Hs; [done|].
  assert (forall n x l1 l2, searching i n (x :: l1) l2 ->
    FirstCallDepth_loop (S fuel) depth_map (x :: l1 ++ l2) = OK d -> nearest depth_map i d) as Hcons.
  { clear n l1 l2 Hs. intros n x l1 l2 Hs. cbn. fold (ends_search x). destruct (ends_search x) eqn:Hx.
    - destruct (depth_map !! x) as [d'|] eqn:Hd; [|done]. intros [= ->]. exists n, x. split; [apply (se_level _ _ _ _ Hs); by left|].
      split; [done|]. split; [done|]. apply (se_before _ _ _ _ Hs).
    - rewrite <- app_assoc. apply (IH n). by apply searching_step. }
  destruct l1 as [|x l1]; [|by apply (Hcons n x l1 l2 Hs)]. apply searching_level in Hs. destruct l2 as [|x l2]; [done|].
  intros Hrun. apply (Hcons (S n) x l2 []); [done|]. by rewrite app_nil_r.
Qed.

(** ** The search ends *)

Context `{!PostOrderLaws I C, !UsersLaws I C}.

(** Users are in the computation of the instruction they use. *)
Definition users_inside c : Prop := forall i u, i ∈ MakeInstructionPostOrder c -> u ∈ users i -> u ∈ MakeInstructionPostOrder c.

(** A bound of the number of visits that start from an instruction. *)
Lemma visits_exist c : users_inside c ->
  exists f : I -> nat, forall i, i ∈ MakeInstructionPostOrder c -> (S (list_sum (f <$> users i)) <= f i)%nat.
Proof.
  intros Hin. assert (forall l pre, MakeInstructionPostOrder c = pre ++ l ->
    exists f : I -> nat, forall i, i ∈ l -> (S (list_sum (f <$> users i)) <= f i)%nat) as H; [|by apply (H _ [])].
  induction l as [|x l IH]; intros pre Heq; [exists (fun _ => 0%nat); by intros i ?%elem_of_nil|].
  destruct (IH (pre ++ [x])) as [f Hf]; [by rewrite <- app_assoc|].
  assert (MakeInstructionPostOrder c !! length pre = Some x) as Hx by (rewrite Heq; by apply list_lookup_middle).
  assert (forall i u, i ∈ x :: l -> u ∈ users i -> u ∈ l) as Hl.
  { intros i u Hi Hu. assert (i ∈ MakeInstructionPostOrder c) as Hic by (rewrite Heq; apply elem_of_app; by right).
    pose proof (Hin i u Hic Hu) as [n Hn]%list_elem_of_lookup. apply users_spec in Hu.
    destruct (postorder_operands c n u i Hn Hu) as (m & Hm & Hi').
    assert (length pre <= m)%nat as Hge.
    { apply list_elem_of_lookup in Hi as [k Hk]. assert (MakeInstructionPostOrder c !! (length pre + k)%nat = Some i) as Hk'
        by (rewrite Heq, lookup_app_r by lia; by replace (length pre + k - length pre)%nat with k by lia).
      pose proof (NoDup_lookup _ _ _ _ (postorder_NoDup c) Hk' Hi'). lia. }
    rewrite Heq, lookup_app_r in Hn by lia. destruct (n - length pre)%nat as [|k] eqn:Hk; [lia|]. by eapply list_elem_of_lookup_2. }
  pose proof (postorder_NoDup c) as Hnd. rewrite Heq in Hnd. apply NoDup_app in Hnd as (_ & _ & [Hxl _]%NoDup_cons).
  exists (fun j => if decide (j = x) then S (list_sum (f <$> users x)) else f j). intros i Hi.
  assert (((fun j => if decide (j = x) then S (list_sum (f <$> users x)) else f j) <$> users i) = f <$> users i) as ->.
  { apply list_fmap_ext. intros k u Hu%list_elem_of_lookup_2. rewrite decide_False; [done|]. intros ->. by apply Hxl, (Hl i). }
  case_decide as Hix; [by subst i|]. apply Hf. by apply elem_of_cons in Hi as [|].
Qed.

Lemma list_sum_fmap_app (f : I -> nat) l1 l2 : list_sum (f <$> (l1 ++ l2)) = (list_sum (f <$> l1) + list_sum (f <$> l2))%nat.
Proof. by rewrite fmap_app, list_sum_app. Qed.

Lemma search_total c depth_map (f : I -> nat) fuel queue :
  users_inside c -> (forall i, i ∈ MakeInstructionPostOrder c -> (S (list_sum (f <$> users i)) <= f i)%nat) ->
  (forall i, i ∈ MakeInstructionPostOrder c -> is_Some (depth_map !! i)) ->
  (forall i, i ∈ queue -> i ∈ MakeInstructionPostOrder c) -> (list_sum (f <$> queue) < fuel)%nat ->
  (exists i n x, i ∈ queue /\ uses n i x /\ ends_search x = true) ->
  exists d, FirstCallDepth_loop fuel depth_map queue = OK d.
Proof.
  intros Hin Hf Hd. revert queue. induction fuel as [|fuel IH]; intros queue Hq Hlt (i & n & x & Hi & Hn & Hx); [lia|].
  destruct queue as [|y queue]; [by apply elem_of_nil in Hi|]. cbn. fold (ends_search y).
  assert (y ∈ MakeInstructionPostOrder c) as Hy by (apply Hq; by left).
  destruct (ends_search y) eqn:Hys; [destruct (Hd y Hy) as [d Hdy]; exists d; by rewrite Hdy|].
  apply IH.
  - intros z [Hz|Hz]%elem_of_app; [apply Hq; by right|by apply (Hin y)].
  - rewrite list_sum_fmap_app. change (f y + list_sum (f <$> queue) < S fuel)%nat in Hlt. specialize (Hf y Hy). lia.
  - apply elem_of_cons in Hi as [->|Hi]; [|exists i, n, x; split; [apply elem_of_app; by left|done]].
    inversion Hn as [|m ? z ? Hz Hm]; subst; [by rewrite Hys in Hx|]. exists z, m, x. split; [apply elem_of_app; by right|done].
Qed.

(** With enough fuel the search from any instruction of the computation that a call or
    the root can be reached from has a result. *)
Lemma FirstCallDepth_total c depth_map : users_inside c ->
  (forall i, i ∈ MakeInstructionPostOrder c -> is_Some (depth_map !! i)) ->
  exists fuel0, forall fuel i n x, (fuel0 <= fuel)%nat -> i ∈ MakeInstructionPostOrder c -> uses n i x -> ends_search x = true ->
    exists d, FirstCallDepth fuel depth_map i = OK d.
Proof.
  intros Hin Hd. destruct (visits_exist c Hin) as [f Hf]. exists (S (list_sum (f <$> MakeInstructionPostOrder c))).
  intros fuel i n x Hfuel Hi Hn Hx. apply (search_total c depth_map f); try done.
  - by intros j ->%list_elem_of_singleton.
  - cbn. rewrite Nat.add_0_r. apply list_elem_of_split in Hi as (l1 & l2 & Heq). rewrite Heq, list_sum_fmap_app in Hfuel. cbn [fmap list_fmap list_sum foldr] in Hfuel. unfold list_sum in *. lia.
  - exists i, n, x. split; [by left|done].
Qed.

Lemma FirstCallDepth_nearest depth_map fuel i d : FirstCallDepth fuel depth_map i = OK d -> nearest depth_map i d.
Proof. apply (search_nearest depth_map i fuel 0 [i] []). apply searching_start. Qed.

(** ** The choice of the result *)

Lemma critical_fold fuel c depth_map (depth : I -> Z) us :
  (forall u, u ∈ us -> opcode u = kGetTupleElement /\ tuple_index u < Zlength (operands (root_instruction c)) /\
     FirstCallDepth fuel depth_map u = OK (depth u) /\ depth u < kMaxUint64) ->
  exists r, foldM (critical_step fuel c depth_map) (kMaxUint64, 0) us = OK r /\
    (us = [] /\ r = (kMaxUint64, 0) \/ exists u, u ∈ us /\ r = (depth u, tuple_index u) /\
       forall w, w ∈ us -> depth u < depth w \/ (depth u = depth w /\ tuple_index u <= tuple_index w)).
Proof.
  intros Hus. destruct (foldM_total (fun (seen : list I) r => seen = [] /\ r = (kMaxUint64, 0) \/
    exists u, u ∈ seen /\ r = (depth u, tuple_index u) /\
      forall w, w ∈ seen -> depth u < depth w \/ (depth u = depth w /\ tuple_index u <= tuple_index w))
    (critical_step fuel c depth_map) (kMaxUint64, 0) us) as (r & Hr & H); [by left| |by exists r].
  intros seen u rest r Heq Hinv. destruct (Hus u) as (Hop & Hidx & Hfd & Hmax); [rewrite Heq; apply elem_of_app; right; by left|].
  unfold critical_step. rewrite bool_decide_eq_false_2 by (by intros ?). rewrite bool_decide_eq_false_2 by lia.
  rewrite Hfd. cbn [mbind Result_bind].
  destruct Hinv as [[-> ->]|(b & Hb & -> & Hbest)].
  - rewrite bool_decide_eq_true_2 by lia. rewrite (bool_decide_eq_false_2 (depth u = kMaxUint64)) by lia. cbn.
    eexists. split; [done|]. right. exists u. split; [by left|]. split; [done|]. intros w ->%list_elem_of_singleton. lia.
  - case_bool_decide as Hle; [case_bool_decide as Heqd; [case_bool_decide as Hi|]|]; cbn.
    1, 4: eexists; (split; [done|]); right; exists b; (split; [apply elem_of_app; by left|]); (split; [done|]);
      intros w [Hw| ->%list_elem_of_singleton]%elem_of_app; [by apply Hbest|lia].
    all: eexists; (split; [done|]); right; exists u; (split; [apply elem_of_app; right; by left|]); (split; [done|]);
      intros w [Hw| ->%list_elem_of_singleton]%elem_of_app; [destruct (Hbest w Hw); lia|lia].
Qed.

(** The users of a call from each of which a call or the root can be reached. *)
Record has_critical_result (call : I) (c : C) : Prop := {
  hc_some : users call <> [];
  hc_user : forall u, u ∈ users call -> u ∈ MakeInstructionPostOrder c /\ opcode u = kGetTupleElement /\
    0 <= tuple_index u < Zlength (operands (root_instruction c));
  hc_reached : forall u, u ∈ users call -> exists n x, uses n u x /\ ends_search x = true;
}.

Definition least_of (call : I) depth_map (u : I) : Prop := exists d, nearest depth_map u d /\
  forall w, w ∈ users call -> exists dw, nearest depth_map w dw /\ (d < dw \/ (d = dw /\ tuple_index u <= tuple_index w)).

Lemma CriticalRootTupleIndex_exists c depth_map : users_inside c ->
  (forall i, i ∈ MakeInstructionPostOrder c -> exists d, depth_map !! i = Some d /\ 0 <= d < kMaxUint64) ->
  exists fuel0, forall fuel call, (fuel0 <= fuel)%nat -> has_critical_result call c ->
    exists u, u ∈ users call /\ CriticalRootTupleIndex fuel call c depth_map = OK (tuple_index u) /\ least_of call depth_map u.
Proof.
  intros Hin Hd. destruct (FirstCallDepth_total c depth_map Hin) as [fuel0 Htot].
  { intros i Hi. destruct (Hd i Hi) as (d & -> & _). by eexists. }
  exists fuel0. intros fuel call Hfuel Hc.
  assert (forall u, u ∈ users call -> exists d, FirstCallDepth fuel depth_map u = OK d) as Hfd.
  { intros u Hu. destruct (hc_user _ _ Hc u Hu) as (Hi & _). destruct (hc_reached _ _ Hc u Hu) as (n & x & Hn & Hx). by apply (Htot fuel u n x). }
  set (depth u := match FirstCallDepth fuel depth_map u with OK d => d | _ => 0 end).
  assert (forall u, u ∈ users call -> FirstCallDepth fuel depth_map u = OK (depth u)) as Hdepth.
  { intros u Hu. unfold depth. destruct (Hfd u Hu) as [d ->]. done. }
  destruct (critical_fold fuel c depth_map depth (users call)) as (r & Hr & [[Hnil _]|(u & Hu & -> & Hbest)]).
  { intros u Hu. destruct (hc_user _ _ Hc u Hu) as (Hi & Hop & Hidx). split_and!; [done|lia|by apply Hdepth|].
    destruct (FirstCallDepth_nearest _ _ _ _ (Hdepth u Hu)) as (n & x & Hn & _ & Hx & _).
    assert (x ∈ MakeInstructionPostOrder c) as Hxc.
    { clear -Hn Hi Hin. revert Hi. induction Hn as [|m a b z Hab Hm IH]; [done|]. intros Ha. by apply IH, (Hin a). }
    destruct (Hd x Hxc) as (d & Hdx & ?). rewrite Hdx in Hx. injection Hx as <-. lia. }
  { by destruct (hc_some _ _ Hc). }
  exists u. split; [done|]. unfold CriticalRootTupleIndex. rewrite Hr. split; [done|].
  exists (depth u). split; [by eapply FirstCallDepth_nearest, Hdepth|]. intros w Hw. exists (depth w).
  split; [by eapply FirstCallDepth_nearest, Hdepth|]. by apply Hbest.
Qed.
End search.
