(* ===== verification/CriticalSplit.v ===== *)
(** * Splitting the tasks of a loop along the critical path (mpmd_split_critical_path.cc)

    The critical instructions of a task and the others are groups that [SplitTask] can be
    given; the pass splits every task of the first microbatch loop that its color marks,
    and the results of the tasks keep their values. *)
From S2P Require Import Prelude Hlo Instruction Partition Utils Grouper GrouperSemantics Fusion FusionSemantics SplitTask SplitTaskFacts SplitTaskSemantics CriticalPath.
Local Open Scope Z_scope.

(** An element that is before another one in a list is before it in a filtered list. *)
Lemma filter_before {A} (P : A -> Prop) `{!forall x, Decision (P x)} (l l1 l2 : list A) x y m n :
  NoDup l -> l !! m = Some y -> l !! n = Some x -> (m < n)%nat -> P y -> filter P l = l1 ++ x :: l2 -> y ∈ l1.
Proof.
  revert l1 m n. induction l as [|z l IH]; intros l1 m n Hnd Hm Hn Hlt Hy Hf; [done|].
  apply NoDup_cons in Hnd as [Hz Hnd]. destruct n as [|n]; [lia|]. cbn in Hn.
  assert (x <> z) as Hxz by (intros ->; apply Hz; by eapply list_elem_of_lookup_2).
  rewrite filter_cons in Hf. destruct m as [|m]; cbn in Hm.
  - injection Hm as <-. rewrite decide_True in Hf by done. destruct l1 as [|w l1]; [by injection Hf as <- _|].
    injection Hf as <- _. by left.
  - case_decide.
    + destruct l1 as [|w l1]; [by injection Hf as <- _|]. injection Hf as <- Hf. right. apply (IH l1 m n); try done. lia.
    + apply (IH l1 m n); try done. lia.
Qed.

Section critical.
Context {I C St D V : Type} `{EqDecision I, !Countable I, !EqDecision C} `{!Hlo I C, !HloControl I C}.
Context `{EqDecision D, !Countable D, !DeviceListApi D} `{!AttrStore I St}.
Context `{!PostOrderLaws I C, !UsersLaws I C}.
Context (sem : I -> list V -> V) (val : I -> V) (body : I -> I -> V) (ExecutesBefore : I -> I -> bool).
Implicit Types (i o user call : I) (c : C) (cr : I).
Abbreviation value := (value val).
Abbreviation computation_ok := (computation_ok sem val body).
Abbreviation splitting_ok := (splitting_ok sem val).
Abbreviation is_critical := (is_critical ExecutesBefore).
Abbreviation SplitComputation := (SplitComputation ExecutesBefore).

(** A task that can be split: its results are computed by it, and what an instruction
    before a result takes is before the result too. *)
Record splittable call c : Prop := {
  sl_computation : computation_ok call c;
  sl_parent : forall i, i ∈ MakeInstructionPostOrder c -> parent i = c;
  sl_root : opcode (root_instruction c) = kTuple;
  sl_results : forall u r, u ∈ users call -> operand (root_instruction c) (tuple_index u) = OK r -> opcode r <> kParameter;
  sl_ordering : forall cr i o, cr ∈ operands (root_instruction c) -> i ∈ MakeInstructionPostOrder c ->
    is_critical cr i = true -> o ∈ operands i -> is_critical cr o = true;
}.

Section groups.
Context (call : I) (c : C) (Hc : splittable call c) (cr : I) (Hcr : cr ∈ operands (root_instruction c)).
Abbreviation instructions := (filter (fun i => is_computation_root i = false) (MakeInstructionPostOrder c)).
Definition critical_groups : list (list I) :=
  [filter (fun i => is_critical cr i = true) instructions; filter (fun i => is_critical cr i = false) instructions].

Lemma not_root i : i ∈ MakeInstructionPostOrder c -> is_computation_root i = false <-> i <> root_instruction c.
Proof.
  intros Hi. unfold is_computation_root. rewrite (sl_parent _ _ Hc i Hi), bool_decide_eq_false. naive_solver.
Qed.

Lemma in_group j l i : critical_groups !! j = Some l -> i ∈ l -> i ∈ MakeInstructionPostOrder c /\ i <> root_instruction c /\
  is_critical cr i = bool_decide (j = 0%nat).
Proof.
  intros Hj Hi. do 2 (destruct j as [|j]; [injection Hj as <-; apply list_elem_of_filter in Hi as [Hcrit [Hr Hi]%list_elem_of_filter];
    apply not_root in Hr; done|]). done.
Qed.

Lemma operand_not_root i o : i ∈ MakeInstructionPostOrder c -> o ∈ operands i -> o ∈ MakeInstructionPostOrder c /\ o <> root_instruction c.
Proof.
  intros Hi Ho. split; [by eapply operand_in_order|]. intros ->. by apply (ck_root_unused _ _ _ _ _ (sl_computation _ _ Hc) i Hi).
Qed.

(** The operand of an instruction of a group that is in the same group is before it. *)
Lemma before_in_group (b : bool) l1 i l2 o :
  filter (fun i => is_critical cr i = b) instructions = l1 ++ i :: l2 -> o ∈ operands i -> is_critical cr o = b -> o ∈ l1.
Proof.
  intros Heq Ho Hb. assert (i ∈ filter (fun i => is_critical cr i = b) instructions) as Hi
    by (rewrite Heq; apply elem_of_app; right; by left).
  apply list_elem_of_filter in Hi as [_ [_ Hi]%list_elem_of_filter]. destruct (operand_not_root i o Hi Ho) as [Hoc Hor].
  apply list_elem_of_lookup in Hi as [n Hn]. destruct (postorder_operands c n i o Hn Ho) as (m & Hm & Hmo).
  rewrite list_filter_filter in Heq. eapply (filter_before _ _ _ _ _ _ m n (postorder_NoDup c) Hmo Hn Hm); [|exact Heq].
  split; [done|]. by apply not_root.
Qed.

Lemma critical_grouping : grouping c critical_groups.
Proof.
  split.
  - intros l i [j Hj]%list_elem_of_lookup Hi. by destruct (in_group j l i Hj Hi) as (? & ? & _).
  - intros i Hi Hr _. destruct (is_critical cr i) eqn:Hb.
    + exists (filter (fun i => is_critical cr i = true) instructions). split; [by left|]. apply list_elem_of_filter. split; [done|].
      apply list_elem_of_filter. split; [by apply not_root|done].
    + exists (filter (fun i => is_critical cr i = false) instructions). split; [right; by left|]. apply list_elem_of_filter. split; [done|].
      apply list_elem_of_filter. split; [by apply not_root|done].
  - intros j k l l' i Hj Hk _ Hi Hi'. destruct (in_group j l i Hj Hi) as (_ & _ & H1). destruct (in_group k l' i Hk Hi') as (_ & _ & H2).
    rewrite H1 in H2. apply lookup_lt_Some in Hj, Hk. cbn in Hj, Hk. do 2 case_bool_decide; try done; lia.
  - intros j l l1 i l2 o Hj Heq Hip Ho Hop. assert (i ∈ l) as Hil by (rewrite Heq; apply elem_of_app; right; by left).
    destruct (in_group j l i Hj Hil) as (Hi & _ & Hb). destruct (operand_not_root i o Hi Ho) as [Hoc Hor].
    destruct j as [|[|j]]; [| |done]; injection Hj as <-; cbn in Hb.
    + left. eapply before_in_group; [exact Heq|done|]. by eapply (sl_ordering _ _ Hc cr i).
    + destruct (is_critical cr o) eqn:Hco; [right|left; by eapply before_in_group].
      exists 0%nat, (filter (fun i => is_critical cr i = true) instructions). split; [lia|]. split; [done|].
      apply list_elem_of_filter. split; [done|]. apply list_elem_of_filter. split; [by apply not_root|done].
  - apply (sl_parent _ _ Hc).
Qed.
End groups.

(** ** One task *)

(** The color of a task that is to be split, and the suffixes of the new colors. *)
Record split_color (attrs : St) (p : HloPartition D) call (color critical_suffix non_critical_suffix : string) : Prop := {
  sc_color : Color (I := I) attrs call = Some color;
  sc_config : exists cfg, colors_ p !! color = Some cfg /\
    to_split_backprop (cc_task_options cfg) = Some (critical_suffix, non_critical_suffix);
  sc_distinct : critical_suffix <> non_critical_suffix;
  sc_fresh : colors_ p !! (color +:+ critical_suffix) = None /\ colors_ p !! (color +:+ non_critical_suffix) = None;
}.

(** Splitting a task along its result number [k]: it has two calls, the first of the
    instructions that the result needs, the second of the others and not critical. *)
Record split_along (st0 : Splitting I D) call c (k : Z) (color s1 s2 : string) (st : Splitting I D) (outs : list (list V)) : Prop := {
  sa_values : splitting_ok st outs;
  sa_calls : exists cr critical non_critical, operand (root_instruction c) k = OK cr /\
    subtasks st = subtasks st0 ++ [critical; non_critical] /\
    subtask_color critical = color +:+ s1 /\ subtask_color non_critical = color +:+ s2 /\
    (forall i ks, NewClone i ks ∈ subtask_log critical -> is_critical cr i = true) /\
    (forall i ks, NewClone i ks ∈ subtask_log non_critical -> is_critical cr i = false);
  sa_first : forall u, u ∈ users call -> tuple_index u = k -> exists n, replaced st !! u = Some (Element (length (subtasks st0)) n);
  sa_users : forall u, u ∈ users call -> is_Some (replaced st !! u);
  sa_others : forall i, i ∉ users call -> replaced st !! i = replaced st0 !! i;
  sa_devices : forall s cfg, (s = color +:+ s1 \/ s = color +:+ s2) -> colors_ (partition_ st0) !! color = Some cfg ->
    exists cfg', colors_ (partition_ st) !! s = Some cfg' /\ cc_devices cfg' = cc_devices cfg /\
      cc_noncritical cfg' = (cc_noncritical cfg || bool_decide (s = color +:+ s2))%bool;
  sa_registry : forall x, x <> color +:+ s1 -> x <> color +:+ s2 -> colors_ (partition_ st) !! x = colors_ (partition_ st0) !! x;
}.

Lemma SplitComputation_ok attrs st0 outs0 call c k color s1 s2 : splitting_ok st0 outs0 -> splittable call c ->
  split_color attrs (partition_ st0) call color s1 s2 -> 0 <= k < Zlength (operands (root_instruction c)) ->
  exists st outs, SplitComputation attrs st0 call k = OK st /\ split_along st0 call c k color s1 s2 st outs.
Proof.
  intros H0 Hc [Hcol (cfg & Hcfg & Hsplit) Hdist [Hf1 Hf2]] Hk. unfold SplitTask.SplitComputation.
  rewrite (called_OK _ _ _ _ _ (sl_computation _ _ Hc)). cbn [mbind Result_bind].
  rewrite bool_decide_eq_false_2 by (rewrite (sl_root _ _ Hc); by intros ?). rewrite bool_decide_eq_false_2 by lia.
  unfold color_deref. rewrite Hcol. cbn [of_option mbind Result_bind]. unfold GetTaskOptions, ConfigForColor. rewrite Hcfg. cbn [mbind Result_bind].
  rewrite Hsplit. destruct (vec_at_is_OK (operands (root_instruction c)) k Hk) as [cr Hcr]. unfold operand. rewrite Hcr. cbn [mbind Result_bind].
  assert (cr ∈ operands (root_instruction c)) as Hcrin by (apply vec_at_lookup in Hcr as [_ Hcr']; by eapply list_elem_of_lookup_2).
  destruct (SplitTask_ok sem val body call c (sl_computation _ _ Hc) (critical_groups c cr) (critical_grouping call c Hc cr Hcrin)
    color cfg st0 outs0 H0 (sl_results _ _ Hc) attrs [s1; s2]) as (st & outs & new & Hrun & [R1 R2 R3 R4 R5 R6 R7 R8]); try done.
  { repeat constructor; set_solver. }
  { intros s [->|[->|Hs]%elem_of_cons]%elem_of_cons; [done|done|by apply elem_of_nil in Hs]. }
  unfold critical_groups in Hrun. rewrite Hrun. cbn [mbind Result_bind fmap list_fmap]. cbn.
  apply Forall2_cons_inv_l in R4 as (critical & new' & Hcl1 & R4 & ->).
  apply Forall2_cons_inv_l in R4 as (non_critical & new'' & Hcl2 & R4 & ->). apply Forall2_nil_inv_l in R4 as ->.
  injection R5 as Hc1 Hc2. assert (color +:+ s1 <> color +:+ s2) as Hne by (by intros ?%(inj (String.append color))).
  do 2 eexists. split; [done|]. split; cbn [subtasks replaced partition_].
  - exact R1.
  - exists cr, critical, non_critical. split_and!; try done.
    + intros i ks Hi. apply Hcl1 in Hi. apply list_elem_of_filter in Hi as [? _]. done.
    + intros i ks Hi. apply Hcl2 in Hi. apply list_elem_of_filter in Hi as [? _]. done.
  - intros u Hu Huk. destruct (R6 u cr Hu) as (j & l & n & Hj & Hl & Hrep); [unfold operand; by rewrite Huk|].
    destruct (in_group call c Hc cr j l cr Hj Hl) as (_ & _ & Hb). unfold SplitTask.is_critical in Hb.
    rewrite (bool_decide_eq_true_2 (cr = cr)), orb_true_r in Hb by done. symmetry in Hb. apply bool_decide_eq_true in Hb as ->.
    exists n. rewrite Hrep. by rewrite Nat.add_0_r.
  - intros u Hu. destruct (ck_result _ _ _ _ _ (sl_computation _ _ Hc) u Hu) as (r & Hr & _).
    destruct (R6 u r Hu Hr) as (j & l & n & _ & _ & ->). by eexists.
  - exact R7.
  - intros s cfg' Hs Hcfg'. rewrite Hcfg in Hcfg'. injection Hcfg' as <-. unfold SetColorAsNonCritical. cbn.
    assert (forall s, s = color +:+ s1 \/ s = color +:+ s2 -> colors_ (partition_ st) !! s = Some cfg) as Hnew.
    { intros x Hx. rewrite R8, bool_decide_eq_true_2; [done|]. destruct Hx as [-> | ->]; [by left|right; by left]. }
    rewrite lookup_insert. case_decide as Hd.
    + rewrite (Hnew (color +:+ s2)) by auto. eexists. split; [done|]. cbn. rewrite bool_decide_eq_true_2, orb_true_r by done. done.
    + rewrite Hnew by done. eexists. split; [done|]. rewrite bool_decide_eq_false_2, orb_false_r by congruence. done.
  - intros x Hx1 Hx2. unfold SetColorAsNonCritical. cbn. rewrite lookup_insert_ne by congruence.
    rewrite R8, bool_decide_eq_false_2; [done|]. cbn. set_solver.
Qed.

(** ** The pass *)

(** The depths are less than the number of instructions. *)
Lemma depth_bound c n i : MakeInstructionPostOrder c !! n = Some i -> exists d, ComputeDepthMap c !! i = Some d /\ 0 <= d <= Z.of_nat n.
Proof.
  revert i. induction n as [n IH] using lt_wf_ind; intros i Hn.
  destruct (ComputeDepthMap_spec c i) as [Hd _]; [by eapply list_elem_of_lookup_2|]. eexists. split; [exact Hd|].
  unfold depth_of. split; [apply foldr_max_nonneg|].
  assert (forall l, (forall x, x ∈ l -> x <= Z.of_nat n) -> foldr Z.max 0 l <= Z.of_nat n) as Hmax.
  { induction l as [|x l IHl]; cbn [foldr]; intros Hl; [lia|]. apply Z.max_lub; [apply Hl; by left|apply IHl; intros y Hy; apply Hl; by right]. }
  apply Hmax. intros x (o & -> & Ho)%list_elem_of_fmap. destruct (postorder_operands c n i o Hn Ho) as (m & Hm & Hmo).
  destruct (IH m Hm o Hmo) as (d & Hdo & ?). unfold depth_at. rewrite Hdo. cbn. lia.
Qed.

Section loop.
Context (attrs : St) (p : HloPartition D) (w : C).

(** A task of the loop that is to be split. *)
Definition split_task call (color s1 s2 : string) : Prop :=
  call ∈ MakeInstructionPostOrder w /\ opcode call = kCall /\ Color (I := I) attrs call = Some color /\
  exists cfg, colors_ p !! color = Some cfg /\ to_split_backprop (cc_task_options cfg) = Some (s1, s2).

(** Every task has a registered color; the names of the new colors are not used. *)
Record loop_splittable : Prop := {
  ls_colored : forall call, call ∈ MakeInstructionPostOrder w -> opcode call = kCall ->
    exists color cfg, Color (I := I) attrs call = Some color /\ colors_ p !! color = Some cfg;
  ls_splittable : forall call color s1 s2, split_task call color s1 s2 -> exists c, splittable call c /\ has_critical_result call w;
  ls_users : forall call color s1 s2 u, split_task call color s1 s2 -> u ∈ users call -> operands u = [call];
  ls_names : forall call color s1 s2, split_task call color s1 s2 -> s1 <> s2 /\
    colors_ p !! (color +:+ s1) = None /\ colors_ p !! (color +:+ s2) = None;
  ls_unique : forall call color s1 s2 call' color' s1' s2' s s', split_task call color s1 s2 -> split_task call' color' s1' s2' ->
    s = s1 \/ s = s2 -> s' = s1' \/ s' = s2' -> color +:+ s = color' +:+ s' -> call = call';
  ls_inside : users_inside w;
  ls_size : Zlength (MakeInstructionPostOrder w) < kMaxUint64;
}.
Context (Hw : loop_splittable).

(** What has become of a task: two calls one after the other, the first of exactly the
    instructions of the task that the result needed first depends on, and each in a new
    color on the devices of the task. *)
Definition split_in (st : Splitting I D) call (color s1 s2 : string) : Prop :=
  exists c n critical non_critical u cr k,
    called_computation call 0 = OK c /\ u ∈ users call /\ least_of call (ComputeDepthMap w) u /\
    operand (root_instruction c) (tuple_index u) = OK cr /\ replaced st !! u = Some (Element n k) /\
    subtasks st !! n = Some critical /\ subtasks st !! S n = Some non_critical /\
    subtask_color critical = color +:+ s1 /\ subtask_color non_critical = color +:+ s2 /\
    (forall i ks, NewClone i ks ∈ subtask_log critical -> is_critical cr i = true) /\
    (forall i ks, NewClone i ks ∈ subtask_log non_critical -> is_critical cr i = false) /\
    (forall s cfg, s = s1 \/ s = s2 -> colors_ p !! color = Some cfg -> exists cfg',
       colors_ (partition_ st) !! (color +:+ s) = Some cfg' /\ cc_devices cfg' = cc_devices cfg).

Record run_ok (done : list I) (st : Splitting I D) (outs : list (list V)) : Prop := {
  rk_values : splitting_ok st outs;
  rk_split : forall call color s1 s2, call ∈ done -> split_task call color s1 s2 ->
    split_in st call color s1 s2 /\ forall u, u ∈ users call -> is_Some (replaced st !! u);
  rk_replaced : forall u, is_Some (replaced st !! u) -> exists call color s1 s2, call ∈ done /\ split_task call color s1 s2 /\ u ∈ users call;
  rk_registry : forall x, (forall call color s1 s2 s, call ∈ done -> split_task call color s1 s2 -> s = s1 \/ s = s2 -> x <> color +:+ s) ->
    colors_ (partition_ st) !! x = colors_ p !! x;
}.

Lemma split_task_same call color s1 s2 color' s1' s2' : split_task call color s1 s2 -> split_task call color' s1' s2' ->
  color = color' /\ s1 = s1' /\ s2 = s2'.
Proof. intros (_ & _ & H1 & cfg & H2 & H3) (_ & _ & H1' & cfg' & H2' & H3'). by simplify_eq. Qed.

(** A registered color is not one of the new names. *)
Lemma old_color x cfg : colors_ p !! x = Some cfg -> forall call color s1 s2 s, split_task call color s1 s2 -> s = s1 \/ s = s2 -> x <> color +:+ s.
Proof. intros Hx call color s1 s2 s Hs Hor ->. destruct (ls_names Hw _ _ _ _ Hs) as (_ & H1 & H2). destruct Hor as [-> | ->]; congruence. Qed.

(** Splitting another task keeps what has become of a task. *)
Lemma split_in_kept st st' outs call0 c0 k color0 t1 t2 call color s1 s2 :
  split_along st call0 c0 k color0 t1 t2 st' outs -> split_task call0 color0 t1 t2 -> split_task call color s1 s2 -> call <> call0 ->
  split_in st call color s1 s2 -> split_in st' call color s1 s2.
Proof.
  intros Ha H0 H1 Hne (c & n & a & b & u & cr & m & Hc & Hu & Hl & Hcr & Hr & Hn1 & Hn2 & C1 & C2 & L1 & L2 & Hdev).
  destruct (sa_calls _ _ _ _ _ _ _ _ _ Ha) as (_ & a' & b' & _ & Hsub & _).
  exists c, n, a, b, u, cr, m. split_and!; try done.
  - rewrite (sa_others _ _ _ _ _ _ _ _ _ Ha); [done|]. intros Hu'.
    pose proof (ls_users Hw _ _ _ _ u H0 Hu') as Ho. rewrite (ls_users Hw _ _ _ _ u H1 Hu) in Ho. by injection Ho.
  - rewrite Hsub. by apply lookup_app_l_Some.
  - rewrite Hsub. by apply lookup_app_l_Some.
  - intros s cfg Hs Hcfg. destruct (Hdev s cfg Hs Hcfg) as (cfg' & Hcfg' & ?). exists cfg'. split; [|done].
    rewrite (sa_registry _ _ _ _ _ _ _ _ _ Ha); [done| |]; intros Heq; apply Hne.
    + exact (ls_unique Hw _ _ _ _ _ _ _ _ s t1 H1 H0 Hs (or_introl eq_refl) Heq).
    + exact (ls_unique Hw _ _ _ _ _ _ _ _ s t2 H1 H0 Hs (or_intror eq_refl) Heq).
Qed.

Lemma run_instruction_ok fuel done call rest st outs :
  MakeInstructionPostOrder w = done ++ call :: rest -> run_ok done st outs ->
  (forall call, has_critical_result call w -> exists u, u ∈ users call /\
     CriticalRootTupleIndex fuel call w (ComputeDepthMap w) = OK (tuple_index u) /\ least_of call (ComputeDepthMap w) u) ->
  exists st' outs', run_instruction ExecutesBefore fuel attrs w (ComputeDepthMap w) st call = OK st' /\ run_ok (done ++ [call]) st' outs'.
Proof.
  intros Heq Hok Hcrit. assert (call ∈ MakeInstructionPostOrder w) as Hin by (rewrite Heq; apply elem_of_app; right; by left).
  pose proof (postorder_NoDup w) as Hnd. rewrite Heq in Hnd. apply NoDup_app in Hnd as (_ & Hdis & _).
  assert (call ∉ done) as Hnew by (intros Hd; apply (Hdis call Hd); by left). destruct Hok as [K1 K2 K3 K4].
  assert ((forall color s1 s2, ~ split_task call color s1 s2) -> run_ok (done ++ [call]) st outs) as Hkeep.
  { intros Hno. split; [done|..].
    - intros x color s1 s2 [Hx| ->%list_elem_of_singleton]%elem_of_app Hs; [by apply K2|by destruct (Hno color s1 s2)].
    - intros u (x & color & s1 & s2 & ? & ? & ?)%K3. exists x, color, s1, s2. split_and!; try done. apply elem_of_app. by left.
    - intros x Hx. apply K4. intros y color s1 s2 s Hy. apply Hx. apply elem_of_app. by left. }
  unfold run_instruction. case_bool_decide as Hop; [|exists st, outs; split; [done|]; apply Hkeep; by intros ? ? ? (_ & ? & _)].
  destruct (ls_colored Hw call Hin Hop) as (color & cfg & Hcol & Hcfg). rewrite Hcol. unfold GetTaskOptions, ConfigForColor.
  rewrite (K4 color), Hcfg by (intros y ? ? ? s _ Hy; by eapply old_color). cbn [mbind Result_bind].
  destruct (to_split_backprop (cc_task_options cfg)) as [[s1 s2]|] eqn:Hsp.
  2: { exists st, outs. split; [done|]. apply Hkeep. intros color' t1 t2 (_ & _ & H1 & cfg' & H2 & H3). congruence. }
  assert (split_task call color s1 s2) as Hs by (split_and!; try done; by exists cfg).
  rewrite bool_decide_eq_true_2 by (by eexists). destruct (ls_splittable Hw _ _ _ _ Hs) as (c & Hc & Hres).
  destruct (Hcrit call Hres) as (u & Hu & -> & Hleast). cbn [mbind Result_bind].
  destruct (ck_result _ _ _ _ _ (sl_computation _ _ Hc) u Hu) as (r & Hr & _). destruct (ls_names Hw _ _ _ _ Hs) as (Hne & Hf1 & Hf2).
  assert (forall s, s = s1 \/ s = s2 -> forall y color' t1 t2 t, y ∈ done -> split_task y color' t1 t2 -> t = t1 \/ t = t2 -> color +:+ s <> color' +:+ t) as Hfresh.
  { intros s Hs' y color' t1 t2 t Hy Hty Ht Heq'. apply Hnew. by rewrite (ls_unique Hw _ _ _ _ _ _ _ _ _ _ Hs Hty Hs' Ht Heq'). }
  destruct (SplitComputation_ok attrs st outs call c (tuple_index u) color s1 s2 K1 Hc) as (st' & outs' & -> & Ha).
  { split; [done| |done|].
    - exists cfg. split; [|done]. rewrite K4; [done|]. intros y ? ? ? s _ Hy. by eapply old_color.
    - split; (rewrite K4; [done|]); intros y color' t1 t2 t Hy Hty Ht; eapply Hfresh; eauto. }
  { unfold operand in Hr. apply vec_at_lookup in Hr as [? Hr%lookup_lt_Some]. unfold Zlength. lia. }
  exists st', outs'. split; [done|]. split.
  - apply (sa_values _ _ _ _ _ _ _ _ _ Ha).
  - intros x color' t1 t2 [Hx| ->%list_elem_of_singleton]%elem_of_app Hxs.
    + destruct (K2 x color' t1 t2 Hx Hxs) as [Hin' Hrep]. split.
      * eapply split_in_kept; [exact Ha|exact Hs|exact Hxs| |exact Hin']. by intros ->.
      * intros v Hv. destruct (decide (v ∈ users call)) as [Hvc|Hvc]; [by apply (sa_users _ _ _ _ _ _ _ _ _ Ha)|].
        rewrite (sa_others _ _ _ _ _ _ _ _ _ Ha) by done. by apply Hrep.
    + destruct (split_task_same _ _ _ _ _ _ _ Hs Hxs) as (<- & <- & <-). split; [|apply (sa_users _ _ _ _ _ _ _ _ _ Ha)].
      destruct (sa_calls _ _ _ _ _ _ _ _ _ Ha) as (cr & a & b & Hcr & Hsub & C1 & C2 & L1 & L2).
      destruct (sa_first _ _ _ _ _ _ _ _ _ Ha u Hu eq_refl) as [k Hk].
      exists c, (length (subtasks st)), a, b, u, cr, k. split_and!; try done.
      * apply (called_OK _ _ _ _ _ (sl_computation _ _ Hc)).
      * rewrite Hsub. by apply list_lookup_middle.
      * rewrite Hsub, lookup_app_r by lia. by replace (S (length (subtasks st)) - length (subtasks st))%nat with 1%nat by lia.
      * intros s cfg' Hs' Hcfg'. destruct (sa_devices _ _ _ _ _ _ _ _ _ Ha (color +:+ s) cfg') as (cfg'' & ? & ? & _).
        { destruct Hs' as [-> | ->]; auto. }
        { rewrite K4; [done|]. intros y ? ? ? t _ Hy. by eapply old_color. }
        by exists cfg''.
  - intros v Hv. destruct (decide (v ∈ users call)) as [Hvc|Hvc].
    + exists call, color, s1, s2. split; [apply elem_of_app; right; by left|done].
    + rewrite (sa_others _ _ _ _ _ _ _ _ _ Ha) in Hv by done. destruct (K3 v Hv) as (x & color' & t1 & t2 & ? & ? & ?).
      exists x, color', t1, t2. split; [apply elem_of_app; by left|done].
  - intros x Hx. rewrite (sa_registry _ _ _ _ _ _ _ _ _ Ha).
    + apply K4. intros y color' t1 t2 t Hy. apply Hx. apply elem_of_app. by left.
    + eapply (Hx call color s1 s2); [apply elem_of_app; right; by left|done|by left].
    + eapply (Hx call color s1 s2); [apply elem_of_app; right; by left|done|by right].
Qed.

Lemma run_all : exists fuel0, forall fuel, (fuel0 <= fuel)%nat -> exists st outs,
  foldM (run_instruction ExecutesBefore fuel attrs w (ComputeDepthMap w)) (MkSplitting [] ∅ ∅ p) (MakeInstructionPostOrder w) = OK st /\
  run_ok (MakeInstructionPostOrder w) st outs.
Proof.
  destruct (CriticalRootTupleIndex_exists w (ComputeDepthMap w) (ls_inside Hw)) as [fuel0 Hcrit].
  { intros i [n Hn]%list_elem_of_lookup. destruct (depth_bound w n i Hn) as (d & Hd & ?). exists d. split; [done|].
    pose proof (ls_size Hw). apply lookup_lt_Some in Hn. unfold Zlength in *. lia. }
  exists fuel0. intros fuel Hfuel.
  destruct (foldM_total (fun done st => exists outs, run_ok done st outs) (run_instruction ExecutesBefore fuel attrs w (ComputeDepthMap w))
    (MkSplitting [] ∅ ∅ p) (MakeInstructionPostOrder w)) as (st & Hrun & outs & Hok).
  - exists []. split; cbn.
    + split; [done|]. intros i v. intros Hv. cbn in Hv. by rewrite lookup_empty in Hv.
    + by intros call color s1 s2 ?%elem_of_nil.
    + intros u [v Hv]. by rewrite lookup_empty in Hv.
    + done.
  - intros done call rest st Heq [outs Hok]. destruct (run_instruction_ok fuel done call rest st outs Heq Hok) as (st' & outs' & ? & ?).
    + intros x Hx. by apply (Hcrit fuel x Hfuel).
    + exists st'. split; [done|]. by exists outs'.
  - by exists st, outs.
Qed.
End loop.

(** C6: With enough fuel the pass splits every task of the first microbatch loop that its color
    marks.  The new calls, evaluated in order, have results; every element of a task that
    was split is replaced by an element with its value, and nothing else is replaced; and
    the first of the two calls of a task has exactly the instructions that the result
    needed first depends on. *)
Theorem Run_splits attrs p entry while_instruction w :
  find IsMicrobatchLoop (MakeInstructionPostOrder entry) = Some while_instruction ->
  called_computation while_instruction 0 = OK w -> loop_splittable attrs p w ->
  exists fuel0, forall fuel, (fuel0 <= fuel)%nat -> exists st outs,
    Run ExecutesBefore fuel attrs p entry = OK (st, true) /\ eval_subtasks sem val (subtasks st) = Some outs /\
    (forall call color s1 s2, split_task attrs p w call color s1 s2 -> split_in p w st call color s1 s2 /\
       forall u, u ∈ users call -> exists v, replaced st !! u = Some v /\ value outs v = Some (val u)) /\
    (forall u, is_Some (replaced st !! u) -> exists call color s1 s2, split_task attrs p w call color s1 s2 /\ u ∈ users call).
Proof.
  intros Hfind Hcalled Hw. destruct (run_all attrs p w Hw) as [fuel0 Hrun]. exists fuel0. intros fuel Hfuel.
  destruct (Hrun fuel Hfuel) as (st & outs & Hst & [K1 K2 K3 _]). exists st, outs. unfold Run. rewrite Hfind, Hcalled. cbn [mbind Result_bind].
  rewrite Hst. split; [done|]. destruct K1 as [K1 K1']. split; [done|]. split.
  - intros call color s1 s2 Hs. destruct (K2 call color s1 s2) as [Hin Hu]; [apply Hs|done|]. split; [done|].
    intros u Huc. destruct (Hu u Huc) as [v Hv]. exists v. split; [done|]. by apply K1'.
  - intros u (call & color & s1 & s2 & _ & Hs & Hu)%K3. by exists call, color, s1, s2.
Qed.
End critical.

(** ** A task that is split

    A loop of two tasks: the first returns the negation [1] of its argument and the
    negation [2] of that; the second takes the first result.  The first result is needed
    first, so [1] goes into a call of its own. *)
Module SplitSample.
Definition gte (o : nat) (k : Z) : Graph.node := Graph.Node kGetTupleElement [o] k [] "" "" false 1 false.
Definition nodes : list Graph.node :=
  [Graph.op kParameter []; Graph.op kNegate [0]; Graph.op kNegate [1]; Graph.op kTuple [1; 2];
   Graph.op kParameter []; Graph.op kNegate [4]; Graph.op kTuple [5];
   Graph.op kParameter []; gte 7 0; Graph.Node kCall [8] 0 [0] "" "" true 1 false; gte 9 0; gte 9 1;
   Graph.Node kCall [10] 0 [1] "" "" true 1 false; gte 12 0; Graph.op kTuple [13; 11];
   Graph.op kParameter []; Graph.Node kWhile [15] 0 [2] "" "" true 1 false]%nat.
Definition comps : list Graph.comp :=
  [Graph.Comp 3 [0] [0; 1; 2; 3]; Graph.Comp 6 [4] [4; 5; 6]; Graph.Comp 14 [7] [7; 8; 9; 10; 11; 12; 13; 14];
   Graph.Comp 16 [15] [15; 16]]%nat.
#[export] Instance hlo0 : Hlo nat nat := Graph.hlo nodes comps.
#[export] Instance postorder0 : PostOrderLaws nat nat := Graph.postorder_laws nodes comps eq_refl.
#[export] Instance users0 : UsersLaws nat nat := Graph.users_laws nodes comps.
Definition parent_of (i : nat) : nat :=
  if bool_decide (i < 4)%nat then 0%nat else if bool_decide (i < 7)%nat then 1%nat else if bool_decide (i < 15)%nat then 2%nat else 3%nat.
#[export] Instance control0 : HloControl nat nat := {| parent := parent_of; control_predecessors _ := []; control_successors _ := [] |}.

Definition options : TaskOptions := Build_TaskOptions None [] [] [] [] (Some ("_critical", "_rest")) None.
Definition partition : HloPartition Slice.t :=
  (AllocateColor_named
    (AllocateColor_named (Create (Slice.mk 0 8)) "a" (Slice.mk 0 4) options).2
    "b" (Slice.mk 4 4) default_TaskOptions).2.
Definition attrs : AttrMap.t := AssignColor 9%nat "a" (AssignColor 12%nat "b" ∅).
Definition before (a b : nat) : bool := bool_decide (a < b)%nat.

Definition sem (_ : nat) (vs : list Z) : Z := match vs with [x] => - x | _ => 0 end.
Definition val (i : nat) : Z := match i with 10%nat => -5 | 8%nat | 11%nat => 5 | _ => 0 end.
Definition body (_ i : nat) : Z := match i with 0%nat | 2%nat => 5 | 1%nat => -5 | _ => 0 end.

(** One case for every element of a list of numbers. *)
Ltac cases H := repeat (apply elem_of_cons in H as [-> | H]; [|]); try (by apply elem_of_nil in H).

Lemma split_computation_ok : computation_ok (C := nat) sem val body 9%nat 0%nat.
Proof.
  split; try done.
  - intros [|n] o; [by eexists|done].
  - intros i Hi Hp. exists 8%nat. cases Hi; by vm_compute in Hp |- *.
  - intros i Hi Hp Hr. cases Hi; by vm_compute in Hp, Hr |- *.
  - intros i Hi. cases Hi; vm_compute; set_solver.
  - intros u Hu. change (u ∈ [10; 11]%nat) in Hu. cases Hu; eexists; by vm_compute.
Qed.

Lemma sample_splittable : splittable (C := nat) sem val body before 9%nat 0%nat.
Proof.
  split; [apply split_computation_ok| |done| |].
  - intros i Hi. cases Hi; by vm_compute.
  - intros u r Hu. change (u ∈ [10; 11]%nat) in Hu. cases Hu; intros Hr; vm_compute in Hr; injection Hr as <-; by vm_compute.
  - intros cr i o Hcr Hi. change (cr ∈ [1; 2]%nat) in Hcr. cases Hcr; cases Hi; intros Hb Ho; cases Ho; by vm_compute in Hb |- *.
Qed.

Lemma sample_split_task call color s1 s2 : split_task (C := nat) attrs partition 2%nat call color s1 s2 ->
  call = 9%nat /\ color = "a" /\ s1 = "_critical" /\ s2 = "_rest".
Proof.
  intros (Hi & Hop & Hc & cfg & Hcfg & Hs). cases Hi; vm_compute in Hop; try done; vm_compute in Hc; injection Hc as <-;
    vm_compute in Hcfg; injection Hcfg as <-; vm_compute in Hs; [|done]. by injection Hs as <- <-.
Qed.

Lemma uses_step (n : nat) (i u x : nat) : u ∈ users i -> uses n u x -> uses (S n) i x.
Proof. intros Hu Hn. by eapply nsteps_l. Qed.

Lemma sample_loop : loop_splittable (C := nat) sem val body before attrs partition 2%nat.
Proof.
  split.
  - intros call Hi Hop. cases Hi; vm_compute in Hop; try done; eexists _, _; by vm_compute.
  - intros call color s1 s2 (-> & _)%sample_split_task. exists 0%nat. split; [apply sample_splittable|]. split; [done| |].
    + intros u Hu. change (u ∈ [10; 11]%nat) in Hu. cases Hu; (split; [vm_compute; set_solver|]); vm_compute; done.
    + intros u Hu. change (u ∈ [10; 11]%nat) in Hu. cases Hu.
      * exists 1%nat, 12%nat. split; [|done]. apply (uses_step 0 10 12 12); [|constructor]. vm_compute. set_solver.
      * exists 1%nat, 14%nat. split; [|done]. apply (uses_step 0 11 14 14); [|constructor]. vm_compute. set_solver.
  - intros call color s1 s2 u (-> & _)%sample_split_task Hu. change (u ∈ [10; 11]%nat) in Hu. by cases Hu.
  - intros call color s1 s2 (_ & -> & -> & ->)%sample_split_task. split; [done|]. by vm_compute.
  - intros call color s1 s2 call' color' s1' s2' s s' (-> & _)%sample_split_task (-> & _)%sample_split_task. done.
  - intros i u Hi Hu. cases Hi; vm_compute in Hu; try cases Hu; vm_compute; set_solver.
  - by vm_compute.
Qed.

Lemma sample_while : find (IsMicrobatchLoop (C := nat)) (MakeInstructionPostOrder 3%nat) = Some 16%nat.
Proof. by vm_compute. Qed.

Lemma Run_splits_witness : exists fuel0, forall fuel, (fuel0 <= fuel)%nat -> exists st outs,
  Run (C := nat) before fuel attrs partition 3%nat = OK (st, true) /\
  eval_subtasks sem val (subtasks st) = Some outs /\
  (forall u, u ∈ [10; 11]%nat -> exists v, replaced st !! u = Some v /\ value val outs v = Some (val u)).
Proof.
  destruct (Run_splits (C := nat) sem val body before attrs partition
    3%nat 16%nat 2%nat sample_while eq_refl sample_loop) as [fuel0 Hrun].
  exists fuel0. intros fuel Hfuel. destruct (Hrun fuel Hfuel) as (st & outs & Hst & Hev & Hsplit & _).
  exists st, outs. split; [exact Hst|]. split; [exact Hev|].
  apply (Hsplit 9%nat "a" "_critical" "_rest"). split; [|split; [reflexivity|split; [reflexivity|]]].
  - apply (bool_decide_unpack _). reflexivity.
  - eexists. split; reflexivity.
Defined.
End SplitSample.
