(* ===== verification/PjrtClient.v ===== *)
(** * Compiling a program (mm_pjrt_client.h/.cc)

    [CreateTasks] collects the shardings, shapes and layouts of the parameters and outputs
    of a program from the operations that MpmdPartition returns; [Compile] chooses between
    an executable of the base client and one with a schedule, finds the devices of this
    process, has every task compiled on the devices it runs on and waits for that.

    The result of MpmdPartition is an argument; TaskScheduler.v models its last step.
    XLA's messages, layouts and the base client are parameters. *)
From S2P Require Import Prelude Hlo Sharding TaskScheduler ZukuContext PjrtExecutable.
Local Open Scope Z_scope.

(** What is read of an instruction of the message of the entry computation. *)
Record HloInstructionProto := MkInstr {
  instr_parameter : bool;          (* opcode() == "parameter" *)
  instr_root : bool;               (* id() == root_id() *)
  instr_shape : ResultShape;
}.

(** A device of the client; its position in [devices()] is its global id. *)
Record ClientDevice := MkClientDevice { process_index : Z; client_device : Device }.

Definition kFastPathInstructionCutoff : Z := 20.

Record CompileOutput (C A D HS L : Type) := MkOutput {
  schedule : list (MpmdOperation C A D HS);
  temporaries : list (Store D HS);
  parameter_shardings : list OpSharding;
  root_shardings : list OpSharding;
  output_shapes : list Shape;
  parameter_layouts : list L;
  output_layouts : list L;
  output_shape : ResultShape;
}.
Arguments MkOutput {_ _ _ _ _} _ _ _ _ _ _ _ _. Arguments schedule {_ _ _ _ _} _. Arguments temporaries {_ _ _ _ _} _.
Arguments parameter_shardings {_ _ _ _ _} _. Arguments root_shardings {_ _ _ _ _} _. Arguments output_shapes {_ _ _ _ _} _.
Arguments parameter_layouts {_ _ _ _ _} _. Arguments output_layouts {_ _ _ _ _} _. Arguments output_shape {_ _ _ _ _} _.

Section create_tasks.
Context {C A D HS L : Type} `{!DeviceListApi D, !HloShardingApi HS}.
Context `{!EqDecision (SpmdModule C A HS), !CompiledTask (SpmdModule C A HS)}.
Abbreviation Store := (Store D HS).
Abbreviation Module_ := (SpmdModule C A HS).
Abbreviation Operation := (MpmdOperation C A D HS).
Abbreviation CompileOutput := (CompileOutput C A D HS L).

(** Layouts: of a shape, and of the parameters and results of the module of a task. *)
Context (default_layout : L) (shape_layout : Shape -> L) (parameter_layout result_layout : Module_ -> Z -> L).
Context (module_num_parameters : Module_ -> nat) (MakePartitionedShape : Shape -> HS -> Shape).
Context (CreateCompiler : Module_ -> Result unit) (HasPartialReplication : HS -> bool).

(** ** The program's parameters and results *)

Record ProgramCounts := MkCounts {
  num_parameters : Z;
  num_roots : Z;
  root_instr : option HloInstructionProto;
}.

Definition count_instruction (n : ProgramCounts) (instr : HloInstructionProto) : ProgramCounts :=
  let n := if instr_parameter instr then
             match instr_shape instr with
             | TupleShape shapes => MkCounts (Zlength shapes) (num_roots n) (root_instr n)
             | ArrayShape _ => MkCounts (num_parameters n + 1) (num_roots n) (root_instr n)
             end
           else n in
  if instr_root instr then
    MkCounts (num_parameters n) (match instr_shape instr with TupleShape shapes => Zlength shapes | ArrayShape _ => 1 end) (Some instr)
  else n.

Definition count_instructions (entry : list HloInstructionProto) : ProgramCounts :=
  foldl count_instruction (MkCounts 0 0 None) entry.

(** ** Collecting *)

Definition IsSubmeshReplicatedScalar (store : Store) (devices : D) : Result bool :=
  if IsReplicated (mpmd_sharding store) || negb (bool_decide (dimensions (store_shape store) = [])) then OK false
  else if HasPartialReplication (mpmd_sharding store) then
    last ← vec_at (ta_dimensions (mpmd_sharding store)) (Zlength (ta_dimensions (mpmd_sharding store)) - 1);
    OK (bool_decide (last = dl_size devices))
  else OK false.

Record Collected := MkCollected {
  c_parameter_shardings : list OpSharding;
  c_parameter_layouts : list L;
  c_root_shardings : list OpSharding;
  c_output_layouts : list L;
  c_output_shapes : list Shape;
}.

Definition set_parameter (index : Z) (sharding : OpSharding) (layout : L) (c : Collected) : Result Collected :=
  shardings ← vec_set (c_parameter_shardings c) index sharding;
  layouts ← vec_set (c_parameter_layouts c) index layout;
  OK (MkCollected shardings layouts (c_root_shardings c) (c_output_layouts c) (c_output_shapes c)).

Definition add_root (output : Store) (spmd_shape : Shape) (layout : L) (c : Collected) : Result Collected :=
  shardings ← vec_set (c_root_shardings c) (store_index output) (ToProto (mpmd_sharding output));
  layouts ← vec_set (c_output_layouts c) (store_index output) layout;
  shapes ← vec_set (c_output_shapes c) (store_index output) spmd_shape;
  OK (MkCollected (c_parameter_shardings c) (c_parameter_layouts c) shardings layouts shapes).

(** The sharding of a parameter that a task on the devices takes. *)
Definition input_sharding (input : Store) (devices : D) : Result OpSharding :=
  replicated ← IsSubmeshReplicatedScalar input devices;
  OK (if (replicated : bool) then no_sharding else ToProto (mpmd_sharding input)).

Definition collect_parameter (m : Module_) (devices : D) (inputs : list Store) (c : Collected) (number : Z) : Result Collected :=
  input ← vec_at inputs number;
  if bool_decide (store_type input = PARAM) then
    sharding ← input_sharding input devices;
    set_parameter (store_index input) sharding (parameter_layout m number) c
  else OK c.

Definition collect_result (m : Module_) (c : Collected) (io : Z * Store) : Result Collected :=
  let '(idx, output) := io in
  if bool_decide (store_type output = ROOT) then
    shape ← get_shape_at_index (SpmdRootShape m) idx;
    add_root output shape (result_layout m idx) c
  else OK c.

Definition collect_shapes_and_shardings (m : Module_) (devices : D) (inputs outputs : list Store) (c : Collected) : Result Collected :=
  c ← foldM (collect_parameter m devices inputs) c (seqZ 0 (Z.of_nat (module_num_parameters m)));
  foldM (collect_result m) c (zip (seqZ 0 (Zlength outputs)) outputs).

Definition collect_operation (c : Collected) (op : Operation) : Result Collected :=
  match op with
  | SpmdHloModuleTask m devices inputs outputs _ _ => collect_shapes_and_shardings m devices inputs outputs c
  | Reshard input output =>
      c ← (if bool_decide (store_type input = PARAM) then
             set_parameter (store_index input) (ToProto (mpmd_sharding input)) (shape_layout (store_shape input)) c
           else OK c);
      if bool_decide (store_type output = ROOT) then
        let shape := MakePartitionedShape (store_shape output) (mpmd_sharding output) in
        add_root output shape (shape_layout shape) c
      else OK c
  | _ => OK c
  end.

(** A parameter that nothing takes. *)
Definition collect_unused (c : Collected) (param : Store) : Result Collected :=
  set_parameter (store_index param) (ToProto (mpmd_sharding param)) (shape_layout (store_shape param)) c.

Definition no_shape : Shape := MkShape (OtherType 0) [].

(** [argument_layouts] are the layouts that the options give, where they do. *)
Definition CreateTasks (entry : list HloInstructionProto) (argument_layouts : list (option L))
    (partition_outputs : Result (list Operation * list Module_ * list Store * list Store)) : Result CompileOutput :=
  let n := count_instructions entry in
  r ← partition_outputs;
  let '(ops, modules, temps, unused_params) := (r : list Operation * list Module_ * list Store * list Store) in
  let c := MkCollected (replicate (Z.to_nat (num_parameters n)) no_sharding) (default default_layout <$> argument_layouts)
             (replicate (Z.to_nat (num_roots n)) no_sharding) (replicate (Z.to_nat (num_roots n)) default_layout)
             (replicate (Z.to_nat (num_roots n)) no_shape) in
  c ← foldM collect_unused c unused_params;
  _ ← foldM (fun _ m => CreateCompiler m) () modules;
  c ← foldM collect_operation c ops;
  root ← of_option NullDeref (root_instr n);
  shape ← match instr_shape root with
          | TupleShape _ => OK (TupleShape (c_output_shapes c))
          | ArrayShape _ => s ← vec_at (c_output_shapes c) 0; OK (ArrayShape s)
          end;
  OK (MkOutput ops temps (c_parameter_shardings c) (c_root_shardings c) (c_output_shapes c) (c_parameter_layouts c)
        (c_output_layouts c) shape).
End create_tasks.
Arguments Collected L : clear implicits.

(** ** Compile *)
Section compile.
Context {C A D HS L P : Type} `{!DeviceListApi D, !HloShardingApi HS}.
Context `{!EqDecision (SpmdModule C A HS), !CompiledTask (SpmdModule C A HS)}.
Abbreviation Module_ := (SpmdModule C A HS).
Abbreviation Operation := (MpmdOperation C A D HS).
Abbreviation CompileOutput := (CompileOutput C A D HS L).
Abbreviation Context_ := (ZukuExecuteContextImpl C A D HS P).
Implicit Types (ctx : Context_) (m : Module_) (op : Operation) (d : ClientDevice).

(** The devices of the client and of this process; the events of the runtime and the
    members of device lists. *)
Context (devices : list ClientDevice) (addressable_device_count this_process : Z) (LookupDevice : Z -> Result ClientDevice).
Context (Event : nat -> gset nat) (Contains : D -> Z -> bool).
(** Compiling the program, or the module of a task in place of it, with the base client;
    the size of a module, and a compilation that is not deferred. *)
Context (BaseCompile : option Module_ -> Result unit) (instruction_count : Module_ -> Z) (CompileNow : Module_ -> Result unit).
Context (enable_fast_path_exe : bool).

(** The device assignment: the global ids by replica and partition. *)
Abbreviation DeviceAssignment := (list (list Z)).
Implicit Types (da : DeviceAssignment).

(** *** Which executable *)

Definition count_process (acc : list Z * Z) (id : Z) : Result (list Z * Z) :=
  let '(num_per_process, max_per_process) := acc in
  dev ← vec_at devices id;
  n ← vec_at num_per_process (process_index dev);
  num_per_process ← vec_set num_per_process (process_index dev) (n + 1);
  OK (num_per_process, Z.max (n + 1) max_per_process).

Definition compute_max_per_process da (max_per_process : option Z) : Result Z :=
  num_processes ← cdiv (Zlength devices) addressable_device_count;
  match max_per_process with
  | Some n => OK n
  | None => r ← foldM count_process (replicate (Z.to_nat num_processes) 0, 0) (concat da); OK (r : list Z * Z).2
  end.

Definition num_elements da : Z := Zlength (concat da).

(** Whether the base client compiles the program. *)
Definition check_assignment da (max_per_process : Z) : Result bool :=
  if (bool_decide (num_elements da = 1) && bool_decide (1 < Zlength devices)) ||
     (bool_decide (max_per_process = 1) && bool_decide (1 < addressable_device_count)) then OK true
  else if bool_decide (max_per_process < addressable_device_count) && bool_decide (max_per_process < num_elements da) then
    Err kInvalidArgument "cannot create executable on a subset of GPUs per node across multiple nodes"
  else OK false.

(** *** The devices of this process *)

Definition add_device (found : list ClientDevice) (device_id : Z) : Result (list ClientDevice) :=
  device ← LookupDevice device_id;
  OK (if bool_decide (process_index device = this_process) then found ++ [device] else found).

Definition find_devices da (only_compile_device0 : bool) : Result (list ClientDevice) :=
  found ← (if only_compile_device0 then device ← LookupDevice 0; OK [device] else foldM add_device [] (concat da));
  if bool_decide (found = []) then Err kInvalidArgument "does not have any local devices." else OK found.

(** *** Compiling the tasks *)

Definition SmallModuleTask op : bool :=
  match op with
  | SpmdHloModuleTask m _ _ _ _ _ => bool_decide (instruction_count m < kFastPathInstructionCutoff)
  | _ => false
  end.

Definition compile_on_device m (task_devices : D) (acc : list Module_ * Context_) d : list Module_ * Context_ :=
  let '(already_built, ctx) := acc in
  if Contains task_devices (client_device d).2 then
    (m :: already_built, CreateCompileTask Event (client_device d).1 m ctx)
  else acc.

Definition compile_operation (addressable_devices : list ClientDevice) (acc : list Module_ * Context_) op
    : list Module_ * Context_ :=
  match op with
  | SpmdHloModuleTask m task_devices _ _ _ _ =>
      if bool_decide (m ∈ acc.1) then acc else foldl (compile_on_device m task_devices) acc addressable_devices
  | _ => acc
  end.

Definition compile_schedule (addressable_devices : list ClientDevice) (schedule : list Operation) ctx : Context_ :=
  (foldl (compile_operation addressable_devices) ([], ctx) schedule).2.

(** Whether the program takes the fast path, and the context after the compilations.
    [contains_custom_call] is whether it has one of the custom calls of this library. *)
Definition compile_tasks (contains_custom_call : bool) (addressable_devices : list ClientDevice) (ops : list Operation) ctx
    : Result (bool * Context_) :=
  match ops with
  | [SpmdHloModuleTask m _ _ _ _ _ as op] =>
      if enable_fast_path_exe && SmallModuleTask op && negb contains_custom_call then
        _ ← BaseCompile (Some m); _ ← CompileNow m; OK (true, ctx)
      else OK (false, compile_schedule addressable_devices ops ctx)
  | _ => OK (false, compile_schedule addressable_devices ops ctx)
  end.

(** An executable without a device assignment can not be run. *)
Inductive LoadedExecutable :=
  | Wrapper (program_shape : ResultShape)
  | Loaded (exe : MultiMeshPjRtExecutable C A D HS)
  | LoadedWithoutDevices.

Definition make_executable (name : string) (program_shape executable_layout : ResultShape) (da : option DeviceAssignment)
    (addressable_devices : list ClientDevice) (output : CompileOutput) (fast_path_exe : bool) : Result LoadedExecutable :=
  match da with
  | None => OK LoadedWithoutDevices
  | Some da =>
      row ← vec_at da 0; start ← vec_at row 0;
      OK (Loaded (MkExecutable name (schedule output) (temporaries output) start (num_elements da)
        (client_device <$> addressable_devices) executable_layout (Some (parameter_shardings output))
        (Some (root_shardings output)) (if fast_path_exe then Some program_shape else None) [] []))
  end.

(** [tasks] is the result of [CreateTasks]. *)
Definition Compile (name : string) (program_shape executable_layout : ResultShape) (contains_custom_call : bool)
    (da : option DeviceAssignment) (max_per_process : option Z) (only_compile_device0 : bool) (tasks : Result CompileOutput)
    ctx : Result (LoadedExecutable * Context_) :=
  wrapped ← match da with
            | Some da => n ← compute_max_per_process da max_per_process; check_assignment da n
            | None => OK false
            end;
  if (wrapped : bool) then _ ← BaseCompile None; OK (Wrapper program_shape, ctx)
  else
    output ← tasks;
    addressable_devices ← match da with Some da => find_devices da only_compile_device0 | None => OK [] end;
    r ← compile_tasks contains_custom_call addressable_devices (schedule output) ctx;
    let '(fast_path_exe, ctx) := (r : bool * Context_) in
    exe ← make_executable name program_shape executable_layout da addressable_devices output fast_path_exe;
    OK (exe, FenceCompilation ctx).
End compile.
