(* ===== verification/PjrtClientFacts.v ===== *)
(** * The parameters and outputs of a program (mm_pjrt_client.cc)

    [CreateTasks] describes every parameter and every output of the program as the stores
    of its operations have them. *)
From S2P Require Import Prelude Hlo Instruction Partition Sharding Utils BufferAlias BufferSafety TaskScheduler TaskSchedulerFacts TaskSchedulerRun TaskExecution ZukuContext PjrtExecutable PjrtClient.
Local Open Scope Z_scope.

Section collect.
Context {C A D HS L : Type} `{!DeviceListApi D, !HloShardingApi HS, !CompiledTask (SpmdModule C A HS)}.
Context (shape_layout : Shape -> L) (parameter_layout result_layout : SpmdModule C A HS -> Z -> L).
Context (module_num_parameters : SpmdModule C A HS -> nat) (MakePartitionedShape : Shape -> HS -> Shape).
Context (HasPartialReplication : HS -> bool).
Abbreviation Store := (Store D HS).
Abbreviation Operation := (MpmdOperation C A D HS).
Abbreviation input_sharding := (input_sharding (D := D) (HS := HS) HasPartialReplication).
Abbreviation collect_operation :=
  (collect_operation shape_layout parameter_layout result_layout module_num_parameters MakePartitionedShape HasPartialReplication).
Implicit Types (store input output : Store) (op : Operation) (ops : list Operation).

(** ** Entries of the vectors *)

Inductive Entry :=
  | ParameterSharding (sharding : OpSharding)
  | ParameterLayout (layout : L)
  | RootSharding (sharding : OpSharding)
  | OutputLayout (layout : L)
  | OutputShape (shape : Shape).

Definition has_entry (c : Collected L) (k : nat) (e : Entry) : Prop :=
  match e with
  | ParameterSharding sharding => c_parameter_shardings c !! k = Some sharding
  | ParameterLayout layout => c_parameter_layouts c !! k = Some layout
  | RootSharding sharding => c_root_shardings c !! k = Some sharding
  | OutputLayout layout => c_output_layouts c !! k = Some layout
  | OutputShape shape => c_output_shapes c !! k = Some shape
  end.

(** Entries of the same vector. *)
Definition same_kind (e e' : Entry) : bool :=
  match e, e' with
  | ParameterSharding _, ParameterSharding _ | ParameterLayout _, ParameterLayout _ | RootSharding _, RootSharding _
  | OutputLayout _, OutputLayout _ | OutputShape _, OutputShape _ => true
  | _, _ => false
  end.

Record sizes (params roots : nat) (c : Collected L) : Prop := {
  sz_parameters : length (c_parameter_shardings c) = params /\ length (c_parameter_layouts c) = params;
  sz_roots : length (c_root_shardings c) = roots /\ length (c_output_layouts c) = roots /\ length (c_output_shapes c) = roots;
}.

(** [W] are the entries that have been written: a place holds one of those written to it. *)
Record describes (params roots : nat) (W : nat -> Entry -> Prop) (c : Collected L) : Prop := {
  ds_sizes : sizes params roots c;
  ds_entry : forall k e e', W k e -> has_entry c k e' -> same_kind e e' = true -> W k e';
}.

Section sized.
Context (params roots : nat).
Abbreviation describes := (describes params roots).

Lemma describes_ext W W' c : (forall k e, W k e <-> W' k e) -> describes W c -> describes W' c.
Proof. intros HW [H1 H2]. split; [done|]. intros k e e' He. apply HW in He. intros H' Hs. apply HW. by eapply H2. Qed.

(** Steps that write entries, one after the other. *)
Lemma describes_fold {X} (f : Collected L -> X -> Result (Collected L)) (w : X -> nat -> Entry -> Prop) (xs : list X) W c :
  (forall x W c, x ∈ xs -> describes W c -> exists c', f c x = OK c' /\ describes (fun k e => W k e \/ w x k e) c') ->
  describes W c -> exists c', foldM f c xs = OK c' /\ describes (fun k e => W k e \/ exists x, x ∈ xs /\ w x k e) c'.
Proof.
  intros Hf Hc. apply (foldM_total (fun done c => describes (fun k e => W k e \/ exists x, x ∈ done /\ w x k e) c)).
  - eapply describes_ext; [|exact Hc]. intros k e. split; [by left|]. by intros [?|(x & Hx%elem_of_nil & _)].
  - intros done x rest st Heq Hst. destruct (Hf x _ st ltac:(rewrite Heq; set_solver) Hst) as (st' & Hrun & Hst').
    exists st'. split; [done|]. eapply describes_ext; [|exact Hst']. intros k e. set_solver.
Qed.

Lemma insert_entry {T} (l l' : list T) (i k : nat) (x y : T) : l' = <[i := x]> l -> l' !! k = Some y ->
  (k = i /\ y = x) \/ (k <> i /\ l !! k = Some y).
Proof. intros ->. intros [(<- & <- & _)|(? & ?)]%list_lookup_insert_Some; [by left|right; split; [done|done]]. Qed.

Lemma set_parameter_describes index sharding layout W c : 0 <= index < Z.of_nat params -> describes W c ->
  exists c', set_parameter index sharding layout c = OK c' /\
    describes (fun k e => W k e \/ k = Z.to_nat index /\ (e = ParameterSharding sharding \/ e = ParameterLayout layout)) c'.
Proof.
  intros Hi [[[E1 E2] E3] H2]. unfold set_parameter.
  rewrite !vec_set_OK by (unfold Zlength; lia). cbn. eexists. split; [done|].
  split; [split; cbn; rewrite ?length_insert; done|].
  intros k e e' Hw He' Hs. destruct e as [sh|la|sh|la|shp], e' as [sh'|la'|sh'|la'|shp']; try done; cbn in He'.
  1,2: destruct (insert_entry _ _ _ _ _ _ eq_refl He') as [[-> ->]|[Hk Ho]]; [right; by auto|];
    left; destruct Hw as [Hw|[-> _]]; [|done]; by apply (H2 _ _ _ Hw).
  all: left; destruct Hw as [Hw|[-> [[=]|[=]]]]; by apply (H2 _ _ _ Hw).
Qed.

Lemma add_root_describes output shape layout W c : 0 <= store_index output < Z.of_nat roots -> describes W c ->
  exists c', add_root output shape layout c = OK c' /\
    describes (fun k e => W k e \/ k = Z.to_nat (store_index output) /\
      (e = RootSharding (ToProto (mpmd_sharding output)) \/ e = OutputLayout layout \/ e = OutputShape shape)) c'.
Proof.
  intros Hi [[E1 (E2 & E3 & E4)] H2]. unfold add_root.
  rewrite !vec_set_OK by (unfold Zlength; lia). cbn. eexists. split; [done|].
  split; [split; cbn; rewrite ?length_insert; done|].
  intros k e e' Hw He' Hs. destruct e as [sh|la|sh|la|shp], e' as [sh'|la'|sh'|la'|shp']; try done; cbn in He'.
  3,4,5: destruct (insert_entry _ _ _ _ _ _ eq_refl He') as [[-> ->]|[Hk Ho]]; [right; by auto|];
    left; destruct Hw as [Hw|[-> _]]; [|done]; by apply (H2 _ _ _ Hw).
  all: left; destruct Hw as [Hw|[-> [[=]|[[=]|[=]]]]]; by apply (H2 _ _ _ Hw).
Qed.

(** ** What the operations write *)

Definition task_parameter (devices : D) input sharding : Prop :=
  store_type input = PARAM /\ input_sharding input devices = OK sharding.

(** The parameters that an operation takes, and the outputs it makes. *)
Definition takes op input sharding layout : Prop :=
  match op with
  | SpmdHloModuleTask m devices inputs _ _ _ => exists n, (n < module_num_parameters m)%nat /\ inputs !! n = Some input /\
      task_parameter devices input sharding /\ layout = parameter_layout m (Z.of_nat n)
  | Reshard from _ => input = from /\ store_type input = PARAM /\ sharding = ToProto (mpmd_sharding input) /\
      layout = shape_layout (store_shape input)
  | _ => False
  end.
Definition makes op output shape layout : Prop :=
  store_type output = ROOT /\
  match op with
  | SpmdHloModuleTask m _ _ outputs _ _ => exists n, outputs !! n = Some output /\
      get_shape_at_index (SpmdRootShape m) (Z.of_nat n) = OK shape /\ layout = result_layout m (Z.of_nat n)
  | Reshard _ to => output = to /\ shape = MakePartitionedShape (store_shape output) (mpmd_sharding output) /\
      layout = shape_layout shape
  | _ => False
  end.

Definition writes op (k : nat) (e : Entry) : Prop :=
  (exists input sharding layout, takes op input sharding layout /\ k = Z.to_nat (store_index input) /\
     (e = ParameterSharding sharding \/ e = ParameterLayout layout)) \/
  (exists output shape layout, makes op output shape layout /\ k = Z.to_nat (store_index output) /\
     (e = RootSharding (ToProto (mpmd_sharding output)) \/ e = OutputLayout layout \/ e = OutputShape shape)).

(** The indices of the parameters and outputs are in range, a task has an input for each parameter
    of its module and a result for each output, and tile assignments have dimensions. *)
Definition in_range op : Prop :=
  match op with
  | SpmdHloModuleTask m devices inputs outputs _ _ =>
      (module_num_parameters m <= length inputs)%nat /\
      (forall input, input ∈ inputs -> store_type input = PARAM ->
         0 <= store_index input < Z.of_nat params /\ exists sharding, input_sharding input devices = OK sharding) /\
      (forall n output, outputs !! n = Some output -> store_type output = ROOT ->
         0 <= store_index output < Z.of_nat roots /\ exists shape, get_shape_at_index (SpmdRootShape m) (Z.of_nat n) = OK shape)
  | Reshard input output =>
      (store_type input = PARAM -> 0 <= store_index input < Z.of_nat params) /\
      (store_type output = ROOT -> 0 <= store_index output < Z.of_nat roots)
  | _ => True
  end.

Lemma collect_parameters_describes m devices inputs outputs scalars flag W c :
  in_range (SpmdHloModuleTask m devices inputs outputs scalars flag) -> describes W c ->
  exists c', foldM (collect_parameter parameter_layout HasPartialReplication m devices inputs) c
      (seqZ 0 (Z.of_nat (module_num_parameters m))) = OK c' /\
    describes (fun k e => W k e \/ exists n, n ∈ seqZ 0 (Z.of_nat (module_num_parameters m)) /\
      exists input sharding, inputs !! Z.to_nat n = Some input /\ task_parameter devices input sharding /\
        k = Z.to_nat (store_index input) /\ (e = ParameterSharding sharding \/ e = ParameterLayout (parameter_layout m n))) c'.
Proof.
  intros (Hlen & Hin & _) Hc. apply (describes_fold _ (fun n k e => _)); [|done]. clear W c Hc.
  intros n W c Hn%elem_of_seqZ Hc.
  destruct (lookup_lt_is_Some_2 inputs (Z.to_nat n) ltac:(lia)) as [input Hi].
  unfold collect_parameter. rewrite (proj2 (vec_at_lookup inputs n input)) by (split; [lia|done]). cbn [mbind Result_bind].
  case_bool_decide as Ht.
  - destruct (Hin input ltac:(by eapply list_elem_of_lookup_2) Ht) as [Hidx [sharding Hs]]. rewrite Hs. cbn [mbind Result_bind].
    destruct (set_parameter_describes (store_index input) sharding (parameter_layout m n) W c Hidx Hc) as (c' & -> & Hc').
    exists c'. split; [done|]. eapply describes_ext; [|exact Hc']. intros k e. split.
    + intros [?|[-> He]]; [by left|right]. by exists input, sharding.
    + intros [?|(i & sh & Hi' & [_ Hsh] & -> & He)]; [by left|right]. rewrite Hi in Hi'. injection Hi' as <-.
      rewrite Hs in Hsh. by injection Hsh as <-.
  - exists c. split; [done|]. eapply describes_ext; [|exact Hc]. intros k e. split; [by left|].
    intros [?|(i & sh & Hi' & [Ht' _] & _)]; [done|]. rewrite Hi in Hi'. by injection Hi' as <-.
Qed.

Lemma collect_results_describes m devices inputs outputs scalars flag W c :
  in_range (SpmdHloModuleTask m devices inputs outputs scalars flag) -> describes W c ->
  exists c', foldM (collect_result result_layout m) c (zip (seqZ 0 (Zlength outputs)) outputs) = OK c' /\
    describes (fun k e => W k e \/ exists io, io ∈ zip (seqZ 0 (Zlength outputs)) outputs /\
      exists shape, store_type io.2 = ROOT /\ get_shape_at_index (SpmdRootShape m) io.1 = OK shape /\
        k = Z.to_nat (store_index io.2) /\ (e = RootSharding (ToProto (mpmd_sharding io.2)) \/
          e = OutputLayout (result_layout m io.1) \/ e = OutputShape shape)) c'.
Proof.
  intros (_ & _ & Hout) Hc. apply (describes_fold _ (fun io k e => _)); [|done]. clear W c Hc.
  intros [idx output] W c [n Hn]%list_elem_of_lookup Hc. apply lookup_zip_Some in Hn as [Hidx Hn].
  apply lookup_seqZ in Hidx as [-> _]. cbn [fst snd]. rewrite Z.add_0_l.
  unfold collect_result. case_bool_decide as Ht.
  - destruct (Hout n output Hn Ht) as [Hi [shape Hs]]. rewrite Hs. cbn [mbind Result_bind].
    destruct (add_root_describes output shape (result_layout m (Z.of_nat n)) W c Hi Hc) as (c' & -> & Hc').
    exists c'. split; [done|]. eapply describes_ext; [|exact Hc']. intros k e. split.
    + intros [?|[-> He]]; [by left|right]. by exists shape.
    + intros [?|(sh & _ & Hsh & -> & He)]; [by left|right]. by injection Hsh as <-.
  - exists c. split; [done|]. eapply describes_ext; [|exact Hc]. intros k e. split; [by left|].
    by intros [?|(sh & Ht' & _)].
Qed.

Lemma zip_numbered {T} (l : list T) n x : (n, x) ∈ zip (seqZ 0 (Zlength l)) l <-> 0 <= n /\ l !! Z.to_nat n = Some x.
Proof.
  rewrite list_elem_of_lookup. split.
  - intros [j [Hj Hx]%lookup_zip_Some]. apply lookup_seqZ in Hj as [-> _]. rewrite Z.add_0_l, Nat2Z.id. split; [lia|done].
  - intros [Hn Hx]. exists (Z.to_nat n). apply lookup_zip_Some. split; [|done]. apply lookup_seqZ.
    apply lookup_lt_Some in Hx. unfold Zlength. lia.
Qed.

Lemma collect_operation_describes op W c : in_range op -> describes W c ->
  exists c', collect_operation c op = OK c' /\ describes (fun k e => W k e \/ writes op k e) c'.
Proof.
  intros Hop Hc. destruct op as [m devices inputs outputs scalars flag|from to|store|store].
  - cbn [PjrtClient.collect_operation]. unfold collect_shapes_and_shardings.
    destruct (collect_parameters_describes _ _ _ _ _ _ _ _ Hop Hc) as (c1 & -> & H1). cbn [mbind Result_bind].
    destruct (collect_results_describes _ _ _ _ _ _ _ _ Hop H1) as (c2 & -> & H2). exists c2. split; [done|].
    eapply describes_ext; [|exact H2]. intros k e. unfold writes, takes, makes. split.
    + intros [[?|(n & Hn%elem_of_seqZ & input & sharding & Hi & Ht & -> & He)]|([idx output] & Hio & shape & Ht & Hs & -> & He)]; cbn in *.
      * by left.
      * right; left. exists input, sharding, (parameter_layout m n). split; [|done].
        exists (Z.to_nat n). rewrite Z2Nat.id by lia. split; [lia|done].
      * right; right. apply zip_numbered in Hio as [? Hio]. exists output, shape, (result_layout m idx). split; [|done].
        split; [done|]. exists (Z.to_nat idx). by rewrite Z2Nat.id.
    + intros [?|[(input & sharding & layout & (n & Hn & Hi & Ht & ->) & -> & He)|(output & shape & layout & (Ht & n & Hn & Hs & ->) & -> & He)]].
      * by left; left.
      * left; right. exists (Z.of_nat n). rewrite Nat2Z.id. split; [apply elem_of_seqZ; lia|]. by exists input, sharding.
      * right. exists (Z.of_nat n, output). split; [apply zip_numbered; rewrite Nat2Z.id; split; [lia|done]|]. by exists shape.
  - destruct Hop as [Hi Ho]. cbn [PjrtClient.collect_operation].
    assert (exists c1, (if bool_decide (store_type from = PARAM) then
        set_parameter (store_index from) (ToProto (mpmd_sharding from)) (shape_layout (store_shape from)) c else OK c) = OK c1 /\
      describes (fun k e => W k e \/ exists input sharding layout, takes (Reshard from to) input sharding layout /\
        k = Z.to_nat (store_index input) /\ (e = ParameterSharding sharding \/ e = ParameterLayout layout)) c1) as (c1 & -> & H1).
    { case_bool_decide as Ht.
      - edestruct (set_parameter_describes (store_index from)) as (c1 & -> & H1); [by apply Hi|exact Hc|].
        exists c1. split; [done|]. eapply describes_ext; [|exact H1]. intros k e. unfold takes. split.
        + intros [?|[-> He]]; [by left|right]. by do 3 eexists.
        + intros [?|(input & sh & la & (-> & _ & -> & ->) & -> & He)]; [by left|by right].
      - exists c. split; [done|]. eapply describes_ext; [|exact Hc]. intros k e. unfold takes. split; [by left|].
        by intros [?|(input & sh & la & (-> & ? & _) & _)]. }
    cbn [mbind Result_bind]. case_bool_decide as Ht.
    + edestruct (add_root_describes to) as (c2 & -> & H2); [by apply Ho|exact H1|]. exists c2. split; [done|].
      eapply describes_ext; [|exact H2]. intros k e. unfold writes, makes. split.
      * intros [[?|?]|[-> He]]; [by left|by right; left|right; right]. by do 3 eexists.
      * intros [?|[?|(output & sh & la & (_ & -> & -> & ->) & -> & He)]]; [by left; left|by left; right|by right].
    + exists c1. split; [done|]. eapply describes_ext; [|exact H1]. intros k e. unfold writes, makes. split.
      * intros [?|?]; [by left|by right; left].
      * intros [?|[?|(output & sh & la & (? & -> & _) & _)]]; [by left|by right|done].
  - exists c. split; [done|]. eapply describes_ext; [|exact Hc]. intros k e. unfold writes, takes, makes. naive_solver.
  - exists c. split; [done|]. eapply describes_ext; [|exact Hc]. intros k e. unfold writes, takes, makes. naive_solver.
Qed.

(** The parameters that nothing takes. *)
Definition unused_writes (param : Store) (k : nat) (e : Entry) : Prop :=
  k = Z.to_nat (store_index param) /\
  (e = ParameterSharding (ToProto (mpmd_sharding param)) \/ e = ParameterLayout (shape_layout (store_shape param))).

Lemma collect_all_describes ops unused c : sizes params roots c ->
  (forall param, param ∈ unused -> 0 <= store_index param < Z.of_nat params) -> (forall op, op ∈ ops -> in_range op) ->
  exists c1 c2, foldM (collect_unused shape_layout) c unused = OK c1 /\ foldM collect_operation c1 ops = OK c2 /\
    describes (fun k e => (exists param, param ∈ unused /\ unused_writes param k e) \/ exists op, op ∈ ops /\ writes op k e) c2.
Proof.
  intros Hsz Hun Hops.
  destruct (describes_fold (collect_unused shape_layout) unused_writes unused (fun _ _ => False) c) as (c1 & H1 & D1).
  { intros param W c' Hp Hc'. destruct (set_parameter_describes (store_index param) (ToProto (mpmd_sharding param))
      (shape_layout (store_shape param)) W c' (Hun _ Hp) Hc') as (c'' & Hr & Hd). by exists c''. }
  { split; [done|]. by intros ? ? ? []. }
  destruct (describes_fold collect_operation writes ops _ c1 (fun op W c Hop => collect_operation_describes op W c (Hops op Hop)) D1)
    as (c2 & H2 & D2).
  exists c1, c2. split_and!; [done..|]. eapply describes_ext; [|exact D2]. intros k e. tauto.
Qed.
End sized.
End collect.

(** ** CreateTasks on the operations of MpmdPartitionIntoTasks *)

Lemma count_instructions_roots entry root : root_instr (count_instructions entry) = Some root ->
  num_roots (count_instructions entry) = match instr_shape root with TupleShape shapes => Zlength shapes | ArrayShape _ => 1 end.
Proof.
  unfold count_instructions. induction entry as [|instr entry IH] using rev_ind; [done|]. rewrite foldl_app. cbn [foldl].
  set (n := foldl _ _ _) in *. unfold count_instruction.
  destruct (instr_root instr) eqn:Hr; [by intros [= <-]|].
  destruct (instr_parameter instr); [destruct (instr_shape instr)|]; exact IH.
Qed.

Section create.
Context {I C St D HS A B L : Type} `{EqDecision I, !Countable I, EqDecision C, !Countable C, EqDecision D, !Countable D}.
Context `{!HashOrder}.
Context `{!Hlo I C, !AttrStore I St, !DeviceListApi D, !HloShardingApi HS, !ScheduledInstruction I C HS}.
Context `{!AliasModule I C, !AliasConfig A, !BufferDonors B, !ModuleAliases A B, !CompiledTask (SpmdModule C A HS)}.
Context `{!PostOrderLaws I C, !UsersLaws I C}.
Context (IsTileMaximalLeaf : HS -> bool) (SimpleAtoi : string -> option Z).
Context (partition_ : HloPartition D) (s : St).
Context (allow_to_parameters allow_to_output : list bool).
Context (module_alias_config : A) (module_donor_config : B).
Context (clone_status cost_status : C -> Result unit) (verify : C -> A -> Result unit) (output_is_dynamic : C -> bool).
Abbreviation MpmdPartitionIntoTasks := (MpmdPartitionIntoTasks IsTileMaximalLeaf SimpleAtoi partition_ s
  allow_to_parameters allow_to_output module_alias_config module_donor_config clone_status cost_status verify output_is_dynamic).
Context (default_layout : L) (shape_layout : Shape -> L) (parameter_layout result_layout : SpmdModule C A HS -> Z -> L).
Context (module_num_parameters : SpmdModule C A HS -> nat) (MakePartitionedShape : Shape -> HS -> Shape).
Context (CreateCompiler : SpmdModule C A HS -> Result unit) (HasPartialReplication : HS -> bool).
Abbreviation CreateTasks := (CreateTasks default_layout shape_layout parameter_layout result_layout module_num_parameters
  MakePartitionedShape CreateCompiler HasPartialReplication).
Abbreviation takes := (takes shape_layout parameter_layout module_num_parameters HasPartialReplication).
Abbreviation makes := (makes (C := C) (A := A) shape_layout result_layout MakePartitionedShape).
Abbreviation Operation := (MpmdOperation C A D HS).
Abbreviation IsSubmeshReplicatedScalar := (IsSubmeshReplicatedScalar (D := D) HasPartialReplication).
Implicit Types (c : C) (op : Operation) (ops : list Operation) (store input output : Store D HS).

(** The message has the parameters and results of the module [c]; a task has an argument for each
    parameter and a result for each output of its module, and its module can be compiled. *)
Record program_of c (entry : list HloInstructionProto) (root : HloInstructionProto) (layouts : list (option L))
    ops (modules : list (SpmdModule C A HS)) : Prop := {
  po_root : root_instr (count_instructions entry) = Some root;
  po_layouts : num_parameters (count_instructions entry) = Zlength layouts;
  po_parameters : forall p, p ∈ MakeInstructionPostOrder c -> opcode p = kParameter ->
    0 <= parameter_number_of p < num_parameters (count_instructions entry);
  po_entry : forall p, p ∈ parameter_instructions c -> p ∈ MakeInstructionPostOrder c /\ opcode p = kParameter;
  po_roots : num_roots (count_instructions entry) = Zlength (operands (root_instruction c));
  po_modules : forall m, m ∈ modules -> CreateCompiler m = OK ();
  po_tasks : forall m devices inputs outputs scalars flag, SpmdHloModuleTask m devices inputs outputs scalars flag ∈ ops ->
    module_num_parameters m = length inputs /\
    (forall input, input ∈ inputs -> exists b, IsSubmeshReplicatedScalar input devices = OK b) /\
    (forall n, (n < length outputs)%nat -> exists shape, get_shape_at_index (SpmdRootShape m) (Z.of_nat n) = OK shape);
}.

(** *** The stores of the operations *)
Section stores.
Context (c : C) (Hflat : flat c) (Hnames : reusable_names c).
Context (st0 : MpmdScheduler I C D HS A) (Hready : stores_ready c st0).

Lemma stores_unique i j store store' : GetStore i st0 = OK store -> GetStore j st0 = OK store' -> key store = key store' ->
  store = store'.
Proof.
  intros Hi Hj Hk. assert (scheduling_name i = scheduling_name j) as Hn by (by eapply same_key).
  unfold GetStore in Hi, Hj. rewrite Hn in Hi. congruence.
Qed.

Lemma taken_store i op input sharding layout : op_for SimpleAtoi s st0 i op -> takes op input sharding layout ->
  store_type input = PARAM /\ exists o, GetStore o st0 = OK input.
Proof.
  intros [(_ & c' & m & devices & args & flag & _ & _ & Hargs & ->)|(_ & o & source & dest & _ & Ho & _ & ->)].
  - intros (n & _ & Hn & [Ht _] & _). split; [done|].
    destruct (Forall2_lookup_r _ _ _ _ _ (ar_inputs _ _ _ _ _ Hargs) Hn) as ([m' o] & _ & Hin).
    unfold input_for in Hin. cbn in Hin. destruct (IsCustomCall o _); [|by exists o].
    destruct Hin as [[_ Ht'] _]. congruence.
  - intros (-> & Ht & _). split; [done|]. by exists o.
Qed.

Lemma made_store i op output shape layout : op_for SimpleAtoi s st0 i op -> makes op output shape layout ->
  store_type output = ROOT /\ exists o, GetStore o st0 = OK output.
Proof.
  intros [(_ & c' & m & devices & args & flag & _ & _ & Hargs & ->)|(_ & o & source & dest & _ & _ & Ho & ->)].
  - intros [Ht (n & Hn & _)]. split; [done|].
    destruct (ar_outputs _ _ _ _ _ Hargs n output Hn) as (u & _ & _ & _ & Hu). by exists u.
  - intros [Ht (-> & _)]. split; [done|]. by exists i.
Qed.

(** The index of a stored parameter or output. *)
Lemma fixed_index o store : GetStore o st0 = OK store ->
  match store_type store with
  | PARAM => exists p, p ∈ MakeInstructionPostOrder c /\ opcode p = kParameter /\ store_index store = parameter_number_of p
  | ROOT => 0 <= store_index store < Zlength (operands (root_instruction c))
  | TEMP => True
  end.
Proof.
  unfold GetStore. destruct (scheduling_name_to_buffer_index_ st0 !! scheduling_name o) as [a|] eqn:Ha; [|done].
  intros [= ->]. destruct (t_from _ _ _ (sr_table _ _ Hready) _ _ Ha) as (_ & _ & j & Hj & _ & Hkind).
  destruct (store_type store); [by exists j| |done].
  destruct Hkind as [_ Hk]. apply (GetRootIndex_operand c j _ (fl_root _ Hflat)), vec_at_lookup in Hk as [? Hk].
  apply lookup_lt_Some in Hk. unfold Zlength. lia.
Qed.

(** An operation makes every output of the module. *)
Lemma root_made ops v k : Forall2 (op_for SimpleAtoi s st0) (emission c) ops ->
  (forall m devices inputs outputs scalars flag, SpmdHloModuleTask m devices inputs outputs scalars flag ∈ ops ->
    forall n, (n < length outputs)%nat -> exists shape, get_shape_at_index (SpmdRootShape m) (Z.of_nat n) = OK shape) ->
  v ∈ MakeInstructionPostOrder c -> is_output v = true -> GetRootIndex c v = Some k ->
  exists op output shape layout, op ∈ ops /\ makes op output shape layout /\ GetStore v st0 = OK output /\ key output = (ROOT, k).
Proof.
  intros Hops Hshapes Hv Ho Hk.
  destruct (stored_GetStore c st0 Hready v Hv (or_intror Ho)) as [output Hs].
  assert (fixed c v) as Hfix by (right; rewrite Hk; eauto).
  pose proof (proj2 (fixed_store c Hnames st0 Hready v output Hv Hfix Hs) k Ho Hk) as Hkey.
  assert (store_type output = ROOT) as Ht by (unfold key in Hkey; congruence).
  destruct (done_defined c Hflat (MakeInstructionPostOrder c) [] (emission c) v) as [_ [Hp|(y & Hy & Hpr)]];
    [by rewrite app_nil_r|by apply emission_is_ok|done|by right|by destruct (is_output_not_parameter v Ho)|].
  assert (y ∈ MakeInstructionPostOrder c) as Hyp by (by apply (eo_members _ _ _ (emission_is_ok c Hflat))).
  apply list_elem_of_lookup in Hy as [n Hy]. destruct (Forall2_lookup_l _ _ _ _ _ Hops Hy) as (op & Hop & Hfor).
  apply list_elem_of_lookup_2 in Hop. exists op, output.
  destruct Hfor as [(Hc & c' & m & devices & args & flag & _ & _ & Hargs & ->)|(Hr & o & source & dest & _ & _ & Hd & ->)].
  - destruct Hpr as [[_ Hu]|[Hr _]]; [|by destruct (reshard_not_call y Hr)].
    destruct (ar_users _ _ _ _ _ Hargs v Hu) as [Hpos [store' Hs']].
    destruct (ar_outputs _ _ _ _ _ Hargs _ _ Hs') as (u & Hu' & Htu & _ & Hgu).
    assert (u = v) as -> by (apply (fl_tuple_index _ Hflat y); try done; lia).
    rewrite Hs in Hgu. injection Hgu as <-.
    destruct (Hshapes _ _ _ _ _ _ Hop (Z.to_nat (tuple_index v))) as [shape Hshape]; [by eapply lookup_lt_Some|].
    exists shape. eexists. split_and!; [done| |done|done]. split; [done|]. by eexists.
  - destruct Hpr as [[Hc _]|[_ <-]]; [by destruct (reshard_not_call y Hr)|].
    rewrite Hs in Hd. injection Hd as <-. do 2 eexists. split_and!; [done| |done|done]. split; [done|]. by split_and!.
Qed.
End stores.

Lemma submesh_input_sharding input devices b : IsSubmeshReplicatedScalar input devices = OK b ->
  input_sharding HasPartialReplication input devices = OK (if b then no_sharding else ToProto (mpmd_sharding input)).
Proof. unfold input_sharding. by intros ->. Qed.

Lemma operations_in_range c st0 entry root layouts ops modules : flat c -> reusable_names c -> stores_ready c st0 ->
  Forall2 (op_for SimpleAtoi s st0) (emission c) ops -> program_of c entry root layouts ops modules ->
  forall op, op ∈ ops -> in_range module_num_parameters HasPartialReplication
    (Z.to_nat (num_parameters (count_instructions entry))) (Z.to_nat (num_roots (count_instructions entry))) op.
Proof.
  intros Hflat Hnames Hready Hops [P1 P2 P3 P4 P5 P6 P7] op Hop. pose proof Hop as Hin.
  assert (forall o store, GetStore o st0 = OK store ->
      (store_type store = PARAM -> 0 <= store_index store < Z.of_nat (Z.to_nat (num_parameters (count_instructions entry)))) /\
      (store_type store = ROOT -> 0 <= store_index store < Z.of_nat (Z.to_nat (num_roots (count_instructions entry))))) as Hidx.
  { intros o store Hg. pose proof (fixed_index c Hflat st0 Hready o store Hg) as Hk. split; intros Ht; rewrite Ht in Hk.
    - destruct Hk as (p & Hp & Hpo & ->). specialize (P3 p Hp Hpo). lia.
    - rewrite P5. lia. }
  apply list_elem_of_lookup in Hop as [n Hn]. destruct (Forall2_lookup_r _ _ _ _ _ Hops Hn) as (i & _ & Hfor).
  destruct Hfor as [(_ & c' & m & devices & args & flag & _ & _ & Hargs & ->)|(_ & o & source & dest & _ & Hs & Hd & ->)].
  - destruct (P7 _ _ _ _ _ _ Hin) as (Hlen & Hb & Hshape). split; [by rewrite Hlen|]. split.
    + intros input Hi Ht. destruct (Hb input Hi) as [b Hb']. split; [|eexists; by apply submesh_input_sharding].
      apply list_elem_of_lookup in Hi as [k Hk].
      destruct (Forall2_lookup_r _ _ _ _ _ (ar_inputs _ _ _ _ _ Hargs) Hk) as ([m' o] & _ & Hfor).
      unfold input_for in Hfor. cbn in Hfor. destruct (IsCustomCall o _); [|by apply (Hidx o)].
      destruct Hfor as [[_ Ht'] _]. congruence.
    + intros k output Hk Ht. destruct (ar_outputs _ _ _ _ _ Hargs k output Hk) as (u & _ & _ & _ & Hu).
      split; [by apply (Hidx u)|]. apply Hshape. by eapply lookup_lt_Some.
  - split; intros Ht; [by apply (Hidx o)|by apply (Hidx i)].
Qed.

(** Where the described sharding of a parameter comes from. *)
Definition parameter_described ops input (sharding : OpSharding) : Prop :=
  sharding = ToProto (mpmd_sharding input) \/
  (sharding = no_sharding /\ exists m devices inputs outputs scalars flag,
     SpmdHloModuleTask m devices inputs outputs scalars flag ∈ ops /\ input ∈ inputs /\
     IsSubmeshReplicatedScalar input devices = OK true).

Lemma takes_described ops op input sharding layout : op ∈ ops -> takes op input sharding layout ->
  parameter_described ops input sharding.
Proof.
  intros Hop. destruct op as [m devices inputs outputs scalars flag|from to| |]; [|by intros (-> & _ & -> & _); left|done..].
  intros (n & _ & Hn & [_ Hs] & _). unfold input_sharding in Hs. apply Result_bind_OK in Hs as ([] & Hb & [= <-]); [right|by left].
  split; [done|]. do 6 eexists. split_and!; [done|by eapply list_elem_of_lookup_2|done].
Qed.

(** Every output of the program is described as an operation makes it, every parameter as it is taken. *)
Record describes_program c ops (unused : list (Store D HS)) (out : CompileOutput C A D HS L) : Prop := {
  dp_parameters : forall input,
    (input ∈ unused \/ exists op sharding layout, op ∈ ops /\ takes op input sharding layout) ->
    exists sharding, parameter_shardings out !! Z.to_nat (store_index input) = Some sharding /\ parameter_described ops input sharding;
  dp_outputs : forall v k, v ∈ MakeInstructionPostOrder c -> is_output v = true -> GetRootIndex c v = Some k ->
    exists op output shape layout, op ∈ ops /\ makes op output shape layout /\ key output = (ROOT, k) /\
      root_shardings out !! Z.to_nat k = Some (ToProto (mpmd_sharding output)) /\ output_shapes out !! Z.to_nat k = Some shape;
}.

Lemma unused_spec st (params : list I) (unused : list (Store D HS)) :
  foldM (fun stores param => if bool_decide (Zlength (users param) = 0)
    then store ← GetStore (A := A) param st; OK (stores ++ [store]) else OK stores) [] params = OK unused ->
  forall store, store ∈ unused -> exists p, p ∈ params /\ GetStore p st = OK store.
Proof.
  apply (foldM_inv (fun done (us : list (Store D HS)) => forall store, store ∈ us -> exists p, p ∈ done /\ GetStore p st = OK store)).
  { by intros store Hs%elem_of_nil. }
  intros done p rest us us' _ Hus. case_bool_decide.
  - intros (store & Hst & [= <-])%Result_bind_OK store' [Hs|Hs%list_elem_of_singleton]%elem_of_app.
    + destruct (Hus store' Hs) as (q & ? & ?). exists q. split; [set_solver|done].
    + subst. exists p. split; [set_solver|done].
  - intros [= <-] store Hs. destruct (Hus store Hs) as (q & ? & ?). exists q. split; [set_solver|done].
Qed.

(** The operations and stores of MpmdPartitionIntoTasks. *)
Lemma partition_inv c ops modules temps unused : MpmdPartitionIntoTasks c = OK (ops, modules, temps, unused) ->
  exists st0, stores_ready c st0 /\ Forall2 (op_for SimpleAtoi s st0) (emission c) ops /\
    forall store, store ∈ unused -> exists p, p ∈ parameter_instructions c /\ GetStore p st0 = OK store.
Proof.
  intros Hrun. unfold TaskScheduler.MpmdPartitionIntoTasks in Hrun.
  apply Result_bind_OK in Hrun as (st & Hst & Hrun). apply Result_bind_OK in Hrun as (ts & _ & Hrun).
  apply Result_bind_OK in Hrun as (us & Hus & [= <- <- <- <-]).
  unfold AddTasksFromEntryComputation in Hst. apply Result_bind_OK in Hst as (st1 & H1 & Hst).
  apply Result_bind_OK in Hst as (st2 & H2 & H3).
  destruct (loops_ready _ _ _ _ _ c st1 st2 H1 H2) as (Hready & E1 & E2 & E3).
  destruct (operations_emitted _ _ _ _ _ _ _ _ _ c st2 st (sr_table _ _ Hready) E1 E2 E3 H3) as [Ht _ _ _ Hops].
  exists st2. split_and!; [done|done|]. intros store Hs. destruct (unused_spec _ _ _ Hus store Hs) as (p & Hp & Hg).
  exists p. split; [done|]. by rewrite <- (GetStore_same p st2 st).
Qed.

Lemma compilers_ok (modules : list (SpmdModule C A HS)) : (forall m, m ∈ modules -> CreateCompiler m = OK ()) ->
  foldM (fun (_ : unit) m => CreateCompiler m) () modules = OK ().
Proof.
  induction modules as [|m modules IH]; intros Hm; [done|]. cbn. rewrite (Hm m) by left. cbn. apply IH.
  intros m' Hm'. apply Hm. by right.
Qed.

(** *** The entries *)
Section entries.
Context (c : C) (Hflat : flat c) (st0 : MpmdScheduler I C D HS A) (Hready : stores_ready c st0).
Context (ops : list Operation) (unused : list (Store D HS)) (params roots : nat) (Hops : Forall2 (op_for SimpleAtoi s st0) (emission c) ops).

Definition taken input : Prop := input ∈ unused \/ exists op sharding layout, op ∈ ops /\ takes op input sharding layout.
Definition written (k : nat) (e : Entry (L := L)) : Prop :=
  (exists param, param ∈ unused /\ unused_writes shape_layout param k e) \/
  (exists op, op ∈ ops /\ writes shape_layout parameter_layout result_layout module_num_parameters MakePartitionedShape
     HasPartialReplication op k e).

Context (Hunused : forall store, store ∈ unused -> store_type store = PARAM /\ exists o, GetStore o st0 = OK store).
Context (Hparams : forall p, p ∈ MakeInstructionPostOrder c -> opcode p = kParameter -> 0 <= parameter_number_of p < Z.of_nat params).
Context (Hroots : Zlength (operands (root_instruction c)) <= Z.of_nat roots).

Lemma op_member op : op ∈ ops -> exists i, op_for SimpleAtoi s st0 i op.
Proof. intros [n Hn]%list_elem_of_lookup. destruct (Forall2_lookup_r _ _ _ _ _ Hops Hn) as (i & _ & ?). by exists i. Qed.

Lemma taken_inv input : taken input -> store_type input = PARAM /\ 0 <= store_index input < Z.of_nat params /\
  exists o, GetStore o st0 = OK input.
Proof.
  intros Ht. assert (store_type input = PARAM /\ exists o, GetStore o st0 = OK input) as (Hp & o & Ho).
  { destruct Ht as [Hu|(op & sh & la & Hop & Ht)]; [by apply Hunused|].
    destruct (op_member op Hop) as [i Hi]. by eapply taken_store. }
  split; [done|]. split; [|by exists o]. pose proof (fixed_index c Hflat st0 Hready o input Ho) as Hk. rewrite Hp in Hk.
  destruct Hk as (p & Hpp & Hpo & ->). by apply Hparams.
Qed.

Lemma made_inv op output shape layout : op ∈ ops -> makes op output shape layout ->
  store_type output = ROOT /\ 0 <= store_index output < Z.of_nat roots /\ exists o, GetStore o st0 = OK output.
Proof.
  intros Hop Hm. destruct (op_member op Hop) as [i Hi]. destruct (made_store _ _ _ _ _ _ Hi Hm) as (Ht & o & Ho).
  split; [done|]. split; [|by exists o]. pose proof (fixed_index c Hflat st0 Hready o output Ho) as Hk. rewrite Ht in Hk. lia.
Qed.

Lemma same_index (store store' : Store D HS) o o' : store_type store = store_type store' -> 0 <= store_index store -> 0 <= store_index store' ->
  Z.to_nat (store_index store) = Z.to_nat (store_index store') -> GetStore o st0 = OK store -> GetStore o' st0 = OK store' ->
  store = store'.
Proof. intros Ht H1 H2 Hi Ho Ho'. eapply stores_unique; [done..|]. unfold key. f_equal; [done|lia]. Qed.

Lemma described_parameter (col : Collected L) input : describes params roots written col -> taken input ->
  exists sharding, c_parameter_shardings col !! Z.to_nat (store_index input) = Some sharding /\ parameter_described ops input sharding.
Proof.
  intros [[[Hlen _] _] H2] Ht. destruct (taken_inv input Ht) as (Htype & Hidx & o & Ho).
  destruct (lookup_lt_is_Some_2 (c_parameter_shardings col) (Z.to_nat (store_index input)) ltac:(lia)) as [sharding Hs].
  exists sharding. split; [done|].
  assert (exists sh, written (Z.to_nat (store_index input)) (ParameterSharding sh)) as [sh Hw].
  { destruct Ht as [Hu|(op & sh & la & Hop & Ht)].
    - exists (ToProto (mpmd_sharding input)). left. exists input. split; [done|]. split; [done|by left].
    - exists sh. right. exists op. split; [done|]. left. exists input, sh, la. split_and!; [done..|by left]. }
  destruct (H2 _ _ (ParameterSharding sharding) Hw Hs eq_refl) as [(param & Hu & Hk & [[= ->]|[=]])|(op & Hop & Hwr)].
  - destruct (taken_inv param (or_introl Hu)) as (Htype' & Hidx' & o' & Ho').
    left. rewrite (same_index param input o' o); [done|congruence|lia|lia|done..].
  - destruct Hwr as [(input' & sh' & la & Htk & Hk & [[= ->]|[=]])|(out & shp & la & _ & _ & [[=]|[[=]|[=]]])].
    destruct (taken_inv input') as (Htype' & Hidx' & o' & Ho'); [by right; exists op, sh', la|].
    assert (input' = input) as -> by (apply (same_index input' input o' o); [congruence|lia|lia|done..]).
    by eapply takes_described.
Qed.

Lemma described_output (col : Collected L) op output shape layout : describes params roots written col -> op ∈ ops -> makes op output shape layout ->
  exists op' shape' layout', op' ∈ ops /\ makes op' output shape' layout' /\
    c_root_shardings col !! Z.to_nat (store_index output) = Some (ToProto (mpmd_sharding output)) /\
    c_output_shapes col !! Z.to_nat (store_index output) = Some shape'.
Proof.
  intros [[_ (L1 & _ & L2)] H2] Hop Hm. destruct (made_inv _ _ _ _ Hop Hm) as (Htype & Hidx & o & Ho).
  assert (forall e, e = RootSharding (ToProto (mpmd_sharding output)) \/ e = OutputLayout layout \/ e = OutputShape shape ->
    written (Z.to_nat (store_index output)) e) as Hw.
  { intros e He. right. exists op. split; [done|]. right. by exists output, shape, layout. }
  assert (forall e', written (Z.to_nat (store_index output)) e' ->
    match e' with
    | RootSharding sh => sh = ToProto (mpmd_sharding output)
    | OutputShape sh => exists op' la, op' ∈ ops /\ makes op' output sh la
    | _ => True
    end) as Hinv.
  { intros e' [(param & _ & _ & [->| ->])|(op' & Hop' & Hwr)]; [done..|].
    destruct Hwr as [(i' & sh' & la & _ & _ & [->| ->])|(out & shp & la & Hm' & Hk & He)]; [done..|].
    destruct (made_inv _ _ _ _ Hop' Hm') as (Htype' & Hidx' & o' & Ho').
    assert (out = output) as -> by (apply (same_index out output o' o); [congruence|lia|lia|done..]).
    destruct He as [->|[->| ->]]; [done..|]. by exists op', la. }
  destruct (lookup_lt_is_Some_2 (c_root_shardings col) (Z.to_nat (store_index output)) ltac:(lia)) as [sh Hs].
  destruct (lookup_lt_is_Some_2 (c_output_shapes col) (Z.to_nat (store_index output)) ltac:(lia)) as [sp Hsp].
  pose proof (Hinv _ (H2 _ _ (RootSharding sh) (Hw _ (or_introl eq_refl)) Hs eq_refl)) as E1. cbn in E1. subst sh.
  destruct (Hinv _ (H2 _ _ (OutputShape sp) (Hw _ (or_intror (or_intror eq_refl))) Hsp eq_refl)) as (op' & la & Hop' & Hm').
  by exists op', sp, la.
Qed.

Lemma entries_describe (col : Collected L) (out : CompileOutput C A D HS L) : reusable_names c ->
  (forall m devices inputs outputs scalars flag, SpmdHloModuleTask m devices inputs outputs scalars flag ∈ ops ->
    forall n, (n < length outputs)%nat -> exists shape, get_shape_at_index (SpmdRootShape m) (Z.of_nat n) = OK shape) ->
  describes params roots written col -> parameter_shardings out = c_parameter_shardings col ->
  root_shardings out = c_root_shardings col -> output_shapes out = c_output_shapes col -> describes_program c ops unused out.
Proof.
  intros Hnames Hshapes Hd E1 E2 E3. split.
  - intros input Ht. rewrite E1. by apply described_parameter.
  - intros v k Hv Ho Hk. rewrite E2, E3.
    destruct (root_made c Hflat Hnames st0 Hready ops v k Hops Hshapes Hv Ho Hk) as (op & output & shape & layout & Hop & Hm & _ & Hkey).
    destruct (described_output col op output shape layout Hd Hop Hm) as (op' & shape' & layout' & Hop' & Hm' & R1 & R2).
    injection Hkey as Hty Hix. rewrite Hix in R1, R2. exists op', output, shape', layout'. split_and!; try done.
    unfold key. congruence.
Qed.
End entries.

(** C10: CreateTasks describes the program.  On the operations that MpmdPartition made of a
    program it succeeds; every parameter that an operation takes, or that nothing uses, has
    the sharding of its store, unless a task takes it as a scalar that is replicated over
    its devices, and every output has the sharding of its root store and the shape in
    which an operation makes it. *)
Theorem CreateTasks_describes_program (c : C) (entry : list HloInstructionProto) (root : HloInstructionProto)
    (layouts : list (option L)) (ops : list Operation) (modules : list (SpmdModule C A HS)) (temps unused : list (Store D HS)) :
  MpmdPartitionIntoTasks c = OK (ops, modules, temps, unused) ->
  flat c -> reusable_names c -> program_of c entry root layouts ops modules ->
  exists out, CreateTasks entry layouts (OK (ops, modules, temps, unused)) = OK out /\
    schedule out = ops /\ temporaries out = temps /\ describes_program c ops unused out /\
    match instr_shape root with
    | TupleShape _ => output_shape out = TupleShape (output_shapes out)
    | ArrayShape _ => exists shape, output_shapes out = [shape] /\ output_shape out = ArrayShape shape
    end.
Proof.
  intros Hrun Hflat Hnames Hprogram. destruct (partition_inv _ _ _ _ _ Hrun) as (st0 & Hready & Hops & Hunused).
  pose proof (operations_in_range _ _ _ _ _ _ _ Hflat Hnames Hready Hops Hprogram) as Hrange.
  pose proof Hprogram as [P1 P2 P3 P4 P5 P6 P7]. unfold PjrtClient.CreateTasks.
  set (n := count_instructions entry) in *. cbn [mbind Result_bind].
  set (c0 := MkCollected _ _ _ _ _).
  assert (sizes (Z.to_nat (num_parameters n)) (Z.to_nat (num_roots n)) c0) as Hsz.
  { split; cbn; rewrite ?length_replicate, ?length_fmap; [|done]. split; [done|]. unfold Zlength in P2. lia. }
  assert (forall store, store ∈ unused -> store_type store = PARAM /\
      0 <= store_index store < Z.of_nat (Z.to_nat (num_parameters n))) as Hun.
  { intros store Hs. destruct (Hunused store Hs) as (p & Hp & Hg). destruct (P4 p Hp) as [Hpp Hpo].
    pose proof (proj1 (fixed_store c Hnames st0 Hready p store Hpp (or_introl Hpo) Hg) Hpo) as [= -> ->].
    specialize (P3 p Hpp Hpo). split; [done|]. lia. }
  destruct (collect_all_describes shape_layout parameter_layout result_layout module_num_parameters MakePartitionedShape
    HasPartialReplication _ _ ops unused c0 Hsz (fun store Hs => proj2 (Hun store Hs)) Hrange) as (c1 & c2 & R1 & R2 & [Hs2 H2]).
  rewrite R1. cbn [mbind Result_bind]. rewrite (compilers_ok modules P6). cbn [mbind Result_bind].
  rewrite R2. cbn [mbind Result_bind]. rewrite P1. cbn [of_option mbind Result_bind].
  destruct Hs2 as [[L1 L2] (L3 & L4 & L5)].
  pose proof (count_instructions_roots entry root P1) as Hroots.
  assert (forall out : CompileOutput C A D HS L, parameter_shardings out = c_parameter_shardings c2 ->
    root_shardings out = c_root_shardings c2 -> output_shapes out = c_output_shapes c2 -> describes_program c ops unused out) as Hdesc.
  { intros out E1 E2 E3. eapply (entries_describe c Hflat st0 Hready ops unused (Z.to_nat (num_parameters n))
      (Z.to_nat (num_roots n)) Hops) with (col := c2); try done.
    - intros store Hs. split; [by apply Hun|]. destruct (Hunused store Hs) as (p & _ & ?). by exists p.
    - intros p Hp Hpo. specialize (P3 p Hp Hpo). lia.
    - lia.
    - intros m devices inputs outputs scalars flag Hop. by apply (P7 _ _ _ _ _ _ Hop). }
  destruct (instr_shape root) as [shape|shapes].
  - destruct (c_output_shapes c2) as [|sh [|]]; cbn in L5; try (unfold n in L5; rewrite Hroots in L5; cbn in L5; lia).
    cbn. eexists. split; [done|]. split_and!; [done|done|by apply Hdesc|by exists sh].
  - cbn. eexists. split; [done|]. split_and!; [done|done|by apply Hdesc|done].
Qed.
End create.
