(* ===== verification/PjrtClientCompile.v ===== *)
(** * The compilations of a program (mm_pjrt_client.cc)

    [Compile] has the tasks of a program compiled on the devices of this process and waits for
    exactly the compilations that are pending; it refuses assignments to a part of the
    devices of several processes. *)
From S2P Require Import Prelude Hlo Sharding TaskScheduler ZukuContext PjrtExecutable PjrtClient.
Local Open Scope Z_scope.

Section compile.
Context {C A D HS L P : Type} `{!DeviceListApi D, !HloShardingApi HS}.
Context `{!EqDecision (SpmdModule C A HS), !CompiledTask (SpmdModule C A HS)}.
Abbreviation Module_ := (SpmdModule C A HS).
Abbreviation Operation := (MpmdOperation C A D HS).
Abbreviation Context_ := (ZukuExecuteContextImpl C A D HS P).
Abbreviation Command := (Command C A D HS P).
Implicit Types (ctx : Context_) (m : Module_) (op : Operation) (ops : list Operation) (d : ClientDevice) (cs : list Command).
Context (devices : list ClientDevice) (addressable_device_count this_process : Z) (LookupDevice : Z -> Result ClientDevice).
Context (Event : nat -> gset nat) (Contains : D -> Z -> bool).
Context (BaseCompile : option Module_ -> Result unit) (instruction_count : Module_ -> Z) (CompileNow : Module_ -> Result unit).
Context (enable_fast_path_exe : bool).
Abbreviation compute_max_per_process := (compute_max_per_process devices addressable_device_count).
Abbreviation check_assignment := (check_assignment devices addressable_device_count).
Abbreviation Compile := (Compile (L := L) (P := P) devices addressable_device_count this_process LookupDevice Event Contains
  BaseCompile instruction_count CompileNow enable_fast_path_exe).
Abbreviation compile_operation := (compile_operation (P := P) Event Contains).
Abbreviation compile_on_device := (compile_on_device (P := P) Event Contains).

(** *** Issuing compilations *)

Definition pending ctx : gset nat := pending_compilation_events_ ctx.

(** The commands [cs] have been issued, and their events are pending. *)
Record issued ctx cs ctx' : Prop := {
  is_commands : commands ctx' = commands ctx ++ cs;
  is_pending : forall e, e ∈ pending ctx' <->
    e ∈ pending ctx \/ exists n, (n < length cs)%nat /\ e ∈ Event (length (commands ctx) + n);
}.

Lemma issued_refl ctx : issued ctx [] ctx.
Proof. split; [by rewrite app_nil_r|]. intros e. split; [by left|]. intros [?|(n & Hn & _)]; [done|cbn in Hn; lia]. Qed.

Lemma issued_compile ctx cs ctx' local m : issued ctx cs ctx' ->
  issued ctx (cs ++ [CompileCommand local m]) (CreateCompileTask Event local m ctx').
Proof.
  intros [H1 H2]. split.
  - cbn. by rewrite H1, <- app_assoc.
  - intros e. cbn. rewrite elem_of_union, length_app. cbn [length]. unfold pending in H2. rewrite H2, H1, length_app. split.
    + intros [He|[?|(n & Hn & He)]]; [right; exists (length cs); split; [lia|done]|by left|right; exists n; split; [lia|done]].
    + intros [?|(n & Hn & He)]; [by auto|]. destruct (decide (n = length cs)) as [->|Hne]; [by left|].
      right; right. exists n. split; [lia|done].
Qed.

Definition task_for op m (task_devices : D) : Prop :=
  exists inputs outputs scalars flag, op = SpmdHloModuleTask m task_devices inputs outputs scalars flag.

(** Every task that has a device of this process has its module compiled, once for every such
    device of the first of these tasks. *)
Record compiles (addressable : list ClientDevice) ops cs : Prop := {
  co_sound : forall command, command ∈ cs -> exists local m, command = CompileCommand local m;
  co_devices : forall m local, CompileCommand local m ∈ cs -> exists op task_devices, op ∈ ops /\ task_for op m task_devices /\
    forall local', CompileCommand local' m ∈ cs <->
      exists d, d ∈ addressable /\ Contains task_devices (client_device d).2 = true /\ (client_device d).1 = local';
  co_complete : forall op m task_devices d, op ∈ ops -> task_for op m task_devices -> d ∈ addressable ->
    Contains task_devices (client_device d).2 = true -> exists local, CompileCommand local m ∈ cs;
  co_once : NoDup ((fun d => (client_device d).1) <$> addressable) -> NoDup cs;
}.

Definition on_devices (addressable : list ClientDevice) m (task_devices : D) : list Command :=
  (fun d => CompileCommand (client_device d).1 m) <$> filter (fun d => Contains task_devices (client_device d).2 = true) addressable.

Lemma compile_on_devices m task_devices addressable built ctx0 cs ctx : issued ctx0 cs ctx ->
  exists built' ctx', foldl (compile_on_device m task_devices) (built, ctx) addressable = (built', ctx') /\
    issued ctx0 (cs ++ on_devices addressable m task_devices) ctx' /\
    forall m', m' ∈ built' <-> m' ∈ built \/ (m' = m /\ on_devices addressable m task_devices <> []).
Proof.
  revert built cs ctx. induction addressable as [|d addressable IH]; intros built cs ctx Hi.
  - exists built, ctx. split; [done|]. split; [by rewrite app_nil_r|]. intros m'. split; [by left|]. by intros [?|[_ []]].
  - cbn [foldl]. unfold compile_on_device at 2, PjrtClient.compile_on_device, on_devices. rewrite filter_cons.
    destruct (Contains task_devices (client_device d).2) eqn:Hd; [rewrite decide_True by done|rewrite decide_False by done].
    + edestruct (IH (m :: built) _ _ (issued_compile _ _ _ (client_device d).1 m Hi)) as (built' & ctx' & Hr & Hi' & Hb).
      exists built', ctx'. split; [exact Hr|]. split; [by rewrite <- app_assoc in Hi'|].
      intros m'. rewrite Hb, elem_of_cons. cbn. split; [intros [[->|?]|[? _]]|intros [?|[-> _]]]; auto.
    + by apply IH.
Qed.

Lemma elem_of_on_devices addressable m task_devices command : command ∈ on_devices addressable m task_devices <->
  exists d, d ∈ addressable /\ Contains task_devices (client_device d).2 = true /\ command = CompileCommand (client_device d).1 m.
Proof. unfold on_devices. rewrite list_elem_of_fmap. setoid_rewrite list_elem_of_filter. naive_solver. Qed.

Lemma on_devices_NoDup addressable m task_devices : NoDup ((fun d => (client_device d).1) <$> addressable) ->
  NoDup (on_devices addressable m task_devices).
Proof.
  unfold on_devices. induction addressable as [|d l IH]; [intros _; constructor|]. rewrite fmap_cons, filter_cons.
  intros [Hn Hl]%NoDup_cons. case_decide; [|by apply IH]. rewrite fmap_cons. constructor; [|by apply IH].
  intros (d' & [= E] & [_ Hd']%list_elem_of_filter)%list_elem_of_fmap. apply Hn, list_elem_of_fmap. by exists d'.
Qed.

Lemma compiles_skip addressable ops op cs : compiles addressable ops cs ->
  (forall m task_devices d, task_for op m task_devices -> d ∈ addressable -> Contains task_devices (client_device d).2 = true ->
     exists local, CompileCommand local m ∈ cs) -> compiles addressable (ops ++ [op]) cs.
Proof.
  intros [H1 H2 H3 H4] Hop. split; [done| | |done].
  - intros m local Hc. destruct (H2 m local Hc) as (op' & tds & Hin & ?). exists op', tds. split; [set_solver|done].
  - intros op' m tds d [Hin| ->%list_elem_of_singleton]%elem_of_app Ht Hd Hcon; [by eapply H3|by eapply Hop].
Qed.

Lemma compiles_task addressable ops op m task_devices cs : compiles addressable ops cs -> task_for op m task_devices ->
  (forall local, CompileCommand local m ∉ cs) -> compiles addressable (ops ++ [op]) (cs ++ on_devices addressable m task_devices).
Proof.
  intros [H1 H2 H3 H4] Hop Hnew. split.
  - intros command [Hc|(d & _ & _ & ->)%elem_of_on_devices]%elem_of_app; [by apply H1|by do 2 eexists].
  - intros m' local [Hc|(d & Hd & Hcon & [= -> ->])%elem_of_on_devices]%elem_of_app.
    + destruct (H2 m' local Hc) as (op' & tds & Hin & Ht & Hall). exists op', tds. split; [set_solver|]. split; [done|].
      intros local'. rewrite elem_of_app, Hall, elem_of_on_devices. split; [|by left].
      intros [?|(d & _ & _ & [= -> ->])]; [done|]. by destruct (Hnew local).
    + exists op, task_devices. split; [set_solver|]. split; [done|]. intros local'. rewrite elem_of_app, elem_of_on_devices.
      split; [intros [Hin|(d' & ? & ? & [= ->])]; [by destruct (Hnew local')|by exists d']|].
      intros (d' & ? & ? & <-). right. by exists d'.
  - intros op' m' tds d [Hin| ->%list_elem_of_singleton]%elem_of_app Ht Hd Hcon.
    + destruct (H3 op' m' tds d Hin Ht Hd Hcon) as [local ?]. exists local. set_solver.
    + destruct Hop as (i1 & o1 & s1 & f1 & ->), Ht as (i2 & o2 & s2 & f2 & [= -> -> _ _ _ _]).
      exists (client_device d).1. apply elem_of_app. right. apply elem_of_on_devices. by exists d.
  - intros Hnd. apply NoDup_app. split; [by apply H4|]. split.
    + intros command Hc (d & _ & _ & ->)%elem_of_on_devices. by eapply Hnew.
    + by apply on_devices_NoDup.
Qed.

Lemma compile_schedule_issues addressable ops ctx : exists cs,
  issued ctx cs (compile_schedule Event Contains addressable ops ctx) /\ compiles addressable ops cs.
Proof.
  unfold compile_schedule.
  assert (exists built ctx' cs, foldl (compile_operation addressable) ([], ctx) ops = (built, ctx') /\ issued ctx cs ctx' /\
    compiles addressable ops cs /\ forall m, m ∈ built <-> exists local, CompileCommand local m ∈ cs)
    as (built & ctx' & cs & -> & Hi & Hc & _); [|by exists cs].
  induction ops as [|op ops (built & ctx' & cs & Hf & Hi & Hc & Hb)] using rev_ind.
  { exists [], ctx, []. split; [done|]. split; [apply issued_refl|]. split; [split|]; try (intros; set_solver). constructor. }
  rewrite foldl_app, Hf. cbn [foldl]. destruct op as [m tds ins outs scs f| | |].
  2-4: exists built, ctx', cs; split_and!; [done|done| |done]; apply compiles_skip; [done|]; by intros ? ? ? (? & ? & ? & ? & ?).
  cbn [PjrtClient.compile_operation fst]. case_bool_decide as Hin.
  - exists built, ctx', cs. split_and!; [done|done| |done]. apply compiles_skip; [done|].
    intros m' tds' d (? & ? & ? & ? & [= -> _ _ _ _ _]) _ _. by apply Hb.
  - destruct (compile_on_devices m tds addressable built ctx cs ctx' Hi) as (built2 & ctx2 & -> & Hi2 & Hb2).
    exists built2, ctx2. eexists. split_and!; [done|exact Hi2| |].
    + apply compiles_task; [done|by do 4 eexists|]. intros local Hl. apply Hin, Hb. by exists local.
    + intros m'. rewrite Hb2, Hb. setoid_rewrite elem_of_app. split.
      * intros [[local ?]|[-> Hne]]; [exists local; by left|].
        destruct (on_devices addressable m tds) as [|x l] eqn:Hon; [done|].
        assert (x ∈ on_devices addressable m tds) as Hx by (rewrite Hon; left).
        apply elem_of_on_devices in Hx as (d & _ & _ & ->). eexists. right. left.
      * intros [local [?|Hon]]; [left; by exists local|right].
        pose proof Hon as (d & _ & _ & [= _ ->])%elem_of_on_devices. split; [done|]. intros E. rewrite E in Hon. set_solver.
Qed.

(** *** Which executable *)

(** How many of the ids are devices of a process. *)
Definition on_process (p : Z) (id : Z) : bool :=
  match devices !! Z.to_nat id with Some d => bool_decide (process_index d = p) | None => false end.
Definition process_count (p : Z) (ids : list Z) : Z := Zlength (filter (fun id => on_process p id = true) ids).

Definition valid_ids (processes : Z) (ids : list Z) : Prop := forall id, id ∈ ids ->
  0 <= id /\ exists d, devices !! Z.to_nat id = Some d /\ 0 <= process_index d < processes.

Lemma process_count_snoc p ids id : process_count p (ids ++ [id]) = process_count p ids + (if on_process p id then 1 else 0).
Proof.
  unfold process_count. rewrite filter_app. unfold Zlength. rewrite length_app, filter_cons, filter_nil.
  destruct (on_process p id); [rewrite decide_True by done|rewrite decide_False by done]; cbn; lia.
Qed.

Lemma count_processes processes ids : 0 <= processes -> valid_ids processes ids ->
  exists counts n, foldM (count_process devices) (replicate (Z.to_nat processes) 0, 0) ids = OK (counts, n) /\
    (forall p, 0 <= p < processes -> process_count p ids <= n) /\
    (n = 0 /\ ids = [] \/ exists p, 0 <= p < processes /\ n = process_count p ids).
Proof.
  intros Hp Hv. destruct (foldM_total (fun done (acc : list Z * Z) => length acc.1 = Z.to_nat processes /\
      (forall p, 0 <= p < processes -> acc.1 !! Z.to_nat p = Some (process_count p done)) /\
      (forall p, 0 <= p < processes -> process_count p done <= acc.2) /\
      (acc.2 = 0 /\ done = [] \/ exists p, 0 <= p < processes /\ acc.2 = process_count p done))
    (count_process devices) (replicate (Z.to_nat processes) 0, 0) ids) as ([counts n] & Hr & _ & _ & H1 & H2).
  - cbn. rewrite length_replicate. split_and!; [done| | |by left]; intros p Hr; [apply lookup_replicate; split; [done|lia]|done].
  - intros done id rest [counts n] Heq (Hl & Hc & Hle & Hmax). cbn in Hl, Hc, Hle, Hmax.
    destruct (Hv id ltac:(rewrite Heq; set_solver)) as (Hid & d & Hd & Hproc).
    unfold count_process. rewrite (proj2 (vec_at_lookup devices id d)) by done. cbn [mbind Result_bind].
    rewrite (proj2 (vec_at_lookup counts (process_index d) (process_count (process_index d) done))) by (split; [lia|by apply Hc]).
    cbn [mbind Result_bind]. rewrite vec_set_OK by (unfold Zlength; lia). cbn [mbind Result_bind].
    eexists. split; [done|]. cbn. rewrite length_insert. split; [done|].
    assert (forall p, process_count p (done ++ [id]) = process_count p done + (if decide (p = process_index d) then 1 else 0)) as Hcount.
    { intros p. rewrite process_count_snoc. unfold on_process. rewrite Hd. repeat case_decide; case_bool_decide; congruence || lia. }
    split_and!.
    + intros p Hpr. rewrite Hcount. destruct (decide (p = process_index d)) as [->|Hne].
      * by apply list_lookup_insert_eq; lia.
      * rewrite list_lookup_insert_ne by lia. rewrite Z.add_0_r. by apply Hc.
    + intros p Hpr. rewrite Hcount. specialize (Hle p Hpr). case_decide; subst; lia.
    + right. destruct (Z.max_spec (process_count (process_index d) done + 1) n) as [[Hlt ->]|[Hge ->]].
      * destruct Hmax as [[-> ->]|(p & Hpr & ->)].
        { change (process_count (process_index d) []) with 0 in Hlt. lia. }
        exists p. split; [done|]. rewrite Hcount. case_decide; subst; lia.
      * exists (process_index d). split; [done|]. rewrite Hcount. by rewrite decide_True.
  - by exists counts, n.
Qed.

(** The devices of this process in the assignment. *)
Lemma add_devices ids ds : Forall2 (fun id d => LookupDevice id = OK d) ids ds ->
  forall found, foldM (add_device this_process LookupDevice) found ids =
    OK (found ++ filter (fun d => process_index d = this_process) ds).
Proof.
  induction 1 as [|id d ids ds Hd _ IH]; intros found; cbn [foldM]; [by rewrite filter_nil, app_nil_r|].
  assert (add_device this_process LookupDevice found id =
    OK (if bool_decide (process_index d = this_process) then found ++ [d] else found)) as ->.
  { unfold add_device. by rewrite Hd. }
  cbn [mbind Result_bind]. rewrite IH, filter_cons.
  case_bool_decide as Hp; [rewrite decide_True by done|rewrite decide_False by done]; [|done]. by rewrite <- app_assoc.
Qed.

Lemma find_devices_local da ds : Forall2 (fun id d => LookupDevice id = OK d) (concat da) ds ->
  find_devices this_process LookupDevice da false =
    let found := filter (fun d => process_index d = this_process) ds in
    if bool_decide (found = []) then Err kInvalidArgument "does not have any local devices." else OK found.
Proof. intros Hds. unfold find_devices. by rewrite (add_devices _ _ Hds). Qed.

(** The greatest number of devices that a process has in the assignment. *)
Lemma compute_max_per_process_OK da processes : Zlength devices = processes * addressable_device_count ->
  0 < addressable_device_count -> 0 <= processes -> valid_ids processes (concat da) ->
  exists n, compute_max_per_process da None = OK n /\
    (forall p, 0 <= p < processes -> process_count p (concat da) <= n) /\
    (n = 0 /\ concat da = [] \/ exists p, 0 <= p < processes /\ n = process_count p (concat da)).
Proof.
  intros Hlen Haddr Hp Hv. unfold PjrtClient.compute_max_per_process. rewrite Hlen.
  assert (cdiv (processes * addressable_device_count) addressable_device_count = OK processes) as ->.
  { unfold cdiv. case_bool_decide; [lia|]. by rewrite Z.quot_mul. }
  cbn [mbind Result_bind]. destruct (count_processes processes (concat da) Hp Hv) as (counts & n' & -> & H1 & H2).
  by exists n'.
Qed.

Lemma two_processes p1 p2 ids : p1 <> p2 -> process_count p1 ids + process_count p2 ids <= Zlength ids.
Proof.
  intros Hne. induction ids as [|id ids IH] using rev_ind; [done|]. rewrite !process_count_snoc.
  unfold Zlength in *. rewrite length_app. cbn [length].
  assert (on_process p1 id = true -> on_process p2 id = true -> False) as Hboth.
  { unfold on_process. destruct (devices !! Z.to_nat id) as [d|]; [|done]. rewrite !bool_decide_eq_true. congruence. }
  destruct (on_process p1 id), (on_process p2 id); [by destruct Hboth|lia..].
Qed.

(** C39: Assignments that Compile refuses.  When the client has the devices of all its processes,
    an assignment to at least two devices of a process but not to all devices of any process,
    and to devices of more than one process, is an invalid argument, whatever the program. *)
Theorem Compile_refuses (da : list (list Z)) (processes p1 p2 : Z) (name : string) (program_shape executable_layout : ResultShape)
    (contains_custom_call only_compile_device0 : bool) (tasks : Result (CompileOutput C A D HS L)) (ctx : Context_) :
  Zlength devices = processes * addressable_device_count -> 0 < addressable_device_count -> 0 <= processes ->
  valid_ids processes (concat da) ->
  (forall p, 0 <= p < processes -> process_count p (concat da) < addressable_device_count) ->
  0 <= p1 < processes -> 2 <= process_count p1 (concat da) ->
  p1 <> p2 -> 0 < process_count p2 (concat da) ->
  Compile name program_shape executable_layout contains_custom_call (Some da) None only_compile_device0 tasks ctx =
    Err kInvalidArgument "cannot create executable on a subset of GPUs per node across multiple nodes".
Proof.
  intros Hlen Haddr Hp Hv Hall Hp1 H1 Hne H2. unfold PjrtClient.Compile.
  destruct (compute_max_per_process_OK da processes Hlen Haddr Hp Hv) as (n & Hn & Hle & Hmax). rewrite Hn. cbn [mbind Result_bind].
  pose proof (Hle p1 Hp1) as Hn1. assert (n < addressable_device_count) as Hlt.
  { destruct Hmax as [[-> _]|(p & Hpr & ->)]; [lia|by apply Hall]. }
  assert (n < num_elements da) as Hsum.
  { destruct Hmax as [[-> _]|(p & Hpr & ->)]; [lia|]. unfold num_elements. destruct (decide (p = p1)) as [->|Hpp].
    - pose proof (two_processes p1 p2 (concat da) Hne). lia.
    - pose proof (two_processes p p1 (concat da) Hpp). lia. }
  unfold PjrtClient.check_assignment. rewrite (bool_decide_eq_false_2 (num_elements da = 1)) by lia.
  rewrite (bool_decide_eq_false_2 (n = 1)) by lia. cbn [andb orb].
  rewrite (bool_decide_eq_true_2 (n < addressable_device_count)) by done. by rewrite (bool_decide_eq_true_2 (n < num_elements da)).
Qed.

(** C11: Compile and its compilations.  For an assignment that the base client does not take and a
    program without the fast path, the executable has the schedule and the devices of
    this process in the order of the assignment; a compilation is issued for every task
    with such a device, once for each of them for every module, and the last command
    waits for all compilations that are pending, of which there are none afterwards. *)
Theorem Compile_compiles_tasks (da : list (list Z)) (row : list Z) (start n : Z) (max_per_process : option Z) (ds : list ClientDevice)
    (name : string) (program_shape executable_layout : ResultShape) (contains_custom_call : bool)
    (output : CompileOutput C A D HS L) (ctx : Context_) :
  let local := filter (fun d => process_index d = this_process) ds in
  compute_max_per_process da max_per_process = OK n -> check_assignment da n = OK false ->
  Forall2 (fun id d => LookupDevice id = OK d) (concat da) ds -> local <> [] -> vec_at da 0 = OK row -> vec_at row 0 = OK start ->
  (forall op, schedule output = [op] ->
     enable_fast_path_exe && SmallModuleTask instruction_count op && negb contains_custom_call = false) ->
  exists exe ctx' cs, 
    Compile name program_shape executable_layout contains_custom_call (Some da) max_per_process false (OK output) ctx =
      OK (Loaded exe, ctx') /\
    schedule_ exe = schedule output /\ addressable_devices_ exe = client_device <$> local /\
    num_devices exe = Zlength (concat da) /\ device_start exe = start /\
    parameter_shardings_ exe = Some (parameter_shardings output) /\ output_shardings_ exe = Some (root_shardings output) /\
    compiles local (schedule output) cs /\
    exists events, commands ctx' = commands ctx ++ cs ++ [WaitCommand events] /\ pending_compilation_events_ ctx' = ∅ /\
      forall e, e ∈ events <-> e ∈ pending_compilation_events_ ctx \/
        exists n, (n < length cs)%nat /\ e ∈ Event (length (commands ctx) + n).
Proof.
  intros local Hmax Hcheck Hds Hlocal Hrow Hstart Hfast. unfold PjrtClient.Compile. rewrite Hmax. cbn [mbind Result_bind].
  rewrite Hcheck. cbn [mbind Result_bind]. rewrite (find_devices_local _ _ Hds). cbn zeta. fold local.
  rewrite bool_decide_eq_false_2 by exact Hlocal. cbn [mbind Result_bind].
  destruct (compile_schedule_issues local (schedule output) ctx) as (cs & [Hc He] & Hcs).
  set (ctx1 := compile_schedule Event Contains local (schedule output) ctx) in *.
  assert (compile_tasks Event Contains BaseCompile instruction_count CompileNow enable_fast_path_exe contains_custom_call local
    (schedule output) ctx = OK (false, ctx1)) as Hr.
  { unfold compile_tasks, ctx1. destruct (schedule output) as [|[] []]; try done.
    by rewrite (Hfast _ eq_refl). }
  rewrite Hr. cbn [mbind Result_bind]. unfold make_executable. rewrite Hrow. cbn [mbind Result_bind].
  rewrite Hstart. cbn [mbind Result_bind]. do 2 eexists. exists cs. split_and!; [done..|].
  exists (pending_compilation_events_ ctx1). cbn. rewrite Hc, <- app_assoc. done.
Qed.
End compile.
