(* ===== verification/PjrtClientSamples.v ===== *)
(** * Compiling sample programs (mm_pjrt_client.cc)

    The program of SchedulePriority.v, whose second parameter and third output are described;
    a client with two processes of two or of four devices. *)
From S2P Require Import Prelude Hlo Instruction Partition Sharding ShardingIndex Utils BufferScheduling BufferAlias BufferAliasFacts BufferSafety TaskScheduler TaskSchedulerFacts TaskSchedulerRun TaskExecution SchedulePriority ZukuContext PjrtExecutable PjrtClient PjrtClientFacts PjrtClientCompile.
Local Open Scope Z_scope.

Module Client.
Abbreviation Module_ := (SpmdModule nat (gmap (list Z) Z) OpSharding).
Abbreviation Operation := (MpmdOperation nat (gmap (list Z) Z) Slice.t OpSharding).
Definition shape : Shape := MkShape F32 [8].

#[export] Instance op_sharding_eq_dec : EqDecision OpSharding.
Proof. solve_decision. Defined.
#[export] Instance module_eq_dec : EqDecision Module_.
Proof. solve_decision. Defined.
#[export] Instance compiled : CompiledTask Module_ := {
  CompilerOutputAlias _ _ := None;
  Concurrent _ := false;
  CompiledLocally _ := true;
  TempRequired _ := OK 0;
  SpmdRootShape _ := ArrayShape shape;
}.

Section program.
#[local] Existing Instances Priority.hlo_good Priority.scheduled_good Priority.order_of_tables Priority.module_aliases.
#[local] Instance aliases : AliasModule nat nat := Priority.modul Priority.good_outputs Priority.good_order.

Definition module_num_parameters (m : Module_) : nat := length (parameter_instructions (module_computation m)).
Definition root : HloInstructionProto := MkInstr false true (TupleShape [shape; shape; shape]).
Definition entry : list HloInstructionProto := [MkInstr true false (ArrayShape shape); MkInstr true false (ArrayShape shape); root].

Abbreviation partition_tasks := (MpmdPartitionIntoTasks (fun _ => false) (fun _ => None) Priority.partition Priority.colors [] [] ∅ ∅
  (fun _ => OK ()) (fun _ => OK ()) (fun _ _ => OK ()) (fun _ => false) 1%nat).
Abbreviation create := (CreateTasks 0 (fun _ => 1) (fun _ n => n) (fun _ n => 10 + n) module_num_parameters (fun sh _ => sh)
  (fun _ => OK ()) (fun _ => false)).
Definition task_checked (op : Operation) : bool :=
  match op with
  | SpmdHloModuleTask m _ inputs outputs _ _ => bool_decide (module_num_parameters m = length inputs)
  | _ => true
  end.

Lemma partition_runs : exists ops modules temps unused,
  partition_tasks = OK (ops, modules, temps, unused) /\ forallb task_checked ops = true.
Proof.
  assert (match partition_tasks with OK (ops, _, _, _) => forallb task_checked ops | _ => false end = true) as Hok by (by vm_compute).
  destruct partition_tasks as [[[[o m] t] u]| |]; [|done..]. by exists o, m, t, u.
Qed.

Lemma program_ok ops modules : forallb task_checked ops = true ->
  program_of module_num_parameters (fun _ => OK ()) (fun _ => false) 1%nat entry root [Some 1; None] ops modules.
Proof.
  intros Hops. split; [done|done| | |done|done|].
  - apply (Priority.checked (fun p => opcode p = kParameter -> 0 <= parameter_number_of p < num_parameters (count_instructions entry))).
    by vm_compute.
  - intros p Hp. split; [|revert p Hp]; [|apply Forall_forall; apply (bool_decide_unpack _); by vm_compute].
    revert p Hp. apply (proj1 (Forall_forall _ _)). apply (bool_decide_unpack _). by vm_compute.
  - intros m ds inputs outputs scalars flag Hop. split; [|split].
    + apply Is_true_true_2, forallb_True in Hops. rewrite Forall_forall in Hops.
      pose proof (Is_true_true_1 _ (Hops _ Hop)) as Ht. by apply bool_decide_eq_true in Ht.
    + intros input _. unfold IsSubmeshReplicatedScalar. destruct (_ || _); by eexists.
    + intros n _. by eexists.
Qed.

Lemma third_output : 16%nat ∈ MakeInstructionPostOrder 1%nat /\ is_output 16%nat = true /\ GetRootIndex 1%nat 16%nat = Some 2.
Proof. split_and!; [apply (bool_decide_unpack _)|..]; by vm_compute. Qed.

(** The shardings and shapes that are collected describe the third output. *)
Lemma CreateTasks_describes_program_witness : exists ops modules temps unused out op output sh layout,
  partition_tasks = OK (ops, modules, temps, unused) /\ create entry [Some 1; None] (OK (ops, modules, temps, unused)) = OK out /\
  output_shape out = TupleShape (output_shapes out) /\ op ∈ ops /\
  makes (fun _ => 1) (fun _ n => 10 + n) (fun sh _ => sh) op output sh layout /\ key output = (ROOT, 2) /\
  root_shardings out !! 2%nat = Some (ToProto (mpmd_sharding output)) /\ output_shapes out !! 2%nat = Some sh.
Proof.
  destruct partition_runs as (ops & modules & temps & unused & Hrun & Hchecked).
  destruct (CreateTasks_describes_program (PostOrderLaws0 := Priority.good_postorder_laws) (UsersLaws0 := Priority.good_users_laws)
    _ _ _ _ _ _ _ _ _ _ _ _ 0 (fun _ => 1) (fun _ n => n) (fun _ n => 10 + n) module_num_parameters (fun sh _ => sh)
    (fun _ => OK ()) (fun _ => false) 1%nat entry root [Some 1; None] ops modules temps unused Hrun Priority.good_flat
    Priority.good_names (program_ok ops modules Hchecked)) as (out & Hout & _ & _ & [_ Hd] & Hshape).
  destruct third_output as (H1 & H2 & H3).
  destruct (Hd 16%nat 2 H1 H2 H3) as (op & output & sh & layout & Hop & Hm & Hk & Hr & Hs).
  exists ops, modules, temps, unused, out, op, output, sh, layout. split_and!; done.
Defined.
End program.

(** ** A client of two processes with two devices each *)

Definition client_devices (per_process : nat) : list ClientDevice :=
  (fun n => MkClientDevice (n / Z.of_nat per_process) (n mod Z.of_nat per_process, n)) <$> seqZ 0 (2 * Z.of_nat per_process).
Definition LookupDevice (per_process : nat) (id : Z) : Result ClientDevice := vec_at (client_devices per_process) id.
Definition contains (d : Slice.t) (z : Z) : bool := bool_decide (Slice.start d <= z < Slice.start d + Slice.size d).

Definition mod_ (n : nat) : Module_ := MkModule n false None ∅ None 2.
Definition task (n : nat) (d : Slice.t) : Operation := SpmdHloModuleTask (mod_ n) d [] [] [] false.
Definition output : CompileOutput nat (gmap (list Z) Z) Slice.t OpSharding Z :=
  MkOutput [task 0 (Slice.mk 0 4); task 1 (Slice.mk 2 1); task 1 (Slice.mk 3 1); task 2 (Slice.mk 0 2)] [] [] [] [shape] [] []
    (ArrayShape shape).
Abbreviation compile_on per process :=
  (Compile (P := Z) (client_devices per) (Z.of_nat per) process (LookupDevice per) (fun n => {[n]}) contains
    (fun _ => OK ()) (fun _ => 10) (fun _ => OK ()) true).

(** On the second process, two modules are compiled, three compilations. *)
Lemma Compile_compiles_tasks_witness : exists exe ctx' cs,
  compile_on 2%nat 1 "p" (ArrayShape shape) (ArrayShape shape) false (Some [[0; 1; 2; 3]]) None false (OK output)
    (new_context 2) = OK (Loaded exe, ctx') /\
  addressable_devices_ exe = [(0, 2); (1, 3)] /\ pending_compilation_events_ ctx' = ∅ /\
  compiles (P := Z) contains (filter (fun d => process_index d = 1) (client_devices 2)) (schedule output) cs.
Proof.
  destruct (Compile_compiles_tasks (P := Z) (client_devices 2) 2 1 (LookupDevice 2) (fun n => {[n]}) contains
    (fun _ => OK ()) (fun _ => 10) (fun _ => OK ()) true [[0; 1; 2; 3]] [0; 1; 2; 3] 0 2 None (client_devices 2)
    "p" (ArrayShape shape) (ArrayShape shape) false output (new_context 2))
    as (exe & ctx' & cs & Hrun & _ & Haddr & _ & _ & _ & _ & Hc & events & _ & Hp & _); try done.
  - vm_compute. repeat constructor.
  - exists exe, ctx', cs. split_and!; [exact Hrun|exact Haddr|exact Hp|exact Hc].
Defined.

(** Two devices of each of two processes that have four. *)
Lemma Compile_refuses_witness :
  compile_on 4%nat 0 "p" (ArrayShape shape) (ArrayShape shape) false (Some [[0; 1; 4; 5]]) None false (OK output)
    (new_context 4) = Err kInvalidArgument "cannot create executable on a subset of GPUs per node across multiple nodes".
Proof.
  assert (forall p, 0 <= p < 2 -> p = 0 \/ p = 1) as Hp by lia.
  apply (Compile_refuses (P := Z) (client_devices 4) 4 0 (LookupDevice 4) (fun n => {[n]}) contains
    (fun _ => OK ()) (fun _ => 10) (fun _ => OK ()) true [[0; 1; 4; 5]] 2 0 1); try done; try lia.
  - intros id Hid. cbn in Hid. repeat (apply elem_of_cons in Hid as [ ->|Hid]);
      [split; [done|eexists; split; [by vm_compute|done]]..|by apply elem_of_nil in Hid].
  - intros p [->| ->]%Hp; by vm_compute.
Defined.
End Client.
